(* ===== verification/_CoqProject ===== *)
-Q . S2P
Prelude.v
Text.v
Addr.v
Names.v
ProxyHeader.v
Sni.v
WebSocket.v
Frames.v
Record.v
Store.v
StoreReads.v
StoreOpen.v
Limits.v
PeerAuth.v
Mesh.v
Failure.v
ClientApi.v
Bridges.v
Analytics.v
Service.v
Jobs.v
Loops.v
Acme.v
ClientTunnel.v
Dns.v
ClientStore.v
HttpApi.v
Website.v
Metrics.v
Relay.v
RelayStreams.v
Splice.v
Cluster.v
Session.v
CliConfig.v
Daemon.v
Cli.v
CliFiles.v
HttpProxy.v
MeshLinks.v
MeshView.v
Server.v
Notices.v
Crypto.v
ServerConfig.v
Migration.v
