(* ===== verification/Prelude.v ===== *)
(** * OpenTunnel: a verification development

    OpenTunnel gives a machine without a public address a hostname. The server ([src/crates/opentunnel-server]) accepts
    visitors, reads the name they ask for from their TLS ClientHello, and relays the bytes over a WebSocket, the bridge, to
    the client ([src/crates/opentunnel], run by the CLI), which terminates TLS and connects to a local target. The server
    also creates tunnels, gets their certificates from an ACME CA through DNS challenges, renews them, and runs on several
    machines that share a database and tell each other which machine holds which bridge.

    ** How the files correspond to the code

    Each file is one component; a definition has the name of the Rust function, type or constant it translates, and where one
    function is long its parts are definitions of their own. Integers are [Z] with their bounds written out ([U32_MAX],
    saturating operations); text is [string] with its UTF-8 bytes; maps are [gmap], association lists where order matters.
    Fallible code returns [result], a panic is [None].

    - [Prelude], [Text], [Addr]: results, bytes and lists, and what the sources use of Rust's [str] and [std::net].
    - [Names]: hostnames, routes, tunnel IDs and certificate names ([protocol/names.rs], [relay.rs], [csr.rs]).
    - [ProxyHeader]: the PROXY protocol, its writer and its reader ([protocol/proxy.rs], [proxy_protocol.rs]).
    - [Sni]: the incremental ClientHello parser ([sni.rs]).
    - [WebSocket]: frames, fragments and the reader and writer of a bridge's socket ([websocket.rs]).
    - [Frames]: the bridge's control messages and data frames, routes of a profile ([protocol/bridge.rs], [routes.rs]).
    - [Record], [Store]: the stored records and the database's statements ([record.rs], [clock.rs], [store.rs]). A statement
      is atomic; a schedule says which statements of other servers run between two of an operation, and which are lost.
    - [Limits]: clients, rate limits and the issuance backlog ([limits.rs]).
    - [PeerAuth]: signed requests, nonces and the mesh handshake ([peer_auth.rs], [cluster.rs], [mesh.rs]) over any MAC.
    - [Mesh]: announcements between machines and the table they make ([mesh.rs]).
    - [Bridges]: the live bridges of a tunnel, attach, routing, connections ([service.rs], [bridge.rs], [relay.rs]).
    - [Service]: the cached record of a tunnel, the API, certificates, renewals and reconciliation ([service.rs]).
    - [Failure]: what a failed order means, retries, public reasons, the cool-down ([retry.rs], [metrics.rs], [jobs.rs]).
    - [Jobs]: the runner of certificate jobs, their attempts, alarms, the sweeper's lease, the API's own certificate
      ([jobs.rs]); it uses [Service] for the record and [Store] for the jobs.
    - [Acme]: an order with the CA ([acme.rs]); [Dns]: challenge records at the provider ([dns.rs]).
    - [ClientApi]: the client's requests and their retries ([api.rs]); [ClientTunnel]: the running tunnel ([tunnel.rs]).
    - [ClientStore]: a profile's files and the operations on it ([storage.rs], [client.rs]).
    - [HttpApi]: the server's routing and handlers of HTTP requests ([http.rs]) over [Service], [Limits] and [ClientApi];
      [Website]: the site's files and their responses ([website.rs]).
    - [StoreReads], [StoreOpen]: reads of tunnels in batches; connecting, the migrations and the wait at startup ([store.rs]).
    - [Relay], [RelayStreams], [Splice]: the bytes between visitors and a bridge, their budgets, what each side gets of them,
      and copying between two sockets ([bridge.rs], [relay.rs], [net.rs]); [Session]: one bridge's WebSocket ([bridge.rs]).
    - [Cluster]: a visitor on its way to the machine that has its bridge ([cluster.rs], [relay.rs]); [MeshLinks], [MeshView]: the
      links of the mesh, the machines it dials and what it tells of them ([mesh.rs]); [Notices]: what a machine does about what the others tell it
      ([cluster.rs], [service.rs]), over [Mesh], [Store] and [Service].
    - [Server], [ServerConfig]: limits on connections and handshakes, the shutdown, and what a configuration makes of a server
      ([server.rs], [net.rs], [http.rs], [config.rs]); [Loops]: the background loops over time ([jobs.rs]).
    - [Migration]: exports, imports and the admin endpoints ([migration.rs], [admin.rs]).
    - [Analytics], [Metrics], [Crypto]: product events, what is counted and warned of, identifiers, tokens and PEM text
      ([analytics.rs], [metrics.rs], [crypto.rs], [acme.rs], [tls.rs]).
    - [HttpProxy]: the client's connection through an HTTP proxy ([http_proxy.rs]).
    - [CliConfig], [Daemon], [Cli], [CliFiles]: the command line's route file, its background service, its commands, and its
      private files, paths and unit files ([crates/opentunnel-cli], [paths.rs]).

    State is explicit. [Store] has a monad over the database and a schedule; [Service] and [Jobs] build theirs on it, with
    the entry's cache, the messages to other tasks and the lease. [Bridges], [Mesh], [MeshLinks], [Relay], [Session],
    [StoreReads], [Notices], [Server], [Daemon] and [ClientTunnel] are step functions over inputs that arrive in any order.
    [Acme] and [Dns] take the outside world as functions of everything that happened before, so that their theorems hold for
    every CA, provider, and moment of a shutdown. What is not in the sources (JSON, X.509, signatures, the MAC, time text) is
    a parameter or a class with the documented behaviour the code relies on.

    ** What the theorems show

    - Data: parsers answer alike for any chunking, messages, frames and addresses are read back as they were written, and the
      server's and the client's view of a name agree ([Sni], [WebSocket], [Frames], [ProxyHeader], [Names]).
    - Storage: saves are atomic read-modify-writes, a lease is held by one machine, and of the requests of every machine no more
      than the rate allows are told they may go on, under any interleaving and loss ([Store], [Limits]).
    - Routing: a route has one live bridge, a visitor reaches it while there is room, what the mesh is told is what is there
      (save after a sweep without the record, which leaves an entry nobody withdraws: a theorem of its own), tables converge, and
      lookups name the newest bridge ([Bridges], [Mesh], [PeerAuth]).
    - Tunnels and certificates: every write of every request is a step of a record's life, a tunnel that serves keeps
      serving, names are given out once, a waiting client has a job, renewals are not lost ([Service]); attempts follow a
      protocol, ask for their lease before they record a result, and end or put off their job, the runner keeps its limits ([Jobs], [Failure]).
    - The CA and the DNS: requests stay on the CA's origin, the challenge is shown first, records are deleted only when the CA
      is done with them, and left only when an authorization could not be settled, a success is a certificate for the request's key, and a sweep spares attempts that
      run ([Acme], [Dns]).
    - The client: a visitor's connection goes to the target of its route, streams do not mix, every connection is reported
      opened and closed once, and a tunnel tries again until it must not ([ClientTunnel], [ClientApi]); credentials once saved
      are not lost wherever the process dies, but a renewed certificate can stay saved in part ([ClientStore]).
    - The API: each of the client's requests reaches its operation, and only a tunnel's owner is served ([HttpApi]).
    - Bytes: what waits in memory stays within the budgets; each side gets what the other sent in order and an end only after all
      of it, save that a bridge being cancelled can skip bytes, the subject of a theorem of its own ([Relay],
      [RelayStreams], [Splice]); an attach comes before anything else in a session ([Session]).
    - Machines: a visitor reaches the machine that has its bridge, what another machine serves is not taken from it, only a
      machine with the secret is believed, every address a lookup finds is kept dialed, and a tunnel's bridges are closed
      even when the announcement of its deletion was missed ([Cluster], [MeshLinks], [Notices]).
    - Operations: a batched read answers with its tunnel at a moment while it waited, and each one is answered ([StoreReads]);
      servers may migrate one database at once ([StoreOpen]); an export has every tunnel there was, the text of a quiet one restores
      them all through the admin endpoint, and an import cannot give a tunnel another's name ([Migration]); connections and handshakes keep their limits
      ([Server]); the loops look in time ([Loops]); events are posted at most once and in order ([Analytics]).
    - The command line: an added route is served, edits reach the tunnel, private files are never open to others, and arguments
      are read back from unit files, with the exceptions the findings name ([Cli], [Daemon], [CliConfig], [CliFiles]).

    Theorems that a claim is attached to name it in their comment; the others are used by them or complete the picture. Every
    hypothesis of a claim is met by a concrete input in its witness, in a [Demo] module where the input needs definitions.

    ** Bounds and fuel

    Loops of the code that are not structural have fuel. In [Sni] and [WebSocket] running out of it is a result of its own,
    and the theorems say it does not happen for the fuel the definitions give (the length of the input and one more). Loops
    with a limit of their own in the source take that limit: the retries of [ClientApi], [Acme] and [Dns], the polls of
    [Acme], the 1000 pages of [Dns]. The wait for a certificate in [ClientStore] has any number of polls, and being out of them is
    the process ending there. An export takes a page more than the table has rows, which its theorem shows to be enough; the
    wait for the database in [StoreOpen] takes its limit over its shortest pause, and two. Loops that run for as long as the
    process (the supervisor, a session, the runner) are folds over the inputs that arrive, and the theorems hold for every
    finite stretch of them.

    ** What is not modelled

    Sockets and their options, the configuration of rustls and of the certificate it serves, key generation, base64, X.509 and
    the JSON and TOML texts, which are parameters where they matter; the registry of metrics and its counters; which
    analytics events the service publishes; logs, printing, the parsing of arguments and the fixed text of unit files;
    the pool of database connections and its warming; the server's [main]; the load test. These are libraries, I/O,
    output, or wiring around the components above.

    Where the model is coarser than the code: an operation on an entry reads its clock once; revisions and times do not wrap; a
    row always decodes; a token is compared by equality in [Bridges] (which is what the constant-time comparison of [Service]
    is); a machine that leaves says so in the step that sets its flag; the waiters of a budget may get it in any order; a link of
    [MeshLinks] begins with the machine its handshake proved ([PeerAuth] has the handshake); and a file that could not be
    written ends the command there, as a death at that point would. *)

From Stdlib Require Import ZArith Lia Ascii String List.
From stdpp Require Import base list strings gmap sets sorting.

#[global] Open Scope Z_scope.

(** ** Results: Rust's [Result<T, E>] *)

Inductive result (A E : Type) : Type :=
| Ok (a : A)
| Err (e : E).
Arguments Ok {A E} a.
Arguments Err {A E} e.

#[export] Instance result_eq_dec {A E} `{EqDecision A, EqDecision E} : EqDecision (result A E).
Proof. solve_decision. Defined.

Definition result_bind {A B E} (m : result A E) (k : A -> result B E) : result B E :=
  match m with Ok a => k a | Err e => Err e end.

Definition result_map_err {A E F} (f : E -> F) (m : result A E) : result A F :=
  match m with Ok a => Ok a | Err e => Err (f e) end.

Definition ok_or {A E} (o : option A) (e : E) : result A E :=
  match o with Some a => Ok a | None => Err e end.

Definition result_ok {A E} (m : result A E) : option A :=
  match m with Ok a => Some a | Err _ => None end.

Declare Scope ot_scope.
Delimit Scope ot_scope with ot.
Notation "'let?' x ':=' m 'in' k" := (result_bind m (fun x => k))
  (at level 10, x pattern, m at level 100, k at level 200, only parsing) : ot_scope.
Notation "'let*' x ':=' m 'in' k" := (mbind (fun x => k) m)
  (at level 10, x pattern, m at level 100, k at level 200, only parsing) : ot_scope.
#[global] Open Scope ot_scope.

(** ** Bytes: a [u8] is a [Z] in [0, 256); a Rust [String] is its UTF-8 bytes, one character per byte *)

Abbreviation bytes := (list Z).

Definition byte_ok (b : Z) : Prop := 0 <= b < 256.
#[export] Instance byte_ok_dec b : Decision (byte_ok b) := decide (0 <= b /\ b < 256).
Abbreviation bytes_ok := (Forall byte_ok).

Definition byte_of_ascii (c : ascii) : Z := Z.of_N (N_of_ascii c).
Definition ascii_of_byte (b : Z) : ascii := ascii_of_N (Z.to_N b).

Definition as_bytes (s : string) : bytes := map byte_of_ascii (list_ascii_of_string s).
Definition of_bytes (b : bytes) : string := string_of_list_ascii (map ascii_of_byte b).
Definition byte (c : ascii) : Z := byte_of_ascii c.
Notation "b# c" := (byte c%char) (at level 1, c at level 0, format "b# c") : ot_scope.

Create HintDb ot.
Create Rewrite HintDb ot.
#[global] Hint Extern 1 => lia : ot.

(** ** Slices and sequences: what the sources use of [std] *)

(** [&l[a..b]]: [None] where Rust panics. *)
Definition slice {A} (l : list A) (a b : nat) : option (list A) :=
  if (a <=? b)%nat && (b <=? length l)%nat then Some (take (b - a) (drop a l)) else None.

Fixpoint strip_prefix_l {A} `{EqDecision A} (p l : list A) : option (list A) :=
  match p, l with
  | [], _ => Some l
  | x :: p', y :: l' => if decide (x = y) then strip_prefix_l p' l' else None
  | _ :: _, [] => None
  end.

Definition strip_suffix_l {A} `{EqDecision A} (p l : list A) : option (list A) :=
  option_map (@rev A) (strip_prefix_l (rev p) (rev l)).

(** [split_once c]: around the first [c]. *)
Fixpoint split_once_l {A} `{EqDecision A} (c : A) (l : list A) : option (list A * list A) :=
  match l with
  | [] => None
  | x :: l' =>
      if decide (x = c) then Some ([], l')
      else match split_once_l c l' with
           | Some (a, b) => Some (x :: a, b)
           | None => None
           end
  end.

(** [rsplit_once c]: around the last [c]. *)
Definition rsplit_once_l {A} `{EqDecision A} (c : A) (l : list A) : option (list A * list A) :=
  match split_once_l c (rev l) with
  | Some (a, b) => Some (rev b, rev a)
  | None => None
  end.

(** [split c]: all fields, one more than there are separators. *)
Fixpoint split_l {A} `{EqDecision A} (c : A) (l : list A) : list (list A) :=
  match l with
  | [] => [[]]
  | x :: l' =>
      if decide (x = c) then [] :: split_l c l'
      else match split_l c l' with
           | f :: fs => (x :: f) :: fs
           | [] => [[x]]
           end
  end.

(** A stable sort by a key. *)
Fixpoint insert_by {A} (key : A -> Z) (x : A) (l : list A) : list A :=
  match l with
  | [] => [x]
  | y :: l' => if key x <=? key y then x :: l else y :: insert_by key x l'
  end.
Definition sort_by {A} (key : A -> Z) (l : list A) : list A := fold_right (insert_by key) [] l.

(** [to_be_bytes] on [k] bytes, and [from_be_bytes]. *)
Fixpoint be_bytes (k : nat) (n : Z) : bytes :=
  match k with
  | O => []
  | S k' => Z.shiftr n (8 * Z.of_nat k') mod 256 :: be_bytes k' n
  end.

Definition be_value (l : bytes) : Z := fold_left (fun acc b => acc * 256 + b) l 0.

(** [u16_at]: two big-endian bytes, [None] where indexing panics. *)
Definition u16_at (data : bytes) (offset : nat) : option nat :=
  match data !! offset, data !! S offset with
  | Some hi, Some lo => Some (Z.to_nat (Z.lor (Z.shiftl hi 8) lo))
  | _, _ => None
  end.

(** Unsigned arithmetic at its width. *)
Definition U16_MAX : Z := 65535.
Definition U32_MAX : Z := 4294967295.
Definition U64_MAX : Z := 18446744073709551615.
Definition sat_sub (a b : Z) : Z := Z.max 0 (a - b).
Definition sat_add (a b : Z) : Z := Z.min U64_MAX (a + b).
Definition sat_mul (a b : Z) : Z := Z.min U64_MAX (a * b).

(** Splits every boolean connective of the context and the goal into propositions. *)
Ltac bsimp :=
  repeat match goal with
    | H : _ && _ = true |- _ => apply andb_prop in H; destruct H
    | H : negb _ = true |- _ => apply negb_true_iff in H
    | H : negb _ = false |- _ => apply negb_false_iff in H
    | H : bool_decide _ = true |- _ => apply bool_decide_eq_true in H
    | H : bool_decide _ = false |- _ => apply bool_decide_eq_false in H
    | H : (_ <=? _) = true |- _ => apply Z.leb_le in H
    | H : (_ <=? _) = false |- _ => apply Z.leb_gt in H
    | H : (_ <? _) = true |- _ => apply Z.ltb_lt in H
    | H : (_ <? _) = false |- _ => apply Z.ltb_ge in H
    | H : (_ =? _) = true |- _ => apply Z.eqb_eq in H
    | H : (_ =? _) = false |- _ => apply Z.eqb_neq in H
    | H : (_ <=? _)%nat = true |- _ => apply Nat.leb_le in H
    | H : (_ <=? _)%nat = false |- _ => apply Nat.leb_gt in H
    | H : (_ <? _)%nat = true |- _ => apply Nat.ltb_lt in H
    | H : (_ <? _)%nat = false |- _ => apply Nat.ltb_ge in H
    | H : (_ =? _)%nat = true |- _ => apply Nat.eqb_eq in H
    | H : (_ =? _)%nat = false |- _ => apply Nat.eqb_neq in H
    end.

(** Case analysis on the scrutinee of the first [if] or [match] of the goal or a hypothesis. *)
Ltac case_split :=
  match goal with
  | |- context [if ?b then _ else _] => let E := fresh "E" in destruct b eqn:E
  | |- context [match ?x with _ => _ end] => let E := fresh "E" in destruct x eqn:E
  | H : context [if ?b then _ else _] |- _ => let E := fresh "E" in destruct b eqn:E
  | H : context [match ?x with _ => _ end] |- _ => let E := fresh "E" in destruct x eqn:E
  end.

(** Proves [bytes_ok] of a concatenation of literals and of lists known to be bytes. *)
Ltac solve_bytes_ok :=
  repeat first
    [ exact (List.Forall_nil _)
    | assumption
    | solve [eauto with ot]
    | apply Forall_app; split
    | apply Forall_cons; split; [unfold byte_ok; lia|] ].

(** ** Lemmas on bytes and strings *)

Lemma byte_of_ascii_ok c : byte_ok (byte_of_ascii c).
Proof.
  unfold byte_ok, byte_of_ascii. pose proof (N_ascii_bounded c). lia.
Qed.

Lemma ascii_of_byte_of_ascii c : ascii_of_byte (byte_of_ascii c) = c.
Proof.
  unfold ascii_of_byte, byte_of_ascii. rewrite N2Z.id. apply ascii_N_embedding.
Qed.

Lemma byte_of_ascii_of_byte b : byte_ok b -> byte_of_ascii (ascii_of_byte b) = b.
Proof.
  unfold byte_ok, ascii_of_byte, byte_of_ascii. intros H.
  rewrite N_ascii_embedding by lia. lia.
Qed.

Lemma as_bytes_ok s : bytes_ok (as_bytes s).
Proof.
  unfold as_bytes. apply Forall_forall. intros x Hx.
  apply list_elem_of_In, in_map_iff in Hx as (c & <- & _). apply byte_of_ascii_ok.
Qed.

Lemma of_as_bytes s : of_bytes (as_bytes s) = s.
Proof.
  unfold of_bytes, as_bytes. rewrite map_map.
  rewrite (map_ext _ id) by apply ascii_of_byte_of_ascii.
  rewrite map_id. apply string_of_list_ascii_of_string.
Qed.

Lemma as_of_bytes b : bytes_ok b -> as_bytes (of_bytes b) = b.
Proof.
  intros H. unfold of_bytes, as_bytes. rewrite list_ascii_of_string_of_list_ascii, map_map.
  induction H as [|x l Hx Hl IH]; simpl; [done|].
  rewrite byte_of_ascii_of_byte by done. by rewrite IH.
Qed.

#[export] Instance as_bytes_inj : Inj (=) (=) as_bytes.
Proof. intros s t H. by rewrite <- (of_as_bytes s), H, of_as_bytes. Qed.

Lemma as_bytes_app s t : as_bytes (s +:+ t) = as_bytes s ++ as_bytes t.
Proof.
  unfold as_bytes. induction s as [|c s IH]; [done|]. simpl in *. by rewrite IH.
Qed.

Lemma length_as_bytes s : length (as_bytes s) = String.length s.
Proof. unfold as_bytes. rewrite length_map. induction s; simpl; congruence. Qed.

#[export] Hint Resolve as_bytes_ok byte_of_ascii_ok : ot.
#[export] Hint Rewrite of_as_bytes as_bytes_app length_as_bytes : ot.

(** ** Lemmas on sequences *)

Section seq.
Context {A : Type} `{EqDecision A}.
Implicit Types (l p q a b : list A) (c : A).

Lemma strip_prefix_l_Some p l q : strip_prefix_l p l = Some q <-> l = p ++ q.
Proof.
  revert l; induction p as [|x p IH]; intros l; simpl; [naive_solver|].
  destruct l as [|y l]; [naive_solver|].
  case_decide; subst; [rewrite IH|]; naive_solver.
Qed.

Lemma strip_suffix_l_Some p l q : strip_suffix_l p l = Some q <-> l = q ++ p.
Proof.
  unfold strip_suffix_l. split.
  - intros H. destruct (strip_prefix_l (rev p) (rev l)) as [r|] eqn:E; [|done].
    simpl in H. injection H as <-. apply strip_prefix_l_Some in E.
    rewrite <- (rev_involutive l), E, rev_app_distr, rev_involutive. done.
  - intros ->. rewrite rev_app_distr.
    rewrite (proj2 (strip_prefix_l_Some (rev p) _ (rev q)) eq_refl).
    simpl. by rewrite rev_involutive.
Qed.

(** The part before the first separator is unique. *)
Lemma first_sep_inj (c : A) a a' b b' :
  a ++ c :: b = a' ++ c :: b' -> c ∉ a -> c ∉ a' -> a = a' /\ b = b'.
Proof.
  revert a'; induction a as [|z a IH]; intros [|w a'] HE Ha Ha'; simpl in HE.
  - by injection HE.
  - injection HE as <- _. set_solver.
  - injection HE as -> _. set_solver.
  - injection HE as -> HE. destruct (IH a' HE) as [-> ->]; set_solver.
Qed.

Lemma split_once_l_Some c l a b :
  split_once_l c l = Some (a, b) <-> l = a ++ c :: b /\ c ∉ a.
Proof.
  revert a b; induction l as [|x l IH]; intros a b; simpl.
  { split; [done|]. intros [? _]. destruct a; done. }
  case_decide as Hx.
  - subst. split; [intros [= <- <-]; split; [done|apply not_elem_of_nil]|].
    intros [H2 H3]. destruct a as [|y a]; [by injection H2 as <-|].
    injection H2 as <- ->. set_solver.
  - destruct (split_once_l c l) as [[a' b']|] eqn:E.
    + specialize (IH a' b') as [IH _]. destruct (IH eq_refl) as [-> Hc].
      split; [intros [= <- <-]; split; [done|set_solver]|].
      intros [H2 H3]. destruct a as [|y a]; [by injection H2|].
      injection H2 as -> H2. f_equal.
      apply (first_sep_inj c) in H2 as [-> ->]; set_solver.
    + split; [done|]. intros [H2 H3]. destruct a as [|y a]; [by injection H2|].
      injection H2 as -> H2. specialize (IH a b) as [_ IH].
      exfalso. enough (None = Some (a, b)) by done. apply IH. split; [done|set_solver].
Qed.

Lemma rsplit_once_l_Some c l a b :
  rsplit_once_l c l = Some (a, b) <-> l = a ++ c :: b /\ c ∉ b.
Proof.
  unfold rsplit_once_l. split.
  - destruct (split_once_l c (rev l)) as [[x y]|] eqn:E; [|done].
    intros [= <- <-]. apply split_once_l_Some in E as [E Hx].
    rewrite <- (rev_involutive l), E, rev_app_distr. simpl.
    rewrite <- app_assoc. split; [done|].
    intros Hin. apply Hx. by apply list_elem_of_In, in_rev, list_elem_of_In in Hin.
  - intros [-> Hb].
    assert (split_once_l c (rev (a ++ c :: b)) = Some (rev b, rev a)) as ->.
    { apply split_once_l_Some. rewrite rev_app_distr. simpl. rewrite <- app_assoc.
      split; [done|]. intros Hin. apply Hb.
      by apply list_elem_of_In, in_rev, list_elem_of_In in Hin. }
    by rewrite !rev_involutive.
Qed.

Lemma split_l_nonempty c l : split_l c l <> [].
Proof. destruct l; simpl; [done|]. case_decide; [done|]. by destruct (split_l c l). Qed.

Lemma split_l_app c a b :
  c ∉ a -> split_l c (a ++ c :: b) = a :: split_l c b.
Proof.
  induction a as [|x a IH]; intros Hc; simpl.
  - by rewrite decide_True.
  - rewrite decide_False by set_solver. by rewrite IH by set_solver.
Qed.

Lemma split_l_single c a : c ∉ a -> split_l c a = [a].
Proof.
  induction a as [|x a IH]; intros Hc; simpl; [done|].
  rewrite decide_False by set_solver. by rewrite IH by set_solver.
Qed.

Lemma split_l_cases c l :
  ((c ∉ l) /\ split_l c l = [l]) \/
  exists a b, (c ∉ a) /\ l = a ++ c :: b /\ split_l c l = a :: split_l c b.
Proof.
  destruct (decide (c ∈ l)) as [Hin|Hn]; [right|left].
  - apply list_elem_of_split_l in Hin as (a & b & -> & Ha).
    exists a, b. by rewrite split_l_app.
  - by rewrite split_l_single.
Qed.

Lemma slice_Some l (a b : nat) s :
  slice l a b = Some s -> (a <= b <= length l)%nat /\ s = take (b - a) (drop a l).
Proof. unfold slice. intros. repeat case_split; bsimp; simplify_eq; split; [lia|done]. Qed.

Lemma slice_ok l (a b : nat) : (a <= b <= length l)%nat -> slice l a b = Some (take (b - a) (drop a l)).
Proof.
  intros. unfold slice. by rewrite (proj2 (Nat.leb_le _ _)), (proj2 (Nat.leb_le _ _)) by lia.
Qed.

Lemma slice_mid l1 l2 l3 (a b : nat) :
  a = length l1 -> b = (length l1 + length l2)%nat -> slice (l1 ++ l2 ++ l3) a b = Some l2.
Proof.
  intros -> ->. rewrite slice_ok by (rewrite !length_app; lia).
  rewrite drop_app_length. f_equal.
  replace (length l1 + length l2 - length l1)%nat with (length l2) by lia.
  apply take_app_length.
Qed.
End seq.

Lemma forallb_removelast_last {A} (f : A -> bool) (l : list A) (d : A) :
  l <> [] -> forallb f l = forallb f (removelast l) && f (List.last l d).
Proof.
  intros H. rewrite (app_removelast_last d H) at 1. rewrite forallb_app. simpl. by rewrite andb_true_r.
Qed.

(** ** Lemmas on big-endian integers *)

Lemma length_be_bytes k n : length (be_bytes k n) = k.
Proof. induction k; simpl; congruence. Qed.

Lemma be_bytes_ok k n : bytes_ok (be_bytes k n).
Proof.
  induction k; simpl; constructor; [|done]. apply Z.mod_pos_bound. lia.
Qed.

Lemma be_value_app l1 l2 :
  be_value (l1 ++ l2) = be_value l1 * 256 ^ Z.of_nat (length l2) + be_value l2.
Proof.
  unfold be_value. rewrite fold_left_app.
  generalize (fold_left (fun acc b => acc * 256 + b) l1 0). intros z.
  revert z. induction l2 as [|x l IH]; intros z; cbn [fold_left length]; [simpl; lia|].
  rewrite (IH (z * 256 + x)), (IH (0 * 256 + x)). rewrite Nat2Z.inj_succ, Z.pow_succ_r by lia. lia.
Qed.

Lemma be_value_bytes k n : be_value (be_bytes k n) = n mod 256 ^ Z.of_nat k.
Proof.
  induction k as [|k IH]; simpl; [by rewrite Z.mod_1_r|].
  change (?x :: ?l) with ([x] ++ l). rewrite be_value_app, IH, length_be_bytes.
  unfold be_value at 1; simpl. rewrite Nat2Z.inj_succ, Z.pow_succ_r by lia.
  rewrite Z.shiftr_div_pow2 by lia. rewrite Z.pow_mul_r by lia. change (2 ^ 8) with 256.
  rewrite (Z.mul_comm 256). rewrite Z.rem_mul_r by lia. lia.
Qed.

Lemma be_value_bytes_id k n : 0 <= n < 256 ^ Z.of_nat k -> be_value (be_bytes k n) = n.
Proof. intros. rewrite be_value_bytes. by apply Z.mod_small. Qed.

Lemma land_shiftl_small hi lo k : 0 <= k -> 0 <= lo < 2 ^ k -> Z.land (Z.shiftl hi k) lo = 0.
Proof.
  intros Hk Hlo. apply Z.bits_inj'. intros n Hn. rewrite Z.land_spec, Z.bits_0.
  destruct (Z.lt_ge_cases n k); [by rewrite Z.shiftl_spec_low|].
  rewrite <- (Z.mod_small lo (2 ^ k)) by done.
  rewrite (Z.mod_pow2_bits_high lo k n) by lia. apply andb_false_r.
Qed.

Lemma lor_shiftl_add hi lo k : 0 <= k -> 0 <= lo < 2 ^ k -> Z.lor (Z.shiftl hi k) lo = hi * 2 ^ k + lo.
Proof.
  intros Hk Hlo. pose proof (land_shiftl_small hi lo k Hk Hlo) as H0.
  rewrite <- Z.shiftl_mul_pow2 by done.
  by rewrite Z.add_nocarry_lxor, <- Z.lxor_lor by done.
Qed.

Lemma lor_byte hi lo : byte_ok lo -> Z.lor (Z.shiftl hi 8) lo = hi * 256 + lo.
Proof. intros. by apply lor_shiftl_add. Qed.

Lemma u16_at_ok data offset :
  (offset + 1 < length data)%nat -> exists n, u16_at data offset = Some n.
Proof.
  intros H. unfold u16_at.
  destruct (lookup_lt_is_Some_2 data offset) as [x ->]; [lia|].
  destruct (lookup_lt_is_Some_2 data (S offset)) as [y ->]; [lia|]. eauto.
Qed.

Lemma be_bytes_low k a v : 0 <= k -> be_bytes (Z.to_nat k) (a * 256 ^ k + v) = be_bytes (Z.to_nat k) v.
Proof.
  intros Hk. rewrite <- (Z2Nat.id k Hk) at 2. generalize (Z.to_nat k) as m. clear k Hk.
  induction m as [|m IH] in a |- *; [done|]. cbn [be_bytes]. f_equal.
  - rewrite !Z.shiftr_div_pow2 by lia. rewrite Z.pow_mul_r by lia. change (2 ^ 8) with 256.
    rewrite Nat2Z.inj_succ, Z.pow_succ_r by lia.
    replace (a * (256 * 256 ^ Z.of_nat m) + v) with (v + (a * 256) * 256 ^ Z.of_nat m) by lia.
    rewrite Z.div_add by lia. by apply Z.mod_add.
  - rewrite Nat2Z.inj_succ, Z.pow_succ_r by lia.
    replace (a * (256 * 256 ^ Z.of_nat m)) with ((a * 256) * 256 ^ Z.of_nat m) by lia. apply IH.
Qed.

Lemma be_value_bounds l : bytes_ok l -> 0 <= be_value l < 256 ^ Z.of_nat (length l).
Proof.
  induction 1 as [|b l Hb Hl IH]; [cbn; lia|].
  change (b :: l) with ([b] ++ l). rewrite be_value_app. change (be_value [b]) with b.
  unfold byte_ok in Hb. cbn [length app]. rewrite Nat2Z.inj_succ, Z.pow_succ_r by lia. nia.
Qed.

Lemma be_bytes_value l : bytes_ok l -> be_bytes (length l) (be_value l) = l.
Proof.
  induction 1 as [|b l Hb Hl IH]; [done|].
  change (be_value (b :: l)) with (be_value ([b] ++ l)). rewrite be_value_app. change (be_value [b]) with b.
  cbn [length be_bytes]. pose proof (be_value_bounds l Hl). f_equal.
  - rewrite Z.shiftr_div_pow2 by lia. rewrite Z.pow_mul_r by lia. change (2 ^ 8) with 256.
    rewrite Z.div_add_l, Z.div_small by lia. rewrite Z.add_0_r. by apply Z.mod_small.
  - pose proof (be_bytes_low (Z.of_nat (length l)) b (be_value l) ltac:(lia)) as H'.
    rewrite Nat2Z.id in H'. by rewrite H'.
Qed.

(** *** Reading at a known offset *)

Lemma u16_at_mid pre n post i :
  i = length pre -> 0 <= n < 65536 -> u16_at (pre ++ be_bytes 2 n ++ post) i = Some (Z.to_nat n).
Proof.
  intros -> Hn. unfold u16_at. cbn [be_bytes app].
  rewrite list_lookup_middle by done.
  rewrite lookup_app_r by lia. replace (S (length pre) - length pre)%nat with 1%nat by lia. cbn.
  f_equal. rewrite lor_byte by (apply Z.mod_pos_bound; lia).
  pose proof (be_value_bytes_id 2 n ltac:(simpl; lia)) as H. unfold be_value in H. cbn in H.
  f_equal. lia.
Qed.

Lemma u8_at_mid pre (b : Z) post i : i = length pre -> (pre ++ [b] ++ post) !! i = Some b.
Proof. intros ->. by apply list_lookup_middle. Qed.

(** ** Lemmas on the stable sort *)

Section Sort.
Context {A : Type} (key : A -> Z).

Lemma insert_by_perm x l : insert_by key x l ≡ₚ x :: l.
Proof. induction l as [|y l IH]; cbn; [done|]. case_split; [done|]. rewrite IH. constructor. Qed.

Lemma sort_by_perm l : sort_by key l ≡ₚ l.
Proof. induction l as [|x l IH]; cbn; [done|]. by rewrite insert_by_perm, IH. Qed.

(** The order of the sort. *)
Abbreviation below := (fun a b => key a <= key b).

Lemma insert_by_sorted x l : StronglySorted below l -> StronglySorted below (insert_by key x l).
Proof.
  induction 1 as [|y t Ht IHt Hy]; cbn [insert_by]; [repeat constructor|]. destruct (key x <=? key y) eqn:E; bsimp.
  - constructor; [by constructor|]. constructor; [done|]. eapply Forall_impl; [done|]. cbn. lia.
  - constructor; [done|]. rewrite insert_by_perm. constructor; [lia|done].
Qed.

Lemma sort_by_sorted l : StronglySorted below (sort_by key l).
Proof. induction l as [|x l IH]; cbn; [constructor|]. by apply insert_by_sorted. Qed.

(** The first element is the first of those with the least key. *)
Lemma sort_by_head l h t :
  sort_by key l = h :: t -> exists l1 l2, l = l1 ++ h :: l2 /\ Forall (fun y => key h < key y) l1 /\ Forall (fun y => key h <= key y) l2.
Proof.
  revert h t. induction l as [|x l IH]; intros h t; [done|]. change (sort_by key (x :: l)) with (insert_by key x (sort_by key l)).
  pose proof (sort_by_perm l) as Hp. destruct (sort_by key l) as [|y t'].
  - apply Permutation_nil_l in Hp as <-. intros Eh. cbn in Eh. assert (x = h) as -> by congruence.
    exists [], []. by split_and!; [|constructor|constructor].
  - destruct (IH y t' eq_refl) as (l1 & l2 & -> & H1 & H2). cbn [insert_by].
    destruct (key x <=? key y) eqn:E; bsimp; intros Eh.
    + assert (x = h) as -> by congruence. exists [], (l1 ++ y :: l2). split_and!; [done|constructor|]. apply Forall_app. split.
      * eapply Forall_impl; [done|]. cbn. lia.
      * constructor; [done|]. eapply Forall_impl; [done|]. cbn. lia.
    + assert (y = h) as -> by congruence. exists (x :: l1), l2. split_and!; [done|constructor; [lia|done]|done].
Qed.

Lemma sort_by_least l h t y : sort_by key l = h :: t -> y ∈ l -> key h <= key y.
Proof.
  intros Hs Hy. rewrite <- (sort_by_perm l), Hs in Hy. pose proof (sort_by_sorted l) as Hsort. rewrite Hs in Hsort.
  inversion Hsort as [|? ? _ Hall]; subst. apply elem_of_cons in Hy as [->|Hy]; [done|]. rewrite Forall_forall in Hall. auto.
Qed.
End Sort.

(** The head of a sort by [key] of a list sorted by [key']: least by [key], and among those least by [key']. *)
Lemma sort_by_lex {A} (key key' : A -> Z) l h t y :
  sort_by key (sort_by key' l) = h :: t -> y ∈ l -> key y <= key h -> key' h <= key' y.
Proof.
  intros Hs Hy Hk. destruct (sort_by_head _ _ _ _ Hs) as (l1 & l2 & El & H1 & H2).
  rewrite <- (sort_by_perm key' l), El in Hy. pose proof (sort_by_sorted key' l) as Hsort. rewrite El in Hsort.
  apply elem_of_app in Hy as [Hy|Hy]; [rewrite Forall_forall in H1; apply H1 in Hy; lia|].
  apply StronglySorted_app_1_r in Hsort. inversion Hsort as [|? ? _ Hall]; subst.
  apply elem_of_cons in Hy as [->|Hy]; [done|]. rewrite Forall_forall in Hall. auto.
Qed.

(** ** More lemmas on lists *)

Lemma existsb_false {A} (f : A -> bool) l x : existsb f l = false -> In x l -> f x = false.
Proof. intros H Hx. destruct (f x) eqn:E; [|done]. rewrite <- H. symmetry. apply existsb_exists. eauto. Qed.

Lemma NoDup_map_inj {A B} (f : A -> B) l x y : NoDup (map f l) -> x ∈ l -> y ∈ l -> f x = f y -> x = y.
Proof.
  induction l as [|z l IH]; intros Hnd Hx Hy E; [by apply elem_of_nil in Hx|]. cbn [map] in Hnd.
  apply NoDup_cons in Hnd as [Hn Hnd]. apply elem_of_cons in Hx as [->|Hx], Hy as [->|Hy]; [done| | |by apply IH].
  - destruct Hn. rewrite E. by apply list_elem_of_fmap_2.
  - destruct Hn. rewrite <- E. by apply list_elem_of_fmap_2.
Qed.

Lemma find_elem {A} (p : A -> bool) l x : List.find p l = Some x -> x ∈ l /\ p x = true.
Proof. intros [Hx Hp]%find_some. by rewrite list_elem_of_In. Qed.

(** A list around one of its elements. *)
Lemma lookup_split {A} (l : list A) i x :
  l !! i = Some x -> exists l1 l2, l = l1 ++ x :: l2 /\ (forall y, <[i := y]> l = l1 ++ y :: l2) /\ delete i l = l1 ++ l2.
Proof.
  intros Hi. exists (take i l), (drop (S i) l). split_and!.
  - symmetry. by apply take_drop_middle.
  - intros y. apply insert_take_drop. by eapply lookup_lt_Some.
  - apply delete_take_drop.
Qed.
