(* ===== verification/Text.v ===== *)
(** * Text: what the sources use of [str], [String] and the integer parsers of Rust's standard library *)

From Stdlib Require Import ZArith Lia Ascii String List.
From stdpp Require Import base list strings.
From S2P Require Import Prelude.

(** ** Characters *)

Definition is_ascii_lowercase (b : Z) : bool := (97 <=? b) && (b <=? 122).
Definition is_ascii_uppercase (b : Z) : bool := (65 <=? b) && (b <=? 90).
Definition is_ascii_digit (b : Z) : bool := (48 <=? b) && (b <=? 57).
Definition is_ascii_alphanumeric (b : Z) : bool :=
  is_ascii_lowercase b || is_ascii_uppercase b || is_ascii_digit b.
Definition ascii_lower_byte (b : Z) : Z := if is_ascii_uppercase b then b + 32 else b.
Definition ascii_lower (l : bytes) : bytes := map ascii_lower_byte l.
Definition is_ascii (l : bytes) : bool := forallb (fun b => b <? 128) l.

(** [str::to_ascii_lowercase] and [str::to_lowercase]; the latter needs the Unicode case tables on non-ASCII
    text, which stay a parameter. *)
Definition to_ascii_lowercase (s : string) : string := of_bytes (ascii_lower (as_bytes s)).
Definition to_lowercase (unicode_lower : string -> string) (s : string) : string :=
  if is_ascii (as_bytes s) then to_ascii_lowercase s else unicode_lower s.

(** ** String operations, on the UTF-8 bytes *)

Definition str_strip_prefix (p s : string) : option string :=
  option_map of_bytes (strip_prefix_l (as_bytes p) (as_bytes s)).
Definition str_strip_suffix (p s : string) : option string :=
  option_map of_bytes (strip_suffix_l (as_bytes p) (as_bytes s)).
Definition str_split_once (c : ascii) (s : string) : option (string * string) :=
  option_map (fun ab => (of_bytes (fst ab), of_bytes (snd ab)))
    (split_once_l (byte_of_ascii c) (as_bytes s)).
Definition str_rsplit_once (c : ascii) (s : string) : option (string * string) :=
  option_map (fun ab => (of_bytes (fst ab), of_bytes (snd ab)))
    (rsplit_once_l (byte_of_ascii c) (as_bytes s)).
Definition str_split (c : ascii) (s : string) : list string :=
  map of_bytes (split_l (byte_of_ascii c) (as_bytes s)).
Definition str_len (s : string) : nat := length (as_bytes s).
Definition str_is_empty (s : string) : bool := bool_decide (s = "").

(** ** UTF-8 *)

Definition is_cont (b : option Z) : bool :=
  match b with Some b => (128 <=? b) && (b <=? 191) | None => false end.
Definition in_range (lo hi : Z) (b : option Z) : bool :=
  match b with Some b => (lo <=? b) && (b <=? hi) | None => false end.

(** The second byte that may follow a first byte of a three- or four-byte sequence. *)
Definition second_ok (b : Z) (next : option Z) : bool :=
  if b =? 224 then in_range 160 191 next
  else if b =? 237 then in_range 128 159 next
  else if b =? 240 then in_range 144 191 next
  else if b =? 244 then in_range 128 143 next
  else in_range 128 191 next.

Definition char_width (b : Z) : nat :=
  if b <? 128 then 1 else if b <? 194 then 0 else if b <? 224 then 2 else if b <? 240 then 3
  else if b <? 245 then 4 else 0.

(** Whether the sequence at the head is a character, and the bytes it spans: the character's, or those of the
    maximal invalid part. *)
Definition utf8_head (b : Z) (rest : bytes) : bool * nat :=
  match char_width b with
  | 1%nat => (true, 1%nat)
  | 2%nat => if is_cont (rest !! 0%nat) then (true, 2%nat) else (false, 1%nat)
  | 3%nat =>
      if second_ok b (rest !! 0%nat)
      then if is_cont (rest !! 1%nat) then (true, 3%nat) else (false, 2%nat)
      else (false, 1%nat)
  | 4%nat =>
      if second_ok b (rest !! 0%nat)
      then if is_cont (rest !! 1%nat)
           then if is_cont (rest !! 2%nat) then (true, 4%nat) else (false, 3%nat)
           else (false, 2%nat)
      else (false, 1%nat)
  | _ => (false, 1%nat)
  end.

(** U+FFFD *)
Definition REPLACEMENT : bytes := [239; 191; 189].

Fixpoint utf8_lossy_aux (fuel : nat) (l : bytes) : bytes :=
  match fuel, l with
  | S fuel', b :: rest =>
      let '(valid, n) := utf8_head b rest in
      (if valid then take n l else REPLACEMENT) ++ utf8_lossy_aux fuel' (drop n l)
  | _, _ => []
  end.

(** [String::from_utf8_lossy]; every step consumes at least one byte, so the length is fuel enough. *)
Definition from_utf8_lossy (l : bytes) : string := of_bytes (utf8_lossy_aux (length l) l).

Fixpoint utf8_valid_aux (fuel : nat) (l : bytes) : bool :=
  match fuel, l with
  | S fuel', b :: rest =>
      let '(valid, n) := utf8_head b rest in valid && utf8_valid_aux fuel' (drop n l)
  | _, [] => true
  | O, _ => false
  end.

Definition utf8_valid (l : bytes) : bool := utf8_valid_aux (length l) l.

(** [std::str::from_utf8] *)
Definition from_utf8 (l : bytes) : option string :=
  if utf8_valid l then Some (of_bytes l) else None.

(** ** Whitespace: [str::trim] on the UTF-8 encodings of Unicode's White_Space *)

Definition WHITESPACE : list bytes :=
  [[9]; [10]; [11]; [12]; [13]; [32]; [194; 133]; [194; 160]; [225; 154; 128]; [226; 128; 128];
   [226; 128; 129]; [226; 128; 130]; [226; 128; 131]; [226; 128; 132]; [226; 128; 133]; [226; 128; 134];
   [226; 128; 135]; [226; 128; 136]; [226; 128; 137]; [226; 128; 138]; [226; 128; 168]; [226; 128; 169];
   [226; 128; 175]; [226; 129; 159]; [227; 128; 128]].

Fixpoint strip_any (ps : list bytes) (l : bytes) : option bytes :=
  match ps with
  | [] => None
  | p :: ps' => match strip_prefix_l p l with Some l' => Some l' | None => strip_any ps' l end
  end.

Fixpoint trim_with (fuel : nat) (ps : list bytes) (l : bytes) : bytes :=
  match fuel with
  | O => l
  | S fuel' => match strip_any ps l with Some l' => trim_with fuel' ps l' | None => l end
  end.

(** Every step removes at least one byte. *)
Definition trim_bytes (l : bytes) : bytes :=
  let l := trim_with (length l) WHITESPACE l in
  rev (trim_with (length l) (map (@rev Z) WHITESPACE) (rev l)).
Definition str_trim (s : string) : string := of_bytes (trim_bytes (as_bytes s)).

(** ** Decimal integers *)

Fixpoint digits_value (l : bytes) (acc : Z) : option Z :=
  match l with
  | [] => Some acc
  | b :: l' => if is_ascii_digit b then digits_value l' (acc * 10 + (b - 48)) else None
  end.

(** [str::parse] of an unsigned integer at most [max]: a leading [+] is allowed, at least one digit is needed. *)
Definition parse_uint (max : Z) (l : bytes) : option Z :=
  let digits := match l with 43 :: l' => l' | _ => l end in
  match digits with
  | [] => None
  | _ => match digits_value digits 0 with
         | Some n => if n <=? max then Some n else None
         | None => None
         end
  end.

Fixpoint to_dec_aux (fuel : nat) (n : Z) : bytes :=
  match fuel with
  | O => []
  | S fuel' => if n <? 10 then [48 + n] else to_dec_aux fuel' (n / 10) ++ [48 + n mod 10]
  end.

(** [Display] of an unsigned integer: a [u64] has at most 20 digits. *)
Definition to_dec (n : Z) : bytes := to_dec_aux 20 n.
Definition dec_string (n : Z) : string := of_bytes (to_dec n).

(** ** Substrings and characters *)

(** [str::find] of a text: the position of its first occurrence. *)
Fixpoint find_l {A} `{EqDecision A} (p l : list A) : option nat :=
  match strip_prefix_l p l with
  | Some _ => Some O
  | None => match l with [] => None | _ :: l' => S <$> find_l p l' end
  end.
Definition str_contains (s p : string) : bool := bool_decide (is_Some (find_l (as_bytes p) (as_bytes s))).

(** [str::match_indices]: what follows each occurrence, occurrences not overlapping. *)
Fixpoint matches_after {A} `{EqDecision A} (p l : list A) (skip : nat) : list (list A) :=
  match l with
  | [] => []
  | _ :: l' =>
      match skip with
      | S skip' => matches_after p l' skip'
      | O => match strip_prefix_l p l with
             | Some rest => rest :: matches_after p l' (length p - 1)
             | None => matches_after p l' O
             end
      end
  end.

(** [chars().take(n)] of valid UTF-8. *)
Fixpoint take_chars (n : nat) (l : bytes) : bytes :=
  match n, l with
  | S n', b :: _ => take (char_width b) l ++ take_chars n' (drop (char_width b) l)
  | _, _ => []
  end.

(** ** Lemmas *)

Lemma str_len_of_bytes l : str_len (of_bytes l) = length l.
Proof.
  unfold str_len, as_bytes, of_bytes. by rewrite length_map, list_ascii_of_string_of_list_ascii, length_map.
Qed.

Lemma str_app_nil s : s +:+ "" = s.
Proof. apply (inj as_bytes). by rewrite as_bytes_app, app_nil_r. Qed.

Lemma str_strip_prefix_Some p s q : str_strip_prefix p s = Some q <-> s = p +:+ q.
Proof.
  unfold str_strip_prefix. split.
  - destruct (strip_prefix_l _ _) as [r|] eqn:E; [|done]. intros [= <-].
    apply strip_prefix_l_Some in E. apply (inj as_bytes).
    pose proof (as_bytes_ok s) as Hs. rewrite E, Forall_app in Hs.
    rewrite as_bytes_app, as_of_bytes; tauto.
  - intros ->. rewrite as_bytes_app.
    rewrite (proj2 (strip_prefix_l_Some _ _ (as_bytes q)) eq_refl).
    simpl. by rewrite of_as_bytes.
Qed.

Lemma str_strip_suffix_Some p s q : str_strip_suffix p s = Some q <-> s = q +:+ p.
Proof.
  unfold str_strip_suffix. split.
  - destruct (strip_suffix_l _ _) as [r|] eqn:E; [|done]. intros [= <-].
    apply strip_suffix_l_Some in E. apply (inj as_bytes).
    pose proof (as_bytes_ok s) as Hs. rewrite E, Forall_app in Hs.
    rewrite as_bytes_app, as_of_bytes; tauto.
  - intros ->. rewrite as_bytes_app.
    rewrite (proj2 (strip_suffix_l_Some _ _ (as_bytes q)) eq_refl).
    simpl. by rewrite of_as_bytes.
Qed.

Lemma as_bytes_String c s : as_bytes (String c s) = byte_of_ascii c :: as_bytes s.
Proof. done. Qed.

Lemma str_rsplit_once_Some c s a b :
  str_rsplit_once c s = Some (a, b) <->
  s = a +:+ String c b /\ byte_of_ascii c ∉ as_bytes b.
Proof.
  unfold str_rsplit_once. split.
  - destruct (rsplit_once_l _ _) as [[x y]|] eqn:E; [|done]. simpl. intros [= <- <-].
    apply rsplit_once_l_Some in E as [E Hc].
    pose proof (as_bytes_ok s) as Hs. rewrite E in Hs.
    apply Forall_app in Hs as [Hx Hy]. apply Forall_cons in Hy as [_ Hy].
    split; [|by rewrite as_of_bytes].
    apply (inj as_bytes). rewrite as_bytes_app, as_bytes_String, !as_of_bytes by done. done.
  - intros [-> Hc]. rewrite as_bytes_app, as_bytes_String.
    rewrite (proj2 (rsplit_once_l_Some _ _ (as_bytes a) (as_bytes b)) (conj eq_refl Hc)).
    simpl. by rewrite !of_as_bytes.
Qed.

Lemma str_split_once_Some c s a b :
  str_split_once c s = Some (a, b) <->
  s = a +:+ String c b /\ byte_of_ascii c ∉ as_bytes a.
Proof.
  unfold str_split_once. split.
  - destruct (split_once_l _ _) as [[x y]|] eqn:E; [|done]. simpl. intros [= <- <-].
    apply split_once_l_Some in E as [E Hc].
    pose proof (as_bytes_ok s) as Hs. rewrite E in Hs.
    apply Forall_app in Hs as [Hx Hy]. apply Forall_cons in Hy as [_ Hy].
    split; [|by rewrite as_of_bytes].
    apply (inj as_bytes). rewrite as_bytes_app, as_bytes_String, !as_of_bytes by done. done.
  - intros [-> Hc]. rewrite as_bytes_app, as_bytes_String.
    rewrite (proj2 (split_once_l_Some _ _ (as_bytes a) (as_bytes b)) (conj eq_refl Hc)).
    simpl. by rewrite !of_as_bytes.
Qed.

Lemma ascii_lower_byte_ok b : byte_ok b -> byte_ok (ascii_lower_byte b).
Proof.
  unfold byte_ok, ascii_lower_byte, is_ascii_uppercase. intros. case_split; bsimp; lia.
Qed.

Lemma ascii_lower_ok l : bytes_ok l -> bytes_ok (ascii_lower l).
Proof. unfold ascii_lower. induction 1; simpl; constructor; eauto using ascii_lower_byte_ok. Qed.

Lemma as_bytes_lowercase s : as_bytes (to_ascii_lowercase s) = ascii_lower (as_bytes s).
Proof. unfold to_ascii_lowercase. apply as_of_bytes, ascii_lower_ok, as_bytes_ok. Qed.

Lemma ascii_lower_byte_idem b : ascii_lower_byte (ascii_lower_byte b) = ascii_lower_byte b.
Proof.
  unfold ascii_lower_byte, is_ascii_uppercase.
  destruct ((65 <=? b) && (b <=? 90)) eqn:E; [|by rewrite E].
  bsimp. destruct ((65 <=? b + 32) && (b + 32 <=? 90)) eqn:E'; [bsimp; lia|done].
Qed.

Lemma ascii_lower_idem l : ascii_lower (ascii_lower l) = ascii_lower l.
Proof.
  unfold ascii_lower. rewrite map_map. apply map_ext. apply ascii_lower_byte_idem.
Qed.

Lemma to_ascii_lowercase_idem s :
  to_ascii_lowercase (to_ascii_lowercase s) = to_ascii_lowercase s.
Proof. apply (inj as_bytes). by rewrite !as_bytes_lowercase, ascii_lower_idem. Qed.

Lemma to_ascii_lowercase_app s t :
  to_ascii_lowercase (s +:+ t) = to_ascii_lowercase s +:+ to_ascii_lowercase t.
Proof.
  apply (inj as_bytes). rewrite !as_bytes_app, !as_bytes_lowercase, as_bytes_app.
  apply map_app.
Qed.

Lemma ascii_lower_byte_id b : is_ascii_uppercase b = false -> ascii_lower_byte b = b.
Proof. unfold ascii_lower_byte. by intros ->. Qed.

Lemma utf8_lossy_ascii l : is_ascii l = true -> from_utf8_lossy l = of_bytes l.
Proof.
  unfold from_utf8_lossy, is_ascii. intros H. f_equal.
  induction l as [|b l IH]; [done|]. simpl in *. bsimp.
  unfold utf8_head, char_width. rewrite (proj2 (Z.ltb_lt b 128)) by done.
  change (drop 1 (b :: l)) with l. by rewrite IH.
Qed.

Lemma utf8_valid_ascii l : is_ascii l = true -> utf8_valid l = true.
Proof.
  unfold utf8_valid, is_ascii. induction l as [|b l IH]; [done|]. simpl. intros H. bsimp.
  unfold utf8_head, char_width. rewrite (proj2 (Z.ltb_lt b 128)) by done. simpl. auto.
Qed.

Lemma digits_value_app l1 l2 acc :
  digits_value (l1 ++ l2) acc = (let* n := digits_value l1 acc in digits_value l2 n).
Proof.
  revert acc; induction l1 as [|b l1 IH]; intros acc; simpl; [done|].
  case_split; [apply IH|done].
Qed.

Lemma to_dec_aux_S fuel n :
  to_dec_aux (S fuel) n = if n <? 10 then [48 + n] else to_dec_aux fuel (n / 10) ++ [48 + n mod 10].
Proof. done. Qed.

Lemma to_dec_aux_value fuel n :
  0 <= n < 10 ^ Z.of_nat fuel -> (0 < fuel)%nat -> digits_value (to_dec_aux fuel n) 0 = Some n.
Proof.
  revert n; induction fuel as [|fuel IH]; intros n Hn Hf; [lia|].
  rewrite to_dec_aux_S. rewrite Nat2Z.inj_succ, Z.pow_succ_r in Hn by lia.
  destruct (n <? 10) eqn:E; bsimp.
  - simpl. assert (is_ascii_digit (48 + n) = true) as ->.
    { unfold is_ascii_digit. apply andb_true_intro. split; apply Z.leb_le; lia. }
    f_equal. lia.
  - rewrite digits_value_app. pose proof (Z.div_mod n 10 ltac:(lia)) as Hdm.
    pose proof (Z.mod_pos_bound n 10 ltac:(lia)).
    destruct fuel as [|fuel]; [simpl in Hn; lia|].
    rewrite IH; [|lia|lia].
    cbn [mbind option_bind digits_value].
    assert (is_ascii_digit (48 + n mod 10) = true) as ->.
    { unfold is_ascii_digit. apply andb_true_intro. split; apply Z.leb_le; lia. }
    f_equal. lia.
Qed.

Lemma to_dec_aux_digits fuel n :
  0 <= n -> Forall (fun b => 48 <= b <= 57) (to_dec_aux fuel n).
Proof.
  revert n; induction fuel as [|fuel IH]; intros n Hn; simpl; [constructor|].
  case_split; bsimp; [repeat constructor; lia|].
  apply Forall_app. split; [apply IH, Z.div_pos; lia|].
  pose proof (Z.mod_pos_bound n 10 ltac:(lia)). repeat constructor; lia.
Qed.

Lemma to_dec_aux_nonempty fuel n : to_dec_aux (S fuel) n <> [].
Proof. rewrite to_dec_aux_S. case_split; [done|]. by destruct (to_dec_aux fuel (n / 10)). Qed.

Lemma to_dec_digits n : 0 <= n -> Forall (fun b => 48 <= b <= 57) (to_dec n).
Proof. apply to_dec_aux_digits. Qed.

Lemma to_dec_ok n : 0 <= n -> bytes_ok (to_dec n).
Proof.
  intros H. eapply Forall_impl; [by apply to_dec_digits|]. unfold byte_ok. simpl. lia.
Qed.

(** An unsigned integer is read back from its decimal text. *)
Lemma parse_uint_to_dec max n : 0 <= n <= max -> n < 10 ^ 20 -> parse_uint max (to_dec n) = Some n.
Proof.
  intros Hn Hb. unfold parse_uint.
  pose proof (to_dec_digits n ltac:(lia)) as Hd.
  pose proof (to_dec_aux_nonempty 19 n) as Hne. change (to_dec_aux 20 n) with (to_dec n) in Hne.
  pose proof (to_dec_aux_value 20 n ltac:(simpl; lia) ltac:(lia)) as Hv.
  change (to_dec_aux 20 n) with (to_dec n) in Hv.
  destruct (to_dec n) as [|b l]; [done|].
  assert (match b :: l with 43 :: l' => l' | _ => b :: l end = b :: l) as ->.
  { apply Forall_cons in Hd as [Hb48 _].
    destruct b as [|p|p]; try lia.
    do 6 (destruct p as [p|p|]; try done; try lia). }
  rewrite Hv. by rewrite (proj2 (Z.leb_le n max)) by lia.
Qed.

Lemma parse_uint_range max l n : parse_uint max l = Some n -> n <= max.
Proof.
  unfold parse_uint. intros H.
  destruct (match l with 43 :: l' => l' | _ => l end); [done|].
  destruct (digits_value _ _); [|done]. case_split; bsimp; simplify_eq; lia.
Qed.

#[export] Hint Rewrite as_bytes_String as_bytes_lowercase : ot.

(** ** Lemmas on substrings *)

Lemma find_l_app {A} `{EqDecision A} (p a b : list A) : is_Some (find_l p (a ++ p ++ b)).
Proof.
  induction a as [|x a IH]; cbn [app].
  - destruct (p ++ b) eqn:E; cbn [find_l]; rewrite <- ?E;
      rewrite (proj2 (strip_prefix_l_Some p _ b)); eauto.
  - cbn [find_l]. case_match; [eauto|]. by apply fmap_is_Some.
Qed.

Lemma str_contains_app a p b : str_contains (a +:+ p +:+ b) p = true.
Proof. unfold str_contains. apply bool_decide_eq_true. rewrite !as_bytes_app. apply find_l_app. Qed.

Lemma matches_after_split {A} `{EqDecision A} (p l : list A) skip rest :
  rest ∈ matches_after p l skip -> exists a, l = a ++ p ++ rest.
Proof.
  revert skip. induction l as [|x l IH]; intros skip; cbn [matches_after]; [by intros ?%not_elem_of_nil|].
  assert (forall k, rest ∈ matches_after p l k -> exists a, x :: l = a ++ p ++ rest) as Hl.
  { intros k Hk. destruct (IH _ Hk) as [a ->]. by exists (x :: a). }
  destruct skip; [|by apply Hl]. destruct (strip_prefix_l p (x :: l)) eqn:E; [|by apply Hl].
  intros [->|Hin]%elem_of_cons; [|by eapply Hl]. apply strip_prefix_l_Some in E. by exists [].
Qed.

Lemma digits_value_nonneg l acc n : digits_value l acc = Some n -> 0 <= acc -> 0 <= n.
Proof.
  revert acc. induction l as [|b l IH]; intros acc; cbn [digits_value]; [by intros [= ->]|].
  unfold is_ascii_digit. case_split; [|done]. bsimp. intros Hv Ha. eapply IH; [exact Hv|]. lia.
Qed.

Lemma parse_uint_nonneg max l n : parse_uint max l = Some n -> 0 <= n.
Proof.
  unfold parse_uint. intros H.
  destruct (match l with 43 :: l' => l' | _ => l end); [done|].
  destruct (digits_value _ _) eqn:E; [|done]. case_split; simplify_eq. by eapply digits_value_nonneg.
Qed.
