(* ===== verification/Addr.v ===== *)
(** * Addr: [std::net] addresses

    What the sources use of Rust's [IpAddr], [SocketAddr] and their text forms: the reader is that of
    [core::net::parser], the writer that of [core::net::ip_addr]. *)

From Stdlib Require Import ZArith Lia Ascii String List.
From stdpp Require Import base list strings sets.
From S2P Require Import Prelude Text.

(** An address is its 32- or 128-bit number. *)
Inductive IpAddr :=
| V4 (n : Z)
| V6 (n : Z).

Record SocketAddr := mkSocketAddr {
  ip : IpAddr;
  port : Z;
}.

#[export] Instance ipaddr_eq_dec : EqDecision IpAddr.
Proof. solve_decision. Defined.
#[export] Instance socketaddr_eq_dec : EqDecision SocketAddr.
Proof. solve_decision. Defined.

Definition ip_ok (a : IpAddr) : Prop :=
  match a with V4 n => 0 <= n < 2 ^ 32 | V6 n => 0 <= n < 2 ^ 128 end.
Definition addr_ok (a : SocketAddr) : Prop := ip_ok (ip a) /\ 0 <= port a < 65536.

Definition octets (a : IpAddr) : bytes :=
  match a with V4 n => be_bytes 4 n | V6 n => be_bytes 16 n end.

(** [Ipv6Addr::segments] *)
Definition segments (n : Z) : list Z :=
  map (fun i => Z.shiftr n (16 * i) mod 65536) [7; 6; 5; 4; 3; 2; 1; 0].

(** [Ipv6Addr::to_ipv4_mapped]: [::ffff:a.b.c.d]. *)
Definition to_ipv4_mapped (n : Z) : option Z :=
  if Z.shiftr n 32 =? 65535 then Some (n mod 2 ^ 32) else None.

(** ** Reading *)

Definition hex_value (b : Z) : option Z :=
  if is_ascii_digit b then Some (b - 48)
  else if (97 <=? b) && (b <=? 102) then Some (b - 87)
  else if (65 <=? b) && (b <=? 70) then Some (b - 55)
  else None.

Definition digit_value (radix b : Z) : option Z :=
  match hex_value b with
  | Some d => if d <? radix then Some d else None
  | None => None
  end.

(** The digits at the head, as values, and the rest. *)
Fixpoint span_digits (radix : Z) (l : bytes) : list Z * bytes :=
  match l with
  | [] => ([], [])
  | b :: l' =>
      match digit_value radix b with
      | Some d => let '(ds, rest) := span_digits radix l' in (d :: ds, rest)
      | None => ([], l)
      end
  end.

(** [Parser::read_number] with a digit limit, into an integer at most [max]. *)
Definition read_number (radix max : Z) (max_digits : nat) (allow_zero_prefix : bool) (l : bytes)
    : option (Z * bytes) :=
  let '(ds, rest) := span_digits radix l in
  let value := fold_left (fun acc d => acc * radix + d) ds 0 in
  if (length ds =? 0)%nat || (max_digits <? length ds)%nat then None
  else if negb allow_zero_prefix && (hd 1 ds =? 0) && (1 <? length ds)%nat then None
  else if max <? value then None
  else Some (value, rest).

Definition read_char (c : Z) (l : bytes) : option bytes :=
  match l with b :: l' => if b =? c then Some l' else None | [] => None end.

(** [Parser::read_ipv4_addr] *)
Definition read_ipv4 (l : bytes) : option (Z * bytes) :=
  let* (a, l) := read_number 10 255 3 false l in
  let* l := read_char 46 l in
  let* (b, l) := read_number 10 255 3 false l in
  let* l := read_char 46 l in
  let* (c, l) := read_number 10 255 3 false l in
  let* l := read_char 46 l in
  let* (d, l) := read_number 10 255 3 false l in
  Some (((a * 256 + b) * 256 + c) * 256 + d, l).

(** [read_separator(':', index, inner)] *)
Definition read_separator {A} (index : nat) (inner : bytes -> option (A * bytes)) (l : bytes)
    : option (A * bytes) :=
  match index with
  | O => inner l
  | S _ => let* l := read_char 58 l in inner l
  end.

(** [read_groups]: the groups read, whether the last two were an IPv4 address, and the rest. *)
Fixpoint read_groups (left : nat) (i : nat) (l : bytes) : list Z * bool * bytes :=
  match left with
  | O => ([], false, l)
  | S left' =>
      match (if (1 <? left)%nat then read_separator i read_ipv4 l else None) with
      | Some (v4, rest) => ([Z.shiftr v4 16; v4 mod 65536], true, rest)
      | None =>
          match read_separator i (read_number 16 65535 4 true) l with
          | Some (g, rest) =>
              let '(gs, v4, rest') := read_groups left' (S i) rest in (g :: gs, v4, rest')
          | None => ([], false, l)
          end
      end
  end.

Definition from_segments (gs : list Z) : Z := fold_left (fun acc g => acc * 65536 + g) gs 0.

(** [Parser::read_ipv6_addr] *)
Definition read_ipv6 (l : bytes) : option (Z * bytes) :=
  let '(head, head_ipv4, rest) := read_groups 8 0 l in
  if (length head =? 8)%nat then Some (from_segments head, rest)
  else if head_ipv4 then None
  else
    let* rest := read_char 58 rest in
    let* rest := read_char 58 rest in
    let '(tail, _, rest) := read_groups (8 - (length head + 1)) 0 rest in
    Some (from_segments (head ++ replicate (8 - length head - length tail) 0 ++ tail), rest).

(** The reader must consume everything. *)
Definition whole {A} (r : option (A * bytes)) : option A :=
  match r with Some (a, []) => Some a | _ => None end.

Definition parse_ipv4 (s : string) : option Z := whole (read_ipv4 (as_bytes s)).
Definition parse_ipv6 (s : string) : option Z := whole (read_ipv6 (as_bytes s)).
Definition parse_ip (s : string) : option IpAddr :=
  match read_ipv4 (as_bytes s) with
  | Some r => V4 <$> whole (Some r)
  | None => V6 <$> parse_ipv6 s
  end.

(** [str::parse] of a [SocketAddr]: an IPv6 address is in brackets and may have a scope. *)
Definition read_port (l : bytes) : option (Z * bytes) :=
  let* l := read_char 58 l in read_number 10 65535 (length l) true l.

Definition read_scope (l : bytes) : option bytes :=
  match read_char 37 l with
  | Some l' => snd <$> read_number 10 U32_MAX (length l') true l'
  | None => Some l
  end.

Definition parse_socket (s : string) : option SocketAddr :=
  let v4 := let* (n, l) := read_ipv4 (as_bytes s) in
            let* p := whole (read_port l) in Some (mkSocketAddr (V4 n) p) in
  match v4 with
  | Some a => Some a
  | None =>
      let* l := read_char 91 (as_bytes s) in
      let* (n, l) := read_ipv6 l in
      let* l := read_scope l in
      let* l := read_char 93 l in
      let* p := whole (read_port l) in Some (mkSocketAddr (V6 n) p)
  end.

(** ** Writing *)

Definition ipv4_bytes (n : Z) : bytes :=
  to_dec (n / 2 ^ 24 mod 256) ++ [46] ++ to_dec (n / 2 ^ 16 mod 256) ++ [46]
  ++ to_dec (n / 2 ^ 8 mod 256) ++ [46] ++ to_dec (n mod 256).

Definition hex_digit (d : Z) : Z := if d <? 10 then 48 + d else 87 + d.

Fixpoint to_hex_aux (fuel : nat) (n : Z) : bytes :=
  match fuel with
  | O => []
  | S fuel' => if n <? 16 then [hex_digit n] else to_hex_aux fuel' (n / 16) ++ [hex_digit (n mod 16)]
  end.

(** A segment has at most four hex digits. *)
Definition to_hex (n : Z) : bytes := to_hex_aux 4 n.

Fixpoint join_colon (gs : list Z) : bytes :=
  match gs with
  | [] => []
  | [g] => to_hex g
  | g :: gs' => to_hex g ++ [58] ++ join_colon gs'
  end.

(** The first longest run of zero segments: [(start, len)] of the longest and of the current run. *)
Fixpoint longest_zeroes (i : nat) (gs : list Z) (longest current : nat * nat) : nat * nat :=
  match gs with
  | [] => longest
  | g :: gs' =>
      if g =? 0 then
        let current := ((if (snd current =? 0)%nat then i else fst current), S (snd current)) in
        longest_zeroes (S i) gs' (if (snd longest <? snd current)%nat then current else longest) current
      else longest_zeroes (S i) gs' longest (0%nat, 0%nat)
  end.

Definition ipv6_bytes (n : Z) : bytes :=
  match to_ipv4_mapped n with
  | Some v4 => as_bytes "::ffff:" ++ ipv4_bytes v4
  | None =>
      let gs := segments n in
      let '(start, len) := longest_zeroes 0 gs (0%nat, 0%nat) (0%nat, 0%nat) in
      if (1 <? len)%nat then join_colon (take start gs) ++ [58; 58] ++ join_colon (drop (start + len) gs)
      else join_colon gs
  end.

Definition ip_bytes (a : IpAddr) : bytes :=
  match a with V4 n => ipv4_bytes n | V6 n => ipv6_bytes n end.
Definition ip_string (a : IpAddr) : string := of_bytes (ip_bytes a).

(** [Display] of a [SocketAddr] *)
Definition addr_string (a : SocketAddr) : string :=
  match ip a with
  | V4 n => of_bytes (ipv4_bytes n ++ [58] ++ to_dec (port a))
  | V6 n => of_bytes ([91] ++ ipv6_bytes n ++ [93; 58] ++ to_dec (port a))
  end.

Example ipv6_text :
  ip_string (V6 (from_segments [8193; 3512; 0; 0; 1; 0; 0; 2])) = "2001:db8::1:0:0:2" /\
  parse_ip "2001:db8::1:0:0:2" = Some (V6 (from_segments [8193; 3512; 0; 0; 1; 0; 0; 2])) /\
  parse_ip "::ffff:1.2.3.4" = Some (V6 (65535 * 2 ^ 32 + 16909060)) /\
  parse_ip "1.2.3.04" = None /\ parse_ip "1::2::3" = None /\ ip_string (V6 0) = "::".
Proof. vm_compute. done. Qed.

(** ** Text round trips *)

Lemma span_digits_app radix l l' :
  (forall b, hd_error l' = Some b -> digit_value radix b = None) ->
  Forall (fun b => is_Some (digit_value radix b)) l ->
  exists ds, span_digits radix (l ++ l') = (ds, l') /\ map Some ds = map (digit_value radix) l.
Proof.
  intros Hl'. induction 1 as [|b l [d Hd] Hl IH]; cbn [app].
  - exists []. split; [|done]. destruct l' as [|b l']; [done|]. cbn. by rewrite (Hl' b eq_refl).
  - destruct IH as (ds & E & Em). cbn. rewrite Hd, E. exists (d :: ds). split; [done|]. cbn [map]. by rewrite Em.
Qed.

Lemma dec_digit_value b : 48 <= b <= 57 -> digit_value 10 b = Some (b - 48).
Proof.
  intros H. unfold digit_value, hex_value, is_ascii_digit.
  rewrite (proj2 (Z.leb_le 48 b)), (proj2 (Z.leb_le b 57)) by lia. cbn.
  by rewrite (proj2 (Z.ltb_lt _ _)) by lia.
Qed.

(** The text of an octet: at most three digits, no leading zero, the octet's value. *)
Definition octet_text_ok (n : Z) : bool :=
  let ds := map (fun b => b - 48) (to_dec n) in
  (1 <=? length ds)%nat && (length ds <=? 3)%nat && negb ((hd 1 ds =? 0) && (1 <? length ds)%nat)
  && (fold_left (fun acc d => acc * 10 + d) ds 0 =? n).

Lemma octet_text n : 0 <= n < 256 -> octet_text_ok n = true.
Proof.
  intros H. assert (forallb octet_text_ok (map Z.of_nat (seq 0 256)) = true) as Hall by (by vm_compute).
  rewrite forallb_forall in Hall. apply Hall. apply in_map_iff. exists (Z.to_nat n).
  split; [lia|]. apply in_seq. lia.
Qed.

Lemma read_octet n rest :
  0 <= n < 256 -> (forall b, hd_error rest = Some b -> digit_value 10 b = None) ->
  read_number 10 255 3 false (to_dec n ++ rest) = Some (n, rest).
Proof.
  intros Hn Hrest. pose proof (to_dec_digits n ltac:(lia)) as Hd.
  destruct (span_digits_app 10 (to_dec n) rest Hrest) as (ds & E & Em).
  { eapply Forall_impl; [done|]. intros b Hb. rewrite dec_digit_value; eauto. }
  assert (ds = map (fun b => b - 48) (to_dec n)) as ->.
  { clear -Hd Em. revert ds Em. induction Hd as [|b l Hb Hl IH]; intros [|d ds]; cbn; try done.
    rewrite dec_digit_value by done. intros [= -> Em]. f_equal. by apply IH. }
  unfold read_number. rewrite E. pose proof (octet_text n Hn) as Ht. unfold octet_text_ok in Ht.
  bsimp. rewrite (proj2 (Nat.eqb_neq _ _)), (proj2 (Nat.ltb_ge _ _)) by lia. cbn [orb negb andb].
  match goal with H : _ && _ = false |- _ => rewrite H end.
  match goal with H : fold_left _ _ _ = _ |- _ => rewrite H end.
  by rewrite (proj2 (Z.ltb_ge _ _)) by lia.
Qed.

Lemma ipv4_octets n : 0 <= n < 2 ^ 32 ->
  ((n / 2 ^ 24 mod 256 * 256 + n / 2 ^ 16 mod 256) * 256 + n / 2 ^ 8 mod 256) * 256 + n mod 256 = n.
Proof. intros H. change (2^24) with 16777216. change (2^16) with 65536. change (2^8) with 256.
  Z.div_mod_to_equations. lia.
Qed.

Lemma read_ipv4_bytes n rest :
  0 <= n < 2 ^ 32 -> (forall b, hd_error rest = Some b -> digit_value 10 b = None) ->
  read_ipv4 (ipv4_bytes n ++ rest) = Some (n, rest).
Proof.
  intros Hn Hrest. unfold read_ipv4, ipv4_bytes. rewrite <- !app_assoc. cbn [app].
  assert (forall x, 0 <= x mod 256 < 256) as Hm by (intros; apply Z.mod_pos_bound; lia).
  assert (forall l b, hd_error (46 :: l : bytes) = Some b -> digit_value 10 b = None) as Hdot
    by (intros l b [= <-]; done).
  do 3 (rewrite read_octet by eauto; cbn [mbind option_bind read_char Z.eqb Pos.eqb]).
  rewrite read_octet by eauto. cbn [mbind option_bind]. by rewrite ipv4_octets.
Qed.

(** *** IPv6 *)

Lemma to_hex_aux_spec fuel n :
  0 <= n < 16 ^ Z.of_nat fuel -> (0 < fuel)%nat ->
  exists ds, map Some ds = map (digit_value 16) (to_hex_aux fuel n) /\
    fold_left (fun acc d => acc * 16 + d) ds 0 = n /\ (1 <= length ds <= fuel)%nat /\
    Forall (fun b => 48 <= b <= 57 \/ 97 <= b <= 102) (to_hex_aux fuel n).
Proof.
  assert (forall d, 0 <= d < 16 -> digit_value 16 (hex_digit d) = Some d /\
            (48 <= hex_digit d <= 57 \/ 97 <= hex_digit d <= 102)) as Hdig.
  { intros d Hd. unfold hex_digit, digit_value, hex_value, is_ascii_digit. destruct (d <? 10) eqn:E; bsimp.
    - rewrite (proj2 (Z.leb_le 48 _)), (proj2 (Z.leb_le _ 57)) by lia. cbn.
      rewrite (proj2 (Z.ltb_lt _ _)) by lia. split; [f_equal; lia|lia].
    - rewrite (proj2 (Z.leb_gt _ 57)), andb_false_r, (proj2 (Z.leb_le 97 _)), (proj2 (Z.leb_le _ 102)) by lia. cbn.
      rewrite (proj2 (Z.ltb_lt _ _)) by lia. split; [f_equal; lia|lia]. }
  revert n; induction fuel as [|fuel IH]; intros n Hn Hf; [lia|].
  rewrite Nat2Z.inj_succ, Z.pow_succ_r in Hn by lia.
  change (to_hex_aux (S fuel) n)
    with (if n <? 16 then [hex_digit n] else to_hex_aux fuel (n / 16) ++ [hex_digit (n mod 16)]).
  destruct (n <? 16) eqn:E; bsimp.
  - destruct (Hdig n) as (H1 & H2); [lia|]. exists [n]. cbn. rewrite H1.
    split_and!; try done; try lia. by apply Forall_singleton.
  - destruct fuel as [|fuel]; [cbn in Hn; lia|].
    pose proof (Z.mod_pos_bound n 16 ltac:(lia)). pose proof (Z.div_mod n 16 ltac:(lia)).
    destruct (IH (n / 16)) as (ds & Em & Ev & El & Eo); [lia|lia|].
    destruct (Hdig (n mod 16)) as (H1 & H2); [lia|].
    exists (ds ++ [n mod 16]). rewrite !map_app, Em, fold_left_app, Ev, length_app.
    change (map (digit_value 16) [hex_digit (n mod 16)]) with [digit_value 16 (hex_digit (n mod 16))].
    rewrite H1. cbn [fold_left length map]. split_and!; try done; try lia.
    apply Forall_app. split; [done|]. by apply Forall_singleton.
Qed.

Lemma read_group n rest :
  0 <= n < 65536 -> (forall b, hd_error rest = Some b -> digit_value 16 b = None) ->
  read_number 16 65535 4 true (to_hex n ++ rest) = Some (n, rest).
Proof.
  intros Hn Hrest. destruct (to_hex_aux_spec 4 n) as (ds & Em & Ev & El & _); [cbn; lia|lia|].
  fold (to_hex n) in *.
  destruct (span_digits_app 16 (to_hex n) rest Hrest) as (ds' & E & Em').
  { apply Forall_forall. intros b Hb. apply (list_elem_of_fmap_2 (digit_value 16)) in Hb.
    assert (digit_value 16 b ∈ map Some ds) as Hb' by (by rewrite Em).
    apply list_elem_of_fmap in Hb' as (d & -> & _). eauto. }
  assert (ds' = ds) as ->.
  { rewrite <- Em in Em'. clear -Em'. revert ds' Em'. induction ds as [|d ds IH]; intros [|d' ds']; cbn; try done.
    intros [= -> H]. by rewrite (IH ds' H). }
  unfold read_number. rewrite E, Ev.
  rewrite (proj2 (Nat.eqb_neq _ _)), (proj2 (Nat.ltb_ge _ _)) by lia. cbn [orb negb andb].
  by rewrite (proj2 (Z.ltb_ge _ _)) by lia.
Qed.

Lemma to_hex_chars n : 0 <= n < 65536 -> Forall (fun b => 48 <= b <= 57 \/ 97 <= b <= 102) (to_hex n).
Proof.
  intros Hn. destruct (to_hex_aux_spec 4 n) as (ds & _ & _ & _ & H); [cbn; lia|lia|done].
Qed.

Lemma span_digits_suffix radix l ds rest : span_digits radix l = (ds, rest) -> exists p, l = p ++ rest.
Proof.
  revert ds rest; induction l as [|b l IH]; intros ds rest; cbn [span_digits].
  - intros [= <- <-]. by exists [].
  - destruct (digit_value radix b); [|intros [= <- <-]; by exists []].
    destruct (span_digits radix l) as [ds' rest'] eqn:E. intros [= <- <-].
    destruct (IH _ _ eq_refl) as [p ->]. by exists (b :: p).
Qed.

(** An IPv4 address has a dot. *)
Lemma read_ipv4_no_dot l : 46 ∉ l -> read_ipv4 l = None.
Proof.
  intros Hd. unfold read_ipv4, read_number. destruct (span_digits 10 l) as [ds rest] eqn:E.
  apply span_digits_suffix in E as [p ->].
  case_split; [done|]. case_split; [done|]. case_split; [done|]. cbn [mbind option_bind].
  destruct rest as [|b rest]; [done|]. cbn [read_char].
  destruct (b =? 46) eqn:Eb; [|done]. bsimp. subst. set_solver.
Qed.

(** Where a sequence of groups ends. *)
Definition group_end (rest : bytes) : Prop := rest = [] \/ exists r, rest = 58 :: 58 :: r \/ rest = 93 :: r.

Definition colon_groups (gs : list Z) : bytes := concat (map (fun g => 58 :: to_hex g) gs).

Lemma join_colon_cons g gs : join_colon (g :: gs) = to_hex g ++ colon_groups gs.
Proof.
  revert g; induction gs as [|g' gs IH]; intros g.
  - cbn. by rewrite app_nil_r.
  - cbn [join_colon]. cbn [join_colon] in IH. rewrite IH. done.
Qed.

Definition seg_ok (g : Z) : Prop := 0 <= g < 65536.

Lemma not_dot_to_hex g rest : seg_ok g -> 46 ∉ rest -> 46 ∉ to_hex g ++ rest.
Proof.
  intros Hg Hr. pose proof (to_hex_chars g Hg) as Hh. rewrite Forall_forall in Hh.
  rewrite elem_of_app. intros [H|H]; [|done]. apply Hh in H. lia.
Qed.

Lemma no_dot_colon gs rest : Forall seg_ok gs -> 46 ∉ rest -> 46 ∉ colon_groups gs ++ rest.
Proof.
  intros Hgs Hr. induction Hgs as [|g gs Hg Hgs IH]; [done|].
  cbn [colon_groups map concat]. fold (colon_groups gs). rewrite <- app_assoc. cbn [app].
  apply not_elem_of_cons. split; [done|]. by apply not_dot_to_hex.
Qed.

Lemma group_end_stop i rest :
  group_end rest -> 46 ∉ rest -> read_separator i (read_number 16 65535 4 true) rest = None.
Proof. intros [->|[r [-> | ->]]] _; by destruct i. Qed.

Lemma read_separator_ipv4_no_dot i l : 46 ∉ l -> read_separator i read_ipv4 l = None.
Proof.
  intros H. destruct i; [by apply read_ipv4_no_dot|]. cbn.
  destruct l as [|b l]; [done|]. cbn. case_split; [|done]. cbn. apply read_ipv4_no_dot. set_solver.
Qed.

Lemma colon_head gs rest b :
  group_end rest -> hd_error (colon_groups gs ++ rest) = Some b -> digit_value 16 b = None.
Proof. intros Hr. destruct gs; cbn; [destruct Hr as [->|[r [-> | ->]]]|]; cbn; try done; by intros [= <-]. Qed.

Lemma read_groups_colon gs left i rest :
  Forall seg_ok gs -> group_end rest -> 46 ∉ rest -> (length gs <= left)%nat ->
  read_groups left (S i) (colon_groups gs ++ rest) = (gs, false, rest).
Proof.
  intros Hgs Hr Hd. revert left i. induction Hgs as [|g gs Hg Hgs IH]; intros left i Hl.
  - destruct left as [|left]; [done|]. cbn [read_groups colon_groups map concat app].
    rewrite read_separator_ipv4_no_dot, group_end_stop by done. by case_split.
  - cbn [length] in Hl. destruct left as [|left]; [lia|]. cbn [read_groups].
    rewrite read_separator_ipv4_no_dot by (by apply no_dot_colon; [constructor|]).
    cbn [colon_groups map concat]. fold (colon_groups gs). rewrite <- app_assoc. cbn [app].
    cbn [read_separator read_char Z.eqb Pos.eqb mbind option_bind].
    rewrite read_group; [|done|by intros b; apply colon_head].
    rewrite IH by lia. by case_split.
Qed.

Lemma read_groups_join gs left rest :
  Forall seg_ok gs -> group_end rest -> 46 ∉ rest -> (length gs <= left)%nat ->
  read_groups left 0 (join_colon gs ++ rest) = (gs, false, rest).
Proof.
  intros Hgs Hr Hd Hl. destruct Hgs as [|g gs Hg Hgs].
  - destruct left as [|left]; [done|]. cbn [read_groups join_colon app].
    rewrite read_separator_ipv4_no_dot, group_end_stop by done. by case_split.
  - cbn [length] in Hl. destruct left as [|left]; [lia|]. rewrite join_colon_cons, <- app_assoc.
    cbn [read_groups].
    rewrite read_separator_ipv4_no_dot by (apply not_dot_to_hex; [done|by apply no_dot_colon]).
    cbn [read_separator]. rewrite read_group; [|done|by intros b; apply colon_head].
    rewrite read_groups_colon by (done || lia). by case_split.
Qed.

Lemma no_dot_join gs rest : Forall seg_ok gs -> 46 ∉ rest -> 46 ∉ join_colon gs ++ rest.
Proof.
  intros Hgs Hr. destruct Hgs as [|g gs Hg Hgs]; [done|]. rewrite join_colon_cons, <- app_assoc.
  apply not_dot_to_hex; [done|by apply no_dot_colon].
Qed.

Lemma segments_ok n : Forall seg_ok (segments n).
Proof. unfold segments, seg_ok. repeat constructor; apply Z.mod_pos_bound; lia. Qed.

Lemma from_segments_app l g : from_segments (l ++ [g]) = from_segments l * 65536 + g.
Proof. unfold from_segments. by rewrite fold_left_app. Qed.

Lemma from_segments_segments n : 0 <= n < 2 ^ 128 -> from_segments (segments n) = n.
Proof.
  intros Hn. unfold segments. cbn [map].
  assert (forall i, 0 <= i -> Z.shiftr n (16 * (i + 1)) * 65536 + Z.shiftr n (16 * i) mod 65536 = Z.shiftr n (16 * i))
    as Hstep.
  { intros i Hi. rewrite !Z.shiftr_div_pow2 by lia. replace (16 * (i + 1)) with (16 * i + 16) by lia.
    rewrite Z.pow_add_r, <- Z.div_div by lia. change (2 ^ 16) with 65536.
    pose proof (Z.div_mod (n / 2 ^ (16 * i)) 65536). lia. }
  unfold from_segments. cbn [fold_left].
  assert (Z.shiftr n (16 * 8) = 0) as H8.
  { rewrite Z.shiftr_div_pow2 by lia. by apply Z.div_small. }
  pose proof (Hstep 7) as H7. pose proof (Hstep 6) as H6. pose proof (Hstep 5) as H5. pose proof (Hstep 4) as H4.
  pose proof (Hstep 3) as H3. pose proof (Hstep 2) as H2. pose proof (Hstep 1) as H1. pose proof (Hstep 0) as H0.
  change (16 * (7 + 1)) with (16 * 8) in H7. rewrite H8 in H7. rewrite H7 by lia.
  change 7 with (6 + 1). rewrite H6 by lia. change 6 with (5 + 1) at 1. rewrite H5 by lia.
  change 5 with (4 + 1) at 1. rewrite H4 by lia. change 4 with (3 + 1) at 1. rewrite H3 by lia.
  change 3 with (2 + 1) at 1. rewrite H2 by lia. change 2 with (1 + 1) at 1. rewrite H1 by lia.
  change 1 with (0 + 1) at 1. rewrite H0 by lia. apply Z.shiftr_0_r.
Qed.

(** A run of zeroes that ends by [bound]. *)
Definition zero_run (gs : list Z) (run : nat * nat) (bound : nat) : Prop :=
  (fst run + snd run <= bound)%nat /\
  forall j, (fst run <= j < fst run + snd run)%nat -> gs !! j = Some 0.

Lemma longest_zeroes_run all gs : forall pre longest current,
  all = pre ++ gs -> zero_run all longest (length pre) -> zero_run all current (length pre) ->
  (snd current = 0 \/ fst current + snd current = length pre)%nat ->
  zero_run all (longest_zeroes (length pre) gs longest current) (length all).
Proof.
  induction gs as [|g gs IH]; intros pre longest current -> Hl Hc He; cbn [longest_zeroes].
  - by rewrite app_nil_r in *.
  - assert (S (length pre) = length (pre ++ [g])) as Hlen by (rewrite length_app; cbn; lia).
    assert (forall run, zero_run (pre ++ g :: gs) run (length pre) ->
              zero_run (pre ++ g :: gs) run (length (pre ++ [g]))) as Hmono.
    { intros run [H1 H2]. split; [lia|done]. }
    rewrite Hlen. destruct (g =? 0) eqn:E; bsimp.
    + subst g. set (current' := (_, S (snd current))).
      assert (zero_run (pre ++ 0 :: gs) current' (length (pre ++ [0]))) as Hc'.
      { destruct Hc as [Hc1 Hc2]. unfold current', zero_run. cbn [fst snd].
        destruct (snd current =? 0)%nat eqn:E; bsimp; (split; [lia|]); intros j Hj;
          (destruct (decide (j = length pre)) as [->|]; [by apply list_lookup_middle|apply Hc2; lia]). }
      apply IH; [by rewrite <- app_assoc|by case_split; auto|done|].
      right. unfold current'. cbn [fst snd]. case_split; bsimp; lia.
    + apply IH; [by rewrite <- app_assoc|auto| |by left]. split; cbn; lia.
Qed.

Lemma zero_run_split gs run bound :
  zero_run gs run bound -> (bound <= length gs)%nat ->
  take (fst run) gs ++ replicate (snd run) 0 ++ drop (fst run + snd run) gs = gs.
Proof.
  intros [H1 H2] Hb.
  assert (take (snd run) (drop (fst run) gs) = replicate (snd run) 0) as <-.
  { apply list_eq. intros i. destruct (decide (i < snd run)%nat).
    - rewrite lookup_take_lt, lookup_drop, lookup_replicate_2 by lia. apply H2. lia.
    - rewrite lookup_take_ge by lia. symmetry. apply lookup_replicate_None. lia. }
  rewrite <- drop_drop, take_drop. apply take_drop.
Qed.

(** What may follow an address: nothing, or its bracket. *)
Definition after_ipv6 (rest : bytes) : Prop := rest = [] \/ exists r, rest = 93 :: r.
Lemma after_group rest : after_ipv6 rest -> group_end rest.
Proof. intros [->|[r ->]]; [by left|right; eauto]. Qed.

Lemma read_ipv6_bytes n rest :
  0 <= n < 2 ^ 128 -> to_ipv4_mapped n = None -> after_ipv6 rest -> 46 ∉ rest -> read_ipv6 (ipv6_bytes n ++ rest) = Some (n, rest).
Proof.
  intros Hn Hm Hrest Hdot. apply after_group in Hrest. unfold ipv6_bytes. rewrite Hm.
  pose proof (segments_ok n) as Hok. pose proof (from_segments_segments n Hn) as Hfrom.
  assert (length (segments n) = 8%nat) as Hlen by done.
  pose proof (longest_zeroes_run (segments n) (segments n) [] (0%nat, 0%nat) (0%nat, 0%nat) eq_refl) as Hz.
  cbn [length] in Hz.
  destruct (longest_zeroes 0 (segments n) _ _) as [start len].
  assert (zero_run (segments n) (start, len) (length (segments n))) as Hrun.
  { apply Hz; [split; cbn; lia|split; cbn; lia|by left]. }
  pose proof (zero_run_split _ _ _ Hrun ltac:(lia)) as Hsplit. destruct Hrun as [Hle _]. cbn [fst snd] in *.
  unfold read_ipv6. destruct (1 <? len)%nat eqn:E; bsimp.
  - assert (46 ∉ join_colon (drop (start + len) (segments n)) ++ rest) as Hdot1
      by (apply no_dot_join; [by apply Forall_drop|done]).
    rewrite <- app_assoc. rewrite <- (app_assoc [58; 58]).
    rewrite (read_groups_join (take start (segments n)) 8 ([58; 58] ++ join_colon (drop (start + len) (segments n)) ++ rest));
      [|by apply Forall_take|right; eexists; left; reflexivity|cbn [app]; rewrite !not_elem_of_cons; done|rewrite length_take; lia].
    rewrite length_take, Hlen. replace (start `min` 8)%nat with start by lia.
    rewrite (proj2 (Nat.eqb_neq _ _)) by lia. cbn [app read_char Z.eqb Pos.eqb mbind option_bind].
    rewrite (read_groups_join (drop (start + len) (segments n)));
      [|by apply Forall_drop|done|done|rewrite length_drop; lia].
    rewrite length_drop, Hlen. replace (8 - start - (8 - (start + len)))%nat with len by lia.
    by rewrite Hsplit, Hfrom.
  - rewrite (read_groups_join (segments n)); [|done|done|done|lia].
    rewrite Hlen. cbn [Nat.eqb]. by rewrite Hfrom.
Qed.

(** An address whose text names its family: not an IPv6 form of an IPv4 address. *)
Definition canonical_ip (a : IpAddr) : Prop :=
  match a with V4 _ => True | V6 n => to_ipv4_mapped n = None end.

(** The characters of an address. *)
Definition ip_char (b : Z) : Prop := 48 <= b <= 58 \/ 97 <= b <= 102 \/ b = 46.

Lemma ipv4_bytes_chars n : Forall ip_char (ipv4_bytes n).
Proof.
  assert (forall x, Forall ip_char (to_dec (x mod 256))) as H.
  { intros x. eapply Forall_impl; [apply to_dec_digits, Z.mod_pos_bound; lia|]. unfold ip_char. cbn. lia. }
  unfold ipv4_bytes. repeat (apply Forall_app; split); auto; repeat constructor; unfold ip_char; lia.
Qed.

Lemma join_colon_chars gs : Forall seg_ok gs -> Forall ip_char (join_colon gs).
Proof.
  assert (forall g, seg_ok g -> Forall ip_char (to_hex g)) as Hhex.
  { intros g Hg. eapply Forall_impl; [by apply to_hex_chars|]. unfold ip_char. cbn. lia. }
  destruct 1 as [|g gs Hg Hgs]; [constructor|]. rewrite join_colon_cons.
  apply Forall_app. split; [auto|]. unfold colon_groups.
  induction Hgs as [|g' gs Hg' Hgs IH]; cbn [map concat]; [constructor|].
  apply Forall_app. split; [|done]. constructor; [unfold ip_char; lia|auto].
Qed.

Lemma ip_bytes_chars a : Forall ip_char (ip_bytes a).
Proof.
  assert (forall b, b = 58 -> ip_char b) as H58 by (unfold ip_char; lia).
  destruct a as [n|n]; [apply ipv4_bytes_chars|]. cbn [ip_bytes]. unfold ipv6_bytes.
  destruct (to_ipv4_mapped n).
  { apply Forall_app. split; [|apply ipv4_bytes_chars]. change (as_bytes "::ffff:") with [58; 58; 102; 102; 102; 102; 58].
    repeat (apply Forall_cons; split; [unfold ip_char; lia|]). constructor. }
  pose proof (segments_ok n).
  destruct (longest_zeroes _ _ _ _) as [start len]. case_split; [|by apply join_colon_chars].
  apply Forall_app. split; [by apply join_colon_chars, Forall_take|].
  apply Forall_app. split; [by repeat (apply Forall_cons; split; [by apply H58|])|].
  by apply join_colon_chars, Forall_drop.
Qed.

Lemma not_ip_char a b : ~ ip_char b -> b ∉ ip_bytes a.
Proof. intros Hb Hin. pose proof (ip_bytes_chars a) as H. rewrite Forall_forall in H. auto. Qed.

Lemma ip_bytes_ok a : bytes_ok (ip_bytes a).
Proof. eapply Forall_impl; [apply ip_bytes_chars|]. unfold ip_char, byte_ok. cbn. lia. Qed.

Lemma ipv6_bytes_no_dot n : to_ipv4_mapped n = None -> 46 ∉ ipv6_bytes n.
Proof.
  intros Hm. unfold ipv6_bytes. rewrite Hm. pose proof (segments_ok n).
  destruct (longest_zeroes _ _ _ _) as [start len].
  assert (forall gs, Forall seg_ok gs -> 46 ∉ join_colon gs) as Hj.
  { intros gs Hgs. rewrite <- (app_nil_r (join_colon gs)). apply no_dot_join; [done|apply not_elem_of_nil]. }
  case_split; [|by apply Hj]. apply no_dot_join; [by apply Forall_take|]. cbn [app].
  rewrite !not_elem_of_cons. split_and!; [done|done|]. by apply Hj, Forall_drop.
Qed.

(** A canonical address is read back from its text. *)
Lemma parse_ip_string a : ip_ok a -> canonical_ip a -> parse_ip (ip_string a) = Some a.
Proof.
  intros Hok Hc. unfold parse_ip, parse_ipv6, ip_string. rewrite as_of_bytes by apply ip_bytes_ok.
  destruct a as [n|n]; cbn [ip_bytes ip_ok canonical_ip] in *.
  - rewrite <- (app_nil_r (ipv4_bytes n)), read_ipv4_bytes by done. done.
  - rewrite read_ipv4_no_dot by (by apply ipv6_bytes_no_dot). rewrite <- (app_nil_r (ipv6_bytes _)), read_ipv6_bytes; [done|done|done|by left|apply not_elem_of_nil].
Qed.

Lemma to_ipv4_mapped_Some n v : 0 <= n -> to_ipv4_mapped n = Some v -> n = 65535 * 2 ^ 32 + v /\ 0 <= v < 2 ^ 32.
Proof.
  unfold to_ipv4_mapped. intros Hn. case_split; [|done]. intros [= <-]. bsimp.
  rewrite Z.shiftr_div_pow2 in E by lia.
  pose proof (Z.div_mod n (2 ^ 32)). pose proof (Z.mod_pos_bound n (2 ^ 32)). lia.
Qed.

(** An IPv4-mapped address is read back from its mixed notation. *)
Lemma read_ipv6_mapped v rest :
  0 <= v < 2 ^ 32 -> after_ipv6 rest -> read_ipv6 (as_bytes "::ffff:" ++ ipv4_bytes v ++ rest) = Some (65535 * 2 ^ 32 + v, rest).
Proof.
  intros Hv Hrest. change (as_bytes "::ffff:") with [58; 58; 102; 102; 102; 102; 58].
  assert (read_groups 7 0 ([102; 102; 102; 102; 58] ++ ipv4_bytes v ++ rest)
          = ([65535; Z.shiftr v 16; v mod 65536], true, rest)) as Ht.
  { cbn [read_groups Nat.ltb Nat.leb read_separator].
    assert (read_ipv4 ([102; 102; 102; 102; 58] ++ ipv4_bytes v ++ rest) = None) as -> by done.
    assert (read_number 16 65535 4 true ([102; 102; 102; 102; 58] ++ ipv4_bytes v ++ rest)
            = Some (65535, [58] ++ ipv4_bytes v ++ rest)) as -> by done.
    cbn [app read_char Z.eqb Pos.eqb mbind option_bind].
    rewrite read_ipv4_bytes; [done|done|]. intros b. destruct Hrest as [->|[r ->]]; [done|]. by intros [= <-]. }
  unfold read_ipv6.
  assert (read_groups 8 0 ([58; 58; 102; 102; 102; 102; 58] ++ ipv4_bytes v ++ rest)
          = ([], false, [58; 58; 102; 102; 102; 102; 58] ++ ipv4_bytes v ++ rest)) as -> by done.
  cbn [length Nat.eqb app read_char Z.eqb Pos.eqb mbind option_bind Nat.add Nat.sub].
  change (102 :: 102 :: 102 :: 102 :: 58 :: ipv4_bytes v ++ rest) with ([102; 102; 102; 102; 58] ++ ipv4_bytes v ++ rest).
  rewrite Ht. cbn [length Nat.sub replicate app]. unfold from_segments. cbn [fold_left].
  rewrite Z.shiftr_div_pow2 by lia. change (2 ^ 16) with 65536. change (2 ^ 32) with 4294967296 in *.
  pose proof (Z.div_mod v 65536). do 2 f_equal. lia.
Qed.

(** Every IPv6 address is read back from its text. *)
Lemma parse_ipv6_string n : 0 <= n < 2 ^ 128 -> parse_ipv6 (of_bytes (ipv6_bytes n)) = Some n.
Proof.
  intros Hn. unfold parse_ipv6. rewrite as_of_bytes by apply (ip_bytes_ok (V6 n)).
  destruct (to_ipv4_mapped n) as [v|] eqn:E; rewrite <- (app_nil_r (ipv6_bytes n)).
  - unfold ipv6_bytes. rewrite E. apply to_ipv4_mapped_Some in E as [-> Hv]; [|lia]. rewrite <- app_assoc, read_ipv6_mapped; [done|done|by left].
  - rewrite read_ipv6_bytes; [done|done|done|by left|apply not_elem_of_nil].
Qed.

(** ** Socket addresses *)

(** The digits of a number, as values: what [to_dec] writes is read back. *)
Lemma digits_fold l : Forall (fun b => 48 <= b <= 57) l -> forall acc v, digits_value l acc = Some v -> fold_left (fun acc d => acc * 10 + d) (map (fun b => b - 48) l) acc = v.
Proof.
  induction 1 as [|b l Hb Hl IH]; intros acc v; cbn; [by intros [= ->]|]. unfold is_ascii_digit. rewrite (proj2 (Z.leb_le 48 b)), (proj2 (Z.leb_le b 57)) by lia. cbn. apply IH.
Qed.

Lemma read_number_to_dec n max rest : 0 <= n <= max -> n < 10 ^ 20 -> (forall b, hd_error rest = Some b -> digit_value 10 b = None) ->
  read_number 10 max (length (to_dec n ++ rest)) true (to_dec n ++ rest) = Some (n, rest).
Proof.
  intros Hn Hm Hrest. pose proof (to_dec_digits n ltac:(lia)) as Hd. destruct (span_digits_app 10 (to_dec n) rest Hrest) as (ds & E & Em).
  { eapply Forall_impl; [done|]. intros b Hb. rewrite dec_digit_value; eauto. }
  assert (ds = map (fun b => b - 48) (to_dec n)) as ->.
  { clear -Hd Em. revert ds Em. induction Hd as [|b l Hb Hl IH]; intros [|d ds]; cbn; try done.
    rewrite dec_digit_value by done. intros [= -> Em]. f_equal. by apply IH. }
  unfold read_number. rewrite E, length_app, length_map. rewrite (digits_fold _ Hd 0 n) by (apply to_dec_aux_value; cbn; lia).
  pose proof (to_dec_aux_nonempty 19 n) as Hne. change (to_dec_aux 20 n) with (to_dec n) in Hne. destruct (to_dec n) as [|b l]; [done|].
  rewrite (proj2 (Nat.eqb_neq _ _)), (proj2 (Nat.ltb_ge _ _)) by (cbn; lia). cbn [orb negb andb]. by rewrite (proj2 (Z.ltb_ge _ _)) by lia.
Qed.

Lemma read_port_to_dec p : 0 <= p < 65536 -> read_port (58 :: to_dec p) = Some (p, []).
Proof.
  intros Hp. unfold read_port. cbn [read_char Z.eqb Pos.eqb mbind option_bind]. pose proof (read_number_to_dec p 65535 [] ltac:(lia) ltac:(lia) ltac:(done)) as H.
  by rewrite app_nil_r in H.
Qed.

Lemma as_bytes_addr_string a :
  0 <= port a -> as_bytes (addr_string a) =
    match ip a with
    | V4 n => ipv4_bytes n ++ [58] ++ to_dec (port a)
    | V6 n => [91] ++ ipv6_bytes n ++ [93; 58] ++ to_dec (port a)
    end.
Proof.
  intros Hp. pose proof (to_dec_ok (port a) Hp) as Hd. pose proof (ip_bytes_ok (ip a)) as Hi.
  unfold addr_string. destruct (ip a) as [n|n]; apply as_of_bytes; cbn [ip_bytes] in Hi; solve_bytes_ok.
Qed.

(** Every socket address is read back from its text. *)
Lemma parse_socket_string a : addr_ok a -> parse_socket (addr_string a) = Some a.
Proof.
  intros [Hip Hport]. unfold parse_socket. rewrite !(as_bytes_addr_string a) by lia. destruct a as [[n|n] p]; cbn [ip port ip_ok] in *.
  - rewrite read_ipv4_bytes; [|done|by intros b [= <-]]. cbn [mbind option_bind app]. by rewrite read_port_to_dec.
  - assert (read_ipv4 ([91] ++ ipv6_bytes n ++ [93; 58] ++ to_dec p) = None) as -> by done. cbn [mbind option_bind app read_char Z.eqb Pos.eqb].
    assert (46 ∉ 93 :: 58 :: to_dec p) as Hdot.
    { rewrite !not_elem_of_cons. split_and!; [done|done|]. intros Hin. pose proof (to_dec_digits p ltac:(lia)) as Hd. rewrite Forall_forall in Hd. apply Hd in Hin. lia. }
    assert (read_ipv6 (ipv6_bytes n ++ 93 :: 58 :: to_dec p) = Some (n, 93 :: 58 :: to_dec p)) as ->.
    { destruct (to_ipv4_mapped n) as [v|] eqn:E; [|apply read_ipv6_bytes; [done|done|right; by eexists|done]].
      unfold ipv6_bytes. rewrite E. apply to_ipv4_mapped_Some in E as [-> Hv]; [|lia]. rewrite <- app_assoc. apply read_ipv6_mapped; [done|]. right. by eexists. }
    cbn [mbind option_bind read_scope read_char Z.eqb Pos.eqb]. by rewrite read_port_to_dec.
Qed.

#[export] Hint Resolve ip_bytes_ok : ot.

(** ** What is read is an address *)

Lemma digit_value_nonneg radix b d : digit_value radix b = Some d -> 0 <= d.
Proof.
  unfold digit_value, hex_value, is_ascii_digit. intros H.
  destruct ((48 <=? b) && (b <=? 57)) eqn:E1; [|destruct ((97 <=? b) && (b <=? 102)) eqn:E2;
    [|destruct ((65 <=? b) && (b <=? 70)) eqn:E3]]; try done; bsimp; case_split; simplify_eq; lia.
Qed.

Lemma span_digits_nonneg radix l ds rest : span_digits radix l = (ds, rest) -> Forall (Z.le 0) ds.
Proof.
  revert ds rest; induction l as [|b l IH]; intros ds rest; cbn [span_digits].
  - intros [= <- <-]. constructor.
  - destruct (digit_value radix b) as [d|] eqn:E; [|intros [= <- <-]; constructor].
    destruct (span_digits radix l) as [ds' rest']. intros [= <- <-].
    constructor; [by eapply digit_value_nonneg|by eapply IH].
Qed.

Lemma read_number_range radix max k z l n rest :
  0 <= radix -> read_number radix max k z l = Some (n, rest) -> 0 <= n <= max.
Proof.
  intros Hr. unfold read_number. destruct (span_digits radix l) as [ds rest'] eqn:E.
  pose proof (span_digits_nonneg _ _ _ _ E) as Hd.
  assert (forall acc, 0 <= acc -> 0 <= fold_left (fun acc d => acc * radix + d) ds acc) as Hf.
  { clear -Hd Hr. induction Hd as [|d ds Hd Hds IH]; intros acc Ha; [done|]. cbn. apply IH. nia. }
  specialize (Hf 0 ltac:(lia)). intros H.
  case_split; [done|]. case_split; [done|]. case_split; [done|]. simplify_eq. bsimp. lia.
Qed.

Lemma read_ipv4_range l n rest : read_ipv4 l = Some (n, rest) -> 0 <= n < 2 ^ 32.
Proof.
  unfold read_ipv4. intros H.
  repeat match type of H with
  | mbind _ (read_number ?r ?m ?k ?z ?l) = _ =>
      let E := fresh "E" in destruct (read_number r m k z l) as [[? ?]|] eqn:E; [|done];
      apply read_number_range in E; [|lia]; cbn [mbind option_bind] in H
  | mbind _ (read_char ?c ?l) = _ => destruct (read_char c l); [|done]; cbn [mbind option_bind] in H
  end.
  simplify_eq. lia.
Qed.

Lemma read_separator_inv {A} i (inner : bytes -> option (A * bytes)) l x :
  read_separator i inner l = Some x -> exists l', inner l' = Some x.
Proof. destruct i; cbn; [eauto|]. destruct (read_char 58 l); cbn; [eauto|done]. Qed.

Lemma read_groups_range left i l gs v4 rest :
  read_groups left i l = (gs, v4, rest) -> Forall seg_ok gs /\ (length gs <= left)%nat.
Proof.
  revert i l gs v4 rest; induction left as [|left IH]; intros i l gs v4 rest; cbn [read_groups].
  { intros [= <- <- <-]. split; [constructor|done]. }
  destruct (if (1 <? S left)%nat then read_separator i read_ipv4 l else None) as [[v r]|] eqn:E.
  - destruct (1 <? S left)%nat eqn:El; [|done]. intros [= <- <- <-]. bsimp.
    apply read_separator_inv in E as [l' E]. apply read_ipv4_range in E.
    split; [|cbn; lia]. unfold seg_ok. repeat constructor; try (apply Z.mod_pos_bound; lia).
    + apply Z.shiftr_nonneg. lia.
    + rewrite Z.shiftr_div_pow2 by lia. apply Z.div_lt_upper_bound; lia.
  - destruct (read_separator i (read_number 16 65535 4 true) l) as [[g r]|] eqn:Eg.
    2: { intros H. simplify_eq. split; [constructor|cbn; lia]. }
    destruct (read_groups left (S i) r) as [[gs' v'] r'] eqn:Er. intros [= <- <- <-].
    destruct (IH _ _ _ _ _ Er) as [H1 H2]. apply read_separator_inv in Eg as [l' Eg].
    apply read_number_range in Eg; [|lia]. split; [|cbn; lia]. constructor; [unfold seg_ok; lia|done].
Qed.

Lemma from_segments_range gs :
  Forall seg_ok gs -> 0 <= from_segments gs < 65536 ^ Z.of_nat (length gs).
Proof.
  induction gs as [|g gs IH] using rev_ind; intros H; [cbn; lia|].
  apply Forall_app in H as [H1 H2]. apply Forall_cons in H2 as [H2 _]. unfold seg_ok in H2.
  rewrite from_segments_app, length_app, Nat.add_1_r, Nat2Z.inj_succ, Z.pow_succ_r by lia.
  specialize (IH H1). set (P := 65536 ^ Z.of_nat (length gs)) in *. lia.
Qed.

Lemma parse_ip_ok s ip : parse_ip s = Some ip -> ip_ok ip.
Proof.
  unfold parse_ip, parse_ipv6, whole. intros H.
  destruct (read_ipv4 (as_bytes s)) as [[n rest]|] eqn:E.
  { apply read_ipv4_range in E. destruct rest; [|done]. cbn in H. by simplify_eq. }
  unfold read_ipv6 in H.
  destruct (read_groups 8 0 (as_bytes s)) as [[hd v4] rest] eqn:Eh.
  destruct (read_groups_range _ _ _ _ _ _ Eh) as [Hh Hl].
  assert (forall gs, Forall seg_ok gs -> length gs = 8%nat -> ip_ok (V6 (from_segments gs))) as H8.
  { intros gs Hg Hlen. pose proof (from_segments_range gs Hg) as Hr. rewrite Hlen in Hr. cbn [ip_ok].
    change (65536 ^ Z.of_nat 8) with (2 ^ 128) in Hr. done. }
  destruct (length hd =? 8)%nat eqn:E8.
  { bsimp. destruct rest; [|done]. cbn in H. simplify_eq. by apply H8. }
  destruct v4; [done|]. bsimp.
  destruct (read_char 58 rest) as [r1|]; [|done]. cbn [mbind option_bind] in H.
  destruct (read_char 58 r1) as [r2|]; [|done]. cbn [mbind option_bind] in H.
  destruct (read_groups (8 - (length hd + 1)) 0 r2) as [[tl v4'] r3] eqn:Et.
  destruct (read_groups_range _ _ _ _ _ _ Et) as [Ht Htl].
  destruct r3; [|done]. cbn in H. simplify_eq. apply H8.
  - apply Forall_app. split; [done|]. apply Forall_app. split; [|done].
    apply Forall_replicate. unfold seg_ok. lia.
  - rewrite !length_app, length_replicate. lia.
Qed.
