(* ===== verification/Names.v ===== *)
(** * Names: hostnames, routes and tunnel IDs

    [Protocol] is [crates/opentunnel/src/protocol/names.rs], [Hostnames] the hostname functions of the server's
    [relay.rs], [Csr] the certificate-name checks of the server's [csr.rs]. *)

From Stdlib Require Import ZArith Lia Ascii String List.
From stdpp Require Import base list strings.
From S2P Require Import Prelude Text.

(** The separator of host labels. *)
Definition dot : ascii := "."%char.

(** ** Definitions *)

Module Protocol.

Definition ROOT_ROUTE : string := "@".

Definition valid_char (byte : Z) : bool := is_ascii_lowercase byte || is_ascii_digit byte.

Definition is_label (value : string) : bool :=
  match as_bytes value with
  | [] => false
  | [only] => valid_char only
  | first :: rest =>
      let bytes := as_bytes value in
      (length bytes <=? 63)%nat && valid_char first && valid_char (List.last rest 0)
      && forallb (fun byte => valid_char byte || (byte =? 45)) (removelast rest)
  end.

Definition is_valid_route (value : string) : bool :=
  bool_decide (value = ROOT_ROUTE) || is_label value.

Definition is_valid_profile (value : string) : bool := is_label value.

Definition route_for_sni (sni hostname : string) : option string :=
  let sni := to_ascii_lowercase sni in
  let hostname := to_ascii_lowercase hostname in
  if decide (sni = hostname) then Some ROOT_ROUTE
  else
    let* prefix := str_strip_suffix hostname sni in
    let* label := str_strip_suffix "." prefix in
    if is_label label then Some label else None.

  (** [matches!(char, '.' | '-' | ':' | '_')] or alphanumeric. *)
Definition host_char (b : Z) : bool :=
    is_ascii_alphanumeric b || (b =? 46) || (b =? 45) || (b =? 58) || (b =? 95).

Definition parse_target (value : string) : option (string * Z) :=
  let* (host, port) := str_rsplit_once ":" value in
  let* port := parse_uint U16_MAX (as_bytes port) in
  if port =? 0 then None
  else
    let* host := match str_strip_prefix "[" host with
                 | Some inner => str_strip_suffix "]" inner
                 | None => Some host
                 end in
    if negb (str_is_empty host) && forallb host_char (as_bytes host) then Some (host, port) else None.

End Protocol.

Module Hostnames.

(** [relay.rs], [tunnel_id] *)
Definition tunnel_id (hostname domain : string) : option string :=
  let* labels := str_strip_suffix domain hostname in
  let* labels := str_strip_suffix "." labels in
  let labels := str_split dot labels in
  if (length labels =? 0)%nat || (2 <? length labels)%nat then None
  else
    let* id := list.last labels in
    if str_is_empty id then None else Some id.

(** [relay.rs], [route_name] *)
Definition route_name (hostname id domain : string) : option string :=
  let* labels := str_strip_suffix domain hostname in
  let* labels := str_strip_suffix "." labels in
  if decide (labels = id) then Some "@"
  else
    let* route := str_strip_suffix id labels in
    let* route := str_strip_suffix "." route in
    if negb (str_is_empty route) && negb (bool_decide (byte_of_ascii dot ∈ as_bytes route))
    then Some route else None.

End Hostnames.

Module Csr.

(** What is wrong with the names of a request; one constructor per message of [csr.rs]. *)
Inductive NameError :=
| NotATunnelId (id : string)
| NamesRequested (count : nat)
| NotANameOf (identifier id : string)
| RequestedTwice (identifier : string)
| NotRequested (hostname : string)
| CsrDoesNotParse
| CsrForOther (hostname id : string)
| CsrAsksForOther (asked identifiers : list string).

(** [csr.rs], [Request] *)
Record Request := mkRequest {
  hostname : string;
  identifiers : list string;
}.

Definition valid_tunnel_id (id : string) : bool :=
  let bytes := as_bytes id in
  negb (bool_decide (bytes = [])) && (length bytes <=? 63)%nat
  && forallb (fun byte => is_ascii_lowercase byte || is_ascii_digit byte || (byte =? 45)) bytes
  && negb (hd 0 bytes =? 45) && negb (List.last bytes 0 =? 45).

(** [str::eq_ignore_ascii_case] *)
Definition eq_ignore_ascii_case (a b : string) : bool :=
  bool_decide (to_ascii_lowercase a = to_ascii_lowercase b).

(** The loop over the identifiers; [earlier] holds those already seen. *)
Fixpoint check_each (id hostname wildcard : string) (earlier rest : list string) : result unit NameError :=
  match rest with
  | [] => Ok tt
  | identifier :: rest' =>
      if negb (eq_ignore_ascii_case identifier hostname) && negb (eq_ignore_ascii_case identifier wildcard)
      then Err (NotANameOf identifier id)
      else if existsb (fun e => eq_ignore_ascii_case e identifier) earlier
      then Err (RequestedTwice identifier)
      else check_each id hostname wildcard (earlier ++ [identifier]) rest'
  end.

Definition check_tunnel_names (id domain : string) (identifiers : list string) : result unit NameError :=
  if negb (valid_tunnel_id id) then Err (NotATunnelId id)
  else
    let hostname := id +:+ "." +:+ domain in
    let wildcard := "*." +:+ hostname in
    if (length identifiers =? 0)%nat || (2 <? length identifiers)%nat
    then Err (NamesRequested (length identifiers))
    else
      let? _ := check_each id hostname wildcard [] identifiers in
      if negb (existsb (fun i => eq_ignore_ascii_case i hostname) identifiers)
      then Err (NotRequested hostname)
      else Ok tt.

Section request.
  (** What the x509 parser finds in a signed request that parses and verifies: its common names and the DNS names
      of its subject alternative names, in order. *)
Variable parse_x509 : string -> option (list string * list string).

(** [csr.rs], [parse]: the DNS names without duplicates, or the common name when there are none. *)
Definition parse (csr : string) : option Request :=
  match parse_x509 csr with
  | None => None
  | Some (common_names, dns_names) =>
      let hostname := String.concat "," common_names in
      let identifiers :=
        fold_left (fun acc name => if bool_decide (name ∈ acc) then acc else acc ++ [name]) dns_names [] in
      Some (mkRequest hostname (if bool_decide (identifiers = []) then [hostname] else identifiers))
  end.

Definition check_tunnel_request (id domain : string) (identifiers : list string) (csr : string)
    : result unit NameError :=
  let? _ := check_tunnel_names id domain identifiers in
  let? request := ok_or (parse csr) CsrDoesNotParse in
  if negb (eq_ignore_ascii_case (hostname request) (id +:+ "." +:+ domain))
  then Err (CsrForOther (hostname request) id)
  else
    let same := (length (Csr.identifiers request) =? length identifiers)%nat
                && forallb (fun name => existsb (fun identifier => eq_ignore_ascii_case identifier name) identifiers)
                     (Csr.identifiers request) in
    if negb same then Err (CsrAsksForOther (Csr.identifiers request) identifiers) else Ok tt.

End request.
End Csr.

(** ** Labels *)

Import Protocol Hostnames Csr.

(** A byte of a label, anywhere but at its ends. *)
Definition label_char (b : Z) : bool := is_ascii_lowercase b || is_ascii_digit b || (b =? 45).

Lemma valid_char_label b : valid_char b = label_char b && negb (b =? 45).
Proof.
  unfold valid_char, label_char. destruct (b =? 45) eqn:E.
  - bsimp. by subst.
  - by destruct (is_ascii_lowercase b), (is_ascii_digit b).
Qed.

(** The server's notion of a tunnel ID and the protocol's notion of a label are the same set of strings. *)
Lemma valid_tunnel_id_is_label id : valid_tunnel_id id = is_label id.
Proof.
  unfold valid_tunnel_id, is_label. destruct (as_bytes id) as [|x [|y l]]; [done| |].
  - simpl. rewrite valid_char_label. unfold label_char.
    by destruct (_ || _), (x =? 45).
  - set (rest := y :: l). assert (rest <> []) as Hne by done.
    change (hd 0 (x :: rest)) with x. change (List.last (x :: rest) 0) with (List.last rest 0).
    change (fun byte => is_ascii_lowercase byte || is_ascii_digit byte || (byte =? 45)) with label_char.
    cbn [forallb]. rewrite (forallb_removelast_last label_char rest 0 Hne), !valid_char_label.
    assert (forallb (fun byte => valid_char byte || (byte =? 45)) (removelast rest)
            = forallb label_char (removelast rest)) as ->.
    { done. }
    set (z := List.last rest 0).
    destruct (length (x :: rest) <=? 63)%nat, (label_char x), (label_char z), (x =? 45), (z =? 45),
      (forallb label_char (removelast rest)); done.
Qed.

Lemma label_chars v : is_label v = true -> Forall (fun b => label_char b = true) (as_bytes v).
Proof.
  rewrite <- valid_tunnel_id_is_label. unfold valid_tunnel_id. intros H. bsimp.
  apply Forall_forall. intros b Hb. rewrite forallb_forall in *.
  match goal with H : forall x, _ -> _ |- _ => apply H end. by apply list_elem_of_In.
Qed.

Lemma label_nonempty v : is_label v = true -> v <> "".
Proof. intros H ->. done. Qed.

Lemma label_length v : is_label v = true -> (str_len v <= 63)%nat.
Proof.
  rewrite <- valid_tunnel_id_is_label. unfold valid_tunnel_id, str_len. intros H. bsimp. lia.
Qed.

Lemma label_no_dot v : is_label v = true -> byte_of_ascii dot ∉ as_bytes v.
Proof.
  intros H Hin. apply label_chars in H. rewrite Forall_forall in H. by apply H in Hin.
Qed.

Lemma label_lower v : is_label v = true -> to_ascii_lowercase v = v.
Proof.
  intros H. apply label_chars in H. apply (inj as_bytes). rewrite as_bytes_lowercase.
  induction H as [|b l Hb Hl IH]; [done|]. simpl. f_equal; [|done].
  apply ascii_lower_byte_id. unfold label_char, is_ascii_lowercase, is_ascii_digit in Hb.
  unfold is_ascii_uppercase. destruct ((65 <=? b) && (b <=? 90)) eqn:E; [|done].
  bsimp. exfalso. apply orb_true_iff in Hb as [Hb|Hb]; [apply orb_true_iff in Hb as [Hb|Hb]|]; bsimp; lia.
Qed.

Lemma label_not_root v : is_label v = true -> v <> ROOT_ROUTE.
Proof. intros H ->. done. Qed.

(** ** Splitting hostnames *)

Lemma string_app_assoc (a b c : string) : a +:+ (b +:+ c) = (a +:+ b) +:+ c.
Proof. apply (inj as_bytes). by rewrite !as_bytes_app, app_assoc. Qed.

Lemma string_app_inj_r (a b c : string) : a +:+ c = b +:+ c -> a = b.
Proof.
  intros H. apply (f_equal as_bytes) in H. rewrite !as_bytes_app in H.
  apply app_inv_tail in H. by apply (inj as_bytes).
Qed.

Definition dot_free (s : string) : Prop := byte_of_ascii dot ∉ as_bytes s.

(** The part after the last dot is unique. *)
Lemma last_label_inj a a' b b' :
  a +:+ "." +:+ b = a' +:+ "." +:+ b' -> dot_free b -> dot_free b' -> a = a' /\ b = b'.
Proof.
  unfold dot_free. intros H Hb Hb'.
  assert (str_rsplit_once dot (a +:+ "." +:+ b) = Some (a, b)) as E1.
  { by apply str_rsplit_once_Some. }
  rewrite H in E1.
  assert (str_rsplit_once dot (a' +:+ "." +:+ b') = Some (a', b')) as E2.
  { by apply str_rsplit_once_Some. }
  rewrite E1 in E2. by injection E2.
Qed.

Lemma dot_free_app_dot a b : ~ dot_free (a +:+ "." +:+ b).
Proof.
  intros H. apply H. rewrite !as_bytes_app. apply elem_of_app. right. left.
Qed.

Lemma strip_domain h d l :
  (let* labels := str_strip_suffix d h in str_strip_suffix "." labels) = Some l <->
  h = l +:+ "." +:+ d.
Proof.
  rewrite string_app_assoc. split.
  - destruct (str_strip_suffix d h) as [p|] eqn:E; [|done]. simpl. intros H.
    apply str_strip_suffix_Some in H as ->. by apply str_strip_suffix_Some in E.
  - intros ->. rewrite (proj2 (str_strip_suffix_Some _ _ (l +:+ ".")) eq_refl). simpl.
    by apply str_strip_suffix_Some.
Qed.

Lemma str_split_cases s :
  (dot_free s /\ str_split dot s = [s]) \/
  exists a b, dot_free a /\ s = a +:+ "." +:+ b /\ str_split dot s = a :: str_split dot b.
Proof.
  unfold str_split, dot_free.
  destruct (split_l_cases (byte_of_ascii dot) (as_bytes s)) as [[Hn E]|(a & b & Ha & Hs & E)].
  - left. rewrite E. simpl. by rewrite of_as_bytes.
  - right. pose proof (as_bytes_ok s) as Hok. rewrite Hs in Hok.
    apply Forall_app in Hok as [Hoa Hob]. apply Forall_cons in Hob as [_ Hob].
    exists (of_bytes a), (of_bytes b). rewrite !as_of_bytes by done.
    split; [done|]. split; [|by rewrite E].
    apply (inj as_bytes). rewrite !as_bytes_app, !as_of_bytes by done. by rewrite Hs.
Qed.

Lemma tunnel_id_spec h d id :
  tunnel_id h d = Some id <->
  id <> "" /\ dot_free id /\
  (h = id +:+ "." +:+ d \/ exists r, dot_free r /\ h = r +:+ "." +:+ id +:+ "." +:+ d).
Proof.
  unfold tunnel_id. split.
  - destruct (let* labels := str_strip_suffix d h in str_strip_suffix "." labels) as [l|] eqn:E.
    2: { destruct (str_strip_suffix d h) as [p|]; simpl in *; [|done]. by rewrite E. }
    assert (str_strip_suffix d h ≫= (fun labels => str_strip_suffix "." labels) = Some l) as E' by done.
    destruct (str_strip_suffix d h) as [p|] eqn:Ep; simpl in *; [|done]. rewrite E'. simpl.
    assert (h = l +:+ "." +:+ d) as Hh by (apply strip_domain; rewrite Ep; done).
    destruct (str_split_cases l) as [[Hn ->]|(a & b & Ha & -> & ->)]; simpl.
    + unfold str_is_empty. case_split; [done|]. bsimp. intros [= <-]. auto.
    + destruct (str_split_cases b) as [[Hb ->]|(a' & b' & Ha' & -> & ->)]; simpl.
      * unfold str_is_empty. case_split; [done|]. bsimp. intros [= <-].
        split_and!; [done..|]. right. exists a. split; [done|].
        rewrite Hh. by rewrite !string_app_assoc.
      * destruct (str_split dot b') eqn:Eb; [|done].
        exfalso. unfold str_split in Eb. apply map_eq_nil in Eb. by apply split_l_nonempty in Eb.
  - intros (Hne & Hd & Hh).
    assert (forall l, h = l +:+ "." +:+ d ->
      exists p, str_strip_suffix d h = Some p /\ str_strip_suffix "." p = Some l) as Hstrip.
    { intros l Hl. apply strip_domain in Hl.
      destruct (str_strip_suffix d h) as [p|]; simpl in *; [eauto|done]. }
    assert (str_is_empty id = false) as Hem by (by apply bool_decide_eq_false).
    destruct Hh as [Hh|(r & Hr & Hh)].
    + destruct (Hstrip id Hh) as (p & -> & E). simpl. rewrite E. simpl.
      destruct (str_split_cases id) as [[_ ->]|(a & b & _ & -> & _)]; simpl; [by rewrite Hem|].
      by apply dot_free_app_dot in Hd.
    + destruct (Hstrip (r +:+ "." +:+ id)) as (p & -> & E).
      { rewrite Hh. by rewrite !string_app_assoc. }
      simpl. rewrite E. simpl.
      unfold str_split. rewrite !as_bytes_app. change (as_bytes ".") with [byte_of_ascii dot]. simpl.
      rewrite split_l_app by done. rewrite split_l_single by done. simpl.
      by rewrite !of_as_bytes, Hem.
Qed.

Lemma route_name_spec h id d r :
  route_name h id d = Some r <->
  (r = "@" /\ h = id +:+ "." +:+ d) \/
  (r <> "" /\ dot_free r /\ r +:+ "." +:+ id <> id /\ h = r +:+ "." +:+ id +:+ "." +:+ d).
Proof.
  unfold route_name. split.
  - destruct (str_strip_suffix d h) as [p|] eqn:Ep; simpl; [|done].
    destruct (str_strip_suffix "." p) as [l|] eqn:El; simpl; [|done].
    assert (h = l +:+ "." +:+ d) as Hh by (apply strip_domain; rewrite Ep; done).
    case_decide as Hl; [intros [= <-]; left; by rewrite <- Hl|].
    destruct (str_strip_suffix id l) as [q|] eqn:Eq; simpl; [|done].
    destruct (str_strip_suffix "." q) as [r'|] eqn:Er; simpl; [|done].
    case_split; [|done]. intros [= ->]. unfold str_is_empty in *. bsimp. right.
    assert (l = r +:+ "." +:+ id) as -> by (apply strip_domain; rewrite Eq; done).
    split_and!; [done|done|done|]. rewrite Hh. by rewrite !string_app_assoc.
  - assert (forall l, h = l +:+ "." +:+ d ->
      exists p, str_strip_suffix d h = Some p /\ str_strip_suffix "." p = Some l) as Hstrip.
    { intros l Hl. apply strip_domain in Hl.
      destruct (str_strip_suffix d h) as [p|]; simpl in *; [eauto|done]. }
    intros [[-> Hh]|(Hne & Hd & Hneq & Hh)].
    + destruct (Hstrip _ Hh) as (p & -> & E). simpl. rewrite E. simpl. by rewrite decide_True.
    + destruct (Hstrip (r +:+ "." +:+ id)) as (p & -> & E).
      { rewrite Hh. by rewrite !string_app_assoc. }
      simpl. rewrite E. simpl. rewrite decide_False by done.
      assert (str_strip_suffix id (r +:+ "." +:+ id) = Some (r +:+ ".")) as ->.
      { apply str_strip_suffix_Some. by rewrite string_app_assoc. }
      simpl. rewrite (proj2 (str_strip_suffix_Some _ _ r) eq_refl). simpl.
      unfold str_is_empty, dot_free in *. by rewrite !bool_decide_eq_false_2.
Qed.

(** The label before an equal suffix is unique. *)
Lemma app_dot_ne r id : r +:+ "." +:+ id <> id.
Proof.
  intros H. apply (f_equal str_len) in H. unfold str_len in H.
  rewrite !as_bytes_app, !length_app in H. simpl in H. lia.
Qed.

(** A hostname resolves to at most one tunnel and route: where the route resolves for a tunnel ID, that ID is the
    one [tunnel_id] reads from the same hostname. *)
Lemma route_name_tunnel_id h id d r :
  is_label id = true -> route_name h id d = Some r -> tunnel_id h d = Some id.
Proof.
  intros Hid Hr. apply tunnel_id_spec. apply route_name_spec in Hr.
  split; [by apply label_nonempty|]. split; [by apply label_no_dot|].
  destruct Hr as [[_ ?]|(? & ? & _ & ?)]; eauto.
Qed.

Lemma route_for_sni_spec sni hostname r :
  route_for_sni sni hostname = Some r <->
  (r = ROOT_ROUTE /\ to_ascii_lowercase sni = to_ascii_lowercase hostname) \/
  (is_label r = true /\ to_ascii_lowercase sni = r +:+ "." +:+ to_ascii_lowercase hostname).
Proof.
  unfold route_for_sni. set (s := to_ascii_lowercase sni). set (h := to_ascii_lowercase hostname).
  split.
  - case_decide as Hs; [intros [= <-]; auto|].
    destruct (str_strip_suffix h s) as [p|] eqn:E1; simpl; [|done].
    destruct (str_strip_suffix "." p) as [l|] eqn:E2; simpl; [|done].
    case_split; [|done]. intros [= ->]. right. split; [done|].
    apply strip_domain. by rewrite E1.
  - intros [[-> Hs]|[Hl Hs]].
    + by rewrite decide_True.
    + rewrite decide_False; [|rewrite Hs; intros Heq; by eapply app_dot_ne].
      assert (str_strip_suffix h s = Some (r +:+ ".")) as ->.
      { apply str_strip_suffix_Some. by rewrite <- string_app_assoc. }
      simpl. rewrite (proj2 (str_strip_suffix_Some _ _ r) eq_refl). simpl. by rewrite Hl.
Qed.

(** On lowercase names the server's routes are the client's, but for the label [@]. *)
Lemma route_name_route_for_sni sni id domain r :
  is_label id = true -> to_ascii_lowercase sni = sni -> to_ascii_lowercase domain = domain -> is_valid_route r = true ->
  route_name sni id domain = Some r <->
     route_for_sni sni (id +:+ "." +:+ domain) = Some r \/
     (r = ROOT_ROUTE /\ sni = ROOT_ROUTE +:+ "." +:+ id +:+ "." +:+ domain).
Proof.
  intros Hid Hs Hd Hr.
assert (to_ascii_lowercase (id +:+ "." +:+ domain) = id +:+ "." +:+ domain) as Hh.
  { rewrite !to_ascii_lowercase_app, Hd, label_lower by done. done. }
  rewrite route_name_spec, route_for_sni_spec, Hs, Hh. split.
  - intros [[-> ->]|(Hne & Hf & _ & ->)]; [by left; left|].
    apply orb_true_iff in Hr as [Hr|Hr]; [bsimp; subst; by right|by left; right].
  - intros [[[-> ->]|[Hl ->]]|[-> ->]]; [by left| |].
    + right. split_and!; [by apply label_nonempty|by apply label_no_dot|apply app_dot_ne|done].
    + right. split_and!; [done| |apply app_dot_ne|done].
      intros H. by apply (bool_decide_eq_true_2 _) in H.
Qed.

(** ** The properties *)

(** the server's view of a visitor's hostname and the client's agree. For a tunnel ID the server accepts, on
    lowercase names, every route the client resolves from the SNI the server resolves too, and to the tunnel that
    [tunnel_id] reads from the same SNI. The server resolves a valid route the client does not only for the SNI
    whose first label is the root route's own name, [@]. *)
Theorem server_client_routes_agree sni id domain r :
  valid_tunnel_id id = true ->
  to_ascii_lowercase sni = sni -> to_ascii_lowercase domain = domain -> is_valid_route r = true ->
  (route_name sni id domain = Some r <->
     route_for_sni sni (id +:+ "." +:+ domain) = Some r \/
     (r = ROOT_ROUTE /\ sni = ROOT_ROUTE +:+ "." +:+ id +:+ "." +:+ domain)) /\
  (route_name sni id domain = Some r -> tunnel_id sni domain = Some id).
Proof.
  rewrite valid_tunnel_id_is_label. intros Hid Hs Hd Hr.
  split; [by apply route_name_route_for_sni|by apply route_name_tunnel_id].
Qed.

Lemma server_client_routes_agree_witness :
  route_name "app.abc123.tunnel.test" "abc123" "tunnel.test" = Some "app" /\
  tunnel_id "app.abc123.tunnel.test" "tunnel.test" = Some "abc123".
Proof.
  pose proof (server_client_routes_agree "app.abc123.tunnel.test" "abc123" "tunnel.test" "app"
                eq_refl eq_refl eq_refl eq_refl) as [[_ H1] H2].
  assert (route_name "app.abc123.tunnel.test" "abc123" "tunnel.test" = Some "app") as H.
  { apply H1. left. vm_compute. reflexivity. }
  split; [exact H|exact (H2 H)].
Defined.

(** A hostname belongs to at most one tunnel ID the server accepts, with one route. *)
Lemma route_name_functional h d id id' r r' :
  valid_tunnel_id id = true -> valid_tunnel_id id' = true ->
  route_name h id d = Some r -> route_name h id' d = Some r' -> id = id' /\ r = r'.
Proof.
  rewrite !valid_tunnel_id_is_label. intros Hid Hid' H H'.
  assert (id = id') as <-.
  { apply route_name_tunnel_id in H, H'; [|done..]. congruence. }
  split; [done|congruence].
Qed.

(** Comparison without case is an equivalence, and on tunnel hostnames it determines the ID. *)
Lemma eq_ignore_ascii_case_spec a b :
  eq_ignore_ascii_case a b = true <-> to_ascii_lowercase a = to_ascii_lowercase b.
Proof. unfold eq_ignore_ascii_case. by rewrite bool_decide_eq_true. Qed.

(** The names a tunnel may have on its certificate. *)
Definition own_names (id domain : string) (identifiers : list string) : Prop :=
  let h := to_ascii_lowercase (id +:+ "." +:+ domain) in
  let w := to_ascii_lowercase ("*." +:+ id +:+ "." +:+ domain) in
  map to_ascii_lowercase identifiers = [h] \/
  map to_ascii_lowercase identifiers = [h; w] \/
  map to_ascii_lowercase identifiers = [w; h].

(** Closes one case of the name check: the result and the names are known up to case. *)
Ltac solve_names :=
  split;
  [ intros H; first [discriminate H | split; [reflexivity|]];
    first [left; congruence | right; left; congruence | right; right; congruence]
  | intros [_ [H|[H|H]]]; first [reflexivity | exfalso; congruence] ].

(** a certificate order passes the server's check exactly when the ID is one DNS label and the names are the
    tunnel's hostname, alone or with its wildcard, in either order and any case: never the domain itself, another
    tunnel, or a duplicate. *)
Theorem check_tunnel_names_spec id domain identifiers :
  check_tunnel_names id domain identifiers = Ok tt <->
  valid_tunnel_id id = true /\ own_names id domain identifiers.
Proof.
  unfold check_tunnel_names, own_names.
  set (hn := id +:+ "." +:+ domain). set (wn := "*." +:+ hn).
  assert (to_ascii_lowercase hn <> to_ascii_lowercase wn) as Hhw.
  { unfold wn. rewrite to_ascii_lowercase_app. intros H.
    apply (f_equal str_len) in H. unfold str_len in H. rewrite as_bytes_app, length_app in H.
    simpl in H. lia. }
  destruct (valid_tunnel_id id); cbn [negb]; [|split; [done|by intros [? _]]].
  destruct identifiers as [|x [|y [|z l]]];
    cbn [length Nat.eqb Nat.ltb Nat.leb orb map check_each existsb app result_bind];
    unfold eq_ignore_ascii_case.
  - solve_names.
  - destruct (decide (to_ascii_lowercase x = to_ascii_lowercase hn));
      destruct (decide (to_ascii_lowercase x = to_ascii_lowercase wn));
      repeat first [rewrite bool_decide_eq_true_2 by congruence | rewrite bool_decide_eq_false_2 by congruence];
      simpl; first [exfalso; congruence | solve_names].
  - destruct (decide (to_ascii_lowercase x = to_ascii_lowercase hn));
      destruct (decide (to_ascii_lowercase x = to_ascii_lowercase wn));
      destruct (decide (to_ascii_lowercase y = to_ascii_lowercase hn));
      destruct (decide (to_ascii_lowercase y = to_ascii_lowercase wn));
      repeat first [rewrite bool_decide_eq_true_2 by congruence | rewrite bool_decide_eq_false_2 by congruence];
      simpl; first [exfalso; congruence | solve_names].
  - solve_names.
Qed.

(** Two tunnels never share a certificate name. *)
Lemma own_names_disjoint id id' domain l l' x :
  valid_tunnel_id id = true -> valid_tunnel_id id' = true ->
  own_names id domain l -> own_names id' domain l' -> x ∈ l -> x ∈ l' -> id = id'.
Proof.
  rewrite !valid_tunnel_id_is_label. intros Hid Hid' Hl Hl' Hx Hx'.
  assert (forall i m, is_label i = true -> own_names i domain m -> x ∈ m ->
    exists p, to_ascii_lowercase x = p +:+ i +:+ "." +:+ to_ascii_lowercase domain /\ (p = "" \/ p = "*.")) as Hform.
  { intros i m Hi Hm Hxm. apply (list_elem_of_fmap_2 to_ascii_lowercase) in Hxm.
    assert (map to_ascii_lowercase m = to_ascii_lowercase <$> m) as Em by done.
    destruct Hm as [Hm|[Hm|Hm]]; rewrite <- Em, Hm in Hxm;
      rewrite ?elem_of_cons, elem_of_nil in Hxm; destruct_or?; try done;
      match goal with H : _ = to_ascii_lowercase _ |- _ => rewrite H | H : to_ascii_lowercase _ = _ |- _ => rewrite H end;
      rewrite !to_ascii_lowercase_app, ?(label_lower i) by done;
      [exists ""|exists ""|exists "*."|exists "*."|exists ""]; auto. }
  destruct (Hform id l Hid Hl Hx) as (p & E & Hp), (Hform id' l' Hid' Hl' Hx') as (p' & E' & Hp').
  rewrite E in E'. rewrite !string_app_assoc in E'.
  do 2 apply string_app_inj_r in E'. apply label_no_dot in Hid, Hid'.
  assert (forall i, dot_free i -> forall q, "*." +:+ q <> i) as Hno.
  { intros i Hi q <-. by apply (dot_free_app_dot "*" q). }
  destruct Hp as [->| ->], Hp' as [->| ->].
  - done.
  - symmetry in E'. by apply Hno in E'.
  - by apply Hno in E'.
  - apply (last_label_inj "*" "*") in E' as [_ ?]; done.
Qed.

(** What a request that passes guarantees: it is for this tunnel's hostname and asks for no name but the tunnel's. *)
Lemma check_tunnel_request_sound parse_x509 id domain identifiers csr :
  check_tunnel_request parse_x509 id domain identifiers csr = Ok tt ->
  valid_tunnel_id id = true /\ own_names id domain identifiers /\
  exists request, parse parse_x509 csr = Some request /\
    to_ascii_lowercase (hostname request) = to_ascii_lowercase (id +:+ "." +:+ domain) /\
    length (Csr.identifiers request) = length identifiers /\
    Forall (fun name => to_ascii_lowercase name ∈ map to_ascii_lowercase identifiers) (Csr.identifiers request).
Proof.
  unfold check_tunnel_request. intros H.
  destruct (check_tunnel_names id domain identifiers) as [[]|] eqn:En; [|done].
  apply check_tunnel_names_spec in En as [Hid Hown]. simpl in H.
  destruct (parse parse_x509 csr) as [request|] eqn:Ep; [|done]. simpl in H.
  destruct (eq_ignore_ascii_case _ _) eqn:Eh; [|done]. simpl in H.
  case_split; [done|]. bsimp. split_and!; [done..|]. exists request.
  split_and!; [done|by apply eq_ignore_ascii_case_spec|done|].
  apply Forall_forall. intros name Hname. rewrite forallb_forall in *.
  match goal with H : forall x, In x _ -> existsb _ _ = true |- _ =>
    specialize (H name (proj1 (list_elem_of_In _ _) Hname)); apply existsb_exists in H as (i & Hi & Hc) end.
  apply eq_ignore_ascii_case_spec in Hc. rewrite <- Hc.
  apply list_elem_of_fmap_2. by apply list_elem_of_In.
Qed.

(** an order the server sends to its certificate authority never covers a name of another tunnel: the names a
    checked request asks for belong to its tunnel alone. *)
Theorem checked_requests_disjoint parse_x509 id id' domain names names' csr csr' request request' x :
  check_tunnel_request parse_x509 id domain names csr = Ok tt ->
  check_tunnel_request parse_x509 id' domain names' csr' = Ok tt ->
  parse parse_x509 csr = Some request -> parse parse_x509 csr' = Some request' ->
  x ∈ Csr.identifiers request -> x ∈ Csr.identifiers request' -> id = id'.
Proof.
  intros H H' P P' Hx Hx'.
  apply check_tunnel_request_sound in H as (Hid & Hown & r & Hr & _ & _ & Hall).
  apply check_tunnel_request_sound in H' as (Hid' & Hown' & r' & Hr' & _ & _ & Hall').
  simplify_eq. rewrite Forall_forall in Hall, Hall'.
  apply Hall, list_elem_of_fmap in Hx as (y & Ey & Hy).
  apply Hall', list_elem_of_fmap in Hx' as (y' & Ey' & Hy').
  assert (forall i m z z', own_names i domain m -> z ∈ m -> to_ascii_lowercase z = to_ascii_lowercase z' ->
    own_names i domain (map to_ascii_lowercase m)) as Hlow.
  { intros i m z z' Hm _ _. unfold own_names in *. rewrite map_map.
    by rewrite (map_ext _ _ to_ascii_lowercase_idem). }
  eapply (own_names_disjoint id id' domain (map to_ascii_lowercase names) (map to_ascii_lowercase names')
            (to_ascii_lowercase x)); [done|done|by eapply Hlow|by eapply Hlow| |].
  - rewrite Ey. by apply list_elem_of_fmap_2.
  - rewrite Ey'. by apply list_elem_of_fmap_2.
Qed.

(** A parser that reads one request, for the witnesses. *)
Definition sample_x509 (csr : string) : option (list string * list string) :=
  if decide (csr = "csr-a") then Some (["a.t.test"], ["a.t.test"; "*.a.t.test"; "a.t.test"]) else None.

Lemma checked_requests_disjoint_witness : "a" = "a".
Proof.
  apply (checked_requests_disjoint sample_x509 "a" "a" "t.test" ["a.t.test"; "*.a.t.test"]
           ["*.A.t.test"; "a.t.test"] "csr-a" "csr-a"
           (mkRequest "a.t.test" ["a.t.test"; "*.a.t.test"]) (mkRequest "a.t.test" ["a.t.test"; "*.a.t.test"])
           "a.t.test"); first [vm_compute; reflexivity | left].
Defined.

(** The check compares the lengths and one inclusion, and the request's names are deduplicated with their case:
    a request for one name in two spellings passes as one for the hostname and the wildcard. *)
Example check_tunnel_request_not_exact :
  check_tunnel_request (fun _ => Some (["a.t.test"], ["a.t.test"; "A.t.test"])) "a" "t.test"
    ["a.t.test"; "*.a.t.test"] "csr" = Ok tt.
Proof. vm_compute. reflexivity. Qed.

(** a target that parses has a port between 1 and 65535 and a nonempty host of the allowed characters; and
    such a host, in brackets or (when it has no bracket) bare, is read back from its text with its port. *)
Theorem parse_target_spec value host port :
  parse_target value = Some (host, port) <->
  exists digits inner,
    value = inner +:+ ":" +:+ digits /\ (byte_of_ascii ":"%char ∉ as_bytes digits) /\
    parse_uint U16_MAX (as_bytes digits) = Some port /\ port <> 0 /\
    host <> "" /\ forallb host_char (as_bytes host) = true /\
    (inner = host \/ inner = "[" +:+ host +:+ "]").
Proof.
  unfold parse_target. split.
  - destruct (str_rsplit_once ":" value) as [[inner digits]|] eqn:E1; [|done]. simpl.
    destruct (parse_uint _ _) as [p|] eqn:E2; [|done]. simpl.
    destruct (p =? 0) eqn:E0; [done|].
    apply str_rsplit_once_Some in E1 as [-> Hd]. bsimp. intros H.
    exists digits, inner. unfold str_is_empty in H.
    destruct (str_strip_prefix "[" inner) as [q|] eqn:E3; simpl in H.
    + destruct (str_strip_suffix "]" q) as [h|] eqn:E4; simpl in H; [|done].
      apply str_strip_prefix_Some in E3 as ->. apply str_strip_suffix_Some in E4 as ->.
      case_split; [|done]. simplify_eq. bsimp. split_and!; try done. by right.
    + case_split; [|done]. simplify_eq. bsimp. split_and!; try done. by left.
  - intros (digits & inner & -> & Hd & Hp & Hp0 & Hne & Hc & Hin).
    assert (str_rsplit_once ":" (inner +:+ ":" +:+ digits) = Some (inner, digits)) as ->
      by (by apply str_rsplit_once_Some). simpl.
    rewrite Hp. simpl. rewrite (proj2 (Z.eqb_neq port 0)) by done.
    assert (str_is_empty host = false) as Hem by (by apply bool_decide_eq_false).
    destruct Hin as [->| ->].
    + destruct (str_strip_prefix "[" host) as [q|] eqn:E; simpl; [|by rewrite Hem, Hc].
      apply str_strip_prefix_Some in E as ->. done.
    + rewrite (proj2 (str_strip_prefix_Some "[" _ (host +:+ "]")) eq_refl).
      rewrite (proj2 (str_strip_suffix_Some "]" _ host) eq_refl). simpl. by rewrite Hem, Hc.
Qed.
