(* ===== verification/ProxyHeader.v ===== *)
(** * ProxyHeader: the PROXY protocol on both ends

    [Client] is [crates/opentunnel/src/protocol/proxy.rs], which writes the header a route's target reads;
    [Server] is the server's [proxy_protocol.rs], which reads the header the platform's proxy writes. *)

From Stdlib Require Import ZArith Lia Ascii String List.
From stdpp Require Import base list strings sets.
From S2P Require Import Prelude Text Addr.

Module Client.

Definition PUBLIC_PORT : Z := 443.

Definition V2_SIGNATURE : bytes := [13; 10; 13; 10; 0; 13; 10; 81; 85; 73; 84; 10].
Definition V2_PROXY : Z := 33.
Definition V2_LOCAL : Z := 32.
Definition V2_TCP4 : Z := 17.
Definition V2_TCP6 : Z := 33.
Definition V2_UNSPEC : Z := 0.
Definition PP2_TYPE_AUTHORITY : Z := 2.

Inductive ProxyProtocol := PV1 | PV2.

Definition as_str (p : ProxyProtocol) : string := match p with PV1 => "v1" | PV2 => "v2" end.
Definition parse_version (value : string) : option ProxyProtocol :=
  if decide (value = "v1") then Some PV1 else if decide (value = "v2") then Some PV2 else None.

Definition parse_port (value : string) : option Z :=
  let bytes := as_bytes value in
  if (length bytes =? 0)%nat || (5 <? length bytes)%nat || negb (forallb is_ascii_digit bytes) then None
  else parse_uint U16_MAX bytes.

(** [split_once("]:")]: around the first occurrence of the two characters. *)
Fixpoint split_bracket (l : bytes) : option (bytes * bytes) :=
  match l with
  | 93 :: 58 :: rest => Some ([], rest)
  | b :: l' => match split_bracket l' with Some (x, y) => Some (b :: x, y) | None => None end
  | [] => None
  end.

(** IPv4-mapped IPv6 addresses as IPv4. *)
Definition unmap (a : IpAddr) : IpAddr :=
  match a with
  | V6 n => match to_ipv4_mapped n with Some v4 => V4 v4 | None => V6 n end
  | V4 n => V4 n
  end.

Definition parse_peer (peer : string) : option SocketAddr :=
  let* (ip, port) :=
    match parse_ip peer with
    | Some ip => Some (ip, 0)
    | None =>
        match str_strip_prefix "[" peer with
        | Some rest =>
            let* (host, port) := split_bracket (as_bytes rest) in
            let* v6 := parse_ipv6 (of_bytes host) in
            let* port := parse_port (of_bytes port) in
            Some (V6 v6, port)
        | None =>
            let* (host, port) := str_rsplit_once ":" peer in
            let* v4 := parse_ipv4 host in
            let* port := parse_port port in
            Some (V4 v4, port)
        end
    end in
  Some (mkSocketAddr (unmap ip) port).

Definition v1 (source : option SocketAddr) : bytes :=
  match source with
  | Some (mkSocketAddr (V4 n) port) =>
      as_bytes "PROXY TCP4 " ++ ipv4_bytes n ++ [32] ++ ipv4_bytes 0 ++ [32] ++ to_dec port ++ [32]
      ++ to_dec PUBLIC_PORT ++ [13; 10]
  | Some (mkSocketAddr (V6 n) port) =>
      as_bytes "PROXY TCP6 " ++ ipv6_bytes n ++ [32] ++ ipv6_bytes 0 ++ [32] ++ to_dec port ++ [32]
      ++ to_dec PUBLIC_PORT ++ [13; 10]
  | None => as_bytes "PROXY UNKNOWN" ++ [13; 10]
  end.

Definition v2 (source : option SocketAddr) (sni : string) : bytes :=
  let '(command, family, body) :=
    match source with
    | Some (mkSocketAddr (V4 n) port) =>
        (V2_PROXY, V2_TCP4,
          octets (V4 n) ++ octets (V4 0) ++ be_bytes 2 port ++ be_bytes 2 PUBLIC_PORT)
    | Some (mkSocketAddr (V6 n) port) =>
        (V2_PROXY, V2_TCP6,
          octets (V6 n) ++ octets (V6 0) ++ be_bytes 2 port ++ be_bytes 2 PUBLIC_PORT)
    | None => (V2_LOCAL, V2_UNSPEC, [])
    end in
  let body :=
    if negb (str_is_empty sni) && (str_len sni <=? 255)%nat
    then body ++ [PP2_TYPE_AUTHORITY] ++ be_bytes 2 (Z.of_nat (str_len sni)) ++ as_bytes sni
    else body in
  V2_SIGNATURE ++ [command] ++ [family] ++ be_bytes 2 (Z.of_nat (length body)) ++ body.

Definition header (version : ProxyProtocol) (peer sni : string) : bytes :=
  let source := parse_peer peer in
  match version with PV1 => v1 source | PV2 => v2 source sni end.

End Client.

Module Server.

Definition V2_SIGNATURE : bytes := [13; 10; 13; 10; 0; 13; 10; 81; 85; 73; 84; 10].
Definition V1_MAX : nat := 107.

Inductive Header :=
| Incomplete
| Invalid
| Complete (length : nat) (source : option SocketAddr).

#[export] Instance header_eq_dec : EqDecision Header.
Proof. solve_decision. Defined.

(** [Ipv4Addr::new], [Ipv6Addr::from] and [u16::from_be_bytes] on a slice. *)
Definition be_at (body : bytes) (start len : nat) : option Z :=
  be_value <$> slice body start (start + len).

Definition parse_v2 (data : bytes) : option Header :=
  let prefix := Nat.min (length data) 12 in
  if negb (bool_decide (take prefix data = take prefix V2_SIGNATURE)) then Some Invalid
  else if (length data <? 16)%nat then Some Incomplete
  else
    let* version_command := data !! 12%nat in
    if negb (Z.shiftr version_command 4 =? 2) then Some Invalid
    else
      let* family := data !! 13%nat in
      let* len := u16_at data 14 in
      let total := (16 + len)%nat in
      if (length data <? total)%nat then Some Incomplete
      else
        let* body := slice data 16 total in
        let command := Z.land version_command 15 in
        let family := Z.shiftr family 4 in
        if command =? 0 then Some (Complete total None)
        else if (command =? 1) && (family =? 1) && (12 <=? length body)%nat then
          let* ip := be_at body 0 4 in
          let* port := be_at body 8 2 in
          Some (Complete total (Some (mkSocketAddr (V4 ip) port)))
        else if (command =? 1) && (family =? 2) && (36 <=? length body)%nat then
          let* ip := be_at body 0 16 in
          let* port := be_at body 32 2 in
          Some (Complete total (Some (mkSocketAddr (V6 ip) port)))
        else if command =? 1 then Some (Complete total None)
        else Some Invalid.

(** [data.windows(2).position(|window| window == b"\r\n")] *)
Fixpoint find_crlf (l : bytes) : option nat :=
  match l with
  | a :: ((b :: _) as l') => if (a =? 13) && (b =? 10) then Some 0%nat else S <$> find_crlf l'
  | _ => None
  end.

(** The match on the fields of the line. *)
Definition line_header (end_ : nat) (parts : list string) : Header :=
  match parts with
  | proxy :: family :: rest =>
      if bool_decide (proxy = "PROXY") && bool_decide (family = "UNKNOWN") then Complete (end_ + 2) None
      else
        match rest with
        | [source; _; port; _] =>
            if bool_decide (proxy = "PROXY") && (bool_decide (family = "TCP4") || bool_decide (family = "TCP6")) then
              match parse_ip source, parse_uint U16_MAX (as_bytes port) with
              | Some ip, Some port => Complete (end_ + 2) (Some (mkSocketAddr ip port))
              | _, _ => Invalid
              end
            else Invalid
        | _ => Invalid
        end
  | _ => Invalid
  end.

Definition parse_v1 (data : bytes) : option Header :=
  let prefix := Nat.min (length data) 6 in
  if negb (bool_decide (take prefix data = take prefix (as_bytes "PROXY "))) then Some Invalid
  else
    match find_crlf data with
    | None => Some (if (V1_MAX <=? length data)%nat then Invalid else Incomplete)
    | Some end_ =>
        let* head := slice data 0 end_ in
        match from_utf8 head with
        | None => Some Invalid
        | Some line => Some (line_header end_ (str_split " " line))
        end
    end.

Definition parse (data : bytes) : option Header :=
  match data with
  | [] => Some Incomplete
  | first :: _ =>
      if first =? 13 then parse_v2 data
      else if first =? 80 then parse_v1 data
      else Some Invalid
  end.

End Server.

(** ** The server's reader *)

Import Client Server.

Lemma slice_is_some (l : bytes) a b : (a <= b <= length l)%nat -> is_Some (slice l a b).
Proof. intros. rewrite slice_ok by done. eauto. Qed.

Lemma be_at_is_some body start len : (start + len <= length body)%nat -> exists n, be_at body start len = Some n.
Proof.
  intros. unfold be_at. destruct (slice_is_some body start (start + len)) as [x ->]; [lia|]. cbn. eauto.
Qed.

Lemma find_crlf_Some l n :
  find_crlf l = Some n -> exists a b, l = a ++ [13; 10] ++ b /\ n = length a.
Proof.
  revert n; induction l as [|x l IH]; intros n H; [done|]. cbn [find_crlf] in H.
  destruct l as [|y l]; [done|]. destruct ((x =? 13) && (y =? 10)) eqn:E.
  - bsimp. subst. injection H as <-. by exists [], l.
  - destruct (find_crlf (y :: l)) as [m|] eqn:Em; [|done]. injection H as <-.
    destruct (IH m eq_refl) as (a & b & -> & ->). by exists (x :: a), b.
Qed.

Lemma parse_v2_total data : is_Some (parse_v2 data).
Proof.
  unfold parse_v2. case_split; [eauto|]. case_split; [eauto|]. bsimp.
  destruct (lookup_lt_is_Some_2 data 12) as [vc ->]; [lia|]. cbn [mbind option_bind].
  case_split; [eauto|].
  destruct (lookup_lt_is_Some_2 data 13) as [fam ->]; [lia|]. cbn [mbind option_bind].
  destruct (u16_at_ok data 14) as [len ->]; [lia|]. cbn [mbind option_bind].
  case_split; [eauto|]. bsimp.
  destruct (slice data 16 (16 + len)) as [body|] eqn:Es.
  2: { destruct (slice_is_some data 16 (16 + len)) as [x Hx]; [lia|]. congruence. }
  cbn [mbind option_bind]. case_split; [eauto|]. case_split; bsimp.
  { destruct (be_at_is_some body 0 4) as [a ->]; [lia|]. destruct (be_at_is_some body 8 2) as [b ->]; [lia|].
    cbn. eauto. }
  case_split; bsimp.
  { destruct (be_at_is_some body 0 16) as [a ->]; [lia|]. destruct (be_at_is_some body 32 2) as [b ->]; [lia|].
    cbn. eauto. }
  case_split; eauto.
Qed.

Lemma parse_v1_total data : is_Some (parse_v1 data).
Proof.
  unfold parse_v1. case_split; [eauto|]. destruct (find_crlf data) as [n|] eqn:En; [|eauto].
  apply find_crlf_Some in En as (a & b & -> & ->).
  destruct (slice_is_some (a ++ [13; 10] ++ b) 0 (length a)) as [x ->]; [rewrite length_app; lia|].
  cbn [mbind option_bind]. case_split; eauto.
Qed.

(** ** The client's v2 header *)

Lemma be_at_mid pre mid post start len :
  start = length pre -> len = length mid -> be_at (pre ++ mid ++ post) start len = Some (be_value mid).
Proof. intros -> ->. unfold be_at. by rewrite slice_mid by lia. Qed.

(** What comes after the addresses: the SNI in a TLV. *)
Definition authority (sni : string) : bytes :=
  if negb (str_is_empty sni) && (str_len sni <=? 255)%nat
  then [PP2_TYPE_AUTHORITY] ++ be_bytes 2 (Z.of_nat (str_len sni)) ++ as_bytes sni else [].

Lemma length_authority sni : (length (authority sni) <= 258)%nat.
Proof.
  unfold authority. case_split; [|cbn; lia]. bsimp. rewrite !length_app, length_be_bytes.
  unfold str_len in *. cbn [length]. lia.
Qed.

(** The server's reader on a v2 header with a command, a family and a body. *)
Lemma parse_v2_header command family body rest :
  0 <= Z.of_nat (length body) < 65536 -> Z.shiftr command 4 = 2 ->
  Server.parse (Client.V2_SIGNATURE ++ [command] ++ [family] ++ be_bytes 2 (Z.of_nat (length body)) ++ body ++ rest)
  = let total := (16 + length body)%nat in
    let command := Z.land command 15 in
    let family := Z.shiftr family 4 in
    if command =? 0 then Some (Complete total None)
    else if (command =? 1) && (family =? 1) && (12 <=? length body)%nat then
      let* ip := be_at body 0 4 in let* port := be_at body 8 2 in
      Some (Complete total (Some (mkSocketAddr (V4 ip) port)))
    else if (command =? 1) && (family =? 2) && (36 <=? length body)%nat then
      let* ip := be_at body 0 16 in let* port := be_at body 32 2 in
      Some (Complete total (Some (mkSocketAddr (V6 ip) port)))
    else if command =? 1 then Some (Complete total None)
    else Some Invalid.
Proof.
  intros Hlen Hc.
  set (data := Client.V2_SIGNATURE ++ _).
  assert (length data = 16 + (length body + length rest))%nat as Hl.
  { unfold data. rewrite !length_app, length_be_bytes. cbn [Client.V2_SIGNATURE length]. lia. }
  assert (Server.parse data = parse_v2 data) as -> by done.
  unfold parse_v2. rewrite Hl. replace (Nat.min (16 + (length body + length rest)) 12) with 12%nat by lia.
  assert (take 12 data = take 12 Server.V2_SIGNATURE) as -> by done.
  rewrite bool_decide_eq_true_2 by done. cbn [negb].
  rewrite (proj2 (Nat.ltb_ge _ 16)) by lia.
  assert (data !! 12%nat = Some command) as -> by done. cbn [mbind option_bind].
  rewrite Hc. cbn [Z.eqb Pos.eqb negb].
  assert (data !! 13%nat = Some family) as -> by done. cbn [mbind option_bind].
  assert (u16_at data 14 = Some (length body)) as ->.
  { unfold data. rewrite 2!app_assoc. rewrite u16_at_mid by (done || lia). by rewrite Nat2Z.id. }
  cbn [mbind option_bind]. rewrite (proj2 (Nat.ltb_ge _ _)) by lia.
  assert (slice data 16 (16 + length body) = Some body) as ->; [|done].
  unfold data. rewrite 3!app_assoc.
  apply slice_mid; rewrite !length_app, length_be_bytes; done.
Qed.

Lemma v2_unfold source sni :
  v2 source sni =
    let '(command, family, body) :=
      match source with
      | Some (mkSocketAddr a port) =>
          (V2_PROXY, match a with V4 _ => V2_TCP4 | V6 _ => V2_TCP6 end,
           octets a ++ octets (match a with V4 _ => V4 0 | V6 _ => V6 0 end)
           ++ be_bytes 2 port ++ be_bytes 2 PUBLIC_PORT)
      | None => (V2_LOCAL, V2_UNSPEC, [])
      end in
    let body := body ++ authority sni in
    Client.V2_SIGNATURE ++ [command] ++ [family] ++ be_bytes 2 (Z.of_nat (length body)) ++ body.
Proof.
  unfold v2, authority. destruct source as [[[n|n] port]|];
    (case_split; [|rewrite ?app_nil_r]); reflexivity.
Qed.

(** The source the server reads from the header the client writes. *)
Lemma parse_v2_written source sni rest :
  (forall a, source = Some a -> addr_ok a) ->
  Server.parse (v2 source sni ++ rest) = Some (Complete (length (v2 source sni)) source).
Proof.
  intros Hok. rewrite v2_unfold. pose proof (length_authority sni) as Ha.
  set (au := authority sni) in *.
  destruct source as [[a port]|].
  - destruct (Hok _ eq_refl) as [Hip Hport]. cbn [ip Addr.port] in *. cbv zeta.
    set (body := (octets a ++ _) ++ au).
    assert (length body = match a with V4 _ => 12 | V6 _ => 36 end + length au)%nat as Hb.
    { unfold body. destruct a; cbn [octets]; rewrite !length_app, !length_be_bytes; lia. }
    rewrite <- !app_assoc. rewrite parse_v2_header; [|destruct a; lia|done].
    rewrite !length_app, length_be_bytes.
    destruct a as [n|n]; cbn [ip_ok] in Hip; cbv zeta.
    + change (Z.land V2_PROXY 15) with 1. change (Z.shiftr V2_TCP4 4) with 1.
      cbn [Z.eqb Pos.eqb andb]. rewrite (proj2 (Nat.leb_le _ _)) by lia.
      assert (be_at body 0 4 = Some n) as ->.
      { unfold body. rewrite <- !app_assoc. etransitivity; [by apply (be_at_mid [] (octets (V4 n)))|].
        cbn [octets]. by rewrite be_value_bytes_id. }
      assert (be_at body 8 2 = Some port) as ->.
      { unfold body. rewrite <- !app_assoc, app_assoc. rewrite (be_at_mid _ (be_bytes 2 port)) by done.
        by rewrite be_value_bytes_id. }
      cbn [mbind option_bind]. do 2 f_equal.
    + change (Z.land V2_PROXY 15) with 1. change (Z.shiftr V2_TCP6 4) with 2.
      cbn [Z.eqb Pos.eqb andb]. rewrite (proj2 (Nat.leb_le _ _)) by lia.
      assert (be_at body 0 16 = Some n) as ->.
      { unfold body. rewrite <- !app_assoc. etransitivity; [by apply (be_at_mid [] (octets (V6 n)))|].
        cbn [octets]. by rewrite be_value_bytes_id. }
      assert (be_at body 32 2 = Some port) as ->.
      { unfold body. rewrite <- !app_assoc, app_assoc. rewrite (be_at_mid _ (be_bytes 2 port)) by done.
        by rewrite be_value_bytes_id. }
      cbn [mbind option_bind]. do 2 f_equal.
  - cbv zeta. rewrite <- !app_assoc. cbn [app]. 
    pose proof (parse_v2_header V2_LOCAL V2_UNSPEC au rest ltac:(lia) eq_refl) as H. cbn [app] in H.
    rewrite H. done.
Qed.

(** ** The peer text between them *)

Lemma split_bracket_app l rest : 93 ∉ l -> split_bracket (l ++ [93; 58] ++ rest) = Some (l, rest).
Proof.
  induction l as [|b l IH]; intros Hl; [done|].
  assert (b <> 93) as Hb by set_solver. cbn [app].
  assert (split_bracket (b :: (l ++ 93 :: 58 :: rest))
          = match split_bracket (l ++ 93 :: 58 :: rest) with Some (x, y) => Some (b :: x, y) | None => None end) as ->.
  { destruct b as [|p|p]; try done. do 7 (destruct p as [p|p|]; try done). }
  cbn [app] in IH. by rewrite IH by set_solver.
Qed.

Lemma parse_port_to_dec port : 0 <= port < 65536 -> parse_port (of_bytes (to_dec port)) = Some port.
Proof.
  intros Hp. unfold parse_port. rewrite as_of_bytes by (apply to_dec_ok; lia).
  assert (length (to_dec port) <= 5)%nat as Hl.
  { clear -Hp. unfold to_dec. rewrite (to_dec_aux_S 19). case_split; [cbn; lia|]. rewrite length_app.
    rewrite (to_dec_aux_S 18). case_split; [cbn; lia|]. rewrite length_app.
    rewrite (to_dec_aux_S 17). case_split; [cbn; lia|]. rewrite length_app.
    rewrite (to_dec_aux_S 16). case_split; [cbn; lia|]. rewrite length_app.
    rewrite (to_dec_aux_S 15). case_split; [cbn; lia|]. bsimp. exfalso.
    assert (port / 10 / 10 / 10 / 10 < 10); [|lia].
    rewrite !Z.div_div by lia. apply Z.div_lt_upper_bound; lia. }
  assert (length (to_dec port) <> 0)%nat as Hne.
  { pose proof (to_dec_aux_nonempty 19 port). change (to_dec_aux 20 port) with (to_dec port) in *.
    by destruct (to_dec port). }
  rewrite (proj2 (Nat.eqb_neq _ _)), (proj2 (Nat.ltb_ge _ _)) by lia.
  assert (forallb is_ascii_digit (to_dec port) = true) as ->.
  { apply forallb_forall. intros b Hb. apply list_elem_of_In in Hb.
    pose proof (to_dec_digits port ltac:(lia)) as Hd. rewrite Forall_forall in Hd. apply Hd in Hb.
    unfold is_ascii_digit. apply andb_true_intro. split; apply Z.leb_le; lia. }
  apply parse_uint_to_dec; unfold U16_MAX; lia.
Qed.

Lemma strip_bracket_ipv4 n rest : strip_prefix_l [91] (ipv4_bytes n ++ rest) = None.
Proof.
  destruct (strip_prefix_l _ _) as [q|] eqn:E; [|done]. apply strip_prefix_l_Some in E. exfalso.
  assert (91 ∉ ipv4_bytes n) as Hn by (apply (not_ip_char (V4 n)); unfold ip_char; lia).
  destruct (ipv4_bytes n) as [|b l] eqn:Eb.
  - unfold ipv4_bytes in Eb. apply app_eq_nil in Eb as [Eb _].
    by apply (to_dec_aux_nonempty 19) in Eb.
  - cbn in E. injection E as -> _. set_solver.
Qed.

(** The text of a visitor's address, as the server sends it, is read back by the client. *)
Lemma parse_peer_string a :
  addr_ok a -> parse_peer (addr_string a) = Some (mkSocketAddr (unmap (ip a)) (port a)).
Proof.
  intros [Hip Hport]. pose proof (as_bytes_addr_string a ltac:(lia)) as E.
  pose proof (to_dec_ok (port a) ltac:(lia)) as Hd. pose proof (ip_bytes_ok (ip a)) as Hi.
  unfold parse_peer, parse_ip, parse_ipv6, str_strip_prefix. rewrite !E.
  change (as_bytes "[") with [91].
  destruct (ip a) as [n|n] eqn:Ea; cbn [ip_ok ip_bytes] in *.
  - rewrite read_ipv4_bytes; [|done|by intros b [= <-]]. cbn [whole app fmap option_fmap option_map].
    rewrite strip_bracket_ipv4. cbn [option_map].
    assert (str_rsplit_once ":" (addr_string a) = Some (of_bytes (ipv4_bytes n), of_bytes (to_dec (port a)))) as ->.
    { apply str_rsplit_once_Some. split.
      - apply (inj as_bytes). rewrite E, as_bytes_app, as_bytes_String, !as_of_bytes by done. done.
      - rewrite as_of_bytes by done. intros Hin. pose proof (to_dec_digits (port a) ltac:(lia)) as Hdig.
        rewrite Forall_forall in Hdig. apply Hdig in Hin.
        change (byte_of_ascii ":") with 58 in Hin. lia. }
    cbn [mbind option_bind]. unfold parse_ipv4. rewrite as_of_bytes by done.
    rewrite <- (app_nil_r (ipv4_bytes n)), read_ipv4_bytes by done. cbn [whole mbind option_bind].
    rewrite parse_port_to_dec by done. done.
  - assert (read_ipv4 ([91] ++ ipv6_bytes n ++ [93; 58] ++ to_dec (port a)) = None) as -> by done.
    assert (whole (read_ipv6 ([91] ++ ipv6_bytes n ++ [93; 58] ++ to_dec (port a))) = None) as -> by done.
    cbn [fmap option_fmap option_map app strip_prefix_l]. rewrite decide_True by done. cbn [option_map].
    rewrite as_of_bytes by solve_bytes_ok.
    assert (93 ∉ ipv6_bytes n) by (apply (not_ip_char (V6 n)); unfold ip_char; lia).
    pose proof (split_bracket_app (ipv6_bytes n) (to_dec (port a))) as Hsp. cbn [app] in Hsp.
    rewrite Hsp by done. cbn [mbind option_bind].
    pose proof (parse_ipv6_string n Hip) as H6. unfold parse_ipv6 in H6. rewrite H6. cbn [mbind option_bind].
    by rewrite parse_port_to_dec.
Qed.

(** ** The client's v1 header *)

Lemma find_crlf_line l rest : 13 ∉ l -> find_crlf (l ++ [13; 10] ++ rest) = Some (length l).
Proof.
  induction l as [|b l IH]; intros Hl; [done|]. cbn [app length].
  assert (b <> 13) by set_solver.
  assert (find_crlf (b :: l ++ 13 :: 10 :: rest) = S <$> find_crlf (l ++ 13 :: 10 :: rest)) as ->.
  { destruct (l ++ 13 :: 10 :: rest) eqn:E; [by destruct l|]. cbn [find_crlf].
    by rewrite (proj2 (Z.eqb_neq b 13)). }
  cbn [app] in IH. by rewrite IH by set_solver.
Qed.

Lemma parse_v1_line line rest :
  13 ∉ line -> is_ascii line = true -> bytes_ok line -> take 6 line = as_bytes "PROXY " ->
  Server.parse (line ++ [13; 10] ++ rest)
  = Some (line_header (length line) (map of_bytes (split_l 32 line))).
Proof.
  intros Hcr Ha Hb Hp.
  assert (exists line', line = as_bytes "PROXY " ++ line') as [line' El].
  { exists (drop 6 line). rewrite <- Hp. symmetry. apply take_drop. }
  assert (Server.parse (line ++ [13; 10] ++ rest) = parse_v1 (line ++ [13; 10] ++ rest)) as ->.
  { by rewrite El. }
  unfold parse_v1. rewrite find_crlf_line by done.
  assert (6 <= length line)%nat as Hlen by (rewrite El, length_app; cbn; lia).
  replace (Nat.min (length (line ++ [13; 10] ++ rest)) 6) with 6%nat by (rewrite length_app; lia).
  rewrite take_app_le by done. rewrite Hp. rewrite bool_decide_eq_true_2 by done. cbn [negb].
  rewrite slice_ok by (rewrite length_app; lia). cbn [mbind option_bind].
  rewrite Nat.sub_0_r. change (drop 0 ?x) with x. rewrite take_app_length.
  unfold from_utf8. rewrite utf8_valid_ascii by done. unfold str_split. by rewrite as_of_bytes.
Qed.

(** The line of an address: its fields are told apart by spaces. *)
Lemma parse_v1_fields family a dest port tail rest :
  (family = "TCP4" \/ family = "TCP6") -> ip_ok a -> canonical_ip a -> 0 <= port < 65536 ->
  32 ∉ dest /\ 13 ∉ dest /\ bytes_ok dest /\ is_ascii dest = true ->
  32 ∉ tail /\ 13 ∉ tail /\ bytes_ok tail /\ is_ascii tail = true ->
  let line := as_bytes "PROXY " ++ as_bytes family ++ [32] ++ ip_bytes a ++ [32] ++ dest ++ [32] ++ to_dec port
              ++ [32] ++ tail in
  Server.parse (line ++ [13; 10] ++ rest)
  = Some (Complete (length line + 2) (Some (mkSocketAddr a port))).
Proof.
  intros Hf Ha Hc Hp (Hd1 & Hd2 & Hd3 & Hd4) (Ht1 & Ht2 & Ht3 & Ht4) line.
  pose proof (to_dec_digits port ltac:(lia)) as Hdig. rewrite Forall_forall in Hdig.
  assert (forall b, b ∈ to_dec port -> b <> 32 /\ b <> 13 /\ b < 128) as Hport by (intros b Hb; apply Hdig in Hb; lia).
  pose proof (ip_bytes_chars a) as Hchar. rewrite Forall_forall in Hchar.
  assert (forall b, b ∈ ip_bytes a -> b <> 32 /\ b <> 13 /\ b < 128) as Hip
    by (intros b Hb; apply Hchar in Hb; unfold ip_char in Hb; lia).
  assert (32 ∉ as_bytes family /\ 13 ∉ as_bytes family /\ is_ascii (as_bytes family) = true) as (Hf1 & Hf2 & Hf3).
  { destruct Hf as [->| ->]; (split_and!; [..|done]); intros H; by apply (bool_decide_eq_true_2 _) in H. }
  assert (13 ∉ line) as Hcr.
  { unfold line. rewrite !elem_of_app, !list_elem_of_singleton. intros Hin.
    destruct_or! Hin; try done; [by apply (bool_decide_eq_true_2 _) in Hin|apply Hip in Hin; lia|apply Hport in Hin; lia]. }
  assert (is_ascii line = true) as Hasc.
  { unfold line, is_ascii in *. rewrite !forallb_app, Hf3, Hd4, Ht4. cbn [forallb Z.ltb Z.compare Pos.compare andb].
    rewrite (proj2 (forallb_forall _ (ip_bytes a))), (proj2 (forallb_forall _ (to_dec port))); [done|..];
      intros b Hb; apply list_elem_of_In in Hb; apply Z.ltb_lt; [apply Hport in Hb|apply Hip in Hb]; lia. }
  assert (bytes_ok line) as Hok.
  { pose proof (to_dec_ok port ltac:(lia)). unfold line. solve_bytes_ok. }
  rewrite parse_v1_line by done.
  assert (split_l 32 line = [as_bytes "PROXY"; as_bytes family; ip_bytes a; dest; to_dec port; tail]) as ->.
  { unfold line. change (as_bytes "PROXY ") with (as_bytes "PROXY" ++ [32]). rewrite <- (app_assoc (as_bytes "PROXY")).
    cbn [app]. rewrite !split_l_app, split_l_single; try done.
    - intros H. apply Hport in H. lia.
    - intros H. apply Hip in H. lia.
    - intros H. by apply (bool_decide_eq_true_2 _) in H. }
  cbn [map]. rewrite !of_as_bytes. unfold line_header.
  assert (bool_decide (family = "UNKNOWN") = false) as -> by (by destruct Hf as [->| ->]).
  rewrite andb_false_r. cbn [andb].
  assert (bool_decide (family = "TCP4") || bool_decide (family = "TCP6") = true) as -> by (by destruct Hf as [->| ->]).
  rewrite bool_decide_eq_true_2 by done. cbn [andb].
  fold (ip_string a). rewrite parse_ip_string by done.
  rewrite as_of_bytes by (apply to_dec_ok; lia).
  rewrite parse_uint_to_dec; [done|unfold U16_MAX; lia|lia].
Qed.

Lemma unmap_ok a : ip_ok a -> ip_ok (unmap a) /\ canonical_ip (unmap a).
Proof.
  destruct a as [n|n]; cbn [ip_ok unmap]; [done|]. intros Hn.
  destruct (to_ipv4_mapped n) as [v|] eqn:E; cbn [ip_ok canonical_ip]; [|done].
  apply to_ipv4_mapped_Some in E as [_ ?]; [done|lia].
Qed.

Lemma v1_written a port rest :
  ip_ok a -> canonical_ip a -> 0 <= port < 65536 ->
  Server.parse (v1 (Some (mkSocketAddr a port)) ++ rest)
  = Some (Complete (length (v1 (Some (mkSocketAddr a port)))) (Some (mkSocketAddr a port))).
Proof.
  intros Ha Hc Hp.
  assert (forall l, bool_decide (32 ∈ l) = false -> bool_decide (13 ∈ l) = false -> is_ascii l = true ->
    bool_decide (bytes_ok l) = true -> 32 ∉ l /\ 13 ∉ l /\ bytes_ok l /\ is_ascii l = true) as Hplain.
  { intros l H1 H2 H3 H4. by bsimp. }
  destruct a as [n|n]; unfold v1.
  - pose proof (parse_v1_fields "TCP4" (V4 n) (ipv4_bytes 0) port (to_dec PUBLIC_PORT) rest) as H.
    cbv zeta in H. change (ip_bytes (V4 n)) with (ipv4_bytes n) in H.
    change (as_bytes "PROXY TCP4 ") with (as_bytes "PROXY " ++ as_bytes "TCP4" ++ [32]).
    rewrite <- !app_assoc in *. rewrite H; [|by left|done|done|done|by apply Hplain; vm_compute..].
    do 2 f_equal. rewrite !length_app. cbn [length]. lia.
  - pose proof (parse_v1_fields "TCP6" (V6 n) (ipv6_bytes 0) port (to_dec PUBLIC_PORT) rest) as H.
    cbv zeta in H. change (ip_bytes (V6 n)) with (ipv6_bytes n) in H.
    change (as_bytes "PROXY TCP6 ") with (as_bytes "PROXY " ++ as_bytes "TCP6" ++ [32]).
    rewrite <- !app_assoc in *. rewrite H; [|by right|done|done|done|by apply Hplain; vm_compute..].
    do 2 f_equal. rewrite !length_app. cbn [length]. lia.
Qed.

(** ** The properties *)

(** the server's reader of PROXY headers never panics, whatever the first bytes of a connection are. *)
Theorem proxy_parse_total data : exists h, Server.parse data = Some h.
Proof.
  unfold Server.parse. destruct data as [|b data]; [eauto|].
  case_split; [apply parse_v2_total|]. case_split; [apply parse_v1_total|eauto].
Qed.

(** a visitor's address survives the whole path. The text the server sends for any IPv4 or IPv6 address and
    port is read by the client, and the header the client writes for it, in either version and whatever follows,
    is read by a PROXY protocol reader as a header of exactly its bytes with that address (IPv4-mapped addresses
    as IPv4). *)
Theorem visitor_address_survives version a sni rest :
  addr_ok a ->
  Server.parse (header version (addr_string a) sni ++ rest)
  = Some (Complete (length (header version (addr_string a) sni)) (Some (mkSocketAddr (unmap (ip a)) (port a)))).
Proof.
  intros [Hip Hport]. unfold header. rewrite parse_peer_string by done.
  destruct (unmap_ok (ip a) Hip) as [Hok Hc].
  destruct version; [by apply v1_written|]. apply parse_v2_written. by intros a' [= <-].
Qed.

Lemma visitor_address_survives_witness :
  Server.parse (header PV2 "[2001:db8::7]:50000" "app.test" ++ [22])
  = Some (Complete (length (header PV2 "[2001:db8::7]:50000" "app.test"))
            (Some (mkSocketAddr (V6 (from_segments [8193; 3512; 0; 0; 0; 0; 0; 7])) 50000))).
Proof.
  apply (visitor_address_survives PV2 (mkSocketAddr (V6 (from_segments [8193; 3512; 0; 0; 0; 0; 0; 7])) 50000)
           "app.test" [22]).
  split; vm_compute; split; congruence.
Defined.
