(* ===== verification/Sni.v ===== *)
(** * Sni: the ClientHello parser of the server's [sni.rs]

    The parser reads the TLS records at the start of a visitor's connection. Indexing and slicing return an
    [option], [None] where the Rust code would panic; the loops have fuel, and running out of it is [None] too, so
    that a theorem that a result is [Some] shows both that the code does not panic and that it terminates. *)

From Stdlib Require Import ZArith Lia Ascii String List.
From stdpp Require Import base list strings.
From S2P Require Import Prelude Text.

Definition CLIENT_HELLO_LIMIT : nat := 64 * 1024.

Inductive Hello :=
| Incomplete
| Invalid (reason : string)
| Complete (server_name alpn : string).

#[export] Instance hello_eq_dec : EqDecision Hello.
Proof. solve_decision. Defined.

Record HelloParser := mkHelloParser {
  record_offset : nat;
  handshake : bytes;
  handshake_length : option nat;
}.

Definition default_parser : HelloParser := mkHelloParser 0 [] None.

Section sni.
(** [str::to_lowercase] on text that is not ASCII. *)
Variable unicode_lower : string -> string.

(** The loop over the names of a server_name extension: the first host_name that fits, or the name before. *)
Fixpoint name_loop (fuel : nat) (hello : bytes) (name_offset list_end : nat) (server_name : string)
    : option string :=
  match fuel with
  | O => None
  | S fuel' =>
      if (name_offset + 3 <=? list_end)%nat then
        let* name_type := hello !! name_offset in
        let* name_length := u16_at hello (name_offset + 1) in
        let name_offset := (name_offset + 3)%nat in
        if (list_end <? name_offset + name_length)%nat then Some server_name
        else if name_type =? 0 then
          let* name := slice hello name_offset (name_offset + name_length) in
          Some (from_utf8_lossy name)
        else name_loop fuel' hello (name_offset + name_length) list_end server_name
      else Some server_name
  end.

(** The loop over the extensions; the result is the server name and the protocol, or the reason to reject. *)
Fixpoint extension_loop (fuel : nat) (hello : bytes) (offset extensions_end : nat) (server_name alpn : string)
    : option (result (string * string) string) :=
  match fuel with
  | O => None
  | S fuel' =>
      if (offset + 4 <=? extensions_end)%nat then
        let* kind := u16_at hello offset in
        let* length := u16_at hello (offset + 2) in
        let offset := (offset + 4)%nat in
        let end_ := (offset + length)%nat in
        if (extensions_end <? end_)%nat then Some (Err "truncated extension")
        else if (kind =? 0)%nat && (5 <=? length)%nat then
          let* list_length := u16_at hello offset in
          let list_end := Nat.min end_ (offset + 2 + list_length) in
          let* server_name := name_loop (S list_end) hello (offset + 2) list_end server_name in
          extension_loop fuel' hello end_ extensions_end server_name alpn
        else if (kind =? 16)%nat && (3 <=? length)%nat then
          let* list_length := u16_at hello offset in
          let list_end := Nat.min end_ (offset + 2 + list_length) in
          let* protocol_length := hello !! (offset + 2)%nat in
          let protocol_length := Z.to_nat protocol_length in
          if (offset + 3 + protocol_length <=? list_end)%nat then
            let* name := slice hello (offset + 3) (offset + 3 + protocol_length) in
            extension_loop fuel' hello end_ extensions_end server_name (from_utf8_lossy name)
          else extension_loop fuel' hello end_ extensions_end server_name alpn
        else extension_loop fuel' hello end_ extensions_end server_name alpn
      else Some (Ok (server_name, alpn))
  end.

Definition parse_hello_body (hello : bytes) : option Hello :=
  if (length hello <? 35)%nat then Some (Invalid "truncated ClientHello")
  else
    let offset := 34%nat in
    let* session_length := hello !! offset in
    let offset := (offset + (1 + Z.to_nat session_length))%nat in
    if (length hello <? offset + 2)%nat then Some (Invalid "invalid session")
    else
      let* cipher_length := u16_at hello offset in
      let offset := (offset + (2 + cipher_length))%nat in
      if (length hello <=? offset)%nat then Some (Invalid "invalid cipher suites")
      else
        let* compression_length := hello !! offset in
        let offset := (offset + (1 + Z.to_nat compression_length))%nat in
        if (offset =? length hello)%nat then Some (Invalid "ClientHello has no SNI")
        else if (length hello <? offset + 2)%nat then Some (Invalid "invalid extensions")
        else
          let* extensions_length := u16_at hello offset in
          let offset := (offset + 2)%nat in
          let extensions_end := (offset + extensions_length)%nat in
          if (length hello <? extensions_end)%nat then Some (Invalid "truncated extensions")
          else
            let* outcome := extension_loop (S extensions_end) hello offset extensions_end "" "" in
            match outcome with
            | Err reason => Some (Invalid reason)
            | Ok (server_name, alpn) =>
                if str_is_empty server_name then Some (Invalid "ClientHello has no SNI")
                else Some (Complete (to_lowercase unicode_lower server_name) alpn)
            end.

(** The three bytes of the handshake's length. *)
Definition handshake_len (h : bytes) : option nat :=
  match h !! 1%nat, h !! 2%nat, h !! 3%nat with
  | Some a, Some b, Some c => Some (Z.to_nat (Z.lor (Z.lor (Z.shiftl a 16) (Z.shiftl b 8)) c))
  | _, _, _ => None
  end.

(** Reading one record: [None] for a panic, [inl] to go round the loop again, [inr] to return. *)
Definition parse_record (p : HelloParser) (data : bytes) : option (HelloParser + (HelloParser * Hello)) :=
  let offset := record_offset p in
  if (length data - offset <? 5)%nat then Some (inr (p, Incomplete))
  else
    let* first := data !! offset in
    if negb (first =? 22) then Some (inr (p, Invalid "expected TLS handshake record"))
    else
      let* record_length := u16_at data (offset + 3) in
      if (length data - offset - 5 <? record_length)%nat then Some (inr (p, Incomplete))
      else
        let start := (offset + 5)%nat in
        let* chunk := slice data start (start + record_length) in
        let h := handshake p ++ chunk in
        let p' := mkHelloParser (start + record_length) h (handshake_length p) in
        if (4 <=? length h)%nat then
          let* kind := h !! 0%nat in
          if negb (kind =? 1) then Some (inr (p', Invalid "expected TLS ClientHello"))
          else
            let* n := handshake_len h in
            Some (inl (mkHelloParser (start + record_length) h
                         (Some (match handshake_length p with Some m => m | None => n end))))
        else Some (inl p').

(** The check at the top of the loop: the whole handshake has arrived. *)
Definition hello_ready (p : HelloParser) : option nat :=
  match handshake_length p with
  | Some length_ => if (length_ + 4 <=? length (handshake p))%nat then Some length_ else None
  | None => None
  end.

Fixpoint parse_loop (fuel : nat) (p : HelloParser) (data : bytes) : option (HelloParser * Hello) :=
  match fuel with
  | O => None
  | S fuel' =>
      match hello_ready p with
      | Some length_ =>
          let* body := slice (handshake p) 4 (length_ + 4) in
          let* hello := parse_hello_body body in
          Some (p, hello)
      | None =>
          let* step := parse_record p data in
          match step with
          | inl p' => parse_loop fuel' p' data
          | inr answer => Some answer
          end
      end
  end.

(** [HelloParser::parse]: every record but the last is at least 5 bytes of [data]. *)
Definition parse (p : HelloParser) (data : bytes) : option (HelloParser * Hello) :=
  parse_loop (S (length data)) p data.

Definition parse_client_hello (data : bytes) : option Hello :=
  let* (_, hello) := parse default_parser data in Some hello.

(** The parser as [relay.rs] drives it: the buffer grows by each chunk that is read, until the parser answers. *)
Fixpoint feed (p : HelloParser) (buffer : bytes) (chunks : list bytes) : option (HelloParser * Hello) :=
  match chunks with
  | [] => Some (p, Incomplete)
  | chunk :: chunks' =>
      let buffer := buffer ++ chunk in
      let* (p', hello) := parse p buffer in
      match hello with
      | Incomplete => feed p' buffer chunks'
      | _ => Some (p', hello)
      end
  end.

(** ** No panic, and termination *)

Lemma lookup_ok {A} (l : list A) i : (i < length l)%nat -> exists x, l !! i = Some x.
Proof. intros H. apply lookup_lt_is_Some_2 in H as [x Hx]. eauto. Qed.

(** Discharges an in-bounds read: index, [u16_at] or [slice]. *)
Ltac in_bounds :=
  match goal with
  | |- context [mbind _ (?l !! ?i)] =>
      let x := fresh "b" in let E := fresh "Eb" in
      destruct (lookup_ok l i) as [x E]; [lia|rewrite E; cbn [mbind option_bind]]
  | |- context [mbind _ (u16_at ?l ?i)] =>
      let x := fresh "n" in let E := fresh "En" in
      destruct (u16_at_ok l i) as [x E]; [lia|rewrite E; cbn [mbind option_bind]]
  | |- context [mbind _ (slice ?l ?i ?j)] =>
      rewrite (slice_ok l i j) by lia; cbn [mbind option_bind]
  end.

Lemma name_loop_total fuel hello name_offset list_end s :
  (list_end <= length hello)%nat -> (list_end - name_offset < fuel)%nat ->
  is_Some (name_loop fuel hello name_offset list_end s).
Proof.
  revert name_offset; induction fuel as [|fuel IH]; intros name_offset Hle Hf; [lia|].
  cbn [name_loop]. destruct (_ <=? list_end)%nat eqn:E; [|eauto]. bsimp.
  in_bounds. in_bounds. case_split; [eauto|]. bsimp. case_split; [in_bounds; eauto|].
  apply IH; lia.
Qed.

Lemma extension_loop_total fuel hello offset extensions_end s a :
  (extensions_end <= length hello)%nat -> (extensions_end - offset < fuel)%nat ->
  is_Some (extension_loop fuel hello offset extensions_end s a).
Proof.
  revert offset s a; induction fuel as [|fuel IH]; intros offset s a Hle Hf; [lia|].
  cbn [extension_loop]. destruct (_ <=? extensions_end)%nat eqn:E; [|eauto]. bsimp.
  in_bounds. in_bounds. case_split; [eauto|]. bsimp. case_split; bsimp.
  { in_bounds.
    match goal with |- context [name_loop ?f ?h ?o ?e ?s] =>
      destruct (name_loop_total f h o e s) as [nm ->]; [lia|lia|cbn [mbind option_bind]] end.
    apply IH; lia. }
  case_split; bsimp; [|apply IH; lia].
  in_bounds. in_bounds. case_split; bsimp; [in_bounds|]; apply IH; lia.
Qed.

Lemma parse_hello_body_total hello : is_Some (parse_hello_body hello).
Proof.
  unfold parse_hello_body. case_split; [eauto|]. bsimp.
  in_bounds. case_split; [eauto|]. bsimp.
  in_bounds. case_split; [eauto|]. bsimp.
  in_bounds. case_split; [eauto|]. case_split; [eauto|]. bsimp.
  in_bounds. case_split; [eauto|]. bsimp.
  match goal with |- context [extension_loop ?f ?h ?o ?e ?s ?a] =>
    destruct (extension_loop_total f h o e s a) as [out ->]; [lia|lia|cbn [mbind option_bind]] end.
  destruct out as [[nm al]|]; [case_split|]; eauto.
Qed.

(** A record that is read advances the offset by at least its header. *)
Lemma parse_record_spec p data :
  (exists p', parse_record p data = Some (inl p') /\
     (record_offset p + 5 <= record_offset p' <= length data)%nat) \/
  (exists answer, parse_record p data = Some (inr answer)).
Proof.
  unfold parse_record. case_split; [eauto|]. bsimp.
  in_bounds. case_split; [eauto|]. bsimp.
  in_bounds. case_split; [eauto|]. bsimp.
  in_bounds. case_split; bsimp.
  - in_bounds. case_split; [eauto|].
    unfold handshake_len.
    set (h := handshake p ++ _) in *.
    destruct (lookup_ok h 1) as [x1 ->]; [lia|].
    destruct (lookup_ok h 2) as [x2 ->]; [lia|].
    destruct (lookup_ok h 3) as [x3 ->]; [lia|]. cbn [mbind option_bind].
    left. eexists. split; [done|]. simpl. lia.
  - left. eexists. split; [done|]. simpl. lia.
Qed.

Lemma hello_ready_body p n :
  hello_ready p = Some n -> exists body, slice (handshake p) 4 (n + 4) = Some body.
Proof.
  unfold hello_ready. intros. repeat case_split; simplify_eq; bsimp.
  rewrite slice_ok by lia. eauto.
Qed.

Lemma parse_loop_total fuel p data :
  (length data - record_offset p < fuel)%nat -> is_Some (parse_loop fuel p data).
Proof.
  revert p; induction fuel as [|fuel IH]; intros p Hf; [lia|].
  cbn [parse_loop]. destruct (hello_ready p) as [n|] eqn:E.
  - destruct (hello_ready_body p n E) as [body ->]. cbn [mbind option_bind].
    destruct (parse_hello_body_total body) as [hello ->]. cbn. eauto.
  - destruct (parse_record_spec p data) as [(p' & -> & Hp')|(answer & ->)]; cbn [mbind option_bind]; [|eauto].
    apply IH. lia.
Qed.

(** Enough fuel is as good as any more. *)
Lemma parse_loop_fuel fuel fuel' p data r :
  parse_loop fuel p data = Some r -> (fuel <= fuel')%nat -> parse_loop fuel' p data = Some r.
Proof.
  revert fuel' p; induction fuel as [|fuel IH]; intros fuel' p H Hle; [done|].
  destruct fuel' as [|fuel']; [lia|]. cbn [parse_loop] in *.
  destruct (hello_ready p); [done|].
  destruct (parse_record p data) as [[p'|answer]|]; cbn in *; [|done..].
  apply IH; [done|lia].
Qed.

(** The loop without its fuel. *)
Lemma parse_unfold p data :
  parse p data =
    match hello_ready p with
    | Some n => let* body := slice (handshake p) 4 (n + 4) in
                let* hello := parse_hello_body body in Some (p, hello)
    | None => let* step := parse_record p data in
              match step with inl p' => parse p' data | inr answer => Some answer end
    end.
Proof.
  unfold parse at 1. cbn [parse_loop]. destruct (hello_ready p); [done|].
  destruct (parse_record_spec p data) as [(p' & -> & Hp')|(answer & ->)]; cbn [mbind option_bind]; [|done].
  destruct (parse_loop_total (length data) p' data) as [r Hr]; [lia|].
  rewrite Hr. symmetry. unfold parse. eapply parse_loop_fuel; [done|lia].
Qed.

(** Rule induction on the records of [data]. *)
Lemma parse_ind (P : HelloParser -> Prop) data :
  (forall p, (forall p', parse_record p data = Some (inl p') -> P p') -> P p) -> forall p, P p.
Proof.
  intros H p. remember (length data - record_offset p)%nat as n eqn:En.
  revert p En. induction n as [n IH] using lt_wf_ind. intros p ->. apply H. intros p' Hp'.
  destruct (parse_record_spec p data) as [(p2 & E & Hp2)|(answer & E)]; rewrite E in Hp'; [|done].
  injection Hp' as <-. eapply IH; [|done]. lia.
Qed.

(** ** More bytes never change an answer *)

Lemma u16_at_app data more i n : u16_at data i = Some n -> u16_at (data ++ more) i = Some n.
Proof.
  unfold u16_at. intros H.
  destruct (data !! i) eqn:E1; [|done]. destruct (data !! S i) eqn:E2; [|done].
  by rewrite (lookup_app_l_Some _ _ _ _ E1), (lookup_app_l_Some _ _ _ _ E2).
Qed.

Lemma slice_app (data more : bytes) i j s : slice data i j = Some s -> slice (data ++ more) i j = Some s.
Proof.
  intros H. apply slice_Some in H as [Hle ->]. rewrite slice_ok by (rewrite length_app; lia).
  rewrite drop_app_le by lia. rewrite take_app_le by (rewrite length_drop; lia). done.
Qed.

Lemma parse_record_app p data more step :
  parse_record p data = Some step -> (forall p', step <> inr (p', Incomplete)) ->
  parse_record p (data ++ more) = Some step.
Proof.
  unfold parse_record. rewrite length_app. intros H Hinc.
  destruct (length data - record_offset p <? 5)%nat eqn:E1; [naive_solver|]. bsimp.
  rewrite (proj2 (Nat.ltb_ge _ _)) by lia.
  destruct (data !! record_offset p) eqn:E2; [|done].
  rewrite (lookup_app_l_Some _ _ _ _ E2). cbn [mbind option_bind] in *.
  destruct (negb _); [done|].
  destruct (u16_at data _) as [n|] eqn:E3; [|done]. rewrite (u16_at_app _ _ _ _ E3).
  cbn [mbind option_bind] in *.
  destruct (length data - record_offset p - 5 <? n)%nat eqn:E4; [naive_solver|]. bsimp.
  rewrite (proj2 (Nat.ltb_ge _ _)) by lia.
  destruct (slice data _ _) as [c|] eqn:E5; [|done]. by rewrite (slice_app _ _ _ _ _ E5).
Qed.

Lemma parse_record_incomplete p data p' :
  parse_record p data = Some (inr (p', Incomplete)) -> p' = p.
Proof. unfold parse_record. intros H. repeat (case_split; simplify_option_eq; try done). Qed.

(** An answer is final. *)
Lemma parse_final p data more p' hello :
  parse p data = Some (p', hello) -> hello <> Incomplete -> parse p (data ++ more) = Some (p', hello).
Proof.
  revert p. refine (parse_ind _ data _). intros p IH H Hh. rewrite parse_unfold in H |- *.
  destruct (hello_ready p); [done|].
  destruct (parse_record p data) as [step|] eqn:E; [|done]. cbn in H.
  rewrite (parse_record_app _ _ more _ E) by (intros p2 ->; naive_solver). cbn.
  destruct step as [p2|answer]; [by apply IH|done].
Qed.

(** A parser that stopped for more bytes goes on as if it had started with them. *)
Lemma parse_resume p data more p' :
  parse p data = Some (p', Incomplete) -> parse p (data ++ more) = parse p' (data ++ more).
Proof.
  revert p. refine (parse_ind _ data _). intros p IH H. rewrite parse_unfold in H.
  destruct (hello_ready p) as [n|] eqn:Er.
  { destruct (slice _ _ _); [|done]. cbn in H. by destruct (parse_hello_body _); simplify_option_eq. }
  destruct (parse_record p data) as [step|] eqn:E; [|done]. cbn in H.
  destruct step as [p2|answer].
  - rewrite <- (IH p2 eq_refl H). rewrite parse_unfold, Er.
    by rewrite (parse_record_app _ _ more _ E).
  - injection H as ->. by apply parse_record_incomplete in E as ->.
Qed.

Lemma feed_resume p0 p buffer chunks :
  parse p0 buffer = Some (p, Incomplete) ->
  snd <$> feed p buffer chunks = snd <$> parse p0 (buffer ++ concat chunks).
Proof.
  revert p buffer. induction chunks as [|chunk chunks IH]; intros p buffer H; cbn [feed concat].
  { by rewrite app_nil_r, H. }
  rewrite app_assoc. pose proof (parse_resume _ _ chunk _ H) as Hr.
  destruct (parse_loop_total (S (length (buffer ++ chunk))) p (buffer ++ chunk)) as [[p' hello] E]; [lia|].
  change (parse p (buffer ++ chunk) = Some (p', hello)) in E. rewrite E. cbn [mbind option_bind].
  rewrite E in Hr.
  assert (hello <> Incomplete -> snd <$> parse p0 ((buffer ++ chunk) ++ concat chunks) = Some hello) as Hfin.
  { intros Hh. by rewrite (parse_final _ _ _ _ _ Hr Hh). }
  destruct hello; [by apply IH|by rewrite Hfin..].
Qed.

(** ** Reference encoder: the ClientHello of RFC 8446, section 4.1.2, with the extensions the parser reads *)

Definition vec8 (l : bytes) : bytes := [Z.of_nat (length l)] ++ l.
Definition vec16 (l : bytes) : bytes := be_bytes 2 (Z.of_nat (length l)) ++ l.

Inductive Extension :=
| ServerName (name : bytes)
| Alpn (first : bytes) (others : list bytes)
| Other (kind : Z) (body : bytes).

Definition extension_kind (e : Extension) : Z :=
  match e with ServerName _ => 0 | Alpn _ _ => 16 | Other kind _ => kind end.

Definition extension_body (e : Extension) : bytes :=
  match e with
  | ServerName name => vec16 ([0] ++ vec16 name)
  | Alpn first others => vec16 (vec8 first ++ concat (map vec8 others))
  | Other _ body => body
  end.

Definition encode_extension (e : Extension) : bytes :=
  be_bytes 2 (extension_kind e) ++ vec16 (extension_body e).

Record ClientHello := mkClientHello {
  version : bytes;
  random : bytes;
  session : bytes;
  ciphers : bytes;
  compression : bytes;
  extensions : list Extension;
}.

Definition encode_hello (h : ClientHello) : bytes :=
  version h ++ random h ++ vec8 (session h) ++ vec16 (ciphers h) ++ vec8 (compression h)
  ++ vec16 (concat (map encode_extension (extensions h))).

(** The handshake message, and the record around each of its fragments. *)
Definition encode_handshake (h : ClientHello) : bytes :=
  [1] ++ be_bytes 3 (Z.of_nat (length (encode_hello h))) ++ encode_hello h.
Definition encode_record (fragment : bytes) : bytes := [22; 3; 1] ++ vec16 fragment.

Definition extension_ok (e : Extension) : Prop :=
  Z.of_nat (length (extension_body e)) < 65536 /\
  match e with
  | ServerName name => True
  | Alpn first _ => Z.of_nat (length first) < 256
  | Other kind _ => 0 < kind < 65536 /\ kind <> 16
  end.

Definition hello_ok (h : ClientHello) : Prop :=
  length (version h) = 2%nat /\ length (random h) = 32%nat /\ Z.of_nat (length (session h)) < 256 /\
  Z.of_nat (length (ciphers h)) < 65536 /\ Z.of_nat (length (compression h)) < 256 /\
  Z.of_nat (length (concat (map encode_extension (extensions h)))) < 65536 /\
  Forall extension_ok (extensions h).

(** What each extension means: the last one of a kind counts. *)
Definition extension_effect (acc : string * string) (e : Extension) : string * string :=
  match e with
  | ServerName name => (from_utf8_lossy name, acc.2)
  | Alpn first _ => (acc.1, from_utf8_lossy first)
  | Other _ _ => acc
  end.

Definition meaning (h : ClientHello) : Hello :=
  let '(name, alpn) := fold_left extension_effect (extensions h) ("", "") in
  if str_is_empty name then Invalid "ClientHello has no SNI"
  else Complete (to_lowercase unicode_lower name) alpn.

(** *** Reading what was encoded *)

Lemma name_loop_mid fuel pre name post s :
  (0 < fuel)%nat -> Z.of_nat (length name) < 65536 ->
  name_loop fuel (pre ++ ([0] ++ vec16 name) ++ post) (length pre) (length pre + (3 + length name)) s
  = Some (from_utf8_lossy name).
Proof.
  intros Hf Hn. destruct fuel as [|fuel]; [lia|]. cbn [name_loop].
  rewrite (proj2 (Nat.leb_le _ _)) by lia. unfold vec16. rewrite <- !app_assoc.
  rewrite u8_at_mid by done. cbn [mbind option_bind].
  rewrite (app_assoc pre [0]).
  rewrite u16_at_mid by (rewrite ?length_app; simpl; lia). cbn [mbind option_bind].
  rewrite Nat2Z.id. rewrite (proj2 (Nat.ltb_ge _ _)) by lia. rewrite Z.eqb_refl.
  rewrite (app_assoc _ (be_bytes _ _)).
  rewrite slice_mid by (rewrite !length_app, length_be_bytes; simpl; lia). done.
Qed.

Lemma length_vec16 l : length (vec16 l) = (2 + length l)%nat.
Proof. unfold vec16. by rewrite length_app, length_be_bytes. Qed.

Lemma length_vec8 l : length (vec8 l) = (1 + length l)%nat.
Proof. done. Qed.

Lemma length_encode_extension e : length (encode_extension e) = (4 + length (extension_body e))%nat.
Proof. unfold encode_extension. by rewrite length_app, length_be_bytes, length_vec16. Qed.

(** One round of the extension loop on an encoded extension. *)
Lemma extension_loop_step fuel pre e post extensions_end s a :
  extension_ok e -> (length pre + length (encode_extension e) <= extensions_end)%nat ->
  extension_loop (S fuel) (pre ++ encode_extension e ++ post) (length pre) extensions_end s a
  = let '(s', a') := extension_effect (s, a) e in
    extension_loop fuel (pre ++ encode_extension e ++ post) (length pre + length (encode_extension e))
      extensions_end s' a'.
Proof.
  intros [Hlen Hok] Hend. rewrite length_encode_extension in *.
  assert (0 <= extension_kind e < 65536) as Hk by (destruct e; simpl; lia).
  cbn [extension_loop]. rewrite (proj2 (Nat.leb_le _ _)) by lia.
  remember (pre ++ encode_extension e ++ post) as hello eqn:Eh.
  assert (u16_at hello (length pre) = Some (Z.to_nat (extension_kind e))) as ->.
  { subst. unfold encode_extension. rewrite <- app_assoc. by apply u16_at_mid. }
  assert (u16_at hello (length pre + 2) = Some (length (extension_body e))) as ->.
  { subst. unfold encode_extension, vec16. rewrite <- !app_assoc, (app_assoc pre).
    rewrite u16_at_mid by (rewrite ?length_app, ?length_be_bytes; lia). by rewrite Nat2Z.id. }
  cbn [mbind option_bind].
  rewrite (proj2 (Nat.ltb_ge _ _)) by lia.
  assert (hello = (pre ++ be_bytes 2 (extension_kind e) ++ be_bytes 2 (Z.of_nat (length (extension_body e))))
                   ++ extension_body e ++ post) as Eb.
  { subst. unfold encode_extension, vec16. by rewrite <- !app_assoc. }
  set (pre4 := pre ++ be_bytes 2 (extension_kind e) ++ be_bytes 2 (Z.of_nat (length (extension_body e)))) in *.
  assert (length pre4 = length pre + 4)%nat as Hp4 by (unfold pre4; rewrite !length_app, !length_be_bytes; lia).
  rewrite <- Hp4. replace (length pre + (4 + length (extension_body e)))%nat
    with (length pre4 + length (extension_body e))%nat by lia.
  destruct e as [name|first others|kind body]; cbn [extension_kind extension_effect fst snd extension_body] in *.
  - rewrite length_vec16, length_app, length_vec16 in *. cbn [length] in *.
    cbn [Z.to_nat Nat.eqb andb]. rewrite (proj2 (Nat.leb_le _ _)) by lia.
    assert (u16_at hello (length pre4) = Some (1 + (2 + length name))%nat) as ->.
    { rewrite Eb. unfold vec16 at 1. rewrite <- app_assoc. rewrite u16_at_mid;
        [|done|rewrite length_app, length_vec16; simpl; lia].
      rewrite Nat2Z.id, length_app, length_vec16. done. }
    cbn [mbind option_bind].
    assert (name_loop (S (Nat.min (length pre4 + (2 + (1 + (2 + length name))))
             (length pre4 + 2 + (1 + (2 + length name))))) hello (length pre4 + 2)
             (Nat.min (length pre4 + (2 + (1 + (2 + length name)))) (length pre4 + 2 + (1 + (2 + length name)))) s
             = Some (from_utf8_lossy name)) as ->.
    { rewrite Eb. unfold vec16 at 1. rewrite <- app_assoc. rewrite (app_assoc pre4).
      replace (length pre4 + 2)%nat
        with (length (pre4 ++ be_bytes 2 (Z.of_nat (length ([0] ++ vec16 name)))))
        by (rewrite length_app, length_be_bytes; lia).
      match goal with |- name_loop _ (?p ++ _) _ ?m _ = _ =>
        replace m with (length p + (3 + length name))%nat by (rewrite length_app, length_be_bytes; lia) end.
      apply name_loop_mid; lia. }
    done.
  - rewrite length_vec16, length_app, length_vec8 in *.
    change (Z.to_nat 16 =? 0)%nat with false. change (Z.to_nat 16 =? 16)%nat with true. cbn [andb].
    rewrite (proj2 (Nat.leb_le _ _)) by lia.
    set (rest := concat (map vec8 others)) in *.
    assert (u16_at hello (length pre4) = Some (1 + length first + length rest)%nat) as ->.
    { rewrite Eb. unfold vec16. rewrite <- app_assoc. rewrite u16_at_mid;
        [|done|rewrite length_app, length_vec8; simpl; lia].
      rewrite Nat2Z.id, length_app, length_vec8. done. }
    cbn [mbind option_bind].
    assert (hello = (pre4 ++ be_bytes 2 (Z.of_nat (length (vec8 first ++ rest))))
                     ++ [Z.of_nat (length first)] ++ first ++ rest ++ post) as Eb2.
    { rewrite Eb. unfold vec16, vec8. by rewrite <- !app_assoc. }
    assert (hello !! (length pre4 + 2)%nat = Some (Z.of_nat (length first))) as ->.
    { rewrite Eb2. apply u8_at_mid. rewrite length_app, length_be_bytes. lia. }
    cbn [mbind option_bind]. rewrite Nat2Z.id, (proj2 (Nat.leb_le _ _)) by lia.
    assert (slice hello (length pre4 + 3) (length pre4 + 3 + length first) = Some first) as ->.
    { rewrite Eb2, (app_assoc _ [_]). apply slice_mid;
      rewrite !length_app, length_be_bytes; simpl; lia. }
    done.
  - destruct Hok as [Hk1 Hk2].
    rewrite (proj2 (Nat.eqb_neq (Z.to_nat kind) 0)) by lia.
    rewrite (proj2 (Nat.eqb_neq (Z.to_nat kind) 16)) by lia. done.
Qed.

Lemma extension_loop_all exts fuel pre post s a :
  Forall extension_ok exts -> (length exts < fuel)%nat ->
  extension_loop fuel (pre ++ concat (map encode_extension exts) ++ post) (length pre)
    (length pre + length (concat (map encode_extension exts))) s a
  = Some (Ok (fold_left extension_effect exts (s, a))).
Proof.
  intros Hok. revert fuel pre s a. induction Hok as [|e exts He Hexts IH]; intros fuel pre s a Hf.
  - destruct fuel as [|fuel]; [lia|]. cbn [map concat length extension_loop fold_left].
    by rewrite (proj2 (Nat.leb_gt _ _)) by lia.
  - destruct fuel as [|fuel]; [lia|]. cbn [map concat fold_left]. rewrite <- app_assoc.
    rewrite extension_loop_step; [|done|rewrite length_app; lia].
    destruct (extension_effect (s, a) e) as [s' a'].
    rewrite (app_assoc pre), <- length_app.
    replace (length pre + length (encode_extension e ++ concat (map encode_extension exts)))%nat
      with (length (pre ++ encode_extension e) + length (concat (map encode_extension exts)))%nat
      by (rewrite !length_app; lia).
    apply IH. cbn in Hf. lia.
Qed.

Lemma length_extensions_ge exts : (length exts <= length (concat (map encode_extension exts)))%nat.
Proof.
  induction exts as [|e exts IH]; cbn [map concat length]; [lia|].
  rewrite length_app, length_encode_extension. lia.
Qed.

Lemma parse_hello_body_encode h : hello_ok h -> parse_hello_body (encode_hello h) = Some (meaning h).
Proof.
  intros (Hv & Hr & Hs & Hc & Hm & Hx & Hok). unfold parse_hello_body.
  set (exts := concat (map encode_extension (extensions h))) in *.
  assert (length (encode_hello h) = 34 + (1 + length (session h)) + (2 + length (ciphers h))
            + (1 + length (compression h)) + (2 + length exts))%nat as Hlen.
  { unfold encode_hello. rewrite !length_app, !length_vec16, !length_vec8. unfold exts. lia. }
  rewrite Hlen. rewrite (proj2 (Nat.ltb_ge _ _)) by lia.
  assert (encode_hello h !! 34%nat = Some (Z.of_nat (length (session h)))) as ->.
  { unfold encode_hello, vec8. rewrite (app_assoc (version h)), <- (app_assoc [_]). apply u8_at_mid.
    rewrite length_app. lia. }
  cbn [mbind option_bind]. rewrite Nat2Z.id, (proj2 (Nat.ltb_ge _ _)) by lia.
  assert (u16_at (encode_hello h) (34 + (1 + length (session h))) = Some (length (ciphers h))) as ->.
  { unfold encode_hello. unfold vec16 at 1. rewrite (app_assoc (version h)), (app_assoc (_ ++ _)), <- (app_assoc (be_bytes _ _)).
    rewrite u16_at_mid; [by rewrite Nat2Z.id| |lia]. rewrite !length_app, length_vec8. lia. }
  cbn [mbind option_bind]. rewrite (proj2 (Nat.leb_gt _ _)) by lia.
  assert (encode_hello h !! (34 + (1 + length (session h)) + (2 + length (ciphers h)))%nat
          = Some (Z.of_nat (length (compression h)))) as ->.
  { unfold encode_hello. unfold vec8 at 2.
    rewrite (app_assoc (version h)), (app_assoc (_ ++ _)), (app_assoc (_ ++ _)), <- (app_assoc [_]).
    apply u8_at_mid. rewrite !length_app, length_vec8, length_vec16. lia. }
  cbn [mbind option_bind]. rewrite Nat2Z.id.
  rewrite (proj2 (Nat.eqb_neq _ _)), (proj2 (Nat.ltb_ge _ _)) by lia.
  set (off := (34 + (1 + length (session h)) + (2 + length (ciphers h)) + (1 + length (compression h)))%nat).
  set (pre := version h ++ random h ++ vec8 (session h) ++ vec16 (ciphers h) ++ vec8 (compression h)).
  assert (length pre = off) as Hpre.
  { unfold pre, off. rewrite !length_app, length_vec16, !length_vec8. lia. }
  assert (encode_hello h = pre ++ be_bytes 2 (Z.of_nat (length exts)) ++ exts ++ []) as Eh.
  { unfold encode_hello, pre, vec16, exts. by rewrite <- !app_assoc, app_nil_r. }
  rewrite Eh, u16_at_mid by lia. cbn [mbind option_bind]. rewrite Nat2Z.id, (proj2 (Nat.ltb_ge _ _)) by lia.
  rewrite app_assoc.
  replace (off + 2)%nat with (length (pre ++ be_bytes 2 (Z.of_nat (length exts))))
    by (rewrite length_app, length_be_bytes; lia).
  match goal with |- context [extension_loop ?f (?p ++ _) _ _ _ _] =>
    pose proof (extension_loop_all (extensions h) f p [] "" "" Hok) as Hall end.
  fold exts in Hall. rewrite Hall.
  2: { pose proof (length_extensions_ge (extensions h)) as Hge. fold exts in Hge. lia. }
  cbn [mbind option_bind]. unfold meaning. destruct (fold_left _ _ _) as [nm al]. by case_split.
Qed.

(** *** Records *)

Lemma lor3 a b c : byte_ok b -> byte_ok c ->
  Z.lor (Z.lor (Z.shiftl a 16) (Z.shiftl b 8)) c = a * 65536 + b * 256 + c.
Proof.
  unfold byte_ok. intros Hb Hc.
  assert (Z.shiftl b 8 = b * 256) as -> by (by rewrite Z.shiftl_mul_pow2).
  rewrite (lor_shiftl_add a (b * 256) 16) by (change (2 ^ 16) with 65536; lia).
  change (2 ^ 16) with 65536.
  replace (a * 65536 + b * 256) with (Z.shiftl (a * 256 + b) 8)
    by (rewrite Z.shiftl_mul_pow2 by lia; change (2 ^ 8) with 256; lia).
  rewrite lor_byte by done. by rewrite Z.shiftl_mul_pow2.
Qed.

Lemma handshake_prefix hs rest n body :
  hs ++ rest = [1] ++ be_bytes 3 n ++ body -> 0 <= n < 2 ^ 24 -> (4 <= length hs)%nat ->
  hs !! 0%nat = Some 1 /\ handshake_len hs = Some (Z.to_nat n).
Proof.
  intros E Hn Hl.
  assert (forall i, (i < 4)%nat -> hs !! i = ([1] ++ be_bytes 3 n ++ body) !! i) as Hi.
  { intros i Hlt. rewrite <- E. by rewrite lookup_app_l by lia. }
  unfold handshake_len. rewrite !Hi by lia. split; [done|]. cbn.
  f_equal. f_equal. rewrite lor3 by (apply Z.mod_pos_bound; lia).
  pose proof (be_value_bytes_id 3 n ltac:(simpl; lia)) as H. unfold be_value in H. cbn in H. lia.
Qed.

Lemma parse_record_encoded pre fragment post hs hl :
  Z.of_nat (length fragment) < 65536 ->
  parse_record (mkHelloParser (length pre) hs hl) (pre ++ encode_record fragment ++ post)
  = let h := hs ++ fragment in
    let next := (length pre + length (encode_record fragment))%nat in
    if (4 <=? length h)%nat then
      let* kind := h !! 0%nat in
      if negb (kind =? 1) then Some (inr (mkHelloParser next h hl, Invalid "expected TLS ClientHello"))
      else let* n := handshake_len h in
           Some (inl (mkHelloParser next h (Some (match hl with Some m => m | None => n end))))
    else Some (inl (mkHelloParser next h hl)).
Proof.
  intros Hl. unfold parse_record. cbn [record_offset handshake handshake_length].
  assert (length (encode_record fragment) = 5 + length fragment)%nat as Hlen
    by (unfold encode_record; rewrite length_app, length_vec16; simpl; lia).
  rewrite !length_app, Hlen. rewrite (proj2 (Nat.ltb_ge _ _)) by lia.
  assert (pre ++ encode_record fragment ++ post
          = (pre ++ [22; 3; 1]) ++ be_bytes 2 (Z.of_nat (length fragment)) ++ fragment ++ post) as E.
  { unfold encode_record, vec16. by rewrite <- !app_assoc. }
  assert ((pre ++ encode_record fragment ++ post) !! length pre = Some 22) as ->.
  { unfold encode_record. rewrite <- app_assoc. cbn. by apply list_lookup_middle. }
  cbn [mbind option_bind]. rewrite E.
  rewrite u16_at_mid by (rewrite ?length_app; simpl; lia). cbn [mbind option_bind negb Z.eqb Pos.eqb].
  rewrite Nat2Z.id, (proj2 (Nat.ltb_ge _ _)) by lia.
  rewrite (app_assoc _ (be_bytes _ _)).
  rewrite slice_mid by (rewrite ?length_app, ?length_be_bytes; simpl; lia).
  cbn [mbind option_bind]. replace (length pre + 5 + length fragment)%nat
    with (length pre + (5 + length fragment))%nat by lia. by rewrite length_app.
Qed.

Lemma length_encode_hello h : hello_ok h -> Z.of_nat (length (encode_hello h)) < 2 ^ 24.
Proof.
  intros (Hv & Hr & Hs & Hc & Hm & Hx & Hok). unfold encode_hello.
  rewrite !length_app, !length_vec16, !length_vec8. lia.
Qed.

(** The parser after the bytes [hs] of a handshake of [n] bytes. *)
Definition parser_at (offset : nat) (hs : bytes) (n : nat) : HelloParser :=
  mkHelloParser offset hs (if (4 <=? length hs)%nat then Some n else None).

Lemma parse_record_at pre f post hs rest h :
  hello_ok h -> Z.of_nat (length f) < 65536 -> hs ++ f ++ rest = encode_handshake h ->
  parse_record (parser_at (length pre) hs (length (encode_hello h))) (pre ++ encode_record f ++ post)
  = Some (inl (parser_at (length pre + length (encode_record f)) (hs ++ f) (length (encode_hello h)))).
Proof.
  intros Hok Hf Hcat. unfold parser_at. rewrite parse_record_encoded by done. cbv zeta.
  destruct (4 <=? length (hs ++ f))%nat eqn:E; [|bsimp].
  - bsimp. rewrite app_assoc in Hcat.
    destruct (handshake_prefix _ _ _ _ Hcat) as [-> ->]; [|done|].
    { pose proof (length_encode_hello h Hok). lia. }
    cbn [mbind option_bind negb Z.eqb Pos.eqb]. rewrite Nat2Z.id. by destruct (4 <=? length hs)%nat.
  - rewrite length_app in E. by rewrite (proj2 (Nat.leb_gt 4 (length hs))) by lia.
Qed.

Lemma hello_ready_at offset hs rest h :
  hs ++ rest = encode_handshake h ->
  hello_ready (parser_at offset hs (length (encode_hello h)))
  = if decide (rest = []) then Some (length (encode_hello h)) else None.
Proof.
  intros Hcat. unfold hello_ready, parser_at. cbn [handshake_length handshake].
  assert (length hs + length rest = 4 + length (encode_hello h))%nat as Hlen.
  { rewrite <- length_app, Hcat. unfold encode_handshake. rewrite !length_app, length_be_bytes. done. }
  case_decide as Hr.
  - subst. cbn [length] in Hlen. rewrite (proj2 (Nat.leb_le _ _)) by lia.
    by rewrite (proj2 (Nat.leb_le _ _)) by lia.
  - assert (length rest <> 0)%nat by (by destruct rest).
    case_split; [|done]. by rewrite (proj2 (Nat.leb_gt _ _)) by lia.
Qed.

Lemma slice_handshake h :
  slice (encode_handshake h) 4 (length (encode_hello h) + 4) = Some (encode_hello h).
Proof.
  unfold encode_handshake. rewrite app_assoc.
  rewrite <- (app_nil_r (encode_hello h)) at 2.
  apply slice_mid; rewrite length_app, length_be_bytes; simpl; lia.
Qed.

(** The records of a handshake, from any point of it. *)
Lemma parse_records h frags pre hs rest :
  hello_ok h -> Forall (fun f : bytes => Z.of_nat (length f) < 65536) frags ->
  hs ++ concat frags = encode_handshake h ->
  exists p', parse (parser_at (length pre) hs (length (encode_hello h)))
    (pre ++ concat (map encode_record frags) ++ rest) = Some (p', meaning h).
Proof.
  intros Hok Hf. revert pre hs. induction Hf as [|f frags Hf Hfs IH]; intros pre hs Hcat.
  all: rewrite parse_unfold; erewrite hello_ready_at by done; case_decide as Hr.
  2: done.
  1, 2: rewrite Hr, app_nil_r in Hcat; cbn [parser_at handshake]; rewrite Hcat, slice_handshake;
    cbn [mbind option_bind]; rewrite parse_hello_body_encode by done; by eexists.
  cbn [map concat]. rewrite <- !app_assoc. erewrite parse_record_at by done. cbn [mbind option_bind].
  rewrite (app_assoc pre), <- length_app. apply IH. by rewrite <- app_assoc.
Qed.

(** ** The properties *)

(** the parser neither panics nor runs forever: on any bytes, from any state it may be in, [parse] answers. *)
Theorem parse_total p data : exists p' hello, parse p data = Some (p', hello).
Proof.
  destruct (parse_loop_total (S (length data)) p data) as [[p' hello] H]; [lia|]. eauto.
Qed.

(** C34: however the network cuts a connection's first bytes into reads, the parser the relay feeds with them
    answers what one parse of all the bytes answers. *)
Theorem feed_is_one_shot chunks :
  snd <$> feed default_parser [] chunks = parse_client_hello (concat chunks).
Proof.
  rewrite (feed_resume default_parser) by done. unfold parse_client_hello. simpl.
  by destruct (parse default_parser (concat chunks)) as [[? ?]|].
Qed.

(** every well-formed ClientHello, cut into records of any sizes and followed by anything, is read as what it
    says: the name of its last server_name extension in lower case and the first protocol of its last ALPN
    extension, or an error when it names no server. *)
Theorem parse_client_hello_encoded h frags rest :
  hello_ok h -> Forall (fun f : bytes => Z.of_nat (length f) < 65536) frags ->
  concat frags = encode_handshake h ->
  parse_client_hello (concat (map encode_record frags) ++ rest) = Some (meaning h).
Proof.
  intros Hok Hf Hcat. unfold parse_client_hello.
  destruct (parse_records h frags [] [] rest Hok Hf Hcat) as [p' H].
  change (parser_at (length []) [] (length (encode_hello h))) with default_parser in H.
  change ([] ++ ?x) with x in H. by rewrite H.
Qed.

End sni.

(** A hello for [App.Test] with ALPN, cut in the middle of its header. *)
Definition sample_hello : ClientHello :=
  mkClientHello [3; 3] (repeat 7 32) [1; 2] [19; 1] [0]
    [Other 43 [2; 3; 4]; ServerName (as_bytes "App.Test"); Alpn (as_bytes "h2") [as_bytes "http/1.1"]].

Lemma parse_client_hello_encoded_witness :
  parse_client_hello id
    (concat (map encode_record [take 3 (encode_handshake sample_hello); drop 3 (encode_handshake sample_hello)])
     ++ [23; 3; 3]) = Some (Complete "app.test" "h2").
Proof.
  apply (parse_client_hello_encoded id sample_hello
           [take 3 (encode_handshake sample_hello); drop 3 (encode_handshake sample_hello)] [23; 3; 3]).
  - unfold hello_ok. cbn. repeat split; try lia; repeat constructor; cbn; lia.
  - repeat constructor.
  - vm_compute. reflexivity.
Defined.
