(* ===== verification/WebSocket.v ===== *)
(** * WebSocket: the server side of a bridge's WebSocket, [websocket.rs]

    The reader takes bytes as the network delivers them; the writer hands frames to a socket that may take them in
    parts. *)

From Stdlib Require Import ZArith Lia Ascii String List.
From stdpp Require Import base list strings.
From S2P Require Import Prelude Text.

Definition CONTINUATION : Z := 0.
Definition TEXT : Z := 1.
Definition BINARY : Z := 2.
Definition CLOSE : Z := 8.
Definition PING : Z := 9.
Definition PONG : Z := 10.

Inductive Message :=
| MText (text : string)
| MBinary (data : bytes)
| MPing (data : bytes)
| MPong (data : bytes)
| MClose (code : Z).

Inductive Error :=
| Io
| Protocol (what : string)
| TooLarge (what : string).

Record Frame := mkFrame {
  fin : bool;
  opcode : Z;
  payload : bytes;
}.

Record Reader := mkReader {
  buffer : bytes;
  wanted : nat;
  max_message : Z;
  partial : option (bool * bytes);
}.

Definition new_reader (max_message : Z) : Reader := mkReader [] 0 max_message None.
Definition set_max_message (max_message : Z) (r : Reader) : Reader :=
  mkReader (buffer r) (wanted r) max_message (partial r).
Definition set_wanted (n : nat) (r : Reader) : Reader :=
  mkReader (buffer r) n (max_message r) (partial r).
Definition set_buffer (b : bytes) (r : Reader) : Reader :=
  mkReader b (wanted r) (max_message r) (partial r).
Definition set_partial (p : option (bool * bytes)) (r : Reader) : Reader :=
  mkReader (buffer r) (wanted r) (max_message r) p.

(** ** Unmasking *)

(** [u64::from_ne_bytes] and [to_ne_bytes] on a machine of either endianness. *)
Definition from_ne_bytes (little : bool) (l : bytes) : Z := be_value (if little then rev l else l).
Definition to_ne_bytes (little : bool) (n : Z) : bytes :=
  let l := be_bytes 8 n in if little then rev l else l.

Fixpoint unmask_rest (mask : bytes) (index : nat) (rest : bytes) : bytes :=
  match rest with
  | [] => []
  | byte :: rest' => Z.lxor byte (nth (index mod 4) mask 0) :: unmask_rest mask (S index) rest'
  end.

(** Eight bytes at a time; [as_chunks_mut] leaves fewer than eight as the rest. *)
Fixpoint unmask_wide (little : bool) (wide : Z) (chunks : nat) (data : bytes) (mask : bytes) : bytes :=
  match chunks with
  | O => unmask_rest mask 0 data
  | S chunks' =>
      to_ne_bytes little (Z.lxor (from_ne_bytes little (take 8 data)) wide)
      ++ unmask_wide little wide chunks' (drop 8 data) mask
  end.

Definition unmask (little : bool) (data mask : bytes) : bytes :=
  let wide := from_ne_bytes little (mask ++ mask) in
  unmask_wide little wide (length data / 8) data mask.

Section reader.
Variable little : bool.

(** ** Frames: [Reader::frame] *)

(** The length of the payload and where the mask starts, or how many bytes are needed to know. *)
Definition frame_length (buffer : bytes) : (Z * nat) + nat :=
  match buffer with
  | _ :: b1 :: rest =>
      let short := Z.land b1 127 in
      if short =? 126 then
        match rest with
        | b2 :: b3 :: _ => inl (be_value [b2; b3], 4%nat)
        | _ => inr 4%nat
        end
      else if short =? 127 then
        if (length buffer <? 10)%nat then inr 10%nat else inl (be_value (take 8 rest), 10%nat)
      else inl (short, 2%nat)
  | _ => inr 2%nat
  end.

Definition frame (r : Reader) : Reader * result (option Frame) Error :=
  match buffer r with
  | b0 :: b1 :: _ =>
      if negb (Z.land b0 112 =? 0) then (set_wanted 2 r, Err (Protocol "reserved bits set"))
      else if Z.land b1 128 =? 0 then (set_wanted 2 r, Err (Protocol "unmasked client frame"))
      else
        match frame_length (buffer r) with
        | inr wanted => (set_wanted wanted r, Ok None)
        | inl (length_, offset) =>
            if max_message r <? length_ then (set_wanted 2 r, Err (TooLarge "frame too large"))
            else
              let len := Z.to_nat length_ in
              let wanted := (offset + 4 + len)%nat in
              if (length (buffer r) <? wanted)%nat then (set_wanted wanted r, Ok None)
              else
                let mask := take 4 (drop offset (buffer r)) in
                let fin := negb (Z.land b0 128 =? 0) in
                let opcode := Z.land b0 15 in
                let rest := drop (offset + 4) (buffer r) in
                let payload := unmask little (take len rest) mask in
                (mkReader (drop len rest) 0 (max_message r) (partial r), Ok (Some (mkFrame fin opcode payload)))
        end
  | _ => (set_wanted 2 r, Ok None)
  end.

(** ** Messages: [Reader::parse] *)

(** A control frame. *)
Definition control (f : Frame) : result Message Error :=
  if negb (fin f) || (125 <? length (payload f))%nat then Err (Protocol "invalid control frame")
  else if opcode f =? CLOSE then
    match payload f with
    | [] => Ok (MClose 1005)
    | [_] => Err (Protocol "invalid close frame")
    | b0 :: b1 :: reason =>
        if negb (utf8_valid reason) then Err (Protocol "invalid close reason")
        else Ok (MClose (be_value [b0; b1]))
    end
  else if opcode f =? PING then Ok (MPing (payload f))
  else if opcode f =? PONG then Ok (MPong (payload f))
  else Err (Protocol "unknown opcode").

(** A data frame joined to the message in progress. *)
Definition join (max_message : Z) (f : Frame) (partial : option (bool * bytes)) : result (bool * bytes) Error :=
  if (opcode f =? TEXT) || (opcode f =? BINARY) then
    match partial with
    | None => Ok (opcode f =? TEXT, payload f)
    | Some _ => Err (Protocol "expected a continuation")
    end
  else if opcode f =? CONTINUATION then
    match partial with
    | Some (text, data) =>
        if max_message <? Z.of_nat (length data + length (payload f)) then Err (TooLarge "message too large")
        else Ok (text, data ++ payload f)
    | None => Err (Protocol "unexpected continuation")
    end
  else Err (Protocol "unknown opcode").

Definition finish (text : bool) (data : bytes) : result Message Error :=
  if text then
    match from_utf8 data with
    | Some s => Ok (MText s)
    | None => Err (Protocol "text is not UTF-8")
    end
  else Ok (MBinary data).

(** A frame takes at least two bytes, so the buffer's length is fuel enough. *)
Fixpoint parse_loop (fuel : nat) (r : Reader) : option (Reader * result (option Message) Error) :=
  match fuel with
  | O => None
  | S fuel' =>
      match frame r with
      | (r', Err e) => Some (r', Err e)
      | (r', Ok None) => Some (r', Ok None)
      | (r', Ok (Some f)) =>
          if CLOSE <=? opcode f then
            Some (r', match control f with Ok m => Ok (Some m) | Err e => Err e end)
          else
            let taken := set_partial None r' in
            match join (max_message r') f (partial r') with
            | Err e => Some (taken, Err e)
            | Ok (text, data) =>
                if negb (fin f) then parse_loop fuel' (set_partial (Some (text, data)) r')
                else Some (taken, match finish text data with Ok m => Ok (Some m) | Err e => Err e end)
            end
      end
  end.

Definition parse (r : Reader) : option (Reader * result (option Message) Error) :=
  parse_loop (S (length (buffer r))) r.

(** ** [Reader::next]: a read of the socket is a chunk (empty at the end of the stream) or fails *)

Fixpoint next (r : Reader) (io : list (option bytes))
    : option (Reader * list (option bytes) * result (option Message) Error) :=
  match parse r with
  | None => None
  | Some (r', Err e) => Some (r', io, Err e)
  | Some (r', Ok (Some m)) => Some (r', io, Ok (Some m))
  | Some (r', Ok None) =>
      match io with
      | [] => Some (r', [], Ok None)
      | None :: io' => Some (r', io', Err Io)
      | Some [] :: io' => Some (r', io', Ok None)
      | Some chunk :: io' => next (set_buffer (buffer r' ++ chunk) r') io'
      end
  end.

(** The messages read until the stream ends or fails, at most [fuel] of them. *)
Fixpoint read_messages (fuel : nat) (r : Reader) (io : list (option bytes))
    : option (list Message * option Error) :=
  match fuel with
  | O => None
  | S fuel' =>
      match next r io with
      | None => None
      | Some (_, _, Err e) => Some ([], Some e)
      | Some (_, _, Ok None) => Some ([], None)
      | Some (r', io', Ok (Some m)) =>
          match read_messages fuel' r' io' with
          | Some (ms, e) => Some (m :: ms, e)
          | None => None
          end
      end
  end.

End reader.

(** ** The writer *)

(** What [Writer::frame] hands to the socket: header, prefix and payload. *)
Definition frame_header (opcode : Z) (length_ : Z) : bytes :=
  let first := Z.lor 128 opcode in
  if length_ <? 126 then [first; length_]
  else if length_ <=? U16_MAX then [first; 126] ++ be_bytes 2 length_
  else [first; 127] ++ be_bytes 8 length_.

Definition frame_slices (opcode : Z) (prefix payload : bytes) : list bytes :=
  [frame_header opcode (Z.of_nat (length prefix + length payload)); prefix; payload].

(** [IoSlice::advance_slices]: drops [n] bytes and every slice that is then empty; [None] past the end panics. *)
Fixpoint advance_slices (n : nat) (slices : list bytes) : option (list bytes) :=
  match slices with
  | [] => if (n =? 0)%nat then Some [] else None
  | s :: slices' =>
      if (length s <=? n)%nat then advance_slices (n - length s) slices'
      else Some (drop n s :: slices')
  end.

(** The write loop; [accepts] says how many of the bytes offered each call of [write_vectored] takes (never more
    than offered), [None] that it fails. The result is what the socket took and how the loop ended. *)
Fixpoint write_loop (slices : list bytes) (accepts : list (option nat)) : option (bytes * result unit string) :=
  match slices with
  | [] => Some ([], Ok tt)
  | _ =>
      match accepts with
      | [] => None
      | None :: _ => Some ([], Err "write failed")
      | Some k :: accepts' =>
          let written := Nat.min k (length (concat slices)) in
          if (written =? 0)%nat then Some ([], Err "write zero")
          else
            let sent := take written (concat slices) in
            let* slices' := advance_slices written slices in
            let* (more, outcome) := write_loop slices' accepts' in
            Some (sent ++ more, outcome)
      end
  end.

Definition write_frame (opcode : Z) (prefix payload : bytes) (accepts : list (option nat))
    : option (bytes * result unit string) :=
  let* slices := advance_slices 0 (frame_slices opcode prefix payload) in
  write_loop slices accepts.

(** [str::is_char_boundary] *)
Definition is_char_boundary (l : bytes) (i : nat) : bool :=
  match l !! i with
  | None => (i =? length l)%nat
  | Some b => (b <? 128) || (192 <=? b)
  end.

Fixpoint cut_back (l : bytes) (end_ : nat) : nat :=
  if is_char_boundary l end_ then end_ else match end_ with O => O | S e => cut_back l e end.

(** [Writer::close]: what the frame carries. *)
Definition close_slices (close : option (Z * string)) : list bytes :=
  match close with
  | Some (code, reason) =>
      let end_ := cut_back (as_bytes reason) (Nat.min (str_len reason) 123) in
      frame_slices CLOSE (be_bytes 2 code) (take end_ (as_bytes reason))
  | None => frame_slices CLOSE [] []
  end.

(** ** Unmasking eight bytes at a time is unmasking byte by byte *)

Lemma testbit_split a v s n :
  0 <= s -> 0 <= v < 2 ^ s -> 0 <= n ->
  Z.testbit (a * 2 ^ s + v) n = if n <? s then Z.testbit v n else Z.testbit a (n - s).
Proof.
  intros Hs Hv Hn. rewrite <- lor_shiftl_add, Z.lor_spec by done.
  destruct (n <? s) eqn:E; bsimp.
  - by rewrite Z.shiftl_spec_low.
  - rewrite Z.shiftl_spec by done. rewrite <- (Z.mod_small v (2 ^ s)) by done.
    rewrite Z.mod_pow2_bits_high by lia. apply orb_false_r.
Qed.

Lemma lxor_bound v w s : 0 <= s -> 0 <= v < 2 ^ s -> 0 <= w < 2 ^ s -> 0 <= Z.lxor v w < 2 ^ s.
Proof.
  intros Hs Hv Hw.
  assert (Z.lxor v w = Z.lxor v w mod 2 ^ s) as ->; [|by apply Z.mod_pos_bound; lia].
  apply Z.bits_inj'. intros n Hn. destruct (Z.lt_ge_cases n s).
  - by rewrite Z.mod_pow2_bits_low.
  - rewrite Z.mod_pow2_bits_high by lia. rewrite Z.lxor_spec.
    rewrite <- (Z.mod_small v (2 ^ s)), <- (Z.mod_small w (2 ^ s)) by done.
    by rewrite !Z.mod_pow2_bits_high by lia.
Qed.

Lemma lxor_split a b v w s :
  0 <= s -> 0 <= v < 2 ^ s -> 0 <= w < 2 ^ s ->
  Z.lxor (a * 2 ^ s + v) (b * 2 ^ s + w) = Z.lxor a b * 2 ^ s + Z.lxor v w.
Proof.
  intros Hs Hv Hw. apply Z.bits_inj'. intros n Hn.
  rewrite Z.lxor_spec, !testbit_split by (done || by apply lxor_bound).
  case_split; by rewrite Z.lxor_spec.
Qed.

Lemma lxor_byte_ok a b : byte_ok a -> byte_ok b -> byte_ok (Z.lxor a b).
Proof. unfold byte_ok. change 256 with (2 ^ 8). by apply lxor_bound. Qed.

Lemma zip_lxor_ok l1 l2 : bytes_ok l1 -> bytes_ok l2 -> bytes_ok (zip_with Z.lxor l1 l2).
Proof.
  intros H1. revert l2. induction H1 as [|a l Ha Hl IH]; intros [|b l2] H2; cbn; try constructor.
  - apply Forall_cons in H2 as [? _]. by apply lxor_byte_ok.
  - apply Forall_cons in H2 as [_ ?]. auto.
Qed.

Lemma be_value_lxor l1 l2 :
  length l1 = length l2 -> bytes_ok l1 -> bytes_ok l2 ->
  be_value (zip_with Z.lxor l1 l2) = Z.lxor (be_value l1) (be_value l2).
Proof.
  intros Hlen H1. revert l2 Hlen. induction H1 as [|a l Ha Hl IH]; intros [|b l2] Hlen H2; try done.
  apply Forall_cons in H2 as [Hb H2]. cbn [length] in Hlen. injection Hlen as Hlen.
  cbn [zip_with].
  change (?x :: ?l) with ([x] ++ l). rewrite !be_value_app, length_zip_with, <- Hlen, Nat.min_id.
  change (be_value [?x]) with x. rewrite IH by done.
  pose proof (be_value_bounds l Hl). pose proof (be_value_bounds l2 H2) as Hw. rewrite <- Hlen in Hw.
  change 256 with (2 ^ 8) in *. rewrite <- Z.pow_mul_r in * by lia.
  symmetry. apply lxor_split; [lia|done|done].
Qed.

Lemma lxor_ne_bytes little l1 l2 :
  length l1 = 8%nat -> length l2 = 8%nat -> bytes_ok l1 -> bytes_ok l2 ->
  to_ne_bytes little (Z.lxor (from_ne_bytes little l1) (from_ne_bytes little l2)) = zip_with Z.lxor l1 l2.
Proof.
  intros Hl1 Hl2 H1 H2. unfold to_ne_bytes, from_ne_bytes.
  assert (forall a b, length a = 8%nat -> length b = 8%nat -> bytes_ok a -> bytes_ok b ->
    be_bytes 8 (Z.lxor (be_value a) (be_value b)) = zip_with Z.lxor a b) as Hbe.
  { intros a b Ha Hb Hoa Hob. rewrite <- be_value_lxor by congruence || done.
    replace 8%nat with (length (zip_with Z.lxor a b)) by (rewrite length_zip_with; lia).
    by apply be_bytes_value, zip_lxor_ok. }
  destruct little; [|by apply Hbe].
  rewrite Hbe by first [rewrite ?length_rev; done | by apply Forall_rev].
  destruct l1 as [|? [|? [|? [|? [|? [|? [|? [|? [|? ?]]]]]]]]]; try done.
  destruct l2 as [|? [|? [|? [|? [|? [|? [|? [|? [|? ?]]]]]]]]]; done.
Qed.

Lemma unmask_rest_app mask i a b :
  unmask_rest mask i (a ++ b) = unmask_rest mask i a ++ unmask_rest mask (i + length a) b.
Proof.
  revert i; induction a as [|x a IH]; intros i; cbn [app unmask_rest length].
  - by rewrite Nat.add_0_r.
  - rewrite IH. by replace (S i + length a)%nat with (i + S (length a))%nat by lia.
Qed.

Lemma unmask_rest_mod mask i j l : (i mod 4 = j mod 4)%nat -> unmask_rest mask i l = unmask_rest mask j l.
Proof.
  revert i j; induction l as [|x l IH]; intros i j H; [done|]. cbn [unmask_rest]. rewrite H. f_equal.
  apply IH. rewrite <- (Nat.add_1_l i), <- (Nat.add_1_l j), Nat.Div0.add_mod, H, <- Nat.Div0.add_mod. done.
Qed.

Lemma unmask_chunk mask chunk :
  length mask = 4%nat -> length chunk = 8%nat ->
  unmask_rest mask 0 chunk = zip_with Z.lxor chunk (mask ++ mask).
Proof.
  intros Hm Hc.
  destruct mask as [|? [|? [|? [|? [|? ?]]]]]; try done.
  destruct chunk as [|? [|? [|? [|? [|? [|? [|? [|? [|? ?]]]]]]]]]; done.
Qed.

Lemma unmask_wide_rest little mask n data :
  length mask = 4%nat -> bytes_ok mask -> bytes_ok data -> (8 * n <= length data)%nat ->
  unmask_wide little (from_ne_bytes little (mask ++ mask)) n data mask = unmask_rest mask 0 data.
Proof.
  intros Hm Hmok. revert data. induction n as [|n IH]; intros data Hd Hlen; [done|].
  cbn [unmask_wide]. rewrite IH by first [by apply Forall_drop | rewrite length_drop; lia].
  rewrite lxor_ne_bytes; [|by rewrite length_take; lia|by rewrite length_app; lia|by apply Forall_take|
    by apply Forall_app].
  rewrite <- unmask_chunk by first [done | rewrite length_take; lia].
  rewrite (unmask_rest_mod mask 0 (0 + length (take 8 data)) (drop 8 data))
    by (rewrite length_take; replace (8 `min` length data)%nat with 8%nat by lia; done).
  by rewrite <- unmask_rest_app, take_drop.
Qed.

(** The wide XOR is the byte-by-byte XOR of RFC 6455, on either endianness. *)
Lemma unmask_bytewise little data mask :
  length mask = 4%nat -> bytes_ok mask -> bytes_ok data ->
  unmask little data mask = unmask_rest mask 0 data.
Proof.
  intros. unfold unmask. apply unmask_wide_rest; try done.
  pose proof (Nat.Div0.mul_div_le (length data) 8). lia.
Qed.

Lemma length_unmask_rest mask i l : length (unmask_rest mask i l) = length l.
Proof. revert i; induction l; intros i; cbn; congruence. Qed.

Lemma unmask_rest_ok mask i l : bytes_ok mask -> bytes_ok l -> bytes_ok (unmask_rest mask i l).
Proof.
  intros Hm Hl. revert i. induction Hl as [|x l Hx Hl IH]; intros i; cbn [unmask_rest]; constructor; auto.
  apply lxor_byte_ok; [done|].
  destruct (nth_in_or_default (i mod 4) mask 0) as [Hin| ->]; [|by unfold byte_ok].
  rewrite Forall_forall in Hm. by apply Hm, list_elem_of_In.
Qed.

Lemma unmask_rest_involutive mask i l : unmask_rest mask i (unmask_rest mask i l) = l.
Proof.
  revert i; induction l as [|x l IH]; intros i; [done|]. cbn [unmask_rest]. rewrite IH.
  by rewrite Z.lxor_assoc, Z.lxor_nilpotent, Z.lxor_0_r.
Qed.

(** ** A client's frames (RFC 6455, section 5.2), the reference for the reader *)

Definition short_length (n : Z) : Z := if n <? 126 then n else if n <=? U16_MAX then 126 else 127.
Definition extended_length (n : Z) : bytes :=
  if n <? 126 then [] else if n <=? U16_MAX then be_bytes 2 n else be_bytes 8 n.

Definition encode_frame (fin : bool) (opcode : Z) (mask payload : bytes) : bytes :=
  let n := Z.of_nat (length payload) in
  [(if fin then 128 else 0) + opcode; 128 + short_length n] ++ extended_length n ++ mask
  ++ unmask_rest mask 0 payload.

(** A message as a client may send it: a control frame, or data in one or more fragments, each with its mask. *)
Inductive Sent :=
| SentControl (opcode : Z) (mask payload : bytes)
| SentData (text : bool) (first : bytes * bytes) (others : list (bytes * bytes)).

Fixpoint encode_continuations (others : list (bytes * bytes)) : bytes :=
  match others with
  | [] => []
  | (mask, payload) :: others' =>
      encode_frame (bool_decide (others' = [])) CONTINUATION mask payload ++ encode_continuations others'
  end.

Definition encode_sent (m : Sent) : bytes :=
  match m with
  | SentControl opcode mask payload => encode_frame true opcode mask payload
  | SentData text (mask, payload) others =>
      encode_frame (bool_decide (others = [])) (if text then TEXT else BINARY) mask payload
      ++ encode_continuations others
  end.

Definition sent_data (first : bytes * bytes) (others : list (bytes * bytes)) : bytes :=
  snd first ++ concat (map snd others).

(** What the message says. *)
Definition sent_message (m : Sent) : Message :=
  match m with
  | SentControl opcode _ payload =>
      if opcode =? PING then MPing payload
      else if opcode =? PONG then MPong payload
      else MClose (match payload with b0 :: b1 :: _ => be_value [b0; b1] | _ => 1005 end)
  | SentData text first others =>
      if text then MText (of_bytes (sent_data first others)) else MBinary (sent_data first others)
  end.

Definition fragment_ok (f : bytes * bytes) : Prop :=
  length (fst f) = 4%nat /\ bytes_ok (fst f) /\ bytes_ok (snd f).

(** A message within the protocol and the reader's limit. *)
Definition sent_ok (max_message : Z) (m : Sent) : Prop :=
  match m with
  | SentControl opcode mask payload =>
      fragment_ok (mask, payload) /\ (length payload <= 125)%nat /\ Z.of_nat (length payload) <= max_message /\
      (opcode = PING \/ opcode = PONG \/
       opcode = CLOSE /\ length payload <> 1%nat /\ utf8_valid (drop 2 payload) = true)
  | SentData text first others =>
      fragment_ok first /\ Forall fragment_ok others /\
      Z.of_nat (length (sent_data first others)) <= max_message /\
      (text = true -> utf8_valid (sent_data first others) = true)
  end.

#[export] Instance fragment_ok_dec f : Decision (fragment_ok f).
Proof. unfold fragment_ok. apply _. Defined.
#[export] Instance sent_ok_dec max m : Decision (sent_ok max m).
Proof. destruct m; cbn [sent_ok]; apply _. Defined.

Section reader_proofs.
Variable little : bool.

Lemma frame_shrinks r r' f :
  frame little r = (r', Ok (Some f)) ->
  (length (buffer r') < length (buffer r))%nat /\ max_message r' = max_message r /\ partial r' = partial r.
Proof.
  unfold frame. intros H. destruct (buffer r) as [|b0 [|b1 l]] eqn:E; [done|done|].
  repeat case_split; simplify_eq. cbn [buffer max_message partial]. rewrite !length_drop. bsimp.
  split; [|done]. cbn [length] in *. lia.
Qed.

Lemma frame_none r r' :
  frame little r = (r', Ok None) -> exists w, r' = set_wanted w r.
Proof. unfold frame. intros H. repeat case_split; simplify_eq; eauto. Qed.

Lemma frame_length_more b more :
  match frame_length b with
  | inl x => frame_length (b ++ more) = inl x /\ (2 <= snd x <= length b)%nat
  | inr _ => True
  end.
Proof.
  destruct b as [|b0 [|b1 rest]]; try done. cbn [frame_length app].
  destruct (Z.land b1 127 =? 126).
  { destruct rest as [|b2 [|b3 rest]]; try done. cbn [app length snd]. split; [done|lia]. }
  destruct (Z.land b1 127 =? 127).
  { destruct (length (b0 :: b1 :: rest) <? 10)%nat eqn:E; [done|]. bsimp.
    rewrite (proj2 (Nat.ltb_ge _ 10)) by (cbn [length] in *; rewrite length_app; lia).
    rewrite take_app_le by (cbn [length] in *; lia). split; [done|]. cbn [snd length] in *. lia. }
  cbn [length snd]. split; [done|lia].
Qed.

(** More bytes never change what a frame said. *)
Lemma frame_more r more r' res :
  frame little r = (r', res) -> res <> Ok None ->
  frame little (set_buffer (buffer r ++ more) r) = (set_buffer (buffer r' ++ more) r', res).
Proof.
  unfold frame. intros H Hn. destruct (buffer r) as [|b0 [|b1 l]] eqn:E; [by simplify_eq..|].
  cbn [set_buffer buffer]. cbn [app].
  case_split; [simplify_eq; cbn; by rewrite ?E|]. case_split; [simplify_eq; cbn; by rewrite ?E|].
  pose proof (frame_length_more (b0 :: b1 :: l) more) as Hm. cbn [app] in Hm.
  destruct (frame_length (b0 :: b1 :: l)) as [[n off]|]; [|by simplify_eq].
  destruct Hm as [-> Hoff]. cbn [set_buffer max_message partial snd] in *. case_split; [simplify_eq; cbn; by rewrite ?E|].
  destruct (length (b0 :: b1 :: l) <? off + 4 + Z.to_nat n)%nat eqn:El; [by simplify_eq|]. bsimp.
  change (b0 :: b1 :: l ++ more) with ((b0 :: b1 :: l) ++ more).
  set (b := b0 :: b1 :: l) in *.
  rewrite (proj2 (Nat.ltb_ge _ _)) by (rewrite length_app; lia).
  rewrite (drop_app_le b more off), (take_app_le (drop off b)) by (rewrite ?length_drop; lia).
  rewrite (drop_app_le b more (off + 4)) by lia.
  rewrite (take_app_le (drop (off + 4) b)), (drop_app_le (drop (off + 4) b)) by (rewrite length_drop; lia).
  by injection H as <- <-.
Qed.

Lemma frame_set_wanted w r : frame little (set_wanted w r) = frame little r.
Proof. reflexivity. Qed.

Lemma ws_parse_loop_total fuel r : (length (buffer r) < fuel)%nat -> is_Some (parse_loop little fuel r).
Proof.
  revert r; induction fuel as [|fuel IH]; intros r Hf; [lia|]. cbn [parse_loop].
  destruct (frame little r) as [r' [[f|]|e]] eqn:E; [|eauto..].
  case_split; [eauto|]. destruct (join _ _ _) as [[text data]|]; [|eauto]. case_split; [|eauto].
  apply IH. cbn [set_partial buffer]. apply frame_shrinks in E. lia.
Qed.

Lemma ws_parse_loop_fuel fuel fuel' r x :
  parse_loop little fuel r = Some x -> (fuel <= fuel')%nat -> parse_loop little fuel' r = Some x.
Proof.
  revert fuel' r; induction fuel as [|fuel IH]; intros fuel' r H Hle; [done|].
  destruct fuel' as [|fuel']; [lia|]. cbn [parse_loop] in *.
  destruct (frame little r) as [r' [[f|]|e]]; [|done..].
  case_split; [done|]. destruct (join _ _ _) as [[text data]|]; [|done]. case_split; [|done]. apply IH; [done|lia].
Qed.

(** The loop without its fuel. *)
Lemma ws_parse_unfold r :
  parse little r =
    match frame little r with
    | (r', Err e) => Some (r', Err e)
    | (r', Ok None) => Some (r', Ok None)
    | (r', Ok (Some f)) =>
        if CLOSE <=? opcode f then
          Some (r', match control f with Ok m => Ok (Some m) | Err e => Err e end)
        else
          match join (max_message r') f (partial r') with
          | Err e => Some (set_partial None r', Err e)
          | Ok (text, data) =>
              if negb (fin f) then parse little (set_partial (Some (text, data)) r')
              else Some (set_partial None r', match finish text data with Ok m => Ok (Some m) | Err e => Err e end)
          end
    end.
Proof.
  unfold parse at 1. cbn [parse_loop]. destruct (frame little r) as [r' [[f|]|e]] eqn:E; [|done..].
  case_split; [done|]. destruct (join _ _ _) as [[text data]|]; [|done]. case_split; [|done].
  apply frame_shrinks in E as [E _].
  set (r2 := set_partial _ r').
  destruct (ws_parse_loop_total (length (buffer r)) r2) as [x Hx]; [done|]. rewrite Hx. symmetry.
  destruct (ws_parse_loop_total (S (length (buffer r2))) r2) as [y Hy]; [lia|].
  assert (parse_loop little (length (buffer r)) r2 = Some y) as Hy'.
  { eapply ws_parse_loop_fuel; [done|]. cbn. lia. }
  unfold parse. congruence.
Qed.

Lemma ws_parse_ind (P : Reader -> Prop) :
  (forall r, (forall r' f text data, frame little r = (r', Ok (Some f)) ->
      P (set_partial (Some (text, data)) r')) -> P r) -> forall r, P r.
Proof.
  intros H r. remember (length (buffer r)) as n eqn:En. revert r En.
  induction n as [n IH] using lt_wf_ind. intros r ->. apply H. intros r' f text data E.
  eapply IH; [|done]. apply frame_shrinks in E. cbn. lia.
Qed.

Lemma parse_more r more r' res :
  parse little r = Some (r', res) -> res <> Ok None ->
  parse little (set_buffer (buffer r ++ more) r) = Some (set_buffer (buffer r' ++ more) r', res).
Proof.
  revert r. refine (ws_parse_ind _ _). intros r IH H Hn. rewrite ws_parse_unfold in H |- *.
  destruct (frame little r) as [r1 res1] eqn:E.
  destruct res1 as [[f|]|e]; [|by simplify_eq|].
  - rewrite (frame_more _ more _ _ E) by done. cbn [set_buffer max_message partial].
    case_split; [by simplify_eq|]. destruct (join _ _ _) as [[text data]|]; [|by simplify_eq].
    case_split; [|by simplify_eq]. by apply (IH r1 f text data eq_refl).
  - rewrite (frame_more _ more _ _ E) by done. by simplify_eq.
Qed.

Lemma parse_set_wanted w r : parse little (set_wanted w r) = parse little r.
Proof. reflexivity. Qed.

Lemma ws_parse_resume r more r' :
  parse little r = Some (r', Ok None) ->
  parse little (set_buffer (buffer r ++ more) r) = parse little (set_buffer (buffer r' ++ more) r').
Proof.
  revert r. refine (ws_parse_ind _ _). intros r IH H. rewrite ws_parse_unfold in H.
  destruct (frame little r) as [r1 res1] eqn:E. destruct res1 as [[f|]|e]; [| |done].
  - rewrite (ws_parse_unfold (set_buffer _ r)), (frame_more _ more _ _ E) by done.
    cbn [set_buffer max_message partial].
    destruct (CLOSE <=? opcode f). { by destruct (control f). }
    destruct (join _ _ _) as [[text data]|]; [|done].
    destruct (negb (fin f)); [by apply (IH r1 f text data eq_refl)|by destruct (finish text data)].
  - simplify_eq. apply frame_none in E as [w ->]. reflexivity.
Qed.

(** [next] on any chunks is [parse] on all their bytes at once. *)
Lemma next_chunks chunks : forall r,
  Forall (fun c : bytes => c <> []) chunks ->
  exists r1 res, parse little (set_buffer (buffer r ++ concat chunks) r) = Some (r1, res) /\
    match res with
    | Ok None => exists r', next little r (map Some chunks) = Some (r', [], Ok None)
    | Err e => exists r' io', next little r (map Some chunks) = Some (r', io', Err e)
    | Ok (Some m) =>
        exists r' chunks', next little r (map Some chunks) = Some (r', map Some chunks', Ok (Some m)) /\
          Forall (fun c : bytes => c <> []) chunks' /\ r1 = set_buffer (buffer r' ++ concat chunks') r'
    end.
Proof.
  induction chunks as [|c chunks IH]; intros r Hc.
  - cbn [concat map next]. rewrite app_nil_r.
    assert (set_buffer (buffer r) r = r) as -> by (by destruct r).
    destruct (ws_parse_loop_total (S (length (buffer r))) r) as [[r1 res] Hp]; [lia|].
    change (parse little r = Some (r1, res)) in Hp. exists r1, res. split; [done|]. rewrite Hp.
    destruct res as [[m|]|e]; [|by eexists|by eexists _, _]. exists r1, []. split_and!; [done|done|].
    cbn [concat]. rewrite app_nil_r. by destruct r1.
  - apply Forall_cons in Hc as [Hc Hcs]. cbn [concat map next].
    destruct (ws_parse_loop_total (S (length (buffer r))) r) as [[r1 res] Hp]; [lia|].
    change (parse little r = Some (r1, res)) in Hp. rewrite Hp.
    destruct res as [[m|]|e].
    + rewrite (parse_more _ (c ++ concat chunks) _ _ Hp) by done.
      eexists _, _. split; [done|]. cbn. exists r1, (c :: chunks). split_and!; [done|by constructor|done].
    + destruct c as [|b c]; [done|].
      rewrite (ws_parse_resume _ ((b :: c) ++ concat chunks) _ Hp), app_assoc.
      apply (IH (set_buffer (buffer r1 ++ b :: c) r1) Hcs).
    + rewrite (parse_more _ (c ++ concat chunks) _ _ Hp) by done. eexists _, _. split; [done|]. by eexists _, _.
Qed.

(** *** A frame is read back *)

Definition opcode_ok (op : Z) : Prop := op ∈ [CONTINUATION; TEXT; BINARY; CLOSE; PING; PONG].

Lemma first_byte (fin : bool) op :
  opcode_ok op ->
  let b0 := (if fin then 128 else 0) + op in
  Z.land b0 112 = 0 /\ negb (Z.land b0 128 =? 0) = fin /\ Z.land b0 15 = op.
Proof.
  unfold opcode_ok. rewrite !elem_of_cons, elem_of_nil. intros Hop.
  destruct_or! Hop; try done; subst; by destruct fin.
Qed.

Lemma second_byte n :
  0 <= n <= 127 -> (Z.land (128 + n) 128 =? 0) = false /\ Z.land (128 + n) 127 = n.
Proof.
  intros H.
  assert (forallb (fun n => negb (Z.land (128 + n) 128 =? 0) && (Z.land (128 + n) 127 =? n))
            (map Z.of_nat (seq 0 128)) = true) as Hall by (by vm_compute).
  rewrite forallb_forall in Hall.
  destruct (andb_prop _ _ (Hall n ltac:(apply in_map_iff; exists (Z.to_nat n); split; [lia|apply in_seq; lia])))
    as [H1 H2].
  bsimp. split; [by apply Z.eqb_neq|done].
Qed.

Lemma frame_length_encoded b0 n rest :
  0 <= n < 2 ^ 64 ->
  frame_length ([b0; 128 + short_length n] ++ extended_length n ++ rest)
  = inl (n, (2 + length (extended_length n))%nat).
Proof.
  intros Hn. unfold short_length, extended_length, U16_MAX.
  destruct (n <? 126) eqn:E1; bsimp.
  - cbn [app frame_length length]. destruct (second_byte n) as [_ ->]; [lia|].
    rewrite (proj2 (Z.eqb_neq n 126)), (proj2 (Z.eqb_neq n 127)) by lia. done.
  - destruct (n <=? 65535) eqn:E2; bsimp.
    + cbn [be_bytes app frame_length]. change (Z.land (128 + 126) 127 =? 126) with true. cbn match.
      pose proof (be_value_bytes_id 2 n ltac:(cbn; lia)) as H. cbn [be_bytes] in H. by rewrite H.
    + cbn [app frame_length]. change (Z.land (128 + 127) 127 =? 126) with false.
      change (Z.land (128 + 127) 127 =? 127) with true. cbn match. cbn [length].
      rewrite (proj2 (Nat.ltb_ge _ _)) by (rewrite length_app, length_be_bytes; lia).
      rewrite (take_app_length' (be_bytes 8 n)) by (by rewrite length_be_bytes).
      rewrite be_value_bytes_id by (cbn; lia). by rewrite length_be_bytes.
Qed.

Lemma short_length_range n : 0 <= n -> 0 <= short_length n <= 127.
Proof. unfold short_length, U16_MAX. intros. repeat case_split; bsimp; lia. Qed.

Lemma frame_encoded r (fin : bool) op mask payload rest :
  opcode_ok op -> fragment_ok (mask, payload) -> Z.of_nat (length payload) <= max_message r ->
  max_message r < 2 ^ 64 ->
  buffer r = encode_frame fin op mask payload ++ rest ->
  frame little r = (mkReader rest 0 (max_message r) (partial r), Ok (Some (mkFrame fin op payload))).
Proof.
  intros Hop (Hm & Hmok & Hpok) Hmax Hmax2 Hb. cbn [fst snd] in *.
  unfold frame. rewrite Hb. unfold encode_frame. set (n := Z.of_nat (length payload)) in *.
  destruct (first_byte fin op Hop) as (H1 & H2 & H3).
  destruct (second_byte (short_length n)) as [H4 _]; [apply short_length_range; lia|].
  rewrite <- !app_assoc. cbn [app]. rewrite H1, H4. cbn [Z.eqb negb].
  pose proof (frame_length_encoded ((if fin then 128 else 0) + op) n
    (mask ++ unmask_rest mask 0 payload ++ rest) ltac:(lia)) as Hl. cbn [app] in Hl. rewrite Hl.
  rewrite (proj2 (Z.ltb_ge _ _)) by lia.
  set (pre := [(if fin then 128 else 0) + op; 128 + short_length n] ++ extended_length n).
  assert (length pre = 2 + length (extended_length n))%nat as Hpre by done.
  change (_ :: _ :: extended_length n ++ ?x) with (pre ++ x).
  rewrite <- Hpre. assert (Z.to_nat n = length payload) as -> by lia.
  rewrite !length_app, length_unmask_rest, Hm.
  rewrite (proj2 (Nat.ltb_ge _ _)) by lia.
  rewrite drop_app_length. rewrite (take_app_length' mask) by done.
  rewrite (app_assoc pre), (drop_app_length' (pre ++ mask)) by (rewrite length_app; lia).
  rewrite (take_app_length' (unmask_rest _ _ _)), (drop_app_length' (unmask_rest _ _ _))
    by (by rewrite length_unmask_rest).
  rewrite unmask_bytewise by (done || by apply unmask_rest_ok).
  by rewrite unmask_rest_involutive, H2, H3.
Qed.

(** *** A message is read back *)

Lemma parse_continuations others : forall r text data rest,
  Forall fragment_ok others -> others <> [] ->
  Z.of_nat (length (data ++ concat (map snd others))) <= max_message r -> max_message r < 2 ^ 64 ->
  partial r = Some (text, data) -> buffer r = encode_continuations others ++ rest ->
  (text = true -> utf8_valid (data ++ concat (map snd others)) = true) ->
  parse little r = Some (mkReader rest 0 (max_message r) None,
    Ok (Some (if text then MText (of_bytes (data ++ concat (map snd others)))
              else MBinary (data ++ concat (map snd others))))).
Proof.
  induction others as [|[mask pl] others IH]; intros r text data rest Hok Hne Hlen Hmax Hp Hb Hu; [done|].
  apply Forall_cons in Hok as [Hf Hok]. cbn [encode_continuations map concat snd] in *.
  rewrite !length_app in Hlen. rewrite <- app_assoc in Hb.
  rewrite ws_parse_unfold.
  rewrite (frame_encoded r (bool_decide (others = [])) CONTINUATION mask pl (encode_continuations others ++ rest));
    [|left|done|lia|done|done].
  cbn [opcode fin partial max_message]. change (CLOSE <=? CONTINUATION) with false. cbn match.
  rewrite Hp. unfold join. cbn [opcode payload]. change (CONTINUATION =? TEXT) with false.
  change (CONTINUATION =? BINARY) with false. change (CONTINUATION =? CONTINUATION) with true. cbn [orb].
  rewrite (proj2 (Z.ltb_ge _ _)) by lia.
  destruct others as [|o others].
  - cbn [negb]. change (bool_decide (_ = _)) with true. cbn [negb map concat] in *. rewrite app_nil_r in *.
    unfold finish, from_utf8, set_partial. cbn [buffer wanted max_message].
    destruct text; [by rewrite Hu|done].
  - rewrite bool_decide_eq_false_2 by done. cbn [negb].
    rewrite (IH _ text (data ++ pl) rest); try done.
    + cbn [max_message set_partial]. by rewrite <- app_assoc.
    + cbn [max_message set_partial]. rewrite !length_app. lia.
    + intros Ht. rewrite <- app_assoc. by apply Hu.
Qed.

Lemma parse_sent r m rest :
  sent_ok (max_message r) m -> max_message r < 2 ^ 64 -> partial r = None ->
  buffer r = encode_sent m ++ rest ->
  parse little r = Some (mkReader rest 0 (max_message r) None, Ok (Some (sent_message m))).
Proof.
  intros Hok Hmax Hp Hb. destruct m as [op mask pl|text [mask pl] others]; cbn [sent_ok encode_sent] in *.
  - destruct Hok as (Hf & Hl & Hlm & Hop). rewrite ws_parse_unfold.
    assert (opcode_ok op) as Hopk.
    { unfold opcode_ok. rewrite !elem_of_cons. destruct Hop as [->|[->|[-> _]]]; tauto. }
    erewrite frame_encoded by done. cbn [opcode].
    assert (CLOSE <=? op = true) as -> by (by destruct Hop as [->|[->|[-> _]]]).
    unfold control. cbn [fin payload opcode negb orb]. rewrite Hp, (proj2 (Nat.ltb_ge _ _)) by lia.
    destruct Hop as [->|[->|(-> & H1 & Hu)]]; [done|done|].
    change (CLOSE =? CLOSE) with true. cbn [sent_message]. change (CLOSE =? PING) with false.
    change (CLOSE =? PONG) with false. cbn match.
    destruct pl as [|b0 [|b1 reason]]; [done|done|]. 
    change (drop 2 (b0 :: b1 :: reason)) with reason in Hu. by rewrite Hu.
  - destruct Hok as (Hf & Hfs & Hl & Hu). unfold sent_data in *. cbn [snd] in *. rewrite length_app in Hl.
    rewrite <- app_assoc in Hb. rewrite ws_parse_unfold.
    assert (opcode_ok (if text then TEXT else BINARY)) as Hopk.
    { unfold opcode_ok. rewrite !elem_of_cons. destruct text; tauto. }
    erewrite frame_encoded; [|done|done|lia|done|done]. cbn [opcode fin partial max_message].
    assert (CLOSE <=? (if text then TEXT else BINARY) = false) as -> by (by destruct text).
    rewrite Hp. unfold join. cbn [opcode payload].
    assert (((if text then TEXT else BINARY) =? TEXT) || ((if text then TEXT else BINARY) =? BINARY) = true)
      as -> by (by destruct text).
    assert (((if text then TEXT else BINARY) =? TEXT) = text) as -> by (by destruct text).
    destruct others as [|o others].
    + change (bool_decide (_ = _)) with true. cbn [negb encode_continuations app map concat sent_message] in *.
      unfold sent_data. cbn [snd map concat]. rewrite app_nil_r in *.
      unfold finish, from_utf8, set_partial. cbn [buffer wanted max_message].
      destruct text; [by rewrite Hu|done].
    + rewrite bool_decide_eq_false_2 by done. cbn [negb].
      rewrite (parse_continuations (o :: others) _ text pl rest); try done.
      cbn [max_message set_partial]. rewrite length_app. lia.
Qed.

End reader_proofs.

(** ** What the reader holds *)

Lemma frame_none_wanted little r r' :
  frame little r = (r', Ok None) -> bytes_ok (buffer r) -> 0 <= max_message r ->
  (length (buffer r') < wanted r')%nat /\ Z.of_nat (wanted r') <= 14 + max_message r.
Proof.
  unfold frame. intros H Hb Hmax. destruct (buffer r) as [|b0 [|b1 l]] eqn:E;
    [injection H as <-; cbn; rewrite E; cbn; lia..|].
  case_split; [done|]. case_split; [done|].
  destruct (frame_length (b0 :: b1 :: l)) as [[n off]|w] eqn:El.
  - case_split; [done|]. case_split; [|done]. injection H as <-. bsimp. cbn [set_wanted buffer wanted].
    rewrite E. split; [done|].
    assert (off <= 10)%nat by (unfold frame_length in El; repeat case_split; simplify_eq; lia). lia.
  - injection H as <-. cbn [set_wanted buffer wanted]. rewrite E.
    unfold frame_length in El. repeat case_split; simplify_eq; bsimp; cbn [length] in *; lia.
Qed.

(** ** The writer *)

Lemma advance_slices_concat n slices :
  (n <= length (concat slices))%nat ->
  exists slices', advance_slices n slices = Some slices' /\ concat slices' = drop n (concat slices) /\
    Forall (fun s : bytes => slices' = [] \/ concat slices' <> []) slices'.
Proof.
  revert n; induction slices as [|s slices IH]; intros n Hn; cbn [concat advance_slices] in *.
  - cbn in Hn. replace n with 0%nat by lia. exists []. by cbn.
  - rewrite length_app in Hn. destruct (length s <=? n)%nat eqn:E; bsimp.
    + destruct (IH (n - length s)%nat) as (sl & -> & Hc & Hf); [lia|]. exists sl. split_and!; [done| |done].
      rewrite Hc. by rewrite drop_app_ge.
    + exists (drop n s :: slices). split_and!; [done|cbn; by rewrite drop_app_le by lia|].
      assert (concat (drop n s :: slices) <> []) as Hne.
      { cbn. intros H. apply app_eq_nil in H as [H _]. apply (f_equal length) in H. rewrite length_drop in H. cbn in H. lia. }
      apply Forall_forall. auto.
Qed.

Lemma write_loop_prefix accepts : forall slices sent outcome,
  write_loop slices accepts = Some (sent, outcome) ->
  exists rest, concat slices = sent ++ rest /\ (outcome = Ok tt -> rest = []).
Proof.
  induction accepts as [|k accepts IH]; intros slices sent outcome H.
  - destruct slices; [|done]. injection H as <- <-. by exists [].
  - destruct slices as [|s slices]; [injection H as <- <-; by exists []|].
    cbn [write_loop] in H. destruct k as [k|]; [|injection H as <- <-; by eexists].
    set (w := Nat.min k (length (concat (s :: slices)))) in *.
    destruct (w =? 0)%nat; [injection H as <- <-; by eexists|].
    destruct (advance_slices_concat w (s :: slices)) as (sl & Ha & Hc & _); [lia|].
    rewrite Ha in H. cbn [mbind option_bind] in H.
    destruct (write_loop sl accepts) as [[more out]|] eqn:Ew; [|done]. cbn in H. injection H as <- <-.
    destruct (IH sl more out Ew) as (rest & Hr & Hok). exists rest. split; [|done].
    rewrite <- (take_drop w (concat (s :: slices))), <- app_assoc. f_equal. by rewrite <- Hc.
Qed.

(** Every call that takes at least a byte makes progress, so the loop ends. *)
Lemma write_loop_done accepts : forall slices,
  Forall (fun a => exists k, a = Some (S k)) accepts -> (length (concat slices) < length accepts)%nat ->
  (slices <> [] -> concat slices <> []) -> exists sent, write_loop slices accepts = Some (sent, Ok tt).
Proof.
  induction accepts as [|k accepts IH]; intros slices Ha Hl Hne; [cbn in Hl; lia|].
  destruct slices as [|s slices]; [by exists []|]. apply Forall_cons in Ha as [[k' ->] Ha].
  cbn [write_loop]. specialize (Hne ltac:(done)).
  assert (length (concat (s :: slices)) <> 0)%nat as Hn0 by (by destruct (concat (s :: slices))).
  set (w := Nat.min (S k') (length (concat (s :: slices)))).
  rewrite (proj2 (Nat.eqb_neq w 0)) by lia.
  destruct (advance_slices_concat w (s :: slices)) as (sl & -> & Hc & Hf); [lia|]. cbn [mbind option_bind].
  destruct (IH sl Ha) as [more ->].
  - rewrite Hc, length_drop. cbn [length] in Hl. lia.
  - intros Hsl. destruct sl as [|s' sl]; [done|]. apply Forall_cons in Hf as [[?|?] _]; done.
  - cbn. eauto.
Qed.

(** The messages of a stream, from any point between two of them. *)
Lemma read_messages_sent little ms : forall r chunks,
  max_message r < 2 ^ 64 -> Forall (sent_ok (max_message r)) ms -> Forall (fun c : bytes => c <> []) chunks ->
  partial r = None -> buffer r ++ concat chunks = concat (map encode_sent ms) ->
  read_messages little (S (length ms)) r (map Some chunks) = Some (map sent_message ms, None).
Proof.
  induction ms as [|m ms IH]; intros r chunks Hmax Hms Hch Hp Hcat.
  - destruct (next_chunks little chunks r Hch) as (r1 & res & Hparse & Hres).
    rewrite Hcat in Hparse. vm_compute in Hparse. injection Hparse as <- <-.
    destruct Hres as [r' Hn]. cbn [read_messages length]. by rewrite Hn.
  - apply Forall_cons in Hms as [Hm Hms]. cbn [map concat] in Hcat.
    destruct (next_chunks little chunks r Hch) as (r1 & res & Hparse & Hres).
    rewrite (parse_sent little _ m (concat (map encode_sent ms))) in Hparse by done.
    injection Hparse as <- <-. destruct Hres as (r' & chunks' & Hn & Hch' & Hr').
    destruct r' as [b w mx pt]. cbn [set_buffer buffer wanted max_message partial] in Hr'.
    injection Hr' as Hb <- <- <-.
    change (length (m :: ms)) with (S (length ms)).
    change (read_messages little (S (S (length ms))) r (map Some chunks)) with
      (match next little r (map Some chunks) with
       | None => None
       | Some (_, _, Err e) => Some ([], Some e)
       | Some (_, _, Ok None) => Some ([], None)
       | Some (r', io', Ok (Some m)) =>
           match read_messages little (S (length ms)) r' io' with
           | Some (ms, e) => Some (m :: ms, e)
           | None => None
           end
       end).
    rewrite Hn, IH; [done|done|done|done|done|by cbn].
Qed.

(** A data message never exceeds the limit in force when it completes. *)
Definition message_size (m : Message) : Z :=
  match m with
  | MText s => Z.of_nat (str_len s)
  | MBinary d | MPing d | MPong d => Z.of_nat (length d)
  | MClose _ => 0
  end.

Lemma frame_size little r r' f :
  frame little r = (r', Ok (Some f)) -> bytes_ok (buffer r) -> 0 <= max_message r ->
  Z.of_nat (length (payload f)) <= max_message r /\ bytes_ok (payload f) /\ bytes_ok (buffer r').
Proof.
  unfold frame. intros H Hb Hmax. destruct (buffer r) as [|b0 [|b1 l]] eqn:E; [done|done|].
  case_split; [done|]. case_split; [done|].
  pose proof (frame_length_more (b0 :: b1 :: l) []) as Hm.
  destruct (frame_length (b0 :: b1 :: l)) as [[n off]|w] eqn:El; [|done]. destruct Hm as [_ Hoff]. cbn [snd] in Hoff.
  case_split; [done|]. case_split; [done|]. injection H as <- <-. cbn [payload buffer]. bsimp.
  set (b := b0 :: b1 :: l) in *.
  rewrite unmask_bytewise.
  - rewrite length_unmask_rest, length_take, length_drop.
    split; [lia|]. split; [|by do 2 apply Forall_drop].
    apply unmask_rest_ok; [by apply Forall_take, Forall_drop|by apply Forall_take, Forall_drop].
  - rewrite length_take, length_drop. lia.
  - by apply Forall_take, Forall_drop.
  - by apply Forall_take, Forall_drop.
Qed.

Lemma control_size f m : control f = Ok m -> message_size m <= Z.of_nat (length (payload f)).
Proof.
  unfold control. intros H. case_split; [done|]. destruct (opcode f =? CLOSE).
  - destruct (payload f) as [|b0 [|b1 reason]]; simplify_eq; [cbn; lia|]. case_split; simplify_eq. cbn. lia.
  - repeat case_split; simplify_eq; cbn [message_size]; lia.
Qed.

Lemma join_size max f p text data :
  join max f p = Ok (text, data) -> Z.of_nat (length (payload f)) <= max -> Z.of_nat (length data) <= max.
Proof.
  unfold join. intros H Hp. destruct p as [[t d]|]; repeat case_split; simplify_eq; bsimp; [rewrite length_app|]; lia.
Qed.

(** ** The properties *)

(** C35: whatever sizes the network delivers a client's bytes in, the reader returns exactly the messages the
    client sent, in order: control frames and data in any number of masked fragments, up to the size limit. *)
Theorem messages_read_back little max ms chunks :
  max < 2 ^ 64 -> Forall (sent_ok max) ms -> Forall (fun c : bytes => c <> []) chunks ->
  concat chunks = concat (map encode_sent ms) ->
  read_messages little (S (length ms)) (new_reader max) (map Some chunks) = Some (map sent_message ms, None).
Proof. intros Hmax Hms Hch Hcat. by apply read_messages_sent. Qed.

Definition sample_messages : list Sent :=
  [SentControl PING [1; 2; 3; 4] [9; 9];
   SentData true ([7; 0; 255; 3], as_bytes "hel") [([0; 0; 0; 0], []); ([8; 9; 10; 11], as_bytes "lo")];
   SentData false ([5; 5; 5; 5], repeat 1 200) []].

Lemma messages_read_back_witness :
  read_messages true 4 (new_reader 1000)
    (map Some (map (fun b => [b]) (concat (map encode_sent sample_messages))))
  = Some ([MPing [9; 9]; MText "hello"; MBinary (repeat 1 200)], None).
Proof.
  apply (messages_read_back true 1000 sample_messages
           (map (fun b => [b]) (concat (map encode_sent sample_messages)))).
  - lia.
  - by apply (bool_decide_unpack _).
  - by apply (bool_decide_unpack _).
  - vm_compute. reflexivity.
Defined.

(** the XOR of eight bytes at a time, on a machine of either endianness, is the byte-by-byte masking of
    RFC 6455, and masking twice gives the data back. *)
Theorem unmask_is_rfc_mask little data mask :
  length mask = 4%nat -> bytes_ok mask -> bytes_ok data ->
  unmask little data mask = unmask_rest mask 0 data /\ unmask little (unmask little data mask) mask = data.
Proof.
  intros Hm Hmok Hd. rewrite (unmask_bytewise little data) by done.
  split; [done|]. rewrite unmask_bytewise by (done || by apply unmask_rest_ok).
  apply unmask_rest_involutive.
Qed.

Lemma unmask_is_rfc_mask_witness :
  unmask true (repeat 65 11) [1; 2; 3; 4] = unmask_rest [1; 2; 3; 4] 0 (repeat 65 11) /\
  unmask true (unmask true (repeat 65 11) [1; 2; 3; 4]) [1; 2; 3; 4] = repeat 65 11.
Proof.
  apply (unmask_is_rfc_mask true (repeat 65 11) [1; 2; 3; 4]);
    [reflexivity|by apply (bool_decide_unpack _)|by apply (bool_decide_unpack _)].
Defined.

(** no message larger than the limit gets through, and while a frame is incomplete the reader never wants
    more than the limit and a frame's header in all, so that is the most it buffers before it reads again. *)
Theorem reader_bounded little r r' res :
  bytes_ok (buffer r) -> 0 <= max_message r -> parse little r = Some (r', res) ->
  match res with
  | Ok (Some m) => message_size m <= max_message r
  | Ok None => (length (buffer r') < wanted r')%nat /\ Z.of_nat (wanted r') <= 14 + max_message r
  | Err _ => True
  end.
Proof.
  revert r. refine (ws_parse_ind little _ _). intros r IH Hb Hmax H. rewrite ws_parse_unfold in H.
  destruct (frame little r) as [r1 [[f|]|e]] eqn:E; [| |by simplify_eq].
  2: { simplify_eq. by apply (frame_none_wanted little r). }
  destruct (frame_size _ _ _ _ E Hb Hmax) as (Hs & Hpok & Hb1).
  destruct (frame_shrinks _ _ _ _ E) as (_ & Hm1 & _).
  destruct (CLOSE <=? opcode f).
  { destruct (control f) as [m|e] eqn:Ec; simplify_eq; [|done]. apply control_size in Ec. lia. }
  destruct (join (max_message r1) f (partial r1)) as [[text data]|e] eqn:Ej; [|by simplify_eq].
  assert (Z.of_nat (length data) <= max_message r) as Hd.
  { rewrite <- Hm1 in *. by eapply join_size. }
  destruct (negb (fin f)).
  - rewrite <- Hm1. by apply (IH r1 f text data eq_refl); cbn [set_partial buffer max_message]; rewrite ?Hm1.
  - simplify_eq. unfold finish, from_utf8. destruct text; [destruct (utf8_valid data)|]; cbn [message_size]; try done.
    by rewrite str_len_of_bytes.
Qed.

Lemma reader_bounded_witness :
  exists r', parse true (mkReader (encode_frame true BINARY [1; 2; 3; 4] [7; 8]) 0 2 None)
    = Some (r', Ok (Some (MBinary [7; 8]))) /\ message_size (MBinary [7; 8]) <= 2.
Proof.
  eexists. split; [vm_compute; reflexivity|].
  apply (reader_bounded true (mkReader (encode_frame true BINARY [1; 2; 3; 4] [7; 8]) 0 2 None)
           (mkReader [] 0 2 None) (Ok (Some (MBinary [7; 8]))));
    [by apply (bool_decide_unpack _)|cbn; lia|vm_compute; reflexivity].
Defined.

(** What a frame on the wire says: FIN, opcode, the payload's length and where the payload starts. *)
Definition decode_header (data : bytes) : option (bool * Z * Z * nat) :=
  match data, frame_length data with
  | b0 :: _, inl (n, offset) => Some (negb (Z.land b0 128 =? 0), Z.land b0 15, n, offset)
  | _, _ => None
  end.

(** however the socket cuts the writes, what it has taken is a prefix of one frame, and all of it when the
    writer returns; a socket that takes at least a byte per call makes the writer return. The frame is final, and
    its header states the opcode and the exact length of the payload that follows. *)
Theorem write_frame_correct opcode prefix payload accepts :
  opcode_ok opcode -> Z.of_nat (length prefix + length payload) < 2 ^ 64 ->
  let whole := frame_header opcode (Z.of_nat (length prefix + length payload)) ++ prefix ++ payload in
  (forall sent outcome, write_frame opcode prefix payload accepts = Some (sent, outcome) ->
     exists rest, whole = sent ++ rest /\ (outcome = Ok tt -> rest = [])) /\
  (Forall (fun a => exists k, a = Some (S k)) accepts -> (length whole < length accepts)%nat ->
     exists sent, write_frame opcode prefix payload accepts = Some (sent, Ok tt)) /\
  decode_header whole = Some (true, opcode, Z.of_nat (length prefix + length payload),
                              (length whole - length prefix - length payload)%nat).
Proof.
  intros Hop Hlen whole. set (n := Z.of_nat (length prefix + length payload)) in *.
  assert (concat (frame_slices opcode prefix payload) = whole) as Hc.
  { cbn [frame_slices concat]. by rewrite app_nil_r. }
  destruct (advance_slices_concat 0 (frame_slices opcode prefix payload)) as (sl & Hsl & Hcs & Hf); [lia|].
  unfold write_frame. rewrite Hsl. cbn [mbind option_bind]. rewrite Hc in Hcs. change (drop 0 whole) with whole in Hcs.
  split_and!.
  - intros sent outcome H. apply write_loop_prefix in H. by rewrite Hcs in H.
  - intros Ha Hl. apply write_loop_done; [done|by rewrite Hcs|].
    intros Hne. destruct sl as [|s sl]; [done|]. apply Forall_cons in Hf as [[?|?] _]; done.
  - destruct (first_byte true opcode Hop) as (_ & H2 & H3).
    assert (Z.lor 128 opcode = 128 + opcode) as Hlor.
    { unfold opcode_ok in Hop. rewrite !elem_of_cons, elem_of_nil in Hop. by destruct_or! Hop; subst. }
    assert (frame_header opcode n = [128 + opcode; short_length n] ++ extended_length n) as Hh.
    { unfold frame_header, short_length, extended_length. rewrite Hlor. by repeat case_split. }
    assert (length whole - length prefix - length payload = 2 + length (extended_length n))%nat as ->.
    { unfold whole. rewrite Hh, !length_app. cbn [length]. lia. }
    unfold decode_header. unfold whole. rewrite Hh, <- !app_assoc.
    pose proof (frame_length_encoded (128 + opcode) n (prefix ++ payload) ltac:(lia)) as Hl.
    assert (forall m rest, 0 <= m <= 127 ->
      frame_length ([128 + opcode; 128 + m] ++ rest) = frame_length ([128 + opcode; m] ++ rest)) as Hmask.
    { intros m rest Hm. cbn [app frame_length]. destruct (second_byte m Hm) as [_ ->].
      assert (Z.land m 127 = m) as ->; [|done].
      change 127 with (Z.ones 7). rewrite Z.land_ones by lia. apply Z.mod_small. lia. }
    rewrite Hmask in Hl by (apply short_length_range; lia). cbn [app] in *. rewrite Hl. by rewrite H2, H3.
Qed.

Lemma write_frame_correct_witness :
  write_frame TEXT [] (as_bytes "hi") (repeat (Some 1%nat) 5) = Some ([129; 2; 104; 105], Ok tt) /\
  exists rest, frame_header TEXT 2 ++ [] ++ as_bytes "hi" = [129; 2; 104; 105] ++ rest /\ (@Ok unit string tt = Ok tt -> rest = []).
Proof.
  split; [vm_compute; reflexivity|].
  apply (proj1 (write_frame_correct TEXT [] (as_bytes "hi") (repeat (Some 1%nat) 5)
    ltac:(right; left) ltac:(vm_compute; reflexivity))). vm_compute. reflexivity.
Defined.

(** A close frame fits in a control frame, whatever the reason. *)
Lemma cut_back_le l n : (cut_back l n <= n)%nat.
Proof. induction n as [|n IH]; cbn [cut_back]; case_split; lia. Qed.

Lemma close_frame_fits close :
  (length (concat (tail (close_slices close))) <= 125)%nat.
Proof.
  destruct close as [[code reason]|]; cbn [close_slices frame_slices tail concat]; [|cbn; lia].
  rewrite !length_app, length_be_bytes, length_take. cbn [length].
  pose proof (cut_back_le (as_bytes reason) (Nat.min (str_len reason) 123)). lia.
Qed.
