(* ===== verification/Frames.v ===== *)
(** * Frames: the wire protocol of a bridge and the route values of a profile

    [crates/opentunnel/src/protocol/bridge.rs] and [routes.rs]. The text of a control message is parsed and printed
    by serde_json, a parameter; what the derived (de)serializers do with its values is written out here. *)

From Stdlib Require Import ZArith Lia Ascii String List.
From stdpp Require Import base list strings.
From S2P Require Import Prelude Text Names ProxyHeader.

(** ** JSON values *)

Inductive Json :=
| JNull
| JBool (b : bool)
| JInt (n : Z)
| JFloat (text : string)
| JStr (s : string)
| JArr (items : list Json)
| JObj (fields : list (string * Json)).

Fixpoint lookup_field (key : string) (fields : list (string * Json)) : option Json :=
  match fields with
  | [] => None
  | (k, v) :: fields' => if String.eqb k key then Some v else lookup_field key fields'
  end.

(** [Value::get] with a string index. *)
Definition get (v : Json) (key : string) : option Json :=
  match v with JObj fields => lookup_field key fields | _ => None end.

(** [Deserialize] of the field types, from a value. *)
Definition de_string (v : Json) : option string := match v with JStr s => Some s | _ => None end.
Definition de_uint (max : Z) (v : Json) : option Z :=
  match v with JInt n => if (0 <=? n) && (n <=? max) then Some n else None | _ => None end.
Fixpoint de_strings (l : list Json) : option (list string) :=
  match l with
  | [] => Some []
  | v :: l' => let* s := de_string v in let* ss := de_strings l' in Some (s :: ss)
  end.
Definition de_string_list (v : Json) : option (list string) :=
  match v with JArr l => de_strings l | _ => None end.

(** A required field of a struct or variant; unknown fields are ignored. *)
Definition field {A} (v : Json) (key : string) (de : Json -> option A) : option A :=
  let* x := get v key in de x.

(** ** Messages *)

Definition HEARTBEAT_MS : Z := 15000.
Definition IDLE_TIMEOUT_MS : Z := 45000.
Definition MAX_PAYLOAD_SIZE : nat := 32 * 1024.
Definition CONN_ID_SIZE : nat := 4.

Inductive Transport := Ws.

Record ClientInfo := mkClientInfo {
  version : string;
  max_conns : Z;
}.

Inductive ClientMessage :=
| CAttach (token : string) (transport : Transport) (routes : list string) (client : ClientInfo)
| CPing (time_sent : Z)
| CPong (time_sent : Z)
| CEnd (conn : Z)
| CReset (conn : Z) (code : string).

Inductive ServerMessage :=
| SAttached (session : string) (routes : list string) (heartbeat_ms idle_timeout_ms : Z)
| SAttachError (code : string)
| SOpen (conn : Z) (peer sni alpn : string)
| SPing (time_sent : Z)
| SPong (time_sent : Z)
| SDrain (reason : string)
| SEnd (conn : Z)
| SReset (conn : Z) (code : string).

Definition SERVER_TYPES : list string :=
  ["attached"; "attach_error"; "open"; "ping"; "pong"; "drain"; "end"; "reset"].

(** The derived [Serialize]: the tag first, then the fields in order. *)
Definition tagged (kind : string) (fields : list (string * Json)) : Json := JObj (("type", JStr kind) :: fields).
Definition ser_strings (l : list string) : Json := JArr (map JStr l).

Definition ser_client (m : ClientMessage) : Json :=
  match m with
  | CAttach token Ws routes client =>
      tagged "attach" [("token", JStr token); ("transport", JStr "ws"); ("routes", ser_strings routes);
                       ("client", JObj [("version", JStr (version client)); ("max_conns", JInt (max_conns client))])]
  | CPing t => tagged "ping" [("time_sent", JInt t)]
  | CPong t => tagged "pong" [("time_sent", JInt t)]
  | CEnd conn => tagged "end" [("conn", JInt conn)]
  | CReset conn code => tagged "reset" [("conn", JInt conn); ("code", JStr code)]
  end.

Definition ser_server (m : ServerMessage) : Json :=
  match m with
  | SAttached session routes heartbeat_ms idle_timeout_ms =>
      tagged "attached" [("session", JStr session); ("routes", ser_strings routes);
                         ("heartbeat_ms", JInt heartbeat_ms); ("idle_timeout_ms", JInt idle_timeout_ms)]
  | SAttachError code => tagged "attach_error" [("code", JStr code)]
  | SOpen conn peer sni alpn =>
      tagged "open" [("conn", JInt conn); ("peer", JStr peer); ("sni", JStr sni); ("alpn", JStr alpn)]
  | SPing t => tagged "ping" [("time_sent", JInt t)]
  | SPong t => tagged "pong" [("time_sent", JInt t)]
  | SDrain reason => tagged "drain" [("reason", JStr reason)]
  | SEnd conn => tagged "end" [("conn", JInt conn)]
  | SReset conn code => tagged "reset" [("conn", JInt conn); ("code", JStr code)]
  end.

Definition de_transport (v : Json) : option Transport :=
  let* s := de_string v in if String.eqb s "ws" then Some Ws else None.
Definition de_client_info (v : Json) : option ClientInfo :=
  let* version := field v "version" de_string in
  let* max_conns := field v "max_conns" (de_uint U32_MAX) in
  Some (mkClientInfo version max_conns).

(** The derived [Deserialize] of an enum tagged by its [type]. *)
Definition de_client (v : Json) : option ClientMessage :=
  let* kind := field v "type" de_string in
  if String.eqb kind "attach" then
    let* token := field v "token" de_string in
    let* transport := field v "transport" de_transport in
    let* routes := field v "routes" de_string_list in
    let* client := field v "client" de_client_info in
    Some (CAttach token transport routes client)
  else if String.eqb kind "ping" then CPing <$> field v "time_sent" (de_uint U64_MAX)
  else if String.eqb kind "pong" then CPong <$> field v "time_sent" (de_uint U64_MAX)
  else if String.eqb kind "end" then CEnd <$> field v "conn" (de_uint U32_MAX)
  else if String.eqb kind "reset" then
    let* conn := field v "conn" (de_uint U32_MAX) in
    let* code := field v "code" de_string in
    Some (CReset conn code)
  else None.

Definition de_server (v : Json) : option ServerMessage :=
  let* kind := field v "type" de_string in
  if String.eqb kind "attached" then
    let* session := field v "session" de_string in
    let* routes := field v "routes" de_string_list in
    let* heartbeat_ms := field v "heartbeat_ms" (de_uint U64_MAX) in
    let* idle_timeout_ms := field v "idle_timeout_ms" (de_uint U64_MAX) in
    Some (SAttached session routes heartbeat_ms idle_timeout_ms)
  else if String.eqb kind "attach_error" then SAttachError <$> field v "code" de_string
  else if String.eqb kind "open" then
    let* conn := field v "conn" (de_uint U32_MAX) in
    let* peer := field v "peer" de_string in
    let* sni := field v "sni" de_string in
    let* alpn := field v "alpn" de_string in
    Some (SOpen conn peer sni alpn)
  else if String.eqb kind "ping" then SPing <$> field v "time_sent" (de_uint U64_MAX)
  else if String.eqb kind "pong" then SPong <$> field v "time_sent" (de_uint U64_MAX)
  else if String.eqb kind "drain" then SDrain <$> field v "reason" de_string
  else if String.eqb kind "end" then SEnd <$> field v "conn" (de_uint U32_MAX)
  else if String.eqb kind "reset" then
    let* conn := field v "conn" (de_uint U32_MAX) in
    let* code := field v "code" de_string in
    Some (SReset conn code)
  else None.

Inductive DecodeError := DecodeInvalid.

Section decode.
(** [serde_json::from_str] into a value. *)
Variable from_str : string -> option Json.

Definition decode (text : string) : result (option ServerMessage) DecodeError :=
  let? value := ok_or (from_str text) DecodeInvalid in
  let known := match (let* kind := get value "type" in de_string kind) with
               | Some kind => bool_decide (kind ∈ SERVER_TYPES)
               | None => false
               end in
  let typed := match get value "type" with Some (JStr _) => true | _ => false end in
  if negb known && typed then Ok None
  else
    let? m := ok_or (de_server value) DecodeInvalid in
    Ok (Some m).
End decode.

(** ** Close and attach codes *)

Definition BAD_TOKEN : string := "bad_token".
Definition CERT_NOT_READY : string := "cert_not_ready".
Definition UNKNOWN_ROUTE : string := "unknown_route".
Definition TOO_MANY_CONNECTIONS : string := "too_many_connections".

Definition is_fatal_attach_error (code : string) : bool :=
  bool_decide (code = BAD_TOKEN) || bool_decide (code = CERT_NOT_READY).

(** ** Data frames *)

Definition encode_data_frame (conn : Z) (payload : bytes) : bytes := be_bytes 4 conn ++ payload.

Definition decode_data_frame (frame : bytes) : option (Z * bytes) :=
  if (length frame <? CONN_ID_SIZE)%nat then None
  else Some (be_value (take CONN_ID_SIZE frame), drop CONN_ID_SIZE frame).

(** ** Routes *)

Record Route := mkRoute {
  target : string;
  proxy_protocol : option Client.ProxyProtocol;
}.

Definition has_options (r : Route) : bool := match proxy_protocol r with Some _ => true | None => false end.

Inductive RouteError := InvalidRouteName (name : string) | InvalidTarget (target name : string).

Definition validate (r : Route) (name : string) : result unit RouteError :=
  if negb (Protocol.is_valid_route name) then Err (InvalidRouteName name)
  else match Protocol.parse_target (target r) with
       | None => Err (InvalidTarget (target r) name)
       | Some _ => Ok tt
       end.

Definition ser_route (r : Route) : Json :=
  if negb (has_options r) then JStr (target r)
  else JObj (("target", JStr (target r))
             :: match proxy_protocol r with
                | Some version => [("proxy_protocol", JStr (Client.as_str version))]
                | None => []
                end).

Inductive RouteDeError :=
| DuplicateField (name : string)
| UnknownField (name : string)
| MissingField (name : string)
| InvalidValue (value : string)
| InvalidType.

(** [visit_map]: the entries in order. *)
Fixpoint visit_map (entries : list (string * Json)) (target : option string)
    (proxy_protocol : option Client.ProxyProtocol) : result Route RouteDeError :=
  match entries with
  | [] =>
      let? target := ok_or target (MissingField "target") in
      Ok (mkRoute target proxy_protocol)
  | (key, value) :: entries' =>
      if String.eqb key "target" then
        match target with
        | Some _ => Err (DuplicateField "target")
        | None =>
            let? t := ok_or (de_string value) InvalidType in
            visit_map entries' (Some t) proxy_protocol
        end
      else if String.eqb key "proxy_protocol" then
        match proxy_protocol with
        | Some _ => Err (DuplicateField "proxy_protocol")
        | None =>
            let? s := ok_or (de_string value) InvalidType in
            let? p := ok_or (Client.parse_version s) (InvalidValue s) in
            visit_map entries' target (Some p)
        end
      else Err (UnknownField key)
  end.

Definition de_route (v : Json) : result Route RouteDeError :=
  match v with
  | JStr s => Ok (mkRoute s None)
  | JObj entries => visit_map entries None None
  | _ => Err InvalidType
  end.

(** ** Proofs *)

Lemma de_strings_ser l : de_strings (map JStr l) = Some l.
Proof. induction l as [|s l IH]; [done|]. cbn. by rewrite IH. Qed.

Lemma de_uint_int max n : 0 <= n <= max -> de_uint max (JInt n) = Some n.
Proof.
  intros H. unfold de_uint. by rewrite (proj2 (Z.leb_le 0 n)), (proj2 (Z.leb_le n max)) by lia.
Qed.

(** The integers of a message fit their types. *)
Definition server_ok (m : ServerMessage) : Prop :=
  match m with
  | SAttached _ _ h i => 0 <= h <= U64_MAX /\ 0 <= i <= U64_MAX
  | SOpen c _ _ _ | SEnd c | SReset c _ => 0 <= c <= U32_MAX
  | SPing t | SPong t => 0 <= t <= U64_MAX
  | SAttachError _ | SDrain _ => True
  end.
Definition client_ok (m : ClientMessage) : Prop :=
  match m with
  | CAttach _ _ _ c => 0 <= max_conns c <= U32_MAX
  | CPing t | CPong t => 0 <= t <= U64_MAX
  | CEnd c | CReset c _ => 0 <= c <= U32_MAX
  end.

Lemma de_server_ser m : server_ok m -> de_server (ser_server m) = Some m.
Proof.
  destruct m; cbn [server_ok]; intros H; unfold de_server, field; cbn -[de_uint de_strings];
    rewrite ?de_uint_int, ?de_strings_ser by tauto; cbn -[de_uint de_strings];
    rewrite ?de_uint_int by tauto; cbn -[de_uint]; rewrite ?de_uint_int by tauto; done.
Qed.

Lemma de_client_ser m : client_ok m -> de_client (ser_client m) = Some m.
Proof.
  destruct m as [token [] routes [ver mc]|t|t|c|c code]; cbn [client_ok max_conns]; intros H;
    unfold de_client, field; cbn -[de_uint de_strings];
    rewrite ?de_uint_int, ?de_strings_ser by tauto; cbn -[de_uint]; rewrite ?de_uint_int by tauto; done.
Qed.

(** ** The properties *)

(** a data frame carries its connection and payload unchanged, every frame of at least four bytes is the
    encoding of exactly what it decodes to, and shorter ones are refused. *)
Theorem data_frame_roundtrip conn payload frame :
  0 <= conn <= U32_MAX -> bytes_ok frame ->
  decode_data_frame (encode_data_frame conn payload) = Some (conn, payload) /\
  match decode_data_frame frame with
  | Some (c, p) => frame = encode_data_frame c p /\ 0 <= c <= U32_MAX
  | None => (length frame < CONN_ID_SIZE)%nat
  end.
Proof.
  unfold U32_MAX, decode_data_frame, encode_data_frame, CONN_ID_SIZE. intros Hc Hf. split.
  - rewrite length_app, length_be_bytes, (proj2 (Nat.ltb_ge _ _)) by lia.
    rewrite take_app_length', drop_app_length' by (by rewrite length_be_bytes).
    by rewrite be_value_bytes_id by (cbn; lia).
  - case_split; bsimp; [done|].
    assert (length (take 4 frame) = 4%nat) as Hl by (rewrite length_take; lia).
    assert (bytes_ok (take 4 frame)) as Hok by (by apply Forall_take).
    pose proof (be_value_bounds _ Hok) as Hb. rewrite Hl in Hb.
    split; [|cbn in Hb; lia]. rewrite <- Hl at 1. rewrite be_bytes_value by done. by rewrite take_drop.
Qed.

Lemma data_frame_roundtrip_witness :
  decode_data_frame (encode_data_frame 7 [1; 2]) = Some (7, [1; 2]) /\
  match decode_data_frame [0; 0; 1; 0; 9] with
  | Some (c, p) => [0; 0; 1; 0; 9] = encode_data_frame c p /\ 0 <= c <= U32_MAX
  | None => (length [0; 0; 1; 0; 9] < CONN_ID_SIZE)%nat
  end.
Proof.
  apply (data_frame_roundtrip 7 [1; 2] [0; 0; 1; 0; 9]); [unfold U32_MAX; lia|by apply (bool_decide_unpack _)].
Defined.

(** the client understands every message the server can send, and the server every message of the client;
    a message of a kind the client does not know is ignored rather than refused, and one without a kind refused. *)
Theorem control_messages_understood from_str text value :
  from_str text = Some value ->
  (forall m, server_ok m -> value = ser_server m -> decode from_str text = Ok (Some m)) /\
  (forall m, client_ok m -> value = ser_client m -> de_client value = Some m) /\
  (forall kind, get value "type" = Some (JStr kind) -> kind ∉ SERVER_TYPES -> decode from_str text = Ok None) /\
  (get value "type" = None -> decode from_str text = Err DecodeInvalid).
Proof.
  intros Hv. split_and!.
  - intros m Hok ->. unfold decode. rewrite Hv. cbn [ok_or result_bind]. rewrite de_server_ser by done.
    by destruct m.
  - intros m Hok ->. by apply de_client_ser.
  - intros kind Hk Hn. unfold decode. rewrite Hv. cbn [ok_or result_bind]. rewrite Hk. cbn [mbind option_bind de_string].
    by rewrite bool_decide_eq_false_2.
  - intros Hn. unfold decode. rewrite Hv. cbn [ok_or result_bind]. rewrite Hn. cbn [mbind option_bind negb andb].
    unfold de_server, field. by rewrite Hn.
Qed.

Lemma control_messages_understood_witness :
  decode (fun _ => Some (ser_server (SOpen 5 "1.2.3.4:5" "a.t.test" "h2"))) "{}"
  = Ok (Some (SOpen 5 "1.2.3.4:5" "a.t.test" "h2")).
Proof.
  apply (proj1 (control_messages_understood (fun _ => Some (ser_server (SOpen 5 "1.2.3.4:5" "a.t.test" "h2"))) "{}"
    (ser_server (SOpen 5 "1.2.3.4:5" "a.t.test" "h2")) eq_refl)); [|reflexivity].
  cbn. unfold U32_MAX. lia.
Defined.

(** a route is read back from the value it is stored as, with or without options, and a stored value that
    reads names each option at most once and no other. *)
Theorem route_roundtrip r entries r' :
  de_route (ser_route r) = Ok r /\
  (de_route (JObj entries) = Ok r' -> NoDup (map fst entries) /\ Forall (fun e => e.1 ∈ ["target"; "proxy_protocol"]) entries).
Proof.
  split.
  - destruct r as [t [[]|]]; reflexivity.
  - cbn [de_route].
    assert (forall es t p, visit_map es t p = Ok r' ->
      NoDup (map fst es) /\ Forall (fun e => e.1 ∈ ["target"; "proxy_protocol"]) es /\
      (t <> None -> "target" ∉ map fst es) /\ (p <> None -> "proxy_protocol" ∉ map fst es)) as Hgen.
    { induction es as [|[k v] es IH]; intros t p H.
      - cbn. split_and!; [constructor|constructor|intros _; apply not_elem_of_nil|intros _; apply not_elem_of_nil].
      - cbn [visit_map map fst] in *. destruct (String.eqb_spec k "target") as [->|Hk].
        + destruct t; [done|]. destruct (de_string v) as [s|]; [|done]. cbn in H.
          destruct (IH _ _ H) as (H1 & H2 & H3 & H4).
          split_and!; [constructor; [by apply H3|done]|constructor; [left|done]|done|].
          intros Hp. apply not_elem_of_cons. split; [done|by apply H4].
        + destruct (String.eqb_spec k "proxy_protocol") as [->|Hk2]; [|done].
          destruct p; [done|]. destruct (de_string v) as [s|]; [|done]. cbn in H.
          destruct (Client.parse_version s) as [pv|]; [|done]. cbn in H.
          destruct (IH _ _ H) as (H1 & H2 & H3 & H4).
          split_and!; [constructor; [by apply H4|done]|constructor; [right; left|done]| |done].
          intros Ht. apply not_elem_of_cons. split; [done|by apply H3]. }
    intros H. destruct (Hgen _ _ _ H) as (? & ? & _). done.
Qed.

Lemma route_roundtrip_witness :
  de_route (ser_route (mkRoute "localhost:3000" (Some Client.PV2))) = Ok (mkRoute "localhost:3000" (Some Client.PV2)) /\
  NoDup (map fst [("target", JStr "localhost:1")]).
Proof.
  pose proof (route_roundtrip (mkRoute "localhost:3000" (Some Client.PV2)) [("target", JStr "localhost:1")]
    (mkRoute "localhost:1" None)) as [H1 H2].
  split; [exact H1|]. exact (proj1 (H2 eq_refl)).
Defined.
