(* ===== verification/Record.v ===== *)
(** * Record: the stored tunnel record and the clock

    [crates/opentunnel/src/protocol/api.rs] (the certificate states), the server's [record.rs] and [clock.rs]. *)

From Stdlib Require Import ZArith Lia Ascii String List.
From stdpp Require Import base list strings.
From S2P Require Import Prelude Text.

(** ** Time: [clock.rs] *)

Definition SECOND_MS : Z := 1000.
Definition MINUTE_MS : Z := 60 * SECOND_MS.
Definition HOUR_MS : Z := 60 * MINUTE_MS.
Definition DAY_MS : Z := 24 * HOUR_MS.

(** The text of a time, which [humantime] formats and parses: a time the server wrote is read back, for the years
    RFC 3339 can write. *)
Class TimeText := {
  iso : Z -> string;
  parse_iso : string -> option Z;
  parse_iso_iso : forall ms, 0 <= ms < 253402300800000 -> parse_iso (iso ms) = Some ms;
}.

(** ** The API's types *)

Inductive TunnelState := Offline | Online.

Inductive CertificateState :=
| Challenge (token key : string)
| Issuing
| Ready (certificate chain expiry : string)
| Failed (reason : string).

Record CertificateInfo := mkCertificateInfo {
  ci_id : string;
  ci_state : CertificateState;
}.

(** ** [record.rs] *)

Record Renewal := mkRenewal {
  rn_certificate_id : string;
  rn_started_at : string;
}.

Record StoredTunnel := mkStoredTunnel {
  st_version : Z;
  st_id : string;
  st_hostname : string;
  st_state : TunnelState;
  certificate_id : option string;
  token_hash : string;
  st_created_at : string;
  deleted_at : option string;
  certificate : option CertificateInfo;
  certificate_csr : option string;
  certificate_identifiers : option (list string);
  certificate_started_at : option string;
  last_connected_at : option string;
  renewal : option Renewal;
}.

#[export] Instance tunnel_state_eq_dec : EqDecision TunnelState.
Proof. solve_decision. Defined.
#[export] Instance certificate_state_eq_dec : EqDecision CertificateState.
Proof. solve_decision. Defined.
#[export] Instance certificate_info_eq_dec : EqDecision CertificateInfo.
Proof. solve_decision. Defined.
#[export] Instance renewal_eq_dec : EqDecision Renewal.
Proof. solve_decision. Defined.
#[export] Instance stored_tunnel_eq_dec : EqDecision StoredTunnel.
Proof. solve_decision. Defined.

Definition is_deleted (r : StoredTunnel) : bool :=
  match deleted_at r with Some _ => true | None => false end.

Definition ready_expiry (r : StoredTunnel) : option string :=
  match certificate r with
  | Some c => match ci_state c with Ready _ _ expiry => Some expiry | _ => None end
  | None => None
  end.

Definition certificate_ready (r : StoredTunnel) : bool :=
  match ready_expiry r with Some _ => true | None => false end.

Definition identifiers (r : StoredTunnel) : list string :=
  match certificate_identifiers r with Some l => l | None => [st_hostname r] end.

(** Field updates. *)
Definition set_state (s : TunnelState) (r : StoredTunnel) : StoredTunnel :=
  mkStoredTunnel (st_version r) (st_id r) (st_hostname r) s (certificate_id r) (token_hash r) (st_created_at r)
    (deleted_at r) (certificate r) (certificate_csr r) (certificate_identifiers r) (certificate_started_at r)
    (last_connected_at r) (renewal r).
Definition set_deleted_at (d : option string) (r : StoredTunnel) : StoredTunnel :=
  mkStoredTunnel (st_version r) (st_id r) (st_hostname r) (st_state r) (certificate_id r) (token_hash r)
    (st_created_at r) d (certificate r) (certificate_csr r) (certificate_identifiers r) (certificate_started_at r)
    (last_connected_at r) (renewal r).
Definition set_certificate (c : option CertificateInfo) (r : StoredTunnel) : StoredTunnel :=
  mkStoredTunnel (st_version r) (st_id r) (st_hostname r) (st_state r) (certificate_id r) (token_hash r)
    (st_created_at r) (deleted_at r) c (certificate_csr r) (certificate_identifiers r) (certificate_started_at r)
    (last_connected_at r) (renewal r).
Definition set_certificate_id (c : option string) (r : StoredTunnel) : StoredTunnel :=
  mkStoredTunnel (st_version r) (st_id r) (st_hostname r) (st_state r) c (token_hash r)
    (st_created_at r) (deleted_at r) (certificate r) (certificate_csr r) (certificate_identifiers r)
    (certificate_started_at r) (last_connected_at r) (renewal r).
Definition set_certificate_csr (c : option string) (r : StoredTunnel) : StoredTunnel :=
  mkStoredTunnel (st_version r) (st_id r) (st_hostname r) (st_state r) (certificate_id r) (token_hash r)
    (st_created_at r) (deleted_at r) (certificate r) c (certificate_identifiers r) (certificate_started_at r)
    (last_connected_at r) (renewal r).
Definition set_certificate_identifiers (c : option (list string)) (r : StoredTunnel) : StoredTunnel :=
  mkStoredTunnel (st_version r) (st_id r) (st_hostname r) (st_state r) (certificate_id r) (token_hash r)
    (st_created_at r) (deleted_at r) (certificate r) (certificate_csr r) c (certificate_started_at r)
    (last_connected_at r) (renewal r).
Definition set_certificate_started_at (c : option string) (r : StoredTunnel) : StoredTunnel :=
  mkStoredTunnel (st_version r) (st_id r) (st_hostname r) (st_state r) (certificate_id r) (token_hash r)
    (st_created_at r) (deleted_at r) (certificate r) (certificate_csr r) (certificate_identifiers r) c
    (last_connected_at r) (renewal r).
Definition set_last_connected_at (c : option string) (r : StoredTunnel) : StoredTunnel :=
  mkStoredTunnel (st_version r) (st_id r) (st_hostname r) (st_state r) (certificate_id r) (token_hash r)
    (st_created_at r) (deleted_at r) (certificate r) (certificate_csr r) (certificate_identifiers r)
    (certificate_started_at r) c (renewal r).
Definition set_renewal (c : option Renewal) (r : StoredTunnel) : StoredTunnel :=
  mkStoredTunnel (st_version r) (st_id r) (st_hostname r) (st_state r) (certificate_id r) (token_hash r)
    (st_created_at r) (deleted_at r) (certificate r) (certificate_csr r) (certificate_identifiers r)
    (certificate_started_at r) (last_connected_at r) c.
