(* ===== verification/Store.v ===== *)
(** * Store: the database behind every server, [store.rs]

    A statement is atomic; an operation is the statements it sends, in order. Between two statements of one
    operation any statements of other servers may run, and a statement may be lost, or run with its answer lost
    (a timeout): a schedule says which, and the theorems hold for every schedule. *)

From Stdlib Require Import ZArith Lia Ascii String List.
From stdpp Require Import base list strings gmap.
From S2P Require Import Prelude Text Record.

(** ** Tables *)

(** The record's text is serde_json's of the record, so the row holds the record itself. *)
Record TunnelRow := mkTunnelRow {
  t_record : StoredTunnel;
  t_revision : Z;
  t_deleted : bool;
  t_issuing : bool;
  t_alarm_at : option Z;
  t_updated_at : Z;
  t_imported_at : option Z;
  t_local_update : bool;
}.

Inductive JobKind := Issue | Renew | KServer.
Inductive JobStatus := Pending | Done | JFailed | Abandoned.

#[export] Instance job_kind_eq_dec : EqDecision JobKind.
Proof. solve_decision. Defined.
#[export] Instance job_status_eq_dec : EqDecision JobStatus.
Proof. solve_decision. Defined.

(** [JobKind::as_str] and [JobKind::parse] *)
Definition kind_str (k : JobKind) : string :=
  match k with Issue => "issue" | Renew => "renew" | KServer => "server" end.
Definition kind_parse (s : string) : JobKind :=
  if String.eqb s "renew" then Renew else if String.eqb s "server" then KServer else Issue.

Record JobRow := mkJobRow {
  j_tunnel_id : option string;
  j_kind : string;
  j_identifiers : list string;
  j_csr : string;
  j_status : JobStatus;
  j_attempts : Z;
  j_run_at : Z;
  j_lease_owner : option string;
  j_lease_until : option Z;
  j_last_error : option string;
  j_created_at : Z;
  j_updated_at : Z;
}.

Record ServerCertificate := mkServerCertificate {
  private_key : string;
  sc_csr : string;
  sc_certificate : option string;
  sc_chain : option string;
  sc_expiry : option string;
}.

Record Db := mkDb {
  tunnels : gmap string TunnelRow;
  jobs : gmap string JobRow;
  rate_limits : gmap string Z;
  meta : gmap string string;
  server_certificates : gmap string ServerCertificate;
}.

Definition set_tunnels (t : gmap string TunnelRow) (d : Db) : Db :=
  mkDb t (jobs d) (rate_limits d) (meta d) (server_certificates d).
Definition set_jobs (j : gmap string JobRow) (d : Db) : Db :=
  mkDb (tunnels d) j (rate_limits d) (meta d) (server_certificates d).
Definition set_rate_limits (r : gmap string Z) (d : Db) : Db :=
  mkDb (tunnels d) (jobs d) r (meta d) (server_certificates d).
Definition set_meta_table (m : gmap string string) (d : Db) : Db :=
  mkDb (tunnels d) (jobs d) (rate_limits d) m (server_certificates d).
Definition set_server_certificates (c : gmap string ServerCertificate) (d : Db) : Db :=
  mkDb (tunnels d) (jobs d) (rate_limits d) (meta d) c.

Definition LEASE_MS : Z := 2 * 60 * 1000.

(** [record_flags]: the columns derived from the record. *)
Definition record_flags (r : StoredTunnel) : bool * bool :=
  let issuing :=
    match renewal r with Some _ => true | None => false end
    || match certificate r with
       | Some c => match ci_state c with Issuing | Challenge _ _ => true | _ => false end
       | None => false
       end in
  (is_deleted r, issuing).

Inductive ImportOutcome := Inserted | Updated | Unchanged | KeptLocal.
#[export] Instance import_outcome_eq_dec : EqDecision ImportOutcome.
Proof. solve_decision. Defined.

(** ** Statements

    The writes the server sends, one constructor per statement. [SImportUpdate] is the transaction of
    [try_import], which locks its row. *)
Inductive Stmt :=
| SInsertTunnel (record : StoredTunnel) (now : Z)
| SUpdateTunnel (record : StoredTunnel) (revision now : Z)
| SSetAlarm (id : string) (at_ : option Z)
| SClearAlarm (id : string) (alarm : Z)
| SImportInsert (record : StoredTunnel) (alarm : option Z) (now : Z)
| SImportUpdate (record : StoredTunnel) (alarm : option Z) (force : bool) (now : Z)
| SInsertJob (id : string) (row : JobRow)
| SClaimJob (id owner : string) (now : Z)
| SExtendLease (id owner : string) (now : Z)
| SReleaseLeases (owner : string)
| SFinishJob (id owner : string) (status : JobStatus) (error : option string) (now : Z)
| SRetryJob (id owner : string) (attempts run_at : Z) (error : string) (now : Z)
| SRequeueBefore (id : string) (before now : Z)
| SRequeueFailed (id : string) (now : Z)
| STakeRate (name : string) (now interval tolerance : Z)
| SInsertRate (name : string) (tat : Z)
| SPruneRates (now : Z) (chosen : list string)
| SInsertServerCertificate (name : string) (row : ServerCertificate)
| SSaveServerCertificate (name : string) (row : ServerCertificate)
| SSetMeta (key value : string)
| SInsertMeta (key value : string)
| SSwapMeta (key expected value : string).

(** Rows matched, or a duplicate key; the import's transaction reports what it did. *)
Inductive Outcome :=
| Affected (rows : nat)
| Duplicate
| Imported (outcome : ImportOutcome).

#[export] Instance outcome_eq_dec : EqDecision Outcome.
Proof. solve_decision. Defined.

(** An [UPDATE] of the row with a key, where a condition holds. *)
Definition update_where {V} (m : gmap string V) (key : string) (cond : V -> bool) (f : V -> V)
    : gmap string V * nat :=
  match m !! key with
  | Some row => if cond row then (<[key := f row]> m, 1%nat) else (m, 0%nat)
  | None => (m, 0%nat)
  end.

Definition lease_free (now : Z) (row : JobRow) : bool :=
  match j_lease_until row with None => true | Some until => until <? now end.

Definition owned_by (owner : string) (row : JobRow) : bool := bool_decide (j_lease_owner row = Some owner).

Definition set_lease (owner : option string) (until : option Z) (row : JobRow) : JobRow :=
  mkJobRow (j_tunnel_id row) (j_kind row) (j_identifiers row) (j_csr row) (j_status row) (j_attempts row)
    (j_run_at row) owner until (j_last_error row) (j_created_at row) (j_updated_at row).

(** Queued again as if new, without a lease. *)
Definition requeued (created_at now : Z) (row : JobRow) : JobRow :=
  mkJobRow (j_tunnel_id row) (j_kind row) (j_identifiers row) (j_csr row) Pending 0 now None None
    (j_last_error row) created_at now.

Definition exec (s : Stmt) (d : Db) : Db * Outcome :=
  match s with
  | SInsertTunnel record now =>
      match tunnels d !! st_id record with
      | Some _ => (d, Duplicate)
      | None =>
          let '(deleted, issuing) := record_flags record in
          (set_tunnels (<[st_id record := mkTunnelRow record 1 deleted issuing None now None true]> (tunnels d)) d,
           Affected 1)
      end
  | SUpdateTunnel record revision now =>
      let '(deleted, issuing) := record_flags record in
      let '(t, n) := update_where (tunnels d) (st_id record) (fun row => t_revision row =? revision)
        (fun row => mkTunnelRow record (t_revision row + 1) deleted issuing (t_alarm_at row) now (t_imported_at row) true) in
      (set_tunnels t d, Affected n)
  | SSetAlarm id at_ =>
      let '(t, n) := update_where (tunnels d) id (fun _ => true)
        (fun row => mkTunnelRow (t_record row) (t_revision row) (t_deleted row) (t_issuing row) at_ (t_updated_at row)
                      (t_imported_at row) (t_local_update row)) in
      (set_tunnels t d, Affected n)
  | SClearAlarm id alarm =>
      let '(t, n) := update_where (tunnels d) id (fun row => bool_decide (t_alarm_at row = Some alarm))
        (fun row => mkTunnelRow (t_record row) (t_revision row) (t_deleted row) (t_issuing row) None (t_updated_at row)
                      (t_imported_at row) (t_local_update row)) in
      (set_tunnels t d, Affected n)
  | SImportInsert record alarm now =>
      match tunnels d !! st_id record with
      | Some _ => (d, Duplicate)
      | None =>
          let '(deleted, issuing) := record_flags record in
          (set_tunnels (<[st_id record := mkTunnelRow record 1 deleted issuing alarm now (Some now) false]> (tunnels d)) d,
           Affected 1)
      end
  | SImportUpdate record alarm force now =>
      match tunnels d !! st_id record with
      | None => (d, Affected 0)
      | Some row =>
          if t_local_update row && negb force then (d, Imported KeptLocal)
          else if bool_decide (t_record row = record) then (d, Imported Unchanged)
          else
            let '(deleted, issuing) := record_flags record in
            (set_tunnels (<[st_id record := mkTunnelRow record (t_revision row + 1) deleted issuing alarm now (Some now)
                                              false]> (tunnels d)) d, Imported Updated)
      end
  | SInsertJob id row =>
      match jobs d !! id with
      | Some _ => (d, Duplicate)
      | None => (set_jobs (<[id := row]> (jobs d)) d, Affected 1)
      end
  | SClaimJob id owner now =>
      let '(j, n) := update_where (jobs d) id
        (fun row => bool_decide (j_status row = Pending) && (j_run_at row <=? now)
                    && (lease_free now row || owned_by owner row))
        (set_lease (Some owner) (Some (now + LEASE_MS))) in
      (set_jobs j d, Affected n)
  | SExtendLease id owner now =>
      let '(j, n) := update_where (jobs d) id
        (fun row => owned_by owner row && bool_decide (j_status row = Pending))
        (fun row => set_lease (j_lease_owner row) (Some (now + LEASE_MS)) row) in
      (set_jobs j d, Affected n)
  | SReleaseLeases owner =>
      (set_jobs ((fun row => if owned_by owner row then set_lease None None row else row) <$> jobs d) d,
       Affected (length (filter (fun kv => owned_by owner kv.2 = true) (map_to_list (jobs d)))))
  | SFinishJob id owner status error now =>
      let '(j, n) := update_where (jobs d) id (owned_by owner)
        (fun row => mkJobRow (j_tunnel_id row) (j_kind row) (j_identifiers row) (j_csr row) status (j_attempts row)
                      (j_run_at row) None None error (j_created_at row) now) in
      (set_jobs j d, Affected n)
  | SRetryJob id owner attempts run_at error now =>
      let '(j, n) := update_where (jobs d) id (owned_by owner)
        (fun row => mkJobRow (j_tunnel_id row) (j_kind row) (j_identifiers row) (j_csr row) (j_status row) attempts
                      run_at None None (Some error) (j_created_at row) now) in
      (set_jobs j d, Affected n)
  | SRequeueBefore id before now =>
      let '(j, n) := update_where (jobs d) id
        (fun row => (bool_decide (j_status row = JFailed) || bool_decide (j_status row = Pending))
                    && (j_created_at row <? before) && lease_free now row)
        (requeued (Z.max now before) now) in
      (set_jobs j d, Affected n)
  | SRequeueFailed id now =>
      let '(j, n) := update_where (jobs d) id (fun row => bool_decide (j_status row = JFailed)) (requeued now now) in
      (set_jobs j d, Affected n)
  | STakeRate name now interval tolerance =>
      let '(r, n) := update_where (rate_limits d) name (fun tat => Z.max tat now <=? now + tolerance)
        (fun tat => Z.max tat now + interval) in
      (set_rate_limits r d, Affected n)
  | SInsertRate name tat =>
      match rate_limits d !! name with
      | Some _ => (d, Duplicate)
      | None => (set_rate_limits (<[name := tat]> (rate_limits d)) d, Affected 1)
      end
  | SPruneRates now chosen =>
      let pruned := filter (fun kv => kv.2 < now /\ kv.1 ∈ chosen) (rate_limits d) in
      (set_rate_limits (rate_limits d ∖ pruned) d, Affected (size pruned))
  | SInsertServerCertificate name row =>
      match server_certificates d !! name with
      | Some _ => (d, Duplicate)
      | None => (set_server_certificates (<[name := row]> (server_certificates d)) d, Affected 1)
      end
  | SSaveServerCertificate name row =>
      let '(c, n) := update_where (server_certificates d) name (fun old => bool_decide (sc_csr old = sc_csr row))
        (fun old => mkServerCertificate (private_key old) (sc_csr old) (sc_certificate row) (sc_chain row) (sc_expiry row)) in
      (set_server_certificates c d, Affected n)
  | SSetMeta key value => (set_meta_table (<[key := value]> (meta d)) d, Affected 1)
  | SInsertMeta key value =>
      match meta d !! key with
      | Some _ => (d, Duplicate)
      | None => (set_meta_table (<[key := value]> (meta d)) d, Affected 1)
      end
  | SSwapMeta key expected value =>
      let '(m, n) := update_where (meta d) key (fun old => bool_decide (old = expected)) (fun _ => value) in
      (set_meta_table m d, Affected n)
  end.

(** A database after a sequence of statements. *)
Definition run (stmts : list Stmt) (d : Db) : Db := fold_left (fun d s => fst (exec s d)) stmts d.

(** ** Operations *)

Inductive StoreError := Unavailable | Conflict | Disappeared.

(** What happens to the next statement of an operation: other statements run first, then it is answered, lost, or
    run with its answer lost. *)
Inductive Fault := Answered | Lost | AnswerLost.
Record Turn := mkTurn { others : list Stmt; fault : Fault }.

(** An operation's state is the database and the turns to come; without turns nothing interferes. *)
Definition M (A : Type) : Type := Db * list Turn -> result A StoreError * (Db * list Turn).

Definition ret {A} (a : A) : M A := fun w => (Ok a, w).
Definition fail {A} (e : StoreError) : M A := fun w => (Err e, w).
Definition bind {A B} (m : M A) (k : A -> M B) : M B :=
  fun w => match m w with
           | (Ok a, w') => k a w'
           | (Err e, w') => (Err e, w')
           end.

Notation "x <-- m ;; k" := (bind m (fun x => k)) (at level 100, m at next level, right associativity).

Definition next_turn (turns : list Turn) : Turn * list Turn :=
  match turns with t :: turns' => (t, turns') | [] => (mkTurn [] Answered, []) end.

Definition stmt (s : Stmt) : M Outcome := fun '(d, turns) =>
  let '(t, turns') := next_turn turns in
  let d := run (others t) d in
  match fault t with
  | Answered => let '(d', o) := exec s d in (Ok o, (d', turns'))
  | Lost => (Err Unavailable, (d, turns'))
  | AnswerLost => (Err Unavailable, (fst (exec s d), turns'))
  end.

Definition query {A} (f : Db -> A) : M A := fun '(d, turns) =>
  let '(t, turns') := next_turn turns in
  let d := run (others t) d in
  match fault t with
  | Answered => (Ok (f d), (d, turns'))
  | _ => (Err Unavailable, (d, turns'))
  end.

Definition affected (o : Outcome) : nat := match o with Affected n => n | _ => 0 end.

Definition save_tunnel (record : StoredTunnel) (revision now : Z) : M Z :=
  if revision =? 0 then
    o <-- stmt (SInsertTunnel record now);;
    match o with Duplicate => fail Conflict | _ => ret 1 end
  else
    o <-- stmt (SUpdateTunnel record revision now);;
    if (affected o =? 0)%nat then fail Conflict else ret (revision + 1).

Record Loaded := mkLoaded { l_record : StoredTunnel; l_revision : Z }.
Record AttachSnapshot := mkAttachSnapshot { loaded : Loaded; alarm : option Z }.

Definition read_tunnel (id : string) (d : Db) : option AttachSnapshot :=
  (fun row => mkAttachSnapshot (mkLoaded (t_record row) (t_revision row)) (t_alarm_at row)) <$> tunnels d !! id.

Definition tunnel_with_alarm (id : string) : M (option AttachSnapshot) := query (read_tunnel id).
Definition tunnel (id : string) : M (option Loaded) :=
  s <-- tunnel_with_alarm id;; ret (loaded <$> s).

Definition set_alarm (id : string) (at_ : option Z) : M unit :=
  _ <-- stmt (SSetAlarm id at_);; ret tt.

Definition get_alarm (id : string) : M (option Z) :=
  query (fun d => let* row := tunnels d !! id in t_alarm_at row).

Definition alarms (d : Db) : list (string * Z) :=
  omap (fun kv => (fun a => (kv.1, a)) <$> t_alarm_at kv.2) (map_to_list (tunnels d)).

Definition ALARM_LIMIT : nat := 500.

(** How many of the rows, in order, are due. *)
Fixpoint due_prefix (now : Z) (l : list (string * Z)) : nat :=
  match l with
  | [] => 0
  | (_, a) :: l' => if now <? a then 0 else S (due_prefix now l')
  end.

Fixpoint clear_alarms (due : list (string * Z)) : M (list string) :=
  match due with
  | [] => ret []
  | (id, alarm) :: due' =>
      o <-- stmt (SClearAlarm id alarm);;
      taken <-- clear_alarms due';;
      ret (if (affected o =? 1)%nat then id :: taken else taken)
  end.

(** [ORDER BY alarm_at LIMIT n]: a stable order of the rows with an alarm. *)
Definition take_due_alarms_and_next (now : Z) : M (list string * option Z) :=
  due <-- query (fun d => take (S ALARM_LIMIT) (sort_by snd (alarms d)));;
  let later := Nat.min (due_prefix now due) ALARM_LIMIT in
  let next := (fun ia => Z.max (snd ia) now) <$> due !! later in
  taken <-- clear_alarms (take later due);;
  ret (taken, next).

Definition take_due_alarms (now : Z) : M (list string) :=
  r <-- take_due_alarms_and_next now;; ret (fst r).

Definition issuing_tunnels : M (list StoredTunnel) :=
  query (fun d => map (fun kv => t_record kv.2)
                    (filter (fun kv => t_issuing kv.2 = true /\ t_deleted kv.2 = false) (map_to_list (tunnels d)))).

(** [try_import]; [import_tunnel] repeats it while it fails with a duplicate, lock timeout or deadlock, none of
    which [Unavailable] stands for. *)
Definition import_tunnel (record : StoredTunnel) (alarm : option Z) (force : bool) (now : Z) : M ImportOutcome :=
  o <-- stmt (SImportInsert record alarm now);;
  match o with
  | Duplicate =>
      o <-- stmt (SImportUpdate record alarm force now);;
      match o with Imported i => ret i | _ => fail Unavailable end
  | _ => ret Inserted
  end.

Record Job := mkJob {
  jb_certificate_id : string;
  jb_tunnel_id : option string;
  jb_kind : JobKind;
  jb_identifiers : list string;
  jb_csr : string;
  jb_attempts : Z;
  jb_created_at : Z;
}.

Definition add_job (job : Job) (run_at : Z) : M bool :=
  o <-- stmt (SInsertJob (jb_certificate_id job)
         (mkJobRow (jb_tunnel_id job) (kind_str (jb_kind job)) (jb_identifiers job) (jb_csr job) Pending (jb_attempts job)
            run_at None None None (jb_created_at job) (jb_created_at job)));;
  ret (match o with Duplicate => false | _ => true end).

Definition job_status (id : string) : M (option JobStatus) := query (fun d => j_status <$> jobs d !! id).
Definition job_exists (id : string) : M bool := s <-- job_status id;; ret (bool_decide (s <> None)).
Definition job_pending (id : string) : M bool := s <-- job_status id;; ret (bool_decide (s = Some Pending)).
Definition pending_jobs : M Z :=
  query (fun d => Z.of_nat (length (filter (fun kv => j_status kv.2 = Pending) (map_to_list (jobs d))))).

(** [leased_job_identifiers]: the names of every job with an unexpired lease. *)
Definition leased_job_identifiers (now : Z) : M (list string) :=
  query (fun d => concat (map (fun kv => j_identifiers kv.2)
    (filter (fun kv => j_status kv.2 = Pending /\ lease_free now kv.2 = false) (map_to_list (jobs d))))).

Definition job_from_row (id : string) (row : JobRow) : Job :=
  mkJob id (j_tunnel_id row) (kind_parse (j_kind row)) (j_identifiers row) (j_csr row) (Z.max (j_attempts row) 0)
    (j_created_at row).

Definition claim_job (id owner : string) (now : Z) : M (option Job) :=
  o <-- stmt (SClaimJob id owner now);;
  if (affected o =? 0)%nat then ret None
  else query (fun d => let* row := jobs d !! id in
                       if owned_by owner row then Some (job_from_row id row) else None).

Definition extend_lease (id owner : string) (now : Z) : M bool :=
  o <-- stmt (SExtendLease id owner now);; ret (affected o =? 1)%nat.
Definition release_leases (owner : string) : M unit := _ <-- stmt (SReleaseLeases owner);; ret tt.
Definition finish_job (id owner : string) (status : JobStatus) (error : option string) (now : Z) : M bool :=
  o <-- stmt (SFinishJob id owner status error now);; ret (affected o =? 1)%nat.
Definition retry_job (id owner : string) (attempts run_at : Z) (error : string) (now : Z) : M bool :=
  o <-- stmt (SRetryJob id owner attempts run_at error now);; ret (affected o =? 1)%nat.
Definition requeue_job_queued_before (id : string) (before now : Z) : M bool :=
  o <-- stmt (SRequeueBefore id before now);; ret (affected o =? 1)%nat.
Definition requeue_failed_job (id : string) (now : Z) : M bool :=
  o <-- stmt (SRequeueFailed id now);; ret (affected o =? 1)%nat.

(** When [owner] may take a job. *)
Definition ready_at (owner : string) (row : JobRow) : Z :=
  Z.max (j_run_at row)
    (match j_lease_until row with
     | None => 0
     | Some until => if owned_by owner row then 0 else until + 1
     end).

(** [ORDER BY ready_at > now, kind = 'issue', ready_at]: the three keys, most significant last. *)
Definition schedule_order (owner : string) (now : Z) (l : list (string * JobRow)) : list (string * JobRow) :=
  sort_by (fun kv => if now <? ready_at owner kv.2 then 1 else 0)
    (sort_by (fun kv => if String.eqb (j_kind kv.2) "issue" then 1 else 0)
       (sort_by (fun kv => ready_at owner kv.2) l)).

Definition job_schedule (owner : string) (now : Z) (limit : nat) : M (list (string * Z * JobKind)) :=
  query (fun d => map (fun kv => (kv.1, Z.max (ready_at owner kv.2) 0, kind_parse (j_kind kv.2)))
    (take limit (schedule_order owner now (filter (fun kv => j_status kv.2 = Pending) (map_to_list (jobs d)))))).

(** ** Rate limits: [take_rate] *)

Record Rate := mkRate { interval_ms : Z; tolerance_ms : Z }.
Inductive Verdict := Allowed | Limited (retry_after_ms : Z).

(** A request as the statements it sends, each chosen by what those before answered; reads see the database of their moment. *)
Inductive Prog (A : Type) :=
| PRet (a : A)
| PStmt (s : Stmt) (k : Outcome -> Prog A)
| PRead (k : Db -> Prog A).
#[global] Arguments PRet {A} a.
#[global] Arguments PStmt {A} s k.
#[global] Arguments PRead {A} k.

(** The request as an operation of this file, with the others' statements in its turns. *)
Fixpoint interp {A} (p : Prog A) : M A :=
  match p with
  | PRet a => ret a
  | PStmt s k => o <-- stmt s;; interp (k o)
  | PRead k => d <-- query (fun d => d);; interp (k d)
  end.

Fixpoint take_rate_loop (tries : nat) (name : string) (now : Z) (rate : Rate) : Prog Verdict :=
  match tries with
  | O =>
      PRead (fun d =>
        PRet (Limited (Z.max (match rate_limits d !! name with Some tat => tat - tolerance_ms rate - now | None => 0 end) 1)))
  | S tries' =>
      PStmt (STakeRate name now (interval_ms rate) (tolerance_ms rate)) (fun o =>
        if (affected o =? 1)%nat then PRet Allowed
        else
          PStmt (SInsertRate name (now + interval_ms rate)) (fun o =>
            match o with
            | Duplicate => take_rate_loop tries' name now rate
            | _ => PRet Allowed
            end))
  end.

Definition take_rate (name : string) (now : Z) (rate : Rate) : M Verdict := interp (take_rate_loop 2 name now rate).
Definition prune_rate_limits (now : Z) (chosen : list string) : M Z :=
  o <-- stmt (SPruneRates now chosen);; ret (Z.of_nat (affected o)).

(** ** Server certificates and meta *)

Definition server_certificate (name : string) : M (option ServerCertificate) :=
  query (fun d => server_certificates d !! name).
Definition create_server_certificate (name : string) (row : ServerCertificate) : M ServerCertificate :=
  _ <-- stmt (SInsertServerCertificate name row);;
  c <-- server_certificate name;;
  match c with Some c => ret c | None => fail Disappeared end.
Definition save_server_certificate (name : string) (row : ServerCertificate) : M unit :=
  _ <-- stmt (SSaveServerCertificate name row);; ret tt.

Definition get_meta (key : string) : M (option string) := query (fun d => meta d !! key).
Definition set_meta (key value : string) : M unit := _ <-- stmt (SSetMeta key value);; ret tt.
Definition swap_meta (key : string) (expected : option string) (value : string) : M bool :=
  o <-- stmt (match expected with
              | None => SInsertMeta key value
              | Some expected => SSwapMeta key expected value
              end);;
  ret (match o with Duplicate => false | o => (affected o =? 1)%nat end).

Definition deleted_tunnels (ids : list string) : M (list string) :=
  query (fun d => filter (fun id => t_deleted <$> tunnels d !! id = Some true) ids).

(** ** Lemmas on statements *)

Lemma update_where_spec {V} (m : gmap string V) key cond f m' n :
  update_where m key cond f = (m', n) ->
  (n = 1%nat /\ exists row, m !! key = Some row /\ cond row = true /\ m' = <[key := f row]> m) \/
  (n = 0%nat /\ m' = m /\ forall row, m !! key = Some row -> cond row = false).
Proof.
  unfold update_where. destruct (m !! key) as [row|] eqn:E.
  - destruct (cond row) eqn:Ec; intros [= <- <-].
    + left. split; [done|]. by exists row.
    + right. split_and!; [done|done|]. intros row' [= <-]. done.
  - intros [= <- <-]. right. split_and!; [done|done|]. intros row' [=].
Qed.

(** Splits an [UPDATE] of the goal or the context into its two cases. *)
Ltac split_update :=
  match goal with
  | H : context [update_where ?m ?k ?c ?f] |- _ =>
      let E := fresh "Eu" in destruct (update_where m k c f) as [? ?] eqn:E;
      apply update_where_spec in E as [(-> & ? & ? & ? & ->)|(-> & -> & ?)]
  | |- context [update_where ?m ?k ?c ?f] =>
      let E := fresh "Eu" in destruct (update_where m k c f) as [? ?] eqn:E;
      apply update_where_spec in E as [(-> & ? & ? & ? & ->)|(-> & -> & ?)]
  end.

Lemma run_app s1 s2 d : run (s1 ++ s2) d = run s2 (run s1 d).
Proof. unfold run. by rewrite fold_left_app. Qed.

Lemma run_cons s ss d : run (s :: ss) d = run ss (fst (exec s d)).
Proof. done. Qed.

(** A relation between databases that every statement extends. *)
Lemma run_preserves (R : Db -> Prop) stmts d :
  (forall s d, R d -> R (fst (exec s d))) -> R d -> R (run stmts d).
Proof. intros Hs. revert d. induction stmts as [|s ss IH]; intros d Hd; [done|]. rewrite run_cons. auto. Qed.

(** *** Tunnel rows: a record changes only with its revision *)

Lemma exec_tunnel s d id row :
  tunnels d !! id = Some row ->
  exists row', tunnels (fst (exec s d)) !! id = Some row' /\
    (t_revision row < t_revision row' \/ t_revision row' = t_revision row /\ t_record row' = t_record row).
Proof.
  intros Hrow.
  assert (forall id' (r : TunnelRow), (id' = id -> t_revision row < t_revision r \/
      t_revision r = t_revision row /\ t_record r = t_record row) ->
    exists row', <[id' := r]> (tunnels d) !! id = Some row' /\
      (t_revision row < t_revision row' \/ t_revision row' = t_revision row /\ t_record row' = t_record row)) as Hins.
  { intros id' r Hr. destruct (decide (id' = id)) as [->|Hne].
    - rewrite lookup_insert_eq. eexists. split; [done|]. by apply Hr.
    - rewrite lookup_insert_ne by done. exists row. auto. }
  destruct s; cbn [exec]; try (destruct (record_flags record) as [dl iss]);
    try split_update; cbn [fst set_tunnels set_jobs set_rate_limits set_meta_table set_server_certificates tunnels];
    eauto; repeat (case_split; cbn [fst set_tunnels set_jobs set_rate_limits set_meta_table set_server_certificates tunnels]);
    eauto; apply Hins; intros Hid; simplify_eq; cbn [t_revision t_record]; auto; lia.
Qed.

Lemma run_tunnel stmts d id row :
  tunnels d !! id = Some row ->
  exists row', tunnels (run stmts d) !! id = Some row' /\
    (t_revision row < t_revision row' \/ t_revision row' = t_revision row /\ t_record row' = t_record row).
Proof.
  revert d row. induction stmts as [|s ss IH]; intros d row Hrow; [cbn; eauto|]. rewrite run_cons.
  destruct (exec_tunnel s d id row Hrow) as (row1 & H1 & Hr1).
  destruct (IH _ _ H1) as (row2 & H2 & Hr2). exists row2. split; [done|].
  destruct Hr1 as [?|[E1 E2]], Hr2 as [?|[E3 E4]]; [left; lia|left; lia|left; lia|right; split; congruence].
Qed.

(** What a statement of an operation did: the statements of others, then itself. *)
Lemma stmt_Ok s d turns o d' turns' :
  stmt s (d, turns) = (Ok o, (d', turns')) ->
  exists ss, exec s (run ss d) = (d', o).
Proof.
  unfold stmt. destruct (next_turn turns) as [t ts]. destruct (fault t); [|done..].
  destruct (exec s (run (others t) d)) as [d2 o2] eqn:E. intros [= -> -> ->]. eauto.
Qed.

Lemma bind_Ok {A B} (m : M A) (k : A -> M B) w b w' :
  bind m k w = (Ok b, w') -> exists a w1, m w = (Ok a, w1) /\ k a w1 = (Ok b, w').
Proof. unfold bind. destruct (m w) as [[a|e] w1]; [|done]. eauto. Qed.

(** A save that succeeds ran at the revision it names and made the next. *)
Lemma save_tunnel_Ok record revision now d turns v d' turns' :
  save_tunnel record revision now (d, turns) = (Ok v, (d', turns')) ->
  v = revision + 1 /\
  exists ss, (revision = 0 /\ tunnels (run ss d) !! st_id record = None \/
              exists row, tunnels (run ss d) !! st_id record = Some row /\ t_revision row = revision) /\
    exists row', tunnels d' !! st_id record = Some row' /\ t_record row' = record /\ t_revision row' = revision + 1.
Proof.
  unfold save_tunnel. destruct (revision =? 0) eqn:E0; bsimp.
  - intros H. apply bind_Ok in H as (o & [d1 t1] & Hs & Hk). apply stmt_Ok in Hs as [ss Hs].
    cbn [exec] in Hs. destruct (tunnels (run ss d) !! st_id record) eqn:El; [by simplify_eq|].
    destruct (record_flags record) as [dl iss]. injection Hs as <- <-. cbn in Hk. injection Hk as <- <- <-.
    split; [lia|]. exists ss. split; [by left|]. eexists. cbn. rewrite lookup_insert_eq. split_and!; [done|done|cbn; lia].
  - intros H. apply bind_Ok in H as (o & [d1 t1] & Hs & Hk). apply stmt_Ok in Hs as [ss Hs].
    cbn [exec] in Hs. destruct (record_flags record) as [dl iss].
    split_update; injection Hs as <- <-; cbn in Hk; [|done]. injection Hk as <- <- <-. bsimp.
    split; [done|]. exists ss. split; [right; eauto|]. eexists. cbn. rewrite lookup_insert_eq. split_and!; [done|done|].
    cbn. lia.
Qed.

(** A small database for the witnesses: one tunnel and one pending job. *)
Definition sample_record : StoredTunnel :=
  mkStoredTunnel 1 "a" "a.t.test" Offline None "hash" "t" None None None None None None None.
Definition sample_job : JobRow :=
  mkJobRow (Some "a") "issue" ["a.t.test"] "csr" Pending 0 10 None None None 10 10.
Definition sample_db : Db :=
  mkDb {["a" := mkTunnelRow sample_record 3 false false (Some 50) 0 None true]} {["c" := sample_job]}
    ∅ ∅ ∅.

(** *** Leases *)

(** [owner] holds the job at least until [until]. *)
Definition holds (owner id : string) (until : Z) (d : Db) : Prop :=
  exists row v, jobs d !! id = Some row /\ j_status row = Pending /\ j_lease_owner row = Some owner /\
    j_lease_until row = Some v /\ until <= v.

(** A statement that neither gives the lease up, nor runs on a clock past it. *)
Definition keeps (owner id : string) (until : Z) (s : Stmt) : Prop :=
  match s with
  | SClaimJob id' o now => id' = id -> if decide (o = owner) then until <= now + LEASE_MS else now <= until
  | SExtendLease id' o now => id' = id -> o = owner -> until <= now + LEASE_MS
  | SReleaseLeases o => o <> owner
  | SFinishJob id' o _ _ _ | SRetryJob id' o _ _ _ _ => id' = id -> o <> owner
  | SRequeueBefore id' _ now => id' = id -> now <= until
  | _ => True
  end.

Lemma exec_holds owner id until s d :
  holds owner id until d -> keeps owner id until s -> holds owner id until (fst (exec s d)).
Proof.
  intros (row & v & Hrow & Hst & Ho & Hv & Hle) Hk.
  assert (forall m : gmap string JobRow, m !! id = Some row -> holds owner id until (set_jobs m d)) as Hsame.
  { intros m Hm. exists row, v. auto. }
  assert (forall id' (r : JobRow), (id' = id -> j_status r = Pending /\ j_lease_owner r = Some owner /\
      exists w, j_lease_until r = Some w /\ until <= w) ->
    holds owner id until (set_jobs (<[id' := r]> (jobs d)) d)) as Hins.
  { intros id' r Hr. destruct (decide (id' = id)) as [->|Hne].
    - destruct (Hr eq_refl) as (H1 & H2 & w & H3 & H4). exists r, w. cbn. by rewrite lookup_insert_eq.
    - apply Hsame. by rewrite lookup_insert_ne. }
  assert (holds owner id until d) as Hd by (exists row, v; auto).
  assert (forall o, owned_by o row = true <-> o = owner) as Hown.
  { intros o. unfold owned_by. rewrite bool_decide_eq_true, Ho. split; [by intros [= ->]|by intros ->]. }
  assert (forall now, now <= until -> lease_free now row = false) as Hfree.
  { intros now Hn. unfold lease_free. rewrite Hv. apply Z.ltb_ge. lia. }
  destruct s; cbn [exec keeps] in *; try (destruct (record_flags record) as [dl iss]);
    try split_update; cbn [fst] in *; auto; try (repeat case_split; cbn [fst]; by auto).
  - case_split; cbn [fst]; [by auto|]. apply Hins. intros ->. congruence.
  - apply Hins. intros ->. simplify_eq. bsimp. cbn [set_lease j_status j_lease_owner j_lease_until].
    specialize (Hk eq_refl). destruct (decide (owner0 = owner)) as [->|Hne]; [eauto|].
    exfalso. rewrite (Hfree now Hk) in *. cbn in *. naive_solver.
  - apply Hins. intros ->. simplify_eq. bsimp. cbn [set_lease j_status j_lease_owner j_lease_until].
    split_and!; [done|done|]. eexists. split; [done|]. apply Hk; [done|]. by apply Hown.
  - apply Hsame. rewrite lookup_fmap, Hrow. cbn.
    destruct (owned_by owner0 row) eqn:E; [|done]. by apply Hown in E.
  - apply Hins. intros ->. simplify_eq. apply Hown in H0. by destruct (Hk eq_refl).
  - apply Hins. intros ->. simplify_eq. apply Hown in H0. by destruct (Hk eq_refl).
  - apply Hins. intros ->. simplify_eq. bsimp. rewrite (Hfree now) in * by auto. done.
  - apply Hins. intros ->. simplify_eq. bsimp. congruence.
Qed.

Definition turns_keep (P : Stmt -> Prop) (turns : list Turn) : Prop :=
  Forall (fun t => Forall P (others t)) turns.

(** A property of the database that a class of statements preserves survives an operation's statement, with the
    statements of others before it. *)
Section preserve.
Context (R : Db -> Prop) (P : Stmt -> Prop).
Hypothesis Hexec : forall s d, R d -> P s -> R (fst (exec s d)).

Lemma run_keeps ss d : R d -> Forall P ss -> R (run ss d).
Proof. intros Hd Hss. revert d Hd. induction Hss as [|s ss Hs Hss IH]; intros d Hd; [done|]. rewrite run_cons. eauto. Qed.

Lemma next_turn_keeps turns t turns' :
  next_turn turns = (t, turns') -> turns_keep P turns -> Forall P (others t) /\ turns_keep P turns'.
Proof.
  unfold next_turn. destruct turns as [|t0 ts]; intros [= <- <-] H; [split; constructor|].
  by apply Forall_cons in H.
Qed.

Lemma stmt_keeps s d turns r d' turns' :
  R d -> turns_keep P turns -> P s -> stmt s (d, turns) = (r, (d', turns')) -> R d' /\ turns_keep P turns'.
Proof.
  intros Hd Ht Hs. unfold stmt. destruct (next_turn turns) as [t ts] eqn:E.
  destruct (next_turn_keeps _ _ _ E Ht) as [Ho Hts]. pose proof (run_keeps _ _ Hd Ho) as Hr.
  destruct (fault t).
  - destruct (exec s (run (others t) d)) as [d2 o2] eqn:Ex. intros [= <- <- <-]. split; [|done].
    specialize (Hexec s _ Hr Hs). by rewrite Ex in Hexec.
  - by intros [= <- <- <-].
  - intros [= <- <- <-]. auto.
Qed.

Lemma query_keeps {A} (f : Db -> A) d turns r d' turns' :
  R d -> turns_keep P turns -> query f (d, turns) = (r, (d', turns')) ->
  R d' /\ turns_keep P turns' /\ (forall a, r = Ok a -> a = f d').
Proof.
  intros Hd Ht. unfold query. destruct (next_turn turns) as [t ts] eqn:E.
  destruct (next_turn_keeps _ _ _ E Ht) as [Ho Hts]. pose proof (run_keeps _ _ Hd Ho) as Hr.
  destruct (fault t); intros [= <- <- <-]; split_and!; try done; by intros a [= <-].
Qed.
End preserve.

(** A statement that was answered ran after the statements of others in its turn. *)
Lemma stmt_answer P s d turns o d' turns' :
  turns_keep P turns -> stmt s (d, turns) = (Ok o, (d', turns')) ->
  exists ss, Forall P ss /\ exec s (run ss d) = (d', o) /\ turns_keep P turns'.
Proof.
  intros Ht. unfold stmt. destruct (next_turn turns) as [t ts] eqn:E.
  destruct (next_turn_keeps _ _ _ _ E Ht) as [Ho Hts].
  destruct (fault t); [|done..]. destruct (exec s (run (others t) d)) as [d2 o2] eqn:Ex.
  intros [= <- <- <-]. eauto.
Qed.

(** *** Alarms *)

Definition no_alarm (id : string) (d : Db) : Prop :=
  forall row, tunnels d !! id = Some row -> t_alarm_at row = None.

Definition leaves_alarm (id : string) (s : Stmt) : Prop :=
  match s with
  | SSetAlarm id' (Some _) => id' <> id
  | SImportInsert record (Some _) _ | SImportUpdate record (Some _) _ _ => st_id record <> id
  | _ => True
  end.

Lemma exec_no_alarm id s d : no_alarm id d -> leaves_alarm id s -> no_alarm id (fst (exec s d)).
Proof.
  intros Hd Hs.
  assert (forall id' (r : TunnelRow), (id' = id -> t_alarm_at r = None) ->
    no_alarm id (set_tunnels (<[id' := r]> (tunnels d)) d)) as Hins.
  { intros id' r Hr row. cbn. destruct (decide (id' = id)) as [->|Hne].
    - rewrite lookup_insert_eq. intros [= <-]. auto.
    - rewrite lookup_insert_ne by done. apply Hd. }
  destruct s; cbn [exec leaves_alarm] in *; try (destruct (record_flags record) as [dl iss]);
    try split_update; cbn [fst]; try done; try (repeat case_split; cbn [fst]; done).
  - case_split; cbn [fst]; [done|]. by apply Hins.
  - apply Hins. intros <-. cbn. by apply Hd.
  - apply Hins. intros <-. cbn. destruct at_; [done|done].
  - apply Hins. done.
  - case_split; cbn [fst]; [done|]. apply Hins. intros <-. cbn. by destruct alarm0.
  - case_split; cbn [fst]; [|done]. case_split; cbn [fst]; [done|]. case_split; cbn [fst]; [done|].
    apply Hins. intros <-. cbn. by destruct alarm0.
Qed.

Lemma clear_alarms_keeps id due : forall d turns r d' turns',
  no_alarm id d -> turns_keep (leaves_alarm id) turns -> clear_alarms due (d, turns) = (Ok r, (d', turns')) ->
  no_alarm id d' /\ turns_keep (leaves_alarm id) turns' /\ (id ∉ r).
Proof.
  induction due as [|[i a] due IH]; intros d turns r d' turns' Hd Ht H.
  - cbn in H. injection H as <- <- <-. split_and!; [done|done|apply not_elem_of_nil].
  - cbn [clear_alarms] in H. apply bind_Ok in H as (o & [d1 t1] & Hs & H).
    apply bind_Ok in H as (taken & [d2 t2] & Hc & H). cbn in H. injection H as <- <- <-.
    destruct (stmt_answer _ _ _ _ _ _ _ Ht Hs) as (ss & Hss & Hex & Ht1).
    pose proof (run_keeps _ _ (exec_no_alarm id) ss d Hd Hss) as Hr.
    assert (no_alarm id d1) as Hd1.
    { pose proof (exec_no_alarm id (SClearAlarm i a) _ Hr I) as Hx. by rewrite Hex in Hx. }
    destruct (IH _ _ _ _ _ Hd1 Ht1 Hc) as (H1 & H2 & H3). split_and!; [done|done|].
    case_split; [|done]. bsimp. apply not_elem_of_cons. split; [|done]. intros ->.
    cbn [exec] in Hex. split_update; injection Hex as <- <-; [|done].
    match goal with Hl : tunnels _ !! _ = Some _ |- _ => apply Hr in Hl; bsimp; congruence end.
Qed.

Lemma clear_alarms_taken id due : forall d turns r d' turns',
  turns_keep (leaves_alarm id) turns -> clear_alarms due (d, turns) = (Ok r, (d', turns')) -> id ∈ r ->
  no_alarm id d' /\ turns_keep (leaves_alarm id) turns'.
Proof.
  induction due as [|[i a] due IH]; intros d turns r d' turns' Ht H Hin.
  - cbn in H. injection H as <- <- <-. by apply not_elem_of_nil in Hin.
  - cbn [clear_alarms] in H. apply bind_Ok in H as (o & [d1 t1] & Hs & H).
    apply bind_Ok in H as (taken & [d2 t2] & Hc & H). cbn in H. injection H as <- <- <-.
    destruct (stmt_answer _ _ _ _ _ _ _ Ht Hs) as (ss & Hss & Hex & Ht1).
    destruct (decide (id ∈ taken)) as [Hin'|Hnin]; [by eapply IH|].
    destruct ((affected o =? 1)%nat) eqn:E; [|done]. apply elem_of_cons in Hin as [->|?]; [|done]. bsimp.
    assert (no_alarm i d1) as Hd1.
    { cbn [exec] in Hex. split_update; injection Hex as <- <-; [|done]. intros row. cbn.
      rewrite lookup_insert_eq. by intros [= <-]. }
    destruct (clear_alarms_keeps _ _ _ _ _ _ _ Hd1 Ht1 Hc) as (? & ? & _). done.
Qed.

(** ** The properties *)

(** What a save at a revision did, by the outcome of its statement. *)
Lemma save_tunnel_update record revision now d turns :
  revision <> 0 ->
  let t := fst (next_turn turns) in
  let d1 := run (others t) d in
  let w := save_tunnel record revision now (d, turns) in
  (fault t <> Answered /\ fst w = Err Unavailable) \/
  (exists row row', fault t = Answered /\ tunnels d1 !! st_id record = Some row /\ t_revision row = revision /\
     fst w = Ok (revision + 1) /\ tunnels (fst (snd w)) = <[st_id record := row']> (tunnels d1) /\
     t_record row' = record /\ t_revision row' = revision + 1 /\ t_alarm_at row' = t_alarm_at row) \/
  (fault t = Answered /\ fst w = Err Conflict /\ fst (snd w) = d1 /\
     forall row, tunnels d1 !! st_id record = Some row -> t_revision row <> revision).
Proof.
  intros Hrev. unfold save_tunnel. rewrite (proj2 (Z.eqb_neq _ _) Hrev). unfold bind, stmt.
  destruct (next_turn turns) as [t ts]. cbn [fst snd]. destruct (fault t); cbn [fst snd]; [right|by left|by left].
  cbn [exec]. destruct (record_flags record) as [dl iss]. split_update; cbn [affected Nat.eqb ret fail fst snd]; bsimp.
  - left. eexists _, _. cbn [set_tunnels tunnels]. split_and!; [done|done|done|done|reflexivity|done|cbn; lia|done].
  - right. split_and!; [done|done|by destruct (run (others t) d)|]. intros row Hrow Hr. subst revision.
    match goal with Hn : forall row, _ -> _ = false |- _ => specialize (Hn _ Hrow); cbn in Hn end. bsimp. lia.
Qed.

(** A row at the revision of an earlier moment is that moment's, and so it was all the time between. *)
Lemma run_unchanged pre post d id row row' :
  tunnels d !! id = Some row -> tunnels (run (pre ++ post) d) !! id = Some row' -> t_revision row' = t_revision row ->
  exists r, tunnels (run pre d) !! id = Some r /\ t_record r = t_record row /\ t_revision r = t_revision row.
Proof.
  intros H0 H1 Hrev. destruct (run_tunnel pre d id row H0) as (r & Hr & Hcase). exists r. split; [done|].
  rewrite run_app in H1. destruct (run_tunnel post _ id r Hr) as (r2 & Hr2 & Hcase2). rewrite H1 in Hr2. injection Hr2 as <-.
  destruct Hcase as [?|[? ?]], Hcase2 as [?|[? ?]]; (split; [congruence || lia|lia]).
Qed.

(** C3: saving a tunnel is an atomic read-modify-write. Let [ss] be every statement of any server between the read and the save's own
    statement. A save at the revision the read returned succeeds only if the record was the one that was read at every moment of [ss];
    it then replaces that row alone by the new record at the next revision, and no save at the old revision succeeds ever after. It
    reports a conflict only when somebody did change the record, and has then done nothing; otherwise its statement was not answered. *)
Theorem save_tunnel_atomic d snapshot between record now turns r d' turns' :
  read_tunnel (st_id record) d = Some snapshot ->
  l_revision (loaded snapshot) <> 0 ->
  save_tunnel record (l_revision (loaded snapshot)) now (run between d, turns) = (r, (d', turns')) ->
  let ss := between ++ others (fst (next_turn turns)) in
  match r with
  | Ok v =>
      v = l_revision (loaded snapshot) + 1 /\
      (forall pre post, ss = pre ++ post -> exists row, tunnels (run pre d) !! st_id record = Some row /\
         t_record row = l_record (loaded snapshot) /\ t_revision row = l_revision (loaded snapshot)) /\
      (exists row', tunnels d' = <[st_id record := row']> (tunnels (run ss d)) /\ t_record row' = record /\ t_revision row' = v) /\
      (forall between' record' now' turns2 v' w, st_id record' = st_id record ->
         save_tunnel record' (l_revision (loaded snapshot)) now' (run between' d', turns2) <> (Ok v', w))
  | Err Conflict =>
      d' = run ss d /\ exists row, tunnels d' !! st_id record = Some row /\ l_revision (loaded snapshot) < t_revision row
  | Err _ => fault (fst (next_turn turns)) <> Answered
  end.
Proof.
  intros Hread Hrev Hsave ss. unfold read_tunnel in Hread.
  destruct (tunnels d !! st_id record) as [row0|] eqn:E0; [|done]. cbn in Hread. injection Hread as <-. cbn [loaded l_revision l_record] in *.
  pose proof (save_tunnel_update record (t_revision row0) now (run between d) turns Hrev) as Hcase. rewrite Hsave in Hcase. cbn zeta in Hcase.
  rewrite <- run_app in Hcase. fold ss in Hcase. cbn [fst snd] in Hcase.
  destruct Hcase as [[Hf ->]|[(row & row' & Hf & Hrow & Hr & -> & Hd' & Hrec & Hr' & _)|(Hf & -> & -> & Hno)]]; [done| |].
  - split_and!; [done| |by exists row'|].
    + intros pre post Hss. rewrite Hss in Hrow. by eapply run_unchanged.
    + intros between' record' now' turns2 v' [d2 t2] Hid H2.
      pose proof (save_tunnel_update record' (t_revision row0) now' (run between' d') turns2 Hrev) as Hcase. rewrite H2 in Hcase.
      cbn [fst snd] in Hcase. rewrite Hid, <- run_app in Hcase.
      assert (tunnels d' !! st_id record = Some row') as Hl by (rewrite Hd'; apply lookup_insert_eq).
      destruct (run_tunnel (between' ++ others (next_turn turns2).1) d' _ _ Hl) as (r2 & Hr2 & Hc).
      destruct Hcase as [[_ ?]|[(row2 & _ & _ & Hrow2 & Hrev2 & _)|(_ & ? & _)]]; [done| |done].
      rewrite Hr2 in Hrow2. injection Hrow2 as <-. destruct Hc as [?|[? _]]; lia.
  - split; [done|]. destruct (run_tunnel ss d _ _ E0) as (r2 & Hr2 & Hc). exists r2. split; [done|].
    specialize (Hno _ Hr2). destruct Hc as [?|[? _]]; [done|lia].
Qed.

Lemma save_tunnel_atomic_witness :
  exists row', tunnels (fst (exec (SUpdateTunnel sample_record 3 9) (run [SSetAlarm "a" None] sample_db))) =
      <["a" := row']> (tunnels (run [SSetAlarm "a" None] sample_db)) /\
    t_record row' = sample_record /\ t_revision row' = 4.
Proof.
  destruct (save_tunnel_atomic sample_db (mkAttachSnapshot (mkLoaded sample_record 3) (Some 50)) [] sample_record 9
    [mkTurn [SSetAlarm "a" None] Answered] (Ok 4) (fst (exec (SUpdateTunnel sample_record 3 9) (run [SSetAlarm "a" None] sample_db))) []
    eq_refl ltac:(done) eq_refl) as (_ & _ & H & _).
  exact H.
Defined.

(** C5: a job lease excludes every other server. After a server claims a job, no other server's claim of it
    succeeds on a clock within the lease, whatever runs in between that does not give the lease up. *)
Theorem lease_exclusive d id owner now turns job d1 turns1 between other now2 turns2 job2 w :
  claim_job id owner now (d, turns) = (Ok (Some job), (d1, turns1)) ->
  turns_keep (keeps owner id (now + LEASE_MS)) turns ->
  Forall (keeps owner id (now + LEASE_MS)) between ->
  other <> owner -> now2 <= now + LEASE_MS -> turns_keep (keeps owner id (now + LEASE_MS)) turns2 ->
  claim_job id other now2 (run between d1, turns2) <> (Ok (Some job2), w).
Proof.
  intros Hc Ht Hb Hne Hnow Ht2 Hc2. set (until := now + LEASE_MS) in *.
  assert (forall s d, holds owner id until d -> keeps owner id until s -> holds owner id until (fst (exec s d))) as Hex
    by (intros; by apply exec_holds).
  assert (holds owner id until d1) as H1.
  { unfold claim_job in Hc. apply bind_Ok in Hc as (o & [da ta] & Hs & Hk).
    destruct (stmt_answer _ _ _ _ _ _ _ Ht Hs) as (ss & Hss & He & Hta).
    cbn [exec] in He. split_update; injection He as <- <-; cbn [affected Nat.eqb] in Hk; [|done].
    eapply (query_keeps _ _ Hex) in Hk as (H1 & _ & _); [done| |done].
    eexists _, until. cbn. rewrite lookup_insert_eq. bsimp. by split_and!. }
  pose proof (run_keeps _ _ Hex between d1 H1 Hb) as H2.
  unfold claim_job in Hc2. apply bind_Ok in Hc2 as (o & [da ta] & Hs & Hk).
  destruct (stmt_answer _ _ _ _ _ _ _ Ht2 Hs) as (ss & Hss & He & Hta).
  destruct (run_keeps _ _ Hex ss _ H2 Hss) as (row & v & Hrow & _ & Ho & Hv & Hle).
  cbn [exec] in He. split_update; injection He as <- <-; cbn [affected Nat.eqb] in Hk; [|done].
  simplify_eq. bsimp. unfold lease_free, owned_by in *. rewrite Hv, Ho in *.
  rewrite (proj2 (Z.ltb_ge v now2)) in * by lia. cbn [orb] in *. bsimp. congruence.
Qed.

Lemma lease_exclusive_witness :
  claim_job "c" "s2" 100 (fst (exec (SClaimJob "c" "s1" 60) sample_db), [])
  <> (Ok (Some (job_from_row "c" sample_job)), (sample_db, [])).
Proof.
  apply (lease_exclusive sample_db "c" "s1" 60 [] (job_from_row "c" sample_job)
    (fst (exec (SClaimJob "c" "s1" 60) sample_db)) [] [] "s2" 100 [] (job_from_row "c" sample_job) (sample_db, []));
    [vm_compute; reflexivity|constructor|constructor|done|unfold LEASE_MS; lia|constructor].
Defined.

(** an alarm fires once across all servers. Once a server has taken a tunnel's alarm, no server takes it again
    until somebody sets it anew, however their statements interleave. *)
Theorem alarm_taken_once d now turns taken d1 turns1 between now2 turns2 taken2 w id :
  take_due_alarms now (d, turns) = (Ok taken, (d1, turns1)) ->
  turns_keep (leaves_alarm id) turns -> Forall (leaves_alarm id) between -> turns_keep (leaves_alarm id) turns2 ->
  take_due_alarms now2 (run between d1, turns2) = (Ok taken2, w) ->
  id ∈ taken -> id ∉ taken2.
Proof.
  intros Htake Ht Hb Ht2 Htake2 Hin.
  assert (forall d now turns taken d1 turns1, take_due_alarms now (d, turns) = (Ok taken, (d1, turns1)) ->
    turns_keep (leaves_alarm id) turns ->
    exists due da ta, clear_alarms due (da, ta) = (Ok taken, (d1, turns1)) /\ turns_keep (leaves_alarm id) ta /\
      (no_alarm id d -> no_alarm id da)) as Hsplit.
  { clear. intros d now turns taken d1 turns1 H Ht. unfold take_due_alarms in H.
    apply bind_Ok in H as ([tk nx] & [db tb] & H & Hr). cbn in Hr. injection Hr as <- <- <-.
    unfold take_due_alarms_and_next in H. apply bind_Ok in H as (due & [dc tc] & Hq & H).
    apply bind_Ok in H as (tk' & [dd td] & Hcl & H). cbn in H. injection H as <- _ <- <-.
    eexists _, dc, tc. split; [exact Hcl|].
    destruct (query_keeps (fun _ => True) (leaves_alarm id) ltac:(done) _ _ _ _ _ _ I Ht Hq) as (_ & Htc & _).
    split; [done|]. intros Hd.
    by destruct (query_keeps _ _ (exec_no_alarm id) _ _ _ _ _ _ Hd Ht Hq) as (? & _ & _). }
  destruct (Hsplit _ _ _ _ _ _ Htake Ht) as (due & da & ta & Hcl & Hta & _).
  destruct (clear_alarms_taken id due da ta taken d1 turns1 Hta Hcl Hin) as [Hd1 _].
  pose proof (run_keeps _ _ (exec_no_alarm id) between d1 Hd1 Hb) as Hd2.
  destruct w as [d3 t3]. destruct (Hsplit _ _ _ _ _ _ Htake2 Ht2) as (due2 & da2 & ta2 & Hcl2 & Hta2 & Hda2).
  by destruct (clear_alarms_keeps id due2 da2 ta2 taken2 d3 t3 (Hda2 Hd2) Hta2 Hcl2) as (_ & _ & ?).
Qed.

Lemma alarm_taken_once_witness : "a" ∉ @nil string.
Proof.
  apply (alarm_taken_once sample_db 60 [] ["a"] (fst (exec (SClearAlarm "a" 50) sample_db)) [] [] 60 []
    [] (fst (exec (SClearAlarm "a" 50) sample_db), []) "a");
    [vm_compute; reflexivity|constructor|constructor|constructor|vm_compute; reflexivity|left].
Defined.
