(* ===== verification/StoreReads.v ===== *)
(** * StoreReads: reads of tunnels in batches, [store.rs]

    Reads of one tunnel wait in a list that up to [READ_BATCHES] tasks empty, each with one statement for up to [READ_BATCH] tunnels.
    Here a task's statements, the writes of all servers and new reads come in any order; the theorems say that a read still
    gets what [Store.tunnel_with_alarm] asks for, its own tunnel at one moment while it waited, and that none is forgotten. *)

From Stdlib Require Import ZArith Lia Ascii String List.
From stdpp Require Import base list strings gmap sorting.
From S2P Require Import Prelude Text Record Store.

(** ** The text of a statement *)

Definition QUOTE : Z := 39.
Definition BACKSLASH : Z := 92.

Definition literal_char (b : Z) : bool := is_ascii_alphanumeric b || (b =? 45) || (b =? 95) || (b =? 46) || (b =? 64).

(** [literal] *)
Definition literal (value : string) : option string :=
  if negb (str_is_empty value) && (str_len value <=? 191)%nat && forallb literal_char (as_bytes value)
  then Some (of_bytes (QUOTE :: as_bytes value ++ [QUOTE])) else None.

Definition SQL : string := "SELECT id, record, revision, alarm_at FROM tunnels WHERE id ".

(** [str::join], and the text of the statement for the tunnels that are literals. *)
Definition join_comma (l : list string) : string := String.concat "," l.
Definition batch_sql (literals : list string) : string := SQL +:+ "IN (" +:+ join_comma literals +:+ ")".

(** How the database reads a string of the text: up to the next quote; two quotes and a backslash stand for other characters. *)
Fixpoint sql_string_end (l : bytes) : option (bytes * bytes) :=
  match l with
  | [] => None
  | b :: l' =>
      if b =? QUOTE then match l' with c :: _ => if c =? QUOTE then None else Some ([], l') | [] => Some ([], []) end
      else if b =? BACKSLASH then None
      else match sql_string_end l' with Some (s, rest) => Some (b :: s, rest) | None => None end
  end.

(** The list of [IN (...)]: strings between commas up to the parenthesis. *)
Fixpoint sql_list (fuel : nat) (l : bytes) : option (list string) :=
  match fuel with
  | O => None
  | S fuel =>
      match l with
      | q :: l' =>
          if q =? QUOTE then
            match sql_string_end l' with
            | Some (s, b :: rest) =>
                if b =? 44 then match sql_list fuel rest with Some ss => Some (of_bytes s :: ss) | None => None end
                else if (b =? 41) && bool_decide (rest = []) then Some [of_bytes s] else None
            | _ => None
            end
          else None
      | [] => None
      end
  end.
Definition sql_ids (text : string) : option (list string) :=
  let* rest := str_strip_prefix (SQL +:+ "IN (") text in sql_list (S (str_len rest)) (as_bytes rest).

(** ** The waiting reads *)

Definition READ_BATCH : nat := 200.
Definition READ_BATCHES : nat := 8.

(** The error a read of a failed batch gets. *)
Inductive ReadError := ReadUnavailable.
Definition ReadResult : Type := result (option AttachSnapshot) ReadError.

(** A task of [read_batches]: at the lock, or in the middle of [read_tunnels] with the tunnels it asks for one by one and those of
    its one statement still to come, and the rows found. A read is the tunnel's ID and its channel. *)
Inductive Reader :=
| Looking
| Reading (batch : list (string * nat)) (singles listed : list string) (found : gmap string AttachSnapshot).

(** The reads, the tasks, the channels' answers; the database with the statements that ran on it, and for every read when it was
    asked for. *)
Record Reads := mkReads {
  rd_waiting : list (string * nat);
  rd_running : nat;
  rd_readers : list Reader;
  rd_answers : list (nat * ReadResult);
  rd_asked : list (string * nat * nat);
  rd_log : list Stmt;
  rd_db : Db;
}.

Definition no_reads (d : Db) : Reads := mkReads [] 0 [] [] [] [] d.

(** [read]: the push and the decision to start a task are one critical section. *)
Definition read (id : string) (s : Reads) : Reads :=
  let tx := length (rd_asked s) in
  let waiting := rd_waiting s ++ [(id, tx)] in
  let asked := rd_asked s ++ [(id, tx, length (rd_log s))] in
  if (rd_running s <? READ_BATCHES)%nat
  then mkReads waiting (S (rd_running s)) (rd_readers s ++ [Looking]) (rd_answers s) asked (rd_log s) (rd_db s)
  else mkReads waiting (rd_running s) (rd_readers s) (rd_answers s) asked (rd_log s) (rd_db s).

Definition with_reader (i : nat) (r : Reader) (s : Reads) : Reads :=
  mkReads (rd_waiting s) (rd_running s) (<[i := r]> (rd_readers s)) (rd_answers s) (rd_asked s) (rd_log s) (rd_db s).

(** The critical section of [read_batches]: the next batch, or the task's end. *)
Definition take_batch (i : nat) (s : Reads) : Reads :=
  match rd_waiting s with
  | [] => mkReads [] (rd_running s - 1) (delete i (rd_readers s)) (rd_answers s) (rd_asked s) (rd_log s) (rd_db s)
  | waiting =>
      let n := Nat.min (length waiting) READ_BATCH in
      let batch := take n waiting in
      let ids := map fst batch in
      let singles := List.filter (fun id => bool_decide (literal id = None)) ids in
      let listed := List.filter (fun id => bool_decide (literal id <> None)) ids in
      with_reader i (Reading batch singles listed ∅)
        (mkReads (drop n waiting) (rd_running s) (rd_readers s) (rd_answers s) (rd_asked s) (rd_log s) (rd_db s))
  end.

(** A batch is answered, and the task looks again. *)
Definition answer_batch (i : nat) (answers : list (nat * ReadResult)) (s : Reads) : Reads :=
  with_reader i Looking (mkReads (rd_waiting s) (rd_running s) (rd_readers s) (rd_answers s ++ answers) (rd_asked s) (rd_log s) (rd_db s)).

Definition insert_row (d : Db) (found : gmap string AttachSnapshot) (id : string) : gmap string AttachSnapshot :=
  match read_tunnel id d with Some snapshot => <[id := snapshot]> found | None => found end.

Definition finish_batch (i : nat) (batch : list (string * nat)) (found : gmap string AttachSnapshot) (s : Reads) : Reads :=
  answer_batch i (map (fun it : string * nat => (it.2, Ok (found !! it.1))) batch) s.

(** The next statement of [read_tunnels], answered or not; the reads of a batch that fails all fail. *)
Definition next_statement (i : nat) (ok : bool) (batch : list (string * nat)) (singles listed : list string) (found : gmap string AttachSnapshot) (s : Reads) : Reads :=
  if negb ok then answer_batch i (map (fun it : string * nat => (it.2, Err ReadUnavailable)) batch) s
  else
    match singles with
    | id :: singles' =>
        let found := insert_row (rd_db s) found id in
        if bool_decide (singles' = []) && bool_decide (listed = []) then finish_batch i batch found s
        else with_reader i (Reading batch singles' listed found) s
    | [] => finish_batch i batch (fold_left (insert_row (rd_db s)) listed found) s
    end.

Definition reader_step (i : nat) (ok : bool) (s : Reads) : Reads :=
  match rd_readers s !! i with
  | None => s
  | Some Looking => take_batch i s
  | Some (Reading batch singles listed found) => next_statement i ok batch singles listed found s
  end.

Inductive ReadEvent :=
| EvRead (id : string)
| EvWrite (stmt : Stmt)
| EvReader (i : nat) (ok : bool).

Definition read_step (s : Reads) (e : ReadEvent) : Reads :=
  match e with
  | EvRead id => read id s
  | EvWrite stmt => mkReads (rd_waiting s) (rd_running s) (rd_readers s) (rd_answers s) (rd_asked s) (rd_log s ++ [stmt]) (fst (exec stmt (rd_db s)))
  | EvReader i ok => reader_step i ok s
  end.

Definition run_reads (d : Db) (events : list ReadEvent) : Reads := fold_left read_step events (no_reads d).

(** [sort_unstable] and [dedup] of the literals. *)
Fixpoint dedup (l : list string) : list string :=
  match l with
  | x :: l' => match l' with y :: _ => if String.eqb x y then dedup l' else x :: dedup l' | [] => [x] end
  | [] => []
  end.
Definition sorted_literals (ids : list string) : list string := dedup (merge_sort String.le (omap literal ids)).

(** ** The statement asks for the tunnels of the batch *)

Definition quoted (v : string) : string := of_bytes (QUOTE :: as_bytes v ++ [QUOTE]).

Lemma as_bytes_quoted v : as_bytes (quoted v) = QUOTE :: as_bytes v ++ [QUOTE].
Proof. unfold quoted. apply as_of_bytes. constructor; [done|]. apply Forall_app. split; [apply as_bytes_ok|]. by repeat constructor. Qed.

Lemma literal_Some v t : literal v = Some t -> t = quoted v /\ Forall (fun b => literal_char b = true) (as_bytes v).
Proof. unfold literal. case_split; [|done]. intros [= <-]. bsimp. split; [done|]. apply Forall_forall. intros b Hb. rewrite forallb_forall in *. by match goal with H : forall x, In x _ -> literal_char x = true |- _ => apply H, list_elem_of_In end. Qed.

Lemma sql_string_end_literal l b rest :
  Forall (fun b => literal_char b = true) l -> b <> QUOTE -> sql_string_end (l ++ QUOTE :: b :: rest) = Some (l, b :: rest).
Proof.
  induction 1 as [|x l Hx Hl IH]; intros Hb; cbn [app sql_string_end].
  - rewrite Z.eqb_refl, (proj2 (Z.eqb_neq b QUOTE)) by done. done.
  - assert (x <> QUOTE /\ x <> BACKSLASH) as [Hq Hs].
    { unfold literal_char, is_ascii_alphanumeric, is_ascii_lowercase, is_ascii_uppercase, is_ascii_digit, QUOTE, BACKSLASH in *. split; intros ->; discriminate Hx. }
    rewrite (proj2 (Z.eqb_neq _ _) Hq), (proj2 (Z.eqb_neq _ _) Hs). by rewrite IH.
Qed.

Lemma join_comma_bytes x l : as_bytes (join_comma (x :: l)) = as_bytes x ++ concat (map (fun y => 44 :: as_bytes y) l).
Proof.
  unfold join_comma. revert x. induction l as [|y l IH]; intros x; [cbn; by rewrite app_nil_r|].
  change (String.concat "," (x :: y :: l)) with (x +:+ "," +:+ String.concat "," (y :: l)).
  rewrite !as_bytes_app, IH. done.
Qed.

Lemma sql_list_join vs : forall v fuel,
  Forall (fun v => Forall (fun b => literal_char b = true) (as_bytes v)) (v :: vs) -> (length vs < fuel)%nat ->
  sql_list fuel (as_bytes (join_comma (map quoted (v :: vs))) ++ [41]) = Some (v :: vs).
Proof.
  induction vs as [|w vs IH]; intros v fuel Hall Hf; (destruct fuel as [|fuel]; [cbn in Hf; lia|]);
    apply Forall_cons in Hall as [Hv Hall]; cbn [map]; rewrite join_comma_bytes, as_bytes_quoted; cbn [map concat app sql_list];
    rewrite Z.eqb_refl, <- !app_assoc; cbn [app].
  - rewrite sql_string_end_literal by done. cbn. by rewrite of_as_bytes.
  - rewrite sql_string_end_literal by done. rewrite <- ?join_comma_bytes. change (quoted w :: map quoted vs) with (map quoted (w :: vs)).
    change (44 =? 44) with true. cbn iota. rewrite IH by (try done; cbn in Hf; lia). by rewrite of_as_bytes.
Qed.

Lemma elem_of_dedup l x : x ∈ dedup l <-> x ∈ l.
Proof.
  induction l as [|y l IH]; [done|]. destruct l as [|z l]; [done|]. change (dedup (y :: z :: l)) with (if String.eqb y z then dedup (z :: l) else y :: dedup (z :: l)).
  destruct (String.eqb y z) eqn:E; [apply String.eqb_eq in E as ->; rewrite IH, (elem_of_cons (z :: l)); split; [by right|]; intros [->|?]; [by left|done]|]. by rewrite !(elem_of_cons _ _ y), IH.
Qed.

(** The text of the statement names exactly the tunnels of the batch, whatever they are called: no ID can end its literal. *)
Theorem batch_sql_exact ids :
  ids <> [] -> Forall (fun id => literal id <> None) ids -> exists vs, sql_ids (batch_sql (sorted_literals ids)) = Some vs /\ forall id, id ∈ vs <-> id ∈ ids.
Proof.
  intros Hne Hall. unfold sorted_literals. set (lits := dedup _).
  assert (forall t, t ∈ lits <-> exists v, v ∈ ids /\ literal v = Some t) as Hlits.
  { intros t. unfold lits. rewrite elem_of_dedup, merge_sort_Permutation, list_elem_of_omap. done. }
  assert (exists vs, lits = map quoted vs /\ Forall (fun v => v ∈ ids /\ Forall (fun b => literal_char b = true) (as_bytes v)) vs) as (vs & E & Hvs).
  { assert (Forall (fun t => exists v, v ∈ ids /\ literal v = Some t) lits) as Hf by (apply Forall_forall; intros t; apply Hlits).
    clearbody lits. clear Hlits. induction Hf as [|t l (v & Hv & Ht) _ (vs & -> & Hvs)]; [by exists []|].
    apply literal_Some in Ht as [-> Hc]. exists (v :: vs). split; [done|]. by constructor. }
  assert (forall id, id ∈ vs <-> id ∈ ids) as Hset.
  { intros id. split; [intros Hid; rewrite Forall_forall in Hvs; by apply Hvs|]. intros Hid. rewrite Forall_forall in Hall. pose proof (Hall _ Hid) as Hl.
    destruct (literal id) as [t|] eqn:Et; [|done]. assert (t ∈ lits) as Ht by (apply Hlits; eauto). apply literal_Some in Et as [-> _].
    rewrite E in Ht. apply list_elem_of_fmap in Ht as (v & Eq & Hv). apply (f_equal as_bytes) in Eq. rewrite !as_bytes_quoted in Eq.
    injection Eq as Eq. apply app_inj_tail in Eq as [Eq _]. apply (inj as_bytes) in Eq as ->. done. }
  exists vs. split; [|done]. destruct vs as [|v vs]; [destruct ids as [|id ids]; [done|]; exfalso; apply (not_elem_of_nil id), Hset; by left|].
  unfold sql_ids, batch_sql. rewrite E. rewrite (proj2 (str_strip_prefix_Some (SQL +:+ "IN (") _ (join_comma (map quoted (v :: vs)) +:+ ")"))) by done.
  cbn [mbind option_bind]. rewrite as_bytes_app. apply sql_list_join; [by eapply Forall_impl; [exact Hvs|intros ? [? ?]]|].
  unfold str_len. rewrite as_bytes_app, length_app. cbn [map]. rewrite join_comma_bytes, length_app. cbn [length as_bytes].
  assert (length vs <= length (concat (map (fun y => 44%Z :: as_bytes y) (map quoted vs))))%nat; [|cbn; lia].
  clear. induction vs as [|w vs IH]; cbn [map concat length app]; [lia|]. rewrite length_app. lia.
Qed.

(** ** The invariant of the reads *)

Definition reader_batch (r : Reader) : list (string * nat) := match r with Looking => [] | Reading batch _ _ _ => batch end.
(** The statements a task still has to send for its batch. *)
Definition reader_left (r : Reader) : nat :=
  match r with Looking => 0 | Reading _ singles listed _ => length singles + (if bool_decide (listed = []) then 0 else 1) end.

Section Invariant.
Context (d0 : Db).

(** The row of a tunnel at a moment between the read's request and now. *)
Definition moment (log : list Stmt) (asked : list (string * nat * nat)) (id : string) (tx : nat) (a : option AttachSnapshot) : Prop :=
  exists pos k, (id, tx, pos) ∈ asked /\ (pos <= k <= length log)%nat /\ read_tunnel id (run (take k log) d0) = a.

Definition known (asked : list (string * nat * nat)) (it : string * nat) : Prop := exists pos, (it.1, it.2, pos) ∈ asked.

Definition reader_ok (log : list Stmt) (asked : list (string * nat * nat)) (r : Reader) : Prop :=
  match r with
  | Looking => True
  | Reading batch singles listed found =>
      (length batch <= READ_BATCH)%nat /\ (0 < reader_left r)%nat /\ Forall (known asked) batch /\
      forall id tx, (id, tx) ∈ batch ->
        (forall a, found !! id = Some a -> moment log asked id tx (Some a)) /\
        ((id ∉ singles) -> (id ∉ listed) -> found !! id = None -> moment log asked id tx None)
  end.

Definition answer_ok (log : list Stmt) (asked : list (string * nat * nat)) (a : nat * ReadResult) : Prop :=
  match a.2 with Ok found => exists id, moment log asked id a.1 found | Err _ => True end.

Definition places (s : Reads) : list nat := map snd (rd_waiting s) ++ concat (map (fun r => map snd (reader_batch r)) (rd_readers s)) ++ map fst (rd_answers s).

Record reads_ok (s : Reads) : Prop := mkReadsOk {
  ok_db : rd_db s = run (rd_log s) d0;
  ok_running : rd_running s = length (rd_readers s) /\ (length (rd_readers s) <= READ_BATCHES)%nat;
  ok_wake : rd_waiting s <> [] -> rd_readers s <> [];
  ok_tokens : map (fun a : string * nat * nat => a.1.2) (rd_asked s) = seq 0 (length (rd_asked s));
  ok_times : Forall (fun a : string * nat * nat => (a.2 <= length (rd_log s))%nat) (rd_asked s);
  ok_places : places s ≡ₚ seq 0 (length (rd_asked s));
  ok_known : Forall (known (rd_asked s)) (rd_waiting s);
  ok_readers : Forall (reader_ok (rd_log s) (rd_asked s)) (rd_readers s);
  ok_answers : Forall (answer_ok (rd_log s) (rd_asked s)) (rd_answers s);
}.

Lemma moment_mono log asked more_log more id tx a : moment log asked id tx a -> moment (log ++ more_log) (asked ++ more) id tx a.
Proof.
  intros (pos & k & Hin & Hk & Ha). exists pos, k. split_and!; [apply elem_of_app; by left|lia|rewrite length_app; lia|].
  rewrite take_app_le by lia. done.
Qed.

Lemma known_mono asked more it : known asked it -> known (asked ++ more) it.
Proof. intros [pos Hp]. exists pos. apply elem_of_app. by left. Qed.

Lemma reader_ok_mono log asked more_log more r : reader_ok log asked r -> reader_ok (log ++ more_log) (asked ++ more) r.
Proof.
  destruct r as [|batch singles listed found]; [done|]. intros (Hl & Hq & Hk & Hr). split_and!; [done|done|eapply Forall_impl; [done|]; apply known_mono|].
  intros id tx Hid. destruct (Hr id tx Hid) as [H1 H2]. split; eauto using moment_mono.
Qed.

Lemma answer_ok_mono log asked more_log more a : answer_ok log asked a -> answer_ok (log ++ more_log) (asked ++ more) a.
Proof. unfold answer_ok. destruct a as [tx [found|]]; [|done]. intros [id Hm]. exists id. by apply moment_mono. Qed.

Lemma moment_now s id tx : reads_ok s -> known (rd_asked s) (id, tx) -> moment (rd_log s) (rd_asked s) id tx (read_tunnel id (rd_db s)).
Proof.
  intros Hs [pos Hp]. exists pos, (length (rd_log s)). split_and!; [done| |done|].
  - pose proof (ok_times s Hs) as Ht. rewrite Forall_forall in Ht. by apply Ht in Hp.
  - by rewrite take_ge, (ok_db s Hs) by lia.
Qed.

(** *** Reads and writes *)

Lemma read_ok id s : reads_ok s -> reads_ok (read id s).
Proof.
  intros [Hdb [Hrun Hmax] Hwake Htok Htimes Hpl Hkn Hrd Hans]. unfold read.
  assert (forall readers, Forall (reader_ok (rd_log s) (rd_asked s)) readers -> Forall (reader_ok (rd_log s) (rd_asked s ++ [(id, length (rd_asked s), length (rd_log s))])) readers) as Hrd'.
  { intros readers Hr. eapply Forall_impl; [exact Hr|]. intros r Hr'. rewrite <- (app_nil_r (rd_log s)). by apply reader_ok_mono. }
  assert (Forall (answer_ok (rd_log s) (rd_asked s ++ [(id, length (rd_asked s), length (rd_log s))])) (rd_answers s)) as Hans'.
  { eapply Forall_impl; [exact Hans|]. intros a Ha. rewrite <- (app_nil_r (rd_log s)). by apply answer_ok_mono. }
  assert (Forall (known (rd_asked s ++ [(id, length (rd_asked s), length (rd_log s))])) (rd_waiting s ++ [(id, length (rd_asked s))])) as Hkn'.
  { apply Forall_app. split; [eapply Forall_impl; [exact Hkn|]; intros; by apply known_mono|]. repeat constructor. exists (length (rd_log s)). apply elem_of_app. right. by left. }
  assert (forall readers, concat (map (fun r => map snd (reader_batch r)) readers) = concat (map (fun r => map snd (reader_batch r)) (rd_readers s)) ->
    map snd (rd_waiting s ++ [(id, length (rd_asked s))]) ++ concat (map (fun r => map snd (reader_batch r)) readers) ++ map fst (rd_answers s) ≡ₚ seq 0 (length (rd_asked s ++ [(id, length (rd_asked s), length (rd_log s))]))) as Hpl'.
  { intros readers ->. rewrite length_app, seq_app. cbn [length seq Nat.add]. rewrite <- Hpl. unfold places. rewrite map_app. cbn [map snd].
    rewrite <- !app_assoc. apply Permutation_app_head. rewrite Permutation_app_comm. cbn. by rewrite <- app_assoc. }
  destruct (rd_running s <? READ_BATCHES)%nat eqn:E; bsimp; constructor; cbn [rd_waiting rd_running rd_readers rd_answers rd_asked rd_log rd_db]; try done.
  - rewrite length_app. cbn. lia.
  - intros _ H. by destruct (rd_readers s).
  - rewrite map_app, Htok, length_app, seq_app. done.
  - apply Forall_app. split; [done|]. by repeat constructor.
  - apply Hpl'. cbn [rd_readers]. rewrite map_app, concat_app. cbn. by rewrite app_nil_r.
  - apply Forall_app. split; [by apply Hrd'|]. by repeat constructor.
  - intros _ H. rewrite H in *. cbn in *. unfold READ_BATCHES in *. lia.
  - rewrite map_app, Htok, length_app, seq_app. done.
  - apply Forall_app. split; [done|]. by repeat constructor.
  - by apply Hpl'.
  - by apply Hrd'.
Qed.

Lemma write_ok stmt s : reads_ok s -> reads_ok (read_step s (EvWrite stmt)).
Proof.
  intros [Hdb Hrun Hwake Htok Htimes Hpl Hkn Hrd Hans]. constructor; cbn [read_step rd_waiting rd_running rd_readers rd_answers rd_asked rd_log rd_db]; try done.
  - rewrite run_app, Hdb. done.
  - eapply Forall_impl; [exact Htimes|]. intros a Ha. rewrite length_app. cbn in *. lia.
  - eapply Forall_impl; [exact Hrd|]. intros r Hr. rewrite <- (app_nil_r (rd_asked s)). by apply reader_ok_mono.
  - eapply Forall_impl; [exact Hans|]. intros a Ha. rewrite <- (app_nil_r (rd_asked s)). by apply answer_ok_mono.
Qed.

(** *** The steps of a task *)

Lemma concat_batches (l1 l2 : list Reader) r :
  concat (map (fun r => map snd (reader_batch r)) (l1 ++ r :: l2)) ≡ₚ map snd (reader_batch r) ++ concat (map (fun r => map snd (reader_batch r)) (l1 ++ l2)).
Proof. rewrite !map_app, !concat_app. cbn [map concat]. apply Permutation_app_swap_app. Qed.

Lemma filter_split (ids : list string) : ids <> [] ->
  (0 < length (List.filter (fun id => bool_decide (literal id = None)) ids) +
       (if bool_decide (List.filter (fun id => bool_decide (literal id <> None)) ids = []) then 0 else 1))%nat /\
  (length (List.filter (fun id => bool_decide (literal id = None)) ids) +
       (if bool_decide (List.filter (fun id => bool_decide (literal id <> None)) ids = []) then 0 else 1) <= length ids)%nat.
Proof.
  intros Hne. assert (length ids = length (List.filter (fun id => bool_decide (literal id = None)) ids) + length (List.filter (fun id => bool_decide (literal id <> None)) ids))%nat as Hlen.
  { clear Hne. induction ids as [|id ids IH]; [done|]. cbn [List.filter]. destruct (literal id) eqn:E.
    - rewrite bool_decide_false, bool_decide_true by done. cbn. lia.
    - rewrite bool_decide_true, bool_decide_false by auto. cbn. lia. }
  assert (0 < length ids)%nat as Hpos by (destruct ids; [done|cbn; lia]). clear Hne.
  generalize dependent (List.filter (fun id => bool_decide (literal id = None)) ids). generalize dependent (List.filter (fun id => bool_decide (literal id <> None)) ids).
  intros l2 l1 Hlen. destruct l2 as [|x l2]; [rewrite bool_decide_true by done|rewrite bool_decide_false by done]; cbn in Hlen; lia.
Qed.

Lemma in_filter_split (ids : list string) id : id ∈ ids ->
  id ∈ List.filter (fun id => bool_decide (literal id = None)) ids \/ id ∈ List.filter (fun id => bool_decide (literal id <> None)) ids.
Proof.
  intros Hid. destruct (decide (literal id = None)) as [E|E]; [left|right]; apply list_elem_of_In, filter_In; (split; [by apply list_elem_of_In|by rewrite bool_decide_true]).
Qed.

Lemma take_batch_ok i s : reads_ok s -> rd_readers s !! i = Some Looking -> reads_ok (take_batch i s).
Proof.
  intros [Hdb [Hrun Hmax] Hwake Htok Htimes Hpl Hkn Hrd Hans] Hi. destruct (lookup_split _ _ _ Hi) as (l1 & l2 & El & Hins & Hdel).
  unfold take_batch. destruct (rd_waiting s) as [|w ws] eqn:Ew.
  - constructor; cbn [rd_waiting rd_running rd_readers rd_answers rd_asked rd_log rd_db]; try done; rewrite ?Hdel.
    + rewrite El, length_app in *. cbn in *. rewrite ?length_app. lia.
    + rewrite <- Hpl. unfold places. cbn [rd_waiting rd_readers rd_answers]. rewrite Ew, El, concat_batches. done.
    + rewrite El in Hrd. apply Forall_app in Hrd as [H1 H2]. apply Forall_cons in H2 as [_ H2]. by apply Forall_app.
  - set (waiting := w :: ws) in *. set (n := Nat.min (length waiting) READ_BATCH). set (batch := take n waiting).
    assert (0 < n <= READ_BATCH)%nat as Hn by (unfold n, waiting, READ_BATCH; cbn [length]; lia).
    assert (batch <> []) as Hb by (unfold batch, waiting; destruct n; [lia|done]).
    rewrite <- (take_drop n waiting) in Hkn. apply Forall_app in Hkn as [Hkb Hkd].
    constructor; cbn [with_reader rd_waiting rd_running rd_readers rd_answers rd_asked rd_log rd_db]; try done; rewrite ?Hins.
    + rewrite El, length_app in *. cbn in *. rewrite ?length_app. cbn. lia.
    + intros _ H. by destruct l1.
    + rewrite <- Hpl. unfold places. cbn [with_reader rd_waiting rd_readers rd_answers]. rewrite Hins, El, !concat_batches, Ew. cbn [reader_batch map app].
      generalize (concat (map (fun r => map snd (reader_batch r)) (l1 ++ l2))). intros rest. rewrite <- (take_drop n waiting) at 2. fold batch. rewrite map_app, <- !app_assoc. apply Permutation_app_swap_app.
    + rewrite El in Hrd. apply Forall_app in Hrd as [H1 H2]. apply Forall_cons in H2 as [_ H2]. apply Forall_app. split; [done|]. constructor; [|done].
      destruct (filter_split (map fst batch)) as [Hq _]; [by destruct batch|]. split_and!; [unfold batch; rewrite length_take; lia|exact Hq|done|].
      intros id tx Hin. split; [intros a; by rewrite lookup_empty|]. intros Hs Hl _. exfalso.
      destruct (in_filter_split (map fst batch) id) as [?|?]; [by apply (list_elem_of_fmap_2 fst _ (id, tx))|done|done].
Qed.

Lemma answer_batch_ok i batch singles listed found answers s :
  reads_ok s -> rd_readers s !! i = Some (Reading batch singles listed found) -> map fst answers = map snd batch ->
  Forall (answer_ok (rd_log s) (rd_asked s)) answers -> reads_ok (answer_batch i answers s).
Proof.
  intros [Hdb [Hrun Hmax] Hwake Htok Htimes Hpl Hkn Hrd Hans] Hi Htx Ha. destruct (lookup_split _ _ _ Hi) as (l1 & l2 & El & Hins & _).
  constructor; cbn [answer_batch with_reader rd_waiting rd_running rd_readers rd_answers rd_asked rd_log rd_db]; try done; rewrite ?Hins.
  - rewrite El, length_app in *. cbn in *. rewrite ?length_app. cbn. lia.
  - intros _ H. by destruct l1.
  - rewrite <- Hpl. unfold places. cbn [answer_batch with_reader rd_waiting rd_readers rd_answers]. rewrite Hins, El, !concat_batches. cbn [reader_batch map app].
    generalize (concat (map (fun r => map snd (reader_batch r)) (l1 ++ l2))). intros rest. rewrite map_app, Htx. apply Permutation_app_head. rewrite <- app_assoc. rewrite (Permutation_app_comm (map snd batch)), <- app_assoc. do 2 apply Permutation_app_head. done.
  - rewrite El in Hrd. apply Forall_app in Hrd as [H1 H2]. apply Forall_cons in H2 as [_ H2]. apply Forall_app. split; [done|]. by constructor.
  - by apply Forall_app.
Qed.

Lemma insert_rows_lookup d l : forall found id,
  fold_left (insert_row d) l found !! id =
  match read_tunnel id d with Some a => if decide (id ∈ l) then Some a else found !! id | None => found !! id end.
Proof.
  induction l as [|x l IH]; intros found id; cbn [fold_left].
  - by destruct (read_tunnel id d); [rewrite decide_False by (apply not_elem_of_nil)|].
  - rewrite IH. unfold insert_row. destruct (decide (id = x)) as [->|Hne].
    + destruct (read_tunnel x d) as [a|]; [|done]. rewrite (decide_True (P := x ∈ x :: l)) by (by left). rewrite lookup_insert_eq. by case_decide.
    + assert (forall a : option AttachSnapshot, match a with Some a => <[x := a]> found | None => found end !! id = found !! id) as Hf by (intros [a|]; [by rewrite lookup_insert_ne|done]).
      rewrite Hf. destruct (read_tunnel id d) as [a|]; [|done]. assert (id ∈ x :: l <-> id ∈ l) as Hiff by (rewrite elem_of_cons; tauto).
      by destruct (decide (id ∈ l)), (decide (id ∈ x :: l)); tauto || done.
Qed.

(** What is known of a batch after a statement read [l]. *)
Lemma rows_moments s batch singles listed found l :
  reads_ok s -> reader_ok (rd_log s) (rd_asked s) (Reading batch singles listed found) ->
  forall id tx, (id, tx) ∈ batch ->
    (forall a, fold_left (insert_row (rd_db s)) l found !! id = Some a -> moment (rd_log s) (rd_asked s) id tx (Some a)) /\
    (((id ∉ singles) /\ (id ∉ listed)) \/ id ∈ l -> fold_left (insert_row (rd_db s)) l found !! id = None -> moment (rd_log s) (rd_asked s) id tx None).
Proof.
  intros Hs (_ & _ & Hk & Hr) id tx Hin. destruct (Hr _ _ Hin) as [H1 H2]. rewrite Forall_forall in Hk.
  pose proof (moment_now s id tx Hs (Hk _ Hin)) as Hnow. rewrite insert_rows_lookup. destruct (read_tunnel id (rd_db s)) as [b|] eqn:E.
  - case_decide as Hl; (split; [intros a Ha|]); [by injection Ha as <-|done|by apply H1|]. intros [[? ?]|?]; [by apply H2|done].
  - split; [done|]. intros [[? ?]|_]; [by apply H2|]. done.
Qed.

Lemma finish_batch_ok i batch singles listed found l s :
  reads_ok s -> rd_readers s !! i = Some (Reading batch singles listed found) ->
  (forall id, id ∈ singles \/ id ∈ listed -> id ∈ l) ->
  reads_ok (finish_batch i batch (fold_left (insert_row (rd_db s)) l found) s).
Proof.
  intros Hs Hi Hl. eapply answer_batch_ok; [done|done|rewrite map_map; by apply map_ext|].
  pose proof (ok_readers s Hs) as Hrd. rewrite Forall_forall in Hrd. specialize (Hrd _ (list_elem_of_lookup_2 _ _ _ Hi)).
  apply Forall_forall. intros a ([id tx] & -> & Hin)%list_elem_of_fmap. cbn [answer_ok fst snd]. exists id.
  destruct (rows_moments s _ _ _ _ l Hs Hrd id tx Hin) as [H1 H2].
  destruct (fold_left _ l found !! id) as [b|] eqn:E; [by apply H1|]. apply H2; [|done].
  destruct (decide (id ∈ l)) as [|Hn]; [by right|]. left. split; intros ?; apply Hn, Hl; auto.
Qed.

Lemma next_statement_ok i ok batch singles listed found s :
  reads_ok s -> rd_readers s !! i = Some (Reading batch singles listed found) -> reads_ok (next_statement i ok batch singles listed found s).
Proof.
  intros Hs Hi. pose proof (ok_readers s Hs) as Hrd. rewrite Forall_forall in Hrd. pose proof (Hrd _ (list_elem_of_lookup_2 _ _ _ Hi)) as Hr. rewrite <- Forall_forall in Hrd.
  unfold next_statement. destruct ok; cbn [negb]; [|eapply answer_batch_ok; [done|done|rewrite map_map; by apply map_ext|]; apply Forall_forall; by intros a (it & -> & _)%list_elem_of_fmap].
  destruct singles as [|x singles].
  - apply finish_batch_ok with (singles := []) (listed := listed); [done|done|]. intros id [H|H]; [by apply elem_of_nil in H|done].
  - change (insert_row (rd_db s) found x) with (fold_left (insert_row (rd_db s)) [x] found).
    destruct (bool_decide (singles = []) && bool_decide (listed = [])) eqn:E; [bsimp; subst|].
    + apply finish_batch_ok with (singles := [x]) (listed := []); [done|done|]. intros id [H|H]; [done|by apply elem_of_nil in H].
    + destruct (lookup_split _ _ _ Hi) as (l1 & l2 & El & Hins & _). pose proof (rows_moments s _ _ _ _ [x] Hs Hr) as Hm.
      destruct Hs as [Hdb [Hrun Hmax] Hwake Htok Htimes Hpl Hkn _ Hans]. destruct Hr as (Hlen & _ & Hk & _).
      constructor; cbn [with_reader rd_waiting rd_running rd_readers rd_answers rd_asked rd_log rd_db]; try done; rewrite ?Hins.
      * rewrite El, length_app in *. cbn in *. rewrite ?length_app. cbn. lia.
      * intros _ H. by destruct l1.
      * rewrite <- Hpl. unfold places. cbn [with_reader rd_waiting rd_readers rd_answers]. rewrite Hins, El, !concat_batches. done.
      * rewrite El in Hrd. apply Forall_app in Hrd as [H1 H2]. apply Forall_cons in H2 as [_ H2]. apply Forall_app. split; [done|]. constructor; [|done].
        split_and!; [done| |done|].
        -- cbn [reader_left]. destruct singles; [|cbn; lia]. rewrite bool_decide_true in E by done. cbn in E. bsimp. rewrite bool_decide_false by done. cbn. lia.
        -- intros id tx Hin. destruct (Hm id tx Hin) as [Ha Hb]. split; [done|]. intros Hns Hnl. apply Hb.
           destruct (decide (id = x)) as [->|]; [right; by left|left]. split; [|done]. by intros [?|?]%elem_of_cons.
Qed.

Theorem read_step_ok s e : reads_ok s -> reads_ok (read_step s e).
Proof.
  intros Hs. destruct e as [id|stmt|i ok]; [by apply read_ok|by apply write_ok|]. cbn [read_step]. unfold reader_step.
  destruct (rd_readers s !! i) as [[|batch singles listed found]|] eqn:E; [by apply take_batch_ok|by apply next_statement_ok|done].
Qed.
End Invariant.

Lemma no_reads_ok d : reads_ok d (no_reads d).
Proof. constructor; cbn; try done; repeat constructor; lia. Qed.

Lemma run_reads_from d events : forall s, reads_ok d s -> reads_ok d (fold_left read_step events s).
Proof. induction events as [|e events IH]; intros s Hs; [done|]. cbn [fold_left]. apply IH. by apply read_step_ok. Qed.

Lemma run_reads_ok d events : reads_ok d (run_reads d events).
Proof. apply run_reads_from, no_reads_ok. Qed.

(** ** Progress *)

Definition reader_work (r : Reader) : nat := match r with Looking => 1 | Reading _ _ _ _ => reader_left r + 2 end.
(** A bound on the steps the tasks have left, if no further read comes. *)
Definition work (s : Reads) : nat := 3 * length (rd_waiting s) + list_sum (map reader_work (rd_readers s)).

Lemma reader_step_work d s i ok : reads_ok d s -> (i < length (rd_readers s))%nat -> (work (reader_step i ok s) < work s)%nat.
Proof.
  intros Hs Hi. destruct (lookup_lt_is_Some_2 _ _ Hi) as [r Hr]. unfold reader_step. rewrite Hr.
  destruct (lookup_split _ _ _ Hr) as (l1 & l2 & El & Hins & Hdel).
  assert (forall r', list_sum (map reader_work (<[i := r']> (rd_readers s))) + reader_work r = list_sum (map reader_work (rd_readers s)) + reader_work r')%nat as Hsum.
  { intros r'. rewrite Hins, El, !map_app, !list_sum_app. cbn [map list_sum fold_right]. lia. }
  destruct r as [|batch singles listed found].
  - unfold take_batch. destruct (rd_waiting s) as [|w ws] eqn:Ew.
    + unfold work. cbn [rd_waiting rd_readers]. rewrite Hdel, Ew, El, !map_app, !list_sum_app. cbn [map reader_work length Nat.mul]. change (list_sum (1%nat :: ?l)) with (1 + list_sum l)%nat. lia.
    + set (waiting := w :: ws). set (n := Nat.min (length waiting) READ_BATCH). assert (0 < n <= length waiting)%nat as Hn by (unfold n, waiting, READ_BATCH; cbn [length]; lia).
      unfold work. cbn [with_reader rd_waiting rd_readers]. rewrite Ew, length_drop. fold waiting.
      match goal with |- context [Reading ?b ?s1 ?l ?f] => specialize (Hsum (Reading b s1 l f)); destruct (filter_split (map fst b)) as [_ Hq]; [unfold waiting; destruct n; [lia|done]|] end.
      rewrite length_map, length_take in Hq. cbn [reader_work reader_left] in Hsum. lia.
  - pose proof (ok_readers d s Hs) as Hrd. rewrite Forall_forall in Hrd. specialize (Hrd _ (list_elem_of_lookup_2 _ _ _ Hr)). destruct Hrd as (_ & Hq & _).
    unfold next_statement. destruct ok; cbn [negb].
    + destruct singles as [|x singles].
      * unfold work. cbn [finish_batch answer_batch with_reader rd_waiting rd_readers]. specialize (Hsum Looking). cbn [reader_work] in *. lia.
      * case_split; unfold work; cbn [finish_batch answer_batch with_reader rd_waiting rd_readers].
        -- specialize (Hsum Looking). cbn [reader_work] in *. lia.
        -- match goal with |- context [<[i := ?r']> _] => specialize (Hsum r') end. cbn [reader_work reader_left length] in *. lia.
    + unfold work. cbn [answer_batch with_reader rd_waiting rd_readers]. specialize (Hsum Looking). cbn [reader_work] in *. lia.
Qed.

(** Steps of tasks that are there when they take them. *)
Fixpoint run_tasks (steps : list (nat * bool)) (s : Reads) : option Reads :=
  match steps with
  | [] => Some s
  | (i, ok) :: steps' => if (i <? length (rd_readers s))%nat then run_tasks steps' (reader_step i ok s) else None
  end.

Definition write_of (e : ReadEvent) : option Stmt := match e with EvWrite stmt => Some stmt | _ => None end.
Definition read_of (e : ReadEvent) : option string := match e with EvRead id => Some id | _ => None end.

Lemma reader_step_same i ok s : rd_log (reader_step i ok s) = rd_log s /\ rd_asked (reader_step i ok s) = rd_asked s.
Proof.
  unfold reader_step, next_statement, take_batch. destruct (rd_readers s !! i) as [[|batch singles listed found]|]; [by destruct (rd_waiting s)| |done].
  destruct ok; [|done]. destruct singles; [done|]. cbn [negb]. by case_split.
Qed.

Lemma run_reads_log events : forall s,
  rd_log (fold_left read_step events s) = rd_log s ++ omap write_of events /\
  map (fun a : string * nat * nat => a.1.1) (rd_asked (fold_left read_step events s)) = map (fun a : string * nat * nat => a.1.1) (rd_asked s) ++ omap read_of events.
Proof.
  induction events as [|e events IH]; intros s; [by rewrite !app_nil_r|]. cbn [fold_left]. destruct (IH (read_step s e)) as [-> ->].
  destruct e as [id|stmt|i ok]; cbn [omap list_omap write_of read_of read_step].
  - unfold read. case_split; cbn [rd_log rd_asked]; by rewrite map_app, <- app_assoc.
  - cbn [rd_log rd_asked]. by rewrite <- app_assoc.
  - by destruct (reader_step_same i ok s) as [-> ->].
Qed.

(** ** Claims *)

(** C11: reads are answered as if each ran alone: whatever reads, writes of any server and statements of the reading tasks come in
    which order, a read is answered at most once, and an answer that is not an error is what the row of the read's own tunnel
    was at one moment after the read was asked for and before it was answered. At most eight tasks read at once, each at most
    two hundred tunnels. *)
Theorem reads_linearize d events tx answer :
  let s := run_reads d events in
  NoDup (map fst (rd_answers s)) /\ (length (rd_readers s) <= READ_BATCHES)%nat /\
  Forall (fun r => (length (reader_batch r) <= READ_BATCH)%nat) (rd_readers s) /\
  rd_log s = omap write_of events /\ map (fun a : string * nat * nat => a.1.1) (rd_asked s) = omap read_of events /\
  ((tx, Ok answer) ∈ rd_answers s -> exists id pos k,
    omap read_of events !! tx = Some id /\ rd_asked s !! tx = Some (id, tx, pos) /\ (pos <= k <= length (rd_log s))%nat /\
    answer = read_tunnel id (run (take k (rd_log s)) d)).
Proof.
  intros s. pose proof (run_reads_ok d events) as Hs. fold s in Hs. destruct (run_reads_log events (no_reads d)) as [Hlog Hasked]. fold (run_reads d events) s in Hlog, Hasked. cbn in Hlog, Hasked.
  pose proof (NoDup_seq 0 (length (rd_asked s))) as Hnd. rewrite <- (ok_places d s Hs) in Hnd. split_and!; [| | |done|done|].
  - unfold places in Hnd. apply NoDup_app in Hnd as (_ & _ & Hnd). by apply NoDup_app in Hnd as (_ & _ & Hnd).
  - apply (ok_running d s Hs).
  - eapply Forall_impl; [exact (ok_readers d s Hs)|]. intros [|batch ? ? ?]; [cbn; lia|]. by intros [? _].
  - intros Ha. pose proof (ok_answers d s Hs) as Hans. rewrite Forall_forall in Hans. apply Hans in Ha as (id & pos & k & Hin & Hk & <-). cbn [fst] in Hin.
    assert (rd_asked s !! tx = Some (id, tx, pos)) as Htx.
    { apply list_elem_of_lookup in Hin as [n Hn]. pose proof (ok_tokens d s Hs) as Ht. apply (f_equal (fun l => l !! n)) in Ht.
      rewrite lookup_seq_lt in Ht by (by eapply lookup_lt_Some). change (@map) with (fun A B => @fmap list _ A B) in Ht. cbn beta in Ht. rewrite list_lookup_fmap, Hn in Ht. cbn in Ht. by injection Ht as ->. }
    exists id, pos, k. split_and!; [|done|lia|lia|done]. rewrite <- Hasked. change (@map) with (fun A B => @fmap list _ A B). cbn beta. by rewrite list_lookup_fmap, Htx.
Qed.

(** C22: no read is forgotten: from any state, the reading tasks have at most [work] steps left however they are scheduled and whether
    their statements are answered or fail, and once no task is left every read that was asked for has been answered. *)
Theorem reads_answered d events steps s' :
  run_tasks steps (run_reads d events) = Some s' ->
  (length steps + work s' <= work (run_reads d events))%nat /\
  (rd_readers s' = [] -> map fst (rd_answers s') ≡ₚ seq 0 (length (rd_asked (run_reads d events)))).
Proof.
  pose proof (run_reads_ok d events) as Hs. revert Hs. generalize (run_reads d events). intros s. revert s. induction steps as [|[i ok] steps IH]; intros s Hs; cbn [run_tasks].
  - intros [= <-]. split; [cbn; lia|]. intros Hr. pose proof (ok_places d s Hs) as Hp. rewrite <- Hp. unfold places.
    destruct (rd_waiting s) eqn:Ew; [|exfalso; apply (ok_wake d s Hs); [by rewrite Ew|done]]. by rewrite Hr.
  - destruct (i <? length (rd_readers s))%nat eqn:Ei; [|done]. bsimp. intros H. pose proof (read_step_ok d s (EvReader i ok) Hs) as Hs'. cbn [read_step] in Hs'.
    destruct (IH _ Hs' H) as [Hw Ha]. pose proof (reader_step_work d s i ok Hs Ei). destruct (reader_step_same i ok s) as [_ E]. rewrite E in Ha. split; [cbn [length]; lia|done].
Qed.

(** Two reads of one tunnel and one of another in one batch. *)
Lemma reads_answered_witness : exists s', run_tasks [(0, true); (0, true)]%nat (run_reads sample_db [EvRead "t"; EvRead "u"; EvRead "t"; EvReader 1 true; EvReader 1 true; EvReader 1 true]) = Some s' /\
  map fst (rd_answers s') ≡ₚ seq 0 3.
Proof.
  assert (exists s', run_tasks [(0, true); (0, true)]%nat (run_reads sample_db [EvRead "t"; EvRead "u"; EvRead "t"; EvReader 1 true; EvReader 1 true; EvReader 1 true]) = Some s') as [s' H] by (eexists; vm_compute; reflexivity).
  exists s'. split; [exact H|]. apply (reads_answered sample_db [EvRead "t"; EvRead "u"; EvRead "t"; EvReader 1 true; EvReader 1 true; EvReader 1 true] _ s' H).
  vm_compute in H. injection H as <-. reflexivity.
Defined.
