(* ===== verification/StoreOpen.v ===== *)
(** * StoreOpen: connecting to the database, its schema, and waiting for it at startup, [store.rs]

    What the URL library and sqlx read from [DATABASE_URL] is a parameter; the schema is which tables and versions there are, and
    any statement of a migration may fail. *)

From Stdlib Require Import ZArith Lia Ascii String List.
From stdpp Require Import base list strings gmap.
From S2P Require Import Prelude Text Addr Names Record Store.

(** ** [connect_options] *)

Inductive SslMode := SslDisabled | SslPreferred | SslRequired | SslVerifyCa | SslVerifyIdentity.
#[export] Instance ssl_mode_eq_dec : EqDecision SslMode.
Proof. solve_decision. Defined.

(** What the URL says, as the URL library and sqlx read it. *)
Record DbUrl := mkDbUrl { du_scheme : string; du_query_keys : list string }.
Record ConnectOptions := mkConnectOptions { co_host : string; co_socket : option string; co_ssl_mode : SslMode }.
Definition with_ssl_mode (m : SslMode) (o : ConnectOptions) : ConnectOptions := mkConnectOptions (co_host o) (co_socket o) m.

Inductive OptionsError := NotAUrl | NotMySql | NotOptions | NotTls.

(** [trim_matches(['[', ']'])] *)
Fixpoint trim_brackets (l : bytes) : bytes := match l with b :: l' => if (b =? 91) || (b =? 93) then trim_brackets l' else l | [] => [] end.
Definition trim_host (host : string) : string := of_bytes (rev (trim_brackets (rev (trim_brackets (as_bytes host))))).

(** [IpAddr::is_loopback] *)
Definition is_loopback (a : IpAddr) : bool := match a with V4 n => Z.shiftr n 24 =? 127 | V6 n => n =? 1 end.

Definition is_local (o : ConnectOptions) : bool :=
  let host := trim_host (co_host o) in
  bool_decide (co_socket o <> None) || Csr.eq_ignore_ascii_case host "localhost" || match parse_ip host with Some a => is_loopback a | None => false end.

Section Options.
Context (parse_url : string -> option DbUrl) (parse_options : string -> option ConnectOptions).

Definition connect_options (url : string) : result ConnectOptions OptionsError :=
  let? parsed := ok_or (parse_url url) NotAUrl in
  if negb (String.eqb (du_scheme parsed) "mysql") then Err NotMySql
  else
    let explicit_mode := existsb (fun key => String.eqb key "ssl-mode" || String.eqb key "sslmode") (du_query_keys parsed) in
    let? options := ok_or (parse_options url) NotOptions in
    if is_local options then Ok options
    else
      let options := if explicit_mode then options else with_ssl_mode SslVerifyIdentity options in
      match co_ssl_mode options with SslDisabled | SslPreferred => Err NotTls | _ => Ok options end.

(** A database that is not on this machine is reached over TLS, with its identity checked unless the URL says otherwise. *)
Theorem remote_database_tls url o :
  connect_options url = Ok o -> is_local o = false ->
  co_ssl_mode o <> SslDisabled /\ co_ssl_mode o <> SslPreferred /\
  (forall parsed, parse_url url = Some parsed -> (forall key, key ∈ du_query_keys parsed -> key <> "ssl-mode" /\ key <> "sslmode") -> co_ssl_mode o = SslVerifyIdentity).
Proof.
  unfold connect_options. destruct (parse_url url) as [parsed|]; [|done]. cbn. destruct (negb _); [done|].
  destruct (parse_options url) as [options|]; [|done]. cbn. destruct (is_local options) eqn:El; [by intros [= <-] ?; congruence|].
  intros H _. assert (o = (if existsb (fun key => String.eqb key "ssl-mode" || String.eqb key "sslmode") (du_query_keys parsed) then options else with_ssl_mode SslVerifyIdentity options)) as Ho.
  { repeat case_split; congruence. }
  rewrite <- Ho in H. split_and!; [by destruct (co_ssl_mode o)..|]. intros parsed' [= <-] Hk. rewrite Ho. destruct (existsb _ _) eqn:Ee; [|done].
  apply existsb_exists in Ee as (key & Hin%list_elem_of_In%Hk & Hb). apply orb_true_iff in Hb as [E%String.eqb_eq|E%String.eqb_eq]; destruct Hin; congruence.
Qed.
End Options.

(** ** [migrate] *)

Definition SCHEMA_VERSION : Z := 2.
(** The tables [SCHEMA] creates, in order; the first is that of the versions. *)
Definition SCHEMA : list string := ["schema_migrations"; "tunnels"; "jobs"; "server_certificates"; "meta"; "rate_limits"].

Record Schema := mkSchema { sc_tables : gset string; sc_versions : gset Z }.

Inductive MigrateError := MigrateUnavailable | NewerSchema (version : Z).

Definition max_version (s : Schema) : option Z :=
  match elements (sc_versions s) with [] => None | v :: vs => Some (fold_left Z.max vs v) end.

Definition has_table (t : string) (s : Schema) : bool := bool_decide (t ∈ sc_tables s).
Definition create_table (t : string) (s : Schema) : Schema := mkSchema ({[t]} ∪ sc_tables s) (sc_versions s).
Definition drop_table (t : string) (s : Schema) : Schema := mkSchema (sc_tables s ∖ {[t]}) (sc_versions s).

(** What happens at each statement: other servers that migrate the same database create tables, record versions or drop the old
    table first; then it is answered, lost, or runs with its answer lost. After the last turn nothing interferes. *)
Record MigrateTurn := mkMigrateTurn { mt_tables : gset string; mt_versions : gset Z; mt_drop : bool; mt_fault : Fault }.
Definition others_turn (t : MigrateTurn) (s : Schema) : Schema :=
  let s := mkSchema (mt_tables t ∪ sc_tables s) (mt_versions t ∪ sc_versions s) in if mt_drop t then drop_table "bridges" s else s.
Definition next_migrate_turn (turns : list MigrateTurn) : MigrateTurn * list MigrateTurn :=
  match turns with t :: turns' => (t, turns') | [] => (mkMigrateTurn ∅ ∅ false Answered, []) end.

(** A statement that reads, and one that writes: whether it was answered, and what is there then. *)
Definition read_schema (turns : list MigrateTurn) (s : Schema) : bool * list MigrateTurn * Schema :=
  let '(t, turns) := next_migrate_turn turns in (match mt_fault t with Answered => true | _ => false end, turns, others_turn t s).
Definition write_schema (f : Schema -> Schema) (turns : list MigrateTurn) (s : Schema) : bool * list MigrateTurn * Schema :=
  let '(t, turns) := next_migrate_turn turns in
  let s := others_turn t s in
  match mt_fault t with Answered => (true, turns, f s) | Lost => (false, turns, s) | AnswerLost => (false, turns, f s) end.

(** [drop_bridges]: its failures are only logged. *)
Definition drop_bridges (turns : list MigrateTurn) (s : Schema) : Schema :=
  let '(ok, turns, s) := read_schema turns s in
  if ok && has_table "bridges" s then snd (write_schema (drop_table "bridges") turns s) else s.

Fixpoint create_tables (tables : list string) (turns : list MigrateTurn) (s : Schema) : option (list MigrateTurn) * Schema :=
  match tables with
  | [] => (Some turns, s)
  | t :: tables' =>
      let '(ok, turns, s) := write_schema (create_table t) turns s in
      if ok then create_tables tables' turns s else (None, s)
  end.

Definition add_version (s : Schema) : Schema := mkSchema (sc_tables s) ({[SCHEMA_VERSION]} ∪ sc_versions s).

(** The tables that are missing, then the version. *)
Definition create_schema (turns : list MigrateTurn) (s : Schema) : result unit MigrateError * Schema :=
  match create_tables SCHEMA turns s with
  | (None, s) => (Err MigrateUnavailable, s)
  | (Some turns, s) => let '(ok, _, s) := write_schema add_version turns s in (if ok then Ok tt else Err MigrateUnavailable, s)
  end.

Definition migrate (turns : list MigrateTurn) (s : Schema) : result unit MigrateError * Schema :=
  let '(ok, turns, s) := read_schema turns s in
  if negb ok then (Err MigrateUnavailable, s)
  else
    match (if has_table "schema_migrations" s then max_version s else None) with
    | Some v =>
        if SCHEMA_VERSION <? v then (Err (NewerSchema v), s)
        else if v =? SCHEMA_VERSION then
          let '(ok, turns, s) := read_schema turns s in
          if negb ok then (Err MigrateUnavailable, s)
          else if has_table "rate_limits" s then (Ok tt, drop_bridges turns s)
          else
            let '(ok, turns, s) := write_schema (create_table "rate_limits") turns s in
            if ok then (Ok tt, drop_bridges turns s) else (Err MigrateUnavailable, s)
        else create_schema turns s
    | None => create_schema turns s
    end.

(** ** [wait_ready] *)

Inductive ReadyError := NotReachable | Incompatible (version : Z).
Definition FIRST_DELAY : Z := 500.
Definition MAX_DELAY : Z := 15000.

(** How the wait ended, when, and after how many attempts. *)
Inductive WaitResult := Available | TooNew (version : Z) | GaveUp (waited : Z).

(** The loop; the [n]-th attempt ends as [attempts n] says, after its duration. *)
Fixpoint wait_loop (fuel : nat) (limit : option Z) (attempts : nat -> result unit ReadyError * Z) (n : nat) (waited delay : Z) : option (WaitResult * Z * nat) :=
  match fuel with
  | O => None
  | S fuel =>
      let '(result, took) := attempts n in
      let waited := waited + took in
      match result with
      | Ok _ => Some (Available, waited, S n)
      | Err (Incompatible v) => Some (TooNew v, waited, S n)
      | Err NotReachable =>
          let again sleep := wait_loop fuel limit attempts (S n) (waited + sleep) (Z.min (delay * 2) MAX_DELAY) in
          match limit with
          | Some limit => if limit <=? waited then Some (GaveUp waited, waited, S n) else again (Z.min delay (limit - waited))
          | None => again delay
          end
      end
  end.
Definition wait_ready (fuel : nat) (limit : option Z) (attempts : nat -> result unit ReadyError * Z) : option (WaitResult * Z * nat) :=
  wait_loop fuel limit attempts 0 0 FIRST_DELAY.

(** [Server::build]'s limit: 0 waits for as long as it takes. *)
Definition startup_limit (ms : Z) : option Z := if 0 <? ms then Some ms else None.

(** ** Properties of migrations *)

(** What servers keep true of the schema: the version is only recorded with its tables there. *)
Definition schema_tables (s : Schema) : Prop := forall t, t ∈ SCHEMA -> t <> "rate_limits" -> t ∈ sc_tables s.
Definition schema_ok (s : Schema) : Prop :=
  (sc_versions s <> ∅ -> "schema_migrations" ∈ sc_tables s) /\ (SCHEMA_VERSION ∈ sc_versions s -> schema_tables s).
Definition turn_ok (t : MigrateTurn) : Prop := schema_ok (mkSchema (mt_tables t) (mt_versions t)).
(** Nothing but the old table goes. *)
Definition grows (s s' : Schema) : Prop := (forall t, t ∈ sc_tables s -> t <> "bridges" -> t ∈ sc_tables s') /\ sc_versions s ⊆ sc_versions s'.

#[export] Instance grows_preorder : PreOrder grows.
Proof.
  split; [by split|]. intros s1 s2 s3 [H1 H2] [H3 H4]. split; [auto|]. by etrans.
Qed.

Lemma schema_ok_others t s : turn_ok t -> schema_ok s -> schema_ok (others_turn t s) /\ grows s (others_turn t s).
Proof.
  intros [Ht1 Ht2] [Hs1 Hs2]. cbn in *.
  assert (schema_ok (mkSchema (mt_tables t ∪ sc_tables s) (mt_versions t ∪ sc_versions s)) /\ grows s (mkSchema (mt_tables t ∪ sc_tables s) (mt_versions t ∪ sc_versions s))) as [[H1 H2] H3].
  { split; [split|split]; cbn.
    - intros Hne. apply elem_of_union. destruct (decide (mt_versions t = ∅)) as [E|E]; [right; apply Hs1; intros E'; by rewrite E, E', union_empty_l_L in Hne|left; auto].
    - intros [Hv|Hv]%elem_of_union t' Hin Hne; apply elem_of_union; [left; by apply Ht2|right; by apply Hs2].
    - intros t' Hin _. apply elem_of_union. by right.
    - apply union_subseteq_r. }
  unfold others_turn. destruct (mt_drop t); [|done]. split; [split|]; cbn in *.
  - intros Hne. apply elem_of_difference. split; [auto|]. by rewrite elem_of_singleton.
  - intros Hv t' Hin Hne. apply elem_of_difference. split; [by apply H2|]. rewrite elem_of_singleton. intros ->. vm_compute in Hin. by repeat (apply elem_of_cons in Hin as [Hin|Hin]; [discriminate Hin|]); apply elem_of_nil in Hin.
  - destruct H3 as [H3 H4]. split; [|done]. intros t' Hin Hb. apply elem_of_difference. split; [by apply H3|]. by rewrite elem_of_singleton.
Qed.

Lemma next_turn_ok turns t turns' : next_migrate_turn turns = (t, turns') -> Forall turn_ok turns -> turn_ok t /\ Forall turn_ok turns'.
Proof.
  destruct turns as [|t0 ts]; intros [= <- <-] H; [|by apply Forall_cons in H]. split; [|done]. split; cbn; [done|]. by intros ?%elem_of_empty.
Qed.

Lemma read_schema_ok turns s ok turns' s' :
  read_schema turns s = (ok, turns', s') -> Forall turn_ok turns -> schema_ok s -> Forall turn_ok turns' /\ schema_ok s' /\ grows s s'.
Proof.
  unfold read_schema. destruct (next_migrate_turn turns) as [t ts] eqn:E. intros [= <- <- <-] Ht Hs.
  destruct (next_turn_ok _ _ _ E Ht) as [Ht1 Ht2]. by destruct (schema_ok_others t s Ht1 Hs).
Qed.

Lemma write_schema_ok f turns s ok turns' s' :
  (forall s1, schema_ok s1 -> grows s s1 -> schema_ok (f s1) /\ grows s1 (f s1)) ->
  write_schema f turns s = (ok, turns', s') -> Forall turn_ok turns -> schema_ok s ->
  Forall turn_ok turns' /\ schema_ok s' /\ grows s s' /\ (ok = true -> exists s1, s' = f s1 /\ grows s s1).
Proof.
  intros Hf. unfold write_schema. destruct (next_migrate_turn turns) as [t ts] eqn:E. intros Hw Ht Hs.
  destruct (next_turn_ok _ _ _ E Ht) as [Ht1 Ht2]. destruct (schema_ok_others t s Ht1 Hs) as [Ho Hg]. destruct (Hf _ Ho Hg) as [Hfo Hfg].
  destruct (mt_fault t); injection Hw as <- <- <-; (split_and!; [done|done|try done; by etrans|try done]). intros _. eauto.
Qed.

Lemma create_table_ok t s : schema_ok s -> schema_ok (create_table t s) /\ grows s (create_table t s).
Proof.
  intros [H1 H2]. split; [split; cbn|split; [|done]; cbn].
  - intros Hne. apply elem_of_union. right. auto.
  - intros Hv t' Hin Hne. apply elem_of_union. right. by apply H2.
  - intros t' Hin _. apply elem_of_union. by right.
Qed.

Lemma drop_bridges_ok turns s : Forall turn_ok turns -> schema_ok s -> schema_ok (drop_bridges turns s) /\ grows s (drop_bridges turns s).
Proof.
  intros Ht Hs. unfold drop_bridges. destruct (read_schema turns s) as [[ok ts] s1] eqn:E1. destruct (read_schema_ok _ _ _ _ _ E1 Ht Hs) as (Ht1 & Hs1 & Hg1).
  destruct (ok && has_table "bridges" s1); [|done]. destruct (write_schema _ ts s1) as [[ok2 ts2] s2] eqn:E2.
  destruct (write_schema_ok (drop_table "bridges") ts s1 ok2 ts2 s2) as (_ & Hs2 & Hg2 & _); [|done|done|done|].
  - intros s' Hs' _. pose proof (schema_ok_others (mkMigrateTurn ∅ ∅ true Answered) s') as H. unfold others_turn in H. cbn in H. rewrite !union_empty_l_L in H.
    destruct s'. apply H; [|done]. split; cbn; [done|]. by intros ?%elem_of_empty.
  - split; [done|]. by etrans.
Qed.

Lemma create_tables_ok tables : forall turns s r s',
  create_tables tables turns s = (r, s') -> ("bridges" ∉ tables) -> Forall turn_ok turns -> schema_ok s ->
  schema_ok s' /\ grows s s' /\ (forall ts, r = Some ts -> Forall turn_ok ts /\ forall t, t ∈ tables -> t ∈ sc_tables s').
Proof.
  induction tables as [|t tables IH]; intros turns s r s'; cbn [create_tables].
  - intros [= <- <-] _ Ht Hs. split_and!; [done|done|]. intros ts [= <-]. split; [done|]. by intros t ?%elem_of_nil.
  - destruct (write_schema (create_table t) turns s) as [[ok ts] s1] eqn:E. intros Hc [Hb1 Hb2]%not_elem_of_cons Ht Hs.
    destruct (write_schema_ok _ _ _ _ _ _ (fun s1 H _ => create_table_ok t s1 H) E Ht Hs) as (Ht1 & Hs1 & Hg1 & Hin). destruct ok; [|by injection Hc as <- <-].
    destruct (IH _ _ _ _ Hc Hb2 Ht1 Hs1) as (Hs' & Hg' & Hr). split_and!; [done|by etrans|]. intros ts' ->. destruct (Hr ts' eq_refl) as [Ht' Hall]. split; [done|].
    intros t' [->|?]%elem_of_cons; [|by apply Hall]. destruct (Hin eq_refl) as (s0 & -> & _). apply Hg'; [|done]. apply elem_of_union. left. by apply elem_of_singleton.
Qed.

Lemma create_schema_ok turns s r s' :
  create_schema turns s = (r, s') -> Forall turn_ok turns -> schema_ok s ->
  schema_ok s' /\ grows s s' /\ (r = Ok tt -> SCHEMA_VERSION ∈ sc_versions s' /\ forall t, t ∈ SCHEMA -> t ∈ sc_tables s').
Proof.
  unfold create_schema. destruct (create_tables SCHEMA turns s) as [ts s1] eqn:E. intros Hc Ht Hs.
  destruct (create_tables_ok SCHEMA turns s ts s1 E) as (Hs1 & Hg1 & Hall); [|done|done|].
  { rewrite list_elem_of_In. vm_compute. intuition discriminate. }
  destruct ts as [ts|]; [|by injection Hc as <- <-]. destruct (Hall ts eq_refl) as [Hts Hin].
  destruct (write_schema add_version ts s1) as [[ok ts2] s2] eqn:E2.
  assert (forall s0, grows s1 s0 -> forall t, t ∈ SCHEMA -> t ∈ sc_tables s0) as Hkeep.
  { intros s0 [H0 _] t Htin. apply H0; [by apply Hin|]. intros ->. revert Htin. rewrite list_elem_of_In. vm_compute. intuition discriminate. }
  destruct (write_schema_ok add_version ts s1 ok ts2 s2) as (_ & Hs2 & Hg2 & Hok); [|done|done|done|].
  - intros s0 [H1 H2] Hg0. split; [split; cbn|split; cbn; [done|apply union_subseteq_r]].
    + intros _. apply (Hkeep s0 Hg0). by left.
    + intros _ t Htin _. by apply (Hkeep s0 Hg0).
  - destruct ok; injection Hc as <- <-; (split_and!; [done|by etrans|]); [|done]. intros _. destruct (Hok eq_refl) as (s0 & -> & Hg0). split.
    + apply elem_of_union. left. by apply elem_of_singleton.
    + intros t Htin. by apply (Hkeep s0 Hg0).
Qed.

Lemma max_version_in s v : max_version s = Some v -> v ∈ sc_versions s.
Proof.
  unfold max_version. destruct (elements (sc_versions s)) as [|x l] eqn:E; [done|]. intros [= <-]. apply elem_of_elements. rewrite E. clear E.
  revert x. induction l as [|y l IH]; intros x; cbn [fold_left]; [by left|]. specialize (IH (Z.max x y)). apply elem_of_cons in IH as [->|IH].
  - destruct (Z.max_spec x y) as [[_ ->]|[_ ->]]; [right|]; by left.
  - by do 2 right.
Qed.

(** Servers of this version may migrate one database at once, and any of them may lose its connection at any statement: nothing but the
    unused table is dropped, the version is never recorded before its tables are there, and a migration that succeeds leaves every
    table in place. A newer schema is refused with nothing done. *)
Theorem migrations_safe turns s r s' :
  migrate turns s = (r, s') -> Forall turn_ok turns -> schema_ok s ->
  schema_ok s' /\ grows s s' /\ (r = Ok tt -> SCHEMA_VERSION ∈ sc_versions s' /\ forall t, t ∈ SCHEMA -> t ∈ sc_tables s').
Proof.
  unfold migrate. destruct (read_schema turns s) as [[ok ts] s1] eqn:E1. intros Hm Ht Hs. destruct (read_schema_ok _ _ _ _ _ E1 Ht Hs) as (Ht1 & Hs1 & Hg1).
  assert (forall r s', create_schema ts s1 = (r, s') -> schema_ok s' /\ grows s s' /\ (r = Ok tt -> SCHEMA_VERSION ∈ sc_versions s' /\ forall t, t ∈ SCHEMA -> t ∈ sc_tables s')) as Hcreate.
  { intros r0 s0 Hc. destruct (create_schema_ok _ _ _ _ Hc Ht1 Hs1) as (? & ? & ?). split_and!; [done|by etrans|done]. }
  destruct ok; cbn [negb] in Hm; [|by injection Hm as <- <-].
  destruct (if has_table "schema_migrations" s1 then max_version s1 else None) as [v|] eqn:Ev; [|by apply Hcreate].
  destruct (SCHEMA_VERSION <? v); [by injection Hm as <- <-|]. destruct (v =? SCHEMA_VERSION) eqn:Evv; [|by apply Hcreate]. bsimp. subst v.
  destruct (has_table "schema_migrations" s1); [|done]. apply max_version_in in Ev.
  destruct (read_schema ts s1) as [[ok ts2] s2] eqn:E2. destruct (read_schema_ok _ _ _ _ _ E2 Ht1 Hs1) as (Ht2 & Hs2 & Hg2). assert (grows s s2) as Hgs2 by (by etrans).
  assert (SCHEMA_VERSION ∈ sc_versions s2) as Hv2 by (by apply Hg2).
  assert (forall s3 ts3, schema_ok s3 -> Forall turn_ok ts3 -> grows s2 s3 -> "rate_limits" ∈ sc_tables s3 ->
    schema_ok (drop_bridges ts3 s3) /\ grows s (drop_bridges ts3 s3) /\ (Ok tt = Ok tt :> result unit MigrateError -> SCHEMA_VERSION ∈ sc_versions (drop_bridges ts3 s3) /\ forall t, t ∈ SCHEMA -> t ∈ sc_tables (drop_bridges ts3 s3))) as Hdone.
  { intros s3 ts3 Hs3 Ht3 Hg3 Hr3. destruct (drop_bridges_ok ts3 s3 Ht3 Hs3) as [Hd1 Hd2]. split_and!; [done|etrans; [exact Hgs2|]; etrans; [exact Hg3|exact Hd2]|]. intros _.
    assert (SCHEMA_VERSION ∈ sc_versions (drop_bridges ts3 s3)) as Hv by (by apply Hd2, Hg3). split; [done|]. intros t Hin.
    destruct (decide (t = "rate_limits")) as [->|Hne]; [by apply Hd2|]. by apply (proj2 Hd1). }
  destruct ok; cbn [negb] in Hm; [|by injection Hm as <- <-]. unfold has_table in Hm. case_bool_decide as Hrl; [injection Hm as <- <-; by apply Hdone|].
  destruct (write_schema _ ts2 s2) as [[ok ts3] s3] eqn:E3. destruct (write_schema_ok _ _ _ _ _ _ (fun s1 H _ => create_table_ok _ s1 H) E3 Ht2 Hs2) as (Ht3 & Hs3 & Hg3 & Hin).
  destruct ok; injection Hm as <- <-; [|split_and!; [done|by etrans|done]]. apply Hdone; [done|done|done|]. destruct (Hin eq_refl) as (s0 & -> & _). apply elem_of_union. left. by apply elem_of_singleton.
Qed.

Lemma others_none s : others_turn (mkMigrateTurn ∅ ∅ false Answered) s = s.
Proof. unfold others_turn. cbn. rewrite !union_empty_l_L. by destruct s. Qed.

Lemma create_tables_alone tables : forall s, exists s', create_tables tables [] s = (Some [], s').
Proof.
  induction tables as [|t tables IH]; intros s; cbn [create_tables]; [eauto|]. unfold write_schema. cbn [next_migrate_turn mt_fault]. apply IH.
Qed.

(** Alone with a database of this version or before, a migration succeeds wherever earlier ones stopped. *)
Theorem migration_completes s : (forall v, v ∈ sc_versions s -> v <= SCHEMA_VERSION) -> fst (migrate [] s) = Ok tt.
Proof.
  intros Hv. assert (forall s, fst (create_schema [] s) = Ok tt) as Hc.
  { intros s0. unfold create_schema. destruct (create_tables_alone SCHEMA s0) as [s' ->]. done. }
  unfold migrate, read_schema. cbn [next_migrate_turn mt_fault negb]. rewrite others_none.
  destruct (if has_table "schema_migrations" s then max_version s else None) as [v|] eqn:Ev; [|apply Hc].
  destruct (has_table "schema_migrations" s); [|done]. apply max_version_in, Hv in Ev. rewrite (proj2 (Z.ltb_ge _ _) Ev).
  destruct (v =? SCHEMA_VERSION); [|apply Hc]. rewrite others_none. by destruct (has_table "rate_limits" s).
Qed.

(** ** Properties of the wait *)

Lemma wait_loop_ends limit attempts : (forall n, 0 <= snd (attempts n)) -> forall fuel n waited delay,
  FIRST_DELAY <= delay -> waited <= limit ->
  (if limit <=? waited then 1 else (limit - waited) / FIRST_DELAY + 2) <= Z.of_nat fuel ->
  exists r ended m, wait_loop fuel (Some limit) attempts n waited delay = Some (r, ended, S m) /\ (n <= m)%nat /\ waited <= ended /\ ended <= limit + snd (attempts m) /\
    match r with
    | Available => fst (attempts m) = Ok tt
    | TooNew v => fst (attempts m) = Err (Incompatible v)
    | GaveUp w => w = ended /\ limit <= ended /\ fst (attempts m) = Err NotReachable
    end.
Proof.
  intros Hpos. induction fuel as [|fuel IH]; intros n waited delay Hd Hw Hf.
  { assert (0 <= (limit - waited) / FIRST_DELAY) by (apply Z.div_pos; unfold FIRST_DELAY; lia). destruct (limit <=? waited); lia. }
  cbn [wait_loop]. specialize (Hpos n) as Hp. destruct (attempts n) as [result took] eqn:Ea. cbn [snd] in Hp.
  assert (forall r ended, ended <= limit + took -> waited <= ended -> match r with Available => result = Ok tt | TooNew v => result = Err (Incompatible v) | GaveUp w => w = ended /\ limit <= ended /\ result = Err NotReachable end ->
    exists r' ended' m, Some (r, ended, S n) = Some (r', ended', S m) /\ (n <= m)%nat /\ waited <= ended' /\ ended' <= limit + snd (attempts m) /\
    match r' with Available => fst (attempts m) = Ok tt | TooNew v => fst (attempts m) = Err (Incompatible v) | GaveUp w => w = ended' /\ limit <= ended' /\ fst (attempts m) = Err NotReachable end) as Hnow.
  { intros r ended H1 H2 H3. exists r, ended, n. rewrite Ea. cbn. done. }
  destruct result as [[]|[|v]]; [apply Hnow; [lia|lia|done]| |apply Hnow; [lia|lia|done]].
  destruct (limit <=? waited + took) eqn:El; bsimp; [apply Hnow; [lia|lia|done]|].
  destruct (IH (S n) (waited + took + Z.min delay (limit - (waited + took))) (Z.min (delay * 2) MAX_DELAY)) as (r & ended & m & Hr & Hm & He & Hl & Hres).
  - unfold FIRST_DELAY, MAX_DELAY in *. lia.
  - lia.
  - rewrite (proj2 (Z.leb_gt limit waited)) in Hf by lia. destruct (limit <=? _) eqn:E2; bsimp.
    + assert (0 <= (limit - waited) / FIRST_DELAY) by (apply Z.div_pos; unfold FIRST_DELAY; lia). lia.
    + assert ((limit - (waited + took + Z.min delay (limit - (waited + took)))) / FIRST_DELAY <= (limit - waited - FIRST_DELAY) / FIRST_DELAY) as Hle by (apply Z.div_le_mono; unfold FIRST_DELAY in *; lia).
      replace (limit - waited - FIRST_DELAY) with (limit - waited + (-1) * FIRST_DELAY) in Hle by lia. rewrite Z.div_add in Hle by (unfold FIRST_DELAY; lia). lia.
  - exists r, ended, m. split_and!; [done|lia|unfold FIRST_DELAY in *; lia|done|done].
Qed.

(** The wait for the database at startup ends: it gives up only after the limit, at most one attempt later, on an attempt that did not
    reach it, and it goes on or stops as the last attempt says. *)
Theorem wait_ready_ends limit attempts :
  0 <= limit -> (forall n, 0 <= snd (attempts n)) ->
  exists r ended m, wait_ready (Z.to_nat (limit / FIRST_DELAY + 2)) (Some limit) attempts = Some (r, ended, S m) /\ ended <= limit + snd (attempts m) /\
    match r with
    | Available => fst (attempts m) = Ok tt
    | TooNew v => fst (attempts m) = Err (Incompatible v)
    | GaveUp w => w = ended /\ limit <= ended /\ fst (attempts m) = Err NotReachable
    end.
Proof.
  intros Hl Hpos. assert (0 <= limit / FIRST_DELAY) by (apply Z.div_pos; unfold FIRST_DELAY; lia).
  destruct (wait_loop_ends limit attempts Hpos (Z.to_nat (limit / FIRST_DELAY + 2)) 0 0 FIRST_DELAY) as (r & ended & m & H1 & _ & _ & H2 & H3); [lia|lia| |by exists r, ended, m].
  rewrite Z2Nat.id, Z.sub_0_r by lia. destruct (limit <=? 0); lia.
Qed.
