(* ===== verification/Limits.v ===== *)
(** * Limits: who a request is from and how much it may do, [limits.rs]

    The addresses and names requests are counted under, the rates, and the issuance backlog. The requests of all servers for one
    key are a pool of programs ([Store]'s [take_rate_loop]) whose statements interleave in any way. *)

From Stdlib Require Import ZArith Lia Ascii String List.
From stdpp Require Import base list strings gmap.
From S2P Require Import Prelude Text Addr Record Store.

(** ** Addresses *)

(** IPv4-mapped IPv6 addresses as IPv4. *)
Definition canonical (ip : IpAddr) : IpAddr :=
  match ip with
  | V6 v6 => match to_ipv4_mapped v6 with Some v4 => V4 v4 | None => V6 v6 end
  | V4 v4 => V4 v4
  end.

Record Cidr := mkCidr {
  network : IpAddr;
  prefix : Z;
}.

Definition CLOUDFLARE_RANGES : list string :=
  ["173.245.48.0/20"; "103.21.244.0/22"; "103.22.200.0/22"; "103.31.4.0/22"; "141.101.64.0/18";
   "108.162.192.0/18"; "190.93.240.0/20"; "188.114.96.0/20"; "197.234.240.0/22"; "198.41.128.0/17";
   "162.158.0.0/15"; "104.16.0.0/13"; "104.24.0.0/14"; "172.64.0.0/13"; "131.0.72.0/22"; "2400:cb00::/32";
   "2606:4700::/32"; "2803:f800::/32"; "2405:b500::/32"; "2405:8100::/32"; "2a06:98c0::/29"; "2c0f:f248::/32"].

Definition address_bits (ip : IpAddr) : Z := match ip with V4 _ => 32 | V6 _ => 128 end.

Definition cidr_parse (value : string) : option Cidr :=
  let value := str_trim value in
  let '(address, prefix) := match str_split_once "/" value with
                            | Some (address, prefix) => (address, Some prefix)
                            | None => (value, None)
                            end in
  let* network := parse_ip address in
  let network := canonical network in
  let bits := address_bits network in
  let* prefix := match prefix with
                 | Some prefix => parse_uint 255 (as_bytes prefix)
                 | None => Some bits
                 end in
  if bits <? prefix then None else Some (mkCidr network prefix).

(** [MAX.checked_shl(bits - prefix).unwrap_or(0)]: a shift by the whole width gives no mask. *)
Definition prefix_mask (bits prefix : Z) : Z :=
  if bits - prefix <? bits then Z.shiftl (Z.ones bits) (bits - prefix) mod 2 ^ bits else 0.

Definition cidr_contains (c : Cidr) (ip : IpAddr) : bool :=
  match network c, canonical ip with
  | V4 network, V4 ip =>
      let mask := prefix_mask 32 (prefix c) in Z.land network mask =? Z.land ip mask
  | V6 network, V6 ip =>
      let mask := prefix_mask 128 (prefix c) in Z.land network mask =? Z.land ip mask
  | _, _ => false
  end.

Definition TrustedProxies : Type := list Cidr.

Fixpoint parse_all (ranges : list string) : option TrustedProxies :=
  match ranges with
  | [] => Some []
  | range :: ranges' =>
      let* c := cidr_parse range in
      let* cs := parse_all ranges' in
      Some (c :: cs)
  end.

Definition proxies_parse (ranges : list string) : option TrustedProxies :=
  let ranges := filter (fun r => r <> "") (map str_trim ranges) in
  match ranges with
  | [] => parse_all CLOUDFLARE_RANGES
  | [one] => if String.eqb one "off" then Some [] else parse_all ranges
  | _ => parse_all ranges
  end.

Definition proxies_contain (proxies : TrustedProxies) (ip : IpAddr) : bool :=
  existsb (fun cidr => cidr_contains cidr ip) proxies.

Definition CLIENT_HEADER : string := "cf-connecting-ip".

(** A request's headers, names in lower case; [HeaderMap::get] takes the first, [to_str] refuses what is not
    visible ASCII or a tab. *)
Definition Headers : Type := list (string * bytes).
Fixpoint header_get (headers : Headers) (name : string) : option bytes :=
  match headers with
  | [] => None
  | (n, v) :: headers' => if String.eqb n name then Some v else header_get headers' name
  end.
Definition header_str (value : bytes) : option string :=
  if forallb (fun b => ((32 <=? b) && (b <=? 126)) || (b =? 9)) value then Some (of_bytes value) else None.

Definition client (proxies : TrustedProxies) (source : IpAddr) (headers : Headers) : IpAddr :=
  let source := canonical source in
  if negb (proxies_contain proxies source) then source
  else
    match (let* value := header_get headers CLIENT_HEADER in
           let* value := header_str value in
           parse_ip (str_trim value)) with
    | Some ip => canonical ip
    | None => source
    end.

Definition client_key (ip : IpAddr) : string :=
  match canonical ip with
  | V4 v4 => ip_string (V4 v4)
  | V6 v6 =>
      let network := Z.land v6 (Z.shiftl (Z.ones 128) 64 mod 2 ^ 128) in
      ip_string (V6 network) +:+ "/64"
  end.

(** ** Rates *)

(** [Rate::new]: [None] (no limit) when [count] is 0. *)
Definition rate_new (count period_ms burst : Z) : option Rate :=
  if count =? 0 then None
  else
    let interval_ms := Z.max (period_ms / count) 1 in
    Some (mkRate interval_ms (interval_ms * (Z.max burst 1 - 1))).

Definition BACKLOG_TTL_MS : Z := 5000.

(** The limits of a server; the backlog is the pending job count and when it was read. *)
Record Limits := mkLimits {
  proxies : TrustedProxies;
  create_rate : option Rate;
  issuance_rate : option Rate;
  backlog_limit : Z;
  backlog : option (Z * Z);
}.

Definition take_limit (rate : option Rate) (key : string) (now : Z) : M Verdict :=
  match rate with
  | None => ret Allowed
  | Some rate => take_rate key now rate
  end.

Definition create (l : Limits) (from : IpAddr) (now : Z) : M Verdict :=
  take_limit (create_rate l) ("create:" +:+ client_key from) now.
Definition issuance (l : Limits) (tunnel : string) (now : Z) : M Verdict :=
  take_limit (issuance_rate l) ("issue:" +:+ tunnel) now.

(** The verdict and the limits with what was read. *)
Definition backlogged (l : Limits) (now : Z) (w : Db * list Turn) : bool * Limits * (Db * list Turn) :=
  if backlog_limit l =? 0 then (false, l, w)
  else
    match backlog l with
    | Some (pending, at_) =>
        if sat_sub now at_ <? BACKLOG_TTL_MS then (backlog_limit l <? pending, l, w)
        else
          match pending_jobs w with
          | (Ok pending, w') =>
              (backlog_limit l <? pending,
               mkLimits (proxies l) (create_rate l) (issuance_rate l) (backlog_limit l) (Some (pending, now)), w')
          | (Err _, w') => (false, l, w')
          end
    | None =>
        match pending_jobs w with
        | (Ok pending, w') =>
            (backlog_limit l <? pending,
             mkLimits (proxies l) (create_rate l) (issuance_rate l) (backlog_limit l) (Some (pending, now)), w')
        | (Err _, w') => (false, l, w')
        end
    end.

(** ** Lemmas: prefixes *)

Lemma land_mask_eq bits prefix a b :
  0 <= prefix <= bits -> 0 <= a < 2 ^ bits -> 0 <= b < 2 ^ bits ->
  Z.land a (prefix_mask bits prefix) = Z.land b (prefix_mask bits prefix) <->
  a / 2 ^ (bits - prefix) = b / 2 ^ (bits - prefix).
Proof.
  intros Hp Ha Hb. unfold prefix_mask. destruct (bits - prefix <? bits) eqn:E; bsimp.
  - set (s := bits - prefix) in *.
    assert (forall n, 0 <= n -> Z.testbit (Z.shiftl (Z.ones bits) s mod 2 ^ bits) n = (s <=? n) && (n <? bits)) as Hm.
    { intros n Hn. destruct (n <? bits) eqn:En; bsimp.
      - rewrite Z.mod_pow2_bits_low by done. rewrite andb_true_r.
        destruct (s <=? n) eqn:Es; bsimp.
        + rewrite Z.shiftl_spec by done. apply Z.ones_spec_low. lia.
        + by apply Z.shiftl_spec_low.
      - rewrite Z.mod_pow2_bits_high by lia. by rewrite andb_false_r. }
    assert (forall x n, 0 <= x < 2 ^ bits -> bits <= n -> Z.testbit x n = false) as Hhigh.
    { intros x n Hx Hn. rewrite <- (Z.mod_small x (2 ^ bits)) by done. apply Z.mod_pow2_bits_high. lia. }
    rewrite <- !Z.shiftr_div_pow2 by lia. split; intros H.
    + apply Z.bits_inj'. intros n Hn. rewrite !Z.shiftr_spec by done.
      apply (f_equal (fun z => Z.testbit z (n + s))) in H. rewrite !Z.land_spec, Hm in H by lia.
      destruct (n + s <? bits) eqn:En; bsimp.
      * rewrite (proj2 (Z.leb_le s (n + s))) in H by lia. cbn [andb] in H. by rewrite !andb_true_r in H.
      * rewrite !Hhigh by (done || lia). done.
    + apply Z.bits_inj'. intros n Hn. rewrite !Z.land_spec, Hm by done.
      destruct (s <=? n) eqn:Es; bsimp; [|by rewrite !andb_false_r].
      apply (f_equal (fun z => Z.testbit z (n - s))) in H. rewrite !Z.shiftr_spec in H by lia.
      replace (n - s + s) with n in H by lia. by rewrite H.
  - replace prefix with 0 by lia. rewrite Z.sub_0_r, !Z.land_0_r. split; [|done].
    intros _. by rewrite !Z.div_small.
Qed.

Lemma canonical_ok ip : ip_ok ip -> ip_ok (canonical ip) /\ canonical_ip (canonical ip).
Proof.
  destruct ip as [n|n]; cbn [ip_ok canonical]; [done|]. intros Hn.
  destruct (to_ipv4_mapped n) as [v|] eqn:E; cbn [ip_ok canonical_ip]; [|done].
  apply to_ipv4_mapped_Some in E as [_ ?]; [done|lia].
Qed.

(** The address is in the range: same family, same first [prefix] bits. *)
Definition in_range (c : Cidr) (ip : IpAddr) : Prop :=
  match network c, canonical ip with
  | V4 n, V4 a => n / 2 ^ (32 - prefix c) = a / 2 ^ (32 - prefix c)
  | V6 n, V6 a => n / 2 ^ (128 - prefix c) = a / 2 ^ (128 - prefix c)
  | _, _ => False
  end.

Definition cidr_ok (c : Cidr) : Prop := ip_ok (network c) /\ 0 <= prefix c <= address_bits (network c).

Lemma cidr_contains_spec c ip : cidr_ok c -> ip_ok ip -> cidr_contains c ip = true <-> in_range c ip.
Proof.
  intros [Hn Hp] Hip. destruct (canonical_ok ip Hip) as [Hc _]. unfold cidr_contains, in_range.
  destruct (network c) as [n|n], (canonical ip) as [a|a]; cbn [ip_ok address_bits] in *; try done;
    rewrite Z.eqb_eq; by apply land_mask_eq.
Qed.

Lemma cidr_parse_ok s c : cidr_parse s = Some c -> cidr_ok c /\ canonical_ip (network c).
Proof.
  unfold cidr_parse.
  destruct (match str_split_once "/" (str_trim s) with Some (a, p) => (a, Some p) | None => (str_trim s, None) end)
    as [address pfx]. intros H.
  destruct (parse_ip address) as [ip|] eqn:Ei; [|done]. cbn [mbind option_bind] in H.
  apply parse_ip_ok in Ei. destruct (canonical_ok ip Ei) as [Hok Hc].
  destruct (match pfx with Some p => parse_uint 255 (as_bytes p) | None => Some (address_bits (canonical ip)) end)
    as [p|] eqn:Ep; [|done]. cbn [mbind option_bind] in H.
  case_split; [done|]. injection H as <-. bsimp. split; [|done]. split; [done|]. cbn [prefix network].
  split; [|done]. destruct pfx as [t|].
  - unfold parse_uint in Ep.
    destruct (match as_bytes t with 43 :: l' => l' | _ => as_bytes t end) as [|b l]; [done|].
    assert (forall l acc n, 0 <= acc -> digits_value l acc = Some n -> 0 <= n) as Hd.
    { clear. induction l as [|b l IH]; intros acc n Ha H; cbn in H; [by simplify_eq|].
      destruct (is_ascii_digit b) eqn:E; [|done]. unfold is_ascii_digit in E. bsimp. eapply IH; [|done]. lia. }
    destruct (digits_value (b :: l) 0) as [n|] eqn:Ed; [|done]. case_split; [|done]. injection Ep as <-.
    by eapply Hd; [|done].
  - injection Ep as <-. destruct (canonical ip); cbn; lia.
Qed.

Lemma parse_all_ok ranges cs : parse_all ranges = Some cs -> Forall cidr_ok cs.
Proof.
  revert cs; induction ranges as [|r ranges IH]; intros cs; cbn [parse_all]; [by intros [= <-]|].
  destruct (cidr_parse r) as [c|] eqn:E; [|done]. cbn [mbind option_bind].
  destruct (parse_all ranges) as [cs'|]; [|done]. cbn. intros [= <-].
  constructor; [by eapply cidr_parse_ok|by apply IH].
Qed.

Lemma proxies_parse_ok ranges cs : proxies_parse ranges = Some cs -> Forall cidr_ok cs.
Proof.
  unfold proxies_parse. destruct (filter _ _) as [|r [|r2 rs]]; intros H; try by eapply parse_all_ok.
  case_split; [by injection H as <-|by eapply parse_all_ok].
Qed.

Lemma proxies_contain_spec proxies ip :
  Forall cidr_ok proxies -> ip_ok ip ->
  proxies_contain proxies ip = true <-> Exists (fun c => in_range c ip) proxies.
Proof.
  intros Hp Hip. unfold proxies_contain. rewrite existsb_exists, Exists_exists.
  rewrite Forall_forall in Hp. split.
  - intros (c & Hc & H). apply list_elem_of_In in Hc. exists c. split; [done|]. apply cidr_contains_spec; auto.
  - intros (c & Hc & H). exists c. split; [by apply list_elem_of_In|]. apply cidr_contains_spec; auto.
Qed.

(** *** Keys *)

(** The client a key stands for: an IPv4 address, or the first 64 bits of an IPv6 one. *)
Definition bucket (ip : IpAddr) : IpAddr :=
  match canonical ip with V4 n => V4 n | V6 n => V6 (n / 2 ^ 64) end.

Lemma client_network n :
  0 <= n < 2 ^ 128 -> Z.land n (Z.shiftl (Z.ones 128) 64 mod 2 ^ 128) = n / 2 ^ 64 * 2 ^ 64.
Proof.
  intros Hn. rewrite <- Z.shiftl_mul_pow2, <- Z.shiftr_div_pow2 by lia.
  apply Z.bits_inj'. intros i Hi. rewrite Z.land_spec.
  destruct (Z.lt_ge_cases i 64).
  - rewrite Z.shiftl_spec_low by lia. rewrite Z.mod_pow2_bits_low by lia.
    rewrite Z.shiftl_spec_low by lia. apply andb_false_r.
  - rewrite (Z.shiftl_spec _ 64 i), Z.shiftr_spec by lia. replace (i - 64 + 64) with i by lia.
    destruct (Z.lt_ge_cases i 128).
    + rewrite Z.mod_pow2_bits_low, Z.shiftl_spec, Z.ones_spec_low by lia. apply andb_true_r.
    + rewrite Z.mod_pow2_bits_high by lia. rewrite andb_false_r.
      rewrite <- (Z.mod_small n (2 ^ 128)) by done. symmetry. apply Z.mod_pow2_bits_high. lia.
Qed.

Lemma network_canonical m : 0 <= m < 2 ^ 64 -> canonical_ip (V6 (m * 2 ^ 64)) /\ ip_ok (V6 (m * 2 ^ 64)).
Proof.
  intros Hm. split; [|cbn [ip_ok]; change (2 ^ 128) with (2 ^ 64 * 2 ^ 64); nia].
  cbn [canonical_ip]. unfold to_ipv4_mapped. rewrite Z.shiftr_div_pow2 by lia.
  change (2 ^ 64) with (2 ^ 32 * 2 ^ 32). rewrite Z.mul_assoc, Z.div_mul by lia.
  destruct (m * 2 ^ 32 =? 65535) eqn:E; [|done]. bsimp. lia.
Qed.

Lemma ip_string_inj a b :
  ip_ok a -> ip_ok b -> canonical_ip a -> canonical_ip b -> ip_string a = ip_string b -> a = b.
Proof.
  intros Ha Hb Hca Hcb H. apply (f_equal parse_ip) in H. rewrite !parse_ip_string in H by done. by injection H.
Qed.

Lemma no_slash a : byte_of_ascii "/" ∉ as_bytes (ip_string a).
Proof.
  unfold ip_string. rewrite as_of_bytes by apply ip_bytes_ok. apply not_ip_char.
  change (byte_of_ascii "/") with 47. unfold ip_char. lia.
Qed.

(** ** The properties *)

(** who a request counts for. The header of a proxy is believed only when the connection comes from a
    configured range (the same family and first bits), whatever the headers say; and two requests share a budget
    exactly when they are from the same IPv4 address or the same IPv6 /64. *)
Theorem client_identity ranges proxies source headers a b :
  proxies_parse ranges = Some proxies -> ip_ok source -> ip_ok a -> ip_ok b ->
  (~ Exists (fun c => in_range c (canonical source)) proxies -> client proxies source headers = canonical source) /\
  (forall value ip, Exists (fun c => in_range c (canonical source)) proxies ->
     header_get headers CLIENT_HEADER = Some value -> header_str value = Some ip ->
     client proxies source headers
     = match parse_ip (str_trim ip) with Some ip => canonical ip | None => canonical source end) /\
  (client_key a = client_key b <-> bucket a = bucket b).
Proof.
  intros Hp Hs Ha Hb. apply proxies_parse_ok in Hp. destruct (canonical_ok source Hs) as [Hcs _].
  pose proof (proxies_contain_spec proxies (canonical source) Hp Hcs) as Hspec. split_and!.
  - intros Hn. unfold client. destruct (proxies_contain proxies (canonical source)); [|done]. tauto.
  - intros value ip Hin Hg Hstr. unfold client. rewrite (proj2 Hspec Hin). cbn [negb].
    rewrite Hg. cbn [mbind option_bind]. by rewrite Hstr.
  - unfold client_key, bucket.
    destruct (canonical_ok a Ha) as [Hca Hcca], (canonical_ok b Hb) as [Hcb Hccb].
    assert (forall n, 0 <= n < 2 ^ 128 -> 0 <= n / 2 ^ 64 < 2 ^ 64) as Hdiv.
    { intros n Hn. split; [apply Z.div_pos; lia|apply Z.div_lt_upper_bound; lia]. }
    destruct (canonical a) as [n|n], (canonical b) as [m|m]; cbn [ip_ok] in *.
    + split; [|by intros [= ->]]. by apply ip_string_inj.
    + split; [|done]. intros H. exfalso. apply (no_slash (V4 n)). rewrite H, as_bytes_app. apply elem_of_app. right. left.
    + split; [|done]. intros H. exfalso. apply (no_slash (V4 m)). rewrite <- H, as_bytes_app. apply elem_of_app. right. left.
    + rewrite !client_network by done. split; [|by intros [= ->]].
      intros H. apply (f_equal as_bytes) in H. rewrite !as_bytes_app in H. apply app_inv_tail in H.
      apply (inj as_bytes) in H.
      destruct (network_canonical _ (Hdiv n Hca)), (network_canonical _ (Hdiv m Hcb)).
      apply ip_string_inj in H; [|done..]. injection H as H. f_equal. lia.
Qed.

Lemma client_identity_witness :
  client_key (V6 (2 ^ 100 + 5)) = client_key (V6 (2 ^ 100 + 9)) <-> bucket (V6 (2 ^ 100 + 5)) = bucket (V6 (2 ^ 100 + 9)).
Proof.
  apply (client_identity ["10.0.0.0/8"] [mkCidr (V4 167772160) 8] (V4 1) [] (V6 (2 ^ 100 + 5)) (V6 (2 ^ 100 + 9)));
    [vm_compute; reflexivity|cbn; lia|cbn; lia|cbn; lia].
Defined.

(** ** Rates *)

(** Requests of every server for one key, at once: a request reads its clock when it starts, and then its statements run one by one
    between those of the others, each answered or not. [po_pruned] is the latest time a prune of the table used. *)
Record Pool := mkPool { po_db : Db; po_requests : list (Z * option (Prog Verdict)); po_pruned : Z }.

Inductive PoolEvent :=
| RStart (now : Z)
| RStep (i : nat) (f : Fault)
| ROther (s : Stmt).

Section Pool.
Context (name : string) (rate : Rate).

(** What a request is after its next statement; [None] once it failed. *)
Definition prog_step (p : Prog Verdict) (f : Fault) (d : Db) : Db * option (Prog Verdict) :=
  match p, f with
  | PRet v, _ => (d, Some (PRet v))
  | PStmt s k, Answered => let '(d', o) := exec s d in (d', Some (k o))
  | PStmt s k, Lost => (d, None)
  | PStmt s k, AnswerLost => (fst (exec s d), None)
  | PRead k, Answered => (d, Some (k d))
  | PRead _, _ => (d, None)
  end.

Definition pool_step (st : Pool) (ev : PoolEvent) : Pool :=
  match ev with
  | RStart now => mkPool (po_db st) (po_requests st ++ [(now, Some (take_rate_loop 2 name now rate))]) (po_pruned st)
  | RStep i f =>
      match po_requests st !! i with
      | Some (now, Some p) =>
          let '(d, p') := prog_step p f (po_db st) in mkPool d (<[i := (now, p')]> (po_requests st)) (po_pruned st)
      | _ => st
      end
  | ROther s =>
      mkPool (fst (exec s (po_db st))) (po_requests st)
        (match s with SPruneRates now _ => Z.max (po_pruned st) now | _ => po_pruned st end)
  end.
Definition pool_run (events : list PoolEvent) (st : Pool) : Pool := fold_left pool_step events st.

(** How many requests were told they are allowed. *)
Definition is_allowed (r : Z * option (Prog Verdict)) : bool := match r.2 with Some (PRet Allowed) => true | _ => false end.
Definition allowed (st : Pool) : nat := length (filter (fun r => is_allowed r = true) (po_requests st)).

(** Clocks show times from [start] to [e]; a request does not go on after a prune with a later clock than its own; nothing but
    prunes and the requests touches the key. *)
Definition in_period (start e : Z) (st : Pool) (ev : PoolEvent) : Prop :=
  match ev with
  | RStart now => start <= now <= e
  | RStep i _ => match po_requests st !! i with Some (now, _) => po_pruned st <= now | None => True end
  | ROther (SPruneRates now _) => now <= e
  | ROther (STakeRate n _ _ _) | ROther (SInsertRate n _) => n <> name
  | ROther _ => True
  end.
Fixpoint in_periods (start e : Z) (st : Pool) (events : list PoolEvent) : Prop :=
  match events with
  | [] => True
  | ev :: events' => in_period start e st ev /\ in_periods start e (pool_step st ev) events'
  end.

Lemma exec_rate_other s d :
  match s with
  | STakeRate n _ _ _ | SInsertRate n _ => n <> name
  | SPruneRates _ _ => False
  | _ => True
  end -> rate_limits (fst (exec s d)) !! name = rate_limits d !! name.
Proof.
  destruct s; intros Hs; try done; cbn [exec]; try (destruct (record_flags record) as [dl iss]); try split_update;
    cbn [fst set_tunnels set_jobs set_rate_limits set_meta_table set_server_certificates rate_limits]; try done;
    repeat (case_split; cbn [fst set_tunnels set_jobs set_rate_limits set_meta_table set_server_certificates rate_limits]);
    try done; by rewrite lookup_insert_ne.
Qed.

(** The budget already spent: [k] grants since [start]. *)
Definition spent (start e k t : Z) (d : Db) : Prop :=
  start + k * interval_ms rate <= match rate_limits d !! name with Some tat => Z.max tat t | None => t end /\
  start + k * interval_ms rate <= e + tolerance_ms rate + interval_ms rate.

(** The points a request waits at, and that its statements grant what they take. *)
Inductive waits (now : Z) : Prog Verdict -> Prop :=
| waits_done v : waits now (PRet v)
| waits_loop tries : waits now (take_rate_loop tries name now rate)
| waits_insert tries : waits now (PStmt (SInsertRate name (now + interval_ms rate)) (fun o =>
    match o with Duplicate => take_rate_loop tries name now rate | _ => PRet Allowed end)).

Hypothesis Hi : 0 < interval_ms rate.

Lemma take_spent start e k t now d :
  spent start e k t d -> t <= now <= e ->
  let '(d', o) := exec (STakeRate name now (interval_ms rate) (tolerance_ms rate)) d in
  spent start e (if (affected o =? 1)%nat then k + 1 else k) t d'.
Proof.
  unfold spent. intros [H1 H2] Ht. cbn [exec]. split_update; cbn [affected Nat.eqb set_rate_limits rate_limits]; [|by split].
  match goal with Hl : rate_limits d !! name = Some _ |- _ => rewrite Hl in H1 end. rewrite lookup_insert_eq. bsimp. lia.
Qed.

Lemma insert_spent start e k t now d :
  0 <= tolerance_ms rate -> spent start e k t d -> t <= now <= e ->
  let '(d', o) := exec (SInsertRate name (now + interval_ms rate)) d in
  spent start e (match o with Duplicate => k | _ => k + 1 end) t d'.
Proof.
  unfold spent. intros HT [H1 H2] Ht. cbn [exec]. destruct (rate_limits d !! name) as [old|] eqn:El.
  - by rewrite El.
  - cbn [set_rate_limits rate_limits]. rewrite lookup_insert_eq. lia.
Qed.

(** One step of a request: what it is told was spent. *)
Lemma prog_step_spent start e k t now p f d d' p' :
  0 <= tolerance_ms rate -> waits now p -> t <= now <= e -> spent start e k t d -> prog_step p f d = (d', p') ->
  (forall q, p' = Some q -> waits now q) /\
  exists k', spent start e k' t d' /\ k + (if is_allowed (now, p') then 1 else 0) <= k' + (if is_allowed (now, Some p) then 1 else 0).
Proof.
  intros HT Hw Hn Hs. pose proof (take_spent _ _ _ _ _ _ Hs Hn) as Htake. pose proof (insert_spent _ _ _ _ _ _ HT Hs Hn) as Hins.
  assert (forall v, is_allowed (now, Some (PRet v)) = match v with Allowed => true | _ => false end) as Ha by (by intros []).
  destruct Hw as [v|[|tries]|tries]; cbn [prog_step take_rate_loop].
  - intros [= <- <-]. split; [intros q [= <-]; constructor|]. exists k. split; [done|lia].
  - destruct f; intros [= <- <-]; (split; [intros q [= <-]; constructor|exists k; split; [done|cbn; lia]]).
  - destruct (exec (STakeRate _ _ _ _) d) as [d1 o] eqn:Eo. destruct f; intros [= <- <-].
    + destruct (affected o =? 1)%nat; (split; [intros q [= <-]; constructor|]); eexists; (split; [exact Htake|cbn; lia]).
    + split; [done|]. exists k. split; [done|cbn; lia].
    + split; [done|]. destruct (affected o =? 1)%nat; eexists; (split; [exact Htake|cbn; lia]).
  - destruct (exec (SInsertRate _ _) d) as [d1 o] eqn:Eo. destruct f; intros [= <- <-].
    + split; [intros q [= <-]; destruct o; constructor|].
      destruct o; eexists; (split; [exact Hins|]); cbn; try lia. by destruct tries.
    + split; [done|]. exists k. split; [done|cbn; lia].
    + split; [done|]. destruct o; eexists; (split; [exact Hins|cbn; lia]).
Qed.

Lemma allowed_insert st i now p p' d t :
  po_requests st !! i = Some (now, Some p) ->
  Z.of_nat (allowed (mkPool d (<[i := (now, p')]> (po_requests st)) t)) + (if is_allowed (now, Some p) then 1 else 0) =
  Z.of_nat (allowed st) + (if is_allowed (now, p') then 1 else 0).
Proof.
  intros Hp. assert (forall l1 x l2, Z.of_nat (length (filter (fun r => is_allowed r = true) (l1 ++ x :: l2))) =
    Z.of_nat (length (filter (fun r => is_allowed r = true) l1)) + (if is_allowed x then 1 else 0) +
    Z.of_nat (length (filter (fun r => is_allowed r = true) l2))) as Hf.
  { intros l1 x l2. rewrite filter_app, filter_cons, length_app. destruct (is_allowed x); [rewrite decide_True by done|rewrite decide_False by done]; cbn; lia. }
  unfold allowed. cbn [po_requests]. rewrite insert_take_drop by by eapply lookup_lt_Some. rewrite Hf.
  rewrite <- (take_drop_middle (po_requests st) i _ Hp) at 3. rewrite Hf. lia.
Qed.

Record pool_ok (start e : Z) (st : Pool) : Prop := mkPoolOk {
  pk_pruned : start <= po_pruned st <= e;
  pk_waits i now p : po_requests st !! i = Some (now, Some p) -> waits now p;
  pk_times i now p : po_requests st !! i = Some (now, p) -> start <= now <= e;
  pk_spent : exists k, spent start e k (po_pruned st) (po_db st) /\ Z.of_nat (allowed st) <= k;
}.

Lemma other_spent start e k t s d : spent start e k t d -> t <= e ->
  match s with STakeRate n _ _ _ | SInsertRate n _ => n <> name | _ => True end ->
  spent start e k (match s with SPruneRates now _ => Z.max t now | _ => t end) (fst (exec s d)).
Proof.
  intros [H1 H2] Ht Hs. split; [|done].
  assert (match s with SPruneRates _ _ => True | _ => rate_limits (fst (exec s d)) !! name = rate_limits d !! name end) as Heq
    by (destruct s; try done; by apply exec_rate_other).
  destruct s; try (by rewrite Heq). cbn [exec fst set_rate_limits rate_limits]. rewrite lookup_difference.
  destruct (filter _ (rate_limits d) !! name) as [tat|] eqn:Ef.
  - apply map_lookup_filter_Some in Ef as [Hl [Hlt _]]. rewrite Hl in H1. cbn in Hlt. lia.
  - destruct (rate_limits d !! name); lia.
Qed.

Lemma pool_ok_step start e st ev :
  0 <= tolerance_ms rate -> pool_ok start e st -> in_period start e st ev -> pool_ok start e (pool_step st ev).
Proof.
  intros HT [H1 H2 H3 (k & Hk & Hle)] Hev. destruct ev as [now|i f|s]; cbn [pool_step in_period] in *.
  - split; cbn [po_pruned po_requests po_db]; [done| | |].
    + intros i n p [[_ Hy]|[_ Hx]]%lookup_snoc_Some; [by eapply H2 || by eapply H3|]. injection Hx as <- <-. exact (waits_loop now 2).
    + intros i n p [[_ Hy]|[_ Hx]]%lookup_snoc_Some; [by eapply H2 || by eapply H3|]. by injection Hx as <- <-.
    + exists k. split; [done|]. unfold allowed in *. cbn [po_requests]. rewrite filter_app, length_app, filter_cons_False by done. rewrite filter_nil. cbn [length]. lia.
  - destruct (po_requests st !! i) as [[now [p|]]|] eqn:Ei; [|by split; eauto..].
    destruct (prog_step p f (po_db st)) as [d p'] eqn:Ep. pose proof (H3 _ _ _ Ei) as Hn.
    destruct (prog_step_spent start e k (po_pruned st) now p f _ _ _ HT (H2 _ _ _ Ei) ltac:(lia) Hk Ep) as (Hw & k' & Hk' & Hc).
    split; cbn [po_pruned po_requests po_db]; [done| | |].
    + intros j n q [(<- & Hx & _)|[_ ?]]%list_lookup_insert_Some; [|eauto]. injection Hx as <- ->. by apply Hw.
    + intros j n q [(<- & Hx & _)|[_ ?]]%list_lookup_insert_Some; [|eauto]. by injection Hx as <- _.
    + exists k'. split; [done|]. pose proof (allowed_insert st i now p p' d (po_pruned st) Ei). lia.
  - split; cbn [po_pruned po_requests po_db]; [destruct s; try done; lia|done|done|]. exists k. split; [|done].
    apply other_spent; [done|lia|]. by destruct s.
Qed.

(** What others write before a statement of a request. *)
Lemma pool_others ss : forall st, po_db (pool_run (map ROther ss) st) = run ss (po_db st) /\ po_requests (pool_run (map ROther ss) st) = po_requests st.
Proof. induction ss as [|s ss IH]; intros st; [done|]. destruct (IH (pool_step st (ROther s))) as [E1 E2]. split; [exact E1|exact E2]. Qed.

(** A program that runs to its answer runs so as a request of a pool, whatever other requests the pool has. *)
Lemma interp_pool p : forall d turns v d' turns' st i now,
  interp p (d, turns) = (Ok v, (d', turns')) -> po_db st = d -> po_requests st !! i = Some (now, Some p) ->
  exists steps, po_db (pool_run steps st) = d' /\ po_requests (pool_run steps st) = <[i := (now, Some (PRet v))]> (po_requests st).
Proof.
  assert (forall ss st i now q d, po_requests st !! i = Some (now, Some q) -> forall d1 q1, prog_step q Answered (run ss d) = (d1, Some q1) -> po_db st = d ->
    exists st1, pool_run (map ROther ss ++ [RStep i Answered]) st = st1 /\ po_db st1 = d1 /\ po_requests st1 = <[i := (now, Some q1)]> (po_requests st)) as Hstep.
  { intros ss st i now q d Hi' d1 q1 Hq <-. eexists. split; [done|]. unfold pool_run. rewrite fold_left_app. fold (pool_run (map ROther ss) st).
    destruct (pool_others ss st) as [E1 E2]. cbn [fold_left]. unfold pool_step. rewrite E2, Hi', E1, Hq. done. }
  assert (forall steps1 st1 st i x now v d', pool_run steps1 st = st1 -> po_requests st1 = <[i := x]> (po_requests st) ->
    (exists steps, po_db (pool_run steps st1) = d' /\ po_requests (pool_run steps st1) = <[i := (now, Some (PRet v))]> (po_requests st1)) ->
    exists steps, po_db (pool_run steps st) = d' /\ po_requests (pool_run steps st) = <[i := (now, Some (PRet v))]> (po_requests st)) as Hjoin.
  { intros steps1 st1 st i x now v d' <- Er (steps & H1 & H2). exists (steps1 ++ steps). unfold pool_run in *. rewrite fold_left_app. split; [done|].
    rewrite H2, Er. by rewrite list_insert_insert_eq. }
  induction p as [v0|s k IH|k IH]; intros d turns v d' turns' st i now; cbn [interp].
  - intros [= <- <- <-] Hd Hi'. exists []. split; [done|]. cbn. symmetry. by apply list_insert_id.
  - unfold bind, stmt. destruct (next_turn turns) as [t turns1] eqn:Et. cbn [fst snd]. destruct (exec s (run (others t) d)) as [d1 o] eqn:Eo.
    destruct (fault t); [|done..]. intros H Hd Hi'. destruct (Hstep (others t) st i now _ d Hi' d1 (k o)) as (st1 & E & Hd1 & Hr1); [cbn; by rewrite Eo|done|].
    eapply Hjoin; [exact E|exact Hr1|]. eapply IH; [exact H|done|]. rewrite Hr1. apply list_lookup_insert_eq. by eapply lookup_lt_Some.
  - unfold bind, query. destruct (next_turn turns) as [t turns1] eqn:Et. cbn [fst snd].
    destruct (fault t); [|done..]. intros H Hd Hi'. destruct (Hstep (others t) st i now _ d Hi' (run (others t) d) (k (run (others t) d))) as (st1 & E & Hd1 & Hr1); [done|done|].
    eapply Hjoin; [exact E|exact Hr1|]. eapply IH; [exact H|done|]. rewrite Hr1. apply list_lookup_insert_eq. by eapply lookup_lt_Some.
Qed.
End Pool.

(** C13: the rate limit holds across every server. Requests of all servers for one key run at once, their statements interleaved in
    any way, answered or lost, with rows pruned in between, on clocks that show times from [start] to [e] in any order: at most the
    burst (the tolerance over the interval, and one) and one more per interval of the period are told they are allowed. The
    exception is a prune with a later clock than a request that has yet to go on, which could forget what was spent. A call of
    [take_rate] is such a request: what it answers, one of the pool is told, and leaves the same database. *)
Theorem rate_limit_holds name rate start e events d :
  0 < interval_ms rate -> 0 <= tolerance_ms rate -> start <= e ->
  in_periods name rate start e (mkPool d [] start) events ->
  Z.of_nat (allowed (pool_run name rate events (mkPool d [] start))) <= 1 + (tolerance_ms rate + (e - start)) / interval_ms rate /\
  (forall now st turns v d' turns', take_rate name now rate (po_db st, turns) = (Ok v, (d', turns')) ->
     exists steps, let st' := pool_run name rate (RStart now :: steps) st in
       po_db st' = d' /\ po_requests st' = po_requests st ++ [(now, Some (PRet v))]).
Proof.
  intros Hi HT Hse Hev. split; cycle 1.
  { intros now st turns v d' turns' H. destruct (interp_pool name rate _ _ _ _ _ _ (pool_step name rate st (RStart now)) (length (po_requests st)) now H) as (steps & H1 & H2); [done|by apply list_lookup_middle|].
    exists steps. split; [exact H1|]. cbn [pool_run fold_left] in *. unfold pool_run in H2 |- *. cbn [fold_left]. rewrite H2. cbn [pool_step po_requests].
    by rewrite insert_app_r_alt, Nat.sub_diag. }
  assert (pool_ok name rate start e (mkPool d [] start)) as Hok.
  { split; cbn; [lia|done|done|]. exists 0. split; [|done]. split; [destruct (rate_limits d !! name); lia|lia]. }
  revert Hev Hok. generalize (mkPool d [] start) as st. unfold pool_run.
  induction events as [|ev events IH]; intros st Hev Hok; cbn [fold_left].
  - destruct Hok as [_ _ _ (k & [_ Hk] & Hle)].
    assert (k - 1 <= (tolerance_ms rate + (e - start)) / interval_ms rate); [apply Z.div_le_lower_bound; lia|lia].
  - destruct Hev as [H1 H2]. apply IH; [exact H2|by apply pool_ok_step].
Qed.

(** Two servers, the key unknown: both try to update and to insert its row; with a burst of two both are allowed, a third is not. *)
Definition sample_requests : list PoolEvent :=
  [RStart 100; RStart 101; RStep 0 Answered; RStep 1 Answered; RStep 1 Answered; RStep 0 Answered; RStep 0 Answered; RStart 101;
   ROther (SPruneRates 100 ["k"]); RStep 2 Answered; RStep 2 Answered; RStep 2 Answered; RStep 2 Answered; RStep 2 Answered].

Lemma rate_limit_holds_witness :
  allowed (pool_run "k" (mkRate 10 10) sample_requests (mkPool sample_db [] 100)) = 2%nat /\
  Z.of_nat (allowed (pool_run "k" (mkRate 10 10) sample_requests (mkPool sample_db [] 100))) <= 1 + (10 + (101 - 100)) / 10.
Proof.
  split; [vm_compute; reflexivity|].
  apply (rate_limit_holds "k" (mkRate 10 10) 100 101 sample_requests sample_db); [cbn; lia|cbn; lia|lia|].
  vm_compute. repeat split; first [discriminate | exact I].
Defined.

(** [Retry-After] is exact. When nothing else touches the key, a request limited at [now] is limited at every
    earlier time than what it was told to wait, and allowed then. *)
Theorem retry_after_exact name now rate d retry_after :
  0 < interval_ms rate -> 0 <= tolerance_ms rate ->
  take_rate name now rate (d, []) = (Ok (Limited retry_after), (d, [])) ->
  0 < retry_after /\
  (forall later, now <= later < now + retry_after -> exists r,
     take_rate name later rate (d, []) = (Ok (Limited r), (d, []))) /\
  exists d', take_rate name (now + retry_after) rate (d, []) = (Ok Allowed, (d', [])).
Proof.
  intros Hi Ht.
  assert (forall t, take_rate name t rate (d, []) =
    match rate_limits d !! name with
    | None => (Ok Allowed, (set_rate_limits (<[name := t + interval_ms rate]> (rate_limits d)) d, []))
    | Some tat =>
        if Z.max tat t <=? t + tolerance_ms rate
        then (Ok Allowed, (set_rate_limits (<[name := Z.max tat t + interval_ms rate]> (rate_limits d)) d, []))
        else (Ok (Limited (Z.max (tat - tolerance_ms rate - t) 1)), (d, []))
    end) as Heq.
  { intros t. unfold take_rate. cbn [take_rate_loop interp]. unfold bind, stmt, query, update_where. cbn.
    unfold update_where.
    destruct d as [tn jb rl mt sc]. cbn [rate_limits set_rate_limits].
    destruct (rl !! name) as [tat|] eqn:E; [destruct (Z.max tat t <=? t + tolerance_ms rate) eqn:Ec|];
      repeat progress (unfold bind, stmt, query, update_where, ret; cbn; rewrite ?E, ?Ec); done. }
  rewrite Heq. destruct (rate_limits d !! name) as [tat|] eqn:El; [|done].
  case_split; [done|]. bsimp. intros [= <-].
  split; [lia|]. split.
  - intros later Hl. rewrite Heq. rewrite (proj2 (Z.leb_gt _ _)) by lia. eauto.
  - rewrite Heq. rewrite (proj2 (Z.leb_le _ _)) by lia. eauto.
Qed.

Lemma retry_after_exact_witness :
  exists d', take_rate "k" 120 (mkRate 10 20) (mkDb ∅ ∅ {["k" := 140]} ∅ ∅, []) = (Ok Allowed, (d', [])).
Proof.
  apply (retry_after_exact "k" 110 (mkRate 10 20) (mkDb ∅ ∅ {["k" := 140]} ∅ ∅) 10);
    [cbn; lia|cbn; lia|vm_compute; reflexivity].
Defined.
