(* ===== verification/PeerAuth.v ===== *)
(** * PeerAuth: how machines authenticate each other

    [peer_auth.rs] (the signed message, proofs and nonces), the signed requests of [cluster.rs] with the header of a
    forwarded visitor, and the handshake of a mesh link ([mesh.rs], [accept] and [dial]). *)

From Stdlib Require Import ZArith Lia Ascii String List.
From stdpp Require Import base list strings gmap.
From S2P Require Import Prelude Text Addr Limits.

(** ** [crypto::hex] and [decode_hex] *)

Definition hex_bytes (data : bytes) : bytes := concat (map (fun b => [hex_digit (b / 16); hex_digit (b mod 16)]) data).
Definition hex (data : bytes) : string := of_bytes (hex_bytes data).

(** [u8::from_str_radix(_, 16)] of two bytes, which takes a leading [+]. *)
Definition from_hex_pair (x y : Z) : option Z :=
  if x =? 43 then hex_value y
  else let* hi := hex_value x in let* lo := hex_value y in Some (16 * hi + lo).

Fixpoint decode_pairs (l : bytes) : option bytes :=
  match l with
  | x :: y :: l' => let* b := from_hex_pair x y in let* rest := decode_pairs l' in Some (b :: rest)
  | _ => Some []
  end.

Definition decode_hex (value : string) : option bytes :=
  if negb (Nat.even (str_len value)) || (128 <? str_len value)%nat then None else decode_pairs (as_bytes value).

(** ** [peer_auth.rs] *)

Definition MAX_SKEW_MS : Z := 30000.
Definition MAX_NONCES : nat := Z.to_nat 100000.

(** [(len as u32).to_be_bytes()] wraps. *)
Definition message (parts : list string) : bytes :=
  concat (map (fun part => be_bytes 4 (Z.of_nat (str_len part) mod 2 ^ 32) ++ as_bytes part) parts).

Definition fresh (timestamp now : Z) : bool := Z.abs (timestamp - now) <=? MAX_SKEW_MS.

(** [times[times.len() / 2]] of the sorted times. *)
Definition median (seen : gmap string Z) : Z :=
  let times := sort_by id (map snd (map_to_list seen)) in
  match times !! (length times / 2)%nat with Some m => m | None => 0 end.

(** The nonces kept when there are too many. *)
Definition unexpired (seen : gmap string Z) (now : Z) : gmap string Z :=
  filter (fun kv => sat_sub now MAX_SKEW_MS <= kv.2) seen.

Definition pruned (seen : gmap string Z) (now : Z) : gmap string Z :=
  if (MAX_NONCES <=? size seen)%nat then
    let seen := unexpired seen now in
    if (MAX_NONCES <=? size seen)%nat then filter (fun kv => median seen < kv.2) seen else seen
  else seen.

(** [Nonces::first_use] *)
Definition first_use (seen : gmap string Z) (nonce : string) (timestamp now : Z) : bool * gmap string Z :=
  let seen := pruned seen now in
  match seen !! nonce with
  | Some _ => (false, seen)
  | None => (true, <[nonce := timestamp]> seen)
  end.

Section Secret.
(** HMAC-SHA256 of [ring]: 32 bytes; [hmac::verify] accepts exactly the tag [hmac::sign] makes. *)
Context (hmac : string -> bytes -> bytes).
Context (hmac_32 : forall key m, length (hmac key m) = 32%nat /\ bytes_ok (hmac key m)).
(** The shared secret. *)
Context (token : string).

Definition sign_parts (parts : list string) : string := hex (hmac token (message parts)).
Definition verify_parts (parts : list string) (proof : string) : bool :=
  match decode_hex proof with
  | Some tag => bool_decide (tag = hmac token (message parts))
  | None => false
  end.

(** ** Signed requests: [Cluster::sign] and [Cluster::verify] *)

Definition sign (machine_id label receiver : string) (fields : list string) (now : Z) (nonce : string) : string :=
  let timestamp := dec_string now in
  let proof := sign_parts (label :: machine_id :: receiver :: timestamp :: nonce :: fields) in
  machine_id +:+ " " +:+ receiver +:+ " " +:+ timestamp +:+ " " +:+ nonce +:+ " " +:+ proof.

Record Signed := mkSigned {
  sg_sender : string;
  sg_receiver : string;
  sg_timestamp : string;
  sg_nonce : string;
  sg_proof : string;
}.

Inductive AuthError := AnotherMachine | BadTimestamp | Stale | BadSignature | Replayed | NotLinked | Malformed.

Definition verify (machine_id label : string) (seen : gmap string Z) (s : Signed) (fields : list string) (now : Z)
    : result unit AuthError * gmap string Z :=
  if negb (String.eqb (sg_receiver s) machine_id) then (Err AnotherMachine, seen)
  else
    match parse_uint U64_MAX (as_bytes (sg_timestamp s)) with
    | None => (Err BadTimestamp, seen)
    | Some at_ =>
        if negb (fresh at_ now) then (Err Stale, seen)
        else if negb (verify_parts (label :: sg_sender s :: sg_receiver s :: sg_timestamp s :: sg_nonce s :: fields)
                        (sg_proof s))
        then (Err BadSignature, seen)
        else
          let '(first, seen) := first_use seen (sg_nonce s) at_ now in
          if first then (Ok tt, seen) else (Err Replayed, seen)
    end.

(** [Cluster::check_sender], with what the mesh knows of the sender's address. *)
Definition check_sender (peer_address : string -> option string) (sender : string) (connection : SocketAddr) : result unit AuthError :=
  match peer_address sender with
  | None => Err NotLinked
  | Some address =>
      match parse_socket address with
      | Some address => if decide (canonical (ip address) = canonical (ip connection)) then Ok tt else Err NotLinked
      | None => Err NotLinked
      end
  end.

(** ** The header of a forwarded visitor: [Cluster::open] and [internal_connection] *)

Definition FORWARD_MAGIC : bytes := as_bytes "OPENTUNNEL-FORWARD/2 ".
Definition FORWARD_LABEL : string := "opentunnel forward/2".
Definition MAX_HEADER : nat := 1024.

(** What [open] writes; [rsplit_once] finds the proof, which has no space. *)
Definition forward_header (machine_id receiver tunnel route visitor : string) (initial : bytes) (now : Z) (nonce : string)
    : option bytes :=
  let signed := sign machine_id FORWARD_LABEL receiver [tunnel; route; visitor] now nonce in
  let* (identity, proof) := str_rsplit_once " " signed in
  Some (FORWARD_MAGIC
        ++ as_bytes (identity +:+ " " +:+ tunnel +:+ " " +:+ route +:+ " " +:+ visitor +:+ " " +:+ proof)
        ++ [10] ++ initial).

(** Reads until the first line has arrived: the chunks the socket gives, an empty one when it ended. The line, what of the chunk it
    ended in is left, and the chunks still to come. *)
Fixpoint read_header (chunks : list bytes) (buffer : bytes) : option (bytes * bytes * list bytes) :=
  match split_once_l 10 buffer with
  | Some (line, rest) => Some (line, rest, chunks)
  | None =>
      if (MAX_HEADER <=? length buffer)%nat then None
      else match chunks with
           | [] | [] :: _ => None
           | chunk :: chunks' => read_header chunks' (buffer ++ chunk)
           end
  end.

Record Forward := mkForward {
  fw_sender : string;
  fw_tunnel : string;
  fw_route : string;
  fw_visitor : string;
  fw_rest : bytes;
  fw_stream : list bytes;
}.

(** [internal_connection] up to the checked fields. *)
Definition receive_forward (machine_id : string) (seen : gmap string Z) (chunks : list bytes) (now : Z)
    : result Forward AuthError * gmap string Z :=
  match read_header chunks [] with
  | None => (Err Malformed, seen)
  | Some (line, rest, stream) =>
      match strip_prefix_l FORWARD_MAGIC line with
      | None => (Err Malformed, seen)
      | Some line =>
          match from_utf8 line with
          | None => (Err Malformed, seen)
          | Some line =>
              match str_split " " line with
              | [sender; receiver; timestamp; nonce; tunnel; route; visitor; proof] =>
                  let '(r, seen) := verify machine_id FORWARD_LABEL seen
                                      (mkSigned sender receiver timestamp nonce proof) [tunnel; route; visitor] now in
                  match r with
                  | Ok _ => (Ok (mkForward sender tunnel route visitor rest stream), seen)
                  | Err e => (Err e, seen)
                  end
              | _ => (Err Malformed, seen)
              end
          end
      end
  end.
End Secret.

(** ** Lemmas *)

Lemma hex_digit_value n : 0 <= n < 16 -> hex_value (hex_digit n) = Some n /\ hex_digit n <> 43 /\ byte_ok (hex_digit n) /\ hex_digit n <> 32 /\ hex_digit n <> 10.
Proof.
  intros Hn. unfold hex_digit, hex_value, is_ascii_digit, byte_ok.
  destruct (n <? 10) eqn:E; bsimp; split_and!; try lia; repeat case_split; bsimp; try lia; f_equal; lia.
Qed.

Lemma byte_nibbles b : byte_ok b -> 0 <= b / 16 < 16 /\ 0 <= b mod 16 < 16.
Proof. unfold byte_ok. intros. split; [|apply Z.mod_pos_bound; lia]. split; [apply Z.div_pos; lia|apply Z.div_lt_upper_bound; lia]. Qed.

Lemma length_hex_bytes data : length (hex_bytes data) = (2 * length data)%nat.
Proof. unfold hex_bytes. induction data; cbn [map concat app length]; [done|]. lia. Qed.

Lemma hex_bytes_chars data : bytes_ok data -> Forall (fun b => byte_ok b /\ b <> 32 /\ b <> 10) (hex_bytes data).
Proof.
  induction 1 as [|b l Hb Hl IH]; [constructor|]. destruct (byte_nibbles b Hb) as [H1 H2].
  unfold hex_bytes. cbn [map concat app]. fold (hex_bytes l).
  apply hex_digit_value in H1, H2. constructor; [tauto|]. constructor; [tauto|done].
Qed.

Lemma as_bytes_hex data : bytes_ok data -> as_bytes (hex data) = hex_bytes data.
Proof. intros. apply as_of_bytes. eapply Forall_impl; [by apply hex_bytes_chars|]. naive_solver. Qed.

Lemma decode_pairs_hex data : bytes_ok data -> decode_pairs (hex_bytes data) = Some data.
Proof.
  induction 1 as [|b l Hb Hl IH]; [done|]. destruct (byte_nibbles b Hb) as [H1 H2].
  unfold hex_bytes. cbn [map concat app decode_pairs]. fold (hex_bytes l). rewrite IH. unfold from_hex_pair.
  apply hex_digit_value in H1 as (-> & Hne & _). apply hex_digit_value in H2 as (-> & _).
  rewrite (proj2 (Z.eqb_neq _ _)) by done. cbn. repeat f_equal. pose proof (Z.div_mod b 16). lia.
Qed.

(** [decode_hex] reads back what [hex] writes. *)
Lemma decode_hex_hex data : bytes_ok data -> (length data <= 64)%nat -> decode_hex (hex data) = Some data.
Proof.
  intros Hd Hl. unfold decode_hex, str_len. rewrite as_bytes_hex by done. rewrite length_hex_bytes.
  rewrite Nat.even_mul. cbn [Nat.even orb negb].
  rewrite (proj2 (Nat.ltb_ge _ _)) by lia. by apply decode_pairs_hex.
Qed.

Lemma message_cons part parts :
  message (part :: parts) = be_bytes 4 (Z.of_nat (str_len part) mod 2 ^ 32) ++ as_bytes part ++ message parts.
Proof. unfold message. cbn [map concat]. by rewrite app_assoc. Qed.

Definition short (part : string) : Prop := Z.of_nat (str_len part) < 2 ^ 32.

Lemma message_inj parts parts' :
  Forall short parts -> Forall short parts' -> message parts = message parts' -> parts = parts'.
Proof.
  intros Hs. revert parts'. induction Hs as [|p ps Hp Hps IH]; intros [|q qs] Hs' E; [done| | |].
  - rewrite message_cons in E. apply (f_equal length) in E. rewrite !length_app, length_be_bytes in E. cbn in E. lia.
  - rewrite message_cons in E. apply (f_equal length) in E. rewrite !length_app, length_be_bytes in E. cbn in E. lia.
  - apply Forall_cons in Hs' as [Hq Hqs]. rewrite !message_cons in E.
    apply app_inj_1 in E as [El E]; [|by rewrite !length_be_bytes].
    unfold short in *. rewrite !Z.mod_small in El by lia.
    apply (f_equal be_value) in El. rewrite !be_value_bytes_id in El by (change (256 ^ Z.of_nat 4) with (2 ^ 32); lia).
    apply app_inj_1 in E as [Ep E]; [|unfold str_len in El; lia].
    apply (inj as_bytes) in Ep as ->. f_equal. by apply IH.
Qed.

(** No two different lists of parts sign the same bytes (parts of 4 GiB and more apart): neither can the fields of
    a request be shifted into one another, nor a proof made for one purpose be used for another. *)
Theorem message_injective parts parts' :
  Forall short parts -> Forall short parts' -> parts <> parts' -> message parts <> message parts'.
Proof. intros H1 H2 Hne E. by apply Hne, message_inj. Qed.

Lemma message_injective_witness : message ["ab"; "c"] <> message ["a"; "bc"].
Proof. apply message_injective; [repeat constructor|repeat constructor|discriminate]. Defined.

(** ** Replays *)

Section Replay.
Context (hmac : string -> bytes -> bytes) (token machine_id label : string).

(** Requests received in a row: the signed request, its fields and the clock. *)
Fixpoint verify_all (seen : gmap string Z) (rs : list (Signed * list string * Z)) : list (result unit AuthError) :=
  match rs with
  | [] => []
  | (s, fields, now) :: rs' =>
      let '(r, seen) := verify hmac token machine_id label seen s fields now in r :: verify_all seen rs'
  end.

(** The time a request says it was signed at. *)
Definition signed_at (s : Signed) : option Z := parse_uint U64_MAX (as_bytes (sg_timestamp s)).

(** The nonces that count as remembered: those accepted whose requests are still fresh at [now]. *)
Definition remembered (seen : gmap string Z) (accepted : list (string * Z)) (now : Z) : Prop :=
  (forall nonce at_, (nonce, at_) ∈ accepted -> sat_sub now MAX_SKEW_MS <= at_ -> seen !! nonce = Some at_) /\
  (forall nonce at_, seen !! nonce = Some at_ -> (nonce, at_) ∈ accepted).

(** Fewer than [MAX_NONCES] of the accepted requests were still fresh. *)
Definition uncrowded (accepted : list (string * Z)) (now : Z) : Prop :=
  (length (filter (fun na : string * Z => (sat_sub now MAX_SKEW_MS <= na.2)%Z) accepted) < MAX_NONCES)%nat.

Lemma unexpired_small seen accepted now :
  (forall nonce at_, seen !! nonce = Some at_ -> (nonce, at_) ∈ accepted) -> uncrowded accepted now ->
  (size (unexpired seen now) < MAX_NONCES)%nat.
Proof.
  intros Hin Hu. eapply Nat.le_lt_trans; [|exact Hu]. rewrite <- length_map_to_list.
  apply submseteq_length. apply NoDup_submseteq; [apply NoDup_map_to_list|].
  intros [nonce at_] He. apply elem_of_map_to_list in He. unfold unexpired in He.
  apply map_lookup_filter_Some in He as [He Hat]. cbn in Hat. apply list_elem_of_filter. auto.
Qed.

(** Dropping the expired nonces forgets nothing that could be replayed. *)
Lemma pruned_remembered seen accepted now :
  remembered seen accepted now -> uncrowded accepted now -> remembered (pruned seen now) accepted now.
Proof.
  intros [H1 H2] Hu. unfold pruned. destruct (MAX_NONCES <=? size seen)%nat; [|done].
  pose proof (unexpired_small seen accepted now H2 Hu) as Hs.
  rewrite (proj2 (Nat.leb_gt _ _)) by lia. unfold unexpired. split.
  - intros nonce at_ Hin Hat. apply map_lookup_filter_Some. auto.
  - intros nonce at_ He. apply map_lookup_filter_Some in He as [He _]. auto.
Qed.

Lemma remembered_later seen accepted now now' :
  now <= now' -> remembered seen accepted now -> remembered seen accepted now'.
Proof. intros Hle [H1 H2]. split; [|done]. intros nonce at_ Hin Hat. apply H1; [done|]. unfold sat_sub in *. lia. Qed.

(** One request: if accepted it is new among those remembered, and remembered from then on. *)
Lemma verify_step seen accepted s fields now r seen' :
  remembered seen accepted now -> uncrowded accepted now ->
  verify hmac token machine_id label seen s fields now = (r, seen') ->
  match r with
  | Ok _ => exists at_, signed_at s = Some at_ /\ fresh at_ now = true /\
      (forall at', (sg_nonce s, at') ∈ accepted -> at' < sat_sub now MAX_SKEW_MS) /\
      remembered seen' ((sg_nonce s, at_) :: accepted) now
  | Err _ => remembered seen' accepted now
  end.
Proof.
  intros Hr Hu. unfold verify, signed_at. destruct (negb _); [by intros [= <- <-]|].
  destruct (parse_uint _ _) as [at_|]; [|by intros [= <- <-]].
  destruct (fresh at_ now) eqn:Ef; cbn [negb]; [|by intros [= <- <-]].
  destruct (negb (verify_parts _ _ _ _)); [by intros [= <- <-]|].
  pose proof (pruned_remembered _ _ _ Hr Hu) as [Hp1 Hp2]. unfold first_use.
  destruct (pruned seen now !! sg_nonce s) as [old|] eqn:El; intros [= <- <-]; [done|].
  exists at_. split_and!; [done|done| |].
  - intros at' Hin. destruct (Z.lt_ge_cases at' (sat_sub now MAX_SKEW_MS)) as [|Hge]; [done|].
    pose proof (Hp1 _ _ Hin Hge). congruence.
  - split.
    + intros nonce at' [[= -> ->]|Hin]%elem_of_cons Hat; [by rewrite lookup_insert_eq|].
      pose proof (Hp1 _ _ Hin Hat) as Hl. rewrite lookup_insert_ne; [done|]. intros <-. congruence.
    + intros nonce at' Hl. apply lookup_insert_Some in Hl as [[<- <-]|[_ Hl]]; [by left|right; auto].
Qed.

(** The clock does not go back, and no moment sees [MAX_NONCES] accepted requests still fresh. *)
Fixpoint orderly (seen : gmap string Z) (accepted : list (string * Z)) (clock : Z) (rs : list (Signed * list string * Z)) : Prop :=
  match rs with
  | [] => True
  | (s, fields, now) :: rs' =>
      clock <= now /\ uncrowded accepted now /\
      let '(r, seen') := verify hmac token machine_id label seen s fields now in
      orderly seen' (match r, signed_at s with Ok _, Some at_ => (sg_nonce s, at_) :: accepted | _, _ => accepted end) now rs'
  end.

(** A request whose nonce and time were accepted before is refused. *)
Lemma verify_all_refuses rs : forall seen accepted clock i s fields now at_,
  remembered seen accepted clock -> orderly seen accepted clock rs ->
  rs !! i = Some (s, fields, now) -> signed_at s = Some at_ -> (sg_nonce s, at_) ∈ accepted ->
  verify_all seen rs !! i <> Some (Ok tt).
Proof.
  induction rs as [|[[s0 f0] now0] rs IH]; intros seen accepted clock i s fields now at_ Hr Ho Hi Hat Hin; [done|].
  cbn [orderly verify_all] in *. destruct Ho as (Hc & Hu & Ho). apply (remembered_later _ _ _ now0 Hc) in Hr.
  destruct (verify hmac token machine_id label seen s0 f0 now0) as [r seen'] eqn:Ev.
  pose proof (verify_step _ _ _ _ _ _ _ Hr Hu Ev) as Hstep.
  destruct i as [|i]; cbn [lookup list_lookup] in *.
  - injection Hi as -> -> ->. destruct r as [[]|e]; [|done]. destruct Hstep as (at0 & Hs0 & Hf & Hold & _).
    rewrite Hat in Hs0. injection Hs0 as <-. specialize (Hold _ Hin). unfold fresh, sat_sub in *. bsimp. exfalso.
    pose proof (parse_uint_nonneg _ _ _ Hat). lia.
  - destruct r as [[]|e]; [|by eapply IH].
    destruct Hstep as (at0 & Hs0 & _ & _ & Hrem). rewrite Hs0 in Ho. eapply IH; [exact Hrem|exact Ho|done|done|by right].
Qed.

(** C31: A captured request is accepted at most once: of the requests a machine receives on a clock that does not go back,
    two that carry the same nonce and time are never both accepted, unless [MAX_NONCES] accepted requests are fresh at
    once. *)
Theorem no_replay rs i j s s' fields fields' now now' :
  orderly ∅ [] 0 rs -> (i < j)%nat ->
  rs !! i = Some (s, fields, now) -> rs !! j = Some (s', fields', now') ->
  sg_nonce s = sg_nonce s' -> signed_at s = signed_at s' ->
  verify_all ∅ rs !! i = Some (Ok tt) -> verify_all ∅ rs !! j <> Some (Ok tt).
Proof.
  assert (remembered ∅ [] 0) as Hr.
  { split; [by intros ? ? ?%not_elem_of_nil|]. intros nonce at_. by rewrite lookup_empty. }
  revert Hr. generalize (@nil (string * Z)) as accepted. generalize (∅ : gmap string Z) as seen. generalize 0 as clock.
  revert i j. induction rs as [|[[s0 f0] now0] rs IH]; intros i j clock seen accepted Hr Ho Hij Hi Hj Hn Hat Hok; [done|].
  cbn [orderly verify_all] in *. destruct Ho as (Hc & Hu & Ho). apply (remembered_later _ _ _ now0 Hc) in Hr.
  destruct (verify hmac token machine_id label seen s0 f0 now0) as [r seen'] eqn:Ev.
  pose proof (verify_step _ _ _ _ _ _ _ Hr Hu Ev) as Hstep. destruct j as [|j]; [lia|].
  destruct i as [|i]; cbn [lookup list_lookup] in *.
  - injection Hi as -> -> ->. injection Hok as ->. destruct Hstep as (at0 & Hs0 & _ & _ & Hrem). rewrite Hs0 in Ho.
    eapply verify_all_refuses; [exact Hrem|exact Ho|exact Hj|by rewrite <- Hat|rewrite Hn; by left].
  - destruct r as [[]|e].
    + destruct Hstep as (at0 & Hs0 & _ & _ & Hrem). rewrite Hs0 in Ho. eapply (IH i j); eauto; lia.
    + eapply (IH i j); eauto; lia.
Qed.
End Replay.

Definition sample_signed : Signed := mkSigned "m1" "m2" "1000" "aa" "".
Definition sample_hmac : string -> bytes -> bytes := fun _ _ => [].

Lemma no_replay_witness :
  verify_all sample_hmac "t" "m2" "l" ∅ [(sample_signed, [], 1000); (sample_signed, [], 2000)] !! 1%nat <> Some (Ok tt).
Proof.
  apply (no_replay sample_hmac "t" "m2" "l" [(sample_signed, [], 1000); (sample_signed, [], 2000)] 0 1 sample_signed
    sample_signed [] [] 1000 2000); try reflexivity; [|lia].
  assert (forall accepted now, (length accepted <= 1)%nat -> uncrowded accepted now) as Hu.
  { intros accepted now Hl. unfold uncrowded, MAX_NONCES. pose proof (length_filter
      (fun na : string * Z => (sat_sub now MAX_SKEW_MS <= na.2)%Z) accepted). lia. }
  cbn [orderly]. split; [lia|]. split; [apply Hu; cbn; lia|].
  destruct (verify _ _ _ _ _ _ _ _) as [r seen']. split; [lia|]. split.
  - apply Hu. destruct r; [destruct (signed_at sample_signed)|]; cbn; lia.
  - destruct (verify _ _ _ _ _ _ _ _) as [r' seen'']. exact I.
Defined.

(** ** Forwarded visitors *)

(** Visible ASCII, as machine IDs, tunnel IDs, routes and addresses are. *)
Definition plain (s : string) : Prop := Forall (fun b => 33 <= b < 127) (as_bytes s).
#[export] Instance plain_dec s : Decision (plain s).
Proof. unfold plain. apply Forall_dec. intros b. apply (decide (33 <= b /\ b < 127)). Defined.

Lemma plain_no_sep s : plain s -> (32 ∉ as_bytes s) /\ (10 ∉ as_bytes s).
Proof. intros H. split; intros Hin; pose proof (proj1 (Forall_forall _ _) H _ Hin) as Hx; cbn in Hx; lia. Qed.

Lemma split_once_l_None {A} `{EqDecision A} (c : A) l : split_once_l c l = None -> c ∉ l.
Proof.
  intros E Hin. apply list_elem_of_split_l in Hin as (a & b & -> & Ha).
  by rewrite (proj2 (split_once_l_Some c _ a b)) in E.
Qed.

(** However the header arrives in pieces, its line is found and the rest is kept, as is what comes later. *)
Lemma read_header_line chunks : forall buffer line rest,
  buffer ++ concat chunks = line ++ 10 :: rest -> 10 ∉ line -> (length line < MAX_HEADER)%nat ->
  Forall (fun chunk => chunk <> []) chunks ->
  exists now later, read_header chunks buffer = Some (line, now, later) /\ now ++ concat later = rest /\ Forall (fun chunk => chunk <> []) later.
Proof.
  induction chunks as [|chunk chunks IH]; intros buffer line rest E Hl Hlen Hne; cbn [read_header];
    destruct (split_once_l 10 buffer) as [[a b]|] eqn:Es.
  - apply split_once_l_Some in Es as [-> Ha]. rewrite <- app_assoc in E. cbn [app] in E.
    apply first_sep_inj in E as [-> <-]; [|done..]. by eexists _, _.
  - apply split_once_l_None in Es. cbn in E. rewrite app_nil_r in E. subst buffer. set_solver.
  - apply split_once_l_Some in Es as [-> Ha]. rewrite <- app_assoc in E. cbn [app] in E.
    apply first_sep_inj in E as [-> <-]; [|done..]. by eexists _, _.
  - apply split_once_l_None in Es. apply Forall_cons in Hne as [Hc Hne].
    assert (length buffer <= length line)%nat as Hb.
    { destruct (Nat.le_gt_cases (length buffer) (length line)) as [|Hgt]; [done|]. exfalso. apply Es.
      assert (buffer !! length line = Some 10) as Hlk.
      { rewrite <- (lookup_app_l _ (concat (chunk :: chunks))) by done. rewrite E. by apply list_lookup_middle. }
      by apply list_elem_of_lookup_2 in Hlk. }
    rewrite (proj2 (Nat.leb_gt _ _)) by lia. destruct chunk as [|x chunk]; [done|].
    apply IH; [|done..]. rewrite <- E. cbn [concat]. by rewrite <- app_assoc.
Qed.

(** Fields with a space between them, read back. *)
Fixpoint join_space (fields : list bytes) : bytes :=
  match fields with [] => [] | [f] => f | f :: fs => f ++ 32 :: join_space fs end.

Lemma split_join_space fields : fields <> [] -> Forall (fun f => 32 ∉ f) fields -> split_l 32 (join_space fields) = fields.
Proof.
  intros Hne Hf. induction Hf as [|f fs Hf Hfs IH]; [done|]. destruct fs as [|g fs]; [by apply split_l_single|].
  cbn [join_space] in *. rewrite split_l_app by done. by rewrite IH.
Qed.

Lemma length_str_nil (s : string) : as_bytes s = [] -> s = "".
Proof. intros H. by apply (inj as_bytes). Qed.

Section Forwarding.
Context (hmac : string -> bytes -> bytes).
Context (hmac_32 : forall key m, length (hmac key m) = 32%nat /\ bytes_ok (hmac key m)).
Context (token : string).

(** A proof verifies for the parts it was made for. *)
Lemma verify_sign_parts parts : verify_parts hmac token parts (sign_parts hmac token parts) = true.
Proof.
  unfold verify_parts, sign_parts. destruct (hmac_32 token (message parts)) as [Hl Hb].
  rewrite decode_hex_hex by (done || lia). by apply bool_decide_eq_true.
Qed.

Lemma proof_chars parts : 32 ∉ as_bytes (sign_parts hmac token parts) /\ 10 ∉ as_bytes (sign_parts hmac token parts) /\
  Forall (fun b => b < 128) (as_bytes (sign_parts hmac token parts)).
Proof.
  unfold sign_parts. destruct (hmac_32 token (message parts)) as [_ Hb]. rewrite as_bytes_hex by done.
  pose proof (hex_bytes_chars _ Hb) as Hc. split_and!.
  - intros Hin. pose proof (proj1 (Forall_forall _ _) Hc _ Hin). naive_solver.
  - intros Hin. pose proof (proj1 (Forall_forall _ _) Hc _ Hin). naive_solver.
  - clear Hc. induction Hb as [|b l Hb Hl IH]; [constructor|]. destruct (byte_nibbles b Hb) as [H1 H2].
    unfold hex_bytes. cbn [map concat app]. fold (hex_bytes l). unfold hex_digit.
    constructor; [case_split; bsimp; lia|]. constructor; [case_split; bsimp; lia|done].
Qed.

Lemma dec_plain n : 0 <= n -> plain (dec_string n) /\ as_bytes (dec_string n) = to_dec n.
Proof.
  intros Hn. assert (as_bytes (dec_string n) = to_dec n) as E by (apply as_of_bytes; by apply to_dec_ok).
  split; [|done]. unfold plain. rewrite E. eapply Forall_impl; [by apply to_dec_digits|]. cbn. lia.
Qed.

(** What a machine signed, the machine it is for accepts: within the allowed skew, once. *)
Lemma verify_sign machine_id label receiver fields sent nonce seen now :
  0 <= sent <= U64_MAX -> fresh sent now = true -> pruned seen now !! nonce = None ->
  verify hmac token receiver label seen
    (mkSigned machine_id receiver (dec_string sent) nonce
       (sign_parts hmac token (label :: machine_id :: receiver :: dec_string sent :: nonce :: fields))) fields now
  = (Ok tt, <[nonce := sent]> (pruned seen now)).
Proof.
  intros Hs Hf Hn. unfold verify. cbn [sg_receiver sg_timestamp sg_sender sg_nonce sg_proof].
  rewrite String.eqb_refl. cbn [negb]. rewrite (proj2 (dec_plain sent ltac:(lia))).
  rewrite parse_uint_to_dec by (unfold U64_MAX in *; lia). rewrite Hf. cbn [negb].
  rewrite verify_sign_parts. cbn [negb]. unfold first_use. by rewrite Hn.
Qed.

Lemma as_bytes_spaced a b : as_bytes (a +:+ " " +:+ b) = as_bytes a ++ 32 :: as_bytes b.
Proof. by rewrite !as_bytes_app. Qed.

(** The header [open] writes, as its fields. *)
Lemma forward_header_bytes machine_id receiver tunnel route visitor initial sent nonce :
  plain machine_id -> plain receiver -> plain nonce -> 0 <= sent ->
  let proof := sign_parts hmac token
                 (FORWARD_LABEL :: machine_id :: receiver :: dec_string sent :: nonce :: [tunnel; route; visitor]) in
  forward_header hmac token machine_id receiver tunnel route visitor initial sent nonce
  = Some (FORWARD_MAGIC
          ++ join_space (map as_bytes [machine_id; receiver; dec_string sent; nonce; tunnel; route; visitor; proof])
          ++ [10] ++ initial).
Proof.
  intros Hm Hr Hn Hs proof. unfold forward_header.
  set (identity := machine_id +:+ " " +:+ receiver +:+ " " +:+ dec_string sent +:+ " " +:+ nonce).
  assert (str_rsplit_once " " (sign hmac token machine_id FORWARD_LABEL receiver [tunnel; route; visitor] sent nonce)
    = Some (identity, proof)) as ->.
  { apply str_rsplit_once_Some. split; [|apply proof_chars].
    apply (inj as_bytes). unfold sign, identity. fold proof. rewrite !as_bytes_app. rewrite <- !app_assoc. reflexivity. }
  cbn [mbind option_bind]. do 2 f_equal. f_equal. unfold identity. cbn [map join_space].
  rewrite !as_bytes_app. rewrite <- !app_assoc. reflexivity.
Qed.

Lemma join_space_chars (P : Z -> Prop) fields : P 32 -> Forall (Forall P) fields -> Forall P (join_space fields).
Proof.
  intros H32 Hf. induction Hf as [|f fs Hf Hfs IH]; [constructor|]. destruct fs as [|g fs]; [done|].
  cbn [join_space] in *. apply Forall_app. split; [done|]. by constructor.
Qed.

(** A forwarded visitor arrives as it was sent: the machine the header is addressed to accepts it, however it comes
    in pieces, with the sender, tunnel, route, visitor address and the ClientHello the sender put in it, and remembers
    its nonce. *)
Theorem forward_received sender receiver tunnel route visitor initial sent nonce seen now chunks header more :
  Forall plain [sender; receiver; tunnel; route; visitor; nonce] ->
  0 <= sent <= U64_MAX -> fresh sent now = true -> pruned seen now !! nonce = None ->
  forward_header hmac token sender receiver tunnel route visitor initial sent nonce = Some header ->
  (length header - length initial <= MAX_HEADER)%nat ->
  concat chunks = header ++ more -> Forall (fun chunk => chunk <> []) chunks ->
  exists rest stream,
    receive_forward hmac token receiver seen chunks now
    = (Ok (mkForward sender tunnel route visitor rest stream), <[nonce := sent]> (pruned seen now)) /\
    rest ++ concat stream = initial ++ more /\ Forall (fun chunk => chunk <> []) stream.
Proof.
  intros Hp Hs Hf Hn Hh Hlen Hc Hne. rewrite !Forall_cons in Hp. destruct Hp as (Ps & Pr & Pt & Po & Pv & Pn & _).
  rewrite forward_header_bytes in Hh by (done || lia). cbv zeta in Hh. apply (inj Some) in Hh. subst header.
  pose proof (dec_plain sent ltac:(lia)) as [Pd _].
  set (proof := sign_parts hmac token _) in *.
  assert (Forall (fun f => 32 ∉ f) (map as_bytes [sender; receiver; dec_string sent; nonce; tunnel; route; visitor; proof])) as Hsp.
  { cbn [map]. repeat constructor; try (by apply plain_no_sep). apply proof_chars. }
  assert (Forall (Forall (fun b => b <> 10 /\ b < 128))
    (map as_bytes [sender; receiver; dec_string sent; nonce; tunnel; route; visitor; proof])) as Hch.
  { assert (forall s, plain s -> Forall (fun b => b <> 10 /\ b < 128) (as_bytes s)) as Hpl.
    { intros s H. eapply Forall_impl; [exact H|]. cbn. lia. }
    cbn [map]. repeat constructor; try (by apply Hpl). apply Forall_forall. intros b Hb.
    destruct (proof_chars (FORWARD_LABEL :: sender :: receiver :: dec_string sent :: nonce :: [tunnel; route; visitor]))
      as (_ & H10 & H128). fold proof in H10, H128. split; [by intros ->|]. by apply (proj1 (Forall_forall _ _) H128). }
  apply join_space_chars in Hch; [|lia]. set (line := join_space _) in *.
  destruct (read_header_line chunks [] (FORWARD_MAGIC ++ line) (initial ++ more)) as (rest & stream & Eh & Er & Hs'); [| | |done|].
  4: { exists rest, stream. split_and!; [|done|done]. unfold receive_forward. rewrite Eh. rewrite (proj2 (strip_prefix_l_Some FORWARD_MAGIC _ line)) by done.
    unfold from_utf8. rewrite utf8_valid_ascii.
    2: { unfold is_ascii. apply forallb_forall. intros b Hb%list_elem_of_In.
         pose proof (proj1 (Forall_forall _ _) Hch b Hb). cbn in *. apply Z.ltb_lt. lia. }
    assert (str_split " " (of_bytes line) = [sender; receiver; dec_string sent; nonce; tunnel; route; visitor; proof]) as ->.
    { unfold str_split. rewrite as_of_bytes.
      - change (byte_of_ascii " ") with 32. unfold line. rewrite split_join_space by done.
        cbn [map]. by rewrite !of_as_bytes.
      - unfold line. apply join_space_chars; [done|]. apply Forall_map, Forall_forall. intros s _. apply as_bytes_ok. }
    unfold proof. rewrite verify_sign; done. }
  - rewrite app_nil_l, Hc. rewrite <- !app_assoc. done.
  - intros [Hin|Hin]%elem_of_app.
    + assert (forallb (fun b => negb (b =? 10)) FORWARD_MAGIC = true) as Hm by reflexivity.
      apply list_elem_of_In in Hin. by apply (proj1 (forallb_forall _ _) Hm) in Hin.
    + pose proof (proj1 (Forall_forall _ _) Hch 10 Hin). cbn in *. lia.
  - rewrite !length_app in Hlen. rewrite length_app. cbn [length] in Hlen. lia.
Qed.
End Forwarding.

(** ** The handshake of a mesh link *)

Definition MESH_MAGIC : string := "OPENTUNNEL-MESH/2 ".
Definition ACCEPT_LABEL : string := "opentunnel mesh/2 accept".
Definition DIAL_LABEL : string := "opentunnel mesh/2 dial".

Definition valid_id (id : string) : bool :=
  negb (str_is_empty id) && (str_len id <=? 191)%nat
  && forallb (fun b => (33 <=? b) && (b <=? 126) && negb (b =? 32)) (as_bytes id).

Definition is_hexdigit (b : Z) : bool :=
  is_ascii_digit b || ((97 <=? b) && (b <=? 102)) || ((65 <=? b) && (b <=? 70)).
Definition valid_nonce (nonce : string) : bool :=
  (16 <=? str_len nonce)%nat && (str_len nonce <=? 128)%nat && forallb is_hexdigit (as_bytes nonce).

Section Handshake.
Context (hmac : string -> bytes -> bytes).
Context (hmac_32 : forall key m, length (hmac key m) = 32%nat /\ bytes_ok (hmac key m)).
Context (token : string).

Definition handshake_parts (label dialer acceptor dial_nonce accept_nonce : string) : list string :=
  [label; dialer; acceptor; dial_nonce; accept_nonce].

(** The dialer's first line, without the newline. *)
Definition dial_greeting (machine_id own_nonce : string) : string := MESH_MAGIC +:+ machine_id +:+ " " +:+ own_nonce.

(** [accept]: the greeting after the magic gives the dialer and its nonce, and the line to answer with. *)
Definition accept_greeting (machine_id own_nonce greeting : string) : option (string * string * string) :=
  match str_split " " greeting with
  | [dialer; dial_nonce] =>
      if negb (valid_id dialer) || negb (valid_nonce dial_nonce) || String.eqb dialer machine_id then None
      else
        let proof := sign_parts hmac token (handshake_parts ACCEPT_LABEL dialer machine_id dial_nonce own_nonce) in
        Some (dialer, dial_nonce, MESH_MAGIC +:+ machine_id +:+ " " +:+ own_nonce +:+ " " +:+ proof)
  | _ => None
  end.

(** [dial]: the acceptor's line gives the machine that proved itself and the answer. *)
Definition dial_answer (machine_id own_nonce line : string) : option (string * string) :=
  let* rest := str_strip_prefix MESH_MAGIC line in
  match str_split " " rest with
  | [acceptor; accept_nonce; proof] =>
      if negb (valid_id acceptor) || negb (valid_nonce accept_nonce) then None
      else if negb (verify_parts hmac token (handshake_parts ACCEPT_LABEL machine_id acceptor own_nonce accept_nonce) proof)
      then None
      else if String.eqb acceptor machine_id then None
      else Some (acceptor, sign_parts hmac token (handshake_parts DIAL_LABEL machine_id acceptor own_nonce accept_nonce))
  | _ => None
  end.

(** [accept]: the answer proves the dialer, or not. *)
Definition accept_answer (machine_id dialer dial_nonce own_nonce answer : string) : bool :=
  verify_parts hmac token (handshake_parts DIAL_LABEL dialer machine_id dial_nonce own_nonce) answer.

Lemma valid_id_no_space id : valid_id id = true -> 32 ∉ as_bytes id.
Proof.
  unfold valid_id. intros H Hin%list_elem_of_In. bsimp.
  match goal with H : forallb _ _ = true |- _ => pose proof (proj1 (forallb_forall _ _) H _ Hin) as Hx end.
  cbv beta in Hx. bsimp. lia.
Qed.

Lemma valid_nonce_no_space n : valid_nonce n = true -> 32 ∉ as_bytes n.
Proof.
  unfold valid_nonce. intros H Hin%list_elem_of_In. bsimp.
  match goal with H : forallb _ _ = true |- _ => by apply (proj1 (forallb_forall _ _) H) in Hin end.
Qed.

Lemma str_split_spaced fields line :
  fields <> [] -> Forall (fun s => 32 ∉ as_bytes s) fields -> as_bytes line = join_space (map as_bytes fields) ->
  str_split " " line = fields.
Proof.
  intros Hne Hf E. unfold str_split. rewrite E. change (byte_of_ascii " ") with 32.
  rewrite split_join_space; [|by destruct fields|by apply Forall_map].
  rewrite map_map. clear. induction fields; cbn; [done|]. by rewrite of_as_bytes, IHfields.
Qed.

Lemma short_handshake label dialer acceptor n n' :
  Forall short (handshake_parts label dialer acceptor n n') <->
  short label /\ short dialer /\ short acceptor /\ short n /\ short n'.
Proof. unfold handshake_parts. rewrite !Forall_cons. intuition constructor. Qed.

(** Two machines that share the secret link up, and each learns the other's proven name; and what proves a machine in
    one handshake proves nothing in another: a proof that both passes here and passes in any role of a handshake with
    other machines or nonces is a collision of the MAC. *)
Theorem handshake_proves dialer acceptor dial_nonce accept_nonce label d a n n' proof :
  valid_id dialer = true -> valid_id acceptor = true -> dialer <> acceptor ->
  valid_nonce dial_nonce = true -> valid_nonce accept_nonce = true ->
  short d -> short a -> short n -> short n' -> (label = ACCEPT_LABEL \/ label = DIAL_LABEL) ->
  (exists line answer greeting,
     str_strip_prefix MESH_MAGIC (dial_greeting dialer dial_nonce) = Some greeting /\
     accept_greeting acceptor accept_nonce greeting = Some (dialer, dial_nonce, line) /\
     dial_answer dialer dial_nonce line = Some (acceptor, answer) /\
     accept_answer acceptor dialer dial_nonce accept_nonce answer = true) /\
  (accept_answer acceptor dialer dial_nonce accept_nonce proof = true ->
   verify_parts hmac token (handshake_parts label d a n n') proof = true ->
   label = DIAL_LABEL /\ d = dialer /\ a = acceptor /\ n = dial_nonce /\ n' = accept_nonce \/
   exists m m', m <> m' /\ hmac token m = hmac token m').
Proof.
  intros Hd Ha Hne Hdn Han Sd Sa Sn Sn' Hl. split.
  - pose (proof_a := sign_parts hmac token (handshake_parts ACCEPT_LABEL dialer acceptor dial_nonce accept_nonce)).
    exists (MESH_MAGIC +:+ acceptor +:+ " " +:+ accept_nonce +:+ " " +:+ proof_a),
      (sign_parts hmac token (handshake_parts DIAL_LABEL dialer acceptor dial_nonce accept_nonce)),
      (dialer +:+ " " +:+ dial_nonce).
    split_and!.
    + by apply str_strip_prefix_Some.
    + unfold accept_greeting. rewrite (str_split_spaced [dialer; dial_nonce]).
      * rewrite Hd, Hdn. cbn [negb orb]. by rewrite (proj2 (String.eqb_neq _ _)).
      * done.
      * repeat constructor; [by apply valid_id_no_space|by apply valid_nonce_no_space].
      * apply as_bytes_spaced.
    + unfold dial_answer. rewrite (proj2 (str_strip_prefix_Some MESH_MAGIC _ _) eq_refl). cbn [mbind option_bind].
      rewrite (str_split_spaced [acceptor; accept_nonce; proof_a]).
      * rewrite Ha, Han. cbn [negb orb]. unfold proof_a. rewrite verify_sign_parts by done. cbn [negb].
        by rewrite (proj2 (String.eqb_neq _ _)) by congruence.
      * done.
      * repeat constructor; [by apply valid_id_no_space|by apply valid_nonce_no_space|by apply proof_chars].
      * cbn [map join_space]. by rewrite !as_bytes_spaced.
    + by apply verify_sign_parts.
  - intros H1 H2. unfold accept_answer, verify_parts in *. destruct (decode_hex proof) as [tag|]; [|done].
    apply bool_decide_eq_true in H1, H2.
    destruct (decide (handshake_parts label d a n n' = handshake_parts DIAL_LABEL dialer acceptor dial_nonce accept_nonce))
      as [E|Hdiff]; [left; by injection E as -> -> -> -> ->|right].
    eexists _, _. split; [|rewrite <- H1; exact H2]. intros E. apply Hdiff. symmetry. apply message_inj; [| |done].
    + apply short_handshake. unfold valid_id, valid_nonce in *. bsimp. unfold short.
      change (2 ^ 32) with 4294967296. split_and!; [done|lia..].
    + apply short_handshake. split_and!; [|done..]. by destruct Hl as [-> | ->].
Qed.
End Handshake.

Lemma handshake_proves_witness :
  exists line answer greeting,
    str_strip_prefix MESH_MAGIC (dial_greeting "m1" "00112233445566aa") = Some greeting /\
    accept_greeting (fun _ _ => repeat 7 32) "t" "m2" "ffeeddccbbaa9988" greeting = Some ("m1", "00112233445566aa", line) /\
    dial_answer (fun _ _ => repeat 7 32) "t" "m1" "00112233445566aa" line = Some ("m2", answer) /\
    accept_answer (fun _ _ => repeat 7 32) "t" "m2" "m1" "00112233445566aa" "ffeeddccbbaa9988" answer = true.
Proof.
  apply (handshake_proves (fun _ _ => repeat 7 32) ltac:(split; [done|repeat constructor; unfold byte_ok; lia]) "t"
    "m1" "m2" "00112233445566aa" "ffeeddccbbaa9988" DIAL_LABEL "" "" "" "" "");
    try done; auto.
Defined.
