(* ===== verification/Mesh.v ===== *)
(** * Mesh: the table of which machine holds which bridge, [mesh.rs]

    Every machine announces its own bridges over a link to every other machine: a snapshot, then numbered changes. A
    machine is the only writer of its entries, and every other machine replays what it announces. *)

From Stdlib Require Import ZArith Lia Ascii String List.
From stdpp Require Import base list strings gmap sets.
From S2P Require Import Prelude Text Addr.

(** The order a [HashMap] or [HashSet] is iterated in is any. *)
Class HashOrder := {
  order {A : Type} : list A -> list A;
  order_perm {A : Type} (l : list A) : order l ≡ₚ l;
}.

(** ** Frames *)

Record Entry := mkEntry {
  en_tunnel : string;
  en_bridge : Z;
  en_routes : list string;
  en_attached_at : Z;
}.

Inductive Event :=
| TunnelCreated (tunnel : string)
| CertificateChanged (tunnel : string)
| TunnelDeleted (tunnel : string)
| Leaving
| JobEnqueued
| UnknownEvent.

Record Hello := mkHello {
  he_version : Z;
  he_machine_id : string;
  he_region : string;
  he_address : string;
  he_epoch : Z;
  he_started_at : Z;
  he_draining : bool;
}.

Inductive Frame :=
| FHello (hello : Hello)
| FSnapshot (epoch seq sent_at : Z) (entries : list Entry) (more : bool)
| FSnapshotPart (entries : list Entry) (more : bool)
| FAttached (seq sent_at : Z) (entry : Entry)
| FDetached (seq sent_at : Z) (tunnel : string) (bridge : Z)
| FEvent (sent_at : Z) (event : Event)
| FPing (sent_at : Z)
| FUnknown.

Inductive Notice :=
| NEvent (event : Event)
| LinkUp.

Record Location := mkLocation {
  lc_machine_id : string;
  lc_region : string;
  lc_address : string;
}.

#[export] Instance entry_eq_dec : EqDecision Entry.
Proof. solve_decision. Defined.
#[export] Instance event_eq_dec : EqDecision Event.
Proof. solve_decision. Defined.
#[export] Instance hello_eq_dec : EqDecision Hello.
Proof. solve_decision. Defined.
#[export] Instance frame_eq_dec : EqDecision Frame.
Proof. solve_decision. Defined.
#[export] Instance location_eq_dec : EqDecision Location.
Proof. solve_decision. Defined.

Definition MAX_CLOCK_AHEAD_MS : Z := 5000.
Definition LINK_QUEUE : nat := Z.to_nat 200000.

Definition sane_time (at_ now : Z) : Z := if now + MAX_CLOCK_AHEAD_MS <? at_ then now else at_.
Definition sane (now : Z) (e : Entry) : Entry :=
  mkEntry (en_tunnel e) (en_bridge e) (en_routes e) (sane_time (en_attached_at e) now).

(** ** This machine's entries *)

(** A link's queue holds the frames not yet written. *)
Record Local := mkLocal {
  lo_seq : Z;
  lo_entries : gmap Z Entry;
  lo_links : gmap Z (list Frame);
}.

Definition empty_local : Local := mkLocal 0 ∅ ∅.

(** [broadcast]: a link whose queue is full is closed. *)
Definition broadcast (frame : Frame) (l : Local) : Local :=
  mkLocal (lo_seq l) (lo_entries l)
    (omap (fun queue => if (length queue <? LINK_QUEUE)%nat then Some (queue ++ [frame]) else None) (lo_links l)).

Definition attached (tunnel : string) (bridge : Z) (routes : list string) (attached_at now : Z) (l : Local) : Local :=
  let entry := mkEntry tunnel bridge routes attached_at in
  let seq := lo_seq l + 1 in
  broadcast (FAttached seq now entry) (mkLocal seq (<[bridge := entry]> (lo_entries l)) (lo_links l)).

Definition detached (tunnel : string) (bridge now : Z) (l : Local) : Local :=
  match lo_entries l !! bridge with
  | None => l
  | Some _ =>
      let seq := lo_seq l + 1 in
      broadcast (FDetached seq now tunnel bridge) (mkLocal seq (delete bridge (lo_entries l)) (lo_links l))
  end.

Definition publish (event : Event) (now : Z) (l : Local) : Local := broadcast (FEvent now event) l.

Section Snapshot.
(** The length of an entry's JSON, and the most bytes of entries in a snapshot frame ([snapshot_chunk]). *)
Context (json_length : Entry -> Z) (snapshot_chunk : Z).

Fixpoint chunk_loop (entries : list Entry) (size : Z) (current : list Entry) : list (list Entry) :=
  match entries with
  | [] => [current]
  | entry :: entries' =>
      let length := json_length entry in
      if (snapshot_chunk <? size + length) && match current with [] => false | _ => true end
      then current :: chunk_loop entries' length [entry]
      else chunk_loop entries' (size + length) (current ++ [entry])
  end.

(** The frames of the chunks from the second on. *)
Fixpoint snapshot_parts (chunks : list (list Entry)) : list Frame :=
  match chunks with
  | [] => []
  | entries :: chunks' => FSnapshotPart entries (match chunks' with [] => false | _ => true end) :: snapshot_parts chunks'
  end.

Definition snapshot_frames (epoch seq now : Z) (chunks : list (list Entry)) : list Frame :=
  match chunks with
  | [] => []
  | entries :: chunks' =>
      FSnapshot epoch seq now entries (match chunks' with [] => false | _ => true end) :: snapshot_parts chunks'
  end.

(** [subscribe]: the new link's queue starts with a snapshot; what does not fit the queue is dropped. *)
Definition subscribe `{HashOrder} (link epoch now : Z) (l : Local) : Local :=
  let chunks := chunk_loop (order (map snd (map_to_list (lo_entries l)))) 0 [] in
  mkLocal (lo_seq l) (lo_entries l)
    (<[link := take LINK_QUEUE (snapshot_frames epoch (lo_seq l) now chunks)]> (lo_links l)).
End Snapshot.

Definition unsubscribe (link : Z) (l : Local) : Local :=
  mkLocal (lo_seq l) (lo_entries l) (delete link (lo_links l)).

(** [write_loop] takes the next frame of a link's queue. *)
Definition take_frame (link : Z) (l : Local) : option (Frame * Local) :=
  match lo_links l !! link with
  | Some (frame :: queue) => Some (frame, mkLocal (lo_seq l) (lo_entries l) (<[link := queue]> (lo_links l)))
  | _ => None
  end.

(** ** What peers announced *)

Record Peer := mkPeer {
  pe_hello : Hello;
  pe_link : Z;
  pe_dialer : string;
  pe_connected_at : Z;
  pe_seq : Z;
  pe_entries : gmap Z Entry;
  snapshot_open : bool;
}.

Abbreviation Index := (gmap string (gset (string * Z))).

Record Remote := mkRemote {
  peers : gmap string Peer;
  index : Index;
}.

Definition empty_remote : Remote := mkRemote ∅ ∅.

Definition index_add (machine : string) (entry : Entry) (index : Index) : Index :=
  let holders := match index !! en_tunnel entry with Some s => s | None => ∅ end in
  <[en_tunnel entry := {[(machine, en_bridge entry)]} ∪ holders]> index.

Definition index_remove (machine : string) (entry : Entry) (index : Index) : Index :=
  match index !! en_tunnel entry with
  | None => index
  | Some holders =>
      let holders := holders ∖ {[(machine, en_bridge entry)]} in
      if decide (holders = ∅) then delete (en_tunnel entry) index else <[en_tunnel entry := holders]> index
  end.

(** [for entry in entries.values() { index_remove }] *)
Definition index_remove_all (machine : string) (entries : gmap Z Entry) (index : Index) : Index :=
  foldr (index_remove machine) index (map snd (map_to_list entries)).

Definition set_entries (p : Peer) (seq : Z) (entries : gmap Z Entry) (open : bool) : Peer :=
  mkPeer (pe_hello p) (pe_link p) (pe_dialer p) (pe_connected_at p) seq entries open.
Definition set_draining (p : Peer) : Peer :=
  let h := pe_hello p in
  mkPeer (mkHello (he_version h) (he_machine_id h) (he_region h) (he_address h) (he_epoch h) (he_started_at h) true)
    (pe_link p) (pe_dialer p) (pe_connected_at p) (pe_seq p) ∅ (snapshot_open p).

(** [Remote::clear] *)
Definition clear (machine : string) (r : Remote) : Remote :=
  match peers r !! machine with
  | None => r
  | Some p =>
      mkRemote (<[machine := set_entries p (pe_seq p) ∅ (snapshot_open p)]> (peers r))
        (index_remove_all machine (pe_entries p) (index r))
  end.

Inductive LinkError := LinkReplaced | SecondHello | AnotherEpoch | PartWithoutSnapshot | ChangeInsideSnapshot | Sequence.

(** Takes the entries of a snapshot frame in. *)
Fixpoint add_entries (machine : string) (now : Z) (entries : list Entry) (index : Index) (known : gmap Z Entry)
    : Index * gmap Z Entry :=
  match entries with
  | [] => (index, known)
  | entry :: entries' =>
      let entry := sane now entry in
      add_entries machine now entries' (index_add machine entry index) (<[en_bridge entry := entry]> known)
  end.

(** [apply]: a frame from a peer's current link. *)
Definition apply (machine : string) (link : Z) (frame : Frame) (now : Z) (r : Remote)
    : result (Remote * list Notice) LinkError :=
  match peers r !! machine with
  | None => Err LinkReplaced
  | Some p =>
      if negb (pe_link p =? link) then Err LinkReplaced
      else
        let keep p index := mkRemote (<[machine := p]> (peers r)) index in
        match frame with
        | FPing _ | FUnknown => Ok (r, [])
        | FHello _ => Err SecondHello
        | FSnapshot epoch seq _ entries more =>
            if negb (epoch =? he_epoch (pe_hello p)) then Err AnotherEpoch
            else
              let idx := index_remove_all machine (pe_entries p) (index r) in
              let '(idx, known) := if he_draining (pe_hello p) then (idx, ∅) else add_entries machine now entries idx ∅ in
              Ok (keep (set_entries p seq known more) idx, [])
        | FSnapshotPart entries more =>
            if negb (snapshot_open p) then Err PartWithoutSnapshot
            else
              let '(idx, known) := if he_draining (pe_hello p) then (index r, pe_entries p)
                                   else add_entries machine now entries (index r) (pe_entries p) in
              Ok (keep (set_entries p (pe_seq p) known more) idx, [])
        | FAttached seq _ entry =>
            let entry := sane now entry in
            if snapshot_open p then Err ChangeInsideSnapshot
            else if negb (seq =? pe_seq p + 1) then Err Sequence
            else if he_draining (pe_hello p) then Ok (keep (set_entries p seq (pe_entries p) (snapshot_open p)) (index r), [])
            else
              let idx := match pe_entries p !! en_bridge entry with
                         | Some previous => index_remove machine previous (index r)
                         | None => index r
                         end in
              Ok (keep (set_entries p seq (<[en_bridge entry := entry]> (pe_entries p)) (snapshot_open p))
                    (index_add machine entry idx), [])
        | FDetached seq _ _ bridge =>
            if negb (seq =? pe_seq p + 1) then Err Sequence
            else
              let idx := match pe_entries p !! bridge with
                         | Some entry => index_remove machine entry (index r)
                         | None => index r
                         end in
              Ok (keep (set_entries p seq (delete bridge (pe_entries p)) (snapshot_open p)) idx, [])
        | FEvent _ event =>
            match event with
            | Leaving => Ok (keep (set_draining p) (index_remove_all machine (pe_entries p) (index r)), [])
            | UnknownEvent => Ok (r, [])
            | event => Ok (r, [NEvent event])
            end
        end
  end.

(** ** Links *)

(** The lexicographic order of [(started_at, epoch)]. *)
Definition life (h : Hello) : Z * Z := (he_started_at h, he_epoch h).
Definition life_gtb (a b : Z * Z) : bool := (b.1 <? a.1) || ((b.1 =? a.1) && (b.2 <? a.2)).

(** [register]: whether the link is kept, the link it replaces and the table after. *)
Definition register (partitioned : gset string) (hello : Hello) (link : Z) (dialer : string) (now : Z) (r : Remote)
    : bool * option Z * Remote :=
  let machine := he_machine_id hello in
  if decide (machine ∈ partitioned) then (false, None, r)
  else
    let insert entries r := mkRemote (<[machine := mkPeer hello link dialer now 0 entries false]> (peers r)) (index r) in
    match peers r !! machine with
    | None => (true, None, insert ∅ r)
    | Some existing =>
        if negb (String.eqb (he_address (pe_hello existing)) (he_address hello)) then (false, None, r)
        else
          let wins :=
            if negb (bool_decide (life hello = life (pe_hello existing)))
            then life_gtb (life hello) (life (pe_hello existing))
            else if negb (String.eqb (pe_dialer existing) dialer) then String.ltb dialer (pe_dialer existing)
            else true in
          if negb wins then (false, None, r)
          else if bool_decide (life hello = life (pe_hello existing))
          then (true, Some (pe_link existing), insert (pe_entries existing) r)
          else (true, Some (pe_link existing), insert ∅ (clear machine r))
    end.

(** [link_down]: only the current link's end counts. *)
Definition link_down (machine : string) (link : Z) (r : Remote) : Remote :=
  match peers r !! machine with
  | Some p =>
      if pe_link p =? link then let r := clear machine r in mkRemote (delete machine (peers r)) (index r) else r
  | None => r
  end.

(** ** Lookups *)

Definition location (p : Peer) : Location :=
  mkLocation (he_machine_id (pe_hello p)) (he_region (pe_hello p)) (he_address (pe_hello p)).

(** [Iterator::max_by_key]: the last of the greatest. *)
Fixpoint max_by_key {A} (key : A -> Z) (l : list A) : option A :=
  match l with
  | [] => None
  | x :: l' => match max_by_key key l' with
               | Some y => if key x <=? key y then Some y else Some x
               | None => Some x
               end
  end.

Definition str_in (s : string) (l : list string) : bool := existsb (String.eqb s) l.

Section Lookup.
Context `{HashOrder}.

Definition holders_of (tunnel : string) (r : Remote) : list (string * Z) :=
  match index r !! tunnel with Some s => order (elements s) | None => [] end.

Definition entry_of (r : Remote) (mb : string * Z) : option (Peer * Entry) :=
  let* p := peers r !! mb.1 in let* e := pe_entries p !! mb.2 in Some (p, e).

Definition locate (tunnel route : string) (except : option string) (r : Remote) : option Location :=
  let claims := omap (fun mb =>
      if decide (Some mb.1 = except) then None
      else let* (p, e) := entry_of r mb in
           if negb (he_draining (pe_hello p)) && str_in route (en_routes e) then Some (en_attached_at e, p) else None)
    (holders_of tunnel r) in
  location ∘ snd <$> max_by_key fst claims.

Fixpoint holders_loop (routes : list string) (r : Remote) (mbs : list (string * Z)) (found : list Location) : list Location :=
  match mbs with
  | [] => found
  | (machine, bridge) :: mbs' =>
      match entry_of r (machine, bridge) with
      | None => holders_loop routes r mbs' found
      | Some (p, e) =>
          let claims := match routes with [] => true | _ => existsb (fun route => str_in route routes) (en_routes e) end in
          if he_draining (pe_hello p) || negb claims || existsb (fun l => String.eqb (lc_machine_id l) machine) found
          then holders_loop routes r mbs' found
          else holders_loop routes r mbs' (found ++ [location p])
      end
  end.

Definition holders (tunnel : string) (routes : list string) (r : Remote) : list Location :=
  holders_loop routes r (holders_of tunnel r) [].
End Lookup.

Definition peer_address (machine : string) (r : Remote) : option string := he_address ∘ pe_hello <$> peers r !! machine.
Definition is_up (machine : string) (r : Remote) : bool := bool_decide (is_Some (peers r !! machine)).
Definition linked (address : SocketAddr) (r : Remote) : bool :=
  existsb (fun kv => bool_decide (parse_socket (he_address (pe_hello kv.2)) = Some address)) (map_to_list (peers r)).
(** [complete]: with the addresses of the last DNS answer and the static ones. *)
Definition complete (current : list SocketAddr) (r : Remote) : bool := forallb (fun a => linked a r) current.

(** ** The index *)

Definition indexed (idx : Index) (t m : string) (b : Z) : Prop := exists s, idx !! t = Some s /\ (m, b) ∈ s.
Definition no_empty (idx : Index) : Prop := forall t s, idx !! t = Some s -> s <> ∅.

Lemma indexed_add machine entry idx t m b :
  indexed (index_add machine entry idx) t m b <->
  (t = en_tunnel entry /\ m = machine /\ b = en_bridge entry) \/ indexed idx t m b.
Proof.
  unfold indexed, index_add. destruct (decide (t = en_tunnel entry)) as [->|Hne].
  - rewrite lookup_insert_eq. split.
    + intros (s & [= <-] & [Hin|Hin]%elem_of_union).
      * apply elem_of_singleton in Hin. injection Hin as -> ->. by left.
      * destruct (idx !! en_tunnel entry) as [s|]; [right; eauto|by apply elem_of_empty in Hin].
    + intros [(_ & -> & ->)|(s & Hs & Hin)]; eexists; (split; [done|]); apply elem_of_union.
      * left. by apply elem_of_singleton.
      * right. by rewrite Hs.
  - rewrite lookup_insert_ne by done. naive_solver.
Qed.

Lemma no_empty_add machine entry idx : no_empty idx -> no_empty (index_add machine entry idx).
Proof.
  intros Hn t s. unfold index_add. destruct (decide (t = en_tunnel entry)) as [->|Hne].
  - rewrite lookup_insert_eq. intros [= <-]. set_solver.
  - rewrite lookup_insert_ne by done. apply Hn.
Qed.

Lemma indexed_remove machine entry idx t m b :
  indexed (index_remove machine entry idx) t m b <->
  indexed idx t m b /\ ~ (t = en_tunnel entry /\ m = machine /\ b = en_bridge entry).
Proof.
  unfold indexed, index_remove. destruct (idx !! en_tunnel entry) as [s|] eqn:E; [|naive_solver].
  destruct (decide (t = en_tunnel entry)) as [->|Hne].
  - rewrite E. case_decide as Hs.
    + rewrite lookup_delete_eq. split; [naive_solver|]. intros [(s' & [= <-] & Hin) Hn].
      assert ((m, b) <> (machine, en_bridge entry)) by (intros [= -> ->]; tauto). set_solver.
    + rewrite lookup_insert_eq. split.
      * intros (s' & [= <-] & Hin). split; [set_solver|]. intros (_ & -> & ->). set_solver.
      * intros [(s' & [= <-] & Hin) Hn]. eexists. split; [done|].
        assert ((m, b) <> (machine, en_bridge entry)) by (intros [= -> ->]; tauto). set_solver.
  - case_decide; rewrite ?lookup_delete_ne, ?lookup_insert_ne by done; naive_solver.
Qed.

Lemma no_empty_remove machine entry idx : no_empty idx -> no_empty (index_remove machine entry idx).
Proof.
  intros Hn t s. unfold index_remove. destruct (idx !! en_tunnel entry) as [s0|] eqn:E; [|apply Hn].
  case_decide as Hs.
  - intros Hl. apply lookup_delete_Some in Hl as [_ Hl]. by apply (Hn t).
  - intros Hl. apply lookup_insert_Some in Hl as [[_ <-]|[_ Hl]]; [done|by apply (Hn t)].
Qed.

Lemma indexed_remove_list machine es idx t m b :
  indexed (foldr (index_remove machine) idx es) t m b <->
  indexed idx t m b /\ ~ (m = machine /\ exists e, e ∈ es /\ t = en_tunnel e /\ b = en_bridge e).
Proof.
  induction es as [|e es IH]; cbn [foldr].
  - split; [|tauto]. intros Hi. split; [done|]. intros (_ & e & Hin & _). by apply not_elem_of_nil in Hin.
  - rewrite indexed_remove, IH. setoid_rewrite elem_of_cons. naive_solver.
Qed.

Lemma no_empty_remove_list machine es idx : no_empty idx -> no_empty (foldr (index_remove machine) idx es).
Proof. intros Hn. induction es; [done|]. by apply no_empty_remove. Qed.

(** Entries are kept under their bridge. *)
Definition keyed (entries : gmap Z Entry) : Prop := forall b e, entries !! b = Some e -> en_bridge e = b.

Lemma indexed_remove_all machine entries idx t m b :
  keyed entries ->
  indexed (index_remove_all machine entries idx) t m b <->
  indexed idx t m b /\ ~ (m = machine /\ exists e, entries !! b = Some e /\ t = en_tunnel e).
Proof.
  intros Hk. unfold index_remove_all. rewrite indexed_remove_list.
  assert ((exists e, e ∈ map snd (map_to_list entries) /\ t = en_tunnel e /\ b = en_bridge e) <->
          (exists e, entries !! b = Some e /\ t = en_tunnel e)) as Hiff; [|naive_solver].
  split.
  - intros (e & Hin & -> & ->). apply list_elem_of_fmap in Hin as ([b' e'] & -> & Hin).
    apply elem_of_map_to_list in Hin. exists e'. split; [|done]. cbn. by rewrite (Hk b' e').
  - intros (e & Hl & ->). exists e. split_and!; [|done|by rewrite (Hk b e)].
    apply list_elem_of_fmap. exists (b, e). split; [done|]. by apply elem_of_map_to_list.
Qed.

(** What a snapshot frame adds. *)
Lemma add_entries_spec machine now es : forall idx known idx' known',
  NoDup (map en_bridge es) -> (forall e, e ∈ es -> known !! en_bridge e = None) -> keyed known -> no_empty idx ->
  add_entries machine now es idx known = (idx', known') ->
  keyed known' /\ no_empty idx' /\
  (forall b e, known' !! b = Some e <-> known !! b = Some e \/ (exists e0, e0 ∈ es /\ e = sane now e0 /\ b = en_bridge e0)) /\
  (forall t m b, indexed idx' t m b <->
     indexed idx t m b \/ (m = machine /\ exists e0, e0 ∈ es /\ t = en_tunnel e0 /\ b = en_bridge e0)).
Proof.
  induction es as [|e es IH]; intros idx known idx' known' Hnd Hfresh Hk Hn E; cbn [add_entries] in E.
  { injection E as <- <-. setoid_rewrite elem_of_nil. naive_solver. }
  cbn [map] in Hnd. apply NoDup_cons in Hnd as [Hni Hnd].
  apply IH in E as (H1 & H2 & H3 & H4); [|done| | |by apply no_empty_add].
  - split_and!; [done|done| |].
    + intros b e'. rewrite H3. cbn [sane en_bridge]. rewrite lookup_insert_Some. split.
      * intros [[[<- <-]|[Hne Hl]]|(e0 & Hin & -> & ->)]; [right; exists e; set_solver|by left|right; exists e0; set_solver].
      * intros [Hl|(e0 & [->|Hin]%elem_of_cons & -> & ->)].
        -- left. right. split; [|done]. intros <-. rewrite Hfresh in Hl by set_solver. done.
        -- left. by left.
        -- right. exists e0. done.
    + intros t m b. rewrite H4, indexed_add. cbn [sane en_tunnel en_bridge]. setoid_rewrite elem_of_cons. naive_solver.
  - intros e' Hin. cbn [sane en_bridge]. rewrite lookup_insert_ne; [apply Hfresh; set_solver|].
    intros Heq. apply Hni. rewrite Heq. apply list_elem_of_fmap. eauto.
  - intros b e' Hl. apply lookup_insert_Some in Hl as [[<- <-]|[_ Hl]]; [done|by apply Hk].
Qed.

(** *** The table is consistent *)

Definition claimed (ps : gmap string Peer) (t m : string) (b : Z) : Prop :=
  exists p e, ps !! m = Some p /\ pe_entries p !! b = Some e /\ en_tunnel e = t.

Record table_ok (r : Remote) : Prop := mkTableOk {
  tk_machine m p : peers r !! m = Some p -> he_machine_id (pe_hello p) = m;
  tk_keyed m p : peers r !! m = Some p -> keyed (pe_entries p);
  tk_index t m b : indexed (index r) t m b <-> claimed (peers r) t m b;
  tk_no_empty : no_empty (index r);
}.

(** One machine's entries change, and the index with them. *)
Lemma table_ok_update r m p' idx' :
  table_ok r -> he_machine_id (pe_hello p') = m -> keyed (pe_entries p') -> no_empty idx' ->
  (forall t m' b, indexed idx' t m' b <->
     m' <> m /\ indexed (index r) t m' b \/ m' = m /\ exists e, pe_entries p' !! b = Some e /\ en_tunnel e = t) ->
  table_ok (mkRemote (<[m := p']> (peers r)) idx').
Proof.
  intros [H1 H2 H3 H4] Hm Hk Hn Hi. split; cbn [peers index].
  - intros m' p. rewrite lookup_insert_Some. naive_solver.
  - intros m' p. rewrite lookup_insert_Some. naive_solver.
  - intros t m' b. rewrite Hi, H3. unfold claimed. destruct (decide (m' = m)) as [->|Hne].
    + rewrite lookup_insert_eq. naive_solver.
    + rewrite lookup_insert_ne by done. naive_solver.
  - done.
Qed.

(** The index of another machine's entries is not this one's. *)
Lemma table_index_own r m p t b :
  table_ok r -> peers r !! m = Some p ->
  indexed (index r) t m b <-> exists e, pe_entries p !! b = Some e /\ en_tunnel e = t.
Proof. intros Hok Hp. rewrite (tk_index _ Hok). unfold claimed. rewrite Hp. naive_solver. Qed.

(** A frame that does not name a bridge twice, which a snapshot of a map does not. *)
Definition frame_ok (p : Peer) (f : Frame) : Prop :=
  match f with
  | FSnapshot _ _ _ entries _ => NoDup (map en_bridge entries)
  | FSnapshotPart entries _ =>
      NoDup (map en_bridge entries) /\ (he_draining (pe_hello p) = false -> forall e, e ∈ entries -> pe_entries p !! en_bridge e = None)
  | _ => True
  end.

(** *** Every change keeps it consistent *)

Section TableChange.
Context (r : Remote) (machine : string) (p : Peer).
Hypothesis Hok : table_ok r.
Hypothesis Hp : peers r !! machine = Some p.

Lemma own_indexed t b : indexed (index r) t machine b <-> exists e, pe_entries p !! b = Some e /\ en_tunnel e = t.
Proof. by apply table_index_own. Qed.

Lemma index_without t m b :
  indexed (index_remove_all machine (pe_entries p) (index r)) t m b <-> m <> machine /\ indexed (index r) t m b.
Proof.
  rewrite indexed_remove_all by (by eapply tk_keyed). destruct (decide (m = machine)) as [->|]; [|tauto].
  rewrite own_indexed. naive_solver.
Qed.

(** The peer with other entries, numbered [seq]. *)
Lemma table_ok_entries seq known open idx :
  keyed known -> no_empty idx ->
  (forall t m b, indexed idx t m b <->
     m <> machine /\ indexed (index r) t m b \/ m = machine /\ exists e, known !! b = Some e /\ en_tunnel e = t) ->
  table_ok (mkRemote (<[machine := set_entries p seq known open]> (peers r)) idx).
Proof. intros Hk Hn Hi. apply table_ok_update; try done. by apply (tk_machine _ Hok _ _ Hp). Qed.

Lemma table_ok_same seq open : table_ok (mkRemote (<[machine := set_entries p seq (pe_entries p) open]> (peers r)) (index r)).
Proof.
  apply table_ok_entries; [by eapply tk_keyed|by apply tk_no_empty|]. intros t m b.
  destruct (decide (m = machine)) as [->|]; [rewrite own_indexed|]; naive_solver.
Qed.

Lemma table_ok_snapshot now seq es open idx known :
  NoDup (map en_bridge es) ->
  add_entries machine now es (index_remove_all machine (pe_entries p) (index r)) ∅ = (idx, known) ->
  table_ok (mkRemote (<[machine := set_entries p seq known open]> (peers r)) idx).
Proof.
  intros Hnd Ea. apply add_entries_spec in Ea as (K1 & K2 & K3 & K4);
    [|done|by intros; rewrite lookup_empty|done|by apply no_empty_remove_list, tk_no_empty].
  apply table_ok_entries; try done. intros t m b. rewrite K4, index_without. setoid_rewrite K3. setoid_rewrite lookup_empty. split.
  - intros [?|(-> & e0 & Hin & -> & ->)]; [by left|right]. split; [done|]. exists (sane now e0). naive_solver.
  - intros [?|(-> & e & [?|(e0 & Hin & -> & ->)] & <-)]; [by left|done|right]. naive_solver.
Qed.

Lemma table_ok_part now seq es open idx known :
  NoDup (map en_bridge es) -> (forall e, e ∈ es -> pe_entries p !! en_bridge e = None) ->
  add_entries machine now es (index r) (pe_entries p) = (idx, known) ->
  table_ok (mkRemote (<[machine := set_entries p seq known open]> (peers r)) idx).
Proof.
  intros Hnd Hf Ea. apply add_entries_spec in Ea as (K1 & K2 & K3 & K4); [|done|done|by eapply tk_keyed|by apply tk_no_empty].
  apply table_ok_entries; try done. intros t m b. rewrite K4. setoid_rewrite K3.
  destruct (decide (m = machine)) as [->|]; [rewrite own_indexed|naive_solver]. split.
  - intros [(e & Hl & <-)|(_ & e0 & Hin & -> & ->)]; right; (split; [done|]); [eauto|]. exists (sane now e0). naive_solver.
  - intros [[]|(_ & e & [Hl|(e0 & Hin & -> & ->)] & <-)]; [done|left; eauto|right]. naive_solver.
Qed.

(** The index without the entry of one bridge. *)
Definition index_without_bridge (b : Z) : Index :=
  match pe_entries p !! b with Some e => index_remove machine e (index r) | None => index r end.

Lemma indexed_without_bridge b t m b' :
  indexed (index_without_bridge b) t m b' <-> indexed (index r) t m b' /\ ~ (m = machine /\ b' = b).
Proof.
  pose proof (tk_keyed _ Hok _ _ Hp) as Hk. unfold index_without_bridge. destruct (decide (m = machine)) as [->|Hne].
  - destruct (pe_entries p !! b) as [prev|] eqn:El.
    + rewrite indexed_remove, own_indexed. rewrite (Hk _ _ El). naive_solver.
    + rewrite own_indexed. naive_solver.
  - case_match; rewrite ?indexed_remove; naive_solver.
Qed.

Lemma no_empty_without_bridge b : no_empty (index_without_bridge b).
Proof. unfold index_without_bridge. case_match; [apply no_empty_remove|]; by apply tk_no_empty. Qed.

Lemma table_ok_attached now seq entry open :
  table_ok (mkRemote (<[machine := set_entries p seq (<[en_bridge entry := sane now entry]> (pe_entries p)) open]> (peers r))
              (index_add machine (sane now entry) (index_without_bridge (en_bridge entry)))).
Proof.
  apply table_ok_entries.
  - intros b e'. rewrite lookup_insert_Some. intros [[<- <-]|[_ Hl]]; [done|]. by apply (tk_keyed _ Hok _ _ Hp).
  - apply no_empty_add, no_empty_without_bridge.
  - intros t m b. rewrite indexed_add, indexed_without_bridge. setoid_rewrite lookup_insert_Some.
    cbn [sane en_tunnel en_bridge]. destruct (decide (m = machine)) as [->|Hne]; [rewrite own_indexed|naive_solver].
    destruct (decide (b = en_bridge entry)) as [->|Hb]; naive_solver.
Qed.

Lemma table_ok_detached seq b open :
  table_ok (mkRemote (<[machine := set_entries p seq (delete b (pe_entries p)) open]> (peers r)) (index_without_bridge b)).
Proof.
  apply table_ok_entries; [|apply no_empty_without_bridge|].
  - intros b' e. rewrite lookup_delete_Some. intros [_ Hl]. by apply (tk_keyed _ Hok _ _ Hp).
  - intros t m b'. rewrite indexed_without_bridge. setoid_rewrite lookup_delete_Some.
    destruct (decide (m = machine)) as [->|Hne]; [rewrite own_indexed|]; naive_solver.
Qed.

Lemma table_ok_emptied seq open :
  table_ok (mkRemote (<[machine := set_entries p seq ∅ open]> (peers r)) (index_remove_all machine (pe_entries p) (index r))).
Proof.
  apply table_ok_entries; [done|by apply no_empty_remove_list, tk_no_empty|].
  intros t m b. rewrite index_without. setoid_rewrite lookup_empty. naive_solver.
Qed.

Lemma table_ok_leaving :
  table_ok (mkRemote (<[machine := set_draining p]> (peers r)) (index_remove_all machine (pe_entries p) (index r))).
Proof.
  apply table_ok_update; [done|by apply (tk_machine _ Hok _ _ Hp)|done|by apply no_empty_remove_list, tk_no_empty|].
  intros t m b. rewrite index_without. cbn. setoid_rewrite lookup_empty. naive_solver.
Qed.

Lemma clear_table_ok : table_ok (clear machine r).
Proof. unfold clear. rewrite Hp. apply table_ok_emptied. Qed.
End TableChange.

Lemma apply_table_ok machine link frame now r r' notices :
  table_ok r -> (forall p, peers r !! machine = Some p -> frame_ok p frame) ->
  apply machine link frame now r = Ok (r', notices) -> table_ok r'.
Proof.
  intros Hok Hf E. unfold apply in E. destruct (peers r !! machine) as [p|] eqn:Ep; [|done].
  specialize (Hf p eq_refl). destruct (negb (pe_link p =? link)); [done|].
  destruct frame as [h|epoch seq sent entries more|entries more|seq sent entry|seq sent tn bridge|sent event|sent|];
    cbn [frame_ok] in Hf.
  - done.
  - destruct (negb (epoch =? _)); [done|]. destruct (he_draining (pe_hello p)).
    + injection E as <- <-. by apply table_ok_emptied.
    + destruct (add_entries _ _ _ _ _) as [idx known] eqn:Ea. injection E as <- <-. by eapply table_ok_snapshot.
  - destruct (negb (snapshot_open p)); [done|]. destruct Hf as [Hnd Hf]. destruct (he_draining (pe_hello p)).
    + injection E as <- <-. by apply table_ok_same.
    + destruct (add_entries _ _ _ _ _) as [idx known] eqn:Ea. injection E as <- <-. eapply table_ok_part; eauto.
  - destruct (snapshot_open p); [done|]. destruct (negb (seq =? _)); [done|].
    destruct (he_draining (pe_hello p)); injection E as <- <-; [by apply table_ok_same|by apply table_ok_attached].
  - destruct (negb (seq =? _)); [done|]. injection E as <- <-. by apply table_ok_detached.
  - destruct event; injection E as <- <-; try done. by apply table_ok_leaving.
  - by injection E as <- <-.
  - by injection E as <- <-.
Qed.

(** A machine without entries can come and go. *)
Lemma table_ok_insert r machine p :
  table_ok r -> he_machine_id (pe_hello p) = machine -> keyed (pe_entries p) ->
  (forall b e t, pe_entries p !! b = Some e -> en_tunnel e = t <-> en_tunnel e = t /\ claimed (peers r) t machine b) ->
  (forall t b, claimed (peers r) t machine b -> exists e, pe_entries p !! b = Some e /\ en_tunnel e = t) ->
  table_ok (mkRemote (<[machine := p]> (peers r)) (index r)).
Proof.
  intros Hok Hm Hk H1 H2. apply table_ok_update; try done; [by apply tk_no_empty|]. intros t m b.
  rewrite (tk_index _ Hok). destruct (decide (m = machine)) as [->|]; [|naive_solver]. split.
  - intros Hc. right. split; [done|]. by apply H2.
  - intros [[]|(_ & e & Hl & <-)]; [done|]. by apply (H1 b e (en_tunnel e) Hl).
Qed.

Lemma clear_lookup machine r p :
  peers r !! machine = Some p ->
  peers (clear machine r) !! machine = Some (set_entries p (pe_seq p) ∅ (snapshot_open p)).
Proof. intros Ep. unfold clear. rewrite Ep. cbn. by rewrite lookup_insert_eq. Qed.

Lemma register_table_ok partitioned hello link dialer now r kept old r' :
  table_ok r -> register partitioned hello link dialer now r = (kept, old, r') -> table_ok r'.
Proof.
  intros Hok. unfold register. case_decide; [by intros [= <- <- <-]|].
  destruct (peers r !! he_machine_id hello) as [p|] eqn:Ep.
  - destruct (negb (String.eqb _ _)); [by intros [= <- <- <-]|]. destruct (negb (if negb _ then _ else _)); [by intros [= <- <- <-]|].
    case_bool_decide as Hl; intros [= <- <- <-].
    + apply table_ok_insert; cbn [pe_hello pe_entries]; try done; [by eapply tk_keyed| |]; unfold claimed; rewrite Ep; naive_solver.
    + pose proof (clear_table_ok r _ _ Hok Ep) as Hok'. pose proof (clear_lookup _ _ _ Ep) as Ec.
      apply table_ok_insert; cbn [pe_hello pe_entries]; try done; unfold claimed; rewrite ?Ec; cbn; setoid_rewrite lookup_empty; naive_solver.
  - intros [= <- <- <-].
    apply table_ok_insert; cbn [pe_hello pe_entries]; try done; unfold claimed; rewrite ?Ep; setoid_rewrite lookup_empty; naive_solver.
Qed.

Lemma link_down_table_ok machine link r : table_ok r -> table_ok (link_down machine link r).
Proof.
  intros Hok. unfold link_down. destruct (peers r !! machine) as [p|] eqn:Ep; [|done]. destruct (pe_link p =? link); [|done].
  destruct (clear_table_ok r _ _ Hok Ep) as [H1 H2 H3 H4]. pose proof (clear_lookup _ _ _ Ep) as Ec.
  split; cbn [peers index]; [| |intros t m b; rewrite H3; unfold claimed|done].
  - intros m p'. rewrite lookup_delete_Some. naive_solver.
  - intros m p'. rewrite lookup_delete_Some. naive_solver.
  - destruct (decide (m = machine)) as [->|]; [|by rewrite lookup_delete_ne].
    rewrite lookup_delete_eq, Ec. split; [|naive_solver]. intros (p0 & e & [= <-] & Hl & _). cbn in Hl. by rewrite lookup_empty in Hl.
Qed.

Lemma empty_table_ok : table_ok empty_remote.
Proof.
  split; cbn.
  - intros m p. by rewrite lookup_empty.
  - intros m p. by rewrite lookup_empty.
  - intros t m b. unfold indexed, claimed. setoid_rewrite lookup_empty. naive_solver.
  - intros t s. by rewrite lookup_empty.
Qed.

(** The tables a machine can have: links come up, frames arrive, links end. *)
Inductive reachable : Remote -> Prop :=
| reach_empty : reachable empty_remote
| reach_register r partitioned hello link dialer now kept old r' :
    reachable r -> register partitioned hello link dialer now r = (kept, old, r') -> reachable r'
| reach_apply r machine link frame now r' notices :
    reachable r -> (forall p, peers r !! machine = Some p -> frame_ok p frame) ->
    apply machine link frame now r = Ok (r', notices) -> reachable r'
| reach_link_down r machine link : reachable r -> reachable (link_down machine link r).

Lemma reachable_table_ok r : reachable r -> table_ok r.
Proof.
  induction 1; [apply empty_table_ok|by eapply register_table_ok|by eapply apply_table_ok|by apply link_down_table_ok].
Qed.

Lemma max_by_key_spec {A} (key : A -> Z) l :
  match max_by_key key l with
  | Some x => x ∈ l /\ forall y, y ∈ l -> key y <= key x
  | None => l = []
  end.
Proof.
  induction l as [|x l IH]; cbn; [done|]. destruct (max_by_key key l) as [y|].
  - destruct IH as [Hin Hmax]. case_split; bsimp; (split; [set_solver|]); intros z [->|Hz]%elem_of_cons; try lia.
    + by apply Hmax.
    + specialize (Hmax z Hz). lia.
  - subst l. split; [set_solver|]. intros z [->|Hz]%elem_of_cons; [lia|by apply not_elem_of_nil in Hz].
Qed.

(** A machine, not draining, whose bridge claims the route of the tunnel. *)
Definition claims (r : Remote) (tunnel route machine : string) (p : Peer) (e : Entry) : Prop :=
  peers r !! machine = Some p /\ pe_entries p !! en_bridge e = Some e /\ en_tunnel e = tunnel /\ In route (en_routes e) /\
  he_draining (pe_hello p) = false.

Lemma str_in_true s l : str_in s l = true <-> In s l.
Proof.
  unfold str_in. rewrite existsb_exists. split.
  - intros (x & Hin & He). apply String.eqb_eq in He. by subst.
  - intros Hin. exists s. split; [done|apply String.eqb_refl].
Qed.

Section Lookups.
Context `{HashOrder}.

Lemma holders_of_spec r tunnel m b : (m, b) ∈ holders_of tunnel r <-> indexed (index r) tunnel m b.
Proof.
  unfold holders_of, indexed. destruct (index r !! tunnel) as [s|] eqn:E.
  - rewrite order_perm, elem_of_elements. naive_solver.
  - split; [by intros ?%not_elem_of_nil|naive_solver].
Qed.

(** A visitor is sent to the newest bridge for its route: in every table a machine can reach, [locate] names a linked
    machine that is not draining, is not the one already tried and has a bridge claiming the route, and none of the
    others attached later; it names none only if there is none. *)
Theorem locate_newest r tunnel route except :
  reachable r ->
  match locate tunnel route except r with
  | Some l => exists m p e, l = location p /\ lc_machine_id l = m /\ Some m <> except /\ claims r tunnel route m p e /\
      forall m' p' e', Some m' <> except -> claims r tunnel route m' p' e' -> en_attached_at e' <= en_attached_at e
  | None => forall m p e, Some m <> except -> ~ claims r tunnel route m p e
  end.
Proof.
  intros Hr. pose proof (reachable_table_ok r Hr) as Hok. unfold locate.
  set (f := fun mb => if decide (Some mb.1 = except) then _ else _).
  assert (forall x, x ∈ omap f (holders_of tunnel r) <->
    exists m p e, Some m <> except /\ claims r tunnel route m p e /\ x = (en_attached_at e, p)) as Hin.
  { intros x. rewrite list_elem_of_omap. split.
    - intros ([m b] & Hh & Hf). apply holders_of_spec, (tk_index _ Hok) in Hh as (p & e & Hp & He & Ht).
      unfold f in Hf. cbn [fst] in Hf. case_decide; [done|]. unfold entry_of in Hf. cbn [fst snd] in Hf.
      rewrite Hp in Hf. cbn in Hf. rewrite He in Hf. cbn in Hf. case_split; [|done]. bsimp. injection Hf as <-.
      exists m, p, e. split_and!; [done| |done]. pose proof (tk_keyed _ Hok _ _ Hp _ _ He) as <-.
      split_and!; try done. by apply str_in_true.
    - intros (m & p & e & Hne & (Hp & He & Ht & Hr' & Hd) & ->). exists (m, en_bridge e). split.
      + apply holders_of_spec, (tk_index _ Hok). exists p, e. done.
      + unfold f. cbn [fst]. rewrite decide_False by done. unfold entry_of. cbn [fst snd]. rewrite Hp. cbn. rewrite He. cbn.
        rewrite Hd. cbn. by rewrite (proj2 (str_in_true _ _) Hr'). }
  pose proof (max_by_key_spec fst (omap f (holders_of tunnel r))) as Hmax.
  destruct (max_by_key fst _) as [[at_ p]|]; cbn.
  - destruct Hmax as [Hx Hall]. apply Hin in Hx as (m & p0 & e & Hne & Hc & [= -> ->]). exists m, p0, e. split_and!; try done.
    + cbn. by eapply tk_machine, Hc.
    + intros m' p' e' Hne' Hc'. apply (Hall (en_attached_at e', p')), Hin. eauto 10.
  - intros m p e Hne Hc. assert ((en_attached_at e, p) ∈ omap f (holders_of tunnel r)) as Hx by (apply Hin; eauto 10).
    rewrite Hmax in Hx. by apply not_elem_of_nil in Hx.
Qed.
End Lookups.

(** ** Two links between two machines *)

Lemma ltb_flip a b : a <> b -> String.ltb a b = negb (String.ltb b a).
Proof.
  intros Hne. unfold String.ltb. rewrite (String.compare_antisym a b).
  destruct (String.compare b a) eqn:E; cbn; [|done|done]. apply String.compare_eq_iff in E. congruence.
Qed.

(** Both links come up, in either order. *)
Definition register_both (swap : bool) (partitioned : gset string) (hello : Hello) (l1 : Z) (d1 : string) (l2 : Z) (d2 : string)
    (now : Z) (r : Remote) : Remote :=
  let first := if swap then (l2, d2) else (l1, d1) in
  let second := if swap then (l1, d1) else (l2, d2) in
  let '(_, _, r) := register partitioned hello first.1 first.2 now r in
  let '(_, _, r) := register partitioned hello second.1 second.2 now r in r.

Lemma register_first partitioned hello link dialer now r :
  he_machine_id hello ∉ partitioned -> peers r !! he_machine_id hello = None ->
  register partitioned hello link dialer now r
  = (true, None, mkRemote (<[he_machine_id hello := mkPeer hello link dialer now 0 ∅ false]> (peers r)) (index r)).
Proof. intros Hp Hn. unfold register. rewrite decide_False by done. by rewrite Hn. Qed.

(** A second link of the same life wins if its dialer is lower. *)
Lemma register_second partitioned hello link dialer now r p :
  he_machine_id hello ∉ partitioned -> peers r !! he_machine_id hello = Some p -> pe_hello p = hello -> pe_dialer p <> dialer ->
  exists old r', register partitioned hello link dialer now r = (String.ltb dialer (pe_dialer p), old, r') /\
    exists p', peers r' !! he_machine_id hello = Some p' /\
      (pe_dialer p', pe_link p') = if String.ltb dialer (pe_dialer p) then (dialer, link) else (pe_dialer p, pe_link p).
Proof.
  intros Hp Hl Hh Hd. unfold register. rewrite decide_False by done. rewrite Hl, Hh, String.eqb_refl. cbn [negb].
  rewrite bool_decide_true by done. cbn [negb]. rewrite (proj2 (String.eqb_neq _ _)) by done. cbn [negb].
  destruct (String.ltb dialer (pe_dialer p)); cbn [negb].
  - eexists _, _. split; [done|]. eexists. cbn. by rewrite lookup_insert_eq.
  - eexists _, _. split; [done|]. by exists p.
Qed.

(** Both sides of a pair keep the same one of two links: whatever order the links come up in on a side, it keeps the
    one dialed by the lower address, and the other link's end changes nothing; a link of an earlier life of the machine
    never replaces a later one, nor does one from another address. *)
Theorem links_settle swap partitioned hello l1 d1 l2 d2 now r :
  he_machine_id hello ∉ partitioned -> peers r !! he_machine_id hello = None -> d1 <> d2 -> l1 <> l2 ->
  let r' := register_both swap partitioned hello l1 d1 l2 d2 now r in
  let winner := if String.ltb d1 d2 then (d1, l1) else (d2, l2) in
  let loser := if String.ltb d1 d2 then l2 else l1 in
  (exists p, peers r' !! he_machine_id hello = Some p /\ (pe_dialer p, pe_link p) = winner) /\
  link_down (he_machine_id hello) loser r' = r' /\
  forall hello' link dialer now' p, he_machine_id hello' = he_machine_id hello -> peers r' !! he_machine_id hello = Some p ->
    (life_gtb (life (pe_hello p)) (life hello') = true \/ he_address hello' <> he_address (pe_hello p)) ->
    register partitioned hello' link dialer now' r' = (false, None, r').
Proof.
  intros Hp Hn Hd Hlk r' winner loser.
  assert (exists p, peers r' !! he_machine_id hello = Some p /\ (pe_dialer p, pe_link p) = winner) as (p & Hl & Hw).
  { unfold r', register_both. rewrite register_first by done.
    set (r1 := mkRemote _ _). set (p1 := mkPeer hello _ _ now 0 ∅ false) in r1.
    assert (peers r1 !! he_machine_id hello = Some p1) as H1 by (cbn; by rewrite lookup_insert_eq).
    destruct (register_second partitioned hello (if swap then l1 else l2) (if swap then d1 else d2) now r1 p1 Hp H1 eq_refl)
      as (old & r2 & E & p2 & H2 & Hk); [destruct swap; cbn; congruence|].
    exists p2. unfold winner.
    destruct swap; cbn [fst snd] in *; rewrite E; (split; [done|]); rewrite Hk; cbn [pe_dialer pe_link p1]; [done|].
    rewrite (ltb_flip d2 d1) by done. by destruct (String.ltb d1 d2). }
  split_and!.
  - eauto.
  - unfold link_down. rewrite Hl. rewrite (proj2 (Z.eqb_neq _ _)); [done|].
    unfold winner, loser in *. destruct (String.ltb d1 d2); injection Hw as _ ->; congruence.
  - intros hello' link dialer now' p0 Hm Hl0 Hcase. rewrite Hl in Hl0. injection Hl0 as <-. unfold register. rewrite Hm.
    rewrite decide_False by done. rewrite Hl. destruct (String.eqb _ _) eqn:Ea; cbn [negb]; [|done].
    apply String.eqb_eq in Ea. destruct Hcase as [Hlt|Hne]; [|congruence]. unfold life_gtb in *.
    rewrite bool_decide_false; [|intros E; rewrite E, !Z.ltb_irrefl, andb_false_r in Hlt; done]. cbn [negb].
    assert ((fst (life (pe_hello p)) <? fst (life hello')) || ((fst (life (pe_hello p)) =? fst (life hello'))
      && (snd (life (pe_hello p)) <? snd (life hello'))) = false) as ->; [|done].
    apply orb_true_iff in Hlt as [Hlt|Hlt]; bsimp; rewrite orb_false_iff, andb_false_iff, !Z.ltb_ge, Z.eqb_neq; lia.
Qed.

Definition sample_hello : Hello := mkHello 1 "m" "fra" "[::1]:4443" 7 100 false.

Lemma links_settle_witness :
  link_down "m" 5 (register_both true ∅ sample_hello 4 "a:1" 5 "b:1" 0 empty_remote)
  = register_both true ∅ sample_hello 4 "a:1" 5 "b:1" 0 empty_remote.
Proof.
  exact (proj1 (proj2 (links_settle true ∅ sample_hello 4 "a:1" 5 "b:1" 0 empty_remote
    (not_elem_of_empty _) eq_refl ltac:(discriminate) ltac:(lia)))).
Defined.

(** ** The replica of a machine's entries *)

(** What a frame does to its peer. *)
Definition entries_after (now : Z) (es : list Entry) (known : gmap Z Entry) : gmap Z Entry :=
  foldl (fun known e => <[en_bridge e := sane now e]> known) known es.

Definition apply_peer (p : Peer) (f : Frame) (now : Z) : option Peer :=
  let draining := he_draining (pe_hello p) in
  match f with
  | FPing _ | FUnknown => Some p
  | FHello _ => None
  | FSnapshot epoch seq _ es more =>
      if epoch =? he_epoch (pe_hello p) then Some (set_entries p seq (if draining then ∅ else entries_after now es ∅) more) else None
  | FSnapshotPart es more =>
      if snapshot_open p
      then Some (set_entries p (pe_seq p) (if draining then pe_entries p else entries_after now es (pe_entries p)) more) else None
  | FAttached seq _ e =>
      if snapshot_open p then None
      else if seq =? pe_seq p + 1
      then Some (set_entries p seq (if draining then pe_entries p else <[en_bridge e := sane now e]> (pe_entries p)) (snapshot_open p))
      else None
  | FDetached seq _ _ b =>
      if seq =? pe_seq p + 1 then Some (set_entries p seq (delete b (pe_entries p)) (snapshot_open p)) else None
  | FEvent _ event => match event with Leaving => Some (set_draining p) | _ => Some p end
  end.

Lemma add_entries_known machine now es : forall idx known, snd (add_entries machine now es idx known) = entries_after now es known.
Proof. induction es as [|e es IH]; intros idx known; [done|]. cbn [add_entries]. by rewrite IH. Qed.

(** [apply] changes the table of the peer and of nobody else. *)
Lemma apply_peer_spec machine link f now r p :
  peers r !! machine = Some p -> pe_link p = link ->
  match apply_peer p f now with
  | Some p' => exists r' notices, apply machine link f now r = Ok (r', notices) /\ peers r' = <[machine := p']> (peers r) /\
      pe_link p' = link
  | None => exists e, apply machine link f now r = Err e
  end.
Proof.
  intros Hp Hl. unfold apply. rewrite Hp, Hl, Z.eqb_refl. cbn [negb].
  assert (<[machine := p]> (peers r) = peers r) as Hid by (by apply insert_id).
  destruct f as [h|epoch seq sent es more|es more|seq sent e|seq sent tn b|sent event|sent|]; cbn [apply_peer].
  - eauto.
  - destruct (epoch =? _); cbn [negb]; [|eauto].
    destruct (he_draining (pe_hello p)); [eauto 10|].
    pose proof (add_entries_known machine now es (index_remove_all machine (pe_entries p) (index r)) ∅) as Hk.
    destruct (add_entries _ _ _ _ _) as [idx known]. cbn in Hk. subst known. eauto 10.
  - destruct (snapshot_open p); cbn [negb]; [|eauto]. destruct (he_draining (pe_hello p)); [eauto 10|].
    pose proof (add_entries_known machine now es (index r) (pe_entries p)) as Hk.
    destruct (add_entries _ _ _ _ _) as [idx known]. cbn in Hk. subst known. eauto 10.
  - destruct (snapshot_open p); [eauto|]. destruct (seq =? _); cbn [negb]; [|eauto]. destruct (he_draining _); eauto 10.
  - destruct (seq =? _); cbn [negb]; eauto 10.
  - destruct event; rewrite ?Hid; eauto 10.
  - rewrite Hid. eauto 10.
  - rewrite Hid. eauto 10.
Qed.

(** A replicated entry: the same claim, its time brought back to the receiver's clock if it was too far ahead. *)
Definition same_entry (e e' : Entry) : Prop :=
  en_tunnel e' = en_tunnel e /\ en_bridge e' = en_bridge e /\ en_routes e' = en_routes e /\
  (en_attached_at e' = en_attached_at e \/ en_attached_at e' + MAX_CLOCK_AHEAD_MS < en_attached_at e).

Definition entries_match (local remote : gmap Z Entry) : Prop :=
  forall b, match local !! b, remote !! b with
            | Some e, Some e' => same_entry e e'
            | None, None => True
            | _, _ => False
            end.

Lemma sane_same now e : same_entry e (sane now e).
Proof.
  unfold same_entry, sane, sane_time. cbn. split_and!; try done. case_split; bsimp; [right; lia|by left].
Qed.

(** The peer's table is what the machine has. *)
Definition agrees (l : Local) (draining : bool) (p : Peer) : Prop :=
  pe_seq p = lo_seq l /\ snapshot_open p = false /\ he_draining (pe_hello p) = draining /\
  if draining then pe_entries p = ∅ else entries_match (lo_entries l) (pe_entries p).

(** The frames are all taken, whenever they arrive, and [Q] holds then. *)
Fixpoint delivers (p : Peer) (frames : list Frame) (Q : Peer -> Prop) : Prop :=
  match frames with
  | [] => Q p
  | f :: frames' => forall now, exists p', apply_peer p f now = Some p' /\ delivers p' frames' Q
  end.

Lemma delivers_app p f1 f2 Q : delivers p (f1 ++ f2) Q <-> delivers p f1 (fun p' => delivers p' f2 Q).
Proof. revert p. induction f1 as [|f f1 IH]; intros p; [done|]. cbn. by setoid_rewrite IH. Qed.

Lemma delivers_mono p frames (Q Q' : Peer -> Prop) : (forall p, Q p -> Q' p) -> delivers p frames Q -> delivers p frames Q'.
Proof.
  intros HQ. revert p. induction frames as [|f fs IH]; intros p; cbn; [auto|]. intros Hd now.
  destruct (Hd now) as (p' & Ha & Hd'). eauto.
Qed.

(** One more frame at the end. *)
Lemma delivers_snoc p frames f (Q Q' : Peer -> Prop) :
  (forall p now, Q p -> exists p', apply_peer p f now = Some p' /\ Q' p') ->
  delivers p frames Q -> delivers p (frames ++ [f]) Q'.
Proof.
  intros HQ Hd. apply delivers_app. eapply delivers_mono; [|exact Hd]. intros p' Hp' now. cbn. by apply HQ.
Qed.

(** *** The changes a machine announces *)

Lemma attached_agrees l dr t b routes at_ sent p now :
  agrees l dr p ->
  exists p', apply_peer p (FAttached (lo_seq l + 1) sent (mkEntry t b routes at_)) now = Some p' /\
    agrees (attached t b routes at_ sent l) dr p'.
Proof.
  intros (Hs & Ho & Hd & He). cbn [apply_peer]. rewrite Ho, Hs, Z.eqb_refl. eexists. split; [done|].
  unfold agrees. cbn. split_and!; [done|done|done|]. rewrite Hd. destruct dr; [done|]. cbn [en_bridge]. intros b'.
  destruct (decide (b' = b)) as [->|]; [rewrite !lookup_insert_eq; apply sane_same|].
  rewrite !lookup_insert_ne by done. apply He.
Qed.

Lemma detached_agrees l dr t b sent p now e :
  lo_entries l !! b = Some e -> agrees l dr p ->
  exists p', apply_peer p (FDetached (lo_seq l + 1) sent t b) now = Some p' /\ agrees (detached t b sent l) dr p'.
Proof.
  intros Hl (Hs & Ho & Hd & He). cbn [apply_peer]. rewrite Hs, Z.eqb_refl. eexists. split; [done|].
  unfold agrees, detached. rewrite Hl. cbn. split_and!; [done|done|done|]. destruct dr.
  - rewrite He. apply delete_empty.
  - intros b'. destruct (decide (b' = b)) as [->|]; [by rewrite !lookup_delete_eq|].
    rewrite !lookup_delete_ne by done. apply He.
Qed.

Lemma event_agrees l dr ev sent p now :
  ev <> Leaving -> agrees l dr p ->
  exists p', apply_peer p (FEvent sent ev) now = Some p' /\ agrees (publish ev sent l) dr p'.
Proof. intros Hne Ha. destruct ev; try done; cbn; eauto. Qed.

Lemma leaving_agrees l dr sent p now :
  agrees l dr p -> exists p', apply_peer p (FEvent sent Leaving) now = Some p' /\ agrees (publish Leaving sent l) true p'.
Proof. intros (Hs & Ho & _). cbn. eexists. split; [done|]. by split_and!. Qed.

(** *** The snapshot *)

Definition insert_all (es : list Entry) (known : gmap Z Entry) : gmap Z Entry :=
  foldl (fun known e => <[en_bridge e := e]> known) known es.

Lemma insert_all_lookup es : forall known b e,
  NoDup (map en_bridge es) ->
  insert_all es known !! b = Some e <-> (e ∈ es /\ en_bridge e = b) \/ (known !! b = Some e /\ b ∉ map en_bridge es).
Proof.
  induction es as [|e0 es IH]; intros known b e Hnd; cbn [insert_all foldl map].
  { split; [intros; right; split; [done|apply not_elem_of_nil]|]. intros [[?%not_elem_of_nil _]|[? _]]; done. }
  fold (insert_all es (<[en_bridge e0 := e0]> known)). apply NoDup_cons in Hnd as [Hni Hnd]. rewrite IH by done.
  rewrite lookup_insert_Some, not_elem_of_cons, elem_of_cons. split.
  - intros [[Hin <-]|[[[<- <-]|[Hne Hl]] Hn]]; [by left; auto|by left; auto|by right].
  - intros [[[->|Hin] <-]|[Hl [Hne Hn]]]; [right|by left|right]; [|by auto].
    split; [by left|]. exact Hni.
Qed.

Lemma entries_match_insert k k' e now :
  entries_match k k' -> entries_match (<[en_bridge e := e]> k) (<[en_bridge e := sane now e]> k').
Proof.
  intros Hm b. destruct (decide (b = en_bridge e)) as [->|]; [rewrite !lookup_insert_eq; apply sane_same|].
  rewrite !lookup_insert_ne by done. apply Hm.
Qed.

Lemma entries_match_after now es : forall k k', entries_match k k' -> entries_match (insert_all es k) (entries_after now es k').
Proof.
  induction es as [|e es IH]; intros k k' Hm; [done|]. cbn. apply IH. by apply entries_match_insert.
Qed.

(** After a snapshot: its number, and the entries it carried. *)
Definition snapshot_taken (seq : Z) (draining : bool) (known : gmap Z Entry) (p : Peer) : Prop :=
  pe_seq p = seq /\ snapshot_open p = false /\ he_draining (pe_hello p) = draining /\
  if draining then pe_entries p = ∅ else entries_match known (pe_entries p).

Lemma parts_delivered chunks : forall p known,
  snapshot_open p = match chunks with [] => false | _ => true end ->
  (if he_draining (pe_hello p) then pe_entries p = ∅ else entries_match known (pe_entries p)) ->
  delivers p (snapshot_parts chunks)
    (snapshot_taken (pe_seq p) (he_draining (pe_hello p)) (insert_all (concat chunks) known)).
Proof.
  induction chunks as [|c chunks IH]; intros p known Ho He; [by split_and!|].
  cbn [snapshot_parts delivers apply_peer]. rewrite Ho. intros now. eexists. split; [done|].
  set (p' := set_entries p _ _ _). change (pe_seq p) with (pe_seq p').
  change (he_draining (pe_hello p)) with (he_draining (pe_hello p')).
  cbn [concat]. unfold insert_all. rewrite foldl_app. fold (insert_all c known). apply IH; [done|].
  cbn. destruct (he_draining (pe_hello p)); [done|]. by apply entries_match_after.
Qed.

Lemma snapshot_delivered epoch seq sent c chunks p :
  epoch = he_epoch (pe_hello p) ->
  delivers p (snapshot_frames epoch seq sent (c :: chunks))
    (snapshot_taken seq (he_draining (pe_hello p)) (insert_all (concat (c :: chunks)) ∅)).
Proof.
  intros ->. cbn [snapshot_frames delivers apply_peer]. rewrite Z.eqb_refl. intros now. eexists. split; [done|].
  set (p' := set_entries p _ _ _). change seq with (pe_seq p').
  change (he_draining (pe_hello p)) with (he_draining (pe_hello p')).
  cbn [concat]. unfold insert_all. rewrite foldl_app. fold (insert_all c ∅). apply parts_delivered; [done|].
  cbn. destruct (he_draining (pe_hello p)); [done|]. apply entries_match_after. intros b. by rewrite lookup_empty.
Qed.

Section Subscribe.
Context `{HashOrder} (json_length : Entry -> Z) (snapshot_chunk : Z).

Lemma chunk_loop_concat es : forall size current, concat (chunk_loop json_length snapshot_chunk es size current) = current ++ es.
Proof.
  induction es as [|e es IH]; intros size current; cbn [chunk_loop]; [cbn; by rewrite !app_nil_r|].
  case_split; [cbn [concat]; by rewrite IH|]. rewrite IH. by rewrite <- app_assoc.
Qed.

Lemma chunk_loop_nonempty es size current :
  exists c cs, chunk_loop json_length snapshot_chunk es size current = c :: cs.
Proof. revert size current. induction es as [|e es IH]; intros; cbn [chunk_loop]; [eauto|]. case_split; eauto. Qed.

(** There are at most one more chunks than entries. *)
Lemma chunk_loop_length es : forall size current,
  (length (chunk_loop json_length snapshot_chunk es size current) <= S (length es))%nat.
Proof.
  induction es as [|e es IH]; intros size current; cbn [chunk_loop length]; [lia|].
  case_split; cbn [length]; [specialize (IH (json_length e) [e])|specialize (IH (size + json_length e) (current ++ [e]))]; lia.
Qed.

Lemma length_snapshot_parts chunks : length (snapshot_parts chunks) = length chunks.
Proof. induction chunks; cbn; congruence. Qed.

Lemma insert_all_values (m : gmap Z Entry) : keyed m -> insert_all (order (map snd (map_to_list m))) ∅ = m.
Proof.
  intros Hk. apply map_eq. intros b. apply option_eq. intros e.
  assert (map en_bridge (map snd (map_to_list m)) = map fst (map_to_list m)) as Hb.
  { rewrite map_map. apply map_ext_in. intros [b' e'] Hin%list_elem_of_In%elem_of_map_to_list. cbn. by apply Hk. }
  rewrite insert_all_lookup.
  - rewrite order_perm. split.
    + intros [[Hin Hbr]|[Hl _]]; [|by rewrite lookup_empty in Hl]. apply list_elem_of_fmap in Hin as ([b' e'] & -> & Hin).
      apply elem_of_map_to_list in Hin. cbn in *. by rewrite <- Hbr, (Hk _ _ Hin).
    + intros Hl. left. split; [|by apply Hk]. apply list_elem_of_fmap. exists (b, e). split; [done|]. by apply elem_of_map_to_list.
  - assert (map en_bridge (order (map snd (map_to_list m))) ≡ₚ map fst (map_to_list m)) as ->.
    { rewrite <- Hb. apply (fmap_Permutation en_bridge), order_perm. }
    apply NoDup_fst_map_to_list.
Qed.

(** A new link's queue brings the peer up to date. *)
Lemma subscribe_delivers link epoch now l p q d :
  keyed (lo_entries l) -> (size (lo_entries l) < LINK_QUEUE)%nat ->
  lo_links (subscribe json_length snapshot_chunk link epoch now l) !! link = Some q ->
  he_epoch (pe_hello p) = epoch -> he_draining (pe_hello p) = d -> delivers p q (agrees l d).
Proof.
  intros Hk Hsz Hq <- <-. unfold subscribe in Hq. cbn in Hq. rewrite lookup_insert_eq in Hq. injection Hq as <-.
  set (es := order (map snd (map_to_list (lo_entries l)))) in *.
  destruct (chunk_loop_nonempty es 0 []) as (c & cs & Ec). pose proof (chunk_loop_length es 0 []) as Hlen.
  pose proof (chunk_loop_concat es 0 []) as Hcat. rewrite Ec in *.
  assert (length es = size (lo_entries l)) as Hes.
  { unfold es. rewrite (Permutation_length (order_perm _)), length_map. apply length_map_to_list. }
  rewrite take_ge by (cbn [snapshot_frames length]; rewrite length_snapshot_parts; cbn [length] in Hlen; lia).
  eapply delivers_mono; [|by apply snapshot_delivered]. intros p' (H1 & H2 & H3 & H4). split_and!; [done..|].
  rewrite app_nil_l in Hcat. rewrite Hcat in H4. unfold es in H4. by rewrite insert_all_values in H4.
Qed.
End Subscribe.

(** *** The link as a whole *)

(** One link, from the machine announcing (its table, and whether it is leaving) to the machine listening (its table of
    peers): whether [hello] was written and what it said of draining, the frames on the wire, and whether the listener
    registered the link. *)
Record Link := mkLink {
  lk_local : Local;
  lk_draining : bool;
  lk_hello : option bool;
  lk_flight : list Frame;
  lk_remote : Remote;
  lk_up : bool;
}.

Section Replica.
Context `{HashOrder} (json_length : Entry -> Z) (snapshot_chunk : Z).
(** The announcing machine and its life, the link's number there and at the listener. *)
Context (machine : string) (epoch la lb : Z).

Inductive link_step : Link -> Link -> Prop :=
| st_attached s t b routes at_ now :
    link_step s (mkLink (attached t b routes at_ now (lk_local s)) (lk_draining s) (lk_hello s) (lk_flight s) (lk_remote s) (lk_up s))
| st_detached s t b now :
    link_step s (mkLink (detached t b now (lk_local s)) (lk_draining s) (lk_hello s) (lk_flight s) (lk_remote s) (lk_up s))
| st_publish s event now :
    event <> Leaving ->
    link_step s (mkLink (publish event now (lk_local s)) (lk_draining s) (lk_hello s) (lk_flight s) (lk_remote s) (lk_up s))
| st_leave s now :
    link_step s (mkLink (publish Leaving now (lk_local s)) true (lk_hello s) (lk_flight s) (lk_remote s) (lk_up s))
| st_subscribe s link now :
    link <> la ->
    link_step s (mkLink (subscribe json_length snapshot_chunk link epoch now (lk_local s)) (lk_draining s) (lk_hello s)
                   (lk_flight s) (lk_remote s) (lk_up s))
| st_unsubscribe s link :
    link <> la ->
    link_step s (mkLink (unsubscribe link (lk_local s)) (lk_draining s) (lk_hello s) (lk_flight s) (lk_remote s) (lk_up s))
| st_write_other s link f l' :
    link <> la -> take_frame link (lk_local s) = Some (f, l') ->
    link_step s (mkLink l' (lk_draining s) (lk_hello s) (lk_flight s) (lk_remote s) (lk_up s))
| st_hello s :
    lk_hello s = None ->
    link_step s (mkLink (lk_local s) (lk_draining s) (Some (lk_draining s)) (lk_flight s) (lk_remote s) (lk_up s))
| st_write s f l' :
    lk_hello s <> None -> take_frame la (lk_local s) = Some (f, l') ->
    link_step s (mkLink l' (lk_draining s) (lk_hello s) (lk_flight s ++ [f]) (lk_remote s) (lk_up s))
| st_ping s now :
    lk_hello s <> None ->
    link_step s (mkLink (lk_local s) (lk_draining s) (lk_hello s) (lk_flight s ++ [FPing now]) (lk_remote s) (lk_up s))
| st_register s partitioned hello dialer now d old r' :
    lk_up s = false -> lk_hello s = Some d ->
    he_machine_id hello = machine -> he_epoch hello = epoch -> he_draining hello = d ->
    register partitioned hello lb dialer now (lk_remote s) = (true, old, r') ->
    link_step s (mkLink (lk_local s) (lk_draining s) (lk_hello s) (lk_flight s) r' true)
| st_apply s f flight now r' notices :
    lk_up s = true -> lk_flight s = f :: flight -> apply machine lb f now (lk_remote s) = Ok (r', notices) ->
    link_step s (mkLink (lk_local s) (lk_draining s) (lk_hello s) flight r' true)
| st_others s r' :
    peers r' !! machine = peers (lk_remote s) !! machine ->
    link_step s (mkLink (lk_local s) (lk_draining s) (lk_hello s) (lk_flight s) r' (lk_up s)).

(** A link starts by subscribing. *)
Inductive link_reachable : Link -> Prop :=
| lr_start l now draining r :
    keyed (lo_entries l) -> (size (lo_entries l) < LINK_QUEUE)%nat ->
    link_reachable (mkLink (subscribe json_length snapshot_chunk la epoch now l) draining None [] r false)
| lr_step s s' : link_reachable s -> link_step s s' -> link_reachable s'.

(** What is still to be delivered brings the listener to the announcer's table; before the link is registered, it does
    so to a peer whose [hello] said [d], for every [d] it may say. *)
Definition link_inv (dr0 : bool) (s : Link) : Prop :=
  (dr0 = true -> lk_draining s = true) /\
  (forall d, lk_hello s = Some d -> (dr0 = true -> d = true) /\ (d = true -> lk_draining s = true)) /\
  forall q, lo_links (lk_local s) !! la = Some q ->
    if lk_up s
    then exists p, peers (lk_remote s) !! machine = Some p /\ pe_link p = lb /\
           delivers p (lk_flight s ++ q) (agrees (lk_local s) (lk_draining s))
    else forall p d, he_epoch (pe_hello p) = epoch -> he_draining (pe_hello p) = d -> (dr0 = true -> d = true) ->
           delivers p (lk_flight s ++ q) (agrees (lk_local s) (d || lk_draining s)).

(** A frame the announcer queued for every link. *)
Lemma broadcast_queue f l q :
  lo_links (broadcast f l) !! la = Some q -> exists q0, lo_links l !! la = Some q0 /\ q = q0 ++ [f].
Proof.
  unfold broadcast. cbn. rewrite lookup_omap. destruct (lo_links l !! la) as [q0|]; [|done]. cbn.
  case_split; [|done]. intros [= <-]. eauto.
Qed.

Lemma link_inv_announce dr0 s f l' dr' :
  link_inv dr0 s ->
  (lk_draining s = true -> dr' = true) ->
  (forall q, lo_links l' !! la = Some q -> exists q0, lo_links (lk_local s) !! la = Some q0 /\ q = q0 ++ [f]) ->
  (forall dr p now, (lk_draining s = true -> dr = true) -> agrees (lk_local s) dr p ->
     exists p', apply_peer p f now = Some p' /\ agrees l' (dr || (dr' && negb (lk_draining s))) p') ->
  link_inv dr0 (mkLink l' dr' (lk_hello s) (lk_flight s) (lk_remote s) (lk_up s)).
Proof.
  intros (H1 & H2 & H3) Hdr Hq Hf. split_and!; cbn [lk_draining lk_hello lk_local lk_up lk_remote lk_flight].
  - auto.
  - intros d Hd. destruct (H2 d Hd). auto.
  - intros q Hl. destruct (Hq q Hl) as (q0 & Hq0 & ->). specialize (H3 q0 Hq0). rewrite app_assoc.
    destruct (lk_up s).
    + destruct H3 as (p & Hp & Hlk & Hd). exists p. split_and!; [done|done|]. eapply delivers_snoc; [|exact Hd].
      intros p0 now Ha. destruct (Hf _ _ now (fun x => x) Ha) as (p' & E & Ha'). exists p'. split; [done|].
      replace dr' with (lk_draining s || dr' && negb (lk_draining s)); [done|].
      destruct (lk_draining s), dr'; try done. by discriminate (Hdr eq_refl).
    + intros p d He Hd Hdd. eapply delivers_snoc; [|by apply (H3 p d)].
      intros p0 now Ha. destruct (Hf (d || lk_draining s) p0 now ltac:(intros E0; rewrite E0; apply orb_true_r) Ha) as (p' & E & Ha'). exists p'. split; [done|].
      replace (d || dr') with (d || lk_draining s || dr' && negb (lk_draining s)); [done|].
      destruct d, (lk_draining s), dr'; try done. by discriminate (Hdr eq_refl).
Qed.

(** A step of the announcer that leaves its table and this link's queue alone. *)
Lemma link_inv_elsewhere dr0 s l' :
  link_inv dr0 s -> lo_seq l' = lo_seq (lk_local s) -> lo_entries l' = lo_entries (lk_local s) ->
  lo_links l' !! la = lo_links (lk_local s) !! la ->
  link_inv dr0 (mkLink l' (lk_draining s) (lk_hello s) (lk_flight s) (lk_remote s) (lk_up s)).
Proof.
  intros (H1 & H2 & H3) E1 E2 E3. split_and!; [done|done|]. cbn [lk_draining lk_hello lk_local lk_up lk_remote lk_flight].
  intros q Hq. rewrite E3 in Hq. specialize (H3 q Hq).
  assert (forall dr p, agrees (lk_local s) dr p -> agrees l' dr p) as Ha by (unfold agrees; by rewrite E1, E2).
  destruct (lk_up s).
  - destruct H3 as (p & Hp & Hlk & Hd). exists p. split_and!; [done|done|]. eapply delivers_mono; [|exact Hd]. auto.
  - intros p d He Hd Hdd. eapply delivers_mono; [|by apply (H3 p d)]. auto.
Qed.

(** Nothing of the local table but the queues. *)
Lemma take_frame_same link l f l' :
  take_frame link l = Some (f, l') ->
  lo_seq l' = lo_seq l /\ lo_entries l' = lo_entries l /\
  exists q, lo_links l !! link = Some (f :: q) /\ lo_links l' = <[link := q]> (lo_links l).
Proof. unfold take_frame. destruct (lo_links l !! link) as [[|f0 q]|]; try done. intros [= -> <-]. cbn. eauto. Qed.

Lemma link_inv_start l now draining r :
  keyed (lo_entries l) -> (size (lo_entries l) < LINK_QUEUE)%nat ->
  link_inv draining (mkLink (subscribe json_length snapshot_chunk la epoch now l) draining None [] r false).
Proof.
  intros Hk Hs. split_and!; [done|done|]. cbn [lk_draining lk_hello lk_local lk_up lk_remote lk_flight].
  intros q Hq p d He Hd Hdd. cbn [app]. eapply (subscribe_delivers json_length snapshot_chunk la epoch now l p q d) in Hq; try done.
  replace (d || draining) with d; [exact Hq|]. destruct d, draining; try done. by discriminate (Hdd eq_refl).
Qed.

(** The registered peer is the one the frames on the way are for. *)
Lemma register_kept partitioned hello dialer now r old r' :
  register partitioned hello lb dialer now r = (true, old, r') ->
  exists p, peers r' !! he_machine_id hello = Some p /\ pe_hello p = hello /\ pe_link p = lb.
Proof.
  unfold register. case_decide; [done|]. destruct (peers r !! he_machine_id hello) as [e|].
  - destruct (negb (String.eqb _ _)); [done|]. destruct (negb (if negb _ then _ else _)); [done|].
    case_bool_decide; intros [= <- <-]; eexists; cbn; by rewrite lookup_insert_eq.
  - intros [= <- <-]. eexists. cbn. by rewrite lookup_insert_eq.
Qed.

Lemma announce_publish dr0 s event now :
  event <> Leaving -> link_inv dr0 s ->
  link_inv dr0 (mkLink (publish event now (lk_local s)) (lk_draining s) (lk_hello s) (lk_flight s) (lk_remote s) (lk_up s)).
Proof.
  intros Hne Hi. apply (link_inv_announce dr0 s (FEvent now event)); [done|done|intros q0 Hq0; apply broadcast_queue in Hq0; exact Hq0|].
  intros dr p n _ Ha. rewrite andb_negb_r, orb_false_r. by apply event_agrees.
Qed.

Lemma link_inv_write dr0 s f l' :
  link_inv dr0 s -> take_frame la (lk_local s) = Some (f, l') ->
  link_inv dr0 (mkLink l' (lk_draining s) (lk_hello s) (lk_flight s ++ [f]) (lk_remote s) (lk_up s)).
Proof.
  intros Hi E. apply take_frame_same in E as (E1 & E2 & q & Eq & E3).
  pose proof (link_inv_elsewhere dr0 s (mkLocal (lo_seq l') (lo_entries l') (lo_links (lk_local s))) Hi E1 E2 eq_refl) as (K1 & K2 & K3).
  split_and!; [done|done|]. cbn [lk_draining lk_hello lk_local lk_up lk_remote lk_flight] in *.
  intros q' Hq'. rewrite E3, lookup_insert_eq in Hq'. injection Hq' as <-. specialize (K3 _ Eq).
  rewrite <- app_assoc. cbn [app]. unfold agrees in *. exact K3.
Qed.

Lemma link_inv_ping dr0 s now :
  link_inv dr0 s ->
  link_inv dr0 (mkLink (lk_local s) (lk_draining s) (lk_hello s) (lk_flight s ++ [FPing now]) (lk_remote s) (lk_up s)).
Proof.
  intros (H1 & H2 & H3). split_and!; [done|done|]. cbn [lk_draining lk_hello lk_local lk_up lk_remote lk_flight].
  intros q Hq. specialize (H3 q Hq).
  assert (forall p Q, delivers p (lk_flight s ++ q) Q -> delivers p ((lk_flight s ++ [FPing now]) ++ q) Q) as Hping.
  { intros p Q Hd. rewrite <- app_assoc. apply delivers_app in Hd. apply delivers_app. eapply delivers_mono; [|exact Hd].
    intros p' Hp' n. exists p'. done. }
  destruct (lk_up s); [|by auto]. destruct H3 as (p & Hp & Hlk & Hd). exists p. auto.
Qed.

Lemma link_inv_register dr0 s partitioned hello dialer now d old r' :
  link_inv dr0 s -> lk_up s = false -> lk_hello s = Some d ->
  he_machine_id hello = machine -> he_epoch hello = epoch -> he_draining hello = d ->
  register partitioned hello lb dialer now (lk_remote s) = (true, old, r') ->
  link_inv dr0 (mkLink (lk_local s) (lk_draining s) (lk_hello s) (lk_flight s) r' true).
Proof.
  intros (H1 & H2 & H3) Hup Hh Hm He Hdr E. split_and!; [done|done|].
  cbn [lk_draining lk_hello lk_local lk_up lk_remote lk_flight]. intros q Hq.
  specialize (H3 q Hq). rewrite Hup in H3. destruct (register_kept _ _ _ _ _ _ _ E) as (p & Hp & Hph & Hlk). rewrite Hm in Hp.
  destruct (H2 d Hh) as [K1 K2]. exists p. split_and!; [done|done|].
  specialize (H3 p d ltac:(by rewrite Hph) ltac:(by rewrite Hph) K1).
  replace (lk_draining s) with (d || lk_draining s); [done|]. destruct d; [|done]. by rewrite K2.
Qed.

Lemma link_inv_apply dr0 s f fl now r' notices :
  link_inv dr0 s -> lk_up s = true -> lk_flight s = f :: fl -> apply machine lb f now (lk_remote s) = Ok (r', notices) ->
  link_inv dr0 (mkLink (lk_local s) (lk_draining s) (lk_hello s) fl r' true).
Proof.
  intros (H1 & H2 & H3) Hup Hf E. split_and!; [done|done|].
  cbn [lk_draining lk_hello lk_local lk_up lk_remote lk_flight]. intros q Hq.
  specialize (H3 q Hq). rewrite Hup, Hf in H3. destruct H3 as (p & Hp & Hlk & Hd). cbn [app delivers] in Hd.
  destruct (Hd now) as (p' & Ea & Hd'). pose proof (apply_peer_spec machine lb f now _ _ Hp Hlk) as Hs. rewrite Ea in Hs.
  destruct Hs as (r2 & n2 & E2 & Hpeers & Hlk'). rewrite E in E2. injection E2 as <- <-.
  exists p'. split_and!; [|done|done]. rewrite Hpeers. by rewrite lookup_insert_eq.
Qed.

Lemma link_inv_step dr0 s s' : link_inv dr0 s -> link_step s s' -> link_inv dr0 s'.
Proof.
  intros Hi Hst. pose proof Hi as (H1 & H2 & H3).
  destruct Hst as [s t b routes at_ now|s t b now|s event now Hne|s now|s link now Hne|s link Hne|s link f l' Hne E|s E|s f l' Hh E
    |s now Hh|s partitioned hello dialer now d old r' Hup Hh Hm He Hdr E|s f fl now r' notices Hup Hf E|s r' E].
  - apply (link_inv_announce dr0 s (FAttached (lo_seq (lk_local s) + 1) now (mkEntry t b routes at_))); [done|done|intros q0 Hq0; apply broadcast_queue in Hq0; exact Hq0|].
    intros dr p n _ Ha. rewrite andb_negb_r, orb_false_r. by apply attached_agrees.
  - unfold detached. destruct (lo_entries (lk_local s) !! b) as [e|] eqn:Eb; [|by destruct s].
    pose proof (link_inv_announce dr0 s (FDetached (lo_seq (lk_local s) + 1) now t b) (detached t b now (lk_local s)) (lk_draining s)) as Hx.
    unfold detached in Hx. rewrite Eb in Hx. apply Hx; [done|done|intros q0 Hq0; apply broadcast_queue in Hq0; exact Hq0|].
    intros dr p n _ Ha. rewrite andb_negb_r, orb_false_r. pose proof (detached_agrees _ dr t b now p n e Eb Ha) as Hd.
    unfold detached in Hd. by rewrite Eb in Hd.
  - by apply announce_publish.
  - apply (link_inv_announce dr0 s (FEvent now Leaving)); [done|done|intros q0 Hq0; apply broadcast_queue in Hq0; exact Hq0|].
    intros dr p n Hd Ha. replace (dr || true && negb (lk_draining s)) with true by (destruct dr, (lk_draining s); try done; by discriminate (Hd eq_refl)).
    by eapply leaving_agrees.
  - apply link_inv_elsewhere; [done..|]. cbn. by rewrite lookup_insert_ne.
  - apply link_inv_elsewhere; [done..|]. cbn. by rewrite lookup_delete_ne.
  - apply take_frame_same in E as (E1 & E2 & q & Eq & E3). apply link_inv_elsewhere; [done..|]. rewrite E3. by rewrite lookup_insert_ne.
  - split_and!; [done| |done]. cbn. intros d [= <-]. auto.
  - by apply (link_inv_write dr0 s f l').
  - by apply link_inv_ping.
  - by eapply link_inv_register.
  - by eapply link_inv_apply.
  - split_and!; [done|done|]. cbn [lk_draining lk_hello lk_local lk_up lk_remote lk_flight]. intros q Hq. specialize (H3 q Hq).
    destruct (lk_up s); [|done]. by rewrite E.
Qed.

Lemma link_reachable_inv s : link_reachable s -> exists dr0, link_inv dr0 s.
Proof. induction 1 as [|s s' _ [dr0 IH] Hst]; [eexists; by apply link_inv_start|]. exists dr0. by eapply link_inv_step. Qed.

(** C10: Every machine's table converges to what the others hold: on a link that is registered and was not closed for
    falling behind, the listener never refuses a frame the announcer sent, and once nothing is on the way its entries
    for the announcer are exactly the announcer's own (the same bridges, tunnels and routes, a time ahead of its clock
    taken back), or none if the announcer is leaving. *)
Theorem replica_converges s q :
  link_reachable s -> lk_up s = true -> lo_links (lk_local s) !! la = Some q ->
  exists p, peers (lk_remote s) !! machine = Some p /\ pe_link p = lb /\
    (forall f flight now, lk_flight s = f :: flight -> exists r' n, apply machine lb f now (lk_remote s) = Ok (r', n)) /\
    (lk_flight s = [] -> q = [] ->
     pe_seq p = lo_seq (lk_local s) /\
     if lk_draining s then pe_entries p = ∅ else entries_match (lo_entries (lk_local s)) (pe_entries p)).
Proof.
  intros Hr Hup Hq. destruct (link_reachable_inv s Hr) as (dr0 & _ & _ & H3). specialize (H3 q Hq). rewrite Hup in H3.
  destruct H3 as (p & Hp & Hlk & Hd). exists p. split_and!; [done|done| |].
  - intros f fl now Hf. rewrite Hf in Hd. cbn [app delivers] in Hd. destruct (Hd now) as (p' & Ea & _).
    pose proof (apply_peer_spec machine lb f now _ _ Hp Hlk) as Hs. rewrite Ea in Hs. destruct Hs as (r' & n & E & _). eauto.
  - intros Hf ->. rewrite Hf in Hd. cbn [app delivers] in Hd. destruct Hd as (K1 & _ & _ & K4). done.
Qed.
End Replica.

(** ** Witnesses *)

#[export] Instance hash_order_id : HashOrder := {| order := fun A l => l; order_perm := fun A l => Permutation_refl l |}.

Definition sample_entry : Entry := mkEntry "t" 3 ["@"] 90.
Definition sample_linked : Remote := snd (register ∅ sample_hello 4 "a:1" 0 empty_remote).
Definition sample_table : Remote :=
  match apply "m" 4 (FAttached 1 95 sample_entry) 100 sample_linked with Ok (r, _) => r | Err _ => sample_linked end.

Lemma sample_reachable : reachable sample_table.
Proof.
  apply (reach_apply sample_linked "m" 4 (FAttached 1 95 sample_entry) 100 sample_table []); [|done|vm_compute; reflexivity].
  by apply (reach_register empty_remote ∅ sample_hello 4 "a:1" 0 true None sample_linked reach_empty).
Defined.

Lemma locate_newest_witness : exists p e, claims sample_table "t" "@" "m" p e.
Proof.
  pose proof (locate_newest sample_table "t" "@" None sample_reachable) as H.
  assert (locate "t" "@" None sample_table = Some (mkLocation "m" "fra" "[::1]:4443")) as E by (vm_compute; reflexivity).
  rewrite E in H. destruct H as (m & p & e & _ & Hm & _ & Hc & _). cbn in Hm. subst m. eauto.
Defined.

(** The steps of a link as functions, to run one. *)
Definition do_attach (s : Link) : Link :=
  mkLink (attached "t" 3 ["@"] 90 95 (lk_local s)) (lk_draining s) (lk_hello s) (lk_flight s) (lk_remote s) (lk_up s).
Definition do_hello (s : Link) : Link :=
  mkLink (lk_local s) (lk_draining s) (Some (lk_draining s)) (lk_flight s) (lk_remote s) (lk_up s).
Definition do_register (s : Link) : Link :=
  mkLink (lk_local s) (lk_draining s) (lk_hello s) (lk_flight s) (snd (register ∅ sample_hello 4 "a:1" 0 (lk_remote s))) true.
Definition do_write (s : Link) : Link :=
  match take_frame 1 (lk_local s) with
  | Some (f, l') => mkLink l' (lk_draining s) (lk_hello s) (lk_flight s ++ [f]) (lk_remote s) (lk_up s)
  | None => s
  end.
Definition do_apply (s : Link) : Link :=
  match lk_flight s with
  | f :: flight =>
      match apply "m" 4 f 100 (lk_remote s) with
      | Ok (r', _) => mkLink (lk_local s) (lk_draining s) (lk_hello s) flight r' true
      | Err _ => s
      end
  | [] => s
  end.

Abbreviation sample_reach := (link_reachable (fun _ => 1) 10 "m" 7 1 4).

Lemma do_write_reach s : sample_reach s -> lk_hello s <> None -> sample_reach (do_write s).
Proof.
  intros Hr Hh. unfold do_write. destruct (take_frame 1 (lk_local s)) as [[f l']|] eqn:E; [|done].
  by apply (lr_step _ _ _ _ _ _ s), st_write.
Defined.

Lemma do_apply_reach s : sample_reach s -> lk_up s = true -> sample_reach (do_apply s).
Proof.
  intros Hr Hh. unfold do_apply. destruct (lk_flight s) as [|f fl] eqn:Ef; [done|].
  destruct (apply "m" 4 f 100 (lk_remote s)) as [[r' n]|e] eqn:E; [|done].
  by eapply (lr_step _ _ _ _ _ _ s), st_apply.
Defined.

Definition sample_up : Link :=
  do_register (do_hello (do_attach (mkLink (subscribe (fun _ => 1) 10 1 7 0 empty_local) false None [] empty_remote false))).
Definition sample_end : Link := do_apply (do_write (do_apply (do_write sample_up))).

Lemma sample_end_reachable : sample_reach sample_end.
Proof.
  assert (sample_reach sample_up) as H.
  { eapply lr_step; [|by eapply (st_register _ _ "m" 7 1 4 (do_hello _) ∅ sample_hello "a:1" 0 false None)].
    eapply lr_step; [|by apply (st_hello _ _ "m" 7 1 4 (do_attach _))]. eapply lr_step; [|apply st_attached].
    apply lr_start; [intros b e; cbn; by rewrite lookup_empty|]. apply Nat.ltb_lt. vm_compute. reflexivity. }
  apply do_apply_reach; [|done]. apply do_write_reach; [|done]. apply do_apply_reach; [|done]. by apply do_write_reach.
Defined.

Lemma replica_converges_witness :
  exists p, peers (lk_remote sample_end) !! "m" = Some p /\ entries_match (lo_entries (lk_local sample_end)) (pe_entries p).
Proof.
  destruct (replica_converges (fun _ => 1) 10 "m" 7 1 4 sample_end [] sample_end_reachable) as (p & Hp & _ & _ & H).
  - vm_compute. reflexivity.
  - vm_compute. reflexivity.
  - exists p. split; [exact Hp|]. apply H; vm_compute; reflexivity.
Defined.
