(* ===== verification/Failure.v ===== *)
(** * Failure: what a failed certificate order means

    The typed errors of an issuance attempt ([acme.rs]), whether and when the attempt is repeated ([retry.rs]), the
    class it is counted as ([metrics.rs], [analytics.rs]), what the tenant sees of it and the CA cool-down
    ([jobs.rs]). *)

From Stdlib Require Import ZArith Lia Ascii String List.
From stdpp Require Import base list strings.
From S2P Require Import Prelude Text Record.

(** ** Errors: [anyhow::Error] as its chain of causes, outermost first *)

Record Problem := mkProblem {
  pb_status : Z;
  pb_kind : string;
  (** in milliseconds *)
  pb_retry_after : option Z;
  pb_message : string;
}.

(** What the code asks of a [reqwest::Error]. *)
Record HttpFailure := mkHttpFailure {
  hf_status : option Z;
  is_timeout : bool;
  is_connect : bool;
  is_request : bool;
  is_body : bool;
  is_decode : bool;
  hf_text : string;
}.

Inductive Cause :=
| CTransient (message : string) (retry_after : option Z)
| CProblem (problem : Problem)
| CHttp (failure : HttpFailure)
| CIo (timed_out : bool) (text : string)
| COther (text : string).

Definition display (c : Cause) : string :=
  match c with
  | CTransient message _ => message
  | CProblem p => pb_message p
  | CHttp f => hf_text f
  | CIo _ text | COther text => text
  end.

(** [format!("{error:#}")]: the causes with colons between them. *)
Fixpoint error_text (e : list Cause) : string :=
  match e with
  | [] => ""
  | [c] => display c
  | c :: e' => display c +:+ ": " +:+ error_text e'
  end.

(** The error [acme.rs] makes of a response with status 400 or more. *)
Definition problem_of (url : string) (status : Z) (kind detail : string) (retry_after : option string) (body : bytes)
    : Problem :=
  mkProblem status kind
    (let* value := retry_after in (Z.mul 1000) <$> parse_uint U64_MAX (as_bytes (str_trim value)))
    ((if str_is_empty detail then "ACME request to " +:+ url +:+ " failed" else kind +:+ ": " +:+ detail)
     +:+ " | HTTP " +:+ dec_string status +:+ " | " +:+ of_bytes (take_chars 300 (as_bytes (from_utf8_lossy body)))).

(** [rsplit(':').next()] *)
Definition last_field (kind : string) : string := List.last (str_split ":" kind) "".

Definition is_one_of (s : string) (l : list string) : bool := existsb (String.eqb s) l.
Definition any_in (reason : string) (l : list string) : bool := existsb (str_contains reason) l.

(** ** [retry.rs] *)

Definition RETRY_WINDOW_MS : Z := DAY_MS.
Definition MAX_DELAY_MS : Z := HOUR_MS.
(** [jobs::ATTEMPTS] *)
Definition ATTEMPTS : Z := 3.

Inductive FailureClass :=
| FTransient (after : option Z)
| FPermanent
| FUnknown.

Definition PERMANENT_PROBLEMS : list string :=
  ["rejectedIdentifier"; "unsupportedIdentifier"; "badCSR"; "caa"; "badSignatureAlgorithm"; "badPublicKey";
   "externalAccountRequired"; "accountDoesNotExist"; "invalidContact"; "unsupportedContact"; "malformed"].
Definition TRANSIENT_PROBLEMS : list string := ["badNonce"; "rateLimited"; "serverInternal"].

Definition classify_status (status : Z) (after : option Z) : FailureClass :=
  if (status =? 429) || ((500 <=? status) && (status <=? 599)) then FTransient after
  else if status =? 408 then FTransient None
  else FUnknown.

Definition classify_problem (p : Problem) : FailureClass :=
  let kind := last_field (pb_kind p) in
  if is_one_of kind PERMANENT_PROBLEMS then FPermanent
  else if is_one_of kind TRANSIENT_PROBLEMS then FTransient (pb_retry_after p)
  else classify_status (pb_status p) (pb_retry_after p).

Definition PERMANENT_REASONS : list string :=
  ["Failed to persist certificate state"; " are required"; "is not a P-256 private JWK"; "is not base64url";
   "CSR is not PEM"; "did not offer dns-01"; "a certificate for another key"].
Definition TRANSIENT_REASONS : list string :=
  ["returned no nonce"; "error decoding response body"; "error sending request"; "operation timed out";
   "connection closed"; "connection reset"; "status server error"; "authorization ended in pending";
   "An identical record already exists"; "ACME directory"].

(** The status after the first ["| HTTP "]. Three characters that parse are three ASCII bytes, so taking bytes is
    taking characters. *)
Definition reason_status (reason : string) : option Z :=
  let* index := find_l (as_bytes "| HTTP ") (as_bytes reason) in
  parse_uint U16_MAX (take 3 (drop (index + 7) (as_bytes reason))).

Definition classify_reason (reason : string) : FailureClass :=
  if any_in reason PERMANENT_REASONS then FPermanent
  else if any_in reason (map (String.append "acme:error:") PERMANENT_PROBLEMS) then FPermanent
  else if any_in reason (map (String.append "acme:error:") TRANSIENT_PROBLEMS) then FTransient None
  else if any_in reason TRANSIENT_REASONS then FTransient None
  else match reason_status reason with
       | Some status => classify_status status None
       | None => FUnknown
       end.

Definition classify_cause (c : Cause) : option FailureClass :=
  match c with
  | CTransient _ after => Some (FTransient after)
  | CProblem p => Some (classify_problem p)
  | CHttp f =>
      match hf_status f with
      | Some status => Some (classify_status status None)
      | None =>
          if is_timeout f || is_connect f || is_request f || is_body f || is_decode f then Some (FTransient None)
          else None
      end
  | _ => None
  end.

Fixpoint classify_chain (chain : list Cause) : option FailureClass :=
  match chain with
  | [] => None
  | c :: chain' => match classify_cause c with Some class => Some class | None => classify_chain chain' end
  end.

Definition classify (e : list Cause) : FailureClass :=
  match classify_chain e with Some class => class | None => classify_reason (error_text e) end.

(** [jitter()] is [j / 2^32] for a random [u32] [j]. [half] is below [2^21], so [half as f64 * jitter] is exact and
    its conversion truncates. *)
Definition jitter_of (half j : Z) : Z := half * Z.max 0 (Z.min j (2 ^ 32)) / 2 ^ 32.

Definition backoff (base_ms attempts j : Z) : Z :=
  let exponent := Z.min (sat_sub attempts 1) 32 in
  let delay := Z.max 1 (Z.min (sat_mul base_ms (Z.shiftl 1 exponent)) MAX_DELAY_MS) in
  let half := delay / 2 in
  half + jitter_of half j.

(** [as_millis() as u64] wraps. *)
Definition next_attempt (class : FailureClass) (attempts base_ms queued_at now j : Z) : option Z :=
  match class with
  | FPermanent => None
  | FUnknown => if ATTEMPTS <=? attempts then None else Some (now + backoff base_ms attempts j)
  | FTransient after =>
      let delay := Z.max (backoff base_ms attempts j)
                     (Z.min (match after with Some after => after mod 2 ^ 64 | None => 0 end) MAX_DELAY_MS) in
      let at_ := now + delay in
      if at_ <=? queued_at + RETRY_WINDOW_MS then Some at_ else None
  end.

(** ** Classes for metrics and analytics *)

Definition REJECTED_PROBLEMS : list string :=
  PERMANENT_PROBLEMS ++ ["unauthorized"; "incorrectResponse"; "connection"; "dns"].

Definition status_class (status : Z) : string :=
  if status =? 429 then "http_429"
  else if (500 <=? status) && (status <=? 599) then "http_5xx"
  else if status =? 408 then "timeout"
  else "other".

Definition problem_class (status : Z) (kind : string) : string :=
  let kind := last_field kind in
  if String.eqb kind "badNonce" then "bad_nonce"
  else if String.eqb kind "rateLimited" then "http_429"
  else if String.eqb kind "serverInternal" then "http_5xx"
  else if is_one_of kind REJECTED_PROBLEMS then "rejected"
  else status_class status.

Definition message_class (text : string) : string :=
  if any_in text ["DNS record"; "identical record already exists"] then "dns"
  else if any_in text ["no nonce"] then "nonce"
  else if any_in text ["badNonce"] then "bad_nonce"
  else if any_in text ["authorization ended in pending"; "order ended in"] then "authz_pending"
  else if any_in text ["timed out"; "timeout"] then "timeout"
  else if any_in text ["error decoding response body"; "could not be read"; "expected value at line"] then "bad_body"
  else if any_in text ["rateLimited"; "| HTTP 429"; "(429 "] then "http_429"
  else if any_in text ["status server error"; "| HTTP 5"] then "http_5xx"
  else if any_in text ["acme:error:"] then "rejected"
  else if any_in text ["error sending request"; "connection closed"; "connection reset"] then "network"
  else "other".

Definition error_class_cause (c : Cause) : option string :=
  match c with
  | CProblem p => Some (problem_class (pb_status p) (pb_kind p))
  | CTransient message _ => Some (message_class message)
  | CHttp f =>
      if is_timeout f then Some "timeout"
      else match hf_status f with
           | Some status => Some (status_class status)
           | None =>
               if is_decode f || is_body f then Some "bad_body"
               else if is_connect f || is_request f then Some "network"
               else None
           end
  | CIo timed_out _ => if timed_out then Some "timeout" else None
  | COther _ => None
  end.

Fixpoint error_class_chain (chain : list Cause) : option string :=
  match chain with
  | [] => None
  | c :: chain' => match error_class_cause c with Some class => Some class | None => error_class_chain chain' end
  end.

Definition error_class (e : list Cause) : string :=
  let text := error_text e in
  if any_in text ["DNS record"; "identical record already exists"; "api.cloudflare.com"; "DNS challenge"] then "dns"
  else match error_class_chain e with Some class => class | None => message_class text end.

(** Three digits after ["HTTP "]: three characters that are digits are three bytes. *)
Definition three_digits (rest : bytes) : option bytes :=
  let d := take 3 rest in
  if (length d =? 3)%nat && forallb is_ascii_digit d then Some d else None.

Definition http_digits (reason : string) : option bytes :=
  head (omap three_digits (matches_after (as_bytes "HTTP ") (as_bytes reason) 0)).

Definition certificate_failure (reason : string) : string :=
  let lower := to_ascii_lowercase reason in
  if any_in reason ["required"; "not a P-256"] then "config"
  else if any_in lower ["http 429"; "ratelimited"] then "acme_rate_limit"
  else if any_in reason ["DNS"] then "dns"
  else if any_in reason ["authorization"; "dns-01"] then "acme_authorization"
  else if any_in reason ["ACME order"; "finalize"] then "acme_order"
  else if any_in reason ["persist certificate state"] then "persist"
  else if bool_decide (is_Some (http_digits reason)) then "acme_http"
  else "other".

(** ** [public_reason]: what a tenant sees *)

Definition cause_status (c : Cause) : option Z :=
  match c with CProblem p => Some (pb_status p) | CHttp f => hf_status f | _ => None end.

Definition error_status (e : list Cause) : option Z := head (omap cause_status e).

Definition public_detail (bucket : string) (status : option Z) (digits : option bytes) (class : string) : string :=
  if String.eqb bucket "config" then "the server's ACME settings are required but missing"
  else if String.eqb bucket "acme_rate_limit" then "the certificate authority rateLimited the request (HTTP 429)"
  else if String.eqb bucket "dns" then "the DNS challenge record could not be set"
  else if String.eqb bucket "acme_authorization" then "the certificate authority did not validate the authorization"
  else if String.eqb bucket "acme_order" then "the ACME order did not complete"
  else if String.eqb bucket "persist" then "Failed to persist certificate state"
  else if String.eqb bucket "acme_http" then
    match status with
    | Some status => "the certificate authority answered HTTP " +:+ dec_string status
    | None =>
        match digits with
        | Some digits => "the certificate authority answered HTTP " +:+ of_bytes digits
        | None => "the certificate authority answered with an error"
        end
    end
  else "the certificate authority could not be used (" +:+ class +:+ ")".

Definition public_reason (e : list Cause) : string :=
  let full := error_text e in
  "Certificate issuance failed: "
  +:+ public_detail (certificate_failure full) (error_status e) (http_digits full) (error_class e).

(** ** The CA cool-down: [jobs.rs] *)

Definition COOLDOWN_FAILURES : Z := 5.
Definition COOLDOWN_MIN_MS : Z := MINUTE_MS.
Definition COOLDOWN_MAX_MS : Z := HOUR_MS.

Definition ca_trouble (class : string) : bool :=
  is_one_of class ["network"; "timeout"; "http_5xx"; "http_429"; "bad_body"; "nonce"; "bad_nonce"].

Record Cooldown := mkCooldown {
  failures : Z;
  cooldown_ms : Z;
  cd_until : Z;
}.

Definition default_cooldown : Cooldown := mkCooldown 0 0 0.

(** [Cooldown::failed] *)
Definition cooldown_failed (c : Cooldown) (class : string) (retry_after_ms : option Z) (now : Z) : bool * Cooldown :=
  if negb (ca_trouble class) then (false, c)
  else
    let c := mkCooldown (failures c + 1) (cooldown_ms c) (cd_until c) in
    if negb (String.eqb class "http_429") && (failures c <? COOLDOWN_FAILURES) then (false, c)
    else
      let ms := if cooldown_ms c =? 0 then COOLDOWN_MIN_MS else Z.min (cooldown_ms c * 2) COOLDOWN_MAX_MS in
      let until := Z.max (cd_until c)
                     (now + Z.max ms (Z.min (match retry_after_ms with Some r => r | None => 0 end) COOLDOWN_MAX_MS)) in
      (true, mkCooldown 0 ms until).

(** [Cooldown::succeeded] *)
Definition cooldown_succeeded (c : Cooldown) : bool * Cooldown := (0 <? cooldown_ms c, default_cooldown).

Definition cooldown_encode (c : Cooldown) : string := dec_string (cd_until c) +:+ " " +:+ dec_string (cooldown_ms c).

(** [Cooldown::merge] *)
Definition cooldown_merge (c : Cooldown) (stored : string) : Cooldown :=
  let fields := map (fun field => match parse_uint U64_MAX (as_bytes field) with Some n => n | None => 0 end)
                  (str_split " " stored) in
  let until := match fields !! 0%nat with Some n => n | None => 0 end in
  let cooldown := match fields !! 1%nat with Some n => n | None => 0 end in
  mkCooldown (failures c) (Z.max (cooldown_ms c) cooldown) (Z.max (cd_until c) until).

(** ** Retries *)

Lemma jitter_bounds half j : 0 <= half -> 0 <= jitter_of half j <= half.
Proof.
  intros Hh. unfold jitter_of. set (m := Z.max 0 (Z.min j (2 ^ 32))). assert (0 <= m <= 2 ^ 32) by lia. split.
  - apply Z.div_pos; lia.
  - apply Z.div_le_upper_bound; [lia|]. nia.
Qed.

Definition backoff_delay (base attempts : Z) : Z :=
  Z.max 1 (Z.min (sat_mul base (Z.shiftl 1 (Z.min (sat_sub attempts 1) 32))) MAX_DELAY_MS).

Lemma backoff_bounds base attempts j :
  backoff_delay base attempts / 2 <= backoff base attempts j <= MAX_DELAY_MS.
Proof.
  unfold backoff. fold (backoff_delay base attempts). set (d := backoff_delay base attempts).
  assert (1 <= d <= MAX_DELAY_MS) as Hd by (unfold d, backoff_delay, MAX_DELAY_MS, HOUR_MS, MINUTE_MS, SECOND_MS; lia).
  pose proof (jitter_bounds (d / 2) j ltac:(apply Z.div_pos; lia)).
  pose proof (Z.mul_div_le d 2 ltac:(lia)). lia.
Qed.

(** The delay doubles with every attempt up to an hour. *)
Lemma backoff_delay_eq base n :
  1 <= base -> 0 <= n <= 32 -> backoff_delay base (n + 1) = Z.min (base * 2 ^ n) MAX_DELAY_MS.
Proof.
  intros Hb Hn. unfold backoff_delay, sat_sub, sat_mul.
  replace (Z.min (Z.max 0 (n + 1 - 1)) 32) with n by lia. rewrite Z.shiftl_1_l.
  pose proof (Z.pow_pos_nonneg 2 n ltac:(lia) ltac:(lia)).
  unfold MAX_DELAY_MS, HOUR_MS, MINUTE_MS, SECOND_MS, U64_MAX. nia.
Qed.

Lemma backoff_delay_late base attempts : 32 < attempts -> backoff_delay base attempts = backoff_delay base 33.
Proof. intros. unfold backoff_delay, sat_sub. by replace (Z.min (Z.max 0 (attempts - 1)) 32) with 32 by lia. Qed.

Lemma backoff_delay_full base n : 1000 <= base -> 12 <= n -> backoff_delay base (n + 1) = MAX_DELAY_MS.
Proof.
  intros Hb Hn. destruct (Z.le_gt_cases n 32).
  - rewrite backoff_delay_eq by lia. pose proof (Z.pow_le_mono_r 2 12 n ltac:(lia) ltac:(lia)).
    unfold MAX_DELAY_MS, HOUR_MS, MINUTE_MS, SECOND_MS. lia.
  - rewrite backoff_delay_late by lia. change 33 with (32 + 1). rewrite backoff_delay_eq by lia.
    unfold MAX_DELAY_MS, HOUR_MS, MINUTE_MS, SECOND_MS. lia.
Qed.

(** What a scheduled retry says. *)
Lemma next_attempt_Some class attempts base queued now j at_ :
  next_attempt class attempts base queued now j = Some at_ ->
  now + backoff_delay base attempts / 2 <= at_ <= now + MAX_DELAY_MS /\
  (at_ <= queued + RETRY_WINDOW_MS \/ attempts < ATTEMPTS).
Proof.
  pose proof (backoff_bounds base attempts j) as Hb. unfold next_attempt.
  destruct class as [after| |]; [| |]; intros H; repeat case_split; bsimp; simplify_eq; split; try lia.
Qed.

(** The failed attempts of one job: [n] retries after the first, the last attempt failing at [now]. Attempts start
    when scheduled or later, and take as long as they take. *)
Inductive retried (base queued : Z) : nat -> Z -> Prop :=
| retried_first now : queued <= now -> retried base queued 0 now
| retried_again n now class j at_ now' :
    retried base queued n now -> next_attempt class (Z.of_nat n + 1) base queued now j = Some at_ -> at_ <= now' ->
    retried base queued (S n) now'.

Lemma retried_time base queued n now :
  1000 <= base -> retried base queued n now ->
  queued + (MAX_DELAY_MS / 2) * Z.max 0 (Z.of_nat n - 12) <= now /\ (n <= 60)%nat.
Proof.
  intros Hb. induction 1 as [now Hq|n now class j at_ now' H IH Hnext Hat].
  - change (Z.of_nat 0) with 0. split; lia.
  - destruct IH as [IH Hn]. apply next_attempt_Some in Hnext as [Hlo Hwin].
    assert (queued + MAX_DELAY_MS / 2 * Z.max 0 (Z.of_nat (S n) - 12) <= at_) as Hat2.
    { destruct (Z.le_gt_cases 12 (Z.of_nat n)) as [Hge|Hlt].
      - rewrite (backoff_delay_full base (Z.of_nat n)) in Hlo by lia.
        unfold MAX_DELAY_MS, HOUR_MS, MINUTE_MS, SECOND_MS in *.
        change (60 * (60 * 1000) / 2) with 1800000 in *. lia.
      - assert (0 <= backoff_delay base (Z.of_nat n + 1) / 2) by (apply Z.div_pos; unfold backoff_delay; lia). lia. }
    split; [lia|]. destruct Hwin as [Hwin|Hwin]; [|unfold ATTEMPTS in Hwin; lia].
    unfold RETRY_WINDOW_MS, DAY_MS, MAX_DELAY_MS, HOUR_MS, MINUTE_MS, SECOND_MS in *.
    change (60 * (60 * 1000) / 2) with 1800000 in *. lia.
Qed.

(** A job is retried finitely often and never hurriedly: with a base delay of a second or more at most 60 times,
    each retry at least half the doubled base (up to an hour) after the failure and at most an hour after it, within a
    day of queueing unless the failure is unrecognised, which gets three attempts; a permanent failure is not
    retried. *)
Theorem retries_bounded base queued n now :
  1000 <= base -> retried base queued n now ->
  (n <= 60)%nat /\
  forall class j,
    match next_attempt class (Z.of_nat n + 1) base queued now j with
    | Some at_ =>
        now + Z.min (base * 2 ^ Z.min (Z.of_nat n) 32) HOUR_MS / 2 <= at_ <= now + HOUR_MS /\
        match class with
        | FTransient _ => at_ <= queued + DAY_MS
        | FUnknown => (n < 2)%nat
        | FPermanent => False
        end
    | None =>
        match class with
        | FTransient _ => queued + DAY_MS < now + HOUR_MS
        | FUnknown => (2 <= n)%nat
        | FPermanent => True
        end
    end.
Proof.
  intros Hb Hr. destruct (retried_time _ _ _ _ Hb Hr) as [_ Hn]. split; [done|]. intros class j.
  assert (backoff_delay base (Z.of_nat n + 1) = Z.min (base * 2 ^ Z.min (Z.of_nat n) 32) HOUR_MS) as Hd.
  { destruct (Z.le_gt_cases (Z.of_nat n) 32).
    - rewrite backoff_delay_eq by lia. by rewrite (Z.min_l (Z.of_nat n) 32) by lia.
    - rewrite backoff_delay_late by lia. change 33 with (32 + 1). rewrite backoff_delay_eq by lia.
      by rewrite (Z.min_r (Z.of_nat n) 32) by lia. }
  destruct (next_attempt class _ _ _ _ _) as [at_|] eqn:E.
  - pose proof (next_attempt_Some _ _ _ _ _ _ _ E) as [Hlo _]. rewrite Hd in Hlo. split; [exact Hlo|].
    unfold next_attempt in E. repeat case_split; simplify_eq; bsimp; unfold ATTEMPTS, RETRY_WINDOW_MS in *; lia.
  - pose proof (backoff_bounds base (Z.of_nat n + 1) j). unfold next_attempt in E.
    repeat case_split; simplify_eq; bsimp; unfold ATTEMPTS, RETRY_WINDOW_MS, MAX_DELAY_MS in *; lia.
Qed.

Lemma retries_bounded_witness :
  (1 <= 60)%nat /\
  match next_attempt (FTransient (Some 7000)) 2 10000 0 9000 0 with
  | Some at_ => 9000 + 10000 <= at_ <= 9000 + HOUR_MS /\ at_ <= 0 + DAY_MS
  | None => False
  end.
Proof.
  assert (retried 10000 0 1 9000) as Hr.
  { refine (retried_again 10000 0 0 5 (FTransient (Some 7000)) 0 7005 9000 (retried_first 10000 0 5 _) eq_refl _); lia. }
  destruct (retries_bounded 10000 0 1 9000 ltac:(lia) Hr) as [H1 H2]. split; [exact H1|].
  exact (H2 (FTransient (Some 7000)) 0).
Defined.

(** ** Permanent failures are recognised from the record too *)

Lemma any_in_here reason a p b l : In p l -> reason = a +:+ p +:+ b -> any_in reason l = true.
Proof. intros Hin ->. apply existsb_exists. exists p. split; [done|apply str_contains_app]. Qed.

Lemma str_app_assoc (a b c : string) : (a +:+ b) +:+ c = a +:+ (b +:+ c).
Proof. apply (inj as_bytes). by rewrite !as_bytes_app, app_assoc. Qed.

(** A cause's text is part of the error's. *)
Lemma error_text_part e c : c ∈ e -> exists a b, error_text e = a +:+ display c +:+ b.
Proof.
  induction e as [|c0 e IH]; intros Hin; [by apply not_elem_of_nil in Hin|].
  apply elem_of_cons in Hin as [->|Hin].
  - exists "". destruct e; [exists ""; by rewrite str_app_nil|eexists; reflexivity].
  - destruct (IH Hin) as (a & b & E). destruct e as [|c1 e]; [by apply not_elem_of_nil in Hin|].
    exists (display c0 +:+ ": " +:+ a), b. cbn [error_text] in *. rewrite E. by rewrite !str_app_assoc.
Qed.

Lemma classify_chain_context context e :
  classify_chain (map COther context ++ e) = classify_chain e.
Proof. induction context; [done|]. cbn. done. Qed.

Lemma last_field_urn x :
  ~ In (b# ":") (as_bytes x) -> last_field ("urn:ietf:params:acme:error:" +:+ x) = x.
Proof.
  intros Hx. unfold last_field, str_split. rewrite as_bytes_app.
  change (as_bytes "urn:ietf:params:acme:error:") with
    (as_bytes "urn" ++ b# ":" :: as_bytes "ietf" ++ b# ":" :: as_bytes "params" ++ b# ":" :: as_bytes "acme" ++ b# ":" ::
     as_bytes "error" ++ [b# ":"]).
  assert (forall a l, forallb (fun b => negb (b =? b# ":")) a = true ->
    split_l (b# ":") (a ++ b# ":" :: l) = a :: split_l (b# ":") l) as Hs.
  { intros a l Ha. apply split_l_app. intros Hin%list_elem_of_In. rewrite forallb_forall in Ha.
    specialize (Ha _ Hin). by rewrite Z.eqb_refl in Ha. }
  repeat (rewrite <- app_assoc; cbn [app]; rewrite Hs by reflexivity).
  rewrite split_l_single by (by intros Hin%list_elem_of_In). cbn. by rewrite of_as_bytes.
Qed.

(** A problem with a detail shows its type. *)
Lemma problem_message_kind url status kind detail retry_after body :
  detail <> "" -> exists r, pb_message (problem_of url status kind detail retry_after body) = kind +:+ r.
Proof.
  intros Hd. eexists. cbn [pb_message problem_of]. unfold str_is_empty. rewrite bool_decide_eq_false_2 by done.
  by rewrite !str_app_assoc.
Qed.

(** A failure that no retry fixes stays one: an ACME problem of a permanent type, under any context the code
    wraps it in, is permanent both as the typed error of the attempt (it is not retried) and as the reason recorded
    with the job (it is not queued again later). *)
Theorem permanent_recorded context url status x detail retry_after body :
  In x PERMANENT_PROBLEMS -> detail <> "" ->
  let e := map COther context ++
             [CProblem (problem_of url status ("urn:ietf:params:acme:error:" +:+ x) detail retry_after body)] in
  classify e = FPermanent /\ classify_reason (error_text e) = FPermanent.
Proof.
  intros Hx Hd e. split.
  - unfold classify, e. rewrite classify_chain_context. cbn [classify_chain classify_cause]. unfold classify_problem.
    cbn [pb_kind problem_of]. rewrite last_field_urn.
    + unfold is_one_of. rewrite (proj2 (existsb_exists _ _)); [done|]. exists x. split; [done|apply String.eqb_refl].
    + assert (forallb (fun x => forallb (fun b => negb (b =? b# ":")) (as_bytes x)) PERMANENT_PROBLEMS = true) as Hall
        by reflexivity.
      rewrite forallb_forall in Hall. specialize (Hall x Hx). rewrite forallb_forall in Hall.
      intros Hin. specialize (Hall _ Hin). by rewrite Z.eqb_refl in Hall.
  - destruct (error_text_part e (CProblem (problem_of url status ("urn:ietf:params:acme:error:" +:+ x) detail retry_after body)))
      as (a & b & E); [apply elem_of_app; right; by left|].
    unfold classify_reason. destruct (any_in (error_text e) PERMANENT_REASONS); [done|].
    destruct (problem_message_kind url status ("urn:ietf:params:acme:error:" +:+ x) detail retry_after body Hd) as [r Hr].
    rewrite (any_in_here _ (a +:+ "urn:ietf:params:") ("acme:error:" +:+ x) (r +:+ b)); [done|by apply in_map, Hx|].
    rewrite E. cbn [display]. rewrite Hr.
    change "urn:ietf:params:acme:error:" with ("urn:ietf:params:" +:+ "acme:error:"). by rewrite !str_app_assoc.
Qed.

Lemma permanent_recorded_witness :
  classify [COther "ordering"; CProblem (problem_of "https://ca/new" 400 "urn:ietf:params:acme:error:badCSR" "no" None [])]
  = FPermanent.
Proof.
  exact (proj1 (permanent_recorded ["ordering"] "https://ca/new" 400 "badCSR" "no" None []
    ltac:(right; right; left; reflexivity) ltac:(discriminate))).
Defined.

(** ** What a tenant sees *)

Lemma http_digits_split reason d :
  http_digits reason = Some d -> exists a b, as_bytes reason = a ++ as_bytes "HTTP " ++ d ++ b /\ length d = 3%nat /\
    forallb is_ascii_digit d = true.
Proof.
  unfold http_digits. destruct (omap _ _) as [|d0 l] eqn:E; [done|]. intros [= ->].
  assert (d ∈ omap three_digits (matches_after (as_bytes "HTTP ") (as_bytes reason) 0)) as Hin by (rewrite E; left).
  apply list_elem_of_omap in Hin as (rest & Hm & Hd). apply matches_after_split in Hm as [a ->].
  unfold three_digits in Hd. case_split; [|done]. bsimp. injection Hd as <-.
  exists a, (drop 3 rest). by rewrite take_drop.
Qed.

Lemma of_bytes_app a b : of_bytes (a ++ b) = of_bytes a +:+ of_bytes b.
Proof. unfold of_bytes. rewrite map_app. induction a as [|x a IH]; [done|]. cbn. by rewrite IH. Qed.

Lemma lower_digit b : is_ascii_digit b = true -> ascii_lower_byte b = b.
Proof. unfold is_ascii_digit, ascii_lower_byte, is_ascii_uppercase. intros. bsimp. case_split; bsimp; lia. Qed.

(** Any digits after ["HTTP "] also follow ["http "] in lower case. *)
Lemma http_digits_lower reason d :
  http_digits reason = Some d -> exists a b, to_ascii_lowercase reason = a +:+ ("http " +:+ of_bytes d) +:+ b.
Proof.
  intros H. apply http_digits_split in H as (a & b & E & _ & Hd).
  exists (of_bytes (ascii_lower a)), (of_bytes (ascii_lower b)). unfold to_ascii_lowercase. rewrite E.
  unfold ascii_lower. rewrite !map_app, !of_bytes_app.
  assert (map ascii_lower_byte d = d) as ->.
  { clear E. induction d as [|x d IH]; [done|]. cbn in Hd. bsimp. cbn. rewrite lower_digit, IH; done. }
  change (of_bytes (map ascii_lower_byte (as_bytes "HTTP "))) with "http ". by rewrite !str_app_assoc.
Qed.

(** The texts a tenant can see, given the classes of [error_class]. *)
Definition CLASSES : list string :=
  ["network"; "timeout"; "http_5xx"; "http_429"; "bad_body"; "nonce"; "bad_nonce"; "authz_pending"; "dns"; "rejected";
   "other"].

Lemma status_class_in status : In (status_class status) CLASSES.
Proof. unfold status_class. repeat case_split; cbn; tauto. Qed.

Lemma problem_class_in status kind : In (problem_class status kind) CLASSES.
Proof. unfold problem_class. repeat (case_split; [cbn; tauto|]). apply status_class_in. Qed.

Lemma message_class_in text : In (message_class text) CLASSES.
Proof. unfold message_class. repeat (case_split; [cbn; tauto|]). cbn; tauto. Qed.

Lemma error_class_in e : In (error_class e) CLASSES.
Proof.
  unfold error_class. case_split; [cbn; tauto|].
  assert (forall c class, error_class_cause c = Some class -> In class CLASSES) as Hc.
  { intros [m r|p|f|b s|s] class H; cbn [error_class_cause] in H; repeat case_split; simplify_eq;
      auto using status_class_in, message_class_in, problem_class_in; cbn; tauto. }
  assert (forall class, error_class_chain e = Some class -> In class CLASSES) as Hchain.
  { clear -Hc. intros class. induction e as [|c e IH]; cbn [error_class_chain]; [done|]. destruct (error_class_cause c) eqn:E; [intros [= <-]; eauto|done]. }
  case_split; [auto|]. apply message_class_in.
Qed.

Definition BUCKETS : list string :=
  ["config"; "acme_rate_limit"; "dns"; "acme_authorization"; "acme_order"; "persist"; "acme_http"; "other"].

Lemma certificate_failure_in reason : In (certificate_failure reason) BUCKETS.
Proof. unfold certificate_failure. repeat (case_split; [cbn; tauto|]). cbn; tauto. Qed.

(** Every status with three digits, and every three digits. *)
Definition THREE : list Z := seqZ 100 900.
Definition DIGITS : list bytes :=
  map (fun n => [48 + n / 100; 48 + n / 10 mod 10; 48 + n mod 10]) (seqZ 0 1000).

Lemma digits_in d : length d = 3%nat -> forallb is_ascii_digit d = true -> In d DIGITS.
Proof.
  destruct d as [|x [|y [|z [|]]]]; intros Hl Hd; try done. cbn in Hd. unfold is_ascii_digit in Hd. bsimp.
  apply in_map_iff. exists (100 * (x - 48) + 10 * (y - 48) + (z - 48)). split.
  - repeat f_equal; try (Z.to_euclidean_division_equations; lia).
  - apply list_elem_of_In, elem_of_seqZ. lia.
Qed.

(** What the public texts are bucketed as. *)
Definition public (detail : string) : string := "Certificate issuance failed: " +:+ detail.
Definition answered (digits : string) : string := "the certificate authority answered HTTP " +:+ digits.

Lemma bucket_fixed :
  forallb (fun bucket => String.eqb (certificate_failure (public (public_detail bucket None None ""))) bucket)
    ["config"; "acme_rate_limit"; "dns"; "acme_authorization"; "acme_order"; "persist"] = true.
Proof. vm_compute. reflexivity. Qed.

Lemma bucket_other :
  forallb (fun class => String.eqb (certificate_failure (public (public_detail "other" None None class))) "other") CLASSES
  = true.
Proof. vm_compute. reflexivity. Qed.

Lemma bucket_status :
  forallb (fun status => String.eqb (certificate_failure (public (answered (dec_string status))))
                           (if status =? 429 then "acme_rate_limit" else "acme_http")) THREE = true.
Proof. vm_compute. reflexivity. Qed.

Lemma bucket_digits :
  forallb (fun d => String.eqb (certificate_failure (public (answered (of_bytes d))))
                      (if decide (d = as_bytes "429") then "acme_rate_limit" else "acme_http")) DIGITS = true.
Proof. vm_compute. reflexivity. Qed.

Definition PUBLIC_TEXTS : list string :=
  map public
    (map (fun bucket => public_detail bucket None None "")
       ["config"; "acme_rate_limit"; "dns"; "acme_authorization"; "acme_order"; "persist"]
     ++ map (public_detail "other" None None) CLASSES
     ++ map (fun status => answered (dec_string status)) THREE ++ map (fun d => answered (of_bytes d)) DIGITS).

(** The ["acme_http"] bucket has a status in the text, and it is not 429. *)
Lemma bucket_http reason :
  certificate_failure reason = "acme_http" ->
  exists d, http_digits reason = Some d /\ In d DIGITS /\ d <> as_bytes "429".
Proof.
  unfold certificate_failure. destruct (any_in reason ["required"; "not a P-256"]); [done|].
  destruct (any_in (to_ascii_lowercase reason) ["http 429"; "ratelimited"]) eqn:E429; [done|].
  repeat (match goal with |- context [any_in ?r ?l] => destruct (any_in r l); [done|] end).
  case_bool_decide as Hd; [|done]. intros _. destruct Hd as [d Hd]. exists d. split; [done|].
  pose proof (http_digits_split _ _ Hd) as (a & b & _ & Hlen & Hdig). split; [by apply digits_in|].
  intros ->. apply http_digits_lower in Hd as (a' & b' & E).
  rewrite (any_in_here _ a' "http 429" b') in E429; [done|by left|]. exact E.
Qed.

Lemma public_reason_fixed e bucket :
  certificate_failure (error_text e) = bucket ->
  In bucket ["config"; "acme_rate_limit"; "dns"; "acme_authorization"; "acme_order"; "persist"] ->
  public_reason e = public (public_detail bucket None None "").
Proof.
  intros Hb Hin. unfold public_reason. rewrite Hb. fold (public (public_detail bucket (error_status e)
    (http_digits (error_text e)) (error_class e))). f_equal.
  repeat (destruct Hin as [<-|Hin]; [reflexivity|]). destruct Hin.
Qed.

Ltac in_part := apply in_map; rewrite !in_app_iff; rewrite !in_map_iff.

(** A tenant never sees what a server answered: the reason shown is one of a fixed list of texts, which carry at
    most a three-digit status or the class of the failure. It is counted as the same kind of failure as the full
    error, except that an order answered with status 429 counts as a rate limit. *)
Theorem public_reason_safe e :
  (forall status, error_status e = Some status -> 100 <= status <= 999) ->
  In (public_reason e) PUBLIC_TEXTS /\
  (certificate_failure (public_reason e) = certificate_failure (error_text e) \/
   error_status e = Some 429 /\ certificate_failure (error_text e) = "acme_http" /\
   certificate_failure (public_reason e) = "acme_rate_limit").
Proof.
  intros Hs. pose proof (certificate_failure_in (error_text e)) as Hin.
  remember (certificate_failure (error_text e)) as bucket eqn:Hb. symmetry in Hb.
  destruct (decide (bucket = "acme_http")) as [->|Hnh]; [|destruct (decide (bucket = "other")) as [->|Hno]].
  - destruct (bucket_http _ Hb) as (d & Hd & Hdin & Hne).
    pose proof (proj1 (forallb_forall _ _) bucket_status) as Hst.
    pose proof (proj1 (forallb_forall _ _) bucket_digits d Hdin) as Hdg. cbv beta in Hst, Hdg.
    rewrite decide_False in Hdg by done. apply String.eqb_eq in Hdg.
    assert (public_reason e = public (match error_status e with
      | Some status => answered (dec_string status) | None => answered (of_bytes d) end)) as Hp.
    { unfold public_reason. rewrite Hb, Hd. by destruct (error_status e). }
    rewrite Hp. destruct (error_status e) as [status|] eqn:Est.
    + assert (In status THREE) as H3 by (apply list_elem_of_In, elem_of_seqZ; specialize (Hs _ eq_refl); lia).
      specialize (Hst _ H3). apply String.eqb_eq in Hst. split; [in_part; right; right; left; eauto|].
      rewrite Hst. destruct (status =? 429) eqn:E; bsimp; [right; by subst|by left].
    + split; [in_part; right; right; right; eauto|by left].
  - assert (public_reason e = public (public_detail "other" None None (error_class e))) as ->
      by (unfold public_reason; by rewrite Hb).
    pose proof (error_class_in e) as Hc. pose proof (proj1 (forallb_forall _ _) bucket_other _ Hc) as Ho. cbv beta in Ho.
    apply String.eqb_eq in Ho. split; [in_part; right; left; eauto|by left].
  - assert (In bucket ["config"; "acme_rate_limit"; "dns"; "acme_authorization"; "acme_order"; "persist"]) as Hf
      by (cbn in Hin |- *; intuition congruence).
    rewrite (public_reason_fixed _ _ Hb Hf). pose proof (proj1 (forallb_forall _ _) bucket_fixed _ Hf) as Ho. cbv beta in Ho.
    apply String.eqb_eq in Ho. split; [in_part; left; eauto|by left].
Qed.

Lemma public_reason_safe_witness :
  In (public_reason [CProblem (problem_of "https://ca/x" 500 "" "" None (as_bytes "internal secrets"))]) PUBLIC_TEXTS.
Proof.
  apply public_reason_safe. intros status H. vm_compute in H. injection H as <-. lia.
Defined.

(** ** The cool-down *)

(** The state after failed attempts (class, the CA's Retry-After, the time), and which of them started a pause. *)
Fixpoint cooldown_run (c : Cooldown) (attempts : list (string * option Z * Z)) : list bool * Cooldown :=
  match attempts with
  | [] => ([], c)
  | (class, retry_after, now) :: rest =>
      let '(started, c) := cooldown_failed c class retry_after now in
      let '(starts, c) := cooldown_run c rest in (started :: starts, c)
  end.

(** The length of the [n]-th pause in a row. *)
Definition pause (n : Z) : Z := if n =? 0 then 0 else Z.min (COOLDOWN_MIN_MS * 2 ^ (n - 1)) COOLDOWN_MAX_MS.

Lemma pause_succ n :
  0 <= n -> pause (n + 1) = if pause n =? 0 then COOLDOWN_MIN_MS else Z.min (pause n * 2) COOLDOWN_MAX_MS.
Proof.
  intros Hn. unfold pause. rewrite (proj2 (Z.eqb_neq (n + 1) 0)) by lia. rewrite Z.add_simpl_r.
  unfold COOLDOWN_MIN_MS, COOLDOWN_MAX_MS, HOUR_MS, MINUTE_MS, SECOND_MS.
  destruct (Z.eqb_spec n 0) as [->|Hne]; [reflexivity|].
  pose proof (Z.pow_pos_nonneg 2 (n - 1) ltac:(lia) ltac:(lia)).
  rewrite (proj2 (Z.eqb_neq _ 0)) by lia.
  replace n with (n - 1 + 1) at 1 by lia. rewrite Z.pow_add_r by lia. lia.
Qed.

Definition ordinary (attempt : string * option Z * Z) : Prop :=
  ca_trouble attempt.1.1 = true /\ attempt.1.1 <> "http_429".

(** One more failure in a row. *)
Lemma cooldown_step n c class retry_after now :
  0 <= n -> ordinary (class, retry_after, now) ->
  failures c = n mod 5 -> cooldown_ms c = pause (n / 5) ->
  let '(started, c') := cooldown_failed c class retry_after now in
  started = ((n + 1) mod 5 =? 0) /\ failures c' = (n + 1) mod 5 /\ cooldown_ms c' = pause ((n + 1) / 5) /\
  cd_until c <= cd_until c' /\ (started = true -> now + pause ((n + 1) / 5) <= cd_until c').
Proof.
  intros Hn [Htr H429] Hf Hc. cbn [fst] in *. unfold cooldown_failed. rewrite Htr. cbn [negb].
  rewrite (proj2 (String.eqb_neq _ _)) by done. cbn [negb andb failures cooldown_ms cd_until]. rewrite Hf, Hc.
  pose proof (Z.mod_pos_bound n 5 ltac:(lia)). unfold COOLDOWN_FAILURES.
  destruct (n mod 5 + 1 <? 5) eqn:E; bsimp; cbn [failures cooldown_ms cd_until].
  - assert (n mod 5 < 4) as Hlt by lia.
    assert ((n + 1) mod 5 = n mod 5 + 1 /\ (n + 1) / 5 = n / 5) as [-> ->]
      by (Z.to_euclidean_division_equations; lia).
    rewrite (proj2 (Z.eqb_neq _ 0)) by lia. by split_and!.
  - assert ((n + 1) mod 5 = 0 /\ (n + 1) / 5 = n / 5 + 1) as [-> ->] by (Z.to_euclidean_division_equations; lia).
    pose proof (Z.div_pos n 5 ltac:(lia) ltac:(lia)). rewrite <- (pause_succ (n / 5)) by lia. cbn. split_and!; try lia.
Qed.

Definition starts_from (n : Z) (k : nat) : list bool :=
  map (fun i => (n + Z.of_nat i + 1) mod 5 =? 0) (seq 0 k).

Lemma starts_from_S n k : starts_from n (S k) = ((n + 1) mod 5 =? 0) :: starts_from (n + 1) k.
Proof.
  unfold starts_from. cbn [seq map]. rewrite Z.add_0_r. f_equal. rewrite <- seq_shift, map_map. apply map_ext.
  intros i. do 2 f_equal. lia.
Qed.

Lemma cooldown_run_from attempts : forall n c,
  0 <= n -> Forall ordinary attempts -> failures c = n mod 5 -> cooldown_ms c = pause (n / 5) ->
  let '(starts, c') := cooldown_run c attempts in
  starts = starts_from n (length attempts) /\ failures c' = (n + Z.of_nat (length attempts)) mod 5 /\
  cooldown_ms c' = pause ((n + Z.of_nat (length attempts)) / 5) /\ cd_until c <= cd_until c'.
Proof.
  induction attempts as [|[[class r] now] rest IH]; intros n c Hn Ho Hf Hc.
  { cbn. rewrite Z.add_0_r. by split_and!. }
  apply Forall_cons in Ho as [Ho Hrest]. cbn [cooldown_run length].
  pose proof (cooldown_step n c class r now Hn Ho Hf Hc) as Hstep.
  destruct (cooldown_failed c class r now) as [started c1]. destruct Hstep as (-> & H1 & H2 & H3 & _).
  specialize (IH (n + 1) c1 ltac:(lia) Hrest H1 H2). destruct (cooldown_run c1 rest) as [starts c2].
  destruct IH as (-> & H4 & H5 & H6). rewrite starts_from_S. rewrite Nat2Z.inj_succ.
  replace (n + Z.succ (Z.of_nat (length rest))) with (n + 1 + Z.of_nat (length rest)) by lia. split_and!; [done..|lia].
Qed.

(** The cool-down backs off: of any run of failures that point at the CA, exactly every fifth in a row starts a
    pause; the pauses last a minute, then twice as long each time up to an hour, and never end before one announced
    earlier; a rate limit starts one at once, at least as long as the CA asks for (up to an hour); a failure that says
    nothing about the CA changes nothing. *)
Theorem cooldown_backs_off attempts class retry_after now c :
  Forall ordinary attempts ->
  (let '(starts, c') := cooldown_run default_cooldown attempts in
   starts = map (fun i => (Z.of_nat i + 1) mod 5 =? 0) (seq 0 (length attempts)) /\
   failures c' = Z.of_nat (length attempts) mod 5 /\
   cooldown_ms c' = pause (Z.of_nat (length attempts) / 5)) /\
  (let '(started, c') := cooldown_failed c "http_429" retry_after now in
   started = true /\ cd_until c <= cd_until c' /\ now + cooldown_ms c' <= cd_until c' /\ failures c' = 0 /\
   forall asked, retry_after = Some asked -> now + Z.min asked HOUR_MS <= cd_until c') /\
  (ca_trouble class = false -> cooldown_failed c class retry_after now = (false, c)).
Proof.
  intros Ho. split_and!.
  - pose proof (cooldown_run_from attempts 0 default_cooldown ltac:(lia) Ho eq_refl eq_refl) as H.
    destruct (cooldown_run default_cooldown attempts) as [starts c']. destruct H as (-> & H1 & H2 & _). by split_and!.
  - cbn -[Z.max Z.min Z.mul COOLDOWN_MIN_MS COOLDOWN_MAX_MS HOUR_MS].
    assert (0 < COOLDOWN_MAX_MS /\ COOLDOWN_MAX_MS = HOUR_MS) as [? ?] by (split; [done|reflexivity]).
    split_and!; try lia. intros asked ->. lia.
  - intros Hf. unfold cooldown_failed. by rewrite Hf.
Qed.

Lemma cooldown_backs_off_witness :
  fst (cooldown_run default_cooldown (repeat ("timeout", None, 1000) 6)) = [false; false; false; false; true; false].
Proof.
  destruct (cooldown_backs_off (repeat ("timeout", None, 1000) 6) "dns" None 0 default_cooldown) as [H _].
  { repeat constructor; discriminate. }
  destruct (cooldown_run default_cooldown (repeat ("timeout", None, 1000) 6)) as [s c]. destruct H as [-> _]. reflexivity.
Defined.

Lemma dec_string_bytes n : 0 <= n -> as_bytes (dec_string n) = to_dec n.
Proof. intros. unfold dec_string. apply as_of_bytes. by apply to_dec_ok. Qed.

(** Every machine pauses together: merging the cool-down another machine stored takes the later end and the longer
    pause of the two, exactly. *)
Theorem cooldown_shared c c' :
  0 <= cd_until c' <= U64_MAX -> 0 <= cooldown_ms c' <= U64_MAX ->
  cooldown_merge c (cooldown_encode c')
  = mkCooldown (failures c) (Z.max (cooldown_ms c) (cooldown_ms c')) (Z.max (cd_until c) (cd_until c')).
Proof.
  intros Hu Hc. unfold cooldown_merge, cooldown_encode, str_split.
  rewrite as_bytes_app, !dec_string_bytes, as_bytes_app, dec_string_bytes by lia.
  change (as_bytes " " ++ to_dec (cooldown_ms c')) with (b# " " :: to_dec (cooldown_ms c')).
  assert (forall n, 0 <= n -> b# " " ∉ to_dec n) as Hns.
  { intros n Hn Hin. pose proof (proj1 (Forall_forall _ _) (to_dec_digits n Hn) _ Hin) as Hx. cbn in Hx.
    change (b# " ") with 32 in Hx. lia. }
  rewrite split_l_app, split_l_single by (apply Hns; lia). cbn [map lookup list_lookup].
  rewrite !as_of_bytes by (apply to_dec_ok; lia).
  rewrite !parse_uint_to_dec by (unfold U64_MAX in *; lia). done.
Qed.

Lemma cooldown_shared_witness : cooldown_merge default_cooldown "5000 60000" = mkCooldown 0 60000 5000.
Proof. exact (cooldown_shared default_cooldown (mkCooldown 3 60000 5000) ltac:(done) ltac:(done)). Defined.
