(* ===== verification/ClientApi.v ===== *)
(** * ClientApi: the client's requests to the HTTP API and their retries

    [crates/opentunnel/src/api.rs] (the [send] loop and the five requests) and the retry rules of
    [crates/opentunnel/src/protocol/api.rs]. *)

From Stdlib Require Import ZArith Lia Ascii String List.
From stdpp Require Import base list strings.
From S2P Require Import Prelude Text.

(** ** [protocol/api.rs] *)

Definition RETRY_BASE_MS : Z := 250.
Definition RETRY_MAX_MS : Z := 8000.
Definition RETRIES : nat := 6.

Inductive Repeat := Idempotent | Once.

Definition retryable_status (status : Z) (repeat : Repeat) : bool :=
  match repeat with
  | Idempotent => (status =? 429) || ((500 <=? status) && (status <=? 599))
  | Once => existsb (Z.eqb status) [429; 503; 521; 522; 523; 525]
  end.

(** [1 << attempt.min(16)] *)
Definition retry_delay_ms (attempt : nat) (retry_after : option string) : Z * Z :=
  match (let* value := retry_after in parse_uint U64_MAX (as_bytes (str_trim value))) with
  | Some seconds => let delay := Z.min (sat_mul seconds 1000) RETRY_MAX_MS in (delay, delay)
  | None =>
      let delay := Z.min (sat_mul RETRY_BASE_MS (Z.shiftl 1 (Z.of_nat (Nat.min attempt 16)))) RETRY_MAX_MS in
      (delay / 2, delay)
  end.

Definition cloudflare_reason (status : Z) : option string :=
  if status =? 520 then Some "the server returned an unknown error"
  else if status =? 521 then Some "the server refused the connection"
  else if status =? 522 then Some "the connection to the server timed out"
  else if status =? 523 then Some "the server is unreachable"
  else if status =? 524 then Some "the server did not answer in time"
  else if status =? 525 then Some "the SSL handshake with the server failed"
  else if status =? 526 then Some "the server's certificate is invalid"
  else if status =? 527 then Some "the connection to the server failed"
  else None.

Definition status_message (status : Z) (body : string) : string :=
  match cloudflare_reason status with
  | Some reason => "Cloudflare " +:+ dec_string status +:+ ": " +:+ reason
  | None =>
      let body := str_trim body in
      if str_is_empty body then "HTTP " +:+ dec_string status
      else of_bytes (take_chars 200 (as_bytes body))
  end.

(** ** [api.rs] *)

(** What one request comes to: a response, or an error of [reqwest] with what the code asks of it. *)
Inductive Sent :=
| Response (status : Z) (retry_after : option string) (body : string)
| NetworkError (is_connect is_timeout is_request : bool).

Inductive ClientError :=
| EApi (status : Z) (tag message : string)
| EHttp.

Definition is_success (status : Z) : bool := (200 <=? status) && (status <=? 299).

Definition retryable_error (connect timeout request : bool) (repeat : Repeat) : bool :=
  match repeat with
  | Idempotent => connect || timeout || request
  | Once => connect
  end.

Section Api.
(** [serde_json] reading the API's error body: its tag and message. *)
Context (parse_api_error : string -> option (string * string)).
(** [retry_scale], 1 outside tests. *)
Context (retry_scale : Z).

Definition error_response (status : Z) (body : string) : ClientError :=
  match parse_api_error body with
  | Some (tag, message) => EApi status tag message
  | None => EApi status "HttpError" (status_message status body)
  end.

(** [rand::random_range(min..=max)] of some random number. *)
Definition random_range (r min max : Z) : Z := min + r mod (max - min + 1).

Definition wait (attempt : nat) (retry_after : option string) (r : Z) : Z :=
  let '(min, max) := retry_delay_ms attempt retry_after in random_range r min max / retry_scale.

(** What became of a call: its result, the requests sent and the waits between them. *)
Record Sending := mkSending {
  result_ : result string ClientError;
  requests : nat;
  waits : list Z;
}.

Definition after_wait (w : Z) (s : Sending) : Sending := mkSending (result_ s) (S (requests s)) (w :: waits s).

(** [send]: [world i] is what request [i] comes to. The loop ends by itself at attempt [RETRIES], so [S RETRIES] of
    fuel is never used up. *)
Fixpoint send_loop (fuel : nat) (repeat : Repeat) (world : nat -> Sent) (random : nat -> Z) (attempt : nat) : Sending :=
  match fuel with
  | O => mkSending (Err EHttp) 0 []
  | S fuel' =>
      match world attempt with
      | Response status retry_after body =>
          if is_success status then mkSending (Ok body) 1 []
          else if (RETRIES <=? attempt)%nat || negb (retryable_status status repeat)
          then mkSending (Err (error_response status body)) 1 []
          else after_wait (wait attempt retry_after (random attempt))
                 (send_loop fuel' repeat world random (S attempt))
      | NetworkError connect timeout request =>
          if (RETRIES <=? attempt)%nat || negb (retryable_error connect timeout request repeat)
          then mkSending (Err EHttp) 1 []
          else after_wait (wait attempt None (random attempt)) (send_loop fuel' repeat world random (S attempt))
      end
  end.

Definition send (repeat : Repeat) (world : nat -> Sent) (random : nat -> Z) : Sending :=
  send_loop (S RETRIES) repeat world random 0.

(** The requests and how each may be repeated. *)
Inductive Request := Create | Get (id : string) | BindCertificate (id csr : string) | Certificate (id : string) | Remove (id : string).

Definition tunnel_path (id suffix : string) : string := "/api/tunnel/" +:+ id +:+ suffix.

Definition repeat_of (r : Request) : Repeat :=
  match r with Create | Remove _ => Once | Get _ | BindCertificate _ _ | Certificate _ => Idempotent end.

Definition request_line (r : Request) : string * string :=
  match r with
  | Create => ("POST", "/api/tunnel")
  | Get id => ("GET", tunnel_path id "")
  | BindCertificate id _ => ("POST", tunnel_path id "/certificate")
  | Certificate id => ("GET", tunnel_path id "/certificate")
  | Remove id => ("DELETE", tunnel_path id "")
  end.

(** ** Lemmas *)

(** Whether a request that came to [s] is sent again. *)
Definition again (repeat : Repeat) (s : Sent) : bool :=
  match s with
  | Response status _ _ => negb (is_success status) && retryable_status status repeat
  | NetworkError c t r => retryable_error c t r repeat
  end.

(** What the caller gets of the last request. *)
Definition answer (s : Sent) : result string ClientError :=
  match s with
  | Response status _ body => if is_success status then Ok body else Err (error_response status body)
  | NetworkError _ _ _ => Err EHttp
  end.

Lemma retry_delay_bounds attempt retry_after :
  let '(min, max) := retry_delay_ms attempt retry_after in 0 <= min <= max /\ max <= RETRY_MAX_MS.
Proof.
  unfold retry_delay_ms. destruct (mbind _ _) as [seconds|] eqn:E.
  - destruct retry_after as [value|]; [|done]. cbn in E. apply parse_uint_nonneg in E.
    unfold sat_mul, U64_MAX, RETRY_MAX_MS. lia.
  - rewrite Z.shiftl_1_l. pose proof (Z.pow_pos_nonneg 2 (Z.of_nat (Nat.min attempt 16)) ltac:(lia) ltac:(lia)).
    unfold sat_mul, U64_MAX, RETRY_BASE_MS, RETRY_MAX_MS. split; [|lia]. split; [apply Z.div_pos; lia|].
    apply Z.div_le_upper_bound; lia.
Qed.

Lemma wait_bounds attempt retry_after r :
  1 <= retry_scale -> 0 <= wait attempt retry_after r <= RETRY_MAX_MS.
Proof.
  intros Hs. unfold wait. pose proof (retry_delay_bounds attempt retry_after) as Hb.
  destruct (retry_delay_ms attempt retry_after) as [lo hi]. unfold random_range.
  pose proof (Z.mod_pos_bound r (hi - lo + 1) ltac:(lia)). split.
  - apply Z.div_pos; lia.
  - etransitivity; [apply Z.div_le_upper_bound with (q := RETRY_MAX_MS); [lia|]; nia|done].
Qed.

(** One turn of the loop. *)
Lemma send_loop_S fuel repeat world random attempt :
  (exists w, (retry_scale >= 1 -> 0 <= w <= RETRY_MAX_MS) /\
     (attempt < RETRIES)%nat /\ again repeat (world attempt) = true /\
     send_loop (S fuel) repeat world random attempt = after_wait w (send_loop fuel repeat world random (S attempt))) \/
  ((RETRIES <= attempt)%nat \/ again repeat (world attempt) = false) /\
  send_loop (S fuel) repeat world random attempt = mkSending (answer (world attempt)) 1 [].
Proof.
  cbn [send_loop]. unfold again, answer.
  destruct (world attempt) as [status ra body|c t r]; [destruct (is_success status); [right; auto|]|];
    destruct ((RETRIES <=? attempt)%nat) eqn:E; bsimp; cbn [orb negb andb].
  all: try (right; split; [left; lia|reflexivity]).
  - destruct (retryable_status status repeat); cbn [negb]; [left|right; auto].
    eexists. split_and!; [|lia|done|reflexivity]. intros. apply wait_bounds. lia.
  - destruct (retryable_error c t r repeat); cbn [negb]; [left|right; auto].
    eexists. split_and!; [|lia|done|reflexivity]. intros. apply wait_bounds. lia.
Qed.

Lemma send_loop_spec fuel : forall repeat world random attempt,
  (attempt + fuel = S RETRIES)%nat -> (0 < fuel)%nat ->
  exists k, (attempt <= k <= RETRIES)%nat /\
    (forall i, (attempt <= i < k)%nat -> again repeat (world i) = true) /\
    (k = RETRIES \/ again repeat (world k) = false) /\
    let s := send_loop fuel repeat world random attempt in
    result_ s = answer (world k) /\ requests s = S (k - attempt) /\ length (waits s) = (k - attempt)%nat /\
    (retry_scale >= 1 -> Forall (fun w => 0 <= w <= RETRY_MAX_MS) (waits s)).
Proof.
  induction fuel as [|fuel IH]; intros repeat world random attempt Hf Hpos; [lia|].
  destruct (send_loop_S fuel repeat world random attempt) as [(w & Hw & Hlt & Hag & Heq)|[Hend Heq]].
  - destruct (IH repeat world random (S attempt)) as (k & Hk & Hall & Hlast & H1 & H2 & H3 & H4); [lia|unfold RETRIES in *; lia|].
    exists k. split_and!; [lia|lia| |done|].
    + intros i Hi. destruct (decide (i = attempt)) as [->|]; [done|]. apply Hall. lia.
    + cbv zeta. rewrite Heq. cbn [after_wait result_ requests waits length]. split_and!; [done|lia|lia|].
      intros Hs. constructor; auto.
  - exists attempt. split_and!; [lia|unfold RETRIES in *; lia|intros; lia|destruct Hend; [left; lia|by right]|].
    cbv zeta. rewrite Heq. cbn. rewrite Nat.sub_diag. split_and!; [done|done|done|constructor].
Qed.

(** Every call ends: after at most seven requests and 48 seconds of waiting, with what the last request came to.
    Exactly the requests before it failed in a way their kind allows to repeat, and the last one did not, unless the
    retries ran out; a request that may take effect only once is repeated only after a failed connection or a status
    that says it did not arrive. *)
Theorem send_ends r world random :
  retry_scale >= 1 ->
  let s := send (repeat_of r) world random in
  exists k, (k <= 6)%nat /\ requests s = S k /\ result_ s = answer (world k) /\
    (k = 6%nat \/ again (repeat_of r) (world k) = false) /\
    0 <= foldr Z.add 0 (waits s) <= 48000 /\
    forall i, (i < k)%nat ->
      match world i, r with
      | Response status _ _, (Create | Remove _) => In status [429; 503; 521; 522; 523; 525]
      | Response status _ _, _ => status = 429 \/ 500 <= status <= 599
      | NetworkError connect _ _, (Create | Remove _) => connect = true
      | NetworkError connect timeout request, _ => connect || timeout || request = true
      end.
Proof.
  intros Hs s. destruct (send_loop_spec (S RETRIES) (repeat_of r) world random 0 eq_refl ltac:(lia))
    as (k & Hk & Hall & Hlast & H1 & H2 & H3 & H4). fold (send (repeat_of r) world random) in *. fold s in H1, H2, H3, H4.
  exists k. unfold RETRIES in *. rewrite Nat.sub_0_r in H2, H3. split_and!; [lia|done|done|done| | |].
  - specialize (H4 Hs). clear -H4. induction H4; cbn [foldr]; lia.
  - specialize (H4 Hs). assert (foldr Z.add 0 (waits s) <= RETRY_MAX_MS * Z.of_nat (length (waits s))) as Hsum.
    { clear -H4. induction H4; cbn [foldr length]; lia. }
    rewrite H3 in Hsum. unfold RETRY_MAX_MS in Hsum. lia.
  - intros i Hi. specialize (Hall i ltac:(lia)). unfold again in Hall.
    destruct (world i) as [status ra body|c t rq]; destruct r; cbn [repeat_of retryable_status retryable_error] in Hall; try done.
    all: apply andb_prop in Hall as [_ Hall]; try (apply existsb_exists in Hall as (x & Hin & Hx); bsimp; by subst).
    all: bsimp; lia.
Qed.
End Api.

Lemma send_ends_witness :
  exists k, requests (send (fun _ => None) 1 Once (fun i => if (i =? 0)%nat then Response 525 None "" else Response 520 None "")
    (fun _ => 7)) = S k.
Proof.
  destruct (send_ends (fun _ => None) 1 Create
    (fun i => if (i =? 0)%nat then Response 525 None "" else Response 520 None "") (fun _ => 7) ltac:(lia))
    as (k & _ & H & _). exists k. exact H.
Defined.
