(* ===== verification/Bridges.v ===== *)
(** * Bridges: the live bridges of a tunnel, [service.rs] and the session of [bridge.rs]

    A tunnel's entry serializes what happens to its bridges; each operation below is what one of them does under the
    entry's lock. With other machines, what a bridge claims is announced through the mesh. *)

From Stdlib Require Import ZArith Lia Ascii String List.
From stdpp Require Import base list strings gmap sets.
From S2P Require Import Prelude Text Names Frames Record Mesh.

(** ** Data *)

Inductive Outbound :=
| OText (text : string)
| OClose (code : Z) (reason : string).

Inductive Outcome := Closed | Reset | BridgeDisconnected | Deleted | Backpressure | ClientError.

(** How a public connection ended, and whether it was torn down. *)
Record Finish := mkFinish {
  fi_outcome : option Outcome;
  fi_abort : bool;
}.

Record BridgeState := mkBridgeState {
  bs_attached : bool;
  bs_detached : bool;
  bs_session : option string;
  bs_routes : list string;
  bs_max_conns : option Z;
  bs_attached_at : Z;
  bs_active_at : Z;
  bs_server_close : option Z;
}.

(** A bridge: its public connections open now, those that ended, the visitors it carries, and the messages queued for
    its socket. *)
Record Bridge := mkBridge {
  br_id : Z;
  br_seen_at : Z;
  br_state : BridgeState;
  br_channels : gmap Z Finish;
  br_finished : list (Z * Finish);
  br_visitors : Z;
  br_queue : list Outbound;
}.

Record Tunnel := mkTunnel {
  tn_id : string;
  tn_record : option StoredTunnel;
  tn_bridges : list Bridge;
  tn_sequence : Z;
  tn_mesh : option Local;
}.

Record BridgeLimits := mkBridgeLimits {
  conns_per_bridge : Z;
  conns_per_tunnel : Z;
  buffered_bytes : Z;
}.

Definition default_limits : BridgeLimits := mkBridgeLimits 256 1024 (256 * 1024 * 1024).
Definition MAX_TUNNEL_ROUTES : nat := 256.
Definition MAX_ROUTES : nat := 128.
Definition OUTBOUND_QUEUE : nat := 256.
Definition STALE_BRIDGE_MS : Z := IDLE_TIMEOUT_MS + HEARTBEAT_MS.

Definition default_state : BridgeState := mkBridgeState false false None [] None 0 0 None.

(** Field updates. *)
Definition set_bstate (s : BridgeState) (b : Bridge) : Bridge :=
  mkBridge (br_id b) (br_seen_at b) s (br_channels b) (br_finished b) (br_visitors b) (br_queue b).
Definition set_seen_at (t : Z) (b : Bridge) : Bridge :=
  mkBridge (br_id b) t (br_state b) (br_channels b) (br_finished b) (br_visitors b) (br_queue b).
Definition set_channels (c : gmap Z Finish) (f : list (Z * Finish)) (b : Bridge) : Bridge :=
  mkBridge (br_id b) (br_seen_at b) (br_state b) c f (br_visitors b) (br_queue b).
Definition set_visitors (v : Z) (b : Bridge) : Bridge :=
  mkBridge (br_id b) (br_seen_at b) (br_state b) (br_channels b) (br_finished b) v (br_queue b).
Definition set_queue (q : list Outbound) (b : Bridge) : Bridge :=
  mkBridge (br_id b) (br_seen_at b) (br_state b) (br_channels b) (br_finished b) (br_visitors b) q.
Definition set_server_close (code : Z) (s : BridgeState) : BridgeState :=
  mkBridgeState (bs_attached s) (bs_detached s) (bs_session s) (bs_routes s) (bs_max_conns s) (bs_attached_at s)
    (bs_active_at s) (Some code).
Definition set_detached (s : BridgeState) : BridgeState :=
  mkBridgeState (bs_attached s) true (bs_session s) (bs_routes s) (bs_max_conns s) (bs_attached_at s)
    (bs_active_at s) (bs_server_close s).
Definition set_bridges (bs : list Bridge) (t : Tunnel) : Tunnel :=
  mkTunnel (tn_id t) (tn_record t) bs (tn_sequence t) (tn_mesh t).
Definition set_record (r : option StoredTunnel) (t : Tunnel) : Tunnel :=
  mkTunnel (tn_id t) r (tn_bridges t) (tn_sequence t) (tn_mesh t).
Definition set_mesh (m : option Local) (t : Tunnel) : Tunnel :=
  mkTunnel (tn_id t) (tn_record t) (tn_bridges t) (tn_sequence t) m.
Definition set_sequence (s : Z) (t : Tunnel) : Tunnel :=
  mkTunnel (tn_id t) (tn_record t) (tn_bridges t) s (tn_mesh t).

(** ** A bridge *)

(** [Finish::finish]: the first outcome wins. *)
Definition finish (outcome : Outcome) (abort : bool) (f : Finish) : Finish :=
  match fi_outcome f with
  | Some _ => f
  | None => mkFinish (Some outcome) (abort || fi_abort f)
  end.

Definition is_attached (b : Bridge) : bool := bs_attached (br_state b) && negb (bs_detached (br_state b)).
Definition claims_route (b : Bridge) (route : string) : bool := is_attached b && str_in route (bs_routes (br_state b)).
Definition is_closing (b : Bridge) : bool := match bs_server_close (br_state b) with Some _ => true | None => false end.
Definition touch (now : Z) (b : Bridge) : Bridge := set_seen_at now b.

(** [try_send]: a full queue drops the message. *)
Definition try_send (m : Outbound) (b : Bridge) : Bridge :=
  if (length (br_queue b) <? OUTBOUND_QUEUE)%nat then set_queue (br_queue b ++ [m]) b else b.

(** [send]: waits for room, then queues the message. *)
Definition send (m : Outbound) (b : Bridge) : Bridge := set_queue (br_queue b ++ [m]) b.

Definition close (code : Z) (reason : string) (b : Bridge) : Bridge :=
  try_send (OClose code reason) (set_bstate (set_server_close code (br_state b)) b).

Definition finish_channels (outcome : Outcome) (b : Bridge) : Bridge :=
  set_channels ∅ (br_finished b ++ map (fun kf => (kf.1, finish outcome true kf.2)) (map_to_list (br_channels b))) b.

Definition conn_limit (limit : Z) (b : Bridge) : Z :=
  match bs_max_conns (br_state b) with
  | Some max_conns => Z.max 1 (Z.min max_conns limit)
  | None => limit
  end.

(** [send_drain] *)
Definition DRAIN_REASON : string := "server restarting".
Definition send_drain (drain_message : string) (b : Bridge) : Bridge :=
  close 1012 DRAIN_REASON (try_send (OText drain_message) b).

(** ** A tunnel's bridges *)

(** [EntryState::record]: not the record of a deleted tunnel. *)
Definition live_record (t : Tunnel) : option StoredTunnel :=
  let* r := tn_record t in if is_deleted r then None else Some r.

Definition update_bridge (id : Z) (f : Bridge -> Bridge) (bs : list Bridge) : list Bridge :=
  map (fun b => if br_id b =? id then f b else b) bs.
Definition on_bridge (id : Z) (f : Bridge -> Bridge) (t : Tunnel) : Tunnel := set_bridges (update_bridge id f (tn_bridges t)) t.

Definition announce_attached (tunnel : string) (id : Z) (routes : list string) (now : Z) (t : Tunnel) : Tunnel :=
  set_mesh (Mesh.attached tunnel id routes now now <$> tn_mesh t) t.
Definition announce_detached (tunnel : string) (id now : Z) (t : Tunnel) : Tunnel :=
  set_mesh (Mesh.detached tunnel id now <$> tn_mesh t) t.

(** [register_bridge]: [id] is the next bridge number; [None] for a tunnel that is not there. *)
Definition register_bridge (id now : Z) (draining : option string) (t : Tunnel) : option Tunnel :=
  let* _ := live_record t in
  let b := mkBridge id now default_state ∅ [] 0 [] in
  let b := match draining with Some message => send_drain message b | None => b end in
  Some (set_bridges (tn_bridges t ++ [b]) t).

Definition stale_bridge (now : Z) (b : Bridge) : bool := is_attached b && (STALE_BRIDGE_MS <? sat_sub now (br_seen_at b)).

Definition retire (b : Bridge) : Bridge :=
  close 1001 "idle timeout" (finish_channels BridgeDisconnected (set_bstate (set_detached (br_state b)) b)).

(** [retire_stale]: the mesh hears of it under the record's name, if there is a record. *)
Fixpoint retire_loop (now : Z) (stale : list Z) (t : Tunnel) : Tunnel :=
  match stale with
  | [] => t
  | id :: stale' =>
      let t := on_bridge id retire t in
      let t := match tn_record t with Some r => announce_detached (st_id r) id now t | None => t end in
      retire_loop now stale' t
  end.

Definition retire_stale (now : Z) (t : Tunnel) : Tunnel :=
  retire_loop now (map br_id (filter (fun b => stale_bridge now b = true) (tn_bridges t))) t.

Inductive AttachError := BadToken | CertNotReady | InvalidRoute | TooManyRoutes | RouteConflict.

Section Attach.
(** [crypto::hash_token], and the profile of lower-casing that route names use. *)
Context (hash_token : string -> string).

(** The routes that the live bridges other than [except] hold. *)
Definition held_total (except : Z) (bs : list Bridge) : nat :=
  foldr (fun b n => (length (bs_routes (br_state b)) + n)%nat) 0%nat
    (filter (fun b => is_attached b = true /\ br_id b <> except) bs).

(** [attach], with the record as read and whether another machine answered that it holds one of the routes. *)
Definition attach (id : Z) (token : string) (routes : list string) (max_conns : option Z) (held_elsewhere : bool)
    (session : string) (now : Z) (t : Tunnel) : result string AttachError * Tunnel :=
  match live_record t with
  | None => (Err BadToken, t)
  | Some record =>
      if negb (String.eqb (hash_token token) (token_hash record)) then (Err BadToken, t)
      else if negb (certificate_ready record) then (Err CertNotReady, t)
      else if match routes with [] => true | _ => existsb (fun route => negb (Protocol.is_valid_route route)) routes end
      then (Err InvalidRoute, t)
      else
        let t := retire_stale now t in
        if (MAX_TUNNEL_ROUTES <? held_total id (tn_bridges t) + length routes)%nat then (Err TooManyRoutes, t)
        else if existsb (fun b => negb (br_id b =? id) && existsb (claims_route b) routes) (tn_bridges t)
        then (Err RouteConflict, t)
        else if match tn_mesh t with Some _ => held_elsewhere | None => false end then (Err RouteConflict, t)
        else
          let claim b :=
            touch now (set_bstate (mkBridgeState true (bs_detached (br_state b)) (Some session) routes max_conns now now
                                     (bs_server_close (br_state b))) b) in
          (Ok session, announce_attached (tn_id t) id routes now (on_bridge id claim t))
  end.
End Attach.

Inductive RouteResult :=
| ToBridge (bridge : Z) (conn : Z)
| Rejected (tunnel_exists : bool) (outcome : string).

(** The loop that picks a connection number: one that no bridge of the tunnel uses. *)
Fixpoint conn_loop (fuel : nat) (bs : list Bridge) (sequence : Z) : option (Z * Z) :=
  match fuel with
  | O => None
  | S fuel' =>
      let next := (sequence + 1) mod 2 ^ 32 in
      if negb (sequence =? 0) && negb (existsb (fun b => bool_decide (is_Some (br_channels b !! sequence))) bs)
      then Some (sequence, next)
      else conn_loop fuel' bs next
  end.

(** Every number tried and refused is 0 or a connection open now. *)
Definition conn_fuel (bs : list Bridge) : nat := S (S (foldr (fun b n => (size (br_channels b) + n)%nat) 0%nat bs)).

Definition route_of (sni hostname : string) : option string :=
  if String.eqb sni hostname then Some "@" else str_strip_suffix ("." +:+ hostname) sni.

Definition tunnel_conns (t : Tunnel) : Z := foldr (fun b n => br_visitors b + n) 0 (tn_bridges t).

(** [route] *)
Definition route (limits : BridgeLimits) (sni : string) (now : Z) (t : Tunnel) : option (RouteResult * Tunnel) :=
  match live_record t with
  | None => Some (Rejected false "no_bridge", t)
  | Some record =>
      let route := route_of sni (st_hostname record) in
      let t := retire_stale now t in
      let outcome :=
        if negb (certificate_ready record) then "certificate_not_ready"
        else match route with
             | None => "unknown_route"
             | Some route => if str_contains route "." then "unknown_route" else "no_bridge"
             end in
      let bridge := let* route := route in List.find (fun b => claims_route b route) (tn_bridges t) in
      match bridge, String.eqb outcome "no_bridge" with
      | Some b, true =>
          if (conn_limit (conns_per_bridge limits) b <=? br_visitors b) || (conns_per_tunnel limits <=? tunnel_conns t)
          then Some (Rejected true "too_many_connections", t)
          else
            let* (conn, next) := conn_loop (conn_fuel (tn_bridges t)) (tn_bridges t) (tn_sequence t) in
            let open b := set_channels (<[conn := mkFinish None false]> (br_channels b)) (br_finished b)
                            (set_visitors (br_visitors b + 1) b) in
            Some (ToBridge (br_id b) conn, on_bridge (br_id b) open (set_sequence next t))
      | _, _ => Some (Rejected true outcome, t)
      end
  end.

(** [bridge_closed]: the bridge leaves the entry; one that was live ends its connections, and is returned as it ends. *)
Definition end_bridge (b : Bridge) : Bridge := finish_channels BridgeDisconnected (set_bstate (set_detached (br_state b)) b).

Definition bridge_closed (id now : Z) (t : Tunnel) : option Bridge * Tunnel :=
  let ended := List.find (fun b => (br_id b =? id) && is_attached b) (tn_bridges t) in
  let t := set_bridges (filter (fun b => br_id b <> id) (tn_bridges t)) t in
  match ended with
  | Some b => (Some (end_bridge b), announce_detached (tn_id t) id now t)
  | None => (None, t)
  end.

(** What [remove] and [close_deleted] do to the bridges. *)
Definition close_bridges (t : Tunnel) : Tunnel :=
  set_bridges (map (fun b => close 1000 "deleted" (finish_channels Deleted b)) (tn_bridges t)) t.
Definition close_deleted (t : Tunnel) : bool * Tunnel :=
  (match tn_bridges t with [] => false | _ => true end, set_record None (close_bridges t)).

(** [held_routes]: asked by another machine's attach. *)
Definition held_routes (now : Z) (t : Tunnel) : list string * Tunnel :=
  match tn_bridges t with
  | [] => ([], t)
  | _ =>
      let t := retire_stale now t in
      (concat (map (fun b => bs_routes (br_state b))
         (filter (fun b => is_attached b = true /\ is_closing b = false) (tn_bridges t))), t)
  end.

(** The routes a client's message asks for: the base hostname without a list of them (legacy clients), each text of the
    list once otherwise ([None] in it is a value that is not text); too many are refused. *)
Fixpoint first_seen (seen l : list string) : list string :=
  match l with
  | [] => []
  | r :: l' => if str_in r seen then first_seen seen l' else r :: first_seen (r :: seen) l'
  end.

Definition requested_routes (routes : option (list (option string))) : option (list string) :=
  match routes with
  | Some values => if (MAX_ROUTES <? length values)%nat then None else Some (first_seen [] (omap id values))
  | None => Some ["@"]
  end.

(** A connection leaves its bridge: the client ended or reset it, its visitor failed, or it does not keep up. *)
Definition end_conn (outcome : Outcome) (abort : bool) (conn : Z) (b : Bridge) : Bridge :=
  match br_channels b !! conn with
  | None => b
  | Some f => set_channels (delete conn (br_channels b)) (br_finished b ++ [(conn, finish outcome abort f)]) b
  end.

(** [handle_control] for [end] and [reset] *)
Definition handle_control (id : Z) (reset : bool) (conn : Z) (t : Tunnel) : Tunnel :=
  on_bridge id (if reset then end_conn Reset true conn else end_conn Closed false conn) t.

(** [reset] of [bridge.rs], for a visitor that does not keep up: the client is told. *)
Definition reset_conn (message : string) (id conn : Z) (t : Tunnel) : Tunnel :=
  on_bridge id (fun b => send (OText message) (end_conn Backpressure true conn b)) t.

(** The relay: a visitor's socket that fails or stays quiet, and the end of both its directions, which also gives its
    slot back. *)
Definition visitor_failed (message : string) (id conn : Z) (t : Tunnel) : Tunnel :=
  on_bridge id (fun b => try_send (OText message) (end_conn ClientError true conn b)) t.
Definition visitor_done (id conn : Z) (t : Tunnel) : Tunnel :=
  on_bridge id (fun b => let b := end_conn Closed false conn b in set_visitors (br_visitors b - 1) b) t.

(** ** Invariants *)

Definition routes_of (b : Bridge) : list string := bs_routes (br_state b).
Definition route_total (bs : list Bridge) : nat :=
  foldr (fun b n => (if is_attached b then length (routes_of b) + n else n)%nat) 0%nat bs.
Definition visitor_total (bs : list Bridge) : Z := foldr (fun b n => br_visitors b + n) 0 bs.

(** A connection's slot: its bridge and its number, held from routing until both its directions ended. *)
Definition slot_count (slots : list (Z * Z)) (id : Z) : nat := length (filter (fun s => s.1 = id) slots).

Lemma slot_count_fresh slots id : (forall s, s ∈ slots -> s.1 < id) -> slot_count slots id = 0%nat.
Proof.
  unfold slot_count. induction slots as [|s slots IH]; intros H; [done|]. rewrite filter_cons, decide_False.
  - apply IH. intros x Hx. apply H. by right.
  - specialize (H s ltac:(left)). lia.
Qed.

(** [next] is the number the next bridge gets. *)
Record bridges_ok (limits : BridgeLimits) (slots : list (Z * Z)) (next : Z) (bs : list Bridge) : Prop := mkBridgesOk {
  ok_ids : NoDup (map br_id bs);
  ok_fresh b : b ∈ bs -> br_id b < next;
  ok_fresh_slots s : s ∈ slots -> s.1 < next;
  ok_exclusive b1 b2 r : b1 ∈ bs -> b2 ∈ bs -> claims_route b1 r = true -> claims_route b2 r = true -> br_id b1 = br_id b2;
  ok_routes : (route_total bs <= MAX_TUNNEL_ROUTES)%nat;
  ok_conns b c : b ∈ bs -> is_Some (br_channels b !! c) -> 0 < c < 2 ^ 32;
  ok_unique b1 b2 c : b1 ∈ bs -> b2 ∈ bs -> is_Some (br_channels b1 !! c) -> is_Some (br_channels b2 !! c) -> br_id b1 = br_id b2;
  ok_open b c : b ∈ bs -> is_Some (br_channels b !! c) -> (br_id b, c) ∈ slots;
  ok_slots b : b ∈ bs -> br_visitors b = Z.of_nat (slot_count slots (br_id b));
  ok_visitors b : b ∈ bs -> br_visitors b <= conns_per_bridge limits;
  ok_total : visitor_total bs <= conns_per_tunnel limits;
}.

(** A bridge that gave something up. *)
Record shrinks (b b' : Bridge) : Prop := mkShrinks {
  sh_id : br_id b' = br_id b;
  sh_live : is_attached b' = true -> is_attached b = true /\ routes_of b' = routes_of b /\
      bs_attached_at (br_state b') = bs_attached_at (br_state b);
  sh_channels c : is_Some (br_channels b' !! c) -> is_Some (br_channels b !! c);
  sh_visitors : br_visitors b' = br_visitors b;
}.

Ltac solve_shrinks := split; cbn; intros; auto; try lia.

Lemma shrinks_refl b : shrinks b b.
Proof. solve_shrinks. Qed.

Lemma shrinks_trans b1 b2 b3 : shrinks b1 b2 -> shrinks b2 b3 -> shrinks b1 b3.
Proof.
  intros [A1 A2 A3 A4] [B1 B2 B3 B4]. split; [congruence| |auto|congruence].
  intros H. destruct (B2 H) as (H2 & E1 & E2). destruct (A2 H2) as (H3 & E3 & E4). split_and!; [done|congruence|congruence].
Qed.

Lemma shrinks_try_send m b : shrinks b (try_send m b).
Proof. unfold try_send. case_split; [|apply shrinks_refl]. solve_shrinks. Qed.

Lemma shrinks_close code reason b : shrinks b (close code reason b).
Proof. unfold close. eapply shrinks_trans; [|apply shrinks_try_send]. solve_shrinks. Qed.

Lemma shrinks_finish outcome b : shrinks b (finish_channels outcome b).
Proof. solve_shrinks. by destruct H as [? H]; rewrite lookup_empty in H. Qed.

Lemma shrinks_detached b : shrinks b (set_bstate (set_detached (br_state b)) b).
Proof. solve_shrinks. unfold is_attached in H. cbn in H. by rewrite andb_false_r in H. Qed.

Lemma shrinks_retire b : shrinks b (retire b).
Proof.
  unfold retire. eapply shrinks_trans; [|apply shrinks_close]. eapply shrinks_trans; [|apply shrinks_finish].
  apply shrinks_detached.
Qed.

Lemma retire_detached b : is_attached (retire b) = false.
Proof. unfold retire, close, try_send, is_attached. case_split; cbn; apply andb_false_r. Qed.

Lemma shrinks_end_conn outcome abort conn b : shrinks b (end_conn outcome abort conn b).
Proof.
  unfold end_conn. destruct (br_channels b !! conn) eqn:E; [|apply shrinks_refl]. solve_shrinks.
  destruct H as [f' Hc]. apply lookup_delete_Some in Hc as [_ Hc]. eauto.
Qed.

Lemma shrinks_touch now b : shrinks b (touch now b).
Proof. solve_shrinks. Qed.

Lemma shrinks_deleted b : shrinks b (close 1000 "deleted" (finish_channels Deleted b)).
Proof. eapply shrinks_trans; [apply shrinks_finish|apply shrinks_close]. Qed.

Lemma shrinks_claims b b' r : shrinks b b' -> claims_route b' r = true -> claims_route b r = true.
Proof.
  intros [_ H _ _]. unfold claims_route. intros Hc. bsimp. destruct (H ltac:(done)) as (K1 & K2 & _). unfold routes_of in *.
  rewrite K2 in *. by apply andb_true_intro.
Qed.

Lemma shrinks_visitors bs bs' : Forall2 shrinks bs bs' -> visitor_total bs' = visitor_total bs.
Proof. unfold visitor_total. induction 1 as [|b b' bs bs' Hb _ IH]; cbn [foldr]; [done|]. by rewrite IH, (sh_visitors _ _ Hb). Qed.

Lemma shrinks_ids bs bs' : Forall2 shrinks bs bs' -> map br_id bs' = map br_id bs.
Proof. induction 1 as [|b b' bs bs' Hb _ IH]; cbn; [done|]. by rewrite IH, (sh_id _ _ Hb). Qed.

Lemma shrinks_routes bs bs' : Forall2 shrinks bs bs' -> (route_total bs' <= route_total bs)%nat.
Proof.
  unfold route_total. induction 1 as [|b b' bs bs' Hb _ IH]; cbn [foldr]; [done|]. destruct (is_attached b') eqn:E.
  - destruct (sh_live _ _ Hb E) as (-> & -> & _). lia.
  - destruct (is_attached b); lia.
Qed.

Lemma shrinks_in bs bs' b' : Forall2 shrinks bs bs' -> b' ∈ bs' -> exists b, b ∈ bs /\ shrinks b b'.
Proof.
  intros Hs Hb'. apply list_elem_of_lookup_1 in Hb' as [i Hi]. destruct (Forall2_lookup_r _ _ _ _ _ Hs Hi) as (b & Hb & Hsh).
  exists b. split; [by eapply list_elem_of_lookup_2|done].
Qed.

(** Bridges that only gave something up keep the invariant. *)
Lemma ok_shrink limits slots next bs bs' :
  Forall2 shrinks bs bs' -> bridges_ok limits slots next bs -> bridges_ok limits slots next bs'.
Proof.
  intros Hs [H1 HF HS H2 H3 H4 H5 HO HN H6 H7].
  assert (forall b', b' ∈ bs' -> exists b, b ∈ bs /\ shrinks b b') as Hin by (intros; by eapply shrinks_in).
  split.
  - by rewrite (shrinks_ids _ _ Hs).
  - intros b (b0 & Hb0 & S0)%Hin. rewrite (sh_id _ _ S0). auto.
  - auto.
  - intros b1 b2 r (c1 & Hc1 & S1)%Hin (c2 & Hc2 & S2)%Hin Hr1 Hr2.
    rewrite (sh_id _ _ S1), (sh_id _ _ S2). eapply H2; [done|done|by eapply shrinks_claims|by eapply shrinks_claims].
  - etransitivity; [by apply shrinks_routes|done].
  - intros b c (b0 & Hb0 & S0)%Hin Hc. eapply H4; [done|]. by eapply sh_channels.
  - intros b1 b2 c (c1 & Hc1 & S1)%Hin (c2 & Hc2 & S2)%Hin Hr1 Hr2.
    rewrite (sh_id _ _ S1), (sh_id _ _ S2). eapply H5; [done|done|by eapply sh_channels|by eapply sh_channels].
  - intros b c (b0 & Hb0 & S0)%Hin Hc. rewrite (sh_id _ _ S0). apply HO; [done|]. by eapply sh_channels.
  - intros b (b0 & Hb0 & S0)%Hin. rewrite (sh_id _ _ S0), (sh_visitors _ _ S0). auto.
  - intros b (b0 & Hb0 & S0)%Hin. rewrite (sh_visitors _ _ S0). auto.
  - by rewrite (shrinks_visitors _ _ Hs).
Qed.

Lemma update_bridge_shrinks id f bs : (forall b, shrinks b (f b)) -> Forall2 shrinks bs (update_bridge id f bs).
Proof.
  intros Hf. induction bs as [|b bs IH]; cbn; constructor; [|done]. case_split; [apply Hf|apply shrinks_refl].
Qed.

Lemma shrinks_refl_list bs : Forall2 shrinks bs bs.
Proof. induction bs; constructor; auto using shrinks_refl. Qed.

Lemma shrinks_trans_list bs1 bs2 bs3 : Forall2 shrinks bs1 bs2 -> Forall2 shrinks bs2 bs3 -> Forall2 shrinks bs1 bs3.
Proof.
  intros H. revert bs3. induction H; intros bs3 H3; inversion H3; subst; constructor; eauto using shrinks_trans.
Qed.

Lemma map_shrinks f bs : (forall b, shrinks b (f b)) -> Forall2 shrinks bs (map f bs).
Proof. intros Hf. induction bs as [|b bs IH]; cbn; constructor; auto. Qed.

(** Removing bridges. *)
Lemma ok_filter limits slots next (P : Bridge -> Prop) `{forall b, Decision (P b)} bs :
  bridges_ok limits slots next bs -> bridges_ok limits slots next (filter P bs).
Proof.
  intros [H1 HF HS H2 H3 H4 H5 HO HN H6 H7].
  assert (forall b, b ∈ filter P bs -> b ∈ bs) as Hin by (intros b Hb; apply list_elem_of_filter in Hb; tauto).
  split; eauto.
  - clear -H1. induction bs as [|b bs IH]; [constructor|]. cbn in H1. apply NoDup_cons in H1 as [Hn Hnd]. rewrite filter_cons.
    case_decide; [|auto]. cbn. constructor; [|auto]. intros Hb. apply Hn. apply list_elem_of_fmap in Hb as (x & -> & Hx).
    apply list_elem_of_filter in Hx as [_ Hx]. by apply list_elem_of_fmap_2.
  - etransitivity; [|exact H3]. clear. induction bs as [|b bs IH]; [done|]. rewrite filter_cons.
    unfold route_total in *. case_decide; cbn [foldr]; destruct (is_attached b); lia.
  - etransitivity; [|exact H7]. clear -HN. induction bs as [|b bs IH]; [done|]. rewrite filter_cons.
    specialize (IH ltac:(intros; apply HN; by right)). pose proof (HN b ltac:(left)). unfold visitor_total in *.
    case_decide; cbn [foldr]; lia.
Qed.

(** A bridge that registers. *)
Lemma ok_register limits slots next bs b :
  bridges_ok limits slots next bs -> 0 <= conns_per_bridge limits -> br_id b = next -> is_attached b = false ->
  br_channels b = ∅ -> br_visitors b = 0 -> bridges_ok limits slots (next + 1) (bs ++ [b]).
Proof.
  intros [H1 HF HS H2 H3 H4 H5 HO HN H6 H7] Hl Hid Ha Hc Hv.
  assert (forall r, claims_route b r = false) as Hcl by (intros r; unfold claims_route; by rewrite Ha).
  assert (forall c, ~ is_Some (br_channels b !! c)) as Hch by (intros c; rewrite Hc, lookup_empty; by intros [? [=]]).
  split.
  - rewrite map_app. apply NoDup_app. split_and!; [done| |apply NoDup_singleton]. intros x Hx Hx'.
    apply list_elem_of_singleton in Hx' as ->. apply list_elem_of_fmap in Hx as (b0 & Hx & Hb0). apply HF in Hb0. lia.
  - intros b'. rewrite elem_of_app, list_elem_of_singleton. intros [Hb'| ->]; [apply HF in Hb'|]; lia.
  - intros x Hx. apply HS in Hx. lia.
  - intros b1 b2 r. rewrite !elem_of_app, !list_elem_of_singleton. intros [?| ->] [?| ->] E1 E2; try (by rewrite Hcl in * ). eauto.
  - unfold route_total. rewrite foldr_app. cbn. rewrite Ha. exact H3.
  - intros b' c. rewrite elem_of_app, list_elem_of_singleton. intros [?| ->] ?; [eauto|by destruct (Hch c)].
  - intros b1 b2 c. rewrite !elem_of_app, !list_elem_of_singleton. intros [?| ->] [?| ->] E1 E2;
      [eauto|by destruct (Hch c)|by destruct (Hch c)|done].
  - intros b' c. rewrite elem_of_app, list_elem_of_singleton. intros [?| ->] ?; [eauto|by destruct (Hch c)].
  - intros b'. rewrite elem_of_app, list_elem_of_singleton. intros [?| ->]; [auto|]. rewrite Hv, slot_count_fresh; [done|].
    intros x Hx. apply HS in Hx. lia.
  - intros b'. rewrite elem_of_app, list_elem_of_singleton. intros [?| ->]; [eauto|lia].
  - unfold visitor_total. rewrite foldr_app. cbn. rewrite Hv. exact H7.
Qed.

(** *** Retiring *)

Lemma retire_loop_facts now stale : forall t,
  let t' := retire_loop now stale t in
  tn_id t' = tn_id t /\ tn_record t' = tn_record t /\ tn_sequence t' = tn_sequence t /\
  Forall2 shrinks (tn_bridges t) (tn_bridges t') /\ (tn_mesh t' = None <-> tn_mesh t = None).
Proof.
  induction stale as [|id stale IH]; intros t; cbn [retire_loop].
  - split_and!; try done. apply shrinks_refl_list.
  - set (t1 := match tn_record _ with Some _ => _ | None => _ end).
    assert (tn_id t1 = tn_id t /\ tn_record t1 = tn_record t /\ tn_sequence t1 = tn_sequence t /\
      tn_bridges t1 = update_bridge id retire (tn_bridges t) /\ (tn_mesh t1 = None <-> tn_mesh t = None)) as (E1 & E2 & E3 & E4 & E5).
    { unfold t1. cbn [on_bridge set_bridges tn_record]. destruct (tn_record t) eqn:Er; cbn; split_and!; try done. by destruct (tn_mesh t). }
    destruct (IH t1) as (F1 & F2 & F3 & F4 & F5). split_and!; [congruence|congruence|congruence| |by rewrite F5].
    rewrite E4 in F4. eapply shrinks_trans_list; [apply update_bridge_shrinks, shrinks_retire|exact F4].
Qed.

Lemma retire_stale_facts now t :
  let t' := retire_stale now t in
  tn_id t' = tn_id t /\ tn_record t' = tn_record t /\ tn_sequence t' = tn_sequence t /\
  Forall2 shrinks (tn_bridges t) (tn_bridges t') /\ (tn_mesh t' = None <-> tn_mesh t = None).
Proof. apply retire_loop_facts. Qed.

(** *** What the mesh is told *)

Definition mesh_live (tunnel : string) (bs : list Bridge) (es : gmap Z Entry) : Prop :=
  (forall b, b ∈ bs -> is_attached b = true ->
     es !! br_id b = Some (mkEntry tunnel (br_id b) (routes_of b) (bs_attached_at (br_state b)))) /\
  (forall id e, es !! id = Some e -> en_tunnel e = tunnel -> exists b, b ∈ bs /\ is_attached b = true /\ br_id b = id).

Definition mesh_ok (t : Tunnel) : Prop := forall m, tn_mesh t = Some m -> mesh_live (tn_id t) (tn_bridges t) (lo_entries m).

Lemma detached_entries tunnel b now l : lo_entries (Mesh.detached tunnel b now l) = delete b (lo_entries l).
Proof.
  unfold Mesh.detached. destruct (lo_entries l !! b) eqn:E; [done|]. symmetry. by apply delete_id.
Qed.

Lemma elem_update_bridge id f bs b :
  b ∈ update_bridge id f bs <-> exists b0, b0 ∈ bs /\ b = if br_id b0 =? id then f b0 else b0.
Proof.
  unfold update_bridge. change (map ?g bs) with (g <$> bs). rewrite list_elem_of_fmap. naive_solver.
Qed.

Lemma mesh_live_detach tunnel bs bs' es id :
  mesh_live tunnel bs es ->
  (forall b, b ∈ bs' -> is_attached b = true -> br_id b <> id /\ b ∈ bs) ->
  (forall b, b ∈ bs -> is_attached b = true -> br_id b <> id -> b ∈ bs') ->
  mesh_live tunnel bs' (delete id es).
Proof.
  intros [H1 H2] Ha Hb. split.
  - intros b Hin Hl. destruct (Ha b Hin Hl) as [Hne Hin']. rewrite lookup_delete_ne by done. auto.
  - intros id' e Hl Ht. apply lookup_delete_Some in Hl as [Hne Hl]. destruct (H2 id' e Hl Ht) as (b & Hin & Hlv & <-).
    exists b. split_and!; auto.
Qed.

Lemma mesh_retire t id now r :
  tn_record t = Some r -> st_id r = tn_id t -> mesh_ok t ->
  mesh_ok (announce_detached (st_id r) id now (on_bridge id retire t)).
Proof.
  intros Hr Hid Hm m Em. cbn in Em. destruct (tn_mesh t) as [m0|] eqn:E0; [|done]. injection Em as <-.
  rewrite detached_entries. cbn. eapply mesh_live_detach; [by apply Hm| |].
  - intros b Hb Hl. apply elem_update_bridge in Hb as (b0 & Hb0 & ->). case_split; bsimp; [by rewrite retire_detached in Hl|done].
  - intros b Hb Hl Hne. apply elem_update_bridge. exists b. split; [done|]. by rewrite (proj2 (Z.eqb_neq _ _)).
Qed.

Definition record_ok (t : Tunnel) : Prop := forall r, tn_record t = Some r -> st_id r = tn_id t.

Lemma mesh_retire_stale now t : record_ok t -> tn_record t <> None -> mesh_ok t -> mesh_ok (retire_stale now t).
Proof.
  unfold retire_stale. generalize (map br_id (filter (fun b => stale_bridge now b = true) (tn_bridges t))) as stale.
  intros stale. revert t. induction stale as [|id stale IH]; intros t Hr Hn Hm; [done|]. cbn [retire_loop].
  cbn [on_bridge set_bridges tn_record]. destruct (tn_record t) as [r|] eqn:E; [|done].
  apply IH.
  - intros r'. cbn. auto.
  - cbn. congruence.
  - eapply mesh_retire; eauto.
Qed.

(** Bridges that gave something up but not their claims. *)
Lemma mesh_live_keep tunnel bs bs' es :
  Forall2 (fun b b' => br_id b' = br_id b /\ is_attached b' = is_attached b /\ routes_of b' = routes_of b /\
                       bs_attached_at (br_state b') = bs_attached_at (br_state b)) bs bs' ->
  mesh_live tunnel bs es -> mesh_live tunnel bs' es.
Proof.
  intros Hf [H1 H2]. split.
  - intros b' Hin Hl. apply list_elem_of_lookup_1 in Hin as [i Hi].
    destruct (Forall2_lookup_r _ _ _ _ _ Hf Hi) as (b & Hb & E1 & E2 & E3 & E4). apply list_elem_of_lookup_2 in Hb.
    rewrite E1, E3, E4. apply H1; [done|congruence].
  - intros id e Hl Ht. destruct (H2 id e Hl Ht) as (b & Hin & Hlv & <-). apply list_elem_of_lookup_1 in Hin as [i Hi].
    destruct (Forall2_lookup_l _ _ _ _ _ Hf Hi) as (b' & Hb' & E1 & E2 & _). apply list_elem_of_lookup_2 in Hb'.
    exists b'. split_and!; [done|congruence|done].
Qed.

(** *** Connection numbers *)

Definition in_use (bs : list Bridge) (c : Z) : bool := existsb (fun b => bool_decide (is_Some (br_channels b !! c))) bs.

Lemma in_use_true bs c : in_use bs c = true <-> exists b, b ∈ bs /\ is_Some (br_channels b !! c).
Proof.
  unfold in_use. rewrite existsb_exists. setoid_rewrite <- list_elem_of_In. setoid_rewrite bool_decide_eq_true. done.
Qed.

Lemma conn_loop_Some fuel bs : forall sequence c next,
  conn_loop fuel bs sequence = Some (c, next) -> 0 <= sequence < 2 ^ 32 ->
  0 < c < 2 ^ 32 /\ 0 <= next < 2 ^ 32 /\ in_use bs c = false.
Proof.
  induction fuel as [|fuel IH]; intros sequence c next; cbn [conn_loop]; [done|]. fold (in_use bs sequence).
  pose proof (Z.mod_pos_bound (sequence + 1) (2 ^ 32) ltac:(lia)). case_split.
  - intros [= <- <-] Hs. bsimp. split_and!; try lia. done.
  - intros Hc _. by apply IH in Hc.
Qed.

(** The numbers tried and refused. *)
Lemma conn_loop_None fuel bs : forall sequence,
  conn_loop fuel bs sequence = None -> 0 <= sequence < 2 ^ 32 ->
  forall i, (i < fuel)%nat -> let c := (sequence + Z.of_nat i) mod 2 ^ 32 in c = 0 \/ in_use bs c = true.
Proof.
  induction fuel as [|fuel IH]; intros sequence; cbn [conn_loop]; [intros; lia|]. fold (in_use bs sequence).
  case_split; [done|]. intros Hn Hs i Hi. destruct i as [|i].
  - cbv zeta. rewrite Z.add_0_r, Z.mod_small by lia. apply andb_false_iff in E as [E|E]; bsimp; auto.
  - specialize (IH _ Hn (Z.mod_pos_bound (sequence + 1) (2 ^ 32) ltac:(lia)) i ltac:(lia)). cbv zeta in *.
    rewrite Zplus_mod_idemp_l in IH. by replace (sequence + Z.of_nat (S i)) with (sequence + 1 + Z.of_nat i) by lia.
Qed.

Definition channel_total (bs : list Bridge) : nat := foldr (fun b n => (size (br_channels b) + n)%nat) 0%nat bs.

Definition used_numbers (bs : list Bridge) : list Z := concat (map (fun b => map fst (map_to_list (br_channels b))) bs).

Lemma length_used_numbers bs : length (used_numbers bs) = channel_total bs.
Proof.
  unfold used_numbers, channel_total. induction bs as [|b bs IH]; [done|]. cbn [map concat foldr].
  rewrite length_app, IH, length_map. by rewrite length_map_to_list.
Qed.

Lemma in_use_numbers bs c : in_use bs c = true -> In c (used_numbers bs).
Proof.
  intros (b & Hb & [f Hf])%in_use_true. unfold used_numbers. apply in_concat.
  exists (map fst (map_to_list (br_channels b))). split; [apply in_map_iff; exists b; split; [done|by apply list_elem_of_In]|].
  apply in_map_iff. exists (c, f). split; [done|]. by apply list_elem_of_In, elem_of_map_to_list.
Qed.

(** A number is found before every one in use was tried. *)
Lemma conn_loop_total bs sequence :
  0 <= sequence < 2 ^ 32 -> Z.of_nat (channel_total bs) + 2 <= 2 ^ 32 ->
  exists c next, conn_loop (conn_fuel bs) bs sequence = Some (c, next).
Proof.
  intros Hs Hsmall. destruct (conn_loop (conn_fuel bs) bs sequence) as [[c next]|] eqn:E; [eauto|]. exfalso.
  unfold conn_fuel in E. fold (channel_total bs) in E. set (fuel := S (S (channel_total bs))) in *.
  pose proof (conn_loop_None _ _ _ E Hs) as Hall.
  assert (List.NoDup (map (fun i => (sequence + Z.of_nat i) mod 2 ^ 32) (seq 0 fuel))) as Hnd.
  { apply NoDup_ListNoDup, NoDup_fmap_2_strong; [|apply NoDup_seq]. intros i j Hi%elem_of_seq Hj%elem_of_seq Hij. cbv beta in Hij.
    assert (Z.of_nat i < 2 ^ 32 /\ Z.of_nat j < 2 ^ 32) as [Hi2 Hj2] by (unfold fuel in *; lia).
    Z.to_euclidean_division_equations. lia. }
  assert (incl (map (fun i => (sequence + Z.of_nat i) mod 2 ^ 32) (seq 0 fuel)) (0 :: used_numbers bs)) as Hincl.
  { intros c Hc. apply in_map_iff in Hc as (i & <- & Hi%in_seq). destruct (Hall i ltac:(lia)) as [H0|H0]; [by left|right].
    by apply in_use_numbers. }
  pose proof (NoDup_incl_length Hnd Hincl) as Hlen. rewrite length_map, length_seq in Hlen. cbn [length] in Hlen.
  rewrite length_used_numbers in Hlen. unfold fuel in Hlen. lia.
Qed.

(** *** Attaching *)

Lemma first_seen_spec l : forall seen,
  NoDup (first_seen seen l) /\ forall r, r ∈ first_seen seen l <-> r ∈ l /\ r ∉ seen.
Proof.
  induction l as [|r l IH]; intros seen; cbn; [split; [constructor|set_solver]|]. case_split.
  - apply str_in_true, list_elem_of_In in E. destruct (IH seen) as [Hnd Hin]. split; [done|]. set_solver.
  - destruct (IH (r :: seen)) as [Hnd Hin].
    assert (r ∉ seen) as Hr by (intros Hr%list_elem_of_In%str_in_true; congruence).
    split; [constructor; [rewrite Hin; set_solver|done]|]. intros x. rewrite elem_of_cons, Hin.
    destruct (decide (x = r)) as [->|]; set_solver.
Qed.

(** What a client claims once: each route it named, in at most 128. *)
Lemma requested_routes_spec values routes :
  requested_routes (Some values) = Some routes ->
  NoDup routes /\ (length routes <= MAX_ROUTES)%nat /\ forall r, r ∈ routes <-> Some r ∈ values.
Proof.
  unfold requested_routes. case_split; [done|]. apply Nat.ltb_ge in E. intros [= <-]. destruct (first_seen_spec (omap id values) []) as [Hnd Hin].
  assert (forall r, r ∈ omap id values <-> Some r ∈ values) as Ho.
  { intros r. rewrite list_elem_of_omap. unfold id. naive_solver. }
  split_and!; [done| |].
  - etransitivity; [|exact E]. etransitivity; [apply submseteq_length, (NoDup_submseteq _ (omap id values)); [done|]|].
    + intros x. rewrite Hin. tauto.
    + clear. induction values as [|[x|] values IH]; cbn; lia.
  - intros r. rewrite Hin, Ho. set_solver.
Qed.

Lemma update_bridge_id id f bs : (forall b, br_id (f b) = br_id b) -> map br_id (update_bridge id f bs) = map br_id bs.
Proof. intros Hf. unfold update_bridge. rewrite map_map. apply map_ext. intros b. by case_split; rewrite ?Hf. Qed.

Lemma update_bridge_cons id f b bs :
  update_bridge id f (b :: bs) = (if br_id b =? id then f b else b) :: update_bridge id f bs.
Proof. done. Qed.

Lemma update_bridge_notin id f bs : id ∉ map br_id bs -> update_bridge id f bs = bs.
Proof.
  unfold update_bridge. induction bs as [|b bs IH]; [done|]. cbn. rewrite not_elem_of_cons. intros [Hn Hb]. rewrite IH by done.
  by rewrite (proj2 (Z.eqb_neq _ _)).
Qed.

Lemma held_total_notin id bs : id ∉ map br_id bs -> held_total id bs = route_total bs.
Proof.
  unfold held_total, route_total. induction bs as [|b bs IH]; [done|]. cbn [map]. rewrite not_elem_of_cons. intros [Hn Hb].
  rewrite filter_cons. cbn [foldr]. specialize (IH Hb). destruct (is_attached b) eqn:E.
  - rewrite decide_True by auto. cbn [foldr]. unfold routes_of in *. lia.
  - rewrite decide_False by naive_solver. done.
Qed.

Lemma route_total_claim id routes f bs :
  NoDup (map br_id bs) -> (forall b, routes_of (f b) = routes) ->
  (route_total (update_bridge id f bs) <= held_total id bs + length routes)%nat.
Proof.
  intros Hnd Hf. induction bs as [|b bs IH]; [cbn; lia|]. cbn in Hnd. apply NoDup_cons in Hnd as [Hn Hnd].
  rewrite update_bridge_cons. unfold held_total. rewrite filter_cons. destruct (Z.eqb_spec (br_id b) id) as [<-|E].
  - rewrite decide_False by naive_solver. rewrite update_bridge_notin by done. fold (held_total (br_id b) bs).
    rewrite held_total_notin by done.
    unfold route_total. cbn [foldr]. rewrite Hf. case_split; lia.
  - specialize (IH Hnd). unfold route_total, held_total, routes_of in *. cbn [foldr]. destruct (is_attached b) eqn:Ea.
    + rewrite decide_True by done. cbn [foldr]. lia.
    + rewrite decide_False by naive_solver. done.
Qed.

(** A bridge that claims routes nobody else claims. *)
Lemma ok_claim limits slots next bs id routes f :
  bridges_ok limits slots next bs ->
  (held_total id bs + length routes <= MAX_TUNNEL_ROUTES)%nat ->
  (forall b r, b ∈ bs -> br_id b <> id -> In r routes -> claims_route b r = false) ->
  (forall b, br_id (f b) = br_id b /\ routes_of (f b) = routes /\ br_channels (f b) = br_channels b /\
             br_visitors (f b) = br_visitors b) ->
  bridges_ok limits slots next (update_bridge id f bs).
Proof.
  intros [H1 HF HS H2 H3 H4 H5 HO HN H6 H7] Hroom Hfree Hf.
  assert (forall b, b ∈ update_bridge id f bs -> exists b0, b0 ∈ bs /\ br_id b = br_id b0 /\ br_channels b = br_channels b0 /\
            br_visitors b = br_visitors b0 /\ (b = b0 /\ br_id b0 <> id \/ routes_of b = routes /\ br_id b0 = id)) as Hin.
  { intros b Hb. apply elem_update_bridge in Hb as (b0 & Hb0 & ->). exists b0. destruct (Hf b0) as (E1 & E2 & E3 & E4).
    case_split; bsimp; auto 10. }
  split.
  - rewrite update_bridge_id; [done|]. intros b. apply Hf.
  - intros b (b0 & Hb0 & -> & _)%Hin. auto.
  - auto.
  - intros b1 b2 r (c1 & Hc1 & E1 & _ & _ & [[-> K1]|[Kr1 K1]])%Hin (c2 & Hc2 & E2 & _ & _ & [[-> K2]|[Kr2 K2]])%Hin Hr1 Hr2.
    + eauto.
    + exfalso. unfold claims_route in Hr2. bsimp. unfold routes_of in Kr2. rewrite Kr2 in *.
      assert (In r routes) as Hr by (by apply str_in_true). by rewrite (Hfree c1 r) in Hr1.
    + exfalso. unfold claims_route in Hr1. bsimp. unfold routes_of in Kr1. rewrite Kr1 in *.
      assert (In r routes) as Hr by (by apply str_in_true). by rewrite (Hfree c2 r) in Hr2.
    + congruence.
  - etransitivity; [apply route_total_claim; [done|]|done]. intros b. apply Hf.
  - intros b c (b0 & Hb0 & _ & -> & _)%Hin. eauto.
  - intros b1 b2 c (c1 & Hc1 & -> & -> & _)%Hin (c2 & Hc2 & -> & -> & _)%Hin. eauto.
  - intros b c (b0 & Hb0 & -> & -> & _)%Hin. eauto.
  - intros b (b0 & Hb0 & -> & _ & -> & _)%Hin. auto.
  - intros b (b0 & Hb0 & _ & _ & -> & _)%Hin. auto.
  - etransitivity; [|exact H7]. apply Z.eq_le_incl. clear -Hf. unfold visitor_total.
    induction bs as [|b bs IH]; [done|]. rewrite update_bridge_cons. cbn [foldr]. rewrite IH.
    destruct (Hf b) as (_ & _ & _ & E). case_split; lia.
Qed.

Lemma ok_retire_stale limits slots next now t :
  bridges_ok limits slots next (tn_bridges t) -> bridges_ok limits slots next (tn_bridges (retire_stale now t)).
Proof. destruct (retire_stale_facts now t) as (_ & _ & _ & Hs & _). by apply ok_shrink. Qed.

Definition claim (session : string) (routes : list string) (max_conns : option Z) (now : Z) (b : Bridge) : Bridge :=
  touch now (set_bstate (mkBridgeState true (bs_detached (br_state b)) (Some session) routes max_conns now now
                           (bs_server_close (br_state b))) b).

(** What an attach leaves: the tunnel as it was, the silent bridges retired, or the routes claimed. *)
Lemma attach_cases hash_token id token routes max_conns held_elsewhere session now t res t' :
  attach hash_token id token routes max_conns held_elsewhere session now t = (res, t') ->
  (exists e, res = Err e) /\ (t' = t \/ t' = retire_stale now t /\ live_record t <> None) \/
  exists record, res = Ok session /\ live_record t = Some record /\ hash_token token = token_hash record /\
    certificate_ready record = true /\ routes <> [] /\ Forall (fun r => Protocol.is_valid_route r = true) routes /\
    (held_total id (tn_bridges (retire_stale now t)) + length routes <= MAX_TUNNEL_ROUTES)%nat /\
    (forall b r, b ∈ tn_bridges (retire_stale now t) -> br_id b <> id -> In r routes -> claims_route b r = false) /\
    (tn_mesh t <> None -> held_elsewhere = false) /\
    t' = announce_attached (tn_id t) id routes now (on_bridge id (claim session routes max_conns now) (retire_stale now t)).
Proof.
  unfold attach. destruct (live_record t) as [record|] eqn:El; [|intros [= <- <-]; eauto].
  case_split; [intros [= <- <-]; eauto|]. case_split; [intros [= <- <-]; eauto|]. case_split; [intros [= <- <-]; eauto|].
  destruct (retire_stale_facts now t) as (Fid & Frec & _ & _ & Fm). set (t1 := retire_stale now t) in *.
  assert (Some record <> None) as Hl by done.
  case_split; [intros [= <- <-]; eauto 6|]. case_split; [intros [= <- <-]; eauto 6|].
  case_split; [intros [= <- <-]; eauto 6|]. intros [= <- <-]. right. exists record. rewrite Fid. bsimp.
  split_and!; try done.
  - by apply String.eqb_eq.
  - by intros ->.
  - apply Forall_forall. intros r Hr%list_elem_of_In. destruct routes; [done|]. by apply negb_false_iff, (existsb_false _ _ _ E1).
  - intros b r Hb%list_elem_of_In Hne Hr. pose proof (existsb_false _ _ _ E3 Hb) as Hb'. cbv beta in Hb'.
    rewrite (proj2 (Z.eqb_neq _ _) Hne) in Hb'. by apply (existsb_false _ _ _ Hb').
  - intros Hm. destruct (tn_mesh t1); [done|]. by destruct Hm, Fm; auto.
Qed.

Lemma ok_attach hash_token limits slots next id token routes max_conns held_elsewhere session now t res t' :
  attach hash_token id token routes max_conns held_elsewhere session now t = (res, t') ->
  bridges_ok limits slots next (tn_bridges t) -> bridges_ok limits slots next (tn_bridges t').
Proof.
  intros [(_ & [->|[-> _]])|(record & _ & _ & _ & _ & _ & _ & Hroom & Hfree & _ & ->)]%attach_cases Hok;
    [done|by apply ok_retire_stale|].
  cbn. eapply ok_claim; [by apply ok_retire_stale|done|done|done].
Qed.

(** *** Routing a connection *)

Definition open_conn (conn : Z) (b : Bridge) : Bridge :=
  set_channels (<[conn := mkFinish None false]> (br_channels b)) (br_finished b) (set_visitors (br_visitors b + 1) b).

Lemma visitor_total_update id f bs b0 :
  NoDup (map br_id bs) -> b0 ∈ bs -> br_id b0 = id ->
  visitor_total (update_bridge id f bs) = visitor_total bs - br_visitors b0 + br_visitors (f b0).
Proof.
  unfold visitor_total. intros Hnd Hin <-. induction bs as [|b bs IH]; [by apply elem_of_nil in Hin|].
  cbn [map] in Hnd. apply NoDup_cons in Hnd as [Hn Hnd]. rewrite update_bridge_cons. cbn [foldr].
  apply elem_of_cons in Hin as [->|Hin].
  - rewrite Z.eqb_refl, update_bridge_notin by done. lia.
  - rewrite IH by done. rewrite (proj2 (Z.eqb_neq _ _)); [lia|]. intros E. apply Hn. rewrite E. by apply list_elem_of_fmap_2.
Qed.

Lemma slot_count_cons s slots id : slot_count (s :: slots) id = ((if decide (s.1 = id) then 1 else 0) + slot_count slots id)%nat.
Proof. unfold slot_count. rewrite filter_cons. by case_decide. Qed.

(** What a step that touches one bridge's connections has to keep. *)
Lemma ok_conn_update limits slots slots' next bs f b0 :
  bridges_ok limits slots next bs -> b0 ∈ bs ->
  (forall b, br_id (f b) = br_id b /\ br_state (f b) = br_state b) ->
  (forall s, s ∈ slots' -> s.1 < next) ->
  (forall c, is_Some (br_channels (f b0) !! c) ->
     is_Some (br_channels b0 !! c) \/ 0 < c < 2 ^ 32 /\ in_use bs c = false) ->
  (forall c, is_Some (br_channels (f b0) !! c) -> (br_id b0, c) ∈ slots') ->
  (forall b c, b ∈ bs -> br_id b <> br_id b0 -> (br_id b, c) ∈ slots -> (br_id b, c) ∈ slots') ->
  (forall id, id <> br_id b0 -> slot_count slots' id = slot_count slots id) ->
  br_visitors (f b0) = Z.of_nat (slot_count slots' (br_id b0)) ->
  br_visitors (f b0) <= conns_per_bridge limits ->
  visitor_total bs - br_visitors b0 + br_visitors (f b0) <= conns_per_tunnel limits ->
  bridges_ok limits slots' next (update_bridge (br_id b0) f bs).
Proof.
  intros [H1 HF HS H2 H3 H4 H5 HO HN H6 H7] Hb0 Hf Hs' Hc Ho Hk Hcount Hv Hl Ht.
  assert (forall b, b ∈ bs -> br_id b = br_id b0 -> b = b0) as Huniq.
  { intros b Hb E. apply (NoDup_map_inj br_id bs); done. }
  assert (forall b, b ∈ update_bridge (br_id b0) f bs -> b = f b0 \/ b ∈ bs /\ br_id b <> br_id b0) as Hin.
  { intros b Hb. apply elem_update_bridge in Hb as (b1 & Hb1 & ->). case_split; bsimp; [|auto].
    rewrite (Huniq b1) by done. auto. }
  destruct (Hf b0) as [Eid Est].
  assert (forall c, is_Some (br_channels (f b0) !! c) -> forall b, b ∈ bs -> is_Some (br_channels b !! c) -> br_id b = br_id b0) as Hx.
  { intros c Hs b Hb Hbc. destruct (Hc c Hs) as [?|[_ Hu]]; [by eapply H5|]. exfalso.
    assert (in_use bs c = true) by (apply in_use_true; eauto). congruence. }
  split.
  - rewrite update_bridge_id; [done|]. intros b. apply Hf.
  - intros b [->|[Hb _]]%Hin; rewrite ?Eid; auto.
  - auto.
  - assert (forall b r, b ∈ update_bridge (br_id b0) f bs -> claims_route b r = true ->
      exists b', b' ∈ bs /\ br_id b' = br_id b /\ claims_route b' r = true) as Hcl.
    { intros b r [->|[Hb _]]%Hin Hr; [|by eauto]. exists b0. unfold claims_route, is_attached in *. rewrite Est in Hr. auto. }
    intros b1 b2 r Hb1 Hb2 (c1 & Hc1 & <- & K1)%Hcl (c2 & Hc2 & <- & K2)%Hcl; eauto.
  - etransitivity; [|exact H3]. apply Nat.eq_le_incl. unfold route_total, is_attached, routes_of. clear -Hf.
    induction bs as [|b bs IH]; [done|]. rewrite update_bridge_cons. cbn [foldr]. rewrite IH.
    destruct (br_id b =? br_id b0); [by rewrite (proj2 (Hf b))|done].
  - intros b c [->|[Hb _]]%Hin Hs; [|eauto]. destruct (Hc c Hs) as [?|[? _]]; eauto.
  - intros b1 b2 c [->|[Hb1 N1]]%Hin [->|[Hb2 N2]]%Hin S1 S2; rewrite ?Eid; eauto. symmetry. eauto.
  - intros b c [->|[Hb Hne]]%Hin Hs; rewrite ?Eid; auto.
  - intros b [->|[Hb Hne]]%Hin; rewrite ?Eid; [done|]. rewrite Hcount by done. auto.
  - intros b [->|[Hb Hne]]%Hin; auto.
  - by rewrite (visitor_total_update _ _ _ b0).
Qed.

(** What routing leaves: at most the silent bridges retired, or a connection on a live bridge that claims the route,
    under a number no connection of the tunnel uses. *)
Lemma route_cases limits sni now t res t' :
  route limits sni now t = Some (res, t') ->
  (exists x o, res = Rejected x o) /\ (t' = t \/ t' = retire_stale now t /\ live_record t <> None) \/
  exists record r b conn next,
    live_record t = Some record /\ route_of sni (st_hostname record) = Some r /\ str_contains r "." = false /\
    certificate_ready record = true /\
    b ∈ tn_bridges (retire_stale now t) /\ claims_route b r = true /\
    br_visitors b < conn_limit (conns_per_bridge limits) b /\ tunnel_conns (retire_stale now t) < conns_per_tunnel limits /\
    conn_loop (conn_fuel (tn_bridges (retire_stale now t))) (tn_bridges (retire_stale now t)) (tn_sequence t) = Some (conn, next) /\
    res = ToBridge (br_id b) conn /\ t' = on_bridge (br_id b) (open_conn conn) (set_sequence next (retire_stale now t)).
Proof.
  unfold route. destruct (live_record t) as [record|] eqn:El; [|intros [= <- <-]; eauto 10].
  destruct (retire_stale_facts now t) as (_ & _ & Fseq & _). set (t1 := retire_stale now t) in *. cbv zeta.
  assert (Some record <> None) as Hlive by done. set (outcome := if negb (certificate_ready record) then _ else _).
  destruct (route_of sni (st_hostname record)) as [r|] eqn:Er; cbn [mbind option_bind]; [|intros [= <- <-]; eauto 10].
  destruct (List.find (fun b => claims_route b r) (tn_bridges t1)) as [b|] eqn:Ef; [|intros [= <- <-]; eauto 10].
  destruct (String.eqb outcome "no_bridge") eqn:Eo; [|intros [= <- <-]; eauto 10].
  case_split; [intros [= <- <-]; eauto 10|]. rewrite Fseq.
  destruct (conn_loop _ _ _) as [[conn next]|] eqn:Ec; [|done]. intros [= <- <-]. right.
  apply find_elem in Ef as [Hb Hcl]. apply orb_false_iff in E as [E1 E2]. bsimp.
  assert (certificate_ready record = true /\ str_contains r "." = false) as [Hready Hdot].
  { unfold outcome in Eo. destruct (certificate_ready record); [|done]. cbn in Eo. by destruct (str_contains r "."). }
  exists record, r, b, conn, next. by split_and!.
Qed.

Lemma conn_limit_le limit b : 1 <= limit -> conn_limit limit b <= limit.
Proof. unfold conn_limit. destruct (bs_max_conns _); lia. Qed.

Lemma ok_route limits slots next sni now t res t' :
  route limits sni now t = Some (res, t') -> 1 <= conns_per_bridge limits -> 0 <= tn_sequence t < 2 ^ 32 ->
  bridges_ok limits slots next (tn_bridges t) ->
  bridges_ok limits (match res with ToBridge b c => (b, c) :: slots | Rejected _ _ => slots end) next (tn_bridges t') /\
  0 <= tn_sequence t' < 2 ^ 32.
Proof.
  intros [([x [o ->]] & [->|[-> _]])|(record & r & b & conn & next' & _ & _ & _ & _ & Hb & _ & Hl & Hc & Hloop & -> & ->)]%route_cases
    Hlim Hseq Hok; [done| |].
  - destruct (retire_stale_facts now t) as (_ & _ & -> & _). split; [by apply ok_retire_stale|done].
  - apply conn_loop_Some in Hloop as (Hconn & Hnext & Hfree); [|done]. split; [|done]. cbn.
    apply ok_retire_stale with (now := now) in Hok. pose proof (conn_limit_le _ b Hlim).
    assert (br_visitors (open_conn conn b) = br_visitors b + 1) as Ev by done.
    eapply ok_conn_update; [done|done|done|..]; cbn [fst snd].
    + intros s Hs. apply elem_of_cons in Hs as [->|Hs]; [by apply (ok_fresh _ _ _ _ Hok)|by apply (ok_fresh_slots _ _ _ _ Hok)].
    + intros c. cbn. destruct (decide (c = conn)) as [->|Hne]; [by right|]. rewrite lookup_insert_ne by done. auto.
    + intros c. cbn. destruct (decide (c = conn)) as [->|Hne]; [by left|]. rewrite lookup_insert_ne by done.
      right. by apply (ok_open _ _ _ _ Hok).
    + intros. by right.
    + intros id Hid. rewrite slot_count_cons. cbn. by rewrite decide_False.
    + rewrite slot_count_cons. cbn [fst]. rewrite decide_True, Ev, (ok_slots _ _ _ _ Hok) by done. lia.
    + lia.
    + unfold tunnel_conns in Hc. fold (visitor_total (tn_bridges (retire_stale now t))) in Hc. lia.
Qed.

(** *** The end of a connection *)

Lemma end_conn_keeps outcome abort conn b :
  let b' := end_conn outcome abort conn b in
  br_id b' = br_id b /\ br_state b' = br_state b /\ br_visitors b' = br_visitors b /\
  br_channels b' = delete conn (br_channels b).
Proof.
  unfold end_conn. destruct (br_channels b !! conn) eqn:E; cbn; [done|]. by rewrite delete_id.
Qed.

Lemma slot_count_app s1 s2 id : slot_count (s1 ++ s2) id = (slot_count s1 id + slot_count s2 id)%nat.
Proof. unfold slot_count. by rewrite filter_app, length_app. Qed.

Lemma ok_done limits s1 s2 next id conn t :
  bridges_ok limits (s1 ++ (id, conn) :: s2) next (tn_bridges t) ->
  bridges_ok limits (s1 ++ s2) next (tn_bridges (visitor_done id conn t)).
Proof.
  intros Hok. cbn [visitor_done on_bridge set_bridges tn_bridges].
  assert (forall x, x ∈ s1 ++ s2 -> x ∈ s1 ++ (id, conn) :: s2) as Hsub by set_solver.
  assert (forall x, x ∈ s1 ++ (id, conn) :: s2 -> x <> (id, conn) -> x ∈ s1 ++ s2) as Hsup by set_solver.
  assert (forall i, i <> id -> slot_count (s1 ++ s2) i = slot_count (s1 ++ (id, conn) :: s2) i) as Hcount.
  { intros i Hi. rewrite !slot_count_app, slot_count_cons. cbn. by rewrite decide_False. }
  destruct (decide (id ∈ map br_id (tn_bridges t))) as [Hin|Hin].
  - apply list_elem_of_fmap in Hin as (b & -> & Hb). set (f := fun b0 : Bridge => _).
    destruct (end_conn_keeps Closed false conn b) as (_ & _ & Ev & Ec).
    assert (br_channels (f b) = delete conn (br_channels b)) as Efc by (unfold f; cbn; exact Ec).
    assert (br_visitors (f b) = br_visitors b - 1) as Efv by (unfold f; cbn; by rewrite Ev).
    pose proof (ok_slots _ _ _ _ Hok b Hb) as Hs. rewrite slot_count_app, slot_count_cons, decide_True in Hs by done.
    pose proof (ok_visitors _ _ _ _ Hok b Hb). pose proof (ok_total _ _ _ _ Hok).
    eapply ok_conn_update; [done|done| |..]; rewrite ?Efc, ?Efv.
    + intros b0. unfold f. cbn. by destruct (end_conn_keeps Closed false conn b0) as (-> & -> & _).
    + intros x Hx. apply (ok_fresh_slots _ _ _ _ Hok). auto.
    + intros c [x Hc]. apply lookup_delete_Some in Hc as [_ Hc]. eauto.
    + intros c [x Hc]. apply lookup_delete_Some in Hc as [Hne Hc]. apply Hsup; [|congruence].
      apply (ok_open _ _ _ _ Hok); eauto.
    + intros b' c _ Hne Hx. apply Hsup; [done|congruence].
    + done.
    + rewrite slot_count_app. lia.
    + lia.
    + lia.
  - rewrite update_bridge_notin by done. destruct Hok as [H1 HF HS H2 H3 H4 H5 HO HN H6 H7].
    assert (forall b, b ∈ tn_bridges t -> br_id b <> id) as Hne.
    { intros b Hb <-. apply Hin. by apply list_elem_of_fmap_2. }
    split; eauto.
    + intros b c Hb Hc. apply Hsup; [auto|]. intros [= E _]. by apply (Hne b Hb).
    + intros b Hb. rewrite HN, Hcount by auto. done.
Qed.

(** ** A tunnel over time *)

Record System := mkSystem {
  sy_tunnel : Tunnel;
  sy_slots : list (Z * Z);
  sy_next : Z;
}.

(** Whether a mesh change leaves this tunnel's entries alone: what other tunnels and links do. *)
Definition others_only (tunnel : string) (m m' : Local) : Prop :=
  forall id e, en_tunnel e = tunnel -> lo_entries m !! id = Some e <-> lo_entries m' !! id = Some e.

Section Steps.
Context (limits : BridgeLimits) (hash_token : string -> string).
(** When silent bridges may be swept without a read of the record. *)
Context (sweepable : Tunnel -> Prop).

Inductive step : System -> System -> Prop :=
| step_load r t slots next :
    (forall r', r = Some r' -> st_id r' = tn_id t) ->
    step (mkSystem t slots next) (mkSystem (set_record r t) slots next)
| step_register now draining t t' slots next :
    register_bridge next now draining t = Some t' ->
    step (mkSystem t slots next) (mkSystem t' slots (next + 1))
| step_attach b token routes max_conns held_elsewhere session now res t t' slots next :
    b ∈ tn_bridges t -> bs_attached (br_state b) = false ->
    attach hash_token (br_id b) token routes max_conns held_elsewhere session now t = (res, t') ->
    step (mkSystem t slots next) (mkSystem t' slots next)
| step_route sni now res t t' slots next :
    route limits sni now t = Some (res, t') ->
    step (mkSystem t slots next)
      (mkSystem t' (match res with ToBridge b c => (b, c) :: slots | Rejected _ _ => slots end) next)
| step_closed id now t slots next :
    step (mkSystem t slots next) (mkSystem (bridge_closed id now t).2 slots next)
| step_sweep now t slots next :
    sweepable t -> step (mkSystem t slots next) (mkSystem (retire_stale now t) slots next)
| step_held now t slots next :
    sweepable t -> step (mkSystem t slots next) (mkSystem (held_routes now t).2 slots next)
| step_remove t slots next :
    step (mkSystem t slots next) (mkSystem (close_bridges t) slots next)
| step_deleted t slots next :
    step (mkSystem t slots next) (mkSystem (close_deleted t).2 slots next)
| step_drain message id t slots next :
    step (mkSystem t slots next) (mkSystem (on_bridge id (send_drain message) t) slots next)
| step_close code reason id t slots next :
    step (mkSystem t slots next) (mkSystem (on_bridge id (close code reason) t) slots next)
| step_touch now id t slots next :
    step (mkSystem t slots next) (mkSystem (on_bridge id (touch now) t) slots next)
| step_control id reset conn t slots next :
    step (mkSystem t slots next) (mkSystem (handle_control id reset conn t) slots next)
| step_reset message id conn t slots next :
    step (mkSystem t slots next) (mkSystem (reset_conn message id conn t) slots next)
| step_failed message id conn t slots next :
    step (mkSystem t slots next) (mkSystem (visitor_failed message id conn t) slots next)
| step_done id conn t s1 s2 next :
    step (mkSystem t (s1 ++ (id, conn) :: s2) next) (mkSystem (visitor_done id conn t) (s1 ++ s2) next)
| step_collect t slots next :
    tn_bridges t = [] -> step (mkSystem t slots next) (mkSystem (set_record None (set_sequence 0 t)) slots next)
| step_others m m' t slots next next' :
    tn_mesh t = Some m -> others_only (tn_id t) m m' -> next <= next' ->
    step (mkSystem t slots next) (mkSystem (set_mesh (Some m') t) slots next').

Definition initial (s : System) : Prop :=
  tn_bridges (sy_tunnel s) = [] /\ sy_slots s = [] /\ tn_record (sy_tunnel s) = None /\ tn_sequence (sy_tunnel s) = 0 /\
  forall m id e, tn_mesh (sy_tunnel s) = Some m -> lo_entries m !! id = Some e -> en_tunnel e <> tn_id (sy_tunnel s).

Inductive reachable : System -> Prop :=
| reach_initial s : initial s -> reachable s
| reach_step s s' : reachable s -> step s s' -> reachable s'.
End Steps.

(** *** The invariant *)

Definition inv (limits : BridgeLimits) (s : System) : Prop :=
  bridges_ok limits (sy_slots s) (sy_next s) (tn_bridges (sy_tunnel s)) /\ 0 <= tn_sequence (sy_tunnel s) < 2 ^ 32.

Lemma ok_on_bridge limits slots next id f t :
  (forall b, shrinks b (f b)) -> bridges_ok limits slots next (tn_bridges t) ->
  bridges_ok limits slots next (tn_bridges (on_bridge id f t)).
Proof. intros Hf. apply ok_shrink. by apply update_bridge_shrinks. Qed.

Lemma shrinks_drain message b : shrinks b (send_drain message b).
Proof. unfold send_drain. eapply shrinks_trans; [apply shrinks_try_send|apply shrinks_close]. Qed.

Lemma shrinks_reset message conn b : shrinks b (send (OText message) (end_conn Backpressure true conn b)).
Proof. eapply shrinks_trans; [apply shrinks_end_conn|]. solve_shrinks. Qed.

Lemma shrinks_failed message conn b : shrinks b (try_send (OText message) (end_conn ClientError true conn b)).
Proof. eapply shrinks_trans; [apply shrinks_end_conn|apply shrinks_try_send]. Qed.

Create HintDb bridges.
#[export] Hint Resolve shrinks_drain shrinks_reset shrinks_failed shrinks_close shrinks_touch shrinks_end_conn shrinks_deleted shrinks_retire
  map_shrinks ok_on_bridge ok_retire_stale ok_done : bridges.

Lemma register_bridge_cases id now draining t t' :
  register_bridge id now draining t = Some t' ->
  exists b, t' = set_bridges (tn_bridges t ++ [b]) t /\ br_id b = id /\ is_attached b = false /\
    bs_detached (br_state b) = false /\ br_channels b = ∅ /\ br_visitors b = 0.
Proof.
  unfold register_bridge. destruct (live_record t); [|done]. cbn. intros [= <-]. eexists. split; [done|].
  destruct draining; [|done]. unfold send_drain, close, try_send. repeat case_split; done.
Qed.

Lemma ok_next limits slots next next' bs : next <= next' -> bridges_ok limits slots next bs -> bridges_ok limits slots next' bs.
Proof.
  intros Hn [H1 HF HS H2 H3 H4 H5 HO HN H6 H7]. split; eauto.
  - intros b Hb. apply HF in Hb. lia.
  - intros x Hx. apply HS in Hx. lia.
Qed.

Lemma step_inv limits hash_token sweepable s s' :
  1 <= conns_per_bridge limits -> step limits hash_token sweepable s s' -> inv limits s -> inv limits s'.
Proof.
  unfold inv. intros Hl Hstep [Hok Hseq]. destruct Hstep; cbn [sy_tunnel sy_slots sy_next] in *;
    try (split; [eauto with bridges|by cbn]; fail).
  - destruct (register_bridge_cases _ _ _ _ _ H) as (b & -> & Hid & Ha & _ & Hc & Hv). split; [|done]. cbn. apply ok_register; auto; lia.
  - split; [by eapply ok_attach|].
    destruct (retire_stale_facts now t) as (_ & _ & E & _).
    apply attach_cases in H1 as [(_ & [->|[-> _]])|(record & Hr)]; [done|by rewrite E|].
    destruct Hr as (_ & _ & _ & _ & _ & _ & _ & _ & _ & ->). cbn. by rewrite E.
  - by eapply ok_route.
  - split; [|by unfold bridge_closed; destruct (List.find _ _)].
    unfold bridge_closed. destruct (List.find _ _); cbn; by apply ok_filter.
  - destruct (retire_stale_facts now t) as (_ & _ & E & _). rewrite E. auto with bridges.
  - unfold held_routes. destruct (tn_bridges t) eqn:Eb; cbn [snd]; [by rewrite Eb|]. rewrite <- Eb in Hok.
    destruct (retire_stale_facts now t) as (_ & _ & E & _). rewrite E. auto with bridges.
  - split; [|done]. cbn. eapply ok_shrink; [|done]. apply map_shrinks. auto with bridges.
  - split; [|done]. cbn. eapply ok_shrink; [|done]. apply map_shrinks. auto with bridges.
  - split; [|done]. unfold handle_control. destruct reset; auto with bridges.
  - split; [by eapply ok_next|done].
Qed.

Lemma initial_inv limits s : 0 <= conns_per_tunnel limits -> initial s -> inv limits s.
Proof.
  destruct s as [t slots next]. unfold initial, inv. cbn. intros Hl (-> & -> & _ & -> & _). split; [|lia].
  split; cbn; try (intros; by set_solver); try done; try (unfold MAX_TUNNEL_ROUTES; lia). by apply NoDup_nil.
Qed.

Lemma reachable_inv limits hash_token sweepable s :
  1 <= conns_per_bridge limits -> 0 <= conns_per_tunnel limits -> reachable limits hash_token sweepable s -> inv limits s.
Proof. intros H1 H2. induction 1; [by apply initial_inv|by eapply step_inv]. Qed.

(** *** What the mesh knows *)

(** A change that keeps what the mesh was told. *)
Definition keeps (b b' : Bridge) : Prop :=
  br_id b' = br_id b /\ is_attached b' = is_attached b /\ routes_of b' = routes_of b /\
  bs_attached_at (br_state b') = bs_attached_at (br_state b).

(** Only a bridge that attached is ever detached. *)
Definition detach_ok (bs : list Bridge) : Prop :=
  forall b, b ∈ bs -> bs_detached (br_state b) = true -> bs_attached (br_state b) = true.

Definition told (t : Tunnel) : Prop := record_ok t /\ mesh_ok t /\ detach_ok (tn_bridges t).

(** The sweep reads the tunnel's record from the entry; this is when it is there. *)
Definition loaded (t : Tunnel) : Prop := tn_record t <> None.

Definition same_claim (s s' : BridgeState) : Prop :=
  bs_attached s' = bs_attached s /\ bs_detached s' = bs_detached s /\ bs_routes s' = bs_routes s /\
  bs_attached_at s' = bs_attached_at s.

Lemma same_claim_keeps b b' : br_id b' = br_id b -> same_claim (br_state b) (br_state b') -> keeps b b'.
Proof. intros Hid (E1 & E2 & E3 & E4). unfold keeps, is_attached, routes_of. by rewrite E1, E2. Qed.

Lemma close_claim code reason b : br_id (close code reason b) = br_id b /\ same_claim (br_state b) (br_state (close code reason b)).
Proof. unfold close, try_send. by case_split. Qed.

Lemma open_claim conn b : br_id (open_conn conn b) = br_id b /\ same_claim (br_state b) (br_state (open_conn conn b)).
Proof. done. Qed.

Lemma end_claim outcome abort conn b :
  br_id (end_conn outcome abort conn b) = br_id b /\ same_claim (br_state b) (br_state (end_conn outcome abort conn b)).
Proof. by destruct (end_conn_keeps outcome abort conn b) as (-> & -> & _). Qed.

Lemma drain_claim message b : br_id (send_drain message b) = br_id b /\ same_claim (br_state b) (br_state (send_drain message b)).
Proof. unfold send_drain, close, try_send. repeat case_split; done. Qed.

Lemma told_map f t :
  (forall b, br_id (f b) = br_id b /\ same_claim (br_state b) (br_state (f b))) ->
  told t -> told (set_bridges (map f (tn_bridges t)) t).
Proof.
  intros Hf (Hr & Hm & Hd). split_and!; [done| |].
  - intros m Em. cbn in Em |- *. eapply mesh_live_keep; [|by apply Hm]. clear -Hf. induction (tn_bridges t); cbn; constructor; [|done].
    apply same_claim_keeps; apply Hf.
  - intros b Hb. cbn in Hb. apply list_elem_of_fmap in Hb as (b0 & -> & Hb0). destruct (Hf b0) as (_ & -> & -> & _). auto.
Qed.

Lemma told_on_bridge id f t :
  (forall b, br_id (f b) = br_id b /\ same_claim (br_state b) (br_state (f b))) -> told t -> told (on_bridge id f t).
Proof. intros Hf. apply told_map. intros b. case_split; [apply Hf|done]. Qed.

Lemma retire_claim b : br_id (retire b) = br_id b /\ bs_attached (br_state (retire b)) = bs_attached (br_state b).
Proof. unfold retire, close, try_send. by case_split. Qed.

Lemma detach_ok_loop now stale : forall t,
  (forall b, b ∈ tn_bridges t -> br_id b ∈ stale -> bs_attached (br_state b) = true) ->
  detach_ok (tn_bridges t) -> detach_ok (tn_bridges (retire_loop now stale t)).
Proof.
  induction stale as [|id stale IH]; intros t Ha Hd; [done|]. cbn [retire_loop].
  set (t1 := match tn_record _ with Some _ => _ | None => _ end).
  assert (tn_bridges t1 = update_bridge id retire (tn_bridges t)) as Eb.
  { unfold t1. by destruct (tn_record (on_bridge id retire t)). }
  apply IH; rewrite Eb; intros b Hb; apply elem_update_bridge in Hb as (b0 & Hb0 & ->); destruct (retire_claim b0) as [E1 E2];
    case_split; bsimp; rewrite ?E1, ?E2.
  - intros _. apply Ha; [done|]. rewrite E. by left.
  - intros Hs. apply Ha; [done|]. by right.
  - intros _. apply Ha; [done|]. rewrite E. by left.
  - auto.
Qed.

Lemma detach_ok_retire now t :
  NoDup (map br_id (tn_bridges t)) -> detach_ok (tn_bridges t) -> detach_ok (tn_bridges (retire_stale now t)).
Proof.
  intros Hnd. apply detach_ok_loop. intros b Hb Hid. apply list_elem_of_fmap in Hid as (b' & Hid & Hb').
  apply list_elem_of_filter in Hb' as [Hst Hb']. rewrite (NoDup_map_inj _ _ _ _ Hnd Hb Hb' Hid). unfold stale_bridge, is_attached in Hst.
  by bsimp.
Qed.

Lemma told_retire now t : loaded t -> NoDup (map br_id (tn_bridges t)) -> told t -> told (retire_stale now t).
Proof.
  intros Hl Hnd (Hr & Hm & Hd). destruct (retire_stale_facts now t) as (E1 & E2 & _). split_and!.
  - intros r. rewrite E1, E2. auto.
  - by apply mesh_retire_stale.
  - by apply detach_ok_retire.
Qed.

Lemma live_loaded t r : live_record t = Some r -> loaded t.
Proof. unfold live_record, loaded. by destruct (tn_record t). Qed.

Lemma told_register id now draining t t' : register_bridge id now draining t = Some t' -> told t -> told t'.
Proof.
  intros (b & -> & Hid & Ha & Hd & _)%register_bridge_cases (Hr & Hm & Ho). split_and!; [done| |].
  - intros m Em. cbn in *. destruct (Hm m Em) as [H1 H2]. split.
    + intros b'. rewrite elem_of_app, list_elem_of_singleton. intros [?| ->] Hl; [auto|congruence].
    + intros i e Hl Ht. destruct (H2 i e Hl Ht) as (b' & Hb' & ? & ?). exists b'. rewrite elem_of_app. auto.
  - intros b'. cbn. rewrite elem_of_app, list_elem_of_singleton. intros [?| ->]; [auto|congruence].
Qed.

Lemma told_closed id now t : told t -> told (bridge_closed id now t).2.
Proof.
  intros (Hr & Hm & Hd). unfold bridge_closed. destruct (List.find _ _) as [b|] eqn:Ef; cbn [snd]; split_and!; try done.
  - intros m Em. cbn in Em. destruct (tn_mesh t) as [m0|] eqn:E0; [|done]. injection Em as <-. rewrite detached_entries. cbn.
    eapply mesh_live_detach; [by apply Hm| |].
    + intros b' Hb'%list_elem_of_filter _. naive_solver.
    + intros b' Hb' _ Hne. by apply list_elem_of_filter.
  - intros b' Hb'. cbn in Hb'. apply list_elem_of_filter in Hb' as [_ Hb']. auto.
  - intros m Em. cbn in *. destruct (Hm m Em) as [H1 H2]. split.
    + intros b' [_ Hb']%list_elem_of_filter. auto.
    + intros i e Hl Ht. destruct (H2 i e Hl Ht) as (b' & Hb' & Ha & <-). exists b'. split_and!; try done.
      apply list_elem_of_filter. split; [|done]. intros E. apply list_elem_of_In in Hb'.
      pose proof (find_none _ _ Ef b' Hb') as Hn. cbv beta in Hn. by rewrite E, Z.eqb_refl, Ha in Hn.
  - intros b' Hb'. cbn in Hb'. apply list_elem_of_filter in Hb' as [_ Hb']. auto.
Qed.

(** Which bridges a sweep leaves as they were. *)
Lemma retire_loop_elem now stale : forall t b,
  (b ∈ tn_bridges (retire_loop now stale t) -> is_attached b = true -> b ∈ tn_bridges t /\ br_id b ∉ stale) /\
  (b ∈ tn_bridges t -> br_id b ∉ stale -> b ∈ tn_bridges (retire_loop now stale t)).
Proof.
  induction stale as [|id stale IH]; intros t b; [by cbn; set_solver|]. cbn [retire_loop].
  set (t1 := match tn_record _ with Some _ => _ | None => _ end).
  assert (tn_bridges t1 = update_bridge id retire (tn_bridges t)) as Eb.
  { unfold t1. by destruct (tn_record (on_bridge id retire t)). }
  destruct (IH t1 b) as [IH1 IH2]. rewrite Eb in *. split.
  - intros Hb Ha. destruct (IH1 Hb Ha) as [Hb1 Hn]. apply elem_update_bridge in Hb1 as (b0 & Hb0 & ->). case_split; bsimp.
    + by rewrite retire_detached in Ha.
    + split; [done|]. by apply not_elem_of_cons.
  - intros Hb [Hne Hn]%not_elem_of_cons. apply IH2; [|done]. apply elem_update_bridge. exists b. split; [done|].
    by rewrite (proj2 (Z.eqb_neq _ _)).
Qed.

Lemma retire_stale_live now t b :
  b ∈ tn_bridges (retire_stale now t) -> is_attached b = true -> b ∈ tn_bridges t /\ stale_bridge now b = false.
Proof.
  intros Hb Ha. apply retire_loop_elem in Hb as [Hb Hn]; [|done]. split; [done|]. apply not_true_is_false. intros Hs.
  apply Hn, list_elem_of_fmap_2, list_elem_of_filter. done.
Qed.

Lemma retire_stale_kept now t b :
  NoDup (map br_id (tn_bridges t)) -> b ∈ tn_bridges t -> stale_bridge now b = false -> b ∈ tn_bridges (retire_stale now t).
Proof.
  intros Hnd Hb Hs. apply retire_loop_elem; [done|]. intros Hid. apply list_elem_of_fmap in Hid as (b' & Hid & Hb').
  apply list_elem_of_filter in Hb' as [Hs' Hb']. rewrite (NoDup_map_inj _ _ _ _ Hnd Hb Hb' Hid) in Hs. congruence.
Qed.

Lemma told_attach hash_token b token routes max_conns held_elsewhere session now t res t' :
  attach hash_token (br_id b) token routes max_conns held_elsewhere session now t = (res, t') ->
  b ∈ tn_bridges t -> bs_attached (br_state b) = false -> NoDup (map br_id (tn_bridges t)) -> told t -> told t'.
Proof.
  intros [(_ & Hc)|(record & _ & Hr & _ & _ & _ & _ & _ & _ & _ & ->)]%attach_cases Hb Hnew Hnd Ht.
  { destruct Hc as [->|[-> Hl]]; [done|]. destruct (live_record t) eqn:Er; [|done]. by eapply told_retire; [eapply live_loaded|..]. }
  pose proof (told_retire now t (live_loaded _ _ Hr) Hnd Ht) as (Hrec & Hm & Hd).
  destruct (retire_stale_facts now t) as (Eid & _). set (f := claim session routes max_conns now).
  assert (b ∈ tn_bridges (retire_stale now t)) as Hb1.
  { apply retire_stale_kept; [done|done|]. unfold stale_bridge, is_attached. by rewrite Hnew. }
  set (t1 := retire_stale now t) in *.
  assert (is_attached (f b) = true) as Hf.
  { unfold is_attached. cbn. specialize (Hd b Hb1). destruct (bs_detached (br_state b)); [|done]. rewrite Hd in Hnew by done. done. }
  split_and!; [done| |].
  - intros m Em. cbn in Em. destruct (tn_mesh t1) as [m0|] eqn:E0; [|done]. injection Em as <-. cbn.
    destruct (Hm m0 E0) as [H1 H2]. rewrite <- Eid. split.
    + intros b1 Hin Hl. apply elem_update_bridge in Hin as (b2 & Hb2 & ->). case_split; bsimp.
      * cbn. by rewrite E, lookup_insert_eq.
      * rewrite lookup_insert_ne by done. auto.
    + intros i e Hl He. apply lookup_insert_Some in Hl as [[<- _]|[Hne Hl]].
      * exists (f b). split_and!; [|done|done]. apply elem_update_bridge. exists b. by rewrite Z.eqb_refl.
      * destruct (H2 i e Hl He) as (b2 & Hb2 & Ha & <-). exists b2. split_and!; try done. apply elem_update_bridge.
        exists b2. by rewrite (proj2 (Z.eqb_neq _ _)).
  - intros b1 Hin. cbn in Hin. apply elem_update_bridge in Hin as (b2 & Hb2 & ->). case_split; [done|auto].
Qed.

Lemma told_mesh m' m t : tn_mesh t = Some m -> others_only (tn_id t) m m' -> told t -> told (set_mesh (Some m') t).
Proof.
  intros Em Ho (Hr & Hm & Hd). split_and!; [done| |done]. intros m1 [= <-]. cbn. destruct (Hm m Em) as [H1 H2]. split.
  - intros b Hb Ha. by apply Ho; [|apply H1].
  - intros id e Hl He. eapply H2; [by apply Ho|done].
Qed.

Lemma told_record r t : (forall r', r = Some r' -> st_id r' = tn_id t) -> told t -> told (set_record r t).
Proof. intros Hid (Hr & Hm & Hd). split_and!; [|done|done]. intros r' Er. by apply Hid. Qed.

Lemma told_route limits sni now t res t' :
  route limits sni now t = Some (res, t') -> NoDup (map br_id (tn_bridges t)) -> told t -> told t'.
Proof.
  intros [(_ & [->|[-> Hl]])|(record & r & b & conn & next & Hr & _ & _ & _ & _ & _ & _ & _ & _ & _ & ->)]%route_cases Hnd Ht;
    [done| |].
  - destruct (live_record t) eqn:Er; [|done]. by eapply told_retire; [eapply live_loaded|..].
  - apply told_on_bridge; [intros; apply open_claim|]. apply (told_retire now t (live_loaded _ _ Hr) Hnd Ht).
Qed.

Lemma reset_claim message conn b :
  let b' := send (OText message) (end_conn Backpressure true conn b) in
  br_id b' = br_id b /\ same_claim (br_state b) (br_state b').
Proof. cbn. apply end_claim. Qed.

Lemma deleted_claim b :
  let b' := close 1000 "deleted" (finish_channels Deleted b) in br_id b' = br_id b /\ same_claim (br_state b) (br_state b').
Proof. cbn zeta. destruct (close_claim 1000 "deleted" (finish_channels Deleted b)) as [-> E]. by split. Qed.

Lemma failed_claim message conn b :
  let b' := try_send (OText message) (end_conn ClientError true conn b) in
  br_id b' = br_id b /\ same_claim (br_state b) (br_state b').
Proof. cbn zeta. unfold try_send. destruct (end_claim ClientError true conn b). by case_split. Qed.

#[export] Hint Resolve failed_claim told_on_bridge told_map told_closed told_record told_retire told_mesh close_claim drain_claim end_claim
  reset_claim deleted_claim : bridges.

Lemma step_told limits hash_token s s' :
  step limits hash_token loaded s s' -> inv limits s -> told (sy_tunnel s) -> told (sy_tunnel s').
Proof.
  intros Hstep [Hok _] Ht. pose proof (ok_ids _ _ _ _ Hok) as Hnd.
  destruct Hstep; cbn [sy_tunnel] in *; eauto with bridges.
  - by eapply told_register.
  - by eapply told_attach.
  - by eapply told_route.
  - unfold held_routes. destruct (tn_bridges t) eqn:Eb; [done|]. rewrite <- Eb in Hnd. cbn [snd]. eauto with bridges.
  - apply told_record; [done|]. apply told_map; [|done]. apply deleted_claim.
  - by apply told_on_bridge.
  - unfold handle_control. apply told_on_bridge; [|done]. intros b. destruct reset; apply end_claim.
  - apply told_on_bridge; [|done]. intros b. cbn. apply (end_claim Closed false conn b).
  - by apply told_record.
Qed.

Lemma reachable_told limits hash_token s :
  1 <= conns_per_bridge limits -> 0 <= conns_per_tunnel limits -> reachable limits hash_token loaded s -> told (sy_tunnel s).
Proof.
  intros H1 H2. induction 1 as [s Hi|s s' Hr IH Hs].
  - destruct s as [t slots next]. destruct Hi as (Hb & _ & Hrec & _ & Hm). cbn in *. split_and!.
    + intros r. by rewrite Hrec.
    + intros m Em. split; [intros b; rewrite Hb; set_solver|]. intros id e Hl He. by destruct (Hm m id e Em Hl).
    + intros b. rewrite Hb. set_solver.
  - eapply step_told; [done| |done]. by eapply reachable_inv.
Qed.

(** *** A number is always found *)

Lemma channels_slots limits slots next bs b :
  bridges_ok limits slots next bs -> b ∈ bs -> (size (br_channels b) <= slot_count slots (br_id b))%nat.
Proof.
  intros Hok Hb. unfold slot_count. rewrite <- length_map_to_list.
  rewrite <- (length_map fst), <- (length_map (pair (br_id b))). apply submseteq_length, NoDup_submseteq.
  - apply (NoDup_fmap_2 (pair (br_id b))), NoDup_fst_map_to_list.
  - intros x Hx. apply list_elem_of_fmap in Hx as (c & -> & Hc). apply list_elem_of_fmap in Hc as ([c' f] & -> & Hc).
    apply elem_of_map_to_list in Hc. apply list_elem_of_filter. split; [done|]. apply (ok_open _ _ _ _ Hok); eauto.
Qed.

Lemma channel_total_le limits slots next bs :
  bridges_ok limits slots next bs -> Z.of_nat (channel_total bs) <= conns_per_tunnel limits.
Proof.
  intros Hok. etransitivity; [|exact (ok_total _ _ _ _ Hok)].
  assert (forall b, b ∈ bs -> Z.of_nat (size (br_channels b)) <= br_visitors b) as Hb.
  { intros b Hb. rewrite (ok_slots _ _ _ _ Hok b Hb). apply inj_le. by eapply channels_slots. }
  clear Hok. unfold channel_total, visitor_total. induction bs as [|b bs IH]; [done|]. cbn [foldr].
  specialize (IH ltac:(intros; apply Hb; by right)). specialize (Hb b ltac:(left)). lia.
Qed.

(** ** The theorems *)

(** A live bridge is found by the route it alone claims. *)
Lemma find_claims limits slots next bs b r :
  bridges_ok limits slots next bs -> b ∈ bs -> claims_route b r = true -> List.find (fun b => claims_route b r) bs = Some b.
Proof.
  intros Hok Hb Hr. destruct (List.find (fun b => claims_route b r) bs) as [b'|] eqn:Ef.
  - apply find_elem in Ef as [Hb' Hr']. f_equal. eapply NoDup_map_inj; [apply (ok_ids _ _ _ _ Hok)|done|done|].
    by eapply (ok_exclusive _ _ _ _ Hok).
  - apply list_elem_of_In in Hb. pose proof (find_none _ _ Ef b Hb). cbv beta in *. congruence.
Qed.

(** C1: However bridges register, attach, go silent, are drained, deleted or closed, and whatever visitors do: a route
    has at most one live bridge, a tunnel's live bridges hold at most 256 routes, an open connection's number is a nonzero
    32-bit number that no other connection of the tunnel has, and neither a bridge nor the tunnel carries more visitors
    than its limit. *)
Theorem routes_exclusive limits hash_token s :
  1 <= conns_per_bridge limits -> 0 <= conns_per_tunnel limits ->
  reachable limits hash_token (fun _ => True) s ->
  let bs := tn_bridges (sy_tunnel s) in
  (forall b1 b2 r, b1 ∈ bs -> b2 ∈ bs -> claims_route b1 r = true -> claims_route b2 r = true -> b1 = b2) /\
  (route_total bs <= MAX_TUNNEL_ROUTES)%nat /\
  (forall b1 b2 c, b1 ∈ bs -> b2 ∈ bs -> is_Some (br_channels b1 !! c) -> is_Some (br_channels b2 !! c) ->
     b1 = b2 /\ 0 < c < 2 ^ 32) /\
  (forall b, b ∈ bs -> Z.of_nat (size (br_channels b)) <= br_visitors b <= conns_per_bridge limits) /\
  visitor_total bs <= conns_per_tunnel limits.
Proof.
  intros H1 H2 Hr. destruct (reachable_inv _ _ _ _ H1 H2 Hr) as [Hok _].
  assert (forall b1 b2, b1 ∈ tn_bridges (sy_tunnel s) -> b2 ∈ tn_bridges (sy_tunnel s) -> br_id b1 = br_id b2 -> b1 = b2) as Hid.
  { intros b1 b2. apply NoDup_map_inj, (ok_ids _ _ _ _ Hok). }
  split_and!.
  - intros b1 b2 r Hb1 Hb2 Hr1 Hr2. apply Hid; [done|done|]. by eapply (ok_exclusive _ _ _ _ Hok).
  - apply (ok_routes _ _ _ _ Hok).
  - intros b1 b2 c Hb1 Hb2 Hc1 Hc2. split; [apply Hid; [done|done|]; by eapply (ok_unique _ _ _ _ Hok)|].
    by eapply (ok_conns _ _ _ _ Hok).
  - intros b Hb. split; [|by apply (ok_visitors _ _ _ _ Hok)]. rewrite (ok_slots _ _ _ _ Hok b Hb). apply inj_le.
    by eapply channels_slots.
  - apply (ok_total _ _ _ _ Hok).
Qed.

(** Routing finds the live bridge that claims a route, and a free connection number on it. *)
Lemma route_finds limits hash_token s sni now record r b :
  1 <= conns_per_bridge limits -> 0 <= conns_per_tunnel limits <= 2 ^ 32 - 2 ->
  reachable limits hash_token (fun _ => True) s ->
  live_record (sy_tunnel s) = Some record -> certificate_ready record = true ->
  route_of sni (st_hostname record) = Some r -> str_contains r "." = false ->
  b ∈ tn_bridges (sy_tunnel s) -> claims_route b r = true -> stale_bridge now b = false ->
  br_visitors b < conn_limit (conns_per_bridge limits) b -> tunnel_conns (sy_tunnel s) < conns_per_tunnel limits ->
  exists conn t', route limits sni now (sy_tunnel s) = Some (ToBridge (br_id b) conn, t') /\
    0 < conn < 2 ^ 32 /\ in_use (tn_bridges (retire_stale now (sy_tunnel s))) conn = false /\
    exists b', b' ∈ tn_bridges t' /\ br_id b' = br_id b /\ br_channels b' !! conn = Some (mkFinish None false) /\
      br_visitors b' = br_visitors b + 1.
Proof.
  intros H1 H2 Hr Hl Hready Hro Hdot Hb Hcl Hst Hv Ht.
  destruct (reachable_inv _ _ _ _ H1 (proj1 H2) Hr) as [Hok Hseq].
  destruct (retire_stale_facts now (sy_tunnel s)) as (_ & _ & Eseq & Hs & _).
  pose proof (ok_retire_stale _ _ _ now _ Hok) as Hok1.
  pose proof (retire_stale_kept now _ b (ok_ids _ _ _ _ Hok) Hb Hst) as Hb1.
  destruct (conn_loop_total (tn_bridges (retire_stale now (sy_tunnel s))) (tn_sequence (sy_tunnel s))) as (conn & next & Hloop);
    [done|pose proof (channel_total_le _ _ _ _ Hok1); lia|].
  exists conn. eexists. unfold route. rewrite Hl, Hro, Hready. cbn [negb]. rewrite Hdot. cbn [mbind option_bind].
  rewrite (find_claims _ _ _ _ _ _ Hok1 Hb1 Hcl). cbn [String.eqb Ascii.eqb Bool.eqb].
  assert (tunnel_conns (retire_stale now (sy_tunnel s)) = tunnel_conns (sy_tunnel s)) as -> by (by apply shrinks_visitors).
  rewrite (proj2 (Z.leb_gt _ _) Hv), (proj2 (Z.leb_gt _ _) Ht). cbn [orb]. rewrite Eseq, Hloop. split; [done|].
  apply conn_loop_Some in Hloop as (Hc & _ & Hu); [|done]. split_and!; [lia|lia|done|].
  exists (open_conn conn b). split_and!; [|done|by cbn; rewrite lookup_insert_eq|done].
  cbn. apply elem_update_bridge. exists b. by rewrite Z.eqb_refl.
Qed.

(** C15: A visitor of a route that a live, heard-from bridge claims reaches that bridge while there is room: routing
    always returns, and gives the connection a number no other connection of the tunnel uses, counted on the bridge. *)
Theorem route_reaches limits hash_token s sni now record r b :
  1 <= conns_per_bridge limits -> 0 <= conns_per_tunnel limits <= 2 ^ 32 - 2 ->
  reachable limits hash_token (fun _ => True) s ->
  live_record (sy_tunnel s) = Some record -> certificate_ready record = true ->
  route_of sni (st_hostname record) = Some r -> str_contains r "." = false ->
  b ∈ tn_bridges (sy_tunnel s) -> claims_route b r = true -> stale_bridge now b = false ->
  br_visitors b < conn_limit (conns_per_bridge limits) b -> tunnel_conns (sy_tunnel s) < conns_per_tunnel limits ->
  exists conn t', route limits sni now (sy_tunnel s) = Some (ToBridge (br_id b) conn, t') /\
    0 < conn < 2 ^ 32 /\ in_use (tn_bridges (retire_stale now (sy_tunnel s))) conn = false /\
    exists b', b' ∈ tn_bridges t' /\ br_id b' = br_id b /\ br_channels b' !! conn = Some (mkFinish None false) /\
      br_visitors b' = br_visitors b + 1.
Proof. apply route_finds. Qed.

(** A connection is only ever given to a live bridge of a tunnel that exists, whose certificate is ready, that
    claims the one label the name has before the tunnel's hostname (or the hostname itself), and that was heard from
    lately. *)
Theorem route_sound limits sni now t id conn t' :
  route limits sni now t = Some (ToBridge id conn, t') ->
  exists record r b, live_record t = Some record /\ certificate_ready record = true /\
    (sni = st_hostname record /\ r = "@" \/ sni = r +:+ "." +:+ st_hostname record /\ str_contains r "." = false) /\
    b ∈ tn_bridges t /\ br_id b = id /\ claims_route b r = true /\ now - br_seen_at b <= STALE_BRIDGE_MS.
Proof.
  intros [([x [o Hx]] & _)|(record & r & b & conn' & next & Hl & Hro & Hdot & Hready & Hb & Hcl & _ & _ & _ & Hres & _)]%route_cases;
    [done|]. injection Hres as -> ->. exists record, r, b.
  assert (is_attached b = true) as Ha by (unfold claims_route in Hcl; by bsimp).
  destruct (retire_stale_live _ _ _ Hb Ha) as [Hb0 Hst]. split_and!; try done.
  - unfold route_of in Hro. destruct (String.eqb_spec sni (st_hostname record)) as [->|Hne]; [left|right].
    + by injection Hro as <-.
    + split; [|done]. by apply str_strip_suffix_Some in Hro.
  - unfold stale_bridge in Hst. rewrite Ha in Hst. cbn in Hst. bsimp. unfold sat_sub in Hst. lia.
Qed.

(** C30: With the record loaded when silent bridges are swept, the other machines are told exactly this machine's live
    bridges of the tunnel, each with the routes it claims and since when. *)
Theorem announced_exactly limits hash_token s m id e :
  1 <= conns_per_bridge limits -> 0 <= conns_per_tunnel limits ->
  reachable limits hash_token loaded s -> tn_mesh (sy_tunnel s) = Some m ->
  lo_entries m !! id = Some e /\ en_tunnel e = tn_id (sy_tunnel s) <->
  exists b, b ∈ tn_bridges (sy_tunnel s) /\ is_attached b = true /\ br_id b = id /\
    e = mkEntry (tn_id (sy_tunnel s)) id (routes_of b) (bs_attached_at (br_state b)).
Proof.
  intros H1 H2 Hr Em. destruct (reachable_told _ _ _ H1 H2 Hr) as (_ & Hm & _). destruct (Hm m Em) as [K1 K2]. split.
  - intros [Hl He]. destruct (K2 id e Hl He) as (b & Hb & Ha & <-). exists b. split_and!; try done.
    specialize (K1 b Hb Ha). congruence.
  - intros (b & Hb & Ha & <- & ->). split; [by apply K1|done].
Qed.

(** A client that comes back gets its routes: its attach succeeds when its token is right, the certificate ready, the
    routes valid and within the tunnel's bound, every other bridge that claims one of them has gone silent, and no other
    machine holds them; it is then the only bridge with those routes. *)
Theorem attach_reclaims limits hash_token s b token routes max_conns session now record :
  1 <= conns_per_bridge limits -> 0 <= conns_per_tunnel limits -> reachable limits hash_token (fun _ => True) s ->
  let t := sy_tunnel s in
  b ∈ tn_bridges t -> bs_attached (br_state b) = false ->
  bs_detached (br_state b) = false ->
  live_record t = Some record -> hash_token token = token_hash record -> certificate_ready record = true ->
  routes <> [] -> Forall (fun r => Protocol.is_valid_route r = true) routes ->
  (held_total (br_id b) (tn_bridges (retire_stale now t)) + length routes <= MAX_TUNNEL_ROUTES)%nat ->
  (forall b' r, b' ∈ tn_bridges t -> In r routes -> claims_route b' r = true -> stale_bridge now b' = true) ->
  exists t', attach hash_token (br_id b) token routes max_conns false session now t = (Ok session, t') /\
    (exists b', b' ∈ tn_bridges t' /\ br_id b' = br_id b /\ is_attached b' = true /\ routes_of b' = routes) /\
    (forall b' r, b' ∈ tn_bridges t' -> In r routes -> claims_route b' r = true -> br_id b' = br_id b).
Proof.
  intros H1 H2 Hreach t Hb Hnew Hnd Hl Htok Hready Hne Hval Hroom Hstale.
  destruct (reachable_inv _ _ _ _ H1 H2 Hreach) as [Hok _]. fold t in Hok. unfold attach. rewrite Hl, Htok, String.eqb_refl, Hready. cbn [negb].
  assert (match routes with [] => true | _ => existsb (fun route => negb (Protocol.is_valid_route route)) routes end = false) as ->.
  { destruct routes as [|r routes]; [done|]. apply not_true_is_false. intros (x & Hx & Hn)%existsb_exists.
    rewrite Forall_forall in Hval. rewrite Hval in Hn by (by apply list_elem_of_In). done. }
  rewrite (proj2 (Nat.ltb_ge _ _) Hroom).
  assert (forall b' r, b' ∈ tn_bridges (retire_stale now t) -> In r routes -> claims_route b' r = false) as Hfree.
  { intros b' r Hb' Hr. apply not_true_is_false. intros Hc. assert (is_attached b' = true) as Ha by (unfold claims_route in Hc; by bsimp).
    destruct (retire_stale_live _ _ _ Hb' Ha) as [Hb0 Hs]. rewrite (Hstale b' r) in Hs by done. done. }
  assert (existsb (fun b0 => negb (br_id b0 =? br_id b) && existsb (claims_route b0) routes) (tn_bridges (retire_stale now t)) = false) as ->.
  { apply not_true_is_false. intros (b0 & Hb0 & Hc)%existsb_exists. bsimp.
    match goal with H : existsb _ _ = true |- _ => apply existsb_exists in H as (r & Hr & Hc) end.
    apply list_elem_of_In in Hb0. by rewrite (Hfree b0 r) in Hc. }
  assert (match tn_mesh (retire_stale now t) with Some _ => false | None => false end = false) as -> by (by destruct (tn_mesh _)).
  eexists. split; [done|]. fold (claim session routes max_conns now).
  pose proof (retire_stale_kept now t b (ok_ids _ _ _ _ Hok) Hb) as Hkept. split.
  - exists (claim session routes max_conns now b). split_and!; [|done| |done].
    + cbn. apply elem_update_bridge. exists b. rewrite Z.eqb_refl. split; [|done]. apply Hkept.
      unfold stale_bridge, is_attached. by rewrite Hnew.
    + unfold is_attached. cbn. by rewrite Hnd.
  - intros b' r Hb' Hr Hc. cbn in Hb'. apply elem_update_bridge in Hb' as (b0 & Hb0 & ->). case_split; bsimp; [done|].
    by rewrite (Hfree b0 r) in Hc.
Qed.

(** *** An announcement nobody withdraws *)

(** The mesh has an entry of the tunnel for a bridge that is detached or gone. *)
Definition leaked (id : Z) (e : Entry) (t : Tunnel) : Prop :=
  en_tunnel e = tn_id t /\ (exists m, tn_mesh t = Some m /\ lo_entries m !! id = Some e) /\
  forall b, b ∈ tn_bridges t -> br_id b = id -> bs_attached (br_state b) = true /\ bs_detached (br_state b) = true.

Section Leaked.
Context (id : Z) (e : Entry).

Lemma leaked_map f t :
  (forall b, br_id (f b) = br_id b /\ same_claim (br_state b) (br_state (f b))) -> leaked id e t -> leaked id e (set_bridges (map f (tn_bridges t)) t).
Proof.
  intros Hf (He & Hm & Hb). split_and!; [done|done|]. intros b Hin. cbn in Hin. apply list_elem_of_fmap in Hin as (b0 & -> & Hin).
  destruct (Hf b0) as (-> & -> & -> & _). by apply Hb.
Qed.

Lemma leaked_on_bridge k f t :
  (forall b, br_id (f b) = br_id b /\ same_claim (br_state b) (br_state (f b))) -> leaked id e t -> leaked id e (on_bridge k f t).
Proof. intros Hf. apply leaked_map. intros b. case_split; [apply Hf|done]. Qed.

(** What happens to another bridge, and what the mesh is told of it. *)
Lemma leaked_other k f t : k <> id -> (forall b, br_id (f b) = br_id b) -> leaked id e t -> leaked id e (on_bridge k f t).
Proof.
  intros Hk Hf (He & Hm & Hb). split_and!; [done|done|]. intros b Hin Hid. cbn in Hin. apply elem_update_bridge in Hin as (b0 & Hin & ->).
  case_split; bsimp; [rewrite Hf in Hid; congruence|by apply Hb].
Qed.

Lemma leaked_announce k f t : k <> id -> (forall m, lo_entries (f m) !! id = lo_entries m !! id) -> leaked id e t -> leaked id e (set_mesh (f <$> tn_mesh t) t).
Proof. intros Hk Hf (He & (m & Em & Hm) & Hb). split_and!; [done| |done]. exists (f m). cbn. by rewrite Em, Hf. Qed.

Lemma leaked_detached name k now t : k <> id -> leaked id e t -> leaked id e (announce_detached name k now t).
Proof. intros Hk. apply (leaked_announce k); [done|]. intros m. by rewrite detached_entries, lookup_delete_ne. Qed.

Lemma leaked_loop now stale : forall t, id ∉ stale -> leaked id e t -> leaked id e (retire_loop now stale t).
Proof.
  induction stale as [|k stale IH]; intros t Hn Hl; [done|]. apply not_elem_of_cons in Hn as [Hk Hn]. cbn [retire_loop]. apply IH; [done|].
  assert (leaked id e (on_bridge k retire t)) as Hr by (apply leaked_other; [done|intros b; apply retire_claim|done]).
  destruct (tn_record _); [by apply leaked_detached|done].
Qed.

Lemma leaked_retire now t : leaked id e t -> leaked id e (retire_stale now t).
Proof.
  intros Hl. apply leaked_loop; [|done]. intros (b & -> & [Hs Hb]%list_elem_of_filter)%list_elem_of_fmap. destruct Hl as (_ & _ & H).
  destruct (H b Hb eq_refl) as [E1 E2]. unfold stale_bridge, is_attached in Hs. by rewrite E1, E2 in Hs.
Qed.

Lemma leaked_attach hash_token b token routes max_conns held_elsewhere session now t res t' :
  b ∈ tn_bridges t -> bs_attached (br_state b) = false ->
  attach hash_token (br_id b) token routes max_conns held_elsewhere session now t = (res, t') -> leaked id e t -> leaked id e t'.
Proof.
  intros Hb Hnew Ha Hl. assert (br_id b <> id) as Hne.
  { intros E. destruct Hl as (_ & _ & H). destruct (H b Hb E). congruence. }
  apply attach_cases in Ha as [(_ & [->|[-> _]])|(record & _ & _ & _ & _ & _ & _ & _ & _ & _ & ->)]; [done|by apply leaked_retire|].
  apply (leaked_announce (br_id b)); [done|intros m; cbn; by rewrite lookup_insert_ne|]. apply leaked_other; [done|done|]. by apply leaked_retire.
Qed.

Lemma leaked_closed k now t : leaked id e t -> leaked id e (bridge_closed k now t).2.
Proof.
  intros Hl. assert (leaked id e (set_bridges (filter (fun b => br_id b <> k) (tn_bridges t)) t)) as Hf.
  { destruct Hl as (He & Hm & Hb). split_and!; [done|done|]. intros b [_ Hin]%list_elem_of_filter. by apply Hb. }
  unfold bridge_closed. destruct (List.find _ _) as [b|] eqn:Ef; [|done]. apply leaked_detached; [|done]. intros ->.
  apply find_elem in Ef as [Hin Ha]. bsimp. destruct Hl as (_ & _ & Hb). destruct (Hb b Hin) as [E1 E2]; [lia|]. unfold is_attached in *. by rewrite E1, E2 in *.
Qed.

Lemma leaked_step limits hash_token sweepable s s' :
  step limits hash_token sweepable s s' -> id < sy_next s -> leaked id e (sy_tunnel s) -> id < sy_next s' /\ leaked id e (sy_tunnel s').
Proof.
  intros Hstep Hn Hl. destruct Hstep; cbn [sy_tunnel sy_next] in *; (split; [try lia|]);
    try (by apply leaked_retire); try (by apply leaked_closed); try (by apply leaked_on_bridge; auto with bridges); try done.
  - apply register_bridge_cases in H as (b & -> & Hid & _). destruct Hl as (He & Hm & Hb). split_and!; [done|done|]. intros b' Hin. cbn in Hin.
    apply elem_of_app in Hin as [Hin| ->%list_elem_of_singleton]; [by apply Hb|lia].
  - by eapply leaked_attach.
  - apply route_cases in H as [(_ & [->|[-> _]])|(record & r & b & conn & nx & _ & _ & _ & _ & _ & _ & _ & _ & _ & _ & ->)]; [done|by apply leaked_retire|].
    apply leaked_on_bridge; [intros; apply open_claim|]. pose proof (leaked_retire now _ Hl). done.
  - unfold held_routes. destruct (tn_bridges t); [done|]. by apply leaked_retire.
  - apply leaked_map; [|done]. intros b. apply deleted_claim.
  - pose proof (leaked_map (fun b => close 1000 "deleted" (finish_channels Deleted b)) t deleted_claim Hl). done.
  - unfold handle_control. apply leaked_on_bridge; [|done]. intros b. destruct reset; apply end_claim.
  - apply leaked_on_bridge; [|done]. intros b. cbn. apply (end_claim Closed false conn b).
  - destruct Hl as (He & (m0 & Em & Hm) & Hb). split_and!; [done| |done]. exists m'. split; [done|]. apply H0; [done|]. congruence.
Qed.
End Leaked.

(** A sweep without the record: the mesh hears nothing, and the silent bridges are detached. *)
Lemma retire_loop_unloaded now stale : forall t, tn_record t = None ->
  tn_id (retire_loop now stale t) = tn_id t /\ tn_mesh (retire_loop now stale t) = tn_mesh t /\
  forall b, b ∈ tn_bridges (retire_loop now stale t) -> exists b0, b0 ∈ tn_bridges t /\ br_id b = br_id b0 /\
    bs_attached (br_state b) = bs_attached (br_state b0) /\ (bs_detached (br_state b0) = true \/ br_id b0 ∈ stale -> bs_detached (br_state b) = true).
Proof.
  induction stale as [|k stale IH]; intros t Hr; cbn [retire_loop].
  - split_and!; [done|done|]. intros b Hb. exists b. split_and!; try done. by intros [?|?%elem_of_nil].
  - cbn [on_bridge set_bridges tn_record]. rewrite Hr. destruct (IH (on_bridge k retire t) Hr) as (E1 & E2 & H). split_and!; [done|done|].
    intros b Hb. destruct (H b Hb) as (b1 & Hb1 & F1 & F2 & F3). cbn in Hb1. apply elem_update_bridge in Hb1 as (b0 & Hb0 & ->).
    exists b0. split; [done|]. destruct (br_id b0 =? k) eqn:E; bsimp.
    + destruct (retire_claim b0) as [G1 G2]. rewrite G1 in F1. rewrite G2 in F2. split_and!; [done|done|]. intros _. apply F3. left.
      unfold retire, close, try_send. by case_split.
    + split_and!; [done|done|]. intros [?|[?|?]%elem_of_cons]; [auto|congruence|auto].
Qed.

Lemma sweep_leaks now t b m e :
  NoDup (map br_id (tn_bridges t)) -> tn_record t = None -> b ∈ tn_bridges t -> stale_bridge now b = true ->
  tn_mesh t = Some m -> lo_entries m !! br_id b = Some e -> en_tunnel e = tn_id t -> leaked (br_id b) e (retire_stale now t).
Proof.
  intros Hnd Hr Hb Hs Hm He Ht. destruct (retire_loop_unloaded now (map br_id (filter (fun b => stale_bridge now b = true) (tn_bridges t))) t Hr) as (E1 & E2 & H).
  unfold leaked, retire_stale. rewrite E1, E2. split_and!; [done|eauto|]. intros b' Hb' Hid. destruct (H b' Hb') as (b0 & Hb0 & F1 & -> & F3).
  assert (b0 = b) as -> by (eapply (NoDup_map_inj br_id); [done..|congruence]). split.
  - unfold stale_bridge, is_attached in Hs. by bsimp.
  - apply F3. right. apply list_elem_of_fmap_2, list_elem_of_filter. done.
Qed.

(** C37: a silent bridge swept while the entry's record is not loaded (its save conflicted, or the tunnel was deleted elsewhere)
    leaves its announcement behind for good: the sweep detaches the bridge without telling the mesh, and whatever happens to the
    tunnel from then on (its record loaded again, the bridge's session over, bridges registered and attached, sweeps with the
    record), the bridge is not live again and this machine still announces it. *)
Theorem retire_unloaded_leaks limits hash_token s now b m e s' :
  1 <= conns_per_bridge limits -> 0 <= conns_per_tunnel limits -> reachable limits hash_token (fun _ => True) s ->
  tn_record (sy_tunnel s) = None -> b ∈ tn_bridges (sy_tunnel s) -> stale_bridge now b = true ->
  tn_mesh (sy_tunnel s) = Some m -> lo_entries m !! br_id b = Some e -> en_tunnel e = tn_id (sy_tunnel s) ->
  rtc (step limits hash_token (fun _ => True)) (mkSystem (retire_stale now (sy_tunnel s)) (sy_slots s) (sy_next s)) s' ->
  (forall b', b' ∈ tn_bridges (sy_tunnel s') -> br_id b' = br_id b -> is_attached b' = false) /\
  exists m', tn_mesh (sy_tunnel s') = Some m' /\ lo_entries m' !! br_id b = Some e.
Proof.
  intros Hl1 Hl2 Hreach Hr Hb Hs Hm He Ht Hsteps. destruct (reachable_inv _ _ _ _ Hl1 Hl2 Hreach) as [Hok _].
  assert (br_id b < sy_next s) as Hn by (by eapply ok_fresh).
  pose proof (sweep_leaks now _ _ _ _ (ok_ids _ _ _ _ Hok) Hr Hb Hs Hm He Ht) as Hl.
  enough (br_id b < sy_next s' /\ leaked (br_id b) e (sy_tunnel s')) as (_ & _ & Hm' & Hb').
  { split; [|done]. intros b' Hin Hid. destruct (Hb' b' Hin Hid) as [E1 E2]. unfold is_attached. by rewrite E1, E2. }
  revert Hl Hn. change (sy_next s) with (sy_next (mkSystem (retire_stale now (sy_tunnel s)) (sy_slots s) (sy_next s))) at 1.
  change (retire_stale now (sy_tunnel s)) with (sy_tunnel (mkSystem (retire_stale now (sy_tunnel s)) (sy_slots s) (sy_next s))) at 1.
  revert Hsteps. generalize (mkSystem (retire_stale now (sy_tunnel s)) (sy_slots s) (sy_next s)). intros s0.
  induction 1 as [s0|s0 s1 s2 Hstep _ IH]; intros Hl Hn; [done|]. destruct (leaked_step _ _ _ _ _ _ _ Hstep Hn Hl). by apply IH.
Qed.

(** ** Witnesses *)

Definition demo_hash (token : string) : string := token.
Definition demo_record : StoredTunnel :=
  mkStoredTunnel 1 "t1" "t1.example" Online (Some "c1") "secret" "" None (Some (mkCertificateInfo "c1" (Ready "" "" "")))
    None None None None None.
Definition demo_start : System := mkSystem (mkTunnel "t1" None [] 0 (Some empty_local)) [] 7.
Definition demo_loaded : System := mkSystem (set_record (Some demo_record) (sy_tunnel demo_start)) [] 7.
Definition demo_registered : System :=
  mkSystem (default (sy_tunnel demo_loaded) (register_bridge 7 1000 None (sy_tunnel demo_loaded))) [] 8.
Definition demo_attached : System :=
  mkSystem (attach demo_hash 7 "secret" ["@"; "api"] (Some 2) false "sess" 1000 (sy_tunnel demo_registered)).2 [] 8.

Ltac demo_elem := apply list_elem_of_lookup_2 with (i := 0%nat); reflexivity.

Lemma demo_reaches sweepable : reachable default_limits demo_hash sweepable demo_attached.
Proof.
  eapply reach_step; [eapply reach_step; [eapply reach_step; [apply (reach_initial _ _ _ demo_start)|]|]|].
  - split_and!; try done. intros m id e [= <-]. cbn. by rewrite lookup_empty.
  - apply (step_load _ _ _ (Some demo_record)). by intros r [= <-].
  - apply (step_register _ _ _ 1000 None). reflexivity.
  - eapply step_attach with (b := mkBridge 7 1000 default_state ∅ [] 0 []); [demo_elem|done|].
    cbn [br_id]. by apply surjective_pairing.
Qed.

Definition demo_bridge : Bridge := claim "sess" ["@"; "api"] (Some 2) 1000 (mkBridge 7 1000 default_state ∅ [] 0 []).

Lemma routes_exclusive_witness :
  length (tn_bridges (sy_tunnel demo_attached)) = 1%nat /\
  (route_total (tn_bridges (sy_tunnel demo_attached)) <= MAX_TUNNEL_ROUTES)%nat.
Proof.
  split; [reflexivity|].
  apply (routes_exclusive default_limits demo_hash demo_attached ltac:(cbn; lia) ltac:(cbn; lia) (demo_reaches _)).
Defined.

Lemma route_reaches_witness :
  exists conn t', route default_limits "api.t1.example" 2000 (sy_tunnel demo_attached) = Some (ToBridge 7 conn, t').
Proof.
  destruct (route_reaches default_limits demo_hash demo_attached "api.t1.example" 2000 demo_record "api" demo_bridge)
    as (conn & t' & H & _); [cbn; lia|cbn; lia|apply demo_reaches|reflexivity|reflexivity|reflexivity|reflexivity|
    demo_elem|reflexivity|reflexivity|reflexivity|reflexivity|].
  exists conn, t'. exact H.
Defined.

Lemma route_sound_witness : exists b, b ∈ tn_bridges (sy_tunnel demo_attached) /\ br_id b = 7 /\ claims_route b "@" = true.
Proof.
  destruct (route_sound default_limits "t1.example" 2000 (sy_tunnel demo_attached) 7 1
    (on_bridge 7 (open_conn 1) (set_sequence 2 (sy_tunnel demo_attached))))
    as (record & r & b & Hl & _ & Hr & Hb & Hid & Hc & _); [vm_compute; reflexivity|].
  exists b. split; [exact Hb|]. split; [exact Hid|].
  assert (st_hostname record = "t1.example") as Hh by (apply (inj Some) in Hl; rewrite <- Hl; reflexivity).
  destruct Hr as [[_ ->]|[Hs _]]; [exact Hc|]. exfalso. rewrite Hh in Hs. apply (f_equal (fun x => length (as_bytes x))) in Hs.
  rewrite as_bytes_app, length_app in Hs. change (length (as_bytes "t1.example")) with 10%nat in Hs.
  change (length (as_bytes ("." +:+ "t1.example"))) with 11%nat in Hs. lia.
Defined.

Lemma announced_exactly_witness :
  exists m, tn_mesh (sy_tunnel demo_attached) = Some m /\ lo_entries m !! 7 = Some (mkEntry "t1" 7 ["@"; "api"] 1000).
Proof.
  eexists. split; [reflexivity|].
  apply (announced_exactly default_limits demo_hash demo_attached _ 7 (mkEntry "t1" 7 ["@"; "api"] 1000)
    ltac:(cbn; lia) ltac:(cbn; lia) (demo_reaches _) eq_refl).
  exists demo_bridge. split; [demo_elem|]. split; [reflexivity|]. split; reflexivity.
Defined.

(** The client of [demo_attached] went silent and came back. *)
Definition demo_back : System :=
  mkSystem (default (sy_tunnel demo_attached) (register_bridge 8 200000 None (sy_tunnel demo_attached))) [] 9.

Lemma demo_back_reaches : reachable default_limits demo_hash (fun _ => True) demo_back.
Proof. eapply reach_step; [apply demo_reaches|]. apply (step_register _ _ _ 200000 None). reflexivity. Qed.

Lemma attach_reclaims_witness :
  exists t', attach demo_hash 8 "secret" ["api"] None false "sess2" 200000 (sy_tunnel demo_back) = (Ok "sess2", t').
Proof.
  destruct (attach_reclaims default_limits demo_hash demo_back (mkBridge 8 200000 default_state ∅ [] 0 []) "secret" ["api"] None
    "sess2" 200000 demo_record) as (t' & H & _); [cbn; lia|cbn; lia|apply demo_back_reaches| |reflexivity|reflexivity|reflexivity|
    reflexivity|reflexivity|discriminate|repeat constructor|vm_compute; lia| |].
  - apply list_elem_of_lookup_2 with (i := 1%nat). reflexivity.
  - intros b' r Hb' _ Hc. apply elem_of_cons in Hb' as [->|Hb']; [reflexivity|].
    apply list_elem_of_singleton in Hb' as ->. discriminate Hc.
  - exists t'. exact H.
Defined.

(** The sweep of [demo_attached] without its record, the end of the bridge's session, and the record read again. *)
Definition demo_unloaded : System := mkSystem (set_record None (sy_tunnel demo_attached)) [] 8.
Definition demo_leaked : System :=
  mkSystem (set_record (Some demo_record) (bridge_closed 7 200000 (retire_stale 200000 (sy_tunnel demo_unloaded))).2) [] 8.

Lemma retire_unloaded_leaks_witness :
  tn_bridges (sy_tunnel demo_leaked) = [] /\
  exists m', tn_mesh (sy_tunnel demo_leaked) = Some m' /\ lo_entries m' !! 7 = Some (mkEntry "t1" 7 ["@"; "api"] 1000).
Proof.
  split; [reflexivity|].
  refine (proj2 (retire_unloaded_leaks default_limits demo_hash demo_unloaded 200000 demo_bridge
    (default empty_local (tn_mesh (sy_tunnel demo_attached))) (mkEntry "t1" 7 ["@"; "api"] 1000) demo_leaked
    ltac:(cbn; lia) ltac:(cbn; lia) _ eq_refl ltac:(demo_elem) eq_refl eq_refl eq_refl eq_refl _)).
  - eapply reach_step; [apply demo_reaches|]. by apply (step_load _ _ _ None).
  - eapply rtc_l; [apply (step_closed _ _ _ 7 200000)|]. eapply rtc_l; [|apply rtc_refl]. apply (step_load _ _ _ (Some demo_record)). by intros r [= <-].
Defined.
