(* ===== verification/Analytics.v ===== *)
(** * Analytics: product events, [analytics.rs], and when a bridge reports itself, [service.rs]

    Publishing never waits; one task sends what is queued in batches. Time and what the endpoint answers come with the events of
    a run. *)

From Stdlib Require Import ZArith Lia Ascii String List.
From stdpp Require Import base list strings gmap sorting.
From S2P Require Import Prelude Text Names Record Frames Bridges.

Definition ACTIVE_INTERVAL_MS : Z := 5 * MINUTE_MS.
Definition QUEUE : nat := Z.to_nat 10000.
Definition BATCH : nat := 200.
Definition FLUSH_INTERVAL : Z := 2000.

(** ** [publish] *)

Abbreviation Payload := (gmap string Json).
Record Event := mkEvent { ev_source : string; ev_kind : string; ev_timestamp : string; ev_payload : Payload }.

(** [with_region] and the object of [publish]: the payload's own fields win. *)
Definition fields_of (region : option string) (payload : Payload) : Payload :=
  payload ∪ match region with Some r => <["region" := JStr r]> | None => id end {[ "schema_version" := JInt 1 ]}.
Definition event_of (region : option string) (kind timestamp : string) (payload : Payload) : Event :=
  mkEvent "opentunnel" kind timestamp (fields_of region payload).

(** ** The queue and [deliver] *)

Inductive Sender := Waiting | Filling (batch : list Event) (deadline : Z) | Posting (batch : list Event).

(** The queue and the task; which events were published, and which of them dropped; the batches posted, with whether they arrived. *)
Record Delivery := mkDelivery {
  dl_queue : list Event;
  dl_sender : Sender;
  dl_published : list (Event * bool);
  dl_posted : list (list Event * bool);
}.
Definition no_delivery : Delivery := mkDelivery [] Waiting [] [].

Inductive DeliveryEvent :=
| EvPublish (e : Event)
| EvSender (now : Z) (deadline_first : bool)
| EvAnswered (success : bool).

(** [try_send] into the bounded channel. *)
Definition publish (e : Event) (s : Delivery) : Delivery :=
  if (length (dl_queue s) <? QUEUE)%nat
  then mkDelivery (dl_queue s ++ [e]) (dl_sender s) (dl_published s ++ [(e, true)]) (dl_posted s)
  else mkDelivery (dl_queue s) (dl_sender s) (dl_published s ++ [(e, false)]) (dl_posted s).

(** One step of [deliver] that can be taken at a time; [deadline_first] is which of two ready branches the select takes. *)
Definition sender_step (now : Z) (deadline_first : bool) (s : Delivery) : Delivery :=
  match dl_sender s with
  | Waiting =>
      match dl_queue s with
      | e :: queue => mkDelivery queue (Filling [e] (now + FLUSH_INTERVAL)) (dl_published s) (dl_posted s)
      | [] => s
      end
  | Filling batch deadline =>
      if negb (length batch <? BATCH)%nat then mkDelivery (dl_queue s) (Posting batch) (dl_published s) (dl_posted s)
      else
        match dl_queue s with
        | e :: queue =>
            if (deadline <=? now) && deadline_first then mkDelivery (dl_queue s) (Posting batch) (dl_published s) (dl_posted s)
            else mkDelivery queue (Filling (batch ++ [e]) deadline) (dl_published s) (dl_posted s)
        | [] => if deadline <=? now then mkDelivery [] (Posting batch) (dl_published s) (dl_posted s) else s
        end
  | Posting _ => s
  end.

(** The answer to a post, or its failure: the batch is over. *)
Definition answered (success : bool) (s : Delivery) : Delivery :=
  match dl_sender s with
  | Posting batch => mkDelivery (dl_queue s) Waiting (dl_published s) (dl_posted s ++ [(batch, success)])
  | _ => s
  end.

Definition delivery_step (s : Delivery) (e : DeliveryEvent) : Delivery :=
  match e with
  | EvPublish e => publish e s
  | EvSender now first => sender_step now first s
  | EvAnswered success => answered success s
  end.
Definition run_delivery (events : list DeliveryEvent) : Delivery := fold_left delivery_step events no_delivery.

(** ** [client] *)

Record ClientInfo := mkClientInfo { ci_client : string; ci_version : option string }.

Definition fields (c : ClientInfo) : Payload :=
  match ci_version c with Some v => <["client_version" := JStr v]> | None => id end {[ "client" := JStr (ci_client c) ]}.

Definition name_char (b : Z) : bool := is_ascii_alphanumeric b || (b =? 95) || (b =? 46) || (b =? 45).
Definition version_char (b : Z) : bool := is_ascii_alphanumeric b || (b =? 95) || (b =? 46) || (b =? 43) || (b =? 45).
Definition is_ascii_alphabetic (b : Z) : bool := ((65 <=? b) && (b <=? 90)) || ((97 <=? b) && (b <=? 122)).

Fixpoint take_while (p : Z -> bool) (l : bytes) : bytes := match l with b :: l' => if p b then b :: take_while p l' else [] | [] => [] end.

Definition client (user_agent : option string) : ClientInfo :=
  match as_bytes (str_trim (default "" user_agent)) with
  | [] => mkClientInfo "none" None
  | first :: tail =>
      if negb (is_ascii_alphabetic first) then mkClientInfo "none" None
      else
        let rest := take_while name_char tail in
        let name := to_ascii_lowercase (of_bytes (first :: rest)) in
        let version :=
          match drop (length rest) tail with
          | b :: after => if b =? 47 then let v := take 32 (take_while version_char after) in if bool_decide (v = []) then None else Some (of_bytes v) else None
          | [] => None
          end in
        if String.eqb name "opentunnel" then mkClientInfo "cli" version
        else if String.eqb name "opentunnel-sdk" then mkClientInfo "sdk" version
        else if String.eqb name "bun" then mkClientInfo "sdk" None
        else mkClientInfo "other" None
  end.

(** ** [report_active] *)

Definition report_active (id : string) (now : Z) (b : Bridge) : Bridge * option Payload :=
  let st := br_state b in
  if negb (bs_attached st) || (sat_sub now (bs_active_at st) <? ACTIVE_INTERVAL_MS) then (b, None)
  else
    let st := mkBridgeState (bs_attached st) (bs_detached st) (bs_session st) (bs_routes st) (bs_max_conns st) (bs_attached_at st) now (bs_server_close st) in
    (set_bstate st b,
     Some (list_to_map [("tunnel_id", JStr id); ("session_id", match bs_session st with Some s => JStr s | None => JNull end);
                        ("route_count", JInt (Z.of_nat (length (bs_routes st)))); ("connected_ms", JInt (sat_sub now (bs_attached_at st)));
                        ("open_connections", JInt (Z.of_nat (size (br_channels b))))])).

(** ** Properties *)

Definition sender_batch (s : Sender) : list Event := match s with Waiting => [] | Filling b _ | Posting b => b end.
Definition accepted (s : Delivery) : list Event := map fst (List.filter snd (dl_published s)).

Record delivery_ok (s : Delivery) : Prop := mkDeliveryOk {
  dk_order : concat (map fst (dl_posted s)) ++ sender_batch (dl_sender s) ++ dl_queue s = accepted s;
  dk_queue : (length (dl_queue s) <= QUEUE)%nat;
  dk_batch : match dl_sender s with Waiting => True | Filling b _ | Posting b => (0 < length b <= BATCH)%nat end;
  dk_posted : Forall (fun p : list Event * bool => (0 < length p.1 <= BATCH)%nat) (dl_posted s);
}.

Lemma delivery_step_ok s e : delivery_ok s -> delivery_ok (delivery_step s e).
Proof.
  intros [Ho Hq Hb Hp]. destruct e as [e|now first|success]; cbn [delivery_step].
  - unfold publish, accepted in *. destruct (length (dl_queue s) <? QUEUE)%nat eqn:E; bsimp; constructor; cbn [dl_queue dl_sender dl_published dl_posted] in *; try done.
    + unfold accepted. cbn. rewrite List.filter_app, map_app, <- Ho. cbn. by rewrite !app_assoc.
    + rewrite length_app. cbn [length]. lia.
    + unfold accepted. cbn. rewrite List.filter_app, map_app, <- Ho. cbn. by rewrite app_nil_r.
  - unfold sender_step. destruct (dl_sender s) as [|batch deadline|batch] eqn:Es; [| |by constructor; rewrite ?Es].
    + destruct (dl_queue s) as [|e queue] eqn:Eq; [by constructor; rewrite ?Es, ?Eq|]. constructor; cbn in *; try done; unfold BATCH; lia.
    + destruct (length batch <? BATCH)%nat eqn:El; cbn; bsimp; [|by constructor].
      destruct (dl_queue s) as [|e queue] eqn:Eq; [destruct (deadline <=? now); by constructor; rewrite ?Es, ?Eq|].
      destruct (_ && _); constructor; cbn in *; try done; [by rewrite <- app_assoc|lia|rewrite length_app; cbn; lia].
  - unfold answered. destruct (dl_sender s) as [|batch deadline|batch] eqn:Es; [by constructor; rewrite ?Es..|]. constructor; cbn in *; try done.
    + rewrite map_app, concat_app. cbn. by rewrite app_nil_r, <- app_assoc.
    + apply Forall_app. split; [done|by constructor].
Qed.

(** Events are posted in the order they were published, each at most once: what was posted, is being posted and waits is exactly what
    was published while there was room. Batches are never empty and have at most two hundred events, and a full queue drops only
    the newest. *)
Theorem events_posted_once events :
  let s := run_delivery events in
  concat (map fst (dl_posted s)) ++ sender_batch (dl_sender s) ++ dl_queue s = accepted s /\ (length (dl_queue s) <= QUEUE)%nat /\
  Forall (fun p : list Event * bool => (0 < length p.1 <= BATCH)%nat) (dl_posted s).
Proof.
  intros s. assert (delivery_ok s) as [Ho Hq _ Hp]; [|done]. unfold s, run_delivery. assert (delivery_ok no_delivery) as H by (by constructor; cbn; unfold QUEUE; try lia).
  revert H. generalize no_delivery. induction events as [|e events IH]; intros s0 Hs; [done|]. apply IH. by apply delivery_step_ok.
Qed.

(** A batch goes out: once its deadline has passed, the task posts it after at most as many steps as it has room for events, whichever way
    its selects go. *)
Theorem batch_goes_out now firsts : forall s batch deadline,
  dl_sender s = Filling batch deadline -> deadline <= now -> (BATCH - length batch < length firsts)%nat ->
  exists more, dl_sender (fold_left (fun s first => sender_step now first s) firsts s) = Posting (batch ++ more).
Proof.
  induction firsts as [|first firsts IH]; intros s batch deadline Es Hd Hl; cbn [length] in Hl; [lia|]. cbn [fold_left].
  assert (forall s batch, dl_sender s = Posting batch -> dl_sender (fold_left (fun s first => sender_step now first s) firsts s) = Posting batch) as Hkeep.
  { clear. induction firsts as [|first firsts IH]; intros s batch E; [done|]. cbn. apply IH. unfold sender_step. by rewrite E. }
  unfold sender_step at 2. rewrite Es. destruct (length batch <? BATCH)%nat eqn:El; cbn [negb]; bsimp; [|exists []; rewrite app_nil_r; by apply Hkeep].
  rewrite (proj2 (Z.leb_le _ _)) by done. destruct (dl_queue s) as [|e queue]; [exists []; rewrite app_nil_r; by apply Hkeep|].
  destruct first; cbn [andb]; [exists []; rewrite app_nil_r; by apply Hkeep|].
  edestruct (IH (mkDelivery queue (Filling (batch ++ [e]) deadline) (dl_published s) (dl_posted s)) (batch ++ [e])) as [more Hm]; [done|done|rewrite length_app; cbn [length]; lia|].
  exists (e :: more). rewrite Hm. by rewrite <- app_assoc.
Qed.

(** *** [client] *)

Lemma take_while_all p l : Forall (fun b => p b = true) (take_while p l).
Proof. induction l as [|b l IH]; cbn; [constructor|]. destruct (p b) eqn:E; by constructor. Qed.

(** What is recorded of a user agent is one of four words and at most 32 bytes of plain characters, whatever a client sends. *)
Theorem client_recorded_safely user_agent :
  let c := client user_agent in
  ci_client c ∈ ["none"; "cli"; "sdk"; "other"] /\
  match ci_version c with Some v => (0 < str_len v <= 32)%nat /\ Forall (fun b => version_char b = true) (as_bytes v) | None => True end.
Proof.
  cbn. unfold client. destruct (as_bytes (str_trim (default "" user_agent))) as [|first tail] eqn:Ea; [by split; [left|]|].
  assert (bytes_ok (first :: tail)) as Hb by (rewrite <- Ea; apply as_bytes_ok).
  destruct (negb (is_ascii_alphabetic first)); [by split; [left|]|].
  set (rest := take_while name_char tail). set (name := to_ascii_lowercase (of_bytes (first :: rest))).
  set (version := match drop (length rest) tail with b :: after => _ | [] => None end).
  assert (match version with Some v => (0 < str_len v <= 32)%nat /\ Forall (fun b => version_char b = true) (as_bytes v) | None => True end) as Hv.
  { subst version. destruct (drop (length rest) tail) as [|b after] eqn:Ed; [done|]. destruct (b =? 47); [|done]. case_bool_decide as Ev; [done|].
    assert (bytes_ok (take 32 (take_while version_char after))) as Hok.
    { apply Forall_take, Forall_forall. intros x Hx. pose proof (take_while_all version_char after) as Hall. rewrite Forall_forall in Hall. apply Hall in Hx.
      unfold version_char, is_ascii_alphanumeric, is_ascii_lowercase, is_ascii_uppercase, is_ascii_digit in Hx. unfold byte_ok. bsimp. lia. }
    rewrite str_len_of_bytes, as_of_bytes by done. split; [|apply Forall_take, take_while_all].
    pose proof (length_take (take_while version_char after) 32). destruct (take 32 (take_while version_char after)); [done|]. cbn [length] in *. lia. }
  repeat (destruct (String.eqb name _); [cbn; split; [set_solver|done]|]). cbn. split; [set_solver|done].
Qed.

Example client_examples :
  client (Some "opentunnel/0.4.1") = mkClientInfo "cli" (Some "0.4.1") /\ client (Some "opentunnel-sdk/1.0 node") = mkClientInfo "sdk" (Some "1.0") /\
  client (Some "Bun/1.2") = mkClientInfo "sdk" None /\ client (Some "Mozilla/5.0 (X11)") = mkClientInfo "other" None /\ client None = mkClientInfo "none" None.
Proof. vm_compute. done. Qed.

(** *** [report_active] *)

(** Two reports of a bridge are at least the interval apart, however often its client pings, and only an attached one reports. *)
Theorem active_reports_apart id now now' b b' p :
  report_active id now b = (b', Some p) -> now' < now + ACTIVE_INTERVAL_MS -> bs_attached (br_state b) = true /\ report_active id now' b' = (b', None).
Proof.
  unfold report_active. destruct (bs_attached (br_state b)) eqn:Ea; cbn [negb orb]; [|done]. destruct (sat_sub now _ <? _); [done|]. intros [= <- <-] Hn.
  split; [done|]. cbn [br_state set_bstate bs_attached bs_active_at negb orb]. rewrite (proj2 (Z.ltb_lt _ _)); [done|]. unfold sat_sub, ACTIVE_INTERVAL_MS, MINUTE_MS, SECOND_MS in *. lia.
Qed.

(** An event says where it comes from and its version unless its payload does, and keeps all of its payload. *)
Theorem event_fields region kind timestamp payload key v :
  payload !! key = Some v -> ev_payload (event_of region kind timestamp payload) !! key = Some v /\
  is_Some (ev_payload (event_of region kind timestamp payload) !! "schema_version") /\ (region <> None -> is_Some (ev_payload (event_of region kind timestamp payload) !! "region")).
Proof.
  intros Hk. unfold event_of, fields_of. cbn. split_and!; [by apply lookup_union_Some_l|..].
  - apply lookup_union_is_Some. right. destruct region; [rewrite lookup_insert_ne by done|]; rewrite ?lookup_singleton_eq; by eexists.
  - intros Hr. apply lookup_union_is_Some. right. destruct region; [|done]. rewrite lookup_insert_eq. by eexists.
Qed.
