(* ===== verification/Service.v ===== *)
(** * Service: a tunnel's cached record, the API and the certificates, [service.rs]

    An entry caches a tunnel's record and revision; every operation locks its entry, reads the record as its caller
    needs it, and writes it back with a compare-and-set on the revision. The database is [Store]'s: statements of other
    servers run in between and answers get lost. An operation reads the clock once ([now]), and what it tells other
    tasks and machines is in its effects. Analytics are not modelled. *)

From Stdlib Require Import ZArith Lia Ascii String List.
From stdpp Require Import base list strings gmap relations.
From S2P Require Import Prelude Text Names Record Mesh Bridges Failure Store Limits.

(** ** Data *)

Definition RENEW_BEFORE_MS : Z := 30 * DAY_MS.
Definition ACTIVE_WINDOW_MS : Z := 90 * DAY_MS.
Definition RENEWAL_RETRY_MS : Z := HOUR_MS.
Definition RENEWAL_STALE_MS : Z := DAY_MS.
Definition ORPHAN_MAX_AGE_MS : Z := 2 * DAY_MS.
Definition RETRY_FAILED_MAX_AGE_MS : Z := 7 * DAY_MS.
Definition AUTHZ_PENDING_FIX_MS : Z := 1791957600000.
Definition REFRESH_BACKOFF_MS : Z := 5000.
Definition MISSING_TTL_MS : Z := 30000.
Definition NOT_READY_TTL_MS : Z := 5000.
Definition SAFETY_TTL_MS : Z := 10 * MINUTE_MS.
Definition ATTACH_REREAD_MS : Z := 2000.
Definition LAST_CONNECTED_INTERVAL_MS : Z := HOUR_MS.

(** [EntryState]: the record and the bridges are the [Tunnel] of [Bridges]. *)
Record Cache := mkCache {
  ca_tunnel : Tunnel;
  ca_loaded : bool;
  ca_revision : Z;
  ca_checked_at : Z;
  ca_stale : bool;
  ca_generation : Z;
  ca_alarm : option (Z * option Z);
}.

Inductive Effect := Announced (event : Event) | JobsNotified | AlarmsNotified.

Inductive SvError := StoreFailed (e : StoreError) | IdMissing | CsrMissing.

(** An operation's state: its entry, the service's own fields it changes, its effects, and the database. *)
Record Sv := mkSv {
  sv_cache : Cache;
  sv_refresh_failed_at : Z;
  sv_limits : option Limits;
  sv_effects : list Effect;
  sv_world : Db * list Turn;
}.

Definition SM (A : Type) : Type := Sv -> result A SvError * Sv.
Definition sret {A} (a : A) : SM A := fun s => (Ok a, s).
Definition sfail {A} (e : SvError) : SM A := fun s => (Err e, s).
Definition sbind {A B} (m : SM A) (k : A -> SM B) : SM B := fun s =>
  match m s with (Ok a, s') => k a s' | (Err e, s') => (Err e, s') end.
Notation "x <~ m ;; k" := (sbind m (fun x => k)) (at level 100, m at next level, right associativity).

(** An operation of the store, and one whose failure its caller handles. *)
Definition st {A} (m : M A) : SM A := fun s =>
  let '(r, w) := m (sv_world s) in
  (match r with Ok a => Ok a | Err e => Err (StoreFailed e) end,
   mkSv (sv_cache s) (sv_refresh_failed_at s) (sv_limits s) (sv_effects s) w).
Definition catch {A} (m : SM A) : SM (result A SvError) := fun s => let '(r, s') := m s in (Ok r, s').

Definition cache : SM Cache := fun s => (Ok (sv_cache s), s).
Definition set_cache (c : Cache) : SM unit := fun s =>
  (Ok tt, mkSv c (sv_refresh_failed_at s) (sv_limits s) (sv_effects s) (sv_world s)).
Definition refresh_failed_at : SM Z := fun s => (Ok (sv_refresh_failed_at s), s).
Definition refresh_failed (now : Z) : SM unit := fun s =>
  (Ok tt, mkSv (sv_cache s) now (sv_limits s) (sv_effects s) (sv_world s)).
Definition effect (e : Effect) : SM unit := fun s =>
  (Ok tt, mkSv (sv_cache s) (sv_refresh_failed_at s) (sv_limits s) (sv_effects s ++ [e]) (sv_world s)).

Definition record (c : Cache) : option StoredTunnel := live_record (ca_tunnel c).

(** The cache with what a read found: [mark] of the source's fields. *)
Definition with_record (r : option StoredTunnel) (revision : Z) (c : Cache) : Cache :=
  mkCache (set_record r (ca_tunnel c)) (ca_loaded c) revision (ca_checked_at c) (ca_stale c) (ca_generation c) (ca_alarm c).
Definition with_alarm (a : option (Z * option Z)) (c : Cache) : Cache :=
  mkCache (ca_tunnel c) (ca_loaded c) (ca_revision c) (ca_checked_at c) (ca_stale c) (ca_generation c) a.
Definition with_loaded (l : bool) (c : Cache) : Cache :=
  mkCache (ca_tunnel c) l (ca_revision c) (ca_checked_at c) (ca_stale c) (ca_generation c) (ca_alarm c).
Definition checked (now generation : Z) (c : Cache) : Cache :=
  mkCache (ca_tunnel c) (ca_loaded c) (ca_revision c) now false generation (ca_alarm c).
Definition with_tunnel (t : Tunnel) (c : Cache) : Cache :=
  mkCache t (ca_loaded c) (ca_revision c) (ca_checked_at c) (ca_stale c) (ca_generation c) (ca_alarm c).

(** [invalidate], and what [save] does on a conflict. *)
Definition invalidated (c : Cache) : Cache := with_loaded false (with_record None 0 c).
(** [expire] *)
Definition expired (c : Cache) : Cache :=
  mkCache (ca_tunnel c) (ca_loaded c) (ca_revision c) (ca_checked_at c) true (ca_generation c) (ca_alarm c).

(** [token_matches]: compared in constant time. *)
Definition token_matches (hash_token : string -> string) (token hash : string) : bool :=
  let actual := as_bytes (hash_token token) in
  let hash := as_bytes hash in
  (length actual =? length hash)%nat &&
  (fold_left (fun difference ab => Z.lor difference (Z.lxor ab.1 ab.2)) (combine actual hash) 0 =? 0).

Inductive Lookup (A : Type) := LookupOk (a : A) | NotFound | Unauthorized.
Arguments LookupOk {A} a.
Arguments NotFound {A}.
Arguments Unauthorized {A}.

Inductive CertificateLookup := CertificateOk (c : CertificateInfo) | CertificateNotFound | CertificateUnauthorized | NoCertificate.

Inductive Bind :=
| BindOk (c : CertificateInfo)
| BindNotFound
| BindUnauthorized
| BindInProgress
| BindInvalidRequest (reason : string)
| BindInvalidHostname (provided expected : string)
| BindUnavailable (reason : string)
| BindRateLimited (retry_after_ms : Z)
| BindBacklogged.

Record TunnelView := mkTunnelView {
  tv_id : string;
  tv_hostname : string;
  tv_state : TunnelState;
  tv_certificate_id : option string;
}.

Definition attached_bridges (t : Tunnel) : list Bridge := filter (fun b => is_attached b = true) (tn_bridges t).

(** ** Operations on one entry *)

Section Entry.
Context `{TimeText}.
(** The tunnel of the entry, the clock, the service's domain, the other machines ([Some] whether every peer is linked), and
    the generation of the service. *)
Context (id : string) (now : Z) (domain : string) (cluster : option bool) (generation : Z).
(** SHA-256, the CSR parser, and the text of an error. *)
Context (hash_token : string -> string) (parse_x509 : string -> option (list string * list string)) (error_text : SvError -> string).

Definition announce (event : Event) : SM unit :=
  match cluster with Some _ => effect (Announced event) | None => sret tt end.
Definition job_added : SM unit := _ <~ effect JobsNotified;; announce JobEnqueued.

(** *** Reading the record *)

Definition lock : SM Cache :=
  c <~ cache;;
  if ca_loaded c then sret c
  else
    found <~ st (tunnel_with_alarm id);;
    let c := match found with
             | Some s => with_alarm (Some (now, alarm s)) (with_record (Some (l_record (loaded s))) (l_revision (loaded s)) c)
             | None => with_alarm None (with_record None 0 c)
             end in
    let c := checked now generation (with_loaded true c) in
    _ <~ set_cache c;; sret c.

Definition refresh : SM Cache :=
  c <~ cache;;
  failed <~ refresh_failed_at;;
  if sat_sub now failed <? REFRESH_BACKOFF_MS then sret c
  else
    loaded <~ catch (st (tunnel id));;
    match loaded with
    | Ok loaded =>
        let c := match loaded with
                 | Some l => with_record (Some (l_record l)) (l_revision l) c
                 | None => with_record None 0 c
                 end in
        let c := checked now generation c in
        _ <~ set_cache c;; sret c
    | Err _ => _ <~ refresh_failed now;; sret c
    end.

Definition lock_fresh : SM Cache :=
  match cluster with
  | None => lock
  | Some _ => c <~ cache;; if ca_loaded c then refresh else lock
  end.

Definition lock_routable : SM Cache :=
  match cluster with
  | None => lock
  | Some complete =>
      c <~ cache;;
      if negb (ca_loaded c) then lock
      else if ca_stale c then refresh
      else if match record c with Some r => certificate_ready r | None => false end then sret c
      else if ca_generation c <? generation then refresh
      else
        let ttl := if complete then SAFETY_TTL_MS
                   else match record c with Some _ => NOT_READY_TTL_MS | None => MISSING_TTL_MS end in
        if sat_sub now (ca_checked_at c) <? ttl then sret c else refresh
  end.

(** [lock_for_attach]: the alarm too, when it was read with the record. *)
Definition attach_snapshot (c : Cache) : SM (Cache * option (option Z)) :=
  found <~ catch (st (tunnel_with_alarm id));;
  match found with
  | Ok (Some s) =>
      let c := with_alarm (Some (now, alarm s)) (with_record (Some (l_record (loaded s))) (l_revision (loaded s)) c) in
      let c := checked now generation (with_loaded true c) in
      _ <~ set_cache c;; sret (c, Some (alarm s))
  | Ok None =>
      let c := checked now generation (with_loaded true (with_record None 0 c)) in
      _ <~ set_cache c;; sret (c, None)
  | Err e => if ca_loaded c then _ <~ refresh_failed now;; sret (c, None) else sfail e
  end.

Definition lock_for_attach : SM (Cache * option (option Z)) :=
  match cluster with
  | None => c <~ lock;; sret (c, None)
  | Some _ =>
      c <~ cache;;
      failed <~ refresh_failed_at;;
      if ca_loaded c && (sat_sub now failed <? REFRESH_BACKOFF_MS) then sret (c, None)
      else
        match ca_alarm c with
        | Some (read_at, alarm) =>
            if ca_loaded c && negb (ca_stale c) && (ca_generation c =? generation) && (read_at =? ca_checked_at c)
               && (sat_sub now read_at <? ATTACH_REREAD_MS)
            then sret (c, Some alarm)
            else attach_snapshot c
        | None => attach_snapshot c
        end
  end.

(** [save]: a conflict forgets the record, which is then read again. *)
Definition save (r : StoredTunnel) : SM unit :=
  c <~ cache;;
  saved <~ catch (st (save_tunnel r (ca_revision c) now));;
  match saved with
  | Ok revision => set_cache (with_record (Some r) revision c)
  | Err e =>
      _ <~ match e with StoreFailed Conflict => set_cache (invalidated c) | _ => sret tt end;; sfail e
  end.

Definition view (c : Cache) (r : StoredTunnel) : TunnelView :=
  mkTunnelView (st_id r) (st_hostname r) (match attached_bridges (ca_tunnel c) with [] => Offline | _ => Online end)
    (certificate_id r).

(** *** The API *)

Definition new_record (token_hash : string) : StoredTunnel :=
  mkStoredTunnel 1 id (id +:+ "." +:+ domain) Offline None token_hash (iso now) None None None None None None None.

Definition create (token_hash : string) : SM (option TunnelView) :=
  c <~ lock_fresh;;
  match record c with
  | Some _ => sret None
  | None =>
      let r := new_record token_hash in
      _ <~ save r;;
      _ <~ announce (TunnelCreated id);;
      _ <~ st (set_alarm id None);;
      c <~ cache;;
      sret (Some (view c r))
  end.

Definition info (online_elsewhere : bool) (token : string) : SM (Lookup TunnelView) :=
  c <~ lock_fresh;;
  match record c with
  | None => sret NotFound
  | Some r =>
      if negb (token_matches hash_token token (token_hash r)) then sret Unauthorized
      else
        let v := view c r in
        sret (LookupOk (if bool_decide (tv_state v = Offline) && match cluster with Some _ => online_elsewhere | None => false end
                        then mkTunnelView (tv_id v) (tv_hostname v) Online (tv_certificate_id v) else v))
  end.

Definition certificate_info (token : string) : SM CertificateLookup :=
  c <~ lock_fresh;;
  match record c with
  | None => sret CertificateNotFound
  | Some r =>
      if negb (token_matches hash_token token (token_hash r)) then sret CertificateUnauthorized
      else sret (match certificate r with Some c => CertificateOk c | None => NoCertificate end)
  end.

(** *** Certificates *)

Definition ensure_issuance (r : StoredTunnel) (kind : JobKind) : SM unit :=
  let certificate_id := match kind with Renew => rn_certificate_id <$> renewal r | _ => certificate_id r end in
  match certificate_id, certificate_csr r with
  | None, _ => sfail IdMissing
  | _, None => sfail CsrMissing
  | Some certificate_id, Some csr =>
      added <~ st (add_job (mkJob certificate_id (Some (st_id r)) kind (identifiers r) csr 0 now) now);;
      if added : bool then job_added else sret tt
  end.

Definition check_backlog : SM bool := fun s =>
  match sv_limits s with
  | None => (Ok false, s)
  | Some l =>
      let '(b, l, w) := backlogged l now (sv_world s) in
      (Ok b, mkSv (sv_cache s) (sv_refresh_failed_at s) (Some l) (sv_effects s) w)
  end.
Definition check_rate : SM Verdict := fun s =>
  match sv_limits s with None => (Ok Allowed, s) | Some l => st (issuance l id now) s end.

Definition in_progress (c : CertificateInfo) : bool :=
  match ci_state c with Ready _ _ _ | Failed _ => false | _ => true end.

Definition bound (certificate_id csr : string) (identifiers : list string) (r : StoredTunnel) : StoredTunnel :=
  set_renewal None (set_certificate_started_at (Some (iso now)) (set_certificate_identifiers (Some identifiers)
    (set_certificate_csr (Some csr) (set_certificate (Some (mkCertificateInfo certificate_id Issuing))
      (set_certificate_id (Some certificate_id) r))))).

(** The part of [bind_certificate] that requests a new certificate. *)
Definition bind_new (uuid csr : string) (request : Csr.Request) (r : StoredTunnel) : SM Bind :=
  full <~ check_backlog;;
  if full : bool then sret BindBacklogged
  else
    verdict <~ check_rate;;
    match verdict with
    | Limited retry_after_ms => sret (BindRateLimited retry_after_ms)
    | Allowed =>
        let certificate_id := "cert_" +:+ uuid in
        let issuing := bound certificate_id csr (Csr.identifiers request) r in
        _ <~ save issuing;;
        _ <~ announce (CertificateChanged id);;
        started <~ catch (ensure_issuance issuing Issue);;
        match started with
        | Ok _ => sret (BindOk (mkCertificateInfo certificate_id Issuing))
        | Err e =>
            let reason := error_text e in
            _ <~ save (set_certificate (Some (mkCertificateInfo certificate_id (Failed reason))) issuing);;
            sret (BindUnavailable reason)
        end
    end.

Definition bind_certificate (uuid token csr : string) : SM Bind :=
  c <~ lock_fresh;;
  match record c with
  | None => sret BindNotFound
  | Some r =>
      if negb (token_matches hash_token token (token_hash r)) then sret BindUnauthorized
      else
        match Csr.parse parse_x509 csr with
        | None => sret (BindInvalidRequest "Failed to parse CSR")
        | Some request =>
            let wildcard := "*." +:+ st_hostname r in
            if negb (String.eqb (Csr.hostname request) (st_hostname r))
            then sret (BindInvalidHostname (Csr.hostname request) (st_hostname r))
            else if existsb (fun i => negb (String.eqb i (st_hostname r)) && negb (String.eqb i wildcard)) (Csr.identifiers request)
            then sret (BindInvalidHostname (String.concat "," (Csr.identifiers request)) (st_hostname r +:+ "," +:+ wildcard))
            else
              match certificate r with
              | Some cert =>
                  if bool_decide (certificate_csr r = Some csr) then
                    started <~ catch (ensure_issuance r Issue);;
                    match started with
                    | Ok _ => sret (BindOk cert)
                    | Err e => sret (BindUnavailable (error_text e))
                    end
                  else if in_progress cert then sret BindInProgress
                  else bind_new uuid csr request r
              | None => bind_new uuid csr request r
              end
        end
  end.

Definition remove (token : string) : SM (Lookup unit) :=
  c <~ lock_fresh;;
  match record c with
  | None => sret NotFound
  | Some r =>
      if negb (token_matches hash_token token (token_hash r)) then sret Unauthorized
      else
        _ <~ set_cache (with_tunnel (close_bridges (ca_tunnel c)) c);;
        _ <~ save (set_deleted_at (Some (iso now)) (set_state Offline r));;
        _ <~ announce (TunnelDeleted id);;
        _ <~ st (set_alarm id None);;
        sret (LookupOk tt)
  end.

Definition notify_alarm (at_ : option Z) : SM unit := _ <~ st (set_alarm id at_);; effect AlarmsNotified.

Definition schedule_renewal (r : StoredTunnel) : SM unit :=
  if is_deleted r then sret tt
  else
    match (let* expiry := ready_expiry r in parse_iso expiry) with
    | None => sret tt
    | Some expiry => notify_alarm (Some (Z.max (sat_sub expiry RENEW_BEFORE_MS) (now + MINUTE_MS)))
    end.

Definition is_ready (s : CertificateState) : bool := match s with Ready _ _ _ => true | _ => false end.

Definition update_certificate (certificate_id : string) (input : CertificateState) : SM bool :=
  c <~ lock_fresh;;
  match record c with
  | None => sret false
  | Some r =>
      match (let* rn := renewal r in if String.eqb (rn_certificate_id rn) certificate_id then Some rn else None) with
      | Some rn =>
          match input with
          | Ready _ _ _ =>
              let renewed := set_renewal None (set_certificate (Some (mkCertificateInfo (rn_certificate_id rn) input))
                               (set_certificate_id (Some (rn_certificate_id rn)) r)) in
              _ <~ save renewed;;
              _ <~ announce (CertificateChanged id);;
              _ <~ schedule_renewal renewed;;
              sret true
          | Failed _ =>
              _ <~ save (set_renewal None r);;
              _ <~ notify_alarm (Some (now + RENEWAL_RETRY_MS));;
              sret true
          | _ => sret true
          end
      | None =>
          if negb (bool_decide (Record.certificate_id r = Some certificate_id)) then sret false
          else
            let updated := set_certificate (Some (mkCertificateInfo certificate_id input)) r in
            _ <~ save updated;;
            _ <~ (if is_ready input then announce (CertificateChanged id) else sret tt);;
            _ <~ schedule_renewal updated;;
            sret true
      end
  end.

Definition wants (certificate_id : string) (r : StoredTunnel) : bool :=
  bool_decide (Record.certificate_id r = Some certificate_id) ||
  match renewal r with Some rn => String.eqb (rn_certificate_id rn) certificate_id | None => false end.

Definition wants_certificate (certificate_id : string) : SM bool :=
  c <~ lock_fresh;;
  sret (match record c with Some r => wants certificate_id r | None => false end).

Definition is_active (c : Cache) (r : StoredTunnel) : bool :=
  match attached_bridges (ca_tunnel c) with
  | _ :: _ => true
  | [] => match (let* at_ := last_connected_at r in parse_iso at_) with
          | Some connected => sat_sub now connected <? ACTIVE_WINDOW_MS
          | None => false
          end
  end.

Definition start_renewal (uuid : string) (r : StoredTunnel) : SM unit :=
  match certificate_csr r with
  | None => sret tt
  | Some _ =>
      let renewing := set_renewal (Some (mkRenewal ("cert_" +:+ uuid) (iso now))) r in
      _ <~ save renewing;;
      started <~ catch (ensure_issuance renewing Renew);;
      match started with
      | Ok _ => sret tt
      | Err _ =>
          _ <~ save r;;
          notify_alarm (Some (now + RENEWAL_RETRY_MS))
      end
  end.

Definition renewal_started (r : StoredTunnel) : option (option Z) := (fun rn => parse_iso (rn_started_at rn)) <$> renewal r.

(** [alarm] *)
Definition alarm_fired (uuid : string) : SM unit :=
  c <~ lock_fresh;;
  match record c with
  | None => sret tt
  | Some r =>
      match (let* expiry := ready_expiry r in parse_iso expiry) with
      | None => sret tt
      | Some expiry =>
          if match renewal_started r with Some (Some started) => sat_sub now started <? RENEWAL_STALE_MS | _ => false end
          then sret tt
          else if now <? sat_sub expiry RENEW_BEFORE_MS then schedule_renewal r
          else if negb (is_active c r) then sret tt
          else start_renewal uuid r
      end
  end.

Definition on_attached (uuid : string) (r : StoredTunnel) (alarm : option (option Z)) : SM unit :=
  match (let* expiry := ready_expiry r in parse_iso expiry) with
  | None => sret tt
  | Some expiry =>
      let stale := match renewal_started r with
                   | None => false
                   | Some None => true
                   | Some (Some started) => RENEWAL_STALE_MS <=? sat_sub now started
                   end in
      if (match renewal r with None => true | Some _ => false end || stale) && (sat_sub expiry RENEW_BEFORE_MS <=? now)
      then start_renewal uuid r
      else
        alarm <~ match alarm with Some alarm => sret alarm | None => st (get_alarm (st_id r)) end;;
        match alarm with None => schedule_renewal r | Some _ => sret tt end
  end.

Definition recent (r : StoredTunnel) : bool :=
  bool_decide (st_state r = Online) &&
  match (let* at_ := last_connected_at r in parse_iso at_) with
  | Some at_ => sat_sub now at_ <? LAST_CONNECTED_INTERVAL_MS
  | None => false
  end.

(** [after_attach], for the bridge [bridge]; a failure is logged. *)
Definition after_attach (uuid : string) (bridge : Z) (alarm : option (option Z)) : SM unit :=
  c <~ cache;;
  match record c with
  | None => sret tt
  | Some r =>
      if negb (existsb (fun b => (br_id b =? bridge) && is_attached b) (tn_bridges (ca_tunnel c))) then sret tt
      else
        saved <~ (if recent r then sret (Some r)
                  else
                    let connected := set_last_connected_at (Some (iso now)) (set_state Online r) in
                    saved <~ catch (save connected);;
                    sret (match saved with Ok _ => Some connected | Err _ => None end));;
        match saved with
        | None => sret tt
        | Some r => _ <~ catch (on_attached uuid r alarm);; sret tt
        end
  end.

(** One candidate of [resume_orphaned_issuance]: how many issuances were resumed. *)
Definition orphaned (grace_ms : Z) (started : option string) : bool :=
  match (let* s := started in parse_iso s) with
  | Some started => let age := sat_sub now started in (grace_ms <=? age) && (age <? ORPHAN_MAX_AGE_MS)
  | None => false
  end.

Definition resume_one (r : StoredTunnel) (kind : JobKind) (certificate_id : string) : SM nat :=
  exists_ <~ st (job_exists certificate_id);;
  if exists_ : bool then sret 0%nat else (_ <~ ensure_issuance r kind;; sret 1%nat).

Definition resume_candidate (grace_ms : Z) : SM nat :=
  c <~ lock_fresh;;
  match record c with
  | None => sret 0%nat
  | Some r =>
      first <~ match certificate_id r with
               | Some certificate_id =>
                   if match certificate r with Some cert => in_progress cert | None => false end
                      && orphaned grace_ms (certificate_started_at r)
                   then resume_one r Issue certificate_id else sret 0%nat
               | None => sret 0%nat
               end;;
      second <~ match renewal r with
                | Some rn =>
                    if orphaned grace_ms (Some (rn_started_at rn)) then resume_one r Renew (rn_certificate_id rn) else sret 0%nat
                | None => sret 0%nat
                end;;
      sret (first + second)%nat
  end.

(** One job of [retry_failed_issuance], of either of its two loops: whether it was queued again. *)
Definition is_failed (s : CertificateState) : bool := match s with Failed _ => true | _ => false end.

Definition requeue (wanted_state : CertificateState -> bool) (queue : M bool) (certificate_id : string) : SM bool :=
  c <~ lock_fresh;;
  match record c with
  | None => sret false
  | Some r =>
      let waiting :=
        bool_decide (Record.certificate_id r = Some certificate_id) &&
        match certificate r with
        | Some cert => String.eqb (ci_id cert) certificate_id && wanted_state (ci_state cert)
        | None => false
        end in
      if negb waiting then sret false
      else
        requeued <~ st queue;;
        if requeued : bool then
          _ <~ (if match certificate r with Some cert => is_failed (ci_state cert) | None => false end
                then _ <~ catch (save (set_certificate (Some (mkCertificateInfo certificate_id Issuing)) r));; sret tt
                else sret tt);;
          sret true
        else sret false
  end.

Definition retry_failed (certificate_id : string) : SM bool :=
  requeue is_failed (requeue_failed_job certificate_id now) certificate_id.
Definition retry_pending_authz (certificate_id : string) : SM bool :=
  requeue (fun s => negb (is_ready s)) (requeue_job_queued_before certificate_id AUTHZ_PENDING_FIX_MS now) certificate_id.
End Entry.

(** ** The service: every entry of a machine *)

Record Svc := mkSvc {
  svc_entries : gmap string Cache;
  svc_refresh_failed_at : Z;
  svc_limits : option Limits;
  svc_effects : list Effect;
  svc_world : Db * list Turn;
}.

(** [EntryState::default] *)
Definition new_entry (id : string) : Cache := mkCache (mkTunnel id None [] 0 None) false 0 0 false 0 None.

(** [entry], and an operation on it. *)
Definition on_entry {A} (id : string) (m : SM A) (s : Svc) : result A SvError * Svc :=
  let c := default (new_entry id) (svc_entries s !! id) in
  let '(r, s') := m (mkSv c (svc_refresh_failed_at s) (svc_limits s) (svc_effects s) (svc_world s)) in
  (r, mkSvc (<[id := sv_cache s']> (svc_entries s)) (sv_refresh_failed_at s') (sv_limits s') (sv_effects s') (sv_world s')).

Definition svc_st {A} (m : M A) (s : Svc) : result A SvError * Svc :=
  let '(r, w) := m (svc_world s) in
  (match r with Ok a => Ok a | Err e => Err (StoreFailed e) end,
   mkSvc (svc_entries s) (svc_refresh_failed_at s) (svc_limits s) (svc_effects s) w).

(** [collect_idle]: an entry somebody holds, with bridges, or read lately stays. *)
Definition collect_idle (now : Z) (held : string -> bool) (s : Svc) : Svc :=
  mkSvc (filter (fun ic => held ic.1 = true \/ tn_bridges (ca_tunnel ic.2) <> [] \/
                           ca_loaded ic.2 = true /\ sat_sub now (ca_checked_at ic.2) < MISSING_TTL_MS) (svc_entries s))
    (svc_refresh_failed_at s) (svc_limits s) (svc_effects s) (svc_world s).

Record FailedJob := mkFailedJob {
  fj_certificate_id : string;
  fj_tunnel_id : option string;
  fj_last_error : string;
  fj_created_at : Z;
  fj_updated_at : Z;
}.

Definition failed_job_from_row (id : string) (row : JobRow) : FailedJob :=
  mkFailedJob id (j_tunnel_id row) (default "" (j_last_error row)) (j_created_at row) (j_updated_at row).

Definition failed_jobs (matches_ : JobRow -> bool) : M (list FailedJob) :=
  query (fun d => map (fun kv => failed_job_from_row kv.1 kv.2) (filter (fun kv => matches_ kv.2 = true) (map_to_list (jobs d)))).
Definition failed_issue_jobs (since : Z) : M (list FailedJob) :=
  failed_jobs (fun row => bool_decide (j_status row = JFailed) && String.eqb (j_kind row) "issue" && (since <=? j_updated_at row)).
Definition authz_pending_issue_jobs (before since : Z) : M (list FailedJob) :=
  failed_jobs (fun row =>
    String.eqb (j_kind row) "issue" && (bool_decide (j_status row = JFailed) || bool_decide (j_status row = Pending))
    && (j_created_at row <? before) && (since <=? j_updated_at row)
    && str_contains (default "" (j_last_error row)) "authorization ended in pending").

Section Reconcile.
Context `{TimeText}.
Context (now : Z) (domain : string) (cluster : option bool) (generation : Z).

Fixpoint resume_loop (grace_ms : Z) (candidates : list StoredTunnel) (s : Svc) : result nat SvError * Svc :=
  match candidates with
  | [] => (Ok 0%nat, s)
  | candidate :: candidates' =>
      match on_entry (st_id candidate) (resume_candidate (st_id candidate) now cluster generation grace_ms) s with
      | (Ok n, s) =>
          match resume_loop grace_ms candidates' s with
          | (Ok m, s) => (Ok (n + m)%nat, s)
          | (Err e, s) => (Err e, s)
          end
      | (Err e, s) => (Err e, s)
      end
  end.

Definition resume_orphaned_issuance (grace_ms : Z) (s : Svc) : result nat SvError * Svc :=
  match svc_st issuing_tunnels s with
  | (Ok candidates, s) => resume_loop grace_ms candidates s
  | (Err e, s) => (Err e, s)
  end.

(** The jobs of a loop of [retry_failed_issuance] that [skip] does not pass over; the certificates queued again. *)
Fixpoint requeue_loop (skip : FailedJob -> bool) (one : string -> string -> SM bool) (found : list FailedJob) (s : Svc)
    : result (list string) SvError * Svc :=
  match found with
  | [] => (Ok [], s)
  | job :: found' =>
      match fj_tunnel_id job with
      | Some tunnel =>
          if skip job then requeue_loop skip one found' s
          else
            match on_entry tunnel (one tunnel (fj_certificate_id job)) s with
            | (Ok requeued, s) =>
                match requeue_loop skip one found' s with
                | (Ok seen, s) => (Ok (if requeued : bool then fj_certificate_id job :: seen else seen), s)
                | (Err e, s) => (Err e, s)
                end
            | (Err e, s) => (Err e, s)
            end
      | None => requeue_loop skip one found' s
      end
  end.

Definition gave_up_early (job : FailedJob) : bool :=
  (sat_sub (fj_updated_at job) (fj_created_at job) <? RETRY_WINDOW_MS / 2) &&
  match classify_reason (fj_last_error job) with FTransient _ => true | _ => false end.

Definition retry_failed_issuance (s : Svc) : result nat SvError * Svc :=
  let since := sat_sub now RETRY_FAILED_MAX_AGE_MS in
  match svc_st (failed_issue_jobs since) s with
  | (Err e, s) => (Err e, s)
  | (Ok found, s) =>
      match requeue_loop (fun job => negb (gave_up_early job)) (fun id => retry_failed id now cluster generation) found s with
      | (Err e, s) => (Err e, s)
      | (Ok first, s) =>
          match svc_st (authz_pending_issue_jobs AUTHZ_PENDING_FIX_MS since) s with
          | (Err e, s) => (Err e, s)
          | (Ok found, s) =>
              match requeue_loop (fun job => bool_decide (fj_certificate_id job ∈ first))
                      (fun id => retry_pending_authz id now cluster generation) found s with
              | (Err e, s) => (Err e, s)
              | (Ok second, s) =>
                  let n := (length first + length second)%nat in
                  let effects := if (0 <? n)%nat
                                 then [JobsNotified] ++ match cluster with Some _ => [Announced JobEnqueued] | None => [] end
                                 else [] in
                  (Ok n, mkSvc (svc_entries s) (svc_refresh_failed_at s) (svc_limits s) (svc_effects s ++ effects) (svc_world s))
              end
          end
      end
  end.
End Reconcile.

(** ** What may become of a tunnel's record

    The life of a record, as an automaton over its fields: every write of every operation is one of these steps. *)

Record created (r : StoredTunnel) : Prop := mkCreated {
  cr_live : is_deleted r = false;
  cr_certificate : certificate r = None;
  cr_id : certificate_id r = None;
  cr_renewal : renewal r = None;
  cr_connected : last_connected_at r = None;
}.

(** The kinds of steps. *)
Inductive Life :=
| LCreate
| LDelete
| LBind (certificate_id : string)
| LProgress (certificate_id : string) (state : CertificateState)
| LRenewed (certificate_id : string) (state : CertificateState)
| LRenewal (renewing : option Renewal)
| LRequeued (certificate_id : string)
| LConnected.

Inductive evolves : Life -> StoredTunnel -> StoredTunnel -> Prop :=
| ev_recreate r r' : is_deleted r = true -> st_id r' = st_id r -> created r' -> evolves LCreate r r'
| ev_delete r at_ : is_deleted r = false -> evolves LDelete r (set_deleted_at (Some at_) (set_state Offline r))
| ev_bind r certificate_id csr identifiers at_ :
    is_deleted r = false -> (forall c, certificate r = Some c -> in_progress c = false) ->
    evolves (LBind certificate_id) r
      (set_renewal None (set_certificate_started_at (Some at_) (set_certificate_identifiers (Some identifiers)
        (set_certificate_csr (Some csr) (set_certificate (Some (mkCertificateInfo certificate_id Issuing))
          (set_certificate_id (Some certificate_id) r))))))
| ev_progress r cid state :
    is_deleted r = false -> certificate_id r = Some cid ->
    evolves (LProgress cid state) r (set_certificate (Some (mkCertificateInfo cid state)) r)
| ev_renewed r rn state :
    is_deleted r = false -> renewal r = Some rn -> is_ready state = true ->
    evolves (LRenewed (rn_certificate_id rn) state) r
      (set_renewal None (set_certificate (Some (mkCertificateInfo (rn_certificate_id rn) state))
        (set_certificate_id (Some (rn_certificate_id rn)) r)))
| ev_renewal r rn :
    is_deleted r = false -> (rn <> None -> certificate_csr r <> None) -> evolves (LRenewal rn) r (set_renewal rn r)
| ev_requeued r cid c :
    is_deleted r = false -> certificate_id r = Some cid -> certificate r = Some c -> is_ready (ci_state c) = false ->
    evolves (LRequeued cid) r (set_certificate (Some (mkCertificateInfo cid Issuing)) r)
| ev_connected r at_ : is_deleted r = false -> evolves LConnected r (set_last_connected_at (Some at_) (set_state Online r)).

Lemma evolves_id l r r' : evolves l r r' -> st_id r' = st_id r.
Proof. by destruct 1. Qed.

Create HintDb service.

Section Steps.
(** The kinds of steps an operation may take. *)
Context (L : Life -> Prop).

(** A write of one's own: every record stays, takes a step of its life, or is a new tunnel's. *)
Definition row_step (o o' : option TunnelRow) : Prop :=
  match o, o' with
  | Some row, Some row' => t_record row' = t_record row \/ exists l, L l /\ evolves l (t_record row) (t_record row')
  | None, Some row' => L LCreate /\ created (t_record row')
  | None, None => True
  | Some _, None => False
  end.
Definition own_step (d d' : Db) : Prop := forall i, row_step (tunnels d !! i) (tunnels d' !! i).

(** The databases an operation passes through: statements of others, which [F] holds of, and its own steps. *)
Definition db_step (F : Stmt -> Prop) (d d' : Db) : Prop := exists s, d' = fst (exec s d) /\ (F s \/ own_step d d').
Definition acts (F : Stmt -> Prop) : Db -> Db -> Prop := rtc (db_step F).

(** Rows are stored under their tunnel's name, with a revision of at least 1. *)
Definition db_ok (d : Db) : Prop := forall i row, tunnels d !! i = Some row -> st_id (t_record row) = i /\ 1 <= t_revision row.

(** A row that was read once: it is still that one, or a later revision. *)
Definition was (i : string) (r : StoredTunnel) (revision : Z) (d : Db) : Prop :=
  exists row, tunnels d !! i = Some row /\ (revision < t_revision row \/ t_revision row = revision /\ t_record row = r).

(** What an entry caches was read from the database. *)
Definition cache_ok (i : string) (c : Cache) (d : Db) : Prop :=
  tn_id (ca_tunnel c) = i /\
  match tn_record (ca_tunnel c) with
  | Some r => st_id r = i /\ 1 <= ca_revision c /\ was i r (ca_revision c) d
  | None => ca_revision c = 0
  end.

(** *** Lemmas on the database *)

Lemma exec_db_ok s d : db_ok d -> db_ok (fst (exec s d)).
Proof.
  intros Hd.
  assert (forall i' (r : TunnelRow), st_id (t_record r) = i' -> 1 <= t_revision r -> forall i row,
    <[i' := r]> (tunnels d) !! i = Some row -> st_id (t_record row) = i /\ 1 <= t_revision row) as Hins.
  { intros i' r Hi Hr i row. destruct (decide (i' = i)) as [->|Hne].
    - rewrite lookup_insert_eq. by intros [= <-].
    - rewrite lookup_insert_ne by done. apply Hd. }
  intros i row. destruct s; cbn [exec]; try (destruct (record_flags record0) as [dl iss]);
    try split_update; cbn [fst set_tunnels set_jobs set_rate_limits set_meta_table set_server_certificates tunnels];
    eauto; repeat (case_split; cbn [fst set_tunnels set_jobs set_rate_limits set_meta_table set_server_certificates tunnels]);
    eauto; apply Hins; cbn [t_record t_revision]; try done;
    match goal with H : tunnels d !! _ = Some _ |- _ => destruct (Hd _ _ H); try done; lia end.
Qed.

Lemma exec_was i r revision s d : was i r revision d -> was i r revision (fst (exec s d)).
Proof.
  intros (row & Hrow & Hr). destruct (exec_tunnel s d i row Hrow) as (row' & Hrow' & Hr'). exists row'. split; [done|].
  destruct Hr as [?|[? ?]], Hr' as [?|[? ?]]; try (left; lia). right. split; congruence.
Qed.

Lemma exec_cache_ok i c s d : cache_ok i c d -> cache_ok i c (fst (exec s d)).
Proof. unfold cache_ok. intros [? Hr]. split; [done|]. destruct (tn_record _); [|done]. destruct Hr as (? & ? & ?). auto using exec_was. Qed.

Lemma run_was i r revision ss d : was i r revision d -> was i r revision (run ss d).
Proof. intros Hw. apply run_preserves; [|done]. intros. by apply exec_was. Qed.

Lemma acts_keeps F (R : Db -> Prop) d d' : (forall s d, R d -> R (fst (exec s d))) -> acts F d d' -> R d -> R d'.
Proof. intros HR. induction 1 as [|a b c (s & -> & _) _ IH]; auto. Qed.

Lemma acts_run (F : Stmt -> Prop) ss d : Forall F ss -> acts F d (run ss d).
Proof.
  intros Hss. revert d. induction Hss as [|s ss Hs _ IH]; intros d; [apply rtc_refl|]. rewrite run_cons.
  eapply rtc_l; [|apply IH]. exists s. auto.
Qed.

(** A statement, if it is an own step wherever others left the database. *)
Lemma stmt_acts F s d turns r d' turns' :
  stmt s (d, turns) = (r, (d', turns')) -> turns_keep F turns ->
  (forall ss, Forall F ss -> own_step (run ss d) (fst (exec s (run ss d)))) ->
  acts F d d' /\ turns_keep F turns' /\
  forall o, r = Ok o -> exists ss, Forall F ss /\ exec s (run ss d) = (d', o).
Proof.
  unfold stmt. destruct (next_turn turns) as [t ts] eqn:Et. intros Hs HF Hown. destruct (next_turn_keeps _ _ _ _ Et HF) as [Ho Hts].
  assert (acts F d (fst (exec s (run (others t) d)))) as Ha.
  { eapply rtc_r; [by apply acts_run|]. exists s. auto. }
  destruct (fault t); [|injection Hs as <- <- <-; split_and!; [by apply acts_run|done|done]
                       |injection Hs as <- <- <-; split_and!; [done|done|done]].
  destruct (exec s (run (others t) d)) as [d2 o] eqn:E. injection Hs as <- <- <-. cbn in Ha. split_and!; [done|done|].
  intros o' [= <-]. eauto.
Qed.

Lemma query_acts {A} F (f : Db -> A) d turns r d' turns' :
  query f (d, turns) = (r, (d', turns')) -> turns_keep F turns ->
  acts F d d' /\ turns_keep F turns' /\ forall a, r = Ok a -> a = f d'.
Proof.
  unfold query. destruct (next_turn turns) as [t ts] eqn:Et. intros Hq HF. destruct (next_turn_keeps _ _ _ _ Et HF) as [Ho Hts].
  destruct (fault t); injection Hq as <- <- <-; (split_and!; [by apply acts_run|done|]); congruence.
Qed.

(** A statement that leaves the tunnels' records alone. *)
Definition recordless (s : Stmt) : Prop := forall d, own_step d (fst (exec s d)).

Lemma own_step_same d d' : tunnels d' = tunnels d -> own_step d d'.
Proof. intros E i. rewrite E. unfold row_step. destruct (tunnels d !! i); auto. Qed.

Ltac solve_recordless :=
  intros d; cbn [exec]; try split_update; repeat case_split; by apply own_step_same.

Lemma recordless_set_alarm i at_ : recordless (SSetAlarm i at_).
Proof.
  intros d. cbn [exec]. split_update; cbn; [|by apply own_step_same]. intros j. cbn. destruct (decide (i = j)) as [->|Hne].
  - rewrite lookup_insert_eq, H. cbn. auto.
  - rewrite lookup_insert_ne by done. unfold row_step. destruct (tunnels d !! j); auto.
Qed.
Lemma recordless_insert_job i row : recordless (SInsertJob i row).
Proof. solve_recordless. Qed.
Lemma recordless_take_rate name now interval tolerance : recordless (STakeRate name now interval tolerance).
Proof. solve_recordless. Qed.
Lemma recordless_insert_rate name tat : recordless (SInsertRate name tat).
Proof. solve_recordless. Qed.
Lemma recordless_requeue i now : recordless (SRequeueFailed i now).
Proof. solve_recordless. Qed.
Lemma recordless_requeue_before i before now : recordless (SRequeueBefore i before now).
Proof. solve_recordless. Qed.

(** An operation of the store whose own statements leave the records alone. *)
Definition harmless {A} (m : M A) : Prop :=
  forall F d turns r d' turns', m (d, turns) = (r, (d', turns')) -> turns_keep F turns -> acts F d d' /\ turns_keep F turns'.

Lemma harmless_ret {A} (a : A) : harmless (ret a).
Proof. intros F d turns r d' turns' [= <- <- <-] HF. split; [apply rtc_refl|done]. Qed.
Lemma harmless_fail {A} e : harmless (@fail A e).
Proof. intros F d turns r d' turns' [= <- <- <-] HF. split; [apply rtc_refl|done]. Qed.
Lemma harmless_bind {A B} (m : M A) (k : A -> M B) : harmless m -> (forall a, harmless (k a)) -> harmless (bind m k).
Proof.
  intros Hm Hk F d turns r d' turns' H HF. unfold bind in H. destruct (m (d, turns)) as [[a|e] [d1 t1]] eqn:E.
  - destruct (Hm _ _ _ _ _ _ E HF) as [H1 H2]. destruct (Hk _ _ _ _ _ _ _ H H2) as [H3 H4]. split; [by etransitivity|done].
  - injection H as <- <- <-. by eapply Hm.
Qed.
Lemma harmless_stmt s : recordless s -> harmless (stmt s).
Proof. intros Hs F d turns r d' turns' H HF. destruct (stmt_acts _ _ _ _ _ _ _ H HF) as (H1 & H2 & _); [|done]. intros. apply Hs. Qed.
Lemma harmless_query {A} (f : Db -> A) : harmless (query f).
Proof. intros F d turns r d' turns' H HF. by destruct (query_acts _ _ _ _ _ _ _ H HF) as (H1 & H2 & _). Qed.

#[local] Hint Resolve harmless_ret harmless_fail harmless_bind harmless_stmt harmless_query recordless_set_alarm
  recordless_insert_job recordless_take_rate recordless_insert_rate recordless_requeue recordless_requeue_before : service.

Ltac solve_harmless :=
  repeat first
    [ progress intros
    | apply harmless_ret | apply harmless_fail | apply harmless_query | apply harmless_bind
    | apply harmless_stmt; solve [auto with service]
    | case_split ].

Lemma harmless_alarm i at_ : harmless (set_alarm i at_).
Proof. unfold set_alarm. solve_harmless. Qed.
Lemma harmless_get_alarm i : harmless (get_alarm i).
Proof. unfold get_alarm. solve_harmless. Qed.
Lemma harmless_add_job job run_at : harmless (add_job job run_at).
Proof. unfold add_job. solve_harmless. Qed.
Lemma harmless_job_exists i : harmless (job_exists i).
Proof. unfold job_exists, job_status. solve_harmless. Qed.
Lemma harmless_take_rate tries name now rate : harmless (interp (take_rate_loop tries name now rate)).
Proof. induction tries; repeat progress (cbn [take_rate_loop interp]; solve_harmless); done. Qed.
Lemma harmless_issuance l i now : harmless (issuance l i now).
Proof. unfold issuance, take_limit, take_rate. case_split; [apply harmless_take_rate|solve_harmless]. Qed.
Lemma harmless_requeue_failed i now : harmless (requeue_failed_job i now).
Proof. unfold requeue_failed_job. solve_harmless. Qed.
Lemma harmless_requeue_before i before now : harmless (requeue_job_queued_before i before now).
Proof. unfold requeue_job_queued_before. solve_harmless. Qed.
#[local] Hint Resolve harmless_alarm harmless_get_alarm harmless_add_job harmless_job_exists harmless_issuance
  harmless_requeue_failed harmless_requeue_before : service.

(** *** A logic for operations *)

Definition sv_db (s : Sv) : Db := fst (sv_world s).
Definition sv_turns (s : Sv) : list Turn := snd (sv_world s).
Definition sv_ok (i : string) (s : Sv) : Prop := db_ok (sv_db s) /\ cache_ok i (sv_cache s) (sv_db s).

(** An assertion about the cache alone, which others cannot change. *)
Definition on (P : Cache -> Prop) (s : Sv) : Prop := P (sv_cache s).

(** From a state with [P], whatever others do: the database only takes others' and own steps, the cache stays one that was
    read, and a result is [Q]. *)
Definition triple {A} (i : string) (P : Sv -> Prop) (m : SM A) (Q : A -> Sv -> Prop) : Prop :=
  forall F s r s', turns_keep F (sv_turns s) -> sv_ok i s -> P s -> m s = (r, s') ->
    turns_keep F (sv_turns s') /\ sv_ok i s' /\ acts F (sv_db s) (sv_db s') /\ forall a, r = Ok a -> Q a s'.

Section Rules.
Context (i : string).

Lemma hoare_ret {A} (P : Sv -> Prop) (a : A) (Q : A -> Sv -> Prop) : (forall s, sv_ok i s -> P s -> Q a s) -> triple i P (sret a) Q.
Proof. intros HQ F s r s' HF Hok HP [= <- <-]. split_and!; [done|done|apply rtc_refl|]. intros a' [= <-]. auto. Qed.

Lemma hoare_fail {A} P e (Q : A -> Sv -> Prop) : triple i P (sfail e) Q.
Proof. intros F s r s' HF Hok HP [= <- <-]. split_and!; [done|done|apply rtc_refl|done]. Qed.

Lemma hoare_bind {A B} P (m : SM A) (k : A -> SM B) Q R :
  triple i P m Q -> (forall a, triple i (Q a) (k a) R) -> triple i P (sbind m k) R.
Proof.
  intros Hm Hk F s r s' HF Hok HP H. unfold sbind in H. destruct (m s) as [[a|e] s1] eqn:E.
  - destruct (Hm _ _ _ _ HF Hok HP E) as (H1 & H2 & H3 & H4). specialize (H4 a eq_refl).
    destruct (Hk a _ _ _ _ H1 H2 H4 H) as (H5 & H6 & H7 & H8). split_and!; [done|done|by etransitivity|done].
  - injection H as <- <-. destruct (Hm _ _ _ _ HF Hok HP E) as (H1 & H2 & H3 & _). by split_and!.
Qed.

Lemma hoare_weaken {A} (P P' : Sv -> Prop) (m : SM A) (Q Q' : A -> Sv -> Prop) :
  triple i P' m Q' -> (forall s, P s -> P' s) -> (forall a s, Q' a s -> Q a s) -> triple i P m Q.
Proof.
  intros Hm HP HQ F s r s' HF Hok Hp H. destruct (Hm _ _ _ _ HF Hok (HP _ Hp) H) as (H1 & H2 & H3 & H4). split_and!; auto.
Qed.

(** What follows from the state being in order. *)
Lemma hoare_have {A} (P P' : Sv -> Prop) (m : SM A) Q :
  (forall s, sv_ok i s -> P s -> P' s) -> triple i P' m Q -> triple i P m Q.
Proof. intros HP Hm F s r s' HF Hok Hp H. eapply Hm; eauto. Qed.

Lemma hoare_prop {A} (phi : Prop) (P : Sv -> Prop) (m : SM A) Q :
  (forall s, sv_ok i s -> P s -> phi) -> (phi -> triple i P m Q) -> triple i P m Q.
Proof. intros Hphi Hm F s r s' HF Hok Hp H. eapply Hm; eauto. Qed.

Lemma acts_ok F c d d' : acts F d d' -> db_ok d -> cache_ok i c d -> db_ok d' /\ cache_ok i c d'.
Proof.
  intros Ha Hd Hc. split.
  - eapply (acts_keeps _ db_ok); [|done|done]. intros. by apply exec_db_ok.
  - eapply (acts_keeps _ (cache_ok i c)); [|done|done]. intros. by apply exec_cache_ok.
Qed.

Lemma hoare_catch_st {A} P (m : M A) : harmless m -> triple i (on P) (catch (st m)) (fun _ => on P).
Proof.
  intros Hm F s r s' HF [Hd Hc] HP H. unfold catch, st in H. destruct s as [c rf l ef [d turns]]. cbn in *.
  destruct (m (d, turns)) as [r0 [d' turns']] eqn:E. injection H as <- <-. destruct (Hm _ _ _ _ _ _ E HF) as [Ha Ht].
  split_and!; [done|split; cbn; by eapply acts_ok|done|done].
Qed.

Lemma hoare_uncatch {A} P (m : SM A) Q :
  triple i P (catch m) (fun r s => match r with Ok a => Q a s | Err _ => True end) -> triple i P m Q.
Proof.
  intros Hm F s r s' HF Hok HP H. destruct (Hm F s (Ok r) s' HF Hok HP) as (H1 & H2 & H3 & H4).
  { unfold catch. by rewrite H. }
  split_and!; [done|done|done|]. intros a ->. by apply (H4 (Ok a)).
Qed.

Lemma hoare_st {A} P (m : M A) : harmless m -> triple i (on P) (st m) (fun _ => on P).
Proof.
  intros Hm. apply hoare_uncatch. eapply hoare_weaken; [by apply hoare_catch_st|done|]. by intros [a|e] s.
Qed.

Lemma hoare_catch {A} P (m : SM A) Q :
  triple i P m Q -> triple i P (catch m) (fun r s => match r with Ok a => Q a s | Err _ => True end).
Proof.
  intros Hm F s r s' HF Hok HP H. unfold catch in H. destruct (m s) as [r0 s1] eqn:E. injection H as <- <-.
  destruct (Hm _ _ _ _ HF Hok HP E) as (H1 & H2 & H3 & H4). split_and!; try done. intros a [= <-]. destruct r0; auto.
Qed.

(** A read sees the database it leaves. *)
Lemma hoare_catch_query {A} P (f : Db -> A) :
  triple i (on P) (catch (st (query f))) (fun r s => on P s /\ forall a, r = Ok a -> a = f (sv_db s)).
Proof.
  intros F s r s' HF [Hd Hc] HP H. unfold catch, st in H. destruct s as [c rf l ef [d turns]].
  unfold sv_turns, sv_db, on in *. cbn [sv_world sv_cache fst snd] in *.
  destruct (query f (d, turns)) as [r0 [d' turns']] eqn:E. injection H as <- <-.
  destruct (query_acts _ _ _ _ _ _ _ E HF) as (Ha & Ht & Hf).
  split_and!; [done|split; cbn; by eapply acts_ok|done|]. intros a Ea. split; [done|]. intros b Hb. cbn.
  destruct r0; simplify_eq/=. by apply Hf.
Qed.

Lemma hoare_effect P e : triple i (on P) (effect e) (fun _ => on P).
Proof. intros F s r s' HF Hok HP [= <- <-]. split_and!; [done|done|apply rtc_refl|done]. Qed.

Lemma hoare_cache P : triple i P cache (fun c s => on (eq c) s /\ P s).
Proof. intros F s r s' HF Hok HP [= <- <-]. split_and!; [done|done|apply rtc_refl|]. by intros a [= <-]. Qed.

Lemma hoare_refresh_failed_at P : triple i P refresh_failed_at (fun _ => P).
Proof. intros F s r s' HF Hok HP [= <- <-]. by split_and!; [|..|apply rtc_refl|]. Qed.

Lemma hoare_refresh_failed P now : triple i (on P) (refresh_failed now) (fun _ => on P).
Proof. intros F s r s' HF Hok HP [= <- <-]. split_and!; [done|done|apply rtc_refl|done]. Qed.

Lemma hoare_set_cache P c : (forall s, sv_ok i s -> P s -> cache_ok i c (sv_db s)) -> triple i P (set_cache c) (fun _ => on (eq c)).
Proof.
  intros Hc F s r s' HF Hok HP [= <- <-]. split_and!; [done|split; [apply Hok|exact (Hc s Hok HP)]|apply rtc_refl|done].
Qed.
End Rules.

(** *** The operations, each with the records it writes *)

Section EntryRules.
Context `{TimeText}.
Context (id : string) (now : Z) (domain : string) (cluster : option bool) (generation : Z).
Context (hash_token : string -> string) (parse_x509 : string -> option (list string * list string)) (error_text : SvError -> string).

Abbreviation hoare := (triple id).
Abbreviation lock := (lock id now generation).
Abbreviation refresh := (refresh id now generation).
Abbreviation lock_fresh := (lock_fresh id now cluster generation).

(** The cached record, live or not; [None] without one. *)
Definition cached (r : option StoredTunnel) (c : Cache) : Prop := tn_record (ca_tunnel c) = r.

Lemma cache_ok_read c d :
  db_ok d -> tn_id (ca_tunnel c) = id ->
  cache_ok id (match read_tunnel id d with
               | Some s => with_record (Some (l_record (loaded s))) (l_revision (loaded s)) c
               | None => with_record None 0 c
               end) d.
Proof.
  intros Hd Hid. unfold read_tunnel. destruct (tunnels d !! id) as [row|] eqn:E; cbn; [|done].
  destruct (Hd _ _ E) as [H1 H2]. split; [done|]. cbn. split_and!; try done. exists row. auto.
Qed.

Lemma cache_ok_eq c c' d :
  ca_tunnel c' = ca_tunnel c -> ca_revision c' = ca_revision c -> cache_ok id c d -> cache_ok id c' d.
Proof. unfold cache_ok. by intros -> ->. Qed.

Lemma hoare_announce P event : hoare (on P) (announce cluster event) (fun _ => on P).
Proof. unfold announce. destruct cluster; [apply hoare_effect|]. by apply hoare_ret. Qed.

Lemma hoare_job_added P : hoare (on P) (job_added cluster) (fun _ => on P).
Proof. unfold job_added. eapply hoare_bind; [apply hoare_effect|]. intros u. apply hoare_announce. Qed.

(** A lock returns the entry as it leaves it. *)
Lemma hoare_lock P : hoare P lock (fun c => on (eq c)).
Proof.
  unfold lock. eapply hoare_bind; [apply hoare_cache|]. intros c. case_split; [by apply hoare_ret; naive_solver|].
  eapply hoare_bind with (Q := fun found s => on (eq c) s /\ found = read_tunnel id (sv_db s)).
  - apply hoare_uncatch. eapply hoare_weaken; [apply (hoare_catch_query _ (eq c))| |].
    + by intros s [Hs _].
    + intros [a|e] s [Hs Ha]; [|done]. split; [done|by apply Ha].
  - intros found. set (c' := checked _ _ _). eapply hoare_bind; [apply hoare_set_cache with (c := c')|].
    + intros s [Hd Hc] [Hs ->]. hnf in Hs. subst c.
      eapply cache_ok_eq; [| |apply (cache_ok_read (sv_cache s) (sv_db s) Hd (proj1 Hc))];
        unfold c'; by destruct (read_tunnel id (sv_db s)).
    + intros u. by apply hoare_ret.
Qed.

Lemma hoare_refresh P : hoare P refresh (fun c => on (eq c)).
Proof.
  unfold refresh. eapply hoare_bind; [apply hoare_cache|]. intros c.
  eapply hoare_bind; [apply hoare_refresh_failed_at|]. intros failed. case_split; [by apply hoare_ret; naive_solver|].
  eapply hoare_bind with (Q := fun found s => on (eq c) s /\ forall l, found = Ok l -> l = loaded <$> read_tunnel id (sv_db s)).
  - eapply hoare_have; [by intros s _ [Hs _]; exact Hs|].
    intros F s r s' HF Hok HP Hm.
    assert (exists r0, catch (st (tunnel_with_alarm id)) s = (Ok r0, s') /\
       r = Ok (match r0 with Ok a => Ok (loaded <$> a) | Err e => Err e end)) as (r0 & Hr0 & ->).
    { unfold catch, st, tunnel, bind in *. destruct (tunnel_with_alarm id (sv_world s)) as [[a|e] w]; simplify_eq/=; eauto. }
    destruct (hoare_catch_query _ (eq c) _ _ _ _ _ HF Hok HP Hr0) as (H1 & H2 & H3 & H4). split_and!; try done.
    intros a [= <-]. destruct (H4 _ eq_refl) as [H5 H6]. split; [done|]. intros l Hl. destruct r0 as [x|]; [|done].
    injection Hl as <-. by rewrite (H6 x eq_refl).
  - intros [l|e]; [|eapply hoare_bind; [eapply hoare_weaken; [apply (hoare_refresh_failed _ (eq c))|naive_solver|done]|];
      intros u; by apply hoare_ret].
    set (c' := checked _ _ _). eapply hoare_bind; [apply hoare_set_cache with (c := c')|].
    + intros s [Hd Hc] [Hs Hl]. hnf in Hs. subst c.
      eapply cache_ok_eq; [| |apply (cache_ok_read (sv_cache s) (sv_db s) Hd (proj1 Hc))];
        unfold c'; rewrite (Hl l eq_refl); by destruct (read_tunnel id (sv_db s)).
    + intros u. by apply hoare_ret.
Qed.

Lemma hoare_lock_fresh P : hoare P lock_fresh (fun c => on (eq c)).
Proof.
  unfold lock_fresh. destruct cluster; [|apply hoare_lock]. eapply hoare_bind; [apply hoare_cache|]. intros c.
  case_split; [apply hoare_refresh|apply hoare_lock].
Qed.

(** What an entry may write: a step of its record's life, or a new record where it has none. *)
Definition writable (c : Cache) (r' : StoredTunnel) : Prop :=
  st_id r' = id /\ match tn_record (ca_tunnel c) with Some r => exists l, L l /\ evolves l r r' | None => L LCreate /\ created r' end.

Lemma own_step_insert d row : tunnels d !! id = None -> L LCreate -> created (t_record row) -> own_step d (set_tunnels (<[id := row]> (tunnels d)) d).
Proof.
  intros Hn HL Hc i. cbn. destruct (decide (id = i)) as [<-|Hne].
  - by rewrite lookup_insert_eq, Hn.
  - rewrite lookup_insert_ne by done. unfold row_step. destruct (tunnels d !! i); auto.
Qed.

Lemma own_step_update d row row' :
  tunnels d !! id = Some row -> (exists l, L l /\ evolves l (t_record row) (t_record row')) -> own_step d (set_tunnels (<[id := row']> (tunnels d)) d).
Proof.
  intros Hr Hc i. cbn. destruct (decide (id = i)) as [<-|Hne].
  - rewrite lookup_insert_eq, Hr. cbn. auto.
  - rewrite lookup_insert_ne by done. unfold row_step. destruct (tunnels d !! i); auto.
Qed.

Lemma save_stmt_own c r' d :
  cache_ok id c d -> writable c r' ->
  own_step d (fst (exec (if ca_revision c =? 0 then SInsertTunnel r' now else SUpdateTunnel r' (ca_revision c) now) d)).
Proof.
  intros [_ Hc] [Hid Hw]. destruct (tn_record (ca_tunnel c)) as [r|].
  - destruct Hc as (_ & Hrev & row & Hrow & Hwas). rewrite (proj2 (Z.eqb_neq _ _)) by lia. cbn [exec]. rewrite Hid. clear Hid.
    destruct (record_flags r') as [dl iss]. split_update; [|by apply own_step_same]. cbn [fst]. simplify_eq. bsimp.
    eapply own_step_update; [done|]. destruct Hwas as [?|[_ ->]]; [lia|done].
  - rewrite Hc. cbn [exec Z.eqb]. rewrite Hid. destruct (tunnels d !! id) eqn:E; [by apply own_step_same|].
    destruct (record_flags r') as [dl iss]. cbn [fst]. destruct Hw. by apply own_step_insert.
Qed.

Lemma save_tunnel_acts F c r' d turns res d' turns' :
  save_tunnel r' (ca_revision c) now (d, turns) = (res, (d', turns')) -> turns_keep F turns -> cache_ok id c d -> writable c r' ->
  acts F d d' /\ turns_keep F turns'.
Proof.
  intros Hs HF Hc Hw.
  assert (forall ss, Forall F ss -> own_step (run ss d)
    (fst (exec (if ca_revision c =? 0 then SInsertTunnel r' now else SUpdateTunnel r' (ca_revision c) now) (run ss d)))) as Hown.
  { intros ss _. apply save_stmt_own; [|done]. apply (run_preserves (cache_ok id c)); [|done]. intros. by apply exec_cache_ok. }
  unfold save_tunnel in Hs. destruct (ca_revision c =? 0); unfold bind in Hs;
    destruct (stmt _ (d, turns)) as [o [d1 t1]] eqn:E; destruct (stmt_acts _ _ _ _ _ _ _ E HF Hown) as (Ha & Ht & _);
    destruct o as [o|e]; try (by simplify_eq); repeat case_split; unfold ret, fail in Hs; by simplify_eq.
Qed.

Lemma cache_ok_saved c r' d turns v d' turns' :
  save_tunnel r' (ca_revision c) now (d, turns) = (Ok v, (d', turns')) -> st_id r' = id -> 0 <= ca_revision c ->
  tn_id (ca_tunnel c) = id -> cache_ok id (with_record (Some r') v c) d'.
Proof.
  intros (-> & ss & _ & row & Hrow & Hr & Hv)%save_tunnel_Ok Hid Hrev Htn. split; [done|]. cbn. split_and!; [done|lia|].
  exists row. rewrite <- Hid. auto.
Qed.

Lemma cache_revision_nonneg c d : cache_ok id c d -> 0 <= ca_revision c.
Proof. intros [_ Hc]. destruct (tn_record _); [destruct Hc; lia|lia]. Qed.

Lemma hoare_save r' : hoare (on (fun c => writable c r')) (save now r') (fun _ => on (cached (Some r'))).
Proof.
  intros F s res s' HF [Hd Hc] HP Hm. destruct s as [c rf l ef [d turns]].
  unfold save, sbind, cache, catch, st in Hm. unfold sv_turns, sv_db, on in *. cbn [sv_world sv_cache fst snd] in *.
  destruct (save_tunnel r' (ca_revision c) now (d, turns)) as [r0 [d' turns']] eqn:E.
  destruct (save_tunnel_acts _ _ _ _ _ _ _ _ E HF Hc HP) as [Ha Ht].
  destruct (acts_ok _ _ _ _ _ Ha Hd Hc) as [Hd' Hc'].
  destruct r0 as [v|e]; [|destruct e]; cbn in Hm; injection Hm as <- <-; cbn; (split_and!; [done|split|done|]); cbn; try done.
  - eapply cache_ok_saved; [done|apply HP|by eapply cache_revision_nonneg|apply Hc].
  - by destruct Hc.
Qed.

(** Live records of an entry. *)
Lemma record_live c r : record c = Some r -> tn_record (ca_tunnel c) = Some r /\ is_deleted r = false.
Proof. unfold record, live_record. destruct (tn_record _) as [r0|]; [|done]. cbn. case_split; [done|]. by intros [= ->]. Qed.

Lemma hoare_save_step c r r' l :
  tn_record (ca_tunnel c) = Some r -> evolves l r r' -> L l -> hoare (on (eq c)) (save now r') (fun _ => on (cached (Some r'))).
Proof.
  intros Hr He HL. eapply hoare_have; [|apply hoare_save]. intros s [_ [_ Hc]] Hs. hnf in Hs |- *. subst c.
  rewrite Hr in Hc. split; [|rewrite Hr; eauto]. rewrite (evolves_id _ _ _ He). apply Hc.
Qed.

Lemma hoare_save_cached r r' l :
  evolves l r r' -> L l -> hoare (on (cached (Some r))) (save now r') (fun _ => on (cached (Some r'))).
Proof.
  intros He HL. eapply hoare_have; [|apply hoare_save]. intros s [_ [_ Hc]] Hs. hnf in Hs |- *.
  rewrite Hs in Hc. split; [|rewrite Hs; eauto]. rewrite (evolves_id _ _ _ He). apply Hc.
Qed.

Abbreviation any := (fun _ _ => True).

Lemma hoare_any {A} (P : Sv -> Prop) (m : SM A) Q : hoare P m Q -> hoare P m any.
Proof. intros Hm. by eapply hoare_weaken. Qed.

Lemma hoare_ret_any {A} P (a : A) : hoare P (sret a) any.
Proof. by apply hoare_ret. Qed.

Lemma hoare_ret_on {A} P (a : A) : hoare (on P) (sret a) (fun _ => on P).
Proof. by apply hoare_ret. Qed.

(** An operation that leaves the cache as it is, whether it fails or not. *)
Definition keeps_cache {A} (m : SM A) : Prop := forall s, sv_cache (snd (m s)) = sv_cache s.

Lemma hoare_catch_keeps {A} P (m : SM A) Q :
  hoare (on P) m Q -> keeps_cache m -> hoare (on P) (catch m) (fun _ => on P).
Proof.
  intros Hm Hk F s r s' HF Hok HP H1. unfold catch in H1. destruct (m s) as [r0 s1] eqn:E. injection H1 as <- <-.
  destruct (Hm _ _ _ _ HF Hok HP E) as (K1 & K2 & K3 & _). split_and!; try done. intros a _. hnf. specialize (Hk s).
  rewrite E in Hk. cbn in Hk. by rewrite Hk.
Qed.

Lemma keeps_cache_ret {A} (a : A) : keeps_cache (sret a).
Proof. done. Qed.
Lemma keeps_cache_bind {A B} (m : SM A) (k : A -> SM B) : keeps_cache m -> (forall a, keeps_cache (k a)) -> keeps_cache (sbind m k).
Proof.
  intros Hm Hk s. unfold sbind. specialize (Hm s). destruct (m s) as [[a|e] s1]; cbn in *; [|done]. by rewrite Hk.
Qed.
Lemma keeps_cache_st {A} (m : M A) : keeps_cache (st m).
Proof. intros s. unfold st. by destruct (m (sv_world s)). Qed.
Lemma keeps_cache_effect e : keeps_cache (effect e).
Proof. done. Qed.
Lemma keeps_cache_job_added : keeps_cache (job_added cluster).
Proof. unfold job_added, announce. intros s. by destruct cluster. Qed.

Lemma keeps_cache_ensure r kind : keeps_cache (ensure_issuance now cluster r kind).
Proof.
  unfold ensure_issuance. repeat case_split; try done; apply keeps_cache_bind; try apply keeps_cache_st; intros added;
    case_split; auto using keeps_cache_job_added, keeps_cache_ret.
Qed.

Lemma hoare_ensure P r kind : hoare (on P) (ensure_issuance now cluster r kind) (fun _ => on P).
Proof.
  unfold ensure_issuance. repeat case_split; try apply hoare_fail;
    (eapply hoare_bind; [apply hoare_st, harmless_add_job|]; intros added; case_split; [apply hoare_job_added|by apply hoare_ret]).
Qed.

Lemma hoare_catch_ensure P r kind : hoare (on P) (catch (ensure_issuance now cluster r kind)) (fun _ => on P).
Proof. eapply hoare_catch_keeps; [apply hoare_ensure|apply keeps_cache_ensure]. Qed.

Lemma hoare_notify_alarm P at_ : hoare (on P) (notify_alarm id at_) (fun _ => on P).
Proof. unfold notify_alarm. eapply hoare_bind; [apply hoare_st, harmless_alarm|]. intros u. apply hoare_effect. Qed.

Lemma hoare_schedule_renewal P r : hoare (on P) (schedule_renewal id now r) (fun _ => on P).
Proof. unfold schedule_renewal. repeat case_split; try apply hoare_notify_alarm; by apply hoare_ret. Qed.

Lemma hoare_check_backlog P : hoare (on P) (check_backlog now) (fun _ => on P).
Proof.
  intros F s r s' HF [Hd Hc] HP Hm. destruct s as [c rf l ef [d turns]]. unfold check_backlog in Hm.
  unfold sv_turns, sv_db, on in *. cbn [sv_world sv_cache sv_limits sv_refresh_failed_at sv_effects fst snd] in *.
  destruct l as [l|]; [|injection Hm as <- <-; split_and!; [done|done|apply rtc_refl|done]].
  assert (harmless pending_jobs) as Hp by (unfold pending_jobs; apply harmless_query).
  destruct (backlogged l now (d, turns)) as [[b l'] [d' turns']] eqn:Eb. injection Hm as <- <-. cbn.
  assert (acts F d d' /\ turns_keep F turns') as [Ha Ht].
  { unfold backlogged in Eb. destruct (pending_jobs (d, turns)) as [r0 [d1 t1]] eqn:Ep.
    destruct (Hp _ _ _ _ _ _ Ep HF) as [? ?].
    repeat case_split; simplify_eq; try (split; [apply rtc_refl|done]); done. }
  split_and!; [done|split; cbn; by eapply acts_ok|done|done].
Qed.

Lemma hoare_check_rate P : hoare (on P) (check_rate id now) (fun _ => on P).
Proof.
  intros F s r s' HF Hok HP Hm. unfold check_rate in Hm. destruct (sv_limits s) as [l|].
  - eapply hoare_st; [apply harmless_issuance|..]; done.
  - injection Hm as <- <-. split_and!; [done|done|apply rtc_refl|done].
Qed.

(** Steps through an operation: what changes the cache is left to the caller. *)
Ltac hstep :=
  match goal with
  | |- triple _ _ (sret _) _ => first [apply hoare_ret_on|apply hoare_ret_any|by apply hoare_ret]
  | |- triple _ _ (sfail _) _ => apply hoare_fail
  | |- triple _ _ (sbind _ _) _ => eapply hoare_bind; [hstep|intros ?]
  | |- triple _ _ cache _ => apply hoare_cache
  | |- triple _ _ (announce _ _) _ => apply hoare_announce
  | |- triple _ _ (notify_alarm _ _) _ => first [apply hoare_notify_alarm|eapply hoare_any, hoare_notify_alarm]
  | |- triple _ _ (schedule_renewal _ _ _) _ => first [apply hoare_schedule_renewal|eapply hoare_any, hoare_schedule_renewal]
  | |- triple _ _ (catch (ensure_issuance _ _ _ _)) _ => apply hoare_catch_ensure
  | |- triple _ _ (ensure_issuance _ _ _ _) _ => apply hoare_ensure
  | |- triple _ _ (check_backlog _) _ => apply hoare_check_backlog
  | |- triple _ _ (check_rate _ _) _ => apply hoare_check_rate
  | |- triple _ _ (st _) _ => apply hoare_st; solve [auto with service]
  | |- triple _ _ (Service.lock_fresh _ _ _ _) _ => apply hoare_lock_fresh
  | |- triple _ _ (save _ _) _ => first [eapply hoare_save_step; [eassumption| |]|eapply hoare_save_cached]
  end.
Ltac hsteps := repeat first [hstep | case_split].

Lemma hoare_create token_hash :
  L LCreate -> hoare (fun _ => True) (create id now domain cluster generation token_hash) any.
Proof.
  intros HL. unfold create. eapply hoare_bind; [apply hoare_lock_fresh|]. intros c. destruct (record c) as [r|] eqn:Er; [hstep|].
  eapply hoare_bind; [eapply hoare_have; [|apply hoare_save]|].
  - intros s [_ [_ Hc]] Hs. hnf in Hs |- *. subst c. split; [done|]. unfold record, live_record in Er.
    destruct (tn_record _) as [r|]; [|done]. cbn in Er. destruct (is_deleted r) eqn:Ed; [|done].
    exists LCreate. split; [done|]. apply ev_recreate; [done| |done]. by destruct Hc as [-> _].
  - intros u. hsteps.
Qed.

Lemma hoare_bind_new uuid csr request c r :
  record c = Some r -> (forall cert, certificate r = Some cert -> in_progress cert = false) ->
  L (LBind ("cert_" +:+ uuid)) -> (forall reason, L (LProgress ("cert_" +:+ uuid) (Failed reason))) ->
  hoare (on (eq c)) (bind_new id now cluster error_text uuid csr request r) any.
Proof.
  intros [Hr Hl]%record_live Hp HB HP. unfold bind_new. hsteps; [by apply ev_bind|done|by apply ev_progress|done].
Qed.

Lemma hoare_bind_certificate uuid token csr :
  L (LBind ("cert_" +:+ uuid)) -> (forall reason, L (LProgress ("cert_" +:+ uuid) (Failed reason))) ->
  hoare (fun _ => True) (bind_certificate id now cluster generation hash_token parse_x509 error_text uuid token csr) any.
Proof.
  intros HB HP. unfold bind_certificate. eapply hoare_bind; [apply hoare_lock_fresh|]. intros c. destruct (record c) as [r|] eqn:Er; [|hstep].
  case_split; [hstep|]. destruct (Csr.parse parse_x509 csr) as [request|]; [|hstep]. case_split; [hstep|]. case_split; [hstep|].
  destruct (certificate r) as [cert|] eqn:Ec.
  - case_split; [hsteps|]. case_split; [hsteps|]. apply hoare_bind_new; [done|congruence|done|done].
  - apply hoare_bind_new; [done|congruence|done|done].
Qed.

Lemma hoare_remove token : L LDelete -> hoare (fun _ => True) (remove id now cluster generation hash_token token) any.
Proof.
  intros HL. unfold remove. eapply hoare_bind; [apply hoare_lock_fresh|]. intros c. destruct (record c) as [r|] eqn:Er; [|hstep].
  case_split; [hstep|]. apply record_live in Er as [Hr Hl]. eapply hoare_bind.
  - apply hoare_set_cache. intros s [_ Hc] Hs. hnf in Hs. subst c. exact Hc.
  - intros u. hsteps; [by apply ev_delete|done].
Qed.

Lemma hoare_update_certificate certificate_id input :
  L (LProgress certificate_id input) -> L (LRenewed certificate_id input) -> L (LRenewal None) ->
  hoare (fun _ => True) (update_certificate id now cluster generation certificate_id input) any.
Proof.
  intros HP HR HN. unfold update_certificate. eapply hoare_bind; [apply hoare_lock_fresh|]. intros c. destruct (record c) as [r|] eqn:Er; [|hstep].
  apply record_live in Er as [Hr Hl]. destruct (renewal r) as [rn|] eqn:Ern; cbn [mbind option_bind].
  - destruct (String.eqb_spec (rn_certificate_id rn) certificate_id) as [<-|].
    + destruct input; hsteps; [by apply ev_renewed|done|by apply ev_renewal|done].
    + case_split; [hstep|]. bsimp. hsteps; (by apply ev_progress) || done.
  - case_split; [hstep|]. bsimp. hsteps; (by apply ev_progress) || done.
Qed.

Lemma hoare_start_renewal uuid c r :
  tn_record (ca_tunnel c) = Some r -> is_deleted r = false -> (forall rn, L (LRenewal rn)) ->
  hoare (on (eq c)) (start_renewal id now cluster uuid r) any.
Proof.
  intros Hr Hl HL. unfold start_renewal. hsteps; [apply ev_renewal; [done|congruence]|done| |apply HL].
  set (r' := set_renewal _ r). assert (evolves (LRenewal (renewal r)) r' (set_renewal (renewal r) r')) as He
    by (apply ev_renewal; [done|cbn; congruence]).
  by replace (set_renewal (renewal r) r') with r in He by (by destruct r).
Qed.

Lemma hoare_alarm_fired uuid : (forall rn, L (LRenewal rn)) -> hoare (fun _ => True) (alarm_fired id now cluster generation uuid) any.
Proof.
  intros HL. unfold alarm_fired. eapply hoare_bind; [apply hoare_lock_fresh|]. intros c. destruct (record c) as [r|] eqn:Er; [|hstep].
  apply record_live in Er as [Hr Hl]. hsteps; try by apply hoare_start_renewal.
Qed.

Lemma hoare_on_attached uuid c r alarm :
  tn_record (ca_tunnel c) = Some r -> is_deleted r = false -> (forall rn, L (LRenewal rn)) ->
  hoare (on (eq c)) (on_attached id now cluster uuid r alarm) any.
Proof.
  intros Hr Hl HL. unfold on_attached. hsteps; by apply hoare_start_renewal.
Qed.

Lemma hoare_after_attach uuid bridge alarm :
  L LConnected -> (forall rn, L (LRenewal rn)) -> hoare (fun _ => True) (after_attach id now cluster uuid bridge alarm) any.
Proof.
  intros HC HL. unfold after_attach. eapply hoare_bind; [apply hoare_cache|]. intros c. destruct (record c) as [r|] eqn:Er; [|hstep].
  apply record_live in Er as [Hr Hl]. case_split; [hstep|].
  eapply hoare_bind with (Q := fun saved s => match saved with Some r' => on (cached (Some r')) s /\ is_deleted r' = false | None => True end).
  - apply hoare_have with (P' := on (eq c)); [by intros s _ [Hs _]|]. case_split.
    + apply hoare_ret. intros s _ Hs. hnf in Hs |- *. subst c. done.
    + eapply hoare_bind; [eapply hoare_catch; hstep; [by apply ev_connected|done]|]. intros [u|e]; (apply hoare_ret; intros s _ Hs); [|done].
      split; [exact Hs|]. exact Hl.
  - intros [r'|]; [|hstep]. eapply hoare_prop; [by intros s _ [_ Hd]; exact Hd|]. intros Hl'.
    eapply hoare_bind with (Q := any); [|intros; hstep].
    intros F s res s' HF Hok [Hs _] Hm. hnf in Hs.
    assert (hoare (on (eq (sv_cache s))) (catch (on_attached id now cluster uuid r' alarm)) any) as Hh.
    { eapply hoare_any, hoare_catch. by apply hoare_on_attached. }
    by eapply Hh.
Qed.

Lemma hoare_resume_one c r kind certificate_id :
  hoare (on (eq c)) (resume_one now cluster r kind certificate_id) (fun _ => on (eq c)).
Proof. unfold resume_one. hsteps. Qed.

Lemma hoare_resume_candidate grace_ms : hoare (fun _ => True) (resume_candidate id now cluster generation grace_ms) any.
Proof.
  unfold resume_candidate. eapply hoare_bind; [apply hoare_lock_fresh|]. intros c. destruct (record c) as [r|] eqn:Er; [|hstep].
  eapply hoare_bind with (Q := fun _ => on (eq c)); [repeat case_split; (apply hoare_resume_one || hstep)|]. intros first.
  eapply hoare_bind with (Q := fun _ => on (eq c)); [repeat case_split; (apply hoare_resume_one || hstep)|]. intros second. hstep.
Qed.

Lemma hoare_requeue wanted_state queue certificate_id :
  harmless queue -> L (LRequeued certificate_id) -> hoare (fun _ => True) (requeue id now cluster generation wanted_state queue certificate_id) any.
Proof.
  intros Hq HL. unfold requeue. eapply hoare_bind; [apply hoare_lock_fresh|]. intros c. destruct (record c) as [r|] eqn:Er; [|hstep].
  apply record_live in Er as [Hr Hl]. case_split; [hstep|]. bsimp. destruct (certificate r) as [cert|] eqn:Ec; [|done].
  eapply hoare_bind; [by apply hoare_st|]. intros requeued. case_split; [|hstep].
  eapply hoare_bind with (Q := any); [|intros; hstep]. case_split; [|hstep].
  eapply hoare_bind with (Q := any); [eapply hoare_any, hoare_catch; hstep; [|done]|intros; hstep].
  eapply ev_requeued; [done|done|done|]. by destruct (ci_state cert).
Qed.

Lemma hoare_lock_routable P : hoare P (lock_routable id now cluster generation) (fun c => on (eq c)).
Proof.
  unfold lock_routable. destruct cluster as [complete|]; [|apply hoare_lock]. eapply hoare_bind; [apply hoare_cache|]. intros c.
  repeat case_split; try apply hoare_lock; try apply hoare_refresh; (apply hoare_ret; by intros ? _ [? _]).
Qed.

Lemma hoare_attach_snapshot c : hoare (on (eq c)) (attach_snapshot id now generation c) any.
Proof.
  unfold attach_snapshot.
  eapply hoare_bind with (Q := fun found s => on (eq c) s /\ forall a, found = Ok a -> a = read_tunnel id (sv_db s)).
  { apply (hoare_catch_query id (eq c)). }
  intros [[a|]|e]; [| |case_split; [eapply hoare_bind; [eapply hoare_have; [|apply (hoare_refresh_failed id (eq c))]; naive_solver|];
    intros; hstep|hstep]]; (eapply hoare_bind; [apply hoare_set_cache|intros; hstep]); intros s [Hd Hc] [Hs Ha]; hnf in Hs; subst c;
    pose proof (cache_ok_read (sv_cache s) (sv_db s) Hd (proj1 Hc)) as Hr; rewrite <- (Ha _ eq_refl) in Hr; exact Hr.
Qed.

Lemma hoare_lock_for_attach : hoare (fun _ => True) (lock_for_attach id now cluster generation) any.
Proof.
  unfold lock_for_attach. destruct cluster as [complete|].
  - eapply hoare_bind; [apply hoare_cache|]. intros c. eapply hoare_bind; [apply hoare_refresh_failed_at|]. intros failed.
    apply hoare_have with (P' := on (eq c)); [by intros s _ [Hs _]|]. repeat case_split; try hstep; apply hoare_attach_snapshot.
  - eapply hoare_bind; [apply hoare_lock|]. intros. hstep.
Qed.

Lemma hoare_info online token : hoare (fun _ => True) (info id now cluster generation hash_token online token) any.
Proof. unfold info. eapply hoare_bind; [apply hoare_lock_fresh|]. intros c. repeat case_split; hstep. Qed.

Lemma hoare_certificate_info token : hoare (fun _ => True) (certificate_info id now cluster generation hash_token token) any.
Proof. unfold certificate_info. eapply hoare_bind; [apply hoare_lock_fresh|]. intros c. repeat case_split; hstep. Qed.

Lemma hoare_wants_certificate certificate_id : hoare (fun _ => True) (wants_certificate id now cluster generation certificate_id) any.
Proof. unfold wants_certificate. eapply hoare_bind; [apply hoare_lock_fresh|]. intros c. hstep. Qed.
End EntryRules.
End Steps.

(** ** The theorems *)

(** What a machine does to a tunnel. *)
Inductive Request :=
| RCreate (token_hash : string)
| RInfo (online_elsewhere : bool) (token : string)
| RCertificate (token : string)
| RBind (uuid token csr : string)
| RRemove (token : string)
| RUpdate (certificate_id : string) (input : CertificateState)
| RWants (certificate_id : string)
| RAlarm (uuid : string)
| RAfterAttach (uuid : string) (bridge : Z) (alarm : option (option Z))
| RResume (grace_ms : Z)
| RRetryFailed (certificate_id : string)
| RRetryPendingAuthz (certificate_id : string)
| RRoute
| RAttach.

(** The steps each may take in the life of a record. *)
Definition steps_of (q : Request) (l : Life) : Prop :=
  match q, l with
  | RCreate _, LCreate => True
  | RBind uuid _ _, LBind cid => cid = "cert_" +:+ uuid
  | RBind uuid _ _, LProgress cid (Failed _) => cid = "cert_" +:+ uuid
  | RRemove _, LDelete => True
  | RUpdate cid input, (LProgress cid' state | LRenewed cid' state) => cid' = cid /\ state = input
  | RUpdate _ _, LRenewal rn => rn = None
  | RAlarm _, LRenewal _ => True
  | RAfterAttach _ _ _, (LRenewal _ | LConnected) => True
  | (RRetryFailed cid | RRetryPendingAuthz cid), LRequeued cid' => cid' = cid
  | _, _ => False
  end.

Section Perform.
Context `{TimeText}.
Context (id : string) (now : Z) (domain : string) (cluster : option bool) (generation : Z).
Context (hash_token : string -> string) (parse_x509 : string -> option (list string * list string)) (error_text : SvError -> string).

Definition perform (q : Request) : SM unit :=
  let drop_ {A} (m : SM A) : SM unit := _ <~ m;; sret tt in
  match q with
  | RCreate token_hash => drop_ (create id now domain cluster generation token_hash)
  | RInfo online token => drop_ (info id now cluster generation hash_token online token)
  | RCertificate token => drop_ (certificate_info id now cluster generation hash_token token)
  | RBind uuid token csr => drop_ (bind_certificate id now cluster generation hash_token parse_x509 error_text uuid token csr)
  | RRemove token => drop_ (remove id now cluster generation hash_token token)
  | RUpdate cid input => drop_ (update_certificate id now cluster generation cid input)
  | RWants cid => drop_ (wants_certificate id now cluster generation cid)
  | RAlarm uuid => alarm_fired id now cluster generation uuid
  | RAfterAttach uuid bridge alarm => after_attach id now cluster uuid bridge alarm
  | RResume grace_ms => drop_ (resume_candidate id now cluster generation grace_ms)
  | RRetryFailed cid => drop_ (retry_failed id now cluster generation cid)
  | RRetryPendingAuthz cid => drop_ (retry_pending_authz id now cluster generation cid)
  | RRoute => drop_ (lock_routable id now cluster generation)
  | RAttach => drop_ (lock_for_attach id now cluster generation)
  end.

Lemma perform_triple q : triple (steps_of q) id (fun _ => True) (perform q) (fun _ _ => True).
Proof.
  destruct q; cbn [perform]; try (eapply hoare_bind; [|intros; by apply hoare_ret]).
  - by apply hoare_create.
  - apply hoare_info.
  - apply hoare_certificate_info.
  - by apply hoare_bind_certificate.
  - by apply hoare_remove.
  - by apply hoare_update_certificate.
  - apply hoare_wants_certificate.
  - by apply hoare_alarm_fired.
  - by apply hoare_after_attach.
  - apply hoare_resume_candidate.
  - apply hoare_requeue; [apply harmless_requeue_failed|done].
  - apply hoare_requeue; [apply harmless_requeue_before|done].
  - eapply hoare_any, (hoare_lock_routable _ _ _ _ _ (fun _ => True)).
  - apply hoare_lock_for_attach.
Qed.
End Perform.

(** What every stored record is like: a certificate is the current one and has its request, and so has a renewal. *)
Definition record_wf (r : StoredTunnel) : Prop :=
  (forall c, certificate r = Some c -> certificate_id r = Some (ci_id c) /\ certificate_csr r <> None) /\
  (certificate_id r <> None -> certificate_csr r <> None) /\
  (renewal r <> None -> certificate_csr r <> None).

Lemma created_wf r : created r -> record_wf r.
Proof. intros [H1 H2 H3 H4 H5]. split_and!; congruence. Qed.

Lemma evolves_wf l r r' : evolves l r r' -> record_wf r -> record_wf r'.
Proof.
  intros He (W1 & W2 & W3). destruct He as [| |r cid csr ids at_|r cid st Hd Hc|r rn st Hd Hr Hst|r rn Hd Hn|r cid c Hd Hc Hcert|];
    try (by apply created_wf); unfold record_wf; cbn; split_and!; try done; try (intros c' [= <-]; cbn); try split; auto;
    try congruence.
  - apply W2. congruence.
  - apply W3. congruence.
  - intros _. apply W3. congruence.
  - apply W2. congruence.
Qed.

Definition db_wf (d : Db) : Prop := forall i row, tunnels d !! i = Some row -> record_wf (t_record row).

(** A statement that writes only such records. *)
Definition stmt_wf (s : Stmt) : Prop :=
  match s with
  | SInsertTunnel r _ | SUpdateTunnel r _ _ | SImportInsert r _ _ | SImportUpdate r _ _ _ => record_wf r
  | _ => True
  end.

Lemma exec_wf s d : stmt_wf s -> db_wf d -> db_wf (fst (exec s d)).
Proof.
  intros Hs Hd.
  assert (forall i' (r : TunnelRow), record_wf (t_record r) -> forall i row,
    <[i' := r]> (tunnels d) !! i = Some row -> record_wf (t_record row)) as Hins.
  { intros i' r Hr i row. destruct (decide (i' = i)) as [->|Hne].
    - rewrite lookup_insert_eq. by intros [= <-].
    - rewrite lookup_insert_ne by done. apply Hd. }
  intros i row. destruct s; cbn [exec stmt_wf] in *; try (destruct (record_flags record0) as [dl iss]);
    try split_update; cbn [fst set_tunnels set_jobs set_rate_limits set_meta_table set_server_certificates tunnels];
    eauto; repeat (case_split; cbn [fst set_tunnels set_jobs set_rate_limits set_meta_table set_server_certificates tunnels]);
    eauto; apply Hins; cbn [t_record]; try done; by eapply Hd.
Qed.

Lemma own_step_wf L d d' : own_step L d d' -> db_wf d -> db_wf d'.
Proof.
  intros Ho Hd i row' Hrow'. specialize (Ho i). rewrite Hrow' in Ho. unfold row_step in Ho.
  destruct (tunnels d !! i) as [row|] eqn:E.
  - destruct Ho as [->|(l & _ & He)]; [by eapply Hd|]. eapply evolves_wf; [done|]. by eapply Hd.
  - apply created_wf, Ho.
Qed.

Lemma acts_wf L F d d' : (forall s, F s -> stmt_wf s) -> acts L F d d' -> db_wf d -> db_wf d'.
Proof.
  intros HF. induction 1 as [|a b c (s & -> & Hs) _ IH]; [done|]. intros Ha. apply IH. destruct Hs as [Hs|Hs].
  - apply exec_wf; auto.
  - by eapply own_step_wf.
Qed.

(** What may end that a tunnel serves visitors: a delete, a bind of another request, and progress of the certificate that
    is the current one. *)
Definition unserves (q : Request) (r : StoredTunnel) : Prop :=
  match q with
  | RBind _ _ _ | RRemove _ => True
  | RUpdate cid input => certificate_id r = Some cid /\ is_ready input = false
  | _ => False
  end.

Definition serves (r : StoredTunnel) : Prop := is_deleted r = false /\ certificate_ready r = true.

Lemma evolves_serves q l r r' : steps_of q l -> evolves l r r' -> serves r -> serves r' \/ unserves q r.
Proof.
  intros Hq He [Hl Hr]. destruct He as [r r' Hd|r at_ Hd|r cid csr ids at_ Hd Hp|r cid st Hd Hc|r rn st Hd Hrn Hst|r rn Hd|
    r cid c Hd Hc Hcert Hst|r at_ Hd]; destruct q; try done; cbn in Hq; try (right; done); try (by left); try congruence.
  - destruct Hq as [-> ->]. destruct (is_ready input) eqn:E; [left|by right]. split; [done|].
    unfold certificate_ready, ready_expiry. cbn. by destruct input.
  - left. split; [done|]. unfold certificate_ready, ready_expiry. cbn. by destruct st.
  - exfalso. unfold certificate_ready, ready_expiry in Hr. rewrite Hcert in Hr. by destruct (ci_state c).
  - exfalso. unfold certificate_ready, ready_expiry in Hr. rewrite Hcert in Hr. by destruct (ci_state c).
Qed.

(** The databases in between: a step of another server, or one that leaves every serving tunnel serving, unless it may. *)
Definition serving_step (q : Request) (d d' : Db) : Prop :=
  forall i row, tunnels d !! i = Some row -> serves (t_record row) ->
    exists row', tunnels d' !! i = Some row' /\ (serves (t_record row') \/ unserves q (t_record row)).

Lemma own_serving q d d' : own_step (steps_of q) d d' -> serving_step q d d'.
Proof.
  intros Ho i row Hrow Hs. specialize (Ho i). rewrite Hrow in Ho. unfold row_step in Ho.
  destruct (tunnels d' !! i) as [row'|]; [|done]. exists row'. split; [done|].
  destruct Ho as [->|(l & Hl & He)]; [by left|]. by eapply evolves_serves.
Qed.

Section Theorems.
Context `{TimeText}.
Context (id : string) (now : Z) (domain : string) (cluster : option bool) (generation : Z).
Context (hash_token : string -> string) (parse_x509 : string -> option (list string * list string)) (error_text : SvError -> string).

Abbreviation perform := (perform id now domain cluster generation hash_token parse_x509 error_text).

(** C2: Whatever other servers do meanwhile and whichever answers are lost, every write a request makes is one step in the
    life of the record it replaces, of the kinds that request may take; what the entry caches is a record that was read,
    or written, at its revision. *)
Theorem service_refines_life q F s r s' :
  turns_keep F (sv_turns s) -> sv_ok id s -> perform q s = (r, s') ->
  acts (steps_of q) F (sv_db s) (sv_db s') /\ sv_ok id s'.
Proof. intros HF Hok Hp. destruct (perform_triple _ _ _ _ _ _ _ _ q F s r s' HF Hok I Hp) as (_ & H1 & H2 & _). done. Qed.

(** C7: No request leaves a tunnel that serves visitors without its certificate, but a delete, a bind of another request,
    and progress of that very certificate: renewals and their failures never do. *)
Theorem serving_kept q F s r s' :
  turns_keep F (sv_turns s) -> sv_ok id s -> perform q s = (r, s') ->
  rtc (fun d d' => exists st, d' = fst (exec st d) /\ (F st \/ serving_step q d d')) (sv_db s) (sv_db s').
Proof.
  intros HF Hok Hp. destruct (perform_triple _ _ _ _ _ _ _ _ q F s r s' HF Hok I Hp) as (_ & _ & Ha & _).
  unfold acts in Ha. induction Ha as [|a b c (st & Hst & Hs) _ IH]; [apply rtc_refl|]. eapply rtc_l; [|exact IH].
  exists st. split; [done|]. destruct Hs as [?|?]; [by left|right; by apply own_serving].
Qed.

(** C36: Stored records stay well-formed: a certificate is the record's current one, and it and a renewal have the request
    they are issued from, if what the other servers write is so. *)
Theorem records_well_formed q s r s' :
  turns_keep stmt_wf (sv_turns s) -> sv_ok id s -> db_wf (sv_db s) -> perform q s = (r, s') -> db_wf (sv_db s').
Proof.
  intros HF Hok Hwf Hp. destruct (perform_triple _ _ _ _ _ _ _ _ q stmt_wf s r s' HF Hok I Hp) as (_ & _ & Ha & _).
  by eapply acts_wf.
Qed.
End Theorems.

(** *** Inversions of successful operations *)

Lemma sbind_Ok {A B} (m : SM A) (k : A -> SM B) s b s' :
  sbind m k s = (Ok b, s') -> exists a s1, m s = (Ok a, s1) /\ k a s1 = (Ok b, s').
Proof. unfold sbind. destruct (m s) as [[a|e] s1]; [|done]. eauto. Qed.

Lemma catch_Ok {A} (m : SM A) s r s' : catch m s = (Ok r, s') -> m s = (r, s').
Proof. unfold catch. destruct (m s). by intros [= -> ->]. Qed.

Lemma st_Ok {A} (m : M A) s a s' :
  st m s = (Ok a, s') -> m (sv_world s) = (Ok a, sv_world s') /\ sv_cache s' = sv_cache s.
Proof. unfold st. destruct (m (sv_world s)) as [[a'|e] w]; [|done]. by intros [= -> <-]. Qed.

Ltac sbind_inv :=
  repeat match goal with
  | H : sbind _ _ _ = (Ok _, _) |- _ =>
      let a := fresh "a" in let s := fresh "s" in let E := fresh "E" in apply sbind_Ok in H as (a & s & E & H)
  | H : sret _ _ = _ |- _ => unfold sret in H; injection H as ? ?; subst
  | H : catch _ _ = (Ok _, _) |- _ => apply catch_Ok in H
  end.

Section Inversions.
Context `{TimeText}.
Context (id : string) (now : Z) (domain : string) (cluster : option bool) (generation : Z).

Lemma save_Ok r s u s' :
  save now r s = (Ok u, s') ->
  tn_record (ca_tunnel (sv_cache s')) = Some r /\
  exists v, save_tunnel r (ca_revision (sv_cache s)) now (sv_world s) = (Ok v, sv_world s').
Proof.
  unfold save, sbind, cache, catch, st. destruct (save_tunnel _ _ _ _) as [[v|e] w]; cbn; [|by destruct e].
  intros [= <- <-]. cbn. eauto.
Qed.

Lemma effects_world e s u s' : effect e s = (Ok u, s') -> sv_world s' = sv_world s /\ sv_cache s' = sv_cache s.
Proof. by intros [= <- <-]. Qed.

Lemma announce_world event s u s' : announce cluster event s = (Ok u, s') -> sv_world s' = sv_world s /\ sv_cache s' = sv_cache s.
Proof. unfold announce. destruct cluster; [apply effects_world|]. by intros [= <- <-]. Qed.

(** The job is there once its issuance was ensured. *)
Lemma ensure_issuance_Ok r kind cid s u s' :
  ensure_issuance now cluster r kind s = (Ok u, s') ->
  match kind with Renew => rn_certificate_id <$> renewal r | _ => certificate_id r end = Some cid ->
  is_Some (jobs (sv_db s') !! cid) /\ sv_cache s' = sv_cache s.
Proof.
  unfold ensure_issuance. intros Hm Hkind. rewrite Hkind in Hm. destruct (certificate_csr r); [|done]. sbind_inv. apply st_Ok in E as [E Hc].
  assert (sv_world s' = sv_world s1 /\ sv_cache s' = sv_cache s1) as [Hw Hc'].
  { destruct a; [|by injection Hm as <- <-]. unfold job_added in Hm. sbind_inv. apply effects_world in E0 as [<- <-].
    by apply announce_world in Hm. }
  unfold sv_db. rewrite Hw, Hc', Hc. split; [|done]. unfold add_job in E. destruct (sv_world s) as [d turns], (sv_world s1) as [d1 t1].
  apply bind_Ok in E as (o & [d2 t2] & Hs & Hk). injection Hk as _ <- <-. apply stmt_Ok in Hs as [ss Hs]. cbn [exec jb_certificate_id] in Hs.
  cbn [fst]. destruct (jobs (run ss d) !! cid) eqn:Ej; injection Hs as <- <-; [by rewrite Ej|]. cbn. by rewrite lookup_insert_eq.
Qed.

Lemma lock_cache s c s' : lock id now generation s = (Ok c, s') -> sv_cache s' = c.
Proof.
  unfold lock. intros Hm. sbind_inv. injection E as <- <-. destruct (ca_loaded (sv_cache s)).
  - by injection Hm as <- <-.
  - sbind_inv. by injection E0 as _ <-.
Qed.

Lemma lock_fresh_cache s c s' : lock_fresh id now cluster generation s = (Ok c, s') -> sv_cache s' = c.
Proof.
  unfold lock_fresh. destruct cluster; [|apply lock_cache]. intros Hm. sbind_inv. injection E as <- <-.
  destruct (ca_loaded (sv_cache s)); [|by eapply lock_cache]. unfold refresh in Hm. sbind_inv. injection E as <- <-.
  injection E0 as <- <-. case_split; [by injection Hm as <- <-|]. sbind_inv. destruct a; sbind_inv.
  - by injection E1 as _ <-.
  - unfold catch, st in E0. destruct (tunnel id (sv_world s)) as [[]]; injection E0 as _ <-; by injection E1 as _ <-.
Qed.
End Inversions.

Section Outcomes.
Context `{TimeText}.
Context (id : string) (now : Z) (domain : string) (cluster : option bool) (generation : Z).
Context (hash_token : string -> string) (parse_x509 : string -> option (list string * list string)) (error_text : SvError -> string).

(** The certificate a client was told to wait for. *)
Definition awaited (c : CertificateInfo) (csr : string) (s : Sv) : Prop :=
  exists r cid, tn_record (ca_tunnel (sv_cache s)) = Some r /\ certificate r = Some c /\ certificate_id r = Some cid /\
    certificate_csr r = Some csr /\ is_Some (jobs (sv_db s) !! cid).

Lemma bind_new_job uuid csr request r s c s' :
  bind_new id now cluster error_text uuid csr request r s = (Ok (BindOk c), s') -> awaited c csr s'.
Proof.
  unfold bind_new. intros Hm. sbind_inv. destruct a; [done|]. sbind_inv. destruct a; [|done]. sbind_inv.
  destruct a1; [|by sbind_inv]. injection Hm as <- <-. apply save_Ok in E1 as [Hr _]. apply announce_world in E2 as [_ Hc].
  apply (ensure_issuance_Ok _ _ _ _ ("cert_" +:+ uuid)) in E3 as [Hj Hc']; [|done]. eexists _, _. rewrite Hc', Hc, Hr. by split_and!.
Qed.

(** A client told that its certificate is being issued, or has been, waits for one whose job exists: the entry's
    record is the one with its request, and the job of its certificate is in the database. *)
Theorem bind_leaves_job uuid token csr s c s' :
  bind_certificate id now cluster generation hash_token parse_x509 error_text uuid token csr s = (Ok (BindOk c), s') ->
  awaited c csr s'.
Proof.
  unfold bind_certificate. intros Hm. sbind_inv. apply lock_fresh_cache in E. subst a.
  destruct (record (sv_cache s0)) as [r|] eqn:Er; [|done]. case_split; [done|].
  destruct (Csr.parse parse_x509 csr) as [request|]; [|done]. case_split; [done|]. case_split; [done|].
  destruct (certificate r) as [cert|] eqn:Ec; [|by eapply bind_new_job]. case_split; [|case_split; [done|by eapply bind_new_job]].
  bsimp. sbind_inv. destruct a; [|done]. injection Hm as <- <-. apply record_live in Er as [Hr _].
  match goal with H : ensure_issuance _ _ _ _ _ = (Ok _, _) |- _ => rename H into Hen end.
  destruct (certificate_id r) as [cid|] eqn:Ei.
  - destruct (ensure_issuance_Ok _ _ _ _ _ _ _ _ Hen Ei) as [Hj Hc]. exists r, cid. rewrite Hc. by split_and!.
  - exfalso. unfold ensure_issuance in Hen. by rewrite Ei in Hen.
Qed.

(** A renewal that was due is not lost: once it was started, its job is in the database, or the tunnel's alarm is set
    to try again in an hour. *)
Theorem renewal_not_lost uuid r s u s' :
  start_renewal id now cluster uuid r s = (Ok u, s') -> certificate_csr r <> None ->
  is_Some (jobs (sv_db s') !! ("cert_" +:+ uuid)) \/
  (forall row, tunnels (sv_db s') !! id = Some row -> t_alarm_at row = Some (now + RENEWAL_RETRY_MS)).
Proof.
  unfold start_renewal. intros Hm Hcsr. destruct (certificate_csr r) as [csr|]; [|done]. sbind_inv. destruct a0.
  - injection Hm as <- <-. apply (ensure_issuance_Ok _ _ _ _ ("cert_" +:+ uuid)) in E0 as [Hj _]; [|done]. by left.
  - right. sbind_inv. unfold notify_alarm in Hm. sbind_inv. apply effects_world in Hm as [Hw _]. apply st_Ok in E2 as [E2 _].
    unfold sv_db. rewrite Hw. destruct (sv_world s2) as [d turns], (sv_world s3) as [d1 t1]. unfold set_alarm in E2.
    apply bind_Ok in E2 as (o & [d2 t2] & Hs & Hk). injection Hk as _ <- <-. apply stmt_Ok in Hs as [ss Hs]. cbn [exec] in Hs.
    split_update; injection Hs as <- <-; cbn; intros row Hrow.
    + rewrite lookup_insert_eq in Hrow. by injection Hrow as <-.
    + match goal with Hno : forall v, _ -> _ = false |- _ => discriminate (Hno _ Hrow) end.
Qed.

(** The tunnel exists, undeleted. *)
Definition live_row (d : Db) : Prop := exists row, tunnels d !! id = Some row /\ is_deleted (t_record row) = false.

Definition leaves_live (s : Stmt) : Prop :=
  match s with
  | SUpdateTunnel r _ _ | SImportUpdate r _ _ _ => st_id r = id -> is_deleted r = false
  | _ => True
  end.

Lemma exec_live s d : live_row d -> leaves_live s -> live_row (fst (exec s d)).
Proof.
  intros (row & Hrow & Hl) Hs.
  assert (forall i' (r : TunnelRow), (i' = id -> is_deleted (t_record r) = false) ->
    live_row (set_tunnels (<[i' := r]> (tunnels d)) d)) as Hins.
  { intros i' r Hr. unfold live_row. cbn. destruct (decide (i' = id)) as [->|Hne].
    - exists r. rewrite lookup_insert_eq. auto.
    - exists row. rewrite lookup_insert_ne by done. done. }
  assert (forall d', tunnels d' = tunnels d -> live_row d') as Hsame by (intros d' E; exists row; by rewrite E).
  destruct s; cbn [exec leaves_live] in *; try (destruct (record_flags record0) as [dl iss]); try split_update; cbn [fst];
    repeat (case_split; cbn [fst]); try (by apply Hsame); apply Hins; cbn [t_record]; intros Hid; simplify_eq; auto; congruence.
Qed.

Lemma acts_live F d d' :
  (forall s, F s -> leaves_live s) -> acts (fun _ => False) F d d' -> live_row d -> live_row d'.
Proof.
  intros HF. induction 1 as [|a b c (s & -> & Hs) _ IH]; [done|]. intros Ha. apply IH. destruct Hs as [Hs|Hs].
  - apply exec_live; auto.
  - destruct Ha as (row & Hrow & Hl). specialize (Hs id). rewrite Hrow in Hs. unfold row_step in Hs.
    destruct (tunnels (exec s a).1 !! id) as [row'|] eqn:E; [|done]. exists row'. split; [done|].
    destruct Hs as [->|(l & [] & _)]. done.
Qed.

(** A save from an entry without a live record conflicts with a live row. *)
Lemma save_live_conflict c r' d turns v w :
  cache_ok id c d -> record c = None -> st_id r' = id -> turns_keep leaves_live turns -> live_row d ->
  save_tunnel r' (ca_revision c) now (d, turns) <> (Ok v, w).
Proof.
  intros Hc Hn Hid Ht Hl Hs. destruct w as [d' turns']. unfold save_tunnel in Hs.
  assert (forall ss, Forall leaves_live ss -> exists row, tunnels (run ss d) !! id = Some row /\
            (ca_revision c <> 0 -> t_revision row <> ca_revision c)) as Hrow.
  { intros ss Hss. destruct (run_keeps live_row leaves_live exec_live ss d Hl Hss) as (row & Hrow & Hd). exists row. split; [done|]. intros Hz.
    destruct Hc as [_ Hc]. unfold record, live_record in Hn. destruct (tn_record (ca_tunnel c)) as [r|] eqn:Er.
    - cbn in Hn. destruct (is_deleted r) eqn:Ed; [|done]. destruct Hc as (_ & _ & Hw).
      destruct (run_was _ _ _ ss _ Hw) as (row' & Hrow' & Hor). rewrite Hrow in Hrow'. injection Hrow' as <-.
      destruct Hor as [?|[_ ?]]; [lia|congruence].
    - lia. }
  destruct (ca_revision c =? 0) eqn:E0; apply bind_Ok in Hs as (o & [d1 t1] & Hst & Hk);
    destruct (stmt_answer leaves_live _ _ _ _ _ _ Ht Hst) as (ss & Hss & He & _); destruct (Hrow ss Hss) as (row & Hr & Hne);
    cbn [exec] in He; rewrite Hid in He.
  - rewrite Hr in He. injection He as <- <-. done.
  - destruct (record_flags r') as [dl iss]. split_update; injection He as <- <-; [|done]. bsimp.
    match goal with H : tunnels _ !! _ = Some _ |- _ => rewrite Hr in H; injection H as <- end. by apply Hne.
Qed.

(** An entry is refused a tunnel that is there. *)
Lemma create_refused token_hash s r s' :
  sv_ok id s -> turns_keep leaves_live (sv_turns s) -> live_row (sv_db s) ->
  create id now domain cluster generation token_hash s = (r, s') -> forall v, r <> Ok (Some v).
Proof.
  intros Hok Ht Hl Hm v ->. unfold create in Hm. sbind_inv.
  destruct (hoare_lock_fresh (fun _ => False) id now cluster generation (fun _ => True) leaves_live _ _ _ Ht Hok I E)
    as (Ht1 & [Hd1 Hc1] & Ha & Hcache). hnf in Hcache. specialize (Hcache _ eq_refl). hnf in Hcache. subst a.
  apply (acts_live leaves_live _ _ (fun _ H => H)) in Ha; [|done].
  destruct (record (sv_cache s0)) eqn:Er; [done|]. sbind_inv. apply save_Ok in E0 as [_ [w E0]].
  unfold sv_db, sv_turns in *. destruct (sv_world s0) as [d turns]. cbn in *.
  eapply save_live_conflict; [exact Hc1|done| |done|done|exact E0]. done.
Qed.

(** A tunnel that was created is there, until somebody deletes it. *)
Lemma create_lives token_hash s v s' :
  turns_keep leaves_live (sv_turns s) -> create id now domain cluster generation token_hash s = (Ok (Some v), s') -> sv_ok id s ->
  live_row (sv_db s').
Proof.
  intros Ht Hm Hok. unfold create in Hm. sbind_inv.
  destruct (hoare_lock_fresh (fun _ => False) id now cluster generation (fun _ => True) leaves_live _ _ _ Ht Hok I E)
    as (Ht1 & Hok1 & _ & _). destruct (record a); [done|]. sbind_inv.
  apply save_Ok in E0 as [_ [x E0]]. apply announce_world in E1 as [Hw _]. apply st_Ok in E2 as [E2 _]. injection E3 as <- <-.
  unfold sv_db, sv_turns in *. destruct (sv_world s0) as [d turns], (sv_world s1) as [d1 t1]. rewrite Hw in E2.
  assert (turns_keep leaves_live t1) as Ht2.
  { unfold save_tunnel in E0. destruct (_ =? 0); apply bind_Ok in E0 as (o & [d2 t2] & Hst & Hk);
      destruct (stmt_answer leaves_live _ _ _ _ _ _ Ht1 Hst) as (ss & _ & _ & Ht2); unfold fail, ret in Hk;
      repeat case_split; by simplify_eq. }
  apply save_tunnel_Ok in E0 as (_ & _ & _ & row & Hrow & Hrec & _).
  assert (live_row d1) as Hl by (exists row; by rewrite Hrec).
  destruct (sv_world s3) as [d3 t3]. unfold set_alarm in E2. apply bind_Ok in E2 as (o & [d4 t4] & Hst & Hk). injection Hk as <- <- <-.
  by destruct (stmt_keeps live_row leaves_live exec_live (SSetAlarm id None) _ _ _ _ _ Hl Ht2 I Hst).
Qed.
End Outcomes.

(** C29: A tunnel's name is given out once: after a machine created a tunnel, no machine's create of it succeeds, however old
    the record that machine has cached, until somebody deletes it. *)
Theorem create_once `{TimeText} id now now' domain cluster cluster' generation generation' hash hash' sA v sA' between sB r sB' v' :
  turns_keep (leaves_live id) (sv_turns sA) -> sv_ok id sA ->
  create id now domain cluster generation hash sA = (Ok (Some v), sA') ->
  Forall (leaves_live id) between -> sv_db sB = run between (sv_db sA') -> turns_keep (leaves_live id) (sv_turns sB) -> sv_ok id sB ->
  create id now' domain cluster' generation' hash' sB = (r, sB') -> r <> Ok (Some v').
Proof.
  intros HtA HokA HA Hb Hdb HtB HokB HB. eapply create_refused; [done|done| |done]. rewrite Hdb.
  apply (run_keeps _ _ (exec_live id)); [|done]. eapply create_lives; [exact HtA|exact HA|exact HokA].
Qed.

(** *** Tokens *)

Lemma lor_zero a b : 0 <= a -> 0 <= b -> Z.lor a b = 0 <-> a = 0 /\ b = 0.
Proof. intros. split; [apply Z.lor_eq_0_iff|by intros [-> ->]]. Qed.
(** *** What routing trusts *)

(** The entry's record is what the database holds. *)
Definition current (id : string) (c : Cache) (d : Db) : Prop :=
  tn_record (ca_tunnel c) = (fun s => l_record (loaded s)) <$> read_tunnel id d.

(** The database could not be asked, lately or just now. *)
Definition outage (now : Z) (s s' : Sv) : Prop :=
  sat_sub now (sv_refresh_failed_at s) < REFRESH_BACKOFF_MS \/ sv_refresh_failed_at s' = now.

Lemma query_Ok {A} (f : Db -> A) w a w' : query f w = (Ok a, w') -> a = f (fst w').
Proof. destruct w as [d turns]. unfold query. destruct (next_turn turns) as [t ts]. destruct (fault t); by intros [= <- <-]. Qed.

Section Routable.
Context (id : string) (now generation : Z).

Lemma lock_current s c s' :
  ca_loaded (sv_cache s) = false -> lock id now generation s = (Ok c, s') -> current id c (sv_db s').
Proof.
  intros Hl Hm. unfold lock in Hm. sbind_inv. injection E as <- <-. rewrite Hl in Hm. sbind_inv. apply st_Ok in E as [E _].
  apply query_Ok in E. injection E0 as _ <-. cbn. unfold current, sv_db. cbn. rewrite <- E. by destruct a.
Qed.

Lemma refresh_current s c s' :
  refresh id now generation s = (Ok c, s') -> current id c (sv_db s') \/ c = sv_cache s /\ outage now s s'.
Proof.
  intros Hm. unfold refresh in Hm. sbind_inv. injection E as <- <-. injection E0 as <- <-. case_split.
  - injection Hm as <- <-. right. split; [done|]. left. by bsimp.
  - sbind_inv. unfold st, tunnel, bind in E0. destruct (tunnel_with_alarm id (sv_world s)) as [r w] eqn:Et.
    destruct r as [found|e]; injection E0 as <- <-; sbind_inv.
    + apply query_Ok in Et. injection E0 as _ <-. left. unfold current, sv_db. cbn. rewrite <- Et. by destruct found.
    + injection E0 as _ <-. right. split; [done|]. by right.
Qed.
End Routable.

(** With other machines, what routing trusts is what the database holds now; or a live record with a ready certificate
    that no machine said had changed; or a missing or unready one, read since the mesh last may have missed something and
    within its time to live; or, during an outage of the database, what was known. *)
Theorem routable_current id now complete generation s c s' :
  lock_routable id now (Some complete) generation s = (Ok c, s') ->
  current id c (sv_db s') \/
  c = sv_cache s /\ ca_loaded c = true /\
  (outage now s s' \/
   ca_stale c = false /\
   ((exists r, record c = Some r /\ certificate_ready r = true) \/
    generation <= ca_generation c /\
    now - ca_checked_at c < (if complete then SAFETY_TTL_MS
                             else match record c with Some _ => NOT_READY_TTL_MS | None => MISSING_TTL_MS end))).
Proof.
  intros Hm. unfold lock_routable in Hm. sbind_inv. injection E as <- <-. set (c0 := sv_cache s) in *.
  destruct (ca_loaded c0) eqn:El; cbn [negb] in Hm; [|left; by eapply lock_current].
  assert (refresh id now generation s = (Ok c, s') -> current id c (sv_db s') \/ c = c0 /\ ca_loaded c = true /\ outage now s s') as Href.
  { intros Hr. destruct (refresh_current _ _ _ _ _ _ Hr) as [?|[-> ?]]; [by left|right]. done. }
  destruct (ca_stale c0) eqn:Es; [naive_solver|].
  destruct (match record c0 with Some r => certificate_ready r | None => false end) eqn:Er.
  - injection Hm as <- <-. right. split_and!; [done|done|]. right. split; [done|]. left.
    destruct (record c0) as [r|] eqn:E0; [|done]. eauto.
  - destruct (ca_generation c0 <? generation) eqn:Eg; [naive_solver|]. destruct (sat_sub now _ <? _) eqn:Et; [|naive_solver].
    injection Hm as <- <-. bsimp. right. split_and!; [done|done|].
    right. split; [done|]. right. split; [done|]. unfold sat_sub in *. lia.
Qed.

(** ** Witnesses *)

Module Demo.
(** Times as decimal milliseconds. *)
Definition demo_parse (s : string) : option Z := parse_uint (2 ^ 64 - 1) (as_bytes s).

Lemma demo_parse_iso ms : 0 <= ms < 253402300800000 -> demo_parse (dec_string ms) = Some ms.
Proof.
  intros Hms. unfold demo_parse. rewrite dec_string_bytes by lia. apply parse_uint_to_dec; lia.
Qed.

#[export] Instance demo_time : TimeText := {| iso := dec_string; parse_iso := demo_parse; parse_iso_iso := demo_parse_iso |}.

Definition demo_hash (token : string) : string := token.
Definition demo_x509 (csr : string) : option (list string * list string) := Some (["a.t.test"], ["a.t.test"]).
Definition demo_text (e : SvError) : string := "failed".

Definition empty_db : Db := mkDb ∅ ∅ ∅ ∅ ∅.
Definition start (d : Db) (turns : list Turn) : Sv := mkSv (new_entry "a") 0 None [] (d, turns).

Lemma start_ok d turns : db_ok d -> sv_ok "a" (start d turns).
Proof. done. Qed.

Lemma empty_ok : db_ok empty_db.
Proof. intros i row. cbn. by rewrite lookup_empty. Qed.

(** The tunnel "a" created; then with its certificate issued, and cached. *)
Definition demo_record : StoredTunnel := new_record "a" 1000 "t.test" "secret".
Definition demo_serving : StoredTunnel :=
  set_certificate (Some (mkCertificateInfo "cert_u" (Ready "cert" "chain" "9000000000")))
    (bound 2000 "cert_u" "csr" ["a.t.test"] demo_record).
Definition demo_row (r : StoredTunnel) (revision : Z) : TunnelRow := mkTunnelRow r revision false false None 1000 None true.
Definition demo_db (r : StoredTunnel) : Db := mkDb (<["a" := demo_row r 1]> ∅) ∅ ∅ ∅ ∅.
Definition demo_cached (r : StoredTunnel) : Cache := with_record (Some r) 1 (with_loaded true (new_entry "a")).
Definition demo_state (r : StoredTunnel) (turns : list Turn) : Sv := mkSv (demo_cached r) 0 None [] (demo_db r, turns).

(** What happens between an operation's statements. *)
Definition demo_turns : list Turn := [mkTurn [SSetMeta "k" "v"] Answered; mkTurn [] AnswerLost].

Lemma demo_state_ok r turns : st_id r = "a" -> sv_ok "a" (demo_state r turns).
Proof.
  intros Hr. split.
  - intros i row Hrow. cbn in Hrow. apply lookup_insert_Some in Hrow as [[<- <-]|[_ Hrow]]; [split; [done|cbn; lia]|].
    rewrite lookup_empty in Hrow. discriminate Hrow.
  - split; [done|]. cbn. split_and!; [done|done|]. exists (demo_row r 1). split; [apply lookup_insert_eq|by right].
Qed.

Abbreviation demo_perform now := (perform "a" now "t.test" (Some true) 0 demo_hash demo_x509 demo_text).

Lemma service_refines_life_witness :
  sv_ok "a" (snd (demo_perform 2000 (RBind "u" "secret" "csr") (demo_state demo_record demo_turns))).
Proof.
  refine (proj2 (service_refines_life "a" 2000 "t.test" (Some true) 0 demo_hash demo_x509 demo_text (RBind "u" "secret" "csr") (fun _ => True)
    (demo_state demo_record demo_turns) _ _ _ _ (surjective_pairing _))); [repeat constructor|by apply demo_state_ok].
Defined.

(** A renewal that fails. *)
Lemma serving_kept_witness :
  rtc (fun d d' => exists st, d' = fst (exec st d) /\ (False \/ serving_step (RUpdate "cert_v" (Failed "x")) d d'))
    (demo_db demo_serving) (sv_db (snd (demo_perform 5000 (RUpdate "cert_v" (Failed "x")) (demo_state demo_serving [])))).
Proof.
  refine (serving_kept "a" 5000 "t.test" (Some true) 0 demo_hash demo_x509 demo_text (RUpdate "cert_v" (Failed "x")) (fun _ => False)
    (demo_state demo_serving []) _ _ _ _ (surjective_pairing _)); [constructor|by apply demo_state_ok].
Defined.

Lemma records_well_formed_witness : db_wf (sv_db (snd (demo_perform 1000 (RCreate "secret") (start empty_db [])))).
Proof.
  refine (records_well_formed "a" 1000 "t.test" (Some true) 0 demo_hash demo_x509 demo_text (RCreate "secret") (start empty_db [])
    _ _ _ _ _ (surjective_pairing _)); [constructor|apply start_ok, empty_ok|].
  intros i row Hrow. cbn in Hrow. rewrite lookup_empty in Hrow. discriminate Hrow.
Defined.

(** The client asks again: the job of its certificate was never written. *)
Definition demo_bound : StoredTunnel := bound 2000 "cert_u" "csr" ["a.t.test"] demo_record.
Definition demo_job (kind : string) (at_ : Z) : JobRow :=
  mkJobRow (Some "a") kind ["a.t.test"] "csr" Pending 0 at_ None None None at_ at_.
Definition demo_again : Sv :=
  mkSv (demo_cached demo_bound) 0 None [JobsNotified]
    (mkDb (<["a" := demo_row demo_bound 1]> ∅) (<["cert_u" := demo_job "issue" 3000]> ∅) ∅ ∅ ∅, []).

Lemma bind_leaves_job_witness : awaited (mkCertificateInfo "cert_u" Issuing) "csr" demo_again.
Proof.
  apply (bind_leaves_job "a" 3000 None 0 demo_hash demo_x509 demo_text "u" "secret" "csr" (demo_state demo_bound [])).
  reflexivity.
Defined.

(** The renewal of a certificate, started. *)
Definition demo_renewing : StoredTunnel := set_renewal (Some (mkRenewal "cert_v" (iso 4000))) demo_serving.
Definition demo_renewal : Sv :=
  mkSv (with_record (Some demo_renewing) 2 (demo_cached demo_serving)) 0 None [JobsNotified]
    (mkDb (<["a" := mkTunnelRow demo_renewing 2 false true None 4000 None true]> (<["a" := demo_row demo_serving 1]> ∅))
       (<["cert_v" := demo_job "renew" 4000]> ∅) ∅ ∅ ∅, []).

Lemma renewal_not_lost_witness :
  is_Some (jobs (sv_db demo_renewal) !! "cert_v") \/
  (forall row, tunnels (sv_db demo_renewal) !! "a" = Some row -> t_alarm_at row = Some (4000 + RENEWAL_RETRY_MS)).
Proof.
  apply (renewal_not_lost "a" 4000 None "v" demo_serving (demo_state demo_serving []) tt); [reflexivity|discriminate].
Defined.

Lemma create_once_witness :
  fst (create "a" 9000 "t.test" (Some true) 0 "other" (start (demo_db demo_record) [])) <> Ok (Some (mkTunnelView "a" "a.t.test" Offline None)).
Proof.
  refine (create_once "a" 1000 9000 "t.test" None (Some true) 0 0 "secret" "other" (start empty_db [])
    (mkTunnelView "a" "a.t.test" Offline None)
    (mkSv (checked 1000 0 (with_record (Some demo_record) 1 (with_loaded true (new_entry "a")))) 0 None [] (demo_db demo_record, []))
    [] (start (demo_db demo_record) []) _ _ _ _ _ _ _ _ _ _ (surjective_pairing _));
    [constructor|apply start_ok, empty_ok|reflexivity|constructor|reflexivity|constructor|].
  split; [|done]. apply (demo_state_ok demo_record []). done.
Defined.

Lemma routable_current_witness :
  current "a" (demo_cached demo_serving) (demo_db demo_serving) \/ ca_stale (demo_cached demo_serving) = false.
Proof.
  destruct (routable_current "a" 1500 true 0 (demo_state demo_serving []) (demo_cached demo_serving) (demo_state demo_serving []))
    as [H|(_ & _ & [H|[H _]])]; [reflexivity|left; exact H|right; reflexivity|right; exact H].
Defined.
End Demo.
