(* ===== verification/Jobs.v ===== *)
(** * Jobs: issuing certificates in the background, [jobs.rs]

    The runner claims due jobs under a lease and runs an attempt of each; attempts place orders with the issuer, show the
    challenge, and record the result in the tunnel's record and the job. Also the renewal alarms, the lease of the machine
    that sweeps DNS records, and the certificate of the API's own domain. The database and its faults are [Store]'s, the
    tunnel's record [Service]'s; the issuer is what it calls back and how it ends; metrics and logs are not modelled. *)

From Stdlib Require Import ZArith Lia Ascii String List.
From stdpp Require Import base list strings gmap relations.
From S2P Require Import Prelude Text Names Record Mesh Bridges Failure Store Limits Service.

(** ** Data *)

Definition PERSIST_FAILED : string := "Failed to persist certificate state: tunnel or certificate not found".
Definition ORPHAN_GRACE_MS : Z := 15 * MINUTE_MS.
Definition COOLDOWN_KEY : string := "ca_cooldown".
Definition COOLDOWN_REFRESH_MS : Z := 15000.
Definition DNS_SWEEP_EVERY_MS : Z := 10 * MINUTE_MS.
Definition DNS_SWEEP_AGE_MS : Z := HOUR_MS.
Definition DNS_SWEEPER_KEY : string := "dns_sweeper".

(** [acme.rs], [Issued] *)
Record Issued := mkIssued { is_certificate : string; is_chain : string; is_expiry : string }.

(** What happens while an order runs: the issuer's callback, and the ticks at which the lease is extended, at their times. *)
Inductive IssuerStep := OnChallenge (token key : string) (now : Z) | RenewTick (now : Z).

(** How the issuer ends by itself. *)
Inductive IssuerEnd := EIssued (issued : Issued) | EFailed (error : list Cause) | EStopped.

(** What an attempt did and was told, in order: [ALease] is what the database said of its lease, [None] if it did not answer. *)
Inductive Action :=
| ARefused
| AUnwanted
| AOrder (identifiers : list string) (csr : string)
| ARecord (state : CertificateState) (accepted : bool)
| ALease (held : option bool)
| AInstall (chain : string)
| AFinish (status : JobStatus)
| ARetry (attempts run_at : Z).

Inductive JError := JService (e : SvError) | JInstall.

(** The state of a machine's jobs as an attempt sees it: the service with its job's tunnel, the CA cool-down and when it was
    read, what the API domain serves, and what was done. *)
Record Js := mkJs {
  js_sv : Sv;
  js_cooldown : Cooldown;
  js_read_at : Z;
  js_serving : option string;
  js_actions : list Action;
}.

Definition JM (A : Type) : Type := Js -> result A JError * Js.
Definition jret {A} (a : A) : JM A := fun s => (Ok a, s).
Definition jfail {A} (e : JError) : JM A := fun s => (Err e, s).
Definition jbind {A B} (m : JM A) (k : A -> JM B) : JM B := fun s =>
  match m s with (Ok a, s') => k a s' | (Err e, s') => (Err e, s') end.
Notation "x <== m ;; k" := (jbind m (fun x => k)) (at level 100, m at next level, right associativity).

Definition with_sv (v : Sv) (s : Js) : Js := mkJs v (js_cooldown s) (js_read_at s) (js_serving s) (js_actions s).
Definition sv {A} (m : SM A) : JM A := fun s =>
  let '(r, v) := m (js_sv s) in (match r with Ok a => Ok a | Err e => Err (JService e) end, with_sv v s).
Definition jst {A} (m : M A) : JM A := sv (st m).
(** A call whose failure is handled. *)
Definition attempt {A} (m : JM A) : JM (result A JError) := fun s => let '(r, s') := m s in (Ok r, s').
Definition act (a : Action) : JM unit := fun s =>
  (Ok tt, mkJs (js_sv s) (js_cooldown s) (js_read_at s) (js_serving s) (js_actions s ++ [a])).
Definition cooldown : JM Cooldown := fun s => (Ok (js_cooldown s), s).
Definition read_at : JM Z := fun s => (Ok (js_read_at s), s).
Definition set_cooldown (c : Cooldown) (at_ : Z) : JM unit := fun s =>
  (Ok tt, mkJs (js_sv s) c at_ (js_serving s) (js_actions s)).
Definition serve (chain : string) : JM unit := fun s =>
  (Ok tt, mkJs (js_sv s) (js_cooldown s) (js_read_at s) (Some chain) (js_actions s)).

Definition newline : string := String (ascii_of_nat 10) "".

(** ** One attempt *)

(** Why a job may not be ordered. *)
Inductive Refusal :=
| RefusedNames (e : Csr.NameError)
| RefusedCsr
| RefusedServer (identifiers : list string) (domain : string)
| RefusedKind.

Section Attempt.
Context `{TimeText}.
(** The service's domain, the other machines, the generation of the service, this process's name on leases, and the delay
    before the second attempt. *)
Context (domain : string) (cluster : option bool) (generation : Z) (owner : string) (retry_delay_ms : Z).
(** The CSR parser, the texts of errors and refusals, and whether the API domain's TLS takes a chain with a key. *)
Context (parse_x509 : string -> option (list string * list string)) (causes : SvError -> list Cause)
  (refusal_text : Refusal -> string) (install : string -> string -> bool).
(** The API domain this machine has a certificate for. *)
Context (server : option string).

Definition lower_domain : string := to_ascii_lowercase domain.

Definition names_domain (names : list string) : bool :=
  match names with [name] => Csr.eq_ignore_ascii_case name lower_domain | _ => false end.

Definition permitted (job : Job) : result unit Refusal :=
  match jb_kind job, jb_tunnel_id job with
  | (Issue | Renew), Some tunnel =>
      match Csr.check_tunnel_request parse_x509 tunnel lower_domain (jb_identifiers job) (jb_csr job) with
      | Ok _ => Ok tt
      | Err e => Err (RefusedNames e)
      end
  | KServer, None =>
      match Csr.parse parse_x509 (jb_csr job) with
      | None => Err RefusedCsr
      | Some request =>
          if names_domain (jb_identifiers job) && names_domain (Csr.identifiers request) then Ok tt
          else Err (RefusedServer (jb_identifiers job) lower_domain)
      end
  | _, _ => Err RefusedKind
  end.

(** The tunnel of a job that is not the server's own. *)
Definition tunnel_job (job : Job) : option string :=
  match jb_kind job with Issue | Renew => jb_tunnel_id job | KServer => None end.

(** A job's result in its tunnel's record: whether the record took it. *)
Definition record_state (job : Job) (tunnel : string) (now : Z) (state : CertificateState) : JM bool :=
  accepted <== sv (update_certificate tunnel now cluster generation (jb_certificate_id job) state);;
  _ <== act (ARecord state accepted);;
  jret accepted.

Definition finish (job : Job) (status : JobStatus) (error : option string) (now : Z) : JM unit :=
  _ <== jst (finish_job (jb_certificate_id job) owner status error now);;
  act (AFinish status).

Definition refuse (job : Job) (reason : Refusal) (now : Z) : JM unit :=
  _ <== act ARefused;;
  let reason := "Certificate request refused: " +:+ refusal_text reason in
  _ <== match tunnel_job job with
        | Some tunnel => _ <== record_state job tunnel now (Failed reason);; jret tt
        | None => jret tt
        end;;
  finish job JFailed (Some reason) now.

Definition wanted (job : Job) (now : Z) : JM bool :=
  match tunnel_job job with
  | None => jret true
  | Some tunnel =>
      w <== attempt (sv (wants_certificate tunnel now cluster generation (jb_certificate_id job)));;
      jret (match w with Ok w => w | Err _ => true end)
  end.

Definition abandon (job : Job) (reason : option string) (now : Z) : JM unit :=
  _ <== act AUnwanted;; finish job Abandoned reason now.

(** The callback of [execute]; an error ends the order. *)
Definition on_challenge (job : Job) (token key : string) (now : Z) : JM (result unit (list Cause)) :=
  match jb_kind job, jb_tunnel_id job with
  | Issue, Some tunnel =>
      accepted <== attempt (record_state job tunnel now (Challenge token key));;
      jret (match accepted with
            | Ok true => Ok tt
            | Ok false => Err [COther PERSIST_FAILED]
            | Err (JService e) => Err (causes e)
            | Err JInstall => Err []
            end)
  | _, _ => jret (Ok tt)
  end.

(** The order while it runs. *)
Fixpoint order_steps (job : Job) (steps : list IssuerStep) (ends : IssuerEnd) : JM IssuerEnd :=
  match steps with
  | [] => jret ends
  | OnChallenge token key now :: steps' =>
      shown <== on_challenge job token key now;;
      match shown with Ok _ => order_steps job steps' ends | Err error => jret (EFailed error) end
  | RenewTick now :: steps' =>
      _ <== attempt (jst (extend_lease (jb_certificate_id job) owner now));; order_steps job steps' ends
  end.

Definition first_problem (e : list Cause) : option Problem :=
  head (omap (fun c => match c with CProblem p => Some p | _ => None end) e).

Definition cooldown_outcome (result : option (list Cause)) (now : Z) : JM unit :=
  c <== cooldown;;
  at_ <== read_at;;
  let '(changed, c) := match result with
                       | None => cooldown_succeeded c
                       | Some error => cooldown_failed c (error_class error) (let* p := first_problem error in pb_retry_after p) now
                       end in
  _ <== set_cooldown c at_;;
  if changed : bool then _ <== attempt (jst (set_meta COOLDOWN_KEY (cooldown_encode c)));; jret tt else jret tt.

(** [ServerCertificates::installed] *)
Definition installed (name : string) (job : Job) (issued : Issued) : JM unit :=
  stored <== jst (server_certificate name);;
  match stored with
  | None => jret tt
  | Some stored =>
      if negb (String.eqb (sc_csr stored) (jb_csr job)) then jret tt
      else
        let chain := is_certificate issued +:+ newline +:+ is_chain issued in
        if negb (install chain (private_key stored)) then jfail JInstall
        else
          _ <== serve chain;;
          _ <== act (AInstall chain);;
          jst (save_server_certificate name (mkServerCertificate (private_key stored) (sc_csr stored)
                 (Some (is_certificate issued)) (Some (is_chain issued)) (Some (is_expiry issued))))
  end.

(** The result of a finished order. *)
Definition succeeded (job : Job) (issued : Issued) (now : Z) : JM unit :=
  _ <== match jb_kind job, jb_tunnel_id job with
        | KServer, _ => match server with Some name => installed name job issued | None => jret tt end
        | _, Some tunnel =>
            _ <== record_state job tunnel now (Ready (is_certificate issued) (is_chain issued) (is_expiry issued));; jret tt
        | _, None => jret tt
        end;;
  finish job Done None now.

(** The result of a failed one; [j] is the retry's jitter. *)
Definition gave_up (job : Job) (error : list Cause) (now j : Z) : JM unit :=
  let reason := Failure.error_text error in
  w <== (if str_contains reason PERSIST_FAILED then jret false else wanted job now);;
  if negb w then abandon job (Some reason) now
  else
    let attempts := jb_attempts job + 1 in
    match next_attempt (classify error) attempts retry_delay_ms (jb_created_at job) now j with
    | Some at_ =>
        _ <== jst (retry_job (jb_certificate_id job) owner attempts at_ reason now);; act (ARetry attempts at_)
    | None =>
        _ <== match tunnel_job job with
              | Some tunnel => _ <== record_state job tunnel now (Failed (public_reason error));; jret tt
              | None => jret tt
              end;;
        finish job JFailed (Some reason) now
    end.

(** Whether the lease is still this machine's, asked before a result is recorded. *)
Definition check_lease (job : Job) (now : Z) : JM (option bool) :=
  lease <== attempt (jst (extend_lease (jb_certificate_id job) owner now));;
  let held := match lease with Ok held => Some held | Err _ => None end in
  _ <== act (ALease held);;
  jret held.

(** [execute], for an order with these steps and this end: it starts at [started] and ends at [ended]. *)
Definition execute (job : Job) (started : Z) (steps : list IssuerStep) (ends : IssuerEnd) (ended j : Z) : JM unit :=
  match permitted job with
  | Err reason => refuse job reason started
  | Ok _ =>
      w <== wanted job started;;
      if negb w then abandon job None started
      else
        _ <== act (AOrder (jb_identifiers job) (jb_csr job));;
        result <== order_steps job steps ends;;
        held <== check_lease job ended;;
        match held, result with
        | Some false, _ => jret tt
        | _, EStopped => jret tt
        | _, EIssued issued => _ <== cooldown_outcome None ended;; succeeded job issued ended
        | _, EFailed error => _ <== cooldown_outcome (Some error) ended;; gave_up job error ended j
        end
  end.
End Attempt.

(** ** The runner *)

(** [Jobs]: the runner's own state; [running] holds the jobs whose attempts are under way. *)
Record Runner := mkRunner {
  ru_running : gmap string JobKind;
  ru_stopping : bool;
  ru_js : Js;
}.

Section Runner.
Context (concurrency : nat) (owner : string).

(** The first issuances that are running. *)
Definition is_issue (k : JobKind) : bool := bool_decide (k = Issue).
Definition issuing (running : gmap string JobKind) : nat := size (filter (fun kv => kv.2 = Issue) running).

Definition issue_slots : nat := if (1 <? concurrency)%nat then concurrency - 1 else concurrency.

Definition cooling_until (now : Z) : JM Z :=
  local <== cooldown;;
  at_ <== read_at;;
  if sat_sub now at_ <? COOLDOWN_REFRESH_MS then jret (cd_until local)
  else
    stored <== attempt (jst (get_meta COOLDOWN_KEY));;
    match stored with
    | Ok stored =>
        let c := match stored with Some stored => cooldown_merge local stored | None => local end in
        _ <== set_cooldown c now;; jret (cd_until c)
    | Err _ => jret (cd_until local)
    end.

(** What the loop of [start_due] does with a due job: leave the loop, pass over it, or start it. *)
Inductive Choice := Break | Skip | Start.

Definition choose (cooling : bool) (kind : JobKind) (id : string) (running : gmap string JobKind) : Choice :=
  if (concurrency <=? size running)%nat then Break
  else if is_issue kind && (issue_slots <=? issuing running)%nat then Skip
  else if cooling && (is_issue kind || (issuing running <? size running)%nat) then Skip
  else match running !! id with Some _ => Skip | None => Start end.

(** The loop over the due jobs: the jobs it claimed. Before each, the attempts in [ended] end. *)
Fixpoint start_loop (cooling : bool) (now : Z) (due : list (string * JobKind)) (ended : list (list string)) (r : Runner)
    : result (list Job) JError * Runner :=
  match due with
  | [] => (Ok [], r)
  | (id, kind) :: due' =>
      let running := foldr delete (ru_running r) (hd [] ended) in
      match choose cooling kind id running with
      | Break => (Ok [], mkRunner running (ru_stopping r) (ru_js r))
      | Skip => start_loop cooling now due' (tl ended) (mkRunner running (ru_stopping r) (ru_js r))
      | Start =>
          let taken := <[id := kind]> running in
          match jst (claim_job id owner now) (ru_js r) with
          | (Ok (Some job), js) =>
              let '(started, r) := start_loop cooling now due' (tl ended) (mkRunner taken (ru_stopping r) js) in
              (match started with Ok jobs => Ok (job :: jobs) | Err e => Err e end, r)
          | (Ok None, js) => start_loop cooling now due' (tl ended) (mkRunner (delete id taken) (ru_stopping r) js)
          | (Err e, js) => (Err e, mkRunner (delete id taken) (ru_stopping r) js)
          end
      end
  end.

Definition next_of (now : Z) (limit : nat) (schedule : list (string * Z * JobKind)) : option Z :=
  match List.find (fun at_ => now <? at_) (map (fun j => j.1.2) schedule) with
  | Some at_ => Some at_
  | None => if (length schedule =? limit)%nat then Some (now + 1000) else None
  end.

Definition due_of (now : Z) (schedule : list (string * Z * JobKind)) : list (string * JobKind) :=
  map (fun j => (j.1.1, j.2)) (filter (fun j => j.1.2 <= now) schedule).

(** [start_due]: the jobs whose attempts it spawned, and when the next one may be taken. *)
Definition start_due (now : Z) (ended : list (list string)) (r : Runner) : result (list Job * option Z) JError * Runner :=
  let running := size (ru_running r) in
  if ru_stopping r then (Ok ([], None), r)
  else if (concurrency <=? running)%nat then (Ok ([], None), r)
  else
    let limit := (concurrency + running + 1)%nat in
    match jst (job_schedule owner now limit) (ru_js r) with
    | (Err e, js) => (Err e, mkRunner (ru_running r) (ru_stopping r) js)
    | (Ok schedule, js) =>
        let next := next_of now limit schedule in
        match cooling_until now js with
        | (Err e, js) => (Err e, mkRunner (ru_running r) (ru_stopping r) js)
        | (Ok until, js) =>
            let cooling := now <? until in
            let next := if cooling then Some (match next with Some next => Z.min next until | None => until end) else next in
            match start_loop cooling now (due_of now schedule) ended (mkRunner (ru_running r) (ru_stopping r) js) with
            | (Ok jobs, r) => (Ok (jobs, next), r)
            | (Err e, r) => (Err e, r)
            end
        end
    end.

(** An attempt ends. *)
Definition task_ended (id : string) (r : Runner) : Runner := mkRunner (delete id (ru_running r)) (ru_stopping r) (ru_js r).
(** [stop] *)
Definition stop (r : Runner) : Runner := mkRunner (ru_running r) true (ru_js r).
End Runner.

(** ** Alarms, the DNS sweeper, and the API domain's certificate *)

(** [poll_wait] and the waits of the loops; [j] is the jitter, in 2^32 parts. *)
Definition POLL_MS : Z := 30000.
Definition poll_wait (j : Z) : Z := POLL_MS + jitter_of POLL_MS j.
Definition wait_for (least now j : Z) (next : option Z) : Z :=
  Z.max least (match next with Some at_ => Z.min (sat_sub at_ now) (poll_wait j) | None => poll_wait j end).

Section Alarms.
Context `{TimeText}.
Context (now : Z) (cluster : option bool) (generation : Z).

(** [fire_due_alarms_and_next]; every alarm's renewal gets a new identifier. *)
Fixpoint fire_loop (due : list string) (uuids : list string) (s : Svc) : result unit SvError * Svc :=
  match due with
  | [] => (Ok tt, s)
  | id :: due' =>
      match on_entry id (alarm_fired id now cluster generation (hd "" uuids)) s with
      | (Ok _, s) => fire_loop due' (tl uuids) s
      | (Err _, s) =>
          match svc_st (set_alarm id (Some (now + MINUTE_MS))) s with
          | (Ok _, s) => fire_loop due' (tl uuids) s
          | (Err e, s) => (Err e, s)
          end
      end
  end.

Definition fire_due_alarms_and_next (uuids : list string) (s : Svc) : result (nat * option Z) SvError * Svc :=
  match svc_st (take_due_alarms_and_next now) s with
  | (Err e, s) => (Err e, s)
  | (Ok (due, next), s) =>
      match fire_loop due uuids s with
      | (Err e, s) => (Err e, s)
      | (Ok _, s) =>
          let next := match due with
                      | [] => next
                      | _ => Some (match next with Some next => Z.min next (now + MINUTE_MS) | None => now + MINUTE_MS end)
                      end in
          (Ok (length due, next), s)
      end
  end.
End Alarms.

(** [trim_start_matches("*.")] *)
Fixpoint trim_wildcards (s : string) : string :=
  match s with
  | String c (String c' rest) =>
      if Ascii.eqb c "*"%char && Ascii.eqb c' dot then trim_wildcards rest else s
  | _ => s
  end.

Section Sweeper.
Context (owner : string) (now : Z).

(** The lease in [meta]: whose it is and until when, [None] if it says neither. *)
Definition sweeper_lease (value : string) : option (string * option Z) :=
  let* (owner, until) := str_split_once " " value in Some (owner, parse_uint U64_MAX (as_bytes until)).

Definition lease_text : string := owner +:+ " " +:+ dec_string (now + 2 * DNS_SWEEP_EVERY_MS).

(** [sweep_dns] up to the sweep itself: the names in use, if this machine sweeps. *)
Definition sweep_dns : M (option (list string)) :=
  current <-- get_meta DNS_SWEEPER_KEY;;
  if match (let* value := current in sweeper_lease value) with
     | Some (other, Some until) => negb (String.eqb other owner) && (now <? until)
     | _ => false
     end
  then ret None
  else
    taken <-- swap_meta DNS_SWEEPER_KEY current lease_text;;
    if negb taken then ret None
    else
      names <-- leased_job_identifiers now;;
      ret (Some (map (fun i => "_acme-challenge." +:+ to_ascii_lowercase (trim_wildcards i)) names)).
End Sweeper.

Section ServerCertificates.
Context `{TimeText}.
(** [ServerCertificates]: the API domain, a new key with a request for it, and a new identifier. *)
Context (name : string) (now : Z) (created : ServerCertificate) (uuid : string).

Definition certificate_due (stored : option ServerCertificate) : bool :=
  match (let* stored := stored in let* expiry := sc_expiry stored in parse_iso expiry) with
  | None => true
  | Some expiry => sat_sub expiry RENEW_BEFORE_MS <=? now
  end.

Definition job_key : string := "server_job:" +:+ name.

(** [ensure]: whether it requested a certificate. *)
Definition ensure : M bool :=
  stored <-- server_certificate name;;
  if negb (certificate_due stored) then ret false
  else
    previous <-- get_meta job_key;;
    pending <-- match previous with Some job => job_pending job | None => ret false end;;
    if pending : bool then ret false
    else
      stored <-- match stored with Some stored => ret stored | None => create_server_certificate name created end;;
      let id := "server_" +:+ uuid in
      swapped <-- swap_meta job_key previous id;;
      if negb swapped then ret false
      else
        _ <-- add_job (mkJob id None KServer [name] (sc_csr stored) 0 now) now;;
        ret true.

(** [load]: the chain and the key it installs. *)
Definition load : M (option (string * string)) :=
  stored <-- server_certificate name;;
  ret (let* stored := stored in let* certificate := sc_certificate stored in let* chain := sc_chain stored in
       Some (certificate +:+ newline +:+ chain, private_key stored)).
End ServerCertificates.

(** ** The protocol of an attempt *)

Inductive Phase := PStart | PRefused | POrdered | PHeld | PIssued | PFailing | PUnwanted | PEnd.

(** What an attempt of a job may do next; [ends] is how its order ends. *)
Inductive permits (refused : bool) (job : Job) (ends : IssuerEnd) : Phase -> Action -> Phase -> Prop :=
| p_refused : refused = true -> permits refused job ends PStart ARefused PRefused
| p_refused_record reason b : permits refused job ends PRefused (ARecord (Failed reason) b) PFailing
| p_refused_finish : tunnel_job job = None -> permits refused job ends PRefused (AFinish JFailed) PEnd
| p_unwanted : refused = false -> permits refused job ends PStart AUnwanted PUnwanted
| p_order : refused = false -> permits refused job ends PStart (AOrder (jb_identifiers job) (jb_csr job)) POrdered
| p_challenge token key b : jb_kind job = Issue -> permits refused job ends POrdered (ARecord (Challenge token key) b) POrdered
| p_lease_lost : permits refused job ends POrdered (ALease (Some false)) PEnd
| p_lease held : held <> Some false -> permits refused job ends POrdered (ALease held) PHeld
| p_issued issued b : tunnel_job job <> None -> ends = EIssued issued ->
    permits refused job ends PHeld (ARecord (Ready (is_certificate issued) (is_chain issued) (is_expiry issued)) b) PIssued
| p_installed issued : jb_kind job = KServer -> ends = EIssued issued ->
    permits refused job ends PHeld (AInstall (is_certificate issued +:+ newline +:+ is_chain issued)) PIssued
| p_done : permits refused job ends PIssued (AFinish Done) PEnd
| p_server_done issued : jb_kind job = KServer -> ends = EIssued issued -> permits refused job ends PHeld (AFinish Done) PEnd
| p_ordered_unwanted : permits refused job ends PHeld AUnwanted PUnwanted
| p_abandon : permits refused job ends PUnwanted (AFinish Abandoned) PEnd
| p_retry run_at : permits refused job ends PHeld (ARetry (jb_attempts job + 1) run_at) PEnd
| p_failed reason b : tunnel_job job <> None -> permits refused job ends PHeld (ARecord (Failed reason) b) PFailing
| p_failed_finish : permits refused job ends PFailing (AFinish JFailed) PEnd
| p_server_failed : jb_kind job = KServer -> permits refused job ends PHeld (AFinish JFailed) PEnd.

Inductive path (refused : bool) (job : Job) (ends : IssuerEnd) : Phase -> list Action -> Phase -> Prop :=
| path_nil p : path refused job ends p [] p
| path_cons p a q l r : permits refused job ends p a q -> path refused job ends q l r -> path refused job ends p (a :: l) r.

Lemma path_app refused job ends p l q l' r :
  path refused job ends p l q -> path refused job ends q l' r -> path refused job ends p (l ++ l') r.
Proof. induction 1; [done|]. cbn. econstructor; eauto. Qed.

Lemma path_one refused job ends p a q : permits refused job ends p a q -> path refused job ends p [a] q.
Proof. econstructor; [done|constructor]. Qed.

Create HintDb jobs.
#[export] Hint Constructors permits path : jobs.
#[export] Hint Resolve path_one : jobs.

(** From phase [p], an operation goes along the protocol, and an answer [a] leaves it in a phase of [Q a]. *)
Definition goes {A} (refused : bool) (job : Job) (ends : IssuerEnd) (p : Phase) (m : JM A) (Q : A -> Phase -> Prop) : Prop :=
  forall s r s', m s = (r, s') ->
    exists l q, js_actions s' = js_actions s ++ l /\ path refused job ends p l q /\ forall a, r = Ok a -> Q a q.

Section Protocol.
Context (refused : bool) (job : Job) (ends : IssuerEnd).
Abbreviation goes := (goes refused job ends).

Lemma goes_ret {A} p (a : A) (Q : A -> Phase -> Prop) : Q a p -> goes p (jret a) Q.
Proof. intros HQ s r s' [= <- <-]. exists [], p. rewrite app_nil_r. split_and!; [done|constructor|]. by intros a' [= <-]. Qed.

Lemma goes_fail {A} p e (Q : A -> Phase -> Prop) : goes p (jfail e) Q.
Proof. intros s r s' [= <- <-]. exists [], p. rewrite app_nil_r. by split_and!; [|constructor|]. Qed.

Lemma goes_bind {A B} p (m : JM A) (k : A -> JM B) (Q : A -> Phase -> Prop) R :
  goes p m Q -> (forall a q, Q a q -> goes q (k a) R) -> goes p (jbind m k) R.
Proof.
  intros Hm Hk s r s' H. unfold jbind in H. destruct (m s) as [[a|e] s1] eqn:E.
  - destruct (Hm _ _ _ E) as (l & q & H1 & H2 & H3). destruct (Hk a q (H3 a eq_refl) _ _ _ H) as (l' & q' & H1' & H2' & H3').
    exists (l ++ l'), q'. split_and!; [by rewrite H1', H1, app_assoc|by eapply path_app|done].
  - injection H as <- <-. destruct (Hm _ _ _ E) as (l & q & H1 & H2 & _). by exists l, q.
Qed.

(** What leaves no trace. *)
Definition silent {A} (m : JM A) : Prop := forall s r s', m s = (r, s') -> js_actions s' = js_actions s.

Lemma goes_silent {A} p (m : JM A) : silent m -> goes p m (fun _ q => q = p).
Proof. intros Hm s r s' H. exists [], p. rewrite app_nil_r. split_and!; [by eapply Hm|constructor|done]. Qed.

Lemma silent_sv {A} (m : SM A) : silent (sv m).
Proof. intros s r s' H. unfold sv in H. destruct (m (js_sv s)) as [r0 v]. by injection H as <- <-. Qed.

Lemma silent_attempt {A} (m : JM A) : silent m -> silent (attempt m).
Proof. intros Hm s r s' H. unfold attempt in H. destruct (m s) as [r0 s1] eqn:E. injection H as <- <-. by eapply Hm. Qed.

Lemma goes_act p a q : permits refused job ends p a q -> goes p (act a) (fun _ q' => q' = q).
Proof. intros Hp s r s' [= <- <-]. exists [a], q. by split_and!; [|apply path_one|]. Qed.

Lemma goes_attempt {A} p (m : JM A) :
  (forall s r s', m s = (r, s') -> exists l, js_actions s' = js_actions s ++ l /\ path refused job ends p l p) ->
  goes p (attempt m) (fun _ q => q = p).
Proof.
  intros Hm s r s' H. unfold attempt in H. destruct (m s) as [r0 s1] eqn:E. injection H as <- <-.
  destruct (Hm _ _ _ E) as (l & H1 & H2). by exists l, p.
Qed.

Lemma goes_weaken {A} p (m : JM A) (Q Q' : A -> Phase -> Prop) : goes p m Q -> (forall a q, Q a q -> Q' a q) -> goes p m Q'.
Proof. intros Hm HQ s r s' H. destruct (Hm _ _ _ H) as (l & q & ? & ? & ?). exists l, q. split_and!; auto. Qed.

Lemma goes_sv {A} p (m : SM A) : goes p (sv m) (fun _ q => q = p).
Proof. apply goes_silent, silent_sv. Qed.

Lemma goes_attempt_sv {A} p (m : SM A) : goes p (attempt (sv m)) (fun _ q => q = p).
Proof. apply goes_silent, silent_attempt, silent_sv. Qed.

(** After a step that leaves the phase, or goes to [q]. *)
Lemma goes_then {A B} p q (m : JM A) (k : A -> JM B) R : goes p m (fun _ q' => q' = q) -> (forall a, goes q (k a) R) -> goes p (jbind m k) R.
Proof. intros Hm Hk. eapply goes_bind; [done|]. by intros a q' ->. Qed.

Lemma goes_quiet {A B} p (m : SM A) (k : A -> JM B) R : (forall a, goes p (k a) R) -> goes p (jbind (sv m) k) R.
Proof. apply goes_then, goes_sv. Qed.

Lemma goes_end {A} p a q (k : A) : permits refused job ends p a q -> goes p (jbind (act a) (fun _ => jret k)) (fun _ q' => q' = q).
Proof. intros Hp. eapply goes_then; [by apply goes_act|]. intros. by apply goes_ret. Qed.

(** *** The parts of an attempt *)
Context `{TimeText}.
Context (domain : string) (cluster : option bool) (generation : Z) (owner : string) (retry_delay_ms : Z).
Context (parse_x509 : string -> option (list string * list string)) (causes : SvError -> list Cause)
  (refusal_text : Refusal -> string) (install : string -> string -> bool) (server : option string).

Lemma goes_record p tunnel now state q :
  (forall b, permits refused job ends p (ARecord state b) q) ->
  goes p (record_state cluster generation job tunnel now state) (fun _ q' => q' = q).
Proof. intros Hp. apply goes_quiet. intros b. apply goes_end, Hp. Qed.

Lemma goes_finish p status error now :
  permits refused job ends p (AFinish status) PEnd -> goes p (finish owner job status error now) (fun _ q => q = PEnd).
Proof. intros Hp. apply goes_quiet. intros b. by apply goes_act. Qed.

Lemma goes_wanted p now : goes p (wanted cluster generation job now) (fun _ q => q = p).
Proof.
  unfold wanted. destruct (tunnel_job job); [|by apply goes_ret].
  eapply goes_then; [apply goes_attempt_sv|]. intros. by apply goes_ret.
Qed.

Lemma goes_abandon p reason now :
  permits refused job ends p AUnwanted PUnwanted -> goes p (abandon owner job reason now) (fun _ q => q = PEnd).
Proof. intros Hp. eapply goes_then; [by apply goes_act|]. intros. apply goes_finish. constructor. Qed.

Lemma goes_refuse reason now : refused = true -> goes PStart (refuse cluster generation owner refusal_text job reason now) (fun _ q => q = PEnd).
Proof.
  intros Hr. eapply goes_then; [by apply goes_act, p_refused|]. intros _. cbv zeta. destruct (tunnel_job job) eqn:Et.
  - eapply goes_then; [|intros; apply goes_finish, p_failed_finish].
    eapply goes_then; [by apply goes_record; constructor|]. intros. by apply goes_ret.
  - eapply goes_then; [by apply goes_ret|]. intros. apply goes_finish. by constructor.
Qed.

Lemma goes_on_challenge token key now :
  goes POrdered (on_challenge cluster generation causes job token key now) (fun _ q => q = POrdered).
Proof.
  unfold on_challenge. destruct (jb_kind job) eqn:Ek; try by apply goes_ret. destruct (jb_tunnel_id job) as [tunnel|]; [|by apply goes_ret].
  eapply goes_then; [|intros; by apply goes_ret]. apply goes_attempt. intros s r s' Hr. unfold record_state, jbind in Hr.
  destruct (sv _ s) as [[b|e] s1] eqn:E; apply silent_sv in E; injection Hr as <- <-.
  - eexists. split; [cbn; by rewrite E|]. apply path_one. by constructor.
  - exists []. rewrite app_nil_r. split; [done|constructor].
Qed.

Lemma goes_order_steps steps :
  goes POrdered (order_steps cluster generation owner causes job steps ends) (fun _ q => q = POrdered).
Proof.
  induction steps as [|[token key now|now] steps IH]; cbn [order_steps]; [by apply goes_ret| |].
  - eapply goes_then; [apply goes_on_challenge|]. intros [u|e]; [done|by apply goes_ret].
  - by eapply goes_then; [apply goes_attempt_sv|].
Qed.

Lemma goes_cooldown_outcome p result now : goes p (cooldown_outcome result now) (fun _ q => q = p).
Proof.
  apply goes_silent. intros s r s' Hr. unfold cooldown_outcome, jbind, cooldown, read_at in Hr.
  destruct (match result with Some error => _ | None => _ end) as [changed c]. cbn in Hr. destruct changed; [|by injection Hr as <- <-].
  destruct (attempt _ _) as [[b|e] s1] eqn:E; apply (silent_attempt _ (silent_sv _)) in E; injection Hr as <- <-; by rewrite E.
Qed.

Lemma goes_check_lease now : goes POrdered (check_lease owner job now) (fun held q => q = if decide (held = Some false) then PEnd else PHeld).
Proof.
  unfold check_lease. eapply goes_then; [apply goes_attempt_sv|]. intros lease. cbv zeta. set (held := match lease with Ok h => Some h | Err _ => None end).
  eapply goes_bind; [apply (goes_act _ _ (if decide (held = Some false) then PEnd else PHeld))|].
  - case_decide as Hh; [rewrite Hh|]; by constructor.
  - intros _ q ->. by apply goes_ret.
Qed.

Lemma goes_installed name issued :
  jb_kind job = KServer -> ends = EIssued issued ->
  goes PHeld (installed install name job issued) (fun _ q => q = PHeld \/ q = PIssued).
Proof.
  intros Hk He. apply goes_quiet. intros [stored|]; [|apply goes_ret; by left]. case_split; [apply goes_ret; by left|].
  cbv zeta. case_split; [apply goes_fail|]. eapply (goes_then _ PHeld); [by apply goes_silent; intros ??? [= <- <-]|]. intros _.
  eapply goes_then; [by apply goes_act; constructor|]. intros _. eapply goes_weaken; [apply goes_sv|]. auto.
Qed.

Lemma goes_succeeded issued now :
  jb_kind job = KServer \/ tunnel_job job <> None -> ends = EIssued issued ->
  goes PHeld (succeeded cluster generation owner install server job issued now) (fun _ q => q = PEnd).
Proof.
  intros Hk He. unfold succeeded. eapply (goes_bind _ _ _ (fun _ q => q = PIssued \/ q = PHeld /\ jb_kind job = KServer)).
  - unfold tunnel_job in Hk. destruct (jb_kind job) eqn:Ek; [..|destruct server; [|apply goes_ret; by right]].
    3: eapply goes_weaken; [by apply goes_installed|naive_solver].
    all: destruct (jb_tunnel_id job) as [tunnel|] eqn:Et; [|naive_solver].
    all: eapply goes_then; [apply goes_record; intros b; constructor; [unfold tunnel_job; by rewrite Ek, Et|done]|].
    all: intros; apply goes_ret; by left.
  - intros _ q [->|[-> Hs]]; apply goes_finish; [constructor|by eapply p_server_done].
Qed.

Lemma goes_gave_up error now j :
  jb_kind job = KServer \/ tunnel_job job <> None ->
  goes PHeld (gave_up cluster generation owner retry_delay_ms job error now j) (fun _ q => q = PEnd).
Proof.
  intros Hk. unfold gave_up. apply (goes_then _ PHeld).
  { case_split; [by apply goes_ret|apply goes_wanted]. }
  intros w. case_split; [apply goes_abandon; constructor|]. cbv zeta. destruct (next_attempt _ _ _ _ _ _).
  - apply goes_quiet. intros _. apply goes_act. constructor.
  - destruct (tunnel_job job) as [tunnel|] eqn:Et.
    + eapply goes_then; [|intros; apply goes_finish, p_failed_finish].
      eapply goes_then; [apply goes_record; intros b; constructor; by rewrite Et|]. intros. by apply goes_ret.
    + eapply goes_then; [by apply goes_ret|]. intros. apply goes_finish. constructor. by destruct Hk.
Qed.

Lemma goes_answer {A} p (m : JM A) (Q : A -> Phase -> Prop) (P : A -> Prop) :
  goes p m Q -> (forall s a s', m s = (Ok a, s') -> P a) -> goes p m (fun a q => Q a q /\ P a).
Proof.
  intros Hm HP s r s' Hr. destruct (Hm _ _ _ Hr) as (l & q & H1 & H2 & H3). exists l, q. split_and!; [done|done|].
  intros a ->. split; [by apply H3|by eapply HP].
Qed.

(** The order ends as the issuer says, or because its challenge could not be shown. *)
Lemma order_steps_end steps result s s' :
  order_steps cluster generation owner causes job steps ends s = (Ok result, s') -> result = ends \/ exists error, result = EFailed error.
Proof.
  revert s. induction steps as [|[token key now|now] steps IH]; intros s Hs; cbn [order_steps] in Hs; [injection Hs; auto|..];
    unfold jbind in Hs.
  - destruct (on_challenge _ _ _ _ _ _ _ _) as [[[u|e]|e] s1]; [by eapply IH| |done]. injection Hs as <- <-. right. by eexists.
  - destruct (attempt _ s) as [[u|e] s1]; [by eapply IH|done].
Qed.

Definition refuses : bool := match permitted domain parse_x509 job with Ok _ => false | Err _ => true end.

Lemma permitted_kind : refuses = false -> jb_kind job = KServer \/ tunnel_job job <> None.
Proof.
  unfold refuses, permitted, tunnel_job. destruct (jb_kind job), (jb_tunnel_id job); auto; cbn; auto; by right.
Qed.

Lemma goes_execute started steps ended j :
  refused = refuses ->
  goes PStart (execute domain cluster generation owner retry_delay_ms parse_x509 causes refusal_text install server job started steps ends ended j)
    (fun _ q => q = PEnd \/ q = PHeld /\ ends = EStopped).
Proof.
  intros Hr. unfold execute. pose proof permitted_kind as Hk. unfold refuses in *.
  destruct (permitted domain parse_x509 job); [specialize (Hk eq_refl)|eapply goes_weaken; [by apply goes_refuse|auto]].
  eapply goes_then; [apply goes_wanted|]. intros w. case_split; [eapply goes_weaken; [apply goes_abandon; by constructor|auto]|].
  eapply goes_then; [apply goes_act; by constructor|]. intros _.
  eapply goes_bind; [apply (goes_answer _ _ _ (fun a => a = ends \/ exists error, a = EFailed error) (goes_order_steps steps))|].
  { intros s1 a1 s2 Ha. by eapply order_steps_end. }
  intros result q [-> Hend]. eapply goes_bind; [apply goes_check_lease|]. intros held q ->.
  case_decide as Hh; [rewrite Hh; apply goes_ret; by left|].
  assert (goes PHeld (match result with
    | EStopped => jret tt
    | EIssued issued => _ <== cooldown_outcome None ended;; succeeded cluster generation owner install server job issued ended
    | EFailed error => _ <== cooldown_outcome (Some error) ended;; gave_up cluster generation owner retry_delay_ms job error ended j
    end) (fun _ q => q = PEnd \/ q = PHeld /\ ends = EStopped)) as Hresult.
  { destruct result; [..|apply goes_ret; naive_solver]; (eapply goes_then; [apply goes_cooldown_outcome|]; intros _).
    - eapply goes_weaken; [apply goes_succeeded; naive_solver|auto].
    - eapply goes_weaken; [by apply goes_gave_up|auto]. }
  destruct held as [[|]|]; [..|done]; [done|naive_solver].
Qed.
End Protocol.

(** ** What an attempt does to the database *)

(** The steps of a job in the life of a record. *)
Definition job_steps (job : Job) (l : Life) : Prop :=
  match l with
  | LProgress cid (Challenge _ _) => cid = jb_certificate_id job /\ jb_kind job = Issue
  | LProgress cid (Ready _ _ _ | Failed _) => cid = jb_certificate_id job
  | LRenewed cid _ => cid = jb_certificate_id job
  | LRenewal rn => rn = None
  | _ => False
  end.

(** An operation on the jobs' state: the database only takes others' steps and its own, and the cache stays in order. *)
Definition progresses {A} (L : Life -> Prop) (id : string) (m : JM A) : Prop :=
  forall F s r s', turns_keep F (sv_turns (js_sv s)) -> sv_ok id (js_sv s) -> m s = (r, s') ->
    turns_keep F (sv_turns (js_sv s')) /\ sv_ok id (js_sv s') /\ acts L F (sv_db (js_sv s)) (sv_db (js_sv s')).

Section Progress.
Context (L : Life -> Prop) (id : string).
Abbreviation progresses := (progresses L id).

Lemma progresses_quiet {A} (m : JM A) : (forall s, js_sv (snd (m s)) = js_sv s) -> progresses m.
Proof. intros Hm F s r s' HF Hok H. specialize (Hm s). rewrite H in Hm. cbn in Hm. rewrite Hm. by split_and!; [|..|apply rtc_refl]. Qed.

Lemma progresses_ret {A} (a : A) : progresses (jret a).
Proof. by apply progresses_quiet. Qed.
Lemma progresses_act a : progresses (act a).
Proof. by apply progresses_quiet. Qed.

Lemma progresses_bind {A B} (m : JM A) (k : A -> JM B) : progresses m -> (forall a, progresses (k a)) -> progresses (jbind m k).
Proof.
  intros Hm Hk F s r s' HF Hok H. unfold jbind in H. destruct (m s) as [[a|e] s1] eqn:E.
  - destruct (Hm _ _ _ _ HF Hok E) as (H1 & H2 & H3). destruct (Hk a _ _ _ _ H1 H2 H) as (H4 & H5 & H6).
    split_and!; [done|done|by etransitivity].
  - injection H as <- <-. by eapply Hm.
Qed.

Lemma progresses_attempt {A} (m : JM A) : progresses m -> progresses (attempt m).
Proof. intros Hm F s r s' HF Hok H. unfold attempt in H. destruct (m s) as [r0 s1] eqn:E. injection H as <- <-. by eapply Hm. Qed.

Lemma progresses_sv {A} (m : SM A) Q : triple L id (fun _ => True) m Q -> progresses (sv m).
Proof.
  intros Hm F s r s' HF Hok H. unfold sv in H. destruct (m (js_sv s)) as [r0 v] eqn:E. injection H as <- <-.
  by destruct (Hm _ _ _ _ HF Hok I E) as (H1 & H2 & H3 & _).
Qed.

Lemma progresses_st {A} (m : M A) : harmless L m -> progresses (jst m).
Proof. intros Hm. eapply progresses_sv, (hoare_st L id (fun _ => True)), Hm. Qed.
End Progress.

Ltac solve_recordless :=
  apply harmless_bind; [|intros; apply harmless_ret]; apply harmless_stmt; intros d; cbn [exec]; try split_update; repeat case_split;
  by apply own_step_same.

Section JobStatements.
Context (L : Life -> Prop).
Lemma harmless_finish_job id owner status error now : harmless L (finish_job id owner status error now).
Proof. solve_recordless. Qed.
Lemma harmless_retry_job id owner attempts at_ error now : harmless L (retry_job id owner attempts at_ error now).
Proof. solve_recordless. Qed.
Lemma harmless_extend_lease id owner now : harmless L (extend_lease id owner now).
Proof. solve_recordless. Qed.
Lemma harmless_set_meta key value : harmless L (set_meta key value).
Proof. solve_recordless. Qed.
Lemma harmless_save_server name row : harmless L (save_server_certificate name row).
Proof. solve_recordless. Qed.
Lemma harmless_server name : harmless L (server_certificate name).
Proof. apply harmless_query. Qed.
End JobStatements.
#[export] Hint Resolve harmless_finish_job harmless_retry_job harmless_extend_lease harmless_set_meta harmless_save_server
  harmless_server : jobs.
#[export] Hint Resolve progresses_ret progresses_act progresses_st progresses_attempt : jobs.

(** Goes through an operation of the jobs. *)
Ltac progress_through :=
  repeat first
    [ progress intros
    | solve [eauto with jobs]
    | apply progresses_bind
    | progress cbv zeta
    | case_split ].

(** The tunnel whose entry a job works on; a job without one uses none. *)
Definition entry_of (job : Job) (id : string) : Prop := forall tunnel, jb_tunnel_id job = Some tunnel -> tunnel = id.

Section AttemptProgress.
Context `{TimeText}.
Context (domain : string) (cluster : option bool) (generation : Z) (owner : string) (retry_delay_ms : Z).
Context (parse_x509 : string -> option (list string * list string)) (causes : SvError -> list Cause)
  (refusal_text : Refusal -> string) (install : string -> string -> bool) (server : option string).
Context (job : Job) (id : string) (Hid : entry_of job id).
Abbreviation progresses := (progresses (job_steps job) id).

Lemma progresses_update tunnel now state :
  jb_tunnel_id job = Some tunnel ->
  match state with Challenge _ _ => jb_kind job = Issue | Issuing => False | _ => True end ->
  progresses (sv (update_certificate tunnel now cluster generation (jb_certificate_id job) state)).
Proof. intros Ht Hs. rewrite (Hid _ Ht). eapply progresses_sv, hoare_update_certificate; [|done|done]. by destruct state. Qed.

Lemma tunnel_job_Some tunnel : tunnel_job job = Some tunnel -> jb_tunnel_id job = Some tunnel.
Proof. unfold tunnel_job. by destruct (jb_kind job). Qed.

Lemma progresses_finish status error now : progresses (finish owner job status error now).
Proof. unfold finish. progress_through. Qed.

Lemma progresses_wanted now : progresses (wanted cluster generation job now).
Proof.
  unfold wanted. destruct (tunnel_job job) as [tunnel|] eqn:Et; [|progress_through]. apply tunnel_job_Some, Hid in Et as ->.
  apply progresses_bind; [|progress_through]. eapply progresses_attempt, progresses_sv, hoare_wants_certificate.
Qed.
#[local] Hint Resolve progresses_finish progresses_wanted : jobs.

Lemma progresses_on_challenge token key now : progresses (on_challenge cluster generation causes job token key now).
Proof.
  unfold on_challenge. destruct (jb_kind job) eqn:Ek; try apply progresses_ret. destruct (jb_tunnel_id job) as [tunnel|] eqn:Et; [|apply progresses_ret].
  apply progresses_bind; [|progress_through]. apply progresses_attempt, progresses_bind; [by apply progresses_update|progress_through].
Qed.
#[local] Hint Resolve progresses_on_challenge : jobs.

Lemma progresses_order_steps steps ends : progresses (order_steps cluster generation owner causes job steps ends).
Proof. induction steps as [|[token key now|now] steps IH]; cbn [order_steps]; progress_through. Qed.

Lemma progresses_cooldown result now : progresses (cooldown_outcome result now).
Proof.
  unfold cooldown_outcome. apply progresses_bind; [by apply progresses_quiet|]. intros c. apply progresses_bind; [by apply progresses_quiet|].
  intros at_. destruct (match result with Some error => _ | None => _ end) as [changed c']. apply progresses_bind; [by apply progresses_quiet|].
  progress_through.
Qed.

Lemma progresses_installed name issued : progresses (installed install name job issued).
Proof.
  unfold installed. apply progresses_bind; [progress_through|]. intros [stored|]; [|progress_through].
  case_split; [progress_through|]. cbv zeta. case_split; [by apply progresses_quiet|].
  apply progresses_bind; [by apply progresses_quiet|]. progress_through.
Qed.
#[local] Hint Resolve progresses_order_steps progresses_cooldown progresses_installed : jobs.

Lemma progresses_execute started steps ends ended j :
  progresses (execute domain cluster generation owner retry_delay_ms parse_x509 causes refusal_text install server job started steps ends ended j).
Proof.
  unfold execute, check_lease, refuse, abandon, succeeded, gave_up. progress_through; apply progresses_update; eauto using tunnel_job_Some.
Qed.
End AttemptProgress.

Lemma job_step_serves job l r r' :
  job_steps job l -> evolves l r r' -> serves r -> serves r' \/ certificate_id r = Some (jb_certificate_id job).
Proof.
  intros Hl He [Hlive Hr]. destruct He as [| | |r cid st Hd Hc|r rn st Hd Hrn Hst|r rn Hd| |]; try done; cbn in Hl.
  - right. destruct st; naive_solver.
  - left. split; [done|]. unfold certificate_ready, ready_expiry. cbn. by destruct st.
  - by left.
Qed.

(** *** What holds of a database through an operation's statements, and others' of the same kind *)

Definition issues {A} (P : Stmt -> Prop) (m : SM A) : Prop :=
  forall R, (forall st d, R d -> P st -> R (fst (exec st d))) ->
  forall s r s', R (sv_db s) -> turns_keep P (sv_turns s) -> m s = (r, s') -> R (sv_db s') /\ turns_keep P (sv_turns s').

Section Issues.
Context (P : Stmt -> Prop).
Abbreviation issues := (issues P).

Lemma issues_quiet {A} (m : SM A) : (forall s, sv_world (snd (m s)) = sv_world s) -> issues m.
Proof. intros Hm R HR s r s' Hd Ht H. specialize (Hm s). rewrite H in Hm. unfold sv_db, sv_turns. cbn in Hm. by rewrite Hm. Qed.

Lemma issues_bind {A B} (m : SM A) (k : A -> SM B) : issues m -> (forall a, issues (k a)) -> issues (sbind m k).
Proof.
  intros Hm Hk R HR s r s' Hd Ht H. unfold sbind in H. destruct (m s) as [[a|e] s1] eqn:E.
  - destruct (Hm R HR _ _ _ Hd Ht E) as [H1 H2]. by eapply Hk.
  - injection H as <- <-. by eapply Hm.
Qed.

Lemma issues_catch {A} (m : SM A) : issues m -> issues (catch m).
Proof. intros Hm R HR s r s' Hd Ht H. unfold catch in H. destruct (m s) as [r0 s1] eqn:E. injection H as <- <-. by eapply Hm. Qed.

(** An operation of the store. *)
Definition sends {A} (m : M A) : Prop :=
  forall R, (forall st d, R d -> P st -> R (fst (exec st d))) ->
  forall d turns r d' turns', R d -> turns_keep P turns -> m (d, turns) = (r, (d', turns')) -> R d' /\ turns_keep P turns'.

Lemma sends_ret {A} (a : A) : sends (ret a).
Proof. by intros R HR d turns r d' turns' Hd Ht [= <- <- <-]. Qed.
Lemma sends_fail {A} e : sends (@fail A e).
Proof. by intros R HR d turns r d' turns' Hd Ht [= <- <- <-]. Qed.
Lemma sends_stmt st : P st -> sends (stmt st).
Proof. intros Hst R HR d turns r d' turns' Hd Ht H. by eapply (stmt_keeps R P). Qed.
Lemma sends_query {A} (f : Db -> A) : sends (query f).
Proof. intros R HR d turns r d' turns' Hd Ht H. by edestruct (query_keeps R P) as (? & ? & _). Qed.
Lemma sends_bind {A B} (m : M A) (k : A -> M B) : sends m -> (forall a, sends (k a)) -> sends (bind m k).
Proof.
  intros Hm Hk R HR d turns r d' turns' Hd Ht H. unfold bind in H. destruct (m (d, turns)) as [[a|e] [d1 t1]] eqn:E.
  - destruct (Hm R HR _ _ _ _ _ Hd Ht E) as [H1 H2]. by eapply Hk.
  - injection H as <- <- <-. by eapply Hm.
Qed.

Lemma issues_st {A} (m : M A) : sends m -> issues (st m).
Proof.
  intros Hm R HR s r s' Hd Ht H. unfold st in H. destruct s as [c rf l ef [d turns]]. cbn in *.
  destruct (m (d, turns)) as [r0 [d' turns']] eqn:E. injection H as <- <-. by eapply Hm.
Qed.
End Issues.

Ltac issue_through :=
  repeat first
    [ progress intros
    | progress cbv zeta
    | solve [eauto 2]
    | apply issues_bind | apply issues_catch | apply issues_st
    | apply sends_bind | apply sends_ret | apply sends_fail | apply sends_query | apply sends_stmt; solve [done | intros ->; done | eauto]
    | by apply issues_quiet
    | case_split ].

Section KeepsLease.
Context `{TimeText}.
Context (tunnel : string) (now : Z) (cluster : option bool) (generation : Z).
(** What claims, extends, finishes or puts off no job. *)
Context (P : Stmt -> Prop) (HP : forall st, match st with SInsertTunnel _ _ | SUpdateTunnel _ _ _ | SSetAlarm _ _ | SSetMeta _ _ | SSaveServerCertificate _ _ => True | _ => False end -> P st).

Lemma issues_lock_fresh : issues P (lock_fresh tunnel now cluster generation).
Proof. unfold lock_fresh, refresh, lock, Store.tunnel, tunnel_with_alarm. issue_through. Qed.

Lemma issues_save r : issues P (save now r).
Proof. unfold save, save_tunnel. issue_through. Qed.

Lemma issues_alarm at_ : issues P (notify_alarm tunnel at_).
Proof. unfold notify_alarm, set_alarm. issue_through. Qed.

Lemma issues_update certificate_id input : issues P (update_certificate tunnel now cluster generation certificate_id input).
Proof.
  pose proof issues_lock_fresh. pose proof issues_save. pose proof issues_alarm.
  unfold update_certificate, schedule_renewal, announce. issue_through.
Qed.

Lemma issues_wants certificate_id : issues P (wants_certificate tunnel now cluster generation certificate_id).
Proof. pose proof issues_lock_fresh. unfold wants_certificate. issue_through. Qed.
End KeepsLease.

(** *** The lease and the end of a job *)

(** [owner] has the job, which is still to be done. *)
Definition owns (owner id : string) (d : Db) : Prop :=
  exists row, jobs d !! id = Some row /\ j_status row = Pending /\ j_lease_owner row = Some owner.

(** A statement that neither takes the job over nor ends it. *)
Definition leaves_job (owner id : string) (st : Stmt) : Prop :=
  match st with
  | SClaimJob id' o _ => id' = id -> o = owner
  | SReleaseLeases o => o <> owner
  | SFinishJob id' o _ _ _ | SRetryJob id' o _ _ _ _ => id' = id -> o <> owner
  | SRequeueBefore id' _ _ => id' <> id
  | _ => True
  end.

Lemma exec_owns owner id st d : owns owner id d -> leaves_job owner id st -> owns owner id (fst (exec st d)).
Proof.
  intros (row & Hrow & Hst & Ho) Hl.
  assert (owns owner id d) as Hd by (by exists row).
  assert (forall o, owned_by o row = true <-> o = owner) as Hown.
  { intros o. unfold owned_by. rewrite bool_decide_eq_true, Ho. split; [by intros [= ->]|by intros ->]. }
  assert (forall id' (r : JobRow), (id' = id -> j_status r = Pending /\ j_lease_owner r = Some owner) ->
    owns owner id (set_jobs (<[id' := r]> (jobs d)) d)) as Hins.
  { intros id' r Hr. destruct (decide (id' = id)) as [->|Hne].
    - exists r. cbn. rewrite lookup_insert_eq. auto.
    - exists row. cbn. by rewrite lookup_insert_ne. }
  destruct st; cbn [exec leaves_job] in *; try (destruct (record_flags record) as [dl iss]); try split_update; cbn [fst] in *; auto;
    try (repeat case_split; cbn [fst]; by auto); try (apply Hins; intros ->; simplify_eq; bsimp).
  - case_split; cbn [fst]; [by auto|]. apply Hins. intros ->. congruence.
  - cbn. rewrite (Hl eq_refl). auto.
  - cbn. auto.
  - exists row. cbn. rewrite lookup_fmap, Hrow. cbn. destruct (owned_by owner0 row) eqn:E; [|done]. by apply Hown in E.
  - exfalso. apply (Hl eq_refl). by apply Hown.
  - exfalso. apply (Hl eq_refl). by apply Hown.
  - congruence.
Qed.

(** How an attempt leaves its job: over, or put off and free for any machine. *)
Definition settled (job : Job) (retry_delay_ms ended : Z) (d : Db) : Prop :=
  exists row, jobs d !! jb_certificate_id job = Some row /\ j_lease_owner row = None /\ j_lease_until row = None /\
    (j_status row <> Pending \/
     j_status row = Pending /\ j_attempts row = jb_attempts job + 1 /\
     ended + backoff_delay retry_delay_ms (jb_attempts job + 1) / 2 <= j_run_at row <= ended + MAX_DELAY_MS).

Section Settles.
Context `{TimeText}.
Context (domain : string) (cluster : option bool) (generation : Z) (owner : string) (retry_delay_ms : Z).
Context (parse_x509 : string -> option (list string * list string)) (causes : SvError -> list Cause)
  (refusal_text : Refusal -> string) (install : string -> string -> bool) (server : option string).
Context (job : Job) (ended : Z).
Abbreviation leaves := (leaves_job owner (jb_certificate_id job)).
Abbreviation has := (owns owner (jb_certificate_id job)).

(** Operations that keep the job, and ones that settle it when they return. *)
Definition holds_on {A} (m : JM A) : Prop :=
  forall s r s', has (sv_db (js_sv s)) -> turns_keep leaves (sv_turns (js_sv s)) -> m s = (r, s') ->
    has (sv_db (js_sv s')) /\ turns_keep leaves (sv_turns (js_sv s')).
Definition settles (m : JM unit) : Prop :=
  forall s s', has (sv_db (js_sv s)) -> turns_keep leaves (sv_turns (js_sv s)) -> m s = (Ok tt, s') ->
    settled job retry_delay_ms ended (sv_db (js_sv s')).

Lemma holds_on_quiet {A} (m : JM A) : (forall s, js_sv (snd (m s)) = js_sv s) -> holds_on m.
Proof. intros Hm s r s' Hd Ht Hx. specialize (Hm s). rewrite Hx in Hm. cbn in Hm. by rewrite Hm. Qed.

Lemma holds_on_bind {A B} (m : JM A) (k : A -> JM B) : holds_on m -> (forall a, holds_on (k a)) -> holds_on (jbind m k).
Proof.
  intros Hm Hk s r s' Hd Ht Hx. unfold jbind in Hx. destruct (m s) as [[a|e] s1] eqn:E.
  - destruct (Hm _ _ _ Hd Ht E) as [H1 H2]. by eapply Hk.
  - injection Hx as <- <-. by eapply Hm.
Qed.

Lemma holds_on_attempt {A} (m : JM A) : holds_on m -> holds_on (attempt m).
Proof. intros Hm s r s' Hd Ht Hx. unfold attempt in Hx. destruct (m s) as [r0 s1] eqn:E. injection Hx as <- <-. by eapply Hm. Qed.

Lemma holds_on_sv {A} (m : SM A) : issues leaves m -> holds_on (sv m).
Proof.
  intros Hm s r s' Hd Ht Hx. unfold sv in Hx. destruct (m (js_sv s)) as [r0 v] eqn:E. injection Hx as <- <-.
  eapply (Hm _ (exec_owns owner (jb_certificate_id job))); done.
Qed.

Lemma holds_on_st {A} (m : M A) : sends leaves m -> holds_on (jst m).
Proof. intros Hm. by apply holds_on_sv, issues_st. Qed.

Lemma settles_bind {A} (m : JM A) (k : A -> JM unit) : holds_on m -> (forall a, settles (k a)) -> settles (jbind m k).
Proof.
  intros Hm Hk s s' Hd Ht Hx. unfold jbind in Hx. destruct (m s) as [[a|e] s1] eqn:E; [|done].
  destruct (Hm _ _ _ Hd Ht E) as [H1 H2]. by eapply Hk.
Qed.

(** A statement of one's own on an owned job. *)
Lemma owned_stmt st f d turns o d' turns' :
  has d -> turns_keep leaves turns ->
  (forall d, exec st d = let '(m, n) := update_where (jobs d) (jb_certificate_id job) (owned_by owner) f in (set_jobs m d, Affected n)) ->
  stmt st (d, turns) = (Ok o, (d', turns')) -> exists row, j_status row = Pending /\ jobs d' !! jb_certificate_id job = Some (f row).
Proof.
  intros Hd Ht Hst Hs. destruct (stmt_answer _ _ _ _ _ _ _ Ht Hs) as (ss & Hss & Hex & _).
  pose proof (run_keeps _ _ (exec_owns owner (jb_certificate_id job)) ss d Hd Hss) as (row & Hrow & Hp & Ho).
  rewrite Hst in Hex. unfold update_where in Hex. rewrite Hrow in Hex.
  rewrite (proj2 (bool_decide_eq_true _) Ho : owned_by owner row = true) in Hex. injection Hex as <- <-.
  exists row. split; [done|]. cbn. by rewrite lookup_insert_eq.
Qed.

Lemma jst_Ok {A} (m : M A) s a s' :
  jst m s = (Ok a, s') -> exists w, m (sv_world (js_sv s)) = (Ok a, w) /\ sv_world (js_sv s') = w.
Proof.
  unfold jst, sv. destruct (st m (js_sv s)) as [[b|e] v] eqn:E; [|done]. intros [= -> <-]. apply st_Ok in E as [E _]. by eexists.
Qed.

Lemma act_Ok a s s' : act a s = (Ok tt, s') -> js_sv s' = js_sv s.
Proof. by intros [= <-]. Qed.

Lemma settles_stmt {A} st f (g : Outcome -> A) a :
  (forall d, exec st d = let '(m, n) := update_where (jobs d) (jb_certificate_id job) (owned_by owner) f in (set_jobs m d, Affected n)) ->
  (forall row, j_status row = Pending -> j_lease_owner (f row) = None /\ j_lease_until (f row) = None /\
    (j_status (f row) <> Pending \/ j_status (f row) = Pending /\ j_attempts (f row) = jb_attempts job + 1 /\
     ended + backoff_delay retry_delay_ms (jb_attempts job + 1) / 2 <= j_run_at (f row) <= ended + MAX_DELAY_MS)) ->
  settles (_ <== jst (bind (stmt st) (fun o => ret (g o)));; act a).
Proof.
  intros Hst Hf s s' Hd Ht Hx. unfold jbind in Hx. destruct (jst _ s) as [[b|e] s1] eqn:E; [|done].
  apply act_Ok in Hx. rewrite Hx. apply jst_Ok in E as (w & E & Hw). unfold sv_db, sv_turns in *. rewrite Hw.
  destruct (sv_world (js_sv s)) as [d turns]. apply bind_Ok in E as (o & [d1 t1] & Hs & Hk). injection Hk as _ <-.
  destruct (owned_stmt _ _ _ _ _ _ _ Hd Ht Hst Hs) as (row & Hp & Hrow). exists (f row). split; [done|]. by apply Hf.
Qed.

Lemma settles_finish status error now : status <> Pending -> settles (finish owner job status error now).
Proof. intros Hs. eapply settles_stmt; [by intros d|]. intros row Hp. cbn. auto. Qed.

Lemma leaves_record st :
  match st with SInsertTunnel _ _ | SUpdateTunnel _ _ _ | SSetAlarm _ _ | SSetMeta _ _ | SSaveServerCertificate _ _ => True | _ => False end ->
  leaves st.
Proof. by destruct st. Qed.

Lemma holds_on_record tunnel now state : holds_on (record_state cluster generation job tunnel now state).
Proof.
  apply holds_on_bind; [apply holds_on_sv, issues_update, leaves_record|]. intros b. apply holds_on_bind; intros; by apply holds_on_quiet.
Qed.

Lemma holds_on_wanted now : holds_on (wanted cluster generation job now).
Proof.
  unfold wanted. case_split; [|by apply holds_on_quiet].
  apply holds_on_bind; [apply holds_on_attempt, holds_on_sv, issues_wants|]. intros. by apply holds_on_quiet.
Qed.

Lemma holds_on_tick now : holds_on (attempt (jst (extend_lease (jb_certificate_id job) owner now))).
Proof. apply holds_on_attempt, holds_on_st. unfold extend_lease. issue_through. Qed.

Lemma holds_on_order steps ends : holds_on (order_steps cluster generation owner causes job steps ends).
Proof.
  induction steps as [|[token key now|now] steps IH]; cbn [order_steps]; [by apply holds_on_quiet|..].
  - apply holds_on_bind; [|intros [u|e]; [done|by apply holds_on_quiet]]. unfold on_challenge. repeat case_split; try by apply holds_on_quiet.
    apply holds_on_bind; [apply holds_on_attempt, holds_on_record|intros; by apply holds_on_quiet].
  - apply holds_on_bind; [apply holds_on_tick|done].
Qed.

Lemma holds_on_cooldown result now : holds_on (cooldown_outcome result now).
Proof.
  unfold cooldown_outcome. apply holds_on_bind; [by apply holds_on_quiet|]. intros c. apply holds_on_bind; [by apply holds_on_quiet|].
  intros at_. case_split. apply holds_on_bind; [by apply holds_on_quiet|]. intros _. case_split; [|by apply holds_on_quiet].
  apply holds_on_bind; [|intros; by apply holds_on_quiet]. apply holds_on_attempt, holds_on_st. unfold set_meta. issue_through.
Qed.

Lemma holds_on_installed name issued : holds_on (installed install name job issued).
Proof.
  unfold installed. apply holds_on_bind; [apply holds_on_st; unfold server_certificate; issue_through|]. intros [stored|]; [|by apply holds_on_quiet].
  case_split; [by apply holds_on_quiet|]. cbv zeta. case_split; [by apply holds_on_quiet|].
  do 2 (apply holds_on_bind; [by apply holds_on_quiet|]; intros _). apply holds_on_st. unfold save_server_certificate. issue_through.
Qed.

Lemma settles_abandon reason now : settles (abandon owner job reason now).
Proof. apply settles_bind; [by apply holds_on_quiet|]. intros _. by apply settles_finish. Qed.

Lemma settles_recorded tunnel now state status error :
  status <> Pending ->
  settles (_ <== match tunnel with
                 | Some tunnel => _ <== record_state cluster generation job tunnel now state;; jret tt
                 | None => jret tt
                 end;; finish owner job status error now).
Proof.
  intros Hs. apply settles_bind; [|intros; by apply settles_finish]. destruct tunnel; [|by apply holds_on_quiet].
  apply holds_on_bind; [apply holds_on_record|intros; by apply holds_on_quiet].
Qed.

Lemma settles_gave_up error j : settles (gave_up cluster generation owner retry_delay_ms job error ended j).
Proof.
  unfold gave_up. apply settles_bind; [case_split; [by apply holds_on_quiet|apply holds_on_wanted]|]. intros w.
  case_split; [apply settles_abandon|]. cbv zeta. destruct (next_attempt _ _ _ _ _ _) as [at_|] eqn:En; [|by apply settles_recorded].
  eapply settles_stmt; [by intros d|]. intros row Hp. cbn. apply next_attempt_Some in En as [[Hlo Hhi] _]. split_and!; [done|done|right]. by split_and!.
Qed.

Lemma settles_succeeded issued : settles (succeeded cluster generation owner install server job issued ended).
Proof.
  unfold succeeded. apply settles_bind; [|intros; by apply settles_finish]. destruct (jb_kind job).
  3: destruct server; [apply holds_on_installed|by apply holds_on_quiet].
  all: destruct (jb_tunnel_id job); [|by apply holds_on_quiet].
  all: apply holds_on_bind; [apply holds_on_record|intros; by apply holds_on_quiet].
Qed.

(** The end of an attempt, with the lease kept. *)
Lemma settles_end (held : option bool) result j :
  result <> EStopped -> held <> Some false ->
  settles match held, result with
          | Some false, _ => jret tt
          | _, EStopped => jret tt
          | _, EIssued issued => _ <== cooldown_outcome None ended;; succeeded cluster generation owner install server job issued ended
          | _, EFailed error => _ <== cooldown_outcome (Some error) ended;; gave_up cluster generation owner retry_delay_ms job error ended j
          end.
Proof.
  intros Hr Hl. destruct held as [[]|], result; try done.
  all: apply settles_bind; [apply holds_on_cooldown|]; intros _; apply settles_succeeded || apply settles_gave_up.
Qed.

(** An extension by the owner is never refused. *)
Lemma extend_owned now s s' :
  has (sv_db (js_sv s)) -> turns_keep leaves (sv_turns (js_sv s)) ->
  attempt (jst (extend_lease (jb_certificate_id job) owner now)) s <> (Ok (Ok false), s').
Proof.
  intros Hd Ht Hx. unfold attempt in Hx. destruct (jst _ s) as [[b|e] s1] eqn:E; [|done]. injection Hx as -> ->.
  apply jst_Ok in E as (w & E & _). unfold sv_db, sv_turns in *. destruct (sv_world (js_sv s)) as [d turns].
  apply bind_Ok in E as (o & [d1 t1] & Hs & Hk). destruct (stmt_answer _ _ _ _ _ _ _ Ht Hs) as (ss & Hss & Hex & _).
  pose proof (run_keeps _ _ (exec_owns owner (jb_certificate_id job)) ss d Hd Hss) as (row & Hrow & Hp & Ho).
  cbn [exec] in Hex. unfold update_where in Hex. rewrite Hrow in Hex. unfold owned_by in Hex.
  rewrite Ho, Hp, !bool_decide_true in Hex by done. injection Hex as <- <-. done.
Qed.

Lemma held_owned now s held s' :
  has (sv_db (js_sv s)) -> turns_keep leaves (sv_turns (js_sv s)) -> check_lease owner job now s = (Ok held, s') ->
  held <> Some false /\ has (sv_db (js_sv s')) /\ turns_keep leaves (sv_turns (js_sv s')).
Proof.
  intros Hd Ht Hx. unfold check_lease, jbind, act, jret in Hx. destruct (attempt _ s) as [[lease|e] s1] eqn:El; [|done]. injection Hx as <- <-.
  split; [|exact (holds_on_tick _ _ _ _ Hd Ht El)]. destruct lease as [[|]|]; [done| |done]. by destruct (extend_owned _ _ _ Hd Ht El).
Qed.

Lemma settles_execute started steps ends j :
  ends <> EStopped ->
  settles (execute domain cluster generation owner retry_delay_ms parse_x509 causes refusal_text install server job started steps ends ended j).
Proof.
  intros Hends. unfold execute. destruct (permitted domain parse_x509 job) as [u|reason].
  - apply settles_bind; [apply holds_on_wanted|]. intros w. case_split; [apply settles_abandon|].
    apply settles_bind; [by apply holds_on_quiet|]. intros _. intros s s' Hd Ht Hx. unfold jbind at 1 in Hx.
    destruct (order_steps _ _ _ _ _ _ _ s) as [[result|e] s1] eqn:Eo; [|done].
    destruct (holds_on_order _ _ _ _ _ Hd Ht Eo) as [Hd1 Ht1].
    assert (result <> EStopped) as Hr by (intros ->; apply order_steps_end in Eo as [?|[e ?]]; congruence).
    unfold jbind at 1 in Hx. destruct (check_lease _ _ _ s1) as [[held|e] s2] eqn:El; [|done].
    destruct (held_owned _ _ _ _ Hd1 Ht1 El) as (Hl & Hd2 & Ht2). by eapply (settles_end held result j Hr Hl).
  - apply settles_bind; [by apply holds_on_quiet|]. intros _. cbv zeta. by apply settles_recorded.
Qed.
End Settles.

(** *** A lease that another machine took *)

(** The job is not [owner]'s, or over. *)
Definition lost (owner id : string) (d : Db) : Prop := ~ owns owner id d.

(** A statement that does not give the job to [owner]. *)
Definition not_given (owner id : string) (st : Stmt) : Prop :=
  match st with
  | SClaimJob id' o _ => id' = id -> o <> owner
  | SInsertJob id' row => id' = id -> j_lease_owner row <> Some owner
  | _ => True
  end.

Lemma exec_lost owner id st d : lost owner id d -> not_given owner id st -> lost owner id (fst (exec st d)).
Proof.
  unfold lost, owns. intros Hl Hst (row & Hrow & Hp & Ho). apply Hl. clear Hl.
  assert (forall id' (r : JobRow), <[id' := r]> (jobs d) !! id = Some row ->
    (id' = id -> r = row -> exists old, jobs d !! id' = Some old /\ j_status old = Pending /\ j_lease_owner old = Some owner) ->
    exists row, jobs d !! id = Some row /\ j_status row = Pending /\ j_lease_owner row = Some owner) as Hins.
  { intros id' r Hl Hc. apply lookup_insert_Some in Hl as [[-> ->]|[_ Hl]]; [by apply Hc|by exists row]. }
  destruct st; cbn [exec not_given] in *; try (destruct (record_flags record) as [dl iss]); try split_update; cbn [fst] in *;
    try (by exists row); try (repeat case_split; cbn [fst] in *; by exists row); try (apply (Hins _ _ Hrow); intros -> <-; cbn in *; simplify_eq; bsimp).
  - case_split; cbn [fst] in *; [by exists row|]. apply (Hins _ _ Hrow). intros -> ->. by destruct (Hst eq_refl).
  - by destruct (Hst eq_refl).
  - eexists. by split_and!.
  - cbn in Hrow. rewrite lookup_fmap in Hrow. destruct (jobs d !! id) as [old|]; [|done]. cbn in Hrow. injection Hrow as <-.
    exists old. by destruct (owned_by owner0 old).
Qed.

Section Lost.
Context `{TimeText}.
Context (domain : string) (cluster : option bool) (generation : Z) (owner : string) (retry_delay_ms : Z).
Context (parse_x509 : string -> option (list string * list string)) (causes : SvError -> list Cause)
  (refusal_text : Refusal -> string) (install : string -> string -> bool) (server : option string).
Context (job : Job) (before : list Action).
Abbreviation given := (not_given owner (jb_certificate_id job)).

(** The job was lost, and since [before] nobody said the lease is held. *)
Definition unheld (s : Js) : Prop :=
  lost owner (jb_certificate_id job) (sv_db (js_sv s)) /\ turns_keep given (sv_turns (js_sv s)) /\
  exists l, js_actions s = before ++ l /\ ALease (Some true) ∉ l.
Definition stays_unheld {A} (m : JM A) : Prop := forall s r s', unheld s -> m s = (r, s') -> unheld s'.

Lemma unheld_quiet {A} (m : JM A) : (forall s, js_sv (snd (m s)) = js_sv s /\ js_actions (snd (m s)) = js_actions s) -> stays_unheld m.
Proof. intros Hm s r s' Hs Hx. destruct (Hm s) as [H1 H2]. rewrite Hx in H1, H2. cbn in *. unfold unheld. by rewrite H1, H2. Qed.

Lemma unheld_bind {A B} (m : JM A) (k : A -> JM B) : stays_unheld m -> (forall a, stays_unheld (k a)) -> stays_unheld (jbind m k).
Proof.
  intros Hm Hk s r s' Hs Hx. unfold jbind in Hx. destruct (m s) as [[a|e] s1] eqn:E; [by eapply Hk; [eapply Hm|]|].
  injection Hx as <- <-. by eapply Hm.
Qed.

Lemma unheld_attempt {A} (m : JM A) : stays_unheld m -> stays_unheld (attempt m).
Proof. intros Hm s r s' Hs Hx. unfold attempt in Hx. destruct (m s) as [r0 s1] eqn:E. injection Hx as <- <-. by eapply Hm. Qed.

Lemma unheld_act a : a <> ALease (Some true) -> stays_unheld (act a).
Proof.
  intros Ha s r s' (H1 & H2 & l & H3 & H4) [= <- <-]. split_and!; [done|done|]. exists (l ++ [a]). cbn. rewrite H3, app_assoc. split; [done|].
  intros [?|Hx]%elem_of_app; [done|]. apply list_elem_of_singleton in Hx. congruence.
Qed.

Lemma unheld_sv {A} (m : SM A) : issues given m -> stays_unheld (sv m).
Proof.
  intros Hm s r s' (H1 & H2 & Hl) Hx. unfold sv in Hx. destruct (m (js_sv s)) as [r0 v] eqn:E. injection Hx as <- <-.
  destruct (Hm _ (exec_lost owner (jb_certificate_id job)) _ _ _ H1 H2 E) as [H3 H4]. by split_and!.
Qed.

Lemma unheld_st {A} (m : M A) : sends given m -> stays_unheld (jst m).
Proof. intros Hm. by apply unheld_sv, issues_st. Qed.

Lemma given_record st :
  match st with SInsertTunnel _ _ | SUpdateTunnel _ _ _ | SSetAlarm _ _ | SSetMeta _ _ | SSaveServerCertificate _ _ => True | _ => False end ->
  given st.
Proof. by destruct st. Qed.

(** Goes through an operation; [ALease] is [check_lease]'s alone. *)
Ltac unheld_through :=
  repeat first
    [ progress intros
    | progress cbv zeta
    | assumption
    | by apply unheld_quiet
    | apply unheld_bind
    | apply unheld_attempt
    | apply unheld_act; discriminate
    | apply unheld_sv; first [apply issues_update, given_record | apply issues_wants]
    | apply unheld_st; unfold extend_lease, finish_job, retry_job, set_meta, server_certificate, save_server_certificate; solve [issue_through]
    | case_split ].

(** Nobody is told to hold a lease another machine took. *)
Lemma unheld_check now : stays_unheld (check_lease owner job now).
Proof.
  intros s r s' Hs Hx. assert (stays_unheld (attempt (jst (extend_lease (jb_certificate_id job) owner now)))) as Htick by unheld_through.
  unfold check_lease, jbind in Hx. destruct (attempt _ s) as [[lease|e] s1] eqn:El; [|injection Hx as <- <-; by eapply Htick].
  specialize (Htick _ _ _ Hs El). cbn in Hx. injection Hx as <- <-. eapply (unheld_act _ _ s1 (Ok tt)); [exact Htick|reflexivity].
  Unshelve. destruct lease as [[|]|]; [exfalso|done|done]. unfold attempt in El. destruct (jst _ s) as [[b|e] s2] eqn:E; [|done]. injection El as -> ->.
  apply jst_Ok in E as (w & E & _). destruct Hs as (H1 & H2 & _). unfold sv_db, sv_turns in *. destruct (sv_world (js_sv s)) as [d turns].
  apply bind_Ok in E as (o & [d1 t1] & Hst & Hk). destruct (stmt_answer _ _ _ _ _ _ _ H2 Hst) as (ss & Hss & Hex & _).
  apply (run_keeps _ _ (exec_lost owner (jb_certificate_id job)) ss d H1 Hss). cbn [exec] in Hex.
  split_update; injection Hex as <- <-; [|done]. bsimp. unfold owned_by in *. bsimp. eexists. by split_and!.
Qed.

Lemma unheld_order steps ends : stays_unheld (order_steps cluster generation owner causes job steps ends).
Proof. induction steps as [|[token key now|now] steps IH]; cbn [order_steps]; unfold on_challenge, record_state; unheld_through. Qed.

Lemma unheld_execute started steps ends ended j :
  stays_unheld (execute domain cluster generation owner retry_delay_ms parse_x509 causes refusal_text install server job started steps ends ended j).
Proof.
  pose proof (unheld_order steps ends) as Ho. pose proof (unheld_check ended) as Hc.
  unfold execute, refuse, abandon, succeeded, gave_up, wanted, record_state, finish, cooldown_outcome, installed.
  unheld_through.
Qed.
End Lost.

(** ** The runner's slots *)

Section Slots.
Context (concurrency : nat) (owner : string).

(** At most [concurrency] attempts at once, of which first issuances leave one for renewals. *)
Definition within (running : gmap string JobKind) : Prop :=
  (size running <= concurrency)%nat /\ (issuing running <= issue_slots concurrency)%nat.

Lemma issuing_le running : (issuing running <= size running)%nat.
Proof. unfold issuing. apply map_size_filter_le || (apply map_subseteq_size, map_filter_subseteq). Qed.

Lemma issuing_delete id running : (issuing (delete id running) <= issuing running)%nat.
Proof. unfold issuing. rewrite map_filter_delete. rewrite map_size_delete. destruct (_ !! id); cbn; lia. Qed.

Lemma size_delete_le {V} id (m : gmap string V) : (size (delete id m) <= size m)%nat.
Proof. rewrite map_size_delete. destruct (m !! id); cbn; lia. Qed.

Lemma issuing_insert id kind running :
  running !! id = None -> issuing (<[id := kind]> running) = (issuing running + if is_issue kind then 1 else 0)%nat.
Proof.
  intros Hn. unfold issuing, is_issue. destruct (decide (kind = Issue)) as [->|Hk].
  - rewrite map_filter_insert_True by done. rewrite map_size_insert_None by (by apply map_lookup_filter_None; left). rewrite bool_decide_true by done. lia.
  - rewrite map_filter_insert_False by done. rewrite delete_id by done. rewrite bool_decide_false by done. lia.
Qed.

(** The renewals (and the server's own) that are running. *)
Definition renewing (running : gmap string JobKind) : nat := (size running - issuing running)%nat.

Lemma renewing_delete id running : (renewing (delete id running) <= renewing running)%nat.
Proof.
  unfold renewing, issuing. rewrite map_filter_delete, !map_size_delete. rewrite map_lookup_filter.
  destruct (running !! id) as [k|] eqn:E; cbn; [|lia]. pose proof (issuing_le running) as Hle. unfold issuing in Hle.
  assert (size running <> 0)%nat by (intros Hz; apply map_size_empty_iff in Hz; subst; by rewrite lookup_empty in E).
  destruct (decide (k = Issue)) as [->|Hk].
  - rewrite option_guard_True by done. cbn. lia.
  - rewrite option_guard_False by done. cbn. lia.
Qed.

Lemma within_delete id running : within running -> within (delete id running).
Proof. intros [H1 H2]. pose proof (size_delete_le id running). pose proof (issuing_delete id running). split; lia. Qed.

(** What may have changed: fewer attempts, or, while the CA cools down, at most one renewal at a time. *)
Definition may_become (cooling : bool) (running running' : gmap string JobKind) : Prop :=
  within running' /\
  (cooling = true -> (issuing running' <= issuing running)%nat /\ (renewing running' <= Nat.max 1 (renewing running))%nat).

Lemma may_become_refl cooling running : within running -> may_become cooling running running.
Proof. intros. split; [done|]. lia. Qed.

Lemma may_become_trans cooling a b c : may_become cooling a b -> may_become cooling b c -> may_become cooling a c.
Proof. intros [_ H1] [Hw H2]. split; [done|]. intros Hc. destruct (H1 Hc), (H2 Hc). lia. Qed.

Lemma may_become_delete cooling a id : within a -> may_become cooling a (delete id a).
Proof. intros Hw. split; [by apply within_delete|]. pose proof (issuing_delete id a). pose proof (renewing_delete id a). lia. Qed.

Lemma may_become_ended cooling a ids : within a -> may_become cooling a (foldr delete a ids).
Proof.
  intros Hw. induction ids as [|id ids IH]; cbn; [by apply may_become_refl|]. eapply may_become_trans; [exact IH|].
  apply may_become_delete, IH.
Qed.

Lemma choose_Start cooling kind id running :
  choose concurrency cooling kind id running = Start ->
  running !! id = None /\ (size running < concurrency)%nat /\
  (is_issue kind = true -> (issuing running < issue_slots concurrency)%nat /\ cooling = false) /\
  (cooling = true -> (size running <= issuing running)%nat).
Proof.
  unfold choose. destruct (concurrency <=? size running)%nat eqn:E1; [done|]. apply Nat.leb_gt in E1.
  destruct (is_issue kind && _) eqn:E2; [done|]. destruct (cooling && _) eqn:E3; [done|]. destruct (running !! id); [done|]. intros _.
  split_and!; [done|done|..].
  - intros Hi. rewrite Hi in *. cbn in *. apply Nat.leb_gt in E2. by destruct cooling.
  - intros ->. cbn in E3. apply orb_false_iff in E3 as [_ E3]. by apply Nat.ltb_ge in E3.
Qed.

Lemma may_become_start cooling kind id running :
  within running -> choose concurrency cooling kind id running = Start -> may_become cooling running (<[id := kind]> running).
Proof.
  intros [Hs Hi] Hc. apply choose_Start in Hc as (Hn & Hlt & Hiss & Hcool).
  pose proof (issuing_insert id kind running Hn) as Ei. pose proof (map_size_insert_None id kind running Hn) as Es.
  split; [split|intros Hct; unfold renewing]; rewrite ?Ei, ?Es; destruct (is_issue kind); try lia.
  - destruct (Hiss eq_refl). congruence.
  - specialize (Hcool Hct). lia.
Qed.

Lemma start_loop_within cooling now due : forall ended r res r',
  within (ru_running r) -> start_loop concurrency owner cooling now due ended r = (res, r') ->
  may_become cooling (ru_running r) (ru_running r').
Proof.
  induction due as [|[id kind] due IH]; intros ended r res r' Hw; cbn [start_loop]; [intros [= <- <-]; by apply may_become_refl|].
  pose proof (may_become_ended cooling _ (hd [] ended) Hw) as He. set (running := foldr delete (ru_running r) (hd [] ended)) in *.
  destruct (choose concurrency cooling kind id running) eqn:Ec; [by intros [= <- <-]|..].
  - intros Hx. apply IH in Hx; [|apply He]. by eapply may_become_trans.
  - pose proof (may_become_start _ _ _ _ (proj1 He) Ec) as Hst. destruct (choose_Start _ _ _ _ Ec) as (Hn & _).
    destruct (jst _ _) as [[[job|]|e] js]; [|rewrite delete_insert_id by done..].
    + destruct (start_loop _ _ _ _ _ _ _) as [started r1] eqn:El. intros [= <- <-]. apply IH in El; [|apply Hst].
      eapply may_become_trans; [exact He|]. by eapply may_become_trans.
    + intros Hx. apply IH in Hx; [|apply He]. by eapply may_become_trans.
    + by intros [= <- <-].
Qed.

Lemma jst_answer {A} (m : M A) s r s' : jst m s = (r, s') -> js_cooldown s' = js_cooldown s /\ js_read_at s' = js_read_at s.
Proof. unfold jst, sv. destruct (st m (js_sv s)) as [r0 v]. by intros [= <- <-]. Qed.

(** What happens to a runner. *)
Inductive RunnerEvent := RunnerWakes (now : Z) (ended : list (list string)) | AttemptEnds (id : string) | RunnerStops.

Definition runner_step (r : Runner) (e : RunnerEvent) : Runner :=
  match e with
  | RunnerWakes now ended => snd (start_due concurrency owner now ended r)
  | AttemptEnds id => task_ended id r
  | RunnerStops => stop r
  end.

Lemma start_due_within now ended r res r' :
  within (ru_running r) -> start_due concurrency owner now ended r = (res, r') -> within (ru_running r').
Proof.
  intros Hw. unfold start_due. case_split; [by intros [= <- <-]|]. case_split; [by intros [= <- <-]|].
  destruct (jst _ _) as [[schedule|e] js]; [|by intros [= <- <-]]. destruct (cooling_until now js) as [[until|e] js1]; [|by intros [= <- <-]].
  destruct (start_loop _ _ _ _ _ _ _) as [[jobs|e] r1] eqn:El; intros [= <- <-]; by apply start_loop_within in El as [? _].
Qed.

Lemma cooling_until_local now js res js' :
  cooling_until now js = (res, js') -> exists until, res = Ok until /\ cd_until (js_cooldown js) <= until.
Proof.
  unfold cooling_until, jbind, cooldown, read_at. case_split; [intros [= <- <-]; eexists; split; [done|lia]|].
  destruct (attempt _ js) as [[[stored|e]|e] js1] eqn:Em.
  - cbn. intros [= <- <-]. eexists. split; [done|]. destruct stored as [stored|]; [|lia]. unfold cooldown_merge. cbn. repeat case_split; cbn; lia.
  - intros [= <- <-]. eexists. split; [done|lia].
  - unfold attempt in Em. by destruct (jst _ js).
Qed.

(** While a cool-down is in effect, a wake starts no first issuance, and a renewal only when none is running. *)
Lemma start_due_cooling now ended r res r' :
  within (ru_running r) -> start_due concurrency owner now ended r = (res, r') -> now < cd_until (js_cooldown (ru_js r)) ->
  (issuing (ru_running r') <= issuing (ru_running r))%nat /\ (renewing (ru_running r') <= Nat.max 1 (renewing (ru_running r)))%nat.
Proof.
  intros Hw. unfold start_due. case_split; [intros [= <- <-]; lia|]. case_split; [intros [= <- <-]; lia|].
  destruct (jst _ _) as [[schedule|e] js] eqn:Ej; [|intros [= <- <-]; cbn; lia]. apply jst_answer in Ej as [Ec _].
  destruct (cooling_until now js) as [rc js1] eqn:Eu. apply cooling_until_local in Eu as (until & -> & Hu). rewrite Ec in Hu.
  destruct (start_loop _ _ _ _ _ _ _) as [[jobs|e] r1] eqn:El; intros [= <- <-] Hnow;
    apply start_loop_within in El as [_ Hc]; [apply Hc; lia|done|apply Hc; lia|done].
Qed.

(** *** Renewals are not starved *)

(** The database of a runner that nobody interferes with. *)
Definition quiet_at (d : Db) (js : Js) : Prop := sv_world (js_sv js) = (d, []).

Lemma jst_quiet {A} (m : M A) js r d d' : quiet_at d js -> m (d, []) = (Ok r, (d', [])) -> exists js', jst m js = (Ok r, js') /\ quiet_at d' js'.
Proof. unfold quiet_at, jst, sv, st. intros -> ->. by eexists. Qed.

Lemma claim_quiet id now d :
  exists r d', claim_job id owner now (d, []) = (Ok r, (d', [])) /\
    forall row, jobs d !! id = Some row -> j_status row = Pending -> ready_at owner row <= now ->
      exists job, r = Some job /\ jb_kind job = kind_parse (j_kind row) /\ jb_certificate_id job = id.
Proof.
  unfold claim_job, bind, stmt, query. cbn [next_turn fault others run fold_left].
  destruct (exec (SClaimJob id owner now) d) as [d1 o] eqn:E. destruct (affected o =? 0)%nat eqn:Ea; (eexists _, _; split; [done|]);
    intros row Hrow Hst Hat; cbn [exec] in E; unfold update_where in E; rewrite Hrow in E; unfold ready_at in Hat.
  all: assert (bool_decide (j_status row = Pending) && (j_run_at row <=? now) && (lease_free now row || owned_by owner row) = true) as Hc
    by (rewrite bool_decide_true by done; unfold lease_free; repeat case_split; cbn; rewrite ?orb_true_r, ?andb_true_r, ?Z.leb_le; try lia;
        rewrite ?andb_true_iff, ?orb_true_iff, ?Z.leb_le, ?Z.ltb_lt; lia).
  all: rewrite Hc in E; injection E as <- <-; try done. cbn. rewrite lookup_insert_eq. cbn. unfold owned_by. cbn. rewrite bool_decide_true by done. by eexists.
Qed.

Lemma start_loop_quiet cooling now due : forall ended r d,
  quiet_at d (ru_js r) -> exists jobs r', start_loop concurrency owner cooling now due ended r = (Ok jobs, r').
Proof.
  induction due as [|[id kind] due IH]; intros ended r d Hq; cbn [start_loop]; [by eexists _, _|].
  destruct (choose _ _ _ _ _); [by eexists _, _|by eapply IH|]. destruct (claim_quiet id now d) as (res & d' & Hcl & _).
  destruct (jst_quiet _ _ _ _ _ Hq Hcl) as (js' & -> & Hq'). destruct res as [job|]; [|by eapply IH].
  edestruct (IH (tl ended) (mkRunner (<[id:=kind]> (foldr delete (ru_running r) (hd [] ended))) (ru_stopping r) js')) as (jobs & r' & ->); [done|].
  by eexists _, _.
Qed.

(** The head of a schedule with a due job that is no first issuance. *)
Lemma schedule_head now l y :
  y ∈ l -> ready_at owner y.2 <= now -> j_kind y.2 <> "issue" ->
  exists h t, schedule_order owner now l = h :: t /\ h ∈ l /\ ready_at owner h.2 <= now /\ j_kind h.2 <> "issue".
Proof.
  intros Hy Hat Hk. unfold schedule_order.
  set (k1 := fun kv : string * JobRow => if now <? ready_at owner kv.2 then 1 else 0).
  set (k2 := fun kv : string * JobRow => if String.eqb (j_kind kv.2) "issue" then 1 else 0).
  set (l3 := sort_by (fun kv => ready_at owner kv.2) l). assert (y ∈ l3) as Hy3 by (unfold l3; by rewrite sort_by_perm).
  destruct (sort_by k1 (sort_by k2 l3)) as [|h t] eqn:E.
  { assert (y ∈ @nil (string * JobRow)) as Hn by (rewrite <- E, !sort_by_perm; done). by apply elem_of_nil in Hn. }
  exists h, t. split_and!; [done|..].
  - assert (h ∈ h :: t) as Hh by (left). rewrite <- E, !sort_by_perm in Hh. unfold l3 in Hh. by rewrite sort_by_perm in Hh.
  - pose proof (sort_by_least k1 _ _ _ y E) as Hle. rewrite sort_by_perm in Hle. specialize (Hle Hy3). unfold k1 in Hle.
    rewrite (proj2 (Z.ltb_ge _ _) Hat) in Hle. destruct (now <? ready_at owner h.2) eqn:Eh; bsimp; lia.
  - assert (k1 y <= k1 h) as Hk1 by (unfold k1; rewrite (proj2 (Z.ltb_ge _ _) Hat); case_split; lia).
    pose proof (sort_by_lex k1 k2 _ _ _ y E Hy3 Hk1) as Hle. unfold k2 in Hle. rewrite (proj2 (String.eqb_neq _ _) Hk) in Hle.
    destruct (String.eqb_spec (j_kind h.2) "issue"); [lia|done].
Qed.

Lemma renewing_Some id k running : running !! id = Some k -> k <> Issue -> (1 <= renewing running)%nat.
Proof.
  intros Hid Hk. pose proof (issuing_le (delete id running)) as Hle. unfold renewing, issuing in *.
  rewrite map_filter_delete, !map_size_delete, map_lookup_filter, Hid in Hle. cbn in Hle. rewrite option_guard_False in Hle by done.
  cbn in Hle. assert (size running <> 0)%nat; [|lia]. intros Hz. apply map_size_empty_iff in Hz. subst. by rewrite lookup_empty in Hid.
Qed.

Lemma start_due_renewal now r d id row :
  (1 < concurrency)%nat -> within (ru_running r) -> ru_stopping r = false -> renewing (ru_running r) = 0%nat -> 0 <= now ->
  quiet_at d (ru_js r) -> cd_until (js_cooldown (ru_js r)) <= now -> sat_sub now (js_read_at (ru_js r)) < COOLDOWN_REFRESH_MS ->
  (forall i k row, ru_running r !! i = Some k -> jobs d !! i = Some row -> kind_parse (j_kind row) = k) ->
  (forall i row, jobs d !! i = Some row -> exists k, j_kind row = kind_str k) ->
  jobs d !! id = Some row -> j_status row = Pending -> j_kind row <> "issue" -> ready_at owner row <= now ->
  exists jobs next r', start_due concurrency owner now [] r = (Ok (jobs, next), r') /\ Exists (fun job => jb_kind job <> Issue) jobs.
Proof.
  intros Hconc [Hsize Hissue] Hstop Hren Hnow Hq Huntil Hread Hagree Hkinds Hrow Hp Hk Hat.
  pose proof (issuing_le (ru_running r)) as Hle. unfold issue_slots in Hissue. rewrite (proj2 (Nat.ltb_lt _ _) Hconc) in Hissue.
  assert (size (ru_running r) < concurrency)%nat as Hroom by (unfold renewing in Hren; lia).
  unfold start_due. rewrite Hstop, (proj2 (Nat.leb_gt _ _) Hroom). set (limit := (concurrency + size (ru_running r) + 1)%nat).
  set (l := filter (fun kv : string * JobRow => j_status kv.2 = Pending) (map_to_list (jobs d))).
  destruct (schedule_head now l (id, row)) as ([hid hrow] & t & Hs & Hin & Hhat & Hhk);
    [by apply list_elem_of_filter; split; [|apply elem_of_map_to_list]|done|done|]. cbn in Hhat, Hhk.
  apply list_elem_of_filter in Hin as [Hhp Hhrow]. apply elem_of_map_to_list in Hhrow. cbn in Hhp.
  set (entry := fun kv : string * JobRow => (kv.1, Z.max (ready_at owner kv.2) 0, kind_parse (j_kind kv.2))).
  assert (job_schedule owner now limit (d, []) = (Ok (map entry (take limit ((hid, hrow) :: t))), (d, []))) as Hj.
  { unfold job_schedule, query. cbn [next_turn others fault run fold_left]. unfold l in Hs. by rewrite Hs. }
  destruct (jst_quiet _ _ _ _ _ Hq Hj) as (js & Ejs & Hq1). rewrite Ejs. apply jst_answer in Ejs as [Ec Er].
  assert (cooling_until now js = (Ok (cd_until (js_cooldown js)), js)) as ->.
  { unfold cooling_until, jbind, cooldown, read_at. rewrite Er, (proj2 (Z.ltb_lt _ _) Hread). done. }
  rewrite Ec, (proj2 (Z.ltb_ge _ _) Huntil).
  assert (exists due, due_of now (map entry (take limit ((hid, hrow) :: t))) = (hid, kind_parse (j_kind hrow)) :: due) as [due ->].
  { unfold limit. replace (concurrency + size (ru_running r) + 1)%nat with (S (concurrency + size (ru_running r))) by lia.
    cbn [take map]. unfold due_of. rewrite filter_cons_True by (unfold entry; cbn; lia). by eexists. }
  cbn [start_loop]. cbn [hd foldr ru_running]. assert (kind_parse (j_kind hrow) <> Issue) as Hkp.
  { destruct (Hkinds _ _ Hhrow) as [k Ek]. rewrite Ek in Hhk |- *. by destruct k. }
  assert (choose concurrency false (kind_parse (j_kind hrow)) hid (ru_running r) = Start) as ->.
  { unfold choose, is_issue. rewrite (proj2 (Nat.leb_gt _ _) Hroom), bool_decide_false by done. cbn.
    destruct (ru_running r !! hid) as [k|] eqn:Ek; [|done]. pose proof (Hagree _ _ _ Ek Hhrow). subst k.
    pose proof (renewing_Some _ _ _ Ek Hkp). lia. }
  destruct (claim_quiet hid now d) as (res & d' & Hcl & Hjob). destruct (Hjob _ Hhrow Hhp Hhat) as (job & -> & Hjk & _).
  cbn [ru_js ru_stopping]. destruct (jst_quiet _ _ _ _ _ Hq1 Hcl) as (js' & -> & Hq'). cbn [tl].
  destruct (start_loop_quiet false now due [] (mkRunner (<[hid := kind_parse (j_kind hrow)]> (ru_running r)) false js') d' Hq') as (js2 & r' & E).
  rewrite E. eexists _, _, _. split; [done|]. constructor. by rewrite Hjk.
Qed.
End Slots.

(** ** An attempt of a job whose end was not recorded *)

Section Again.
Context `{TimeText}.
Context (domain : string) (generation : Z) (owner : string) (retry_delay_ms : Z).
Context (parse_x509 : string -> option (list string * list string)) (causes : SvError -> list Cause)
  (refusal_text : Refusal -> string) (install : string -> string -> bool) (server : option string).
Context (job : Job) (tunnel : string) (r : StoredTunnel) (revision : Z).

(** A machine alone with its database: the tunnel's record is cached as it is stored, and the job is this machine's. *)
Definition alone (s : Js) : Prop :=
  exists d row, quiet_at d s /\ ca_loaded (sv_cache (js_sv s)) = true /\ record (sv_cache (js_sv s)) = Some r /\
    ca_revision (sv_cache (js_sv s)) = revision /\ tunnels d !! tunnel = Some row /\ t_revision row = revision /\
    owns owner (jb_certificate_id job) d.

(** A statement that leaves the tunnels and the job alone runs. *)
Lemma alone_st {A} st (g : Outcome -> A) s :
  alone s -> (forall d, tunnels (fst (exec st d)) = tunnels d) -> leaves_job owner (jb_certificate_id job) st ->
  exists d s', quiet_at d s /\ jst (bind (stmt st) (fun o => ret (g o))) s = (Ok (g (snd (exec st d))), s') /\ alone s'.
Proof.
  intros (d & row & Hq & Hl & Hr & Hv & Hrow & Hrev & Ho) Ht Hlv. pose proof (exec_owns _ _ st _ Ho Hlv) as Ho'. specialize (Ht d).
  assert (bind (stmt st) (fun o => ret (g o)) (d, []) = (Ok (g (snd (exec st d))), (fst (exec st d), []))) as Hm.
  { unfold bind, stmt. cbn [next_turn fault others run fold_left]. by destruct (exec st d). }
  unfold quiet_at, jst, sv, Service.st in *. rewrite Hq, Hm. eexists d, _. split; [done|]. split; [done|].
  exists (fst (exec st d)), row. cbn. rewrite Ht. by split_and!.
Qed.

Lemma alone_wanted now s :
  alone s -> tunnel_job job = Some tunnel -> wants (jb_certificate_id job) r = true ->
  wanted None generation job now s = (Ok true, s).
Proof.
  intros (d & row & _ & Hl & Hr & _) Ht Hw. unfold wanted, attempt, sv, jbind, wants_certificate, sbind, lock_fresh, lock, cache.
  rewrite Ht. unfold sbind, cache. rewrite Hl. cbn. rewrite Hr, Hw. by destruct s.
Qed.

Lemma alone_extend now s :
  alone s -> exists s', attempt (jst (extend_lease (jb_certificate_id job) owner now)) s = (Ok (Ok true), s') /\ alone s'.
Proof.
  intros Ha. unfold attempt, extend_lease.
  destruct (alone_st (SExtendLease (jb_certificate_id job) owner now) (fun o => (affected o =? 1)%nat) s Ha) as (d & s' & Hq & -> & Ha').
  - intros d. cbn [exec]. by split_update.
  - done.
  - exists s'. split; [|done]. do 2 f_equal. destruct Ha as (d0 & row & Hq0 & _ & _ & _ & _ & _ & (jrow & Hj & Hp & Ho)).
    assert (d = d0) as -> by (unfold quiet_at in *; congruence). cbn [exec]. unfold update_where, owned_by. by rewrite Hj, Ho, Hp, !bool_decide_true.
Qed.

Lemma alone_cooldown result now s : alone s -> exists s', cooldown_outcome result now s = (Ok tt, s') /\ alone s'.
Proof.
  intros Ha. unfold cooldown_outcome, jbind, cooldown, read_at, set_cooldown. destruct (match result with Some error => _ | None => _ end) as [changed c].
  set (s1 := mkJs (js_sv s) c _ _ _). assert (alone s1) as Ha1 by done. destruct changed; [|by exists s1].
  unfold attempt, set_meta. destruct (alone_st (SSetMeta COOLDOWN_KEY (cooldown_encode c)) (fun _ => tt) s1 Ha1) as (d & s' & _ & -> & Ha'); [done|done|].
  by exists s'.
Qed.

(** The record takes a state of its certificate. *)
Lemma alone_update now state s :
  alone s -> st_id r = tunnel -> revision <> 0 -> certificate_id r = Some (jb_certificate_id job) -> renewal r = None ->
  is_ready state = false ->
  exists d s', sv (update_certificate tunnel now None generation (jb_certificate_id job) state) s = (Ok true, s') /\ quiet_at d s' /\
    (t_record <$> tunnels d !! tunnel) = Some (set_certificate (Some (mkCertificateInfo (jb_certificate_id job) state)) r) /\
    owns owner (jb_certificate_id job) d.
Proof.
  intros (d & row & Hq & Hl & Hr & Hv & Hrow & Hrev & Ho) Hid Hz Hc Hn Hnr. set (u := set_certificate _ r).
  assert (exists d', save_tunnel u revision now (d, []) = (Ok (revision + 1), (d', [])) /\
    (t_record <$> tunnels d' !! tunnel) = Some u /\ owns owner (jb_certificate_id job) d') as (d' & Hsave & Hrec & Ho').
  { exists (fst (exec (SUpdateTunnel u revision now) d)). pose proof (exec_owns _ _ (SUpdateTunnel u revision now) _ Ho I) as Ho'.
    unfold save_tunnel. rewrite (proj2 (Z.eqb_neq _ _) Hz). unfold bind, stmt. cbn [next_turn fault others run fold_left exec] in *.
    destruct (record_flags u) as [dl iss]. unfold update_where in *.
    rewrite (Hid : st_id u = tunnel), Hrow, (proj2 (Z.eqb_eq _ _) Hrev) in *. split_and!; [done| |done]. cbn. by rewrite lookup_insert_eq. }
  unfold sv, update_certificate, sbind, lock_fresh, lock, cache, save, sbind, cache, catch, st. rewrite Hl. cbn. rewrite Hr, Hn. cbn.
  rewrite bool_decide_true by done. cbn. unfold quiet_at in Hq. rewrite Hv, Hq. fold u. rewrite Hsave. cbn.
  rewrite Hnr. cbn. unfold schedule_renewal. assert (ready_expiry u = None) as -> by (unfold ready_expiry; cbn; by destruct state).
  cbn. case_split; by eexists d', _.
Qed.

Lemma again_unserves started ends_with ended j s :
  alone s -> tunnel_job job = Some tunnel -> permitted domain parse_x509 job = Ok tt ->
  st_id r = tunnel -> revision <> 0 -> certificate_id r = Some (jb_certificate_id job) -> renewal r = None ->
  str_contains (Failure.error_text ends_with) PERSIST_FAILED = false ->
  next_attempt (classify ends_with) (jb_attempts job + 1) retry_delay_ms (jb_created_at job) ended j = None ->
  exists d s', execute domain None generation owner retry_delay_ms parse_x509 causes refusal_text install server job started []
      (EFailed ends_with) ended j s = (Ok tt, s') /\ quiet_at d s' /\
    (t_record <$> tunnels d !! tunnel) =
      Some (set_certificate (Some (mkCertificateInfo (jb_certificate_id job) (Failed (public_reason ends_with)))) r).
Proof.
  intros Ha Ht Hperm Hid Hz Hc Hn Hpersist Hnext. assert (wants (jb_certificate_id job) r = true) as Hw.
  { unfold wants. by rewrite bool_decide_true. }
  unfold execute. rewrite Hperm. unfold jbind at 1. rewrite (alone_wanted started s Ha Ht Hw). cbn [negb].
  unfold jbind at 1, act. set (s1 := mkJs _ _ _ _ _). assert (alone s1) as Ha1 by done. cbn [order_steps]. unfold jbind at 1, jret at 1.
  destruct (alone_extend ended s1 Ha1) as (s2 & E2 & Ha2). unfold jbind at 1, check_lease at 1, jbind at 1. rewrite E2. cbv zeta. unfold jbind at 1, act, jret at 1.
  set (s2' := mkJs _ _ _ _ _). assert (alone s2') as Ha2' by done. clearbody s2'. clear s2 E2 Ha2. rename s2' into s2, Ha2' into Ha2.
  destruct (alone_cooldown (Some ends_with) ended s2 Ha2) as (s3 & E3 & Ha3). unfold jbind at 1. rewrite E3.
  unfold gave_up. rewrite Hpersist. unfold jbind at 1. rewrite (alone_wanted ended s3 Ha3 Ht Hw). cbn [negb]. cbv zeta. rewrite Hnext, Ht.
  destruct (alone_update ended (Failed (public_reason ends_with)) s3 Ha3 Hid Hz Hc Hn eq_refl) as (d & s4 & E4 & Hq4 & Hrec & Ho).
  unfold record_state, jbind, act, jret, finish. rewrite E4. unfold jbind, act, jst, sv, st. unfold quiet_at in *. cbn [js_sv]. rewrite Hq4.
  unfold finish_job, bind, stmt. cbn [next_turn fault others run fold_left].
  destruct (exec (SFinishJob (jb_certificate_id job) owner JFailed (Some (Failure.error_text ends_with)) ended) d) as [d' o] eqn:Ex.
  eexists _, _. split; [done|]. split; [done|]. cbn [exec] in Ex. destruct (update_where _ _ _ _). by injection Ex as <- <-.
Qed.
End Again.

(** ** The lease of the DNS sweeper *)

(** Whether a stored lease lets [owner] sweep. *)
Definition sweep_free (owner : string) (now : Z) (current : option string) : bool :=
  negb match (let* value := current in sweeper_lease value) with
       | Some (other, Some until) => negb (String.eqb other owner) && (now <? until)
       | _ => false
       end.

Lemma sweeper_lease_text owner now :
  byte_of_ascii " " ∉ as_bytes owner -> 0 <= now -> now + 2 * DNS_SWEEP_EVERY_MS <= U64_MAX ->
  sweeper_lease (lease_text owner now) = Some (owner, Some (now + 2 * DNS_SWEEP_EVERY_MS)).
Proof.
  intros Hs Hn Hmax. unfold sweeper_lease, lease_text.
  assert (0 <= 2 * DNS_SWEEP_EVERY_MS) by (unfold DNS_SWEEP_EVERY_MS, MINUTE_MS, SECOND_MS; lia).
  set (n := now + 2 * DNS_SWEEP_EVERY_MS) in *.
  rewrite (proj2 (str_split_once_Some " " (owner +:+ " " +:+ dec_string n) owner (dec_string n))) by done.
  change (Some (owner, parse_uint U64_MAX (as_bytes (dec_string n))) = Some (owner, Some n)).
  rewrite dec_string_bytes, parse_uint_to_dec by (unfold U64_MAX in *; lia). done.
Qed.

Lemma swap_meta_took key expected value d turns d' turns' :
  swap_meta key expected value (d, turns) = (Ok true, (d', turns')) ->
  exists ss, meta (run ss d) !! key = expected /\ d' = set_meta_table (<[key := value]> (meta (run ss d))) (run ss d).
Proof.
  unfold swap_meta. intros Hx. apply bind_Ok in Hx as (o & [d1 t1] & Hs & Hk). apply stmt_Ok in Hs as [ss Hs]. exists ss.
  destruct expected as [expected|]; cbn [exec] in Hs.
  - split_update; injection Hs as <- <-; cbn in Hk; [|done]. injection Hk as <- <-. bsimp. by subst.
  - destruct (meta (run ss d) !! key) eqn:Em; injection Hs as <- <-; cbn in Hk; [done|]. by injection Hk as <- <-.
Qed.

Section Theorems.
Context `{TimeText}.
Context (domain : string) (cluster : option bool) (generation : Z) (owner : string) (retry_delay_ms : Z).
Context (parse_x509 : string -> option (list string * list string)) (causes : SvError -> list Cause)
  (refusal_text : Refusal -> string) (install : string -> string -> bool) (server : option string).


(** No attempt takes down a tunnel that serves visitors with another certificate than the attempt's own: an attempt of a
    renewal, whatever its end, leaves the current certificate in place until the new one replaces it. *)
Theorem attempt_keeps_serving job id F started steps ends ended j s r s' :
  entry_of job id -> turns_keep F (sv_turns (js_sv s)) -> sv_ok id (js_sv s) ->
  execute domain cluster generation owner retry_delay_ms parse_x509 causes refusal_text install server job started steps ends ended j s
    = (r, s') ->
  rtc (fun d d' => exists st, d' = fst (exec st d) /\
        (F st \/ forall i row, tunnels d !! i = Some row -> serves (t_record row) ->
                    certificate_id (t_record row) <> Some (jb_certificate_id job) ->
                    exists row', tunnels d' !! i = Some row' /\ serves (t_record row')))
    (sv_db (js_sv s)) (sv_db (js_sv s')).
Proof.
  intros Hid HF Hok Hx. eapply (progresses_execute _ _ _ _ _ _ _ _ _ _ job id Hid) in Hx as (_ & _ & Ha); [|done|done].
  unfold acts in Ha. induction Ha as [|a b c (st & Hst & Hs) _ IH]; [apply rtc_refl|]. eapply rtc_l; [|exact IH].
  exists st. split; [done|]. destruct Hs as [?|Ho]; [by left|right]. intros i row Hrow Hserves Hne. specialize (Ho i).
  rewrite Hrow in Ho. unfold row_step in Ho. destruct (tunnels b !! i) as [row'|]; [|done]. exists row'. split; [done|].
  destruct Ho as [->|(l & Hl & He)]; [done|]. by destruct (job_step_serves _ _ _ _ Hl He Hserves).
Qed.

(** An attempt that keeps its lease and returns leaves no loose end: its job is over, or put off by at least half the
    doubled delay and at most an hour, counted as one more attempt, and free for any machine. *)
Theorem attempt_settles job started steps ends ended j s s' :
  owns owner (jb_certificate_id job) (sv_db (js_sv s)) ->
  turns_keep (leaves_job owner (jb_certificate_id job)) (sv_turns (js_sv s)) -> ends <> EStopped ->
  execute domain cluster generation owner retry_delay_ms parse_x509 causes refusal_text install server job started steps ends ended j s
    = (Ok tt, s') ->
  settled job retry_delay_ms ended (sv_db (js_sv s')).
Proof. intros Ho Ht He Hx. by eapply settles_execute. Qed.

(** However the runner is woken, and whichever attempts end meanwhile, a machine never runs more than [concurrency]
    attempts at once, and first issuances leave one slot to renewals; while the CA cools down a wake starts no first
    issuance, and a renewal only when none is running. *)
Theorem runner_within_limits concurrency events r :
  ru_running r = ∅ ->
  let r := fold_left (runner_step concurrency owner) events r in
  within concurrency (ru_running r) /\
  forall now, now < cd_until (js_cooldown (ru_js r)) ->
    forall ended, let r' := snd (start_due concurrency owner now ended r) in
    (issuing (ru_running r') <= issuing (ru_running r))%nat /\
    (renewing (ru_running r') <= Nat.max 1 (renewing (ru_running r)))%nat.
Proof.
  intros Hr. assert (within concurrency (ru_running (fold_left (runner_step concurrency owner) events r))) as Hw.
  { assert (within concurrency (ru_running r)) as Hw0 by (rewrite Hr; split; unfold issuing; rewrite ?map_filter_empty, map_size_empty; lia).
    clear Hr. revert r Hw0. induction events as [|e events IH]; intros r Hw0; [done|]. cbn. apply IH. destruct e as [now ended|id|]; cbn.
    - destruct (start_due _ _ _ _ _) as [res r'] eqn:E. by apply start_due_within in E.
    - by apply within_delete.
    - done. }
  split; [done|]. intros now Hnow ended. cbv zeta. destruct (start_due _ _ now ended _) as [res r'] eqn:E. by eapply start_due_cooling.
Qed.

(** First issuances never starve renewals: when nothing interferes, a runner with no renewal running and a due one starts
    one at once, however many first issuances run or wait. *)
Theorem renewals_not_starved concurrency now r d id row :
  (1 < concurrency)%nat -> within concurrency (ru_running r) -> ru_stopping r = false -> renewing (ru_running r) = 0%nat -> 0 <= now ->
  quiet_at d (ru_js r) -> cd_until (js_cooldown (ru_js r)) <= now -> sat_sub now (js_read_at (ru_js r)) < COOLDOWN_REFRESH_MS ->
  (forall i k row, ru_running r !! i = Some k -> jobs d !! i = Some row -> kind_parse (j_kind row) = k) ->
  (forall i row, jobs d !! i = Some row -> exists k, j_kind row = kind_str k) ->
  jobs d !! id = Some row -> j_status row = Pending -> j_kind row <> "issue" -> ready_at owner row <= now ->
  exists jobs next r', start_due concurrency owner now [] r = (Ok (jobs, next), r') /\ Exists (fun job => jb_kind job <> Issue) jobs.
Proof. apply start_due_renewal. Qed.

(** C38: A job whose end was not recorded (the machine died, or the database did not answer, between the certificate's record
    and the job's end) is attempted again although its certificate serves; when that order fails for good, the tunnel goes
    down: its working certificate is overwritten with the failure. *)
Theorem unrecorded_end_unserves job tunnel r revision error started ended j s :
  alone owner job tunnel r revision s -> serves r -> certificate_id r = Some (jb_certificate_id job) -> renewal r = None ->
  tunnel_job job = Some tunnel -> permitted domain parse_x509 job = Ok tt -> st_id r = tunnel -> revision <> 0 ->
  str_contains (Failure.error_text error) PERSIST_FAILED = false ->
  next_attempt (classify error) (jb_attempts job + 1) retry_delay_ms (jb_created_at job) ended j = None ->
  exists s' row, execute domain None generation owner retry_delay_ms parse_x509 causes refusal_text install server job started []
      (EFailed error) ended j s = (Ok tt, s') /\
    tunnels (sv_db (js_sv s')) !! tunnel = Some row /\ ~ serves (t_record row).
Proof.
  intros Ha _ Hc Hn Ht Hperm Hid Hz Hpersist Hnext.
  destruct (again_unserves domain generation owner retry_delay_ms parse_x509 causes refusal_text install server job tunnel r revision
    started error ended j s Ha Ht Hperm Hid Hz Hc Hn Hpersist Hnext) as (d & s' & Hx & Hq & Hrec).
  destruct (tunnels d !! tunnel) as [row|] eqn:Erow; [|done]. injection Hrec as Hrec. exists s', row. split; [done|].
  unfold sv_db. rewrite Hq. cbn. split; [done|]. rewrite Hrec. by intros [_ ?].
Qed.

(** One machine sweeps the DNS at a time: a machine that sweeps has just written its lease over one that was absent, its
    own, over or unreadable, whatever other machines did meanwhile; and for twenty minutes that lease lets no other machine
    sweep. *)
Theorem one_sweeper now d turns names d' turns' :
  byte_of_ascii " " ∉ as_bytes owner -> 0 <= now -> now + 2 * DNS_SWEEP_EVERY_MS <= U64_MAX ->
  sweep_dns owner now (d, turns) = (Ok (Some names), (d', turns')) ->
  (exists before after,
     sweep_free owner now (meta (run before d) !! DNS_SWEEPER_KEY) = true /\
     d' = run after (fst (exec (SSetMeta DNS_SWEEPER_KEY (lease_text owner now)) (run before d)))) /\
  (forall other now', other <> owner -> now' < now + 2 * DNS_SWEEP_EVERY_MS ->
     sweep_free other now' (Some (lease_text owner now)) = false).
Proof.
  intros Hs Hn Hmax Hx. split.
  - unfold sweep_dns in Hx. apply bind_Ok in Hx as (current & [d1 t1] & Hg & Hx).
    destruct (match (let* value := current in sweeper_lease value) with Some _ => _ | None => _ end) eqn:Ef; [done|].
    apply bind_Ok in Hx as (taken & [d2 t2] & Hsw & Hx). destruct taken; [|done]. apply bind_Ok in Hx as (ids & [d3 t3] & Hl & Hx).
    injection Hx as _ <- <-. apply swap_meta_took in Hsw as (ss & Hm & ->). unfold get_meta, leased_job_identifiers, query in *.
    destruct (next_turn turns) as [ta tsa]. destruct (fault ta); [|done..]. injection Hg as _ <- <-.
    destruct (next_turn t2) as [tb tsb]. destruct (fault tb); [|done..]. injection Hl as _ <- <-.
    exists (others ta ++ ss), (others tb). rewrite run_app. split; [|done]. rewrite Hm. unfold sweep_free. by rewrite Ef.
  - intros other now' Hne Hnow. unfold sweep_free. cbn [mbind option_bind]. rewrite sweeper_lease_text by done. cbn.
    rewrite (proj2 (String.eqb_neq _ _) (not_eq_sym Hne)), (proj2 (Z.ltb_lt _ _) Hnow). done.
Qed.
End Theorems.

(** ** Witnesses *)

Module JobsDemo.
Import Demo.

Definition demo_causes (e : SvError) : list Cause := [COther "the database failed"].
Definition demo_refusal (r : Refusal) : string := "no".
Definition demo_install (chain key : string) : bool := true.

(** The job of the certificate that serves the tunnel "a", still to be done. *)
Definition demo_issue : Job := mkJob "cert_u" (Some "a") Issue ["a.t.test"] "csr" 0 2000.
Definition demo_leased : JobRow := mkJobRow (Some "a") "issue" ["a.t.test"] "csr" Pending 0 2000 (Some "m") (Some 9000) None 2000 2000.
Definition demo_jobs_db (r : StoredTunnel) : Db := mkDb (<["a" := demo_row r 1]> ∅) (<["cert_u" := demo_leased]> ∅) ∅ ∅ ∅.
Definition demo_js (r : StoredTunnel) (turns : list Turn) : Js :=
  mkJs (mkSv (demo_cached r) 0 None [] (demo_jobs_db r, turns)) default_cooldown 0 None [].

Lemma demo_js_ok r turns : st_id r = "a" -> sv_ok "a" (js_sv (demo_js r turns)).
Proof. intros Hr. exact (demo_state_ok r turns Hr). Qed.

Abbreviation demo_execute := (execute "t.test" None 0 "m" 1000 demo_x509 demo_causes demo_refusal demo_install None).
Definition demo_error : list Cause := [CProblem (mkProblem 403 "urn:ietf:params:acme:error:rejectedIdentifier" None "no")].

(** The same machine while another one, [n], has the job. *)
Definition demo_taken : Js :=
  mkJs (mkSv (demo_cached demo_serving) 0 None []
    (mkDb (<["a" := demo_row demo_serving 1]> ∅)
       (<["cert_u" := mkJobRow (Some "a") "issue" ["a.t.test"] "csr" Pending 0 2000 (Some "n") (Some 9000) None 2000 2000]> ∅) ∅ ∅ ∅, []))
    default_cooldown 0 None [].


(** The attempt of a renewal of the tunnel "a". *)
Definition demo_renew : Job := mkJob "cert_v" (Some "a") Renew ["a.t.test"] "csr" 0 2000.

Lemma attempt_keeps_serving_witness :
  rtc (fun d d' => exists st, d' = fst (exec st d) /\
        (False \/ forall i row, tunnels d !! i = Some row -> serves (t_record row) ->
                    certificate_id (t_record row) <> Some "cert_v" -> exists row', tunnels d' !! i = Some row' /\ serves (t_record row')))
    (demo_jobs_db demo_serving)
    (sv_db (js_sv (snd (demo_execute demo_renew 3000 [] (EFailed demo_error) 4000 0 (demo_js demo_serving []))))).
Proof.
  refine (attempt_keeps_serving "t.test" None 0 "m" 1000 demo_x509 demo_causes demo_refusal demo_install None demo_renew "a" (fun _ => False)
    3000 [] (EFailed demo_error) 4000 0 (demo_js demo_serving []) _ _ _ _ _ (surjective_pairing _)).
  - intros tunnel [= <-]. reflexivity.
  - constructor.
  - apply demo_js_ok. reflexivity.
Defined.

(** A job of no kind the server may order ends at once. *)
Definition demo_odd : Job := mkJob "cert_u" (Some "a") KServer ["a.t.test"] "csr" 0 2000.
Definition demo_refused : Js :=
  mkJs (mkSv (demo_cached demo_serving) 0 None []
    (mkDb (<["a" := demo_row demo_serving 1]> ∅)
       (<["cert_u" := mkJobRow (Some "a") "issue" ["a.t.test"] "csr" JFailed 0 2000 None None
                        (Some "Certificate request refused: no") 2000 3000]> (<["cert_u" := demo_leased]> ∅)) ∅ ∅ ∅, []))
    default_cooldown 0 None [ARefused; AFinish JFailed].

Lemma demo_owns r : owns "m" "cert_u" (demo_jobs_db r).
Proof. exists demo_leased. split; [apply lookup_insert_eq|done]. Qed.

Lemma attempt_settles_witness : settled demo_odd 1000 4000 (sv_db (js_sv demo_refused)).
Proof.
  apply (attempt_settles "t.test" None 0 "m" 1000 demo_x509 demo_causes demo_refusal demo_install None demo_odd 3000 [] (EFailed demo_error)
    4000 0 (demo_js demo_serving [])); [apply demo_owns|constructor|discriminate|reflexivity].
Defined.

Lemma unrecorded_end_unserves_witness :
  exists s' row, demo_execute demo_issue 3000 [] (EFailed demo_error) 4000 0 (demo_js demo_serving []) = (Ok tt, s') /\
    tunnels (sv_db (js_sv s')) !! "a" = Some row /\ ~ serves (t_record row).
Proof.
  apply (unrecorded_end_unserves "t.test" 0 "m" 1000 demo_x509 demo_causes demo_refusal demo_install None demo_issue "a" demo_serving 1
    demo_error 3000 4000 0 (demo_js demo_serving [])); try reflexivity; try discriminate.
  - exists (demo_jobs_db demo_serving), (demo_row demo_serving 1). split; [reflexivity|]. split; [reflexivity|]. split; [reflexivity|].
    split; [reflexivity|]. split; [apply lookup_insert_eq|]. split; [reflexivity|apply demo_owns].
  - split; reflexivity.
Defined.

(** A runner of two slots with a first issuance running, and a renewal due. *)
Definition demo_due : JobRow := mkJobRow (Some "a") "renew" ["a.t.test"] "csr" Pending 0 2000 None None None 2000 2000.
Definition demo_due_db : Db := mkDb ∅ (<["cert_v" := demo_due]> ∅) ∅ ∅ ∅.
Definition demo_runner (running : gmap string JobKind) : Runner :=
  mkRunner running false (mkJs (mkSv (new_entry "a") 0 None [] (demo_due_db, [])) default_cooldown 3000 None []).

Lemma runner_within_limits_witness :
  within 2 (ru_running (fold_left (runner_step 2 "m") [RunnerWakes 4000 []; AttemptEnds "cert_v"; RunnerStops] (demo_runner ∅))).
Proof. apply (runner_within_limits "m" 2 [RunnerWakes 4000 []; AttemptEnds "cert_v"; RunnerStops] (demo_runner ∅)). reflexivity. Defined.

Lemma renewals_not_starved_witness :
  exists jobs next r', start_due 2 "m" 4000 [] (demo_runner (<["cert_u" := Issue]> ∅)) = (Ok (jobs, next), r') /\
    Exists (fun job => jb_kind job <> Issue) jobs.
Proof.
  assert (issuing (<["cert_u" := Issue]> ∅) = 1%nat) as Hi.
  { rewrite issuing_insert by apply lookup_empty. unfold issuing. rewrite map_filter_empty, map_size_empty. reflexivity. }
  assert (size (<["cert_u" := Issue]> (∅ : gmap string JobKind)) = 1%nat) as Hs.
  { rewrite map_size_insert_None by apply lookup_empty. rewrite map_size_empty. reflexivity. }
  apply (renewals_not_starved "m" 2 4000 (demo_runner (<["cert_u" := Issue]> ∅)) demo_due_db "cert_v" demo_due).
  - lia.
  - unfold within. cbn [demo_runner ru_running]. rewrite Hi, Hs. split; cbn; lia.
  - reflexivity.
  - unfold renewing. cbn [demo_runner ru_running]. rewrite Hi, Hs. reflexivity.
  - lia.
  - reflexivity.
  - cbn. lia.
  - cbn. reflexivity.
  - intros i k row Hrun Hrow. cbn in Hrun, Hrow. apply lookup_insert_Some in Hrun as [[<- <-]|[_ Hrun]];
      [|rewrite lookup_empty in Hrun; discriminate Hrun].
    rewrite lookup_insert_ne, lookup_empty in Hrow by discriminate. discriminate Hrow.
  - intros i row Hrow. cbn in Hrow. apply lookup_insert_Some in Hrow as [[<- <-]|[_ Hrow]];
      [|rewrite lookup_empty in Hrow; discriminate Hrow]. exists Renew. reflexivity.
  - apply lookup_insert_eq.
  - reflexivity.
  - discriminate.
  - vm_compute. discriminate.
Defined.

Lemma one_sweeper_witness :
  sweep_free "n" 5000 (Some (lease_text "m" 4000)) = false.
Proof.
  refine (proj2 (one_sweeper "m" 4000 empty_db [] [] (mkDb ∅ ∅ ∅ (<[DNS_SWEEPER_KEY := lease_text "m" 4000]> ∅) ∅) [] _ _ _ _) "n" 5000 _ _).
  - apply not_elem_of_cons. split; [discriminate|apply not_elem_of_nil].
  - lia.
  - unfold U64_MAX, DNS_SWEEP_EVERY_MS, MINUTE_MS, SECOND_MS. lia.
  - reflexivity.
  - discriminate.
  - unfold DNS_SWEEP_EVERY_MS, MINUTE_MS, SECOND_MS. lia.
Defined.
End JobsDemo.
