(* ===== verification/Loops.v ===== *)
(** * Loops: the background loops of a server, [jobs.rs]

    What a turn of each loop does is in [Jobs] and [Service]; here are the turns over time: when a loop looks again, woken early or
    not, and what a turn of the reconcile loop runs. *)

From Stdlib Require Import ZArith Lia Ascii String List.
From stdpp Require Import base list strings gmap.
From S2P Require Import Prelude Text Names Record Mesh Store Bridges Failure Limits Service Jobs.

(** ** [Jobs::run] and [run_alarms]: look, then wait until the next thing known is due, a notification or the end of a task *)

Definition RUN_LEAST : Z := 50.
Definition ALARMS_LEAST : Z := 100.

Section Loop.
(** What the [k]-th look at a time reports as the next thing due; the jitter of its poll; after how long it is woken, if it is. *)
Context (least : Z) (look : nat -> Z -> option Z) (jitter : nat -> Z) (woken : nat -> option Z).

Fixpoint look_at (start : Z) (k : nat) : Z :=
  match k with
  | O => start
  | S k =>
      let now := look_at start k in
      let wait := wait_for least now (jitter k) (look k now) in
      now + match woken k with Some early => Z.min early wait | None => wait end
  end.
End Loop.

(** ** The other loops' waits *)

(** [run_dns_sweeper]; [ServerCertificates::run]; [run_reconcile] and [run_sweeper] tick regularly. *)
Definition sweep_wait (j : Z) : Z := DNS_SWEEP_EVERY_MS / 2 + jitter_of DNS_SWEEP_EVERY_MS j.
Definition certificate_wait (installed : bool) : Z := if installed then Z.min HOUR_MS DAY_MS else 10000.
Definition RECONCILE_MS : Z := 5 * MINUTE_MS.

(** [Jobs::new]'s concurrency. *)
Definition jobs_concurrency (configured : Z) : Z := Z.max configured 1.

(** A turn of [run_reconcile]: three things, each only logged when it fails. *)
Section Reconcile.
Context `{TimeText}.
Context (now : Z) (cluster : option bool) (generation : Z) (chosen : list string).

Definition reconcile_turn (s : Svc) : (result nat SvError * result Z SvError * result nat SvError) * Svc :=
  let '(resumed, s) := resume_orphaned_issuance now cluster generation ORPHAN_GRACE_MS s in
  let '(pruned, s) := svc_st (prune_rate_limits now chosen) s in
  let '(requeued, s) := retry_failed_issuance now cluster generation s in
  ((resumed, pruned, requeued), s).
End Reconcile.

(** ** Properties *)

Lemma poll_wait_bounds j : POLL_MS <= poll_wait j <= 2 * POLL_MS.
Proof. unfold poll_wait. pose proof (jitter_bounds POLL_MS j ltac:(unfold POLL_MS; lia)). unfold POLL_MS in *. lia. Qed.

(** A loop looks again in time: within a minute whatever happens; no later than the next thing it knows to be due, but for the shortest wait;
    at once when it is woken; and unless it is woken never sooner than that wait, so it does not spin. *)
Theorem looks_in_time least look jitter woken start k :
  0 <= least <= POLL_MS -> (forall k, match woken k with Some early => 0 <= early | None => True end) ->
  let now := look_at least look jitter woken start k in
  let next := look_at least look jitter woken start (S k) in
  now <= next <= now + 2 * POLL_MS /\
  (forall at_, look k now = Some at_ -> next <= Z.max at_ (now + least)) /\
  (match woken k with Some early => next <= now + early | None => now + least <= next end).
Proof.
  intros Hl Hw. cbn [look_at]. set (now := look_at least look jitter woken start k). specialize (Hw k). pose proof (poll_wait_bounds (jitter k)) as Hp.
  unfold wait_for, sat_sub. destruct (look k now) as [at_|], (woken k) as [early|]; split_and!; intros; simplify_eq; lia.
Qed.

(** The alarms' loop: with nothing due and the database to itself, a look reports the earliest alarm, so the next look comes when that alarm
    is due (or as soon as it is woken), not later. *)
Theorem next_alarm_reported now d id at_ :
  (forall id a, (id, a) ∈ alarms d -> now < a) -> (id, at_) ∈ alarms d ->
  exists next, take_due_alarms_and_next now (d, []) = (Ok ([], Some next), (d, [])) /\ now < next <= at_ /\ exists id', (id', next) ∈ alarms d.
Proof.
  intros Hlater Hin. unfold take_due_alarms_and_next, bind, query. cbn [next_turn others fault run fold_left].
  destruct (sort_by snd (alarms d)) as [|[id' a'] rest] eqn:Es.
  { pose proof (sort_by_perm snd (alarms d)) as Hp. rewrite Es in Hp. apply Permutation_nil_l in Hp. rewrite <- Hp in Hin. by apply elem_of_nil in Hin. }
  assert ((id', a') ∈ alarms d) as Hin' by (rewrite <- (sort_by_perm snd (alarms d)), Es; by left).
  pose proof (sort_by_least snd _ _ _ _ Es Hin) as Hle. cbn in Hle. pose proof (Hlater _ _ Hin') as Hlt.
  exists a'. split; [|split; [lia|by eexists]].
  cbn [take due_prefix]. rewrite (proj2 (Z.ltb_lt _ _)) by done. cbn [Nat.min lookup list_lookup fmap option_fmap option_map snd take clear_alarms]. unfold ret.
  by rewrite Z.max_l by lia.
Qed.

(** The machine that sweeps renews its lease before it runs out: its next sweep comes within three quarters of the lease. *)
Theorem sweeper_keeps_lease j : 0 < sweep_wait j /\ 4 * sweep_wait j <= 3 * (2 * DNS_SWEEP_EVERY_MS).
Proof.
  unfold sweep_wait. pose proof (jitter_bounds DNS_SWEEP_EVERY_MS j ltac:(unfold DNS_SWEEP_EVERY_MS, MINUTE_MS, SECOND_MS; lia)).
  unfold DNS_SWEEP_EVERY_MS, MINUTE_MS, SECOND_MS in *. change (10 * (60 * 1000) / 2) with 300000. lia.
Qed.
