(* ===== verification/Acme.v ===== *)
(** * Acme: an order with the CA, [acme.rs], and the challenge records in the DNS, [dns.rs]

    An attempt talks to the CA over HTTP, shows its challenge, publishes TXT records, waits until the CA has checked them
    and fetches the certificate; then it settles what it left open and deletes its records. The CA, the DNS provider, the
    caller and a shutdown answer as they like: each answer is a function of everything that happened before it. JSON, the
    signatures, PEM and X.509 are parameters. *)

From Stdlib Require Import ZArith Lia Ascii String List.
From stdpp Require Import base list strings.
From S2P Require Import Prelude Text Names Record Failure Store Service Jobs.

(** ** Data *)

(** An error document: its type, its detail, and its text. *)
Record ErrorDoc := mkErrorDoc { ed_kind : string; ed_detail : string; ed_text : string }.

Record AcmeChallenge := mkAcmeChallenge {
  ch_kind : string;
  ch_url : string;
  ch_token : string;
  ch_status : string;
  ch_error : option ErrorDoc;
}.

Record Authorization := mkAuthorization {
  au_status : string;
  au_identifier : string;
  au_challenges : list AcmeChallenge;
}.

Record Order := mkOrder {
  or_status : string;
  or_authorizations : list string;
  or_finalize : option string;
  or_certificate : option string;
}.

Record Directory := mkDirectory { new_nonce : string; new_account : string; new_order : string }.

(** A pending authorization this attempt answers. *)
Record PendingAuth := mkPendingAuth {
  pa_url : string;
  pa_identifier : string;
  pa_challenge_url : string;
  pa_token : string;
  pa_value : string;
}.

Record TxtRecord := mkTxtRecord { tx_name : string; tx_value : string; tx_id : option string }.

(** What the requests carry. *)
Inductive Payload := PlAccount | PlOrder (identifiers : list string) | PlAnswer | PlFinalize (csr : bytes) | PlDeactivate.

(** What an attempt does to the outside, in order. *)
Inductive Event :=
| EvDirectory
| EvNonce (url : string) (head : bool)
| EvPost (url nonce : string) (kid : option string) (payload : option Payload)
| EvChallenge (token key : string)
| EvCreate (name value : string)
| EvPropagation
| EvSleep
| EvDelete (record : TxtRecord).

Record Headers := mkHeaders { replay_nonce : option string; location : option string; retry_after : option string }.

(** No response, or a status and headers with the body or its failure. *)
Inductive HttpReply :=
| Down (failure : HttpFailure)
| Answer (status : Z) (headers : Headers) (body : bytes + HttpFailure).

(** An attempt's error, or the shutdown that ended it. *)
Inductive AcmeError := AcmeFailed (error : list Cause) | AcmeStopped.

(** The state of an attempt: what happened, the session's nonce and account, whether a shutdown ends it here, the records it
    created, and the authorizations it answered that have not reached a final state. *)
Record Attempt := mkAttempt {
  at_events : list Event;
  at_nonce : option string;
  at_kid : option string;
  at_stoppable : bool;
  at_records : list TxtRecord;
  at_unsettled : list PendingAuth;
}.

Definition AM (A : Type) : Type := Attempt -> result A AcmeError * Attempt.
Definition aret {A} (a : A) : AM A := fun s => (Ok a, s).
Definition afail {A} (e : AcmeError) : AM A := fun s => (Err e, s).
Definition bail {A} (text : string) : AM A := afail (AcmeFailed [COther text]).
Definition transient {A} (text : string) : AM A := afail (AcmeFailed [CTransient text None]).
Definition abind {A B} (m : AM A) (k : A -> AM B) : AM B := fun s =>
  match m s with (Ok a, s') => k a s' | (Err e, s') => (Err e, s') end.
Notation "x <-@ m ;; k" := (abind m (fun x => k)) (at level 100, m at next level, right associativity).
Definition atry {A} (m : AM A) : AM (result A AcmeError) := fun s => let '(r, s') := m s in (Ok r, s').

Definition set_nonce (n : option string) (s : Attempt) : Attempt :=
  mkAttempt (at_events s) n (at_kid s) (at_stoppable s) (at_records s) (at_unsettled s).
Definition set_events (l : list Event) (s : Attempt) : Attempt :=
  mkAttempt l (at_nonce s) (at_kid s) (at_stoppable s) (at_records s) (at_unsettled s).

Definition modify (f : Attempt -> Attempt) : AM unit := fun s => (Ok tt, f s).
Definition unsettled : AM (list PendingAuth) := fun s => (Ok (at_unsettled s), s).
Definition set_unsettled (l : list PendingAuth) : AM unit :=
  modify (fun s => mkAttempt (at_events s) (at_nonce s) (at_kid s) (at_stoppable s) (at_records s) l).
Definition push_record (r : TxtRecord) : AM unit :=
  modify (fun s => mkAttempt (at_events s) (at_nonce s) (at_kid s) (at_stoppable s) (at_records s ++ [r]) (at_unsettled s)).
Definition set_stoppable (b : bool) : AM unit :=
  modify (fun s => mkAttempt (at_events s) (at_nonce s) (at_kid s) b (at_records s) (at_unsettled s)).
Definition set_kid (k : option string) : AM unit :=
  modify (fun s => mkAttempt (at_events s) (at_nonce s) k (at_stoppable s) (at_records s) (at_unsettled s)).

Definition REQUEST_TRIES : nat := 3.
Definition AUTHORIZATION_POLLS : nat := 60.
Definition ORDERS : nat := 2.

(** A loop over a list that goes on while it succeeds. *)
Fixpoint each {A} (l : list A) (f : A -> AM unit) : AM unit :=
  match l with [] => aret tt | x :: l' => _ <-@ f x;; each l' f end.

Section Acme.
(** The CA's answers and the DNS provider's, the caller's, and when the server shuts down, by what happened so far. *)
Context (http : list Event -> HttpReply) (created : list Event -> option string + list Cause)
  (shown : list Event -> result unit (list Cause)) (stops : list Event -> bool).
(** The directory's URL, whether a URL is one, with the parser's error, and the origin it is compared by. *)
Context (directory : string) (valid_url : string -> bool) (url_error : string) (origin : string -> option string).
(** What the JSON parser finds in a body. *)
Context (parse_directory : bytes -> option Directory) (parse_order : bytes -> option Order)
  (parse_authorization : bytes -> option Authorization) (problem_fields : bytes -> string * string) (parse_error : string -> bytes -> string).
(** The account's key: whether a request can be signed, and the TXT value of a token. *)
Context (signs : string -> string -> option Payload -> bool) (challenge_value : string -> string).
(** The PEM of a request as DER, and what a certificate's response holds for it. *)
Context (pem_der : string -> option bytes) (chain_from_pem : string -> result Issued string) (certifies_key : string -> bytes -> bool).
(** The errors of the HTTP client for a status and for a body, and of text that is not UTF-8. *)
Context (status_failure : Z -> HttpFailure) (decode_failure : bytes -> HttpFailure) (utf8_error : bytes -> string).

(** Something happens outside; an attempt that a shutdown ends is not told how (a response it cuts off
    counts as none). *)
Definition await {A} (e : Event) (answer : list Event -> A) : AM A := fun s =>
  let events := at_events s ++ [e] in
  let s := set_events events s in
  if at_stoppable s && stops events then (Err AcmeStopped, s) else (Ok (answer events), s).

(** ** The session *)

(** Whether a URL is on the directory's origin. *)
Definition on_origin (url : string) : bool :=
  match origin url, origin directory with Some o, Some o' => String.eqb o o' | _, _ => false end.

Definition check_url (url : string) : AM unit :=
  if on_origin url then aret tt
  else bail ("the ACME server named a URL outside its directory's origin: " +:+ of_bytes (take_chars 200 (as_bytes url))).

Fixpoint nonce_loop (url : string) (tries : nat) (head : bool) (last : string) : AM string :=
  match tries with
  | O => transient ("ACME server returned no nonce" +:+ last)
  | S tries' =>
      reply <-@ await (EvNonce url head) http;;
      match reply with
      | Answer status headers _ =>
          match replay_nonce headers with
          | Some nonce => aret nonce
          | None => _ <-@ (if (0 <? tries')%nat then await EvSleep (fun _ => tt) else aret tt);;
                    nonce_loop url tries' false (" (HTTP " +:+ dec_string status +:+ ")")
          end
      | Down failure => _ <-@ (if (0 <? tries')%nat then await EvSleep (fun _ => tt) else aret tt);;
                        nonce_loop url tries' false (": " +:+ hf_text failure)
      end
  end.

Definition fresh_nonce (dir : Directory) : AM string := fun s =>
  match at_nonce s with
  | Some nonce => (Ok nonce, set_nonce None s)
  | None => (_ <-@ check_url (new_nonce dir);; nonce_loop (new_nonce dir) REQUEST_TRIES true "") s
  end.

Definition request_failed (url : string) (failure : HttpFailure) : AcmeError :=
  AcmeFailed [COther ("ACME request to " +:+ url +:+ " failed"); CHttp failure].

Definition kid : AM (option string) := fun s => (Ok (at_kid s), s).

(** [post], after [check_url]; a rejected nonce is retried [retries] times. *)
Fixpoint post_loop (dir : Directory) (url : string) (payload : option Payload) (retries : nat) : AM (Headers * bytes) :=
  nonce <-@ fresh_nonce dir;;
  if negb (signs url nonce payload) then bail "signing an ACME request failed"
  else
    k <-@ kid;;
    reply <-@ await (EvPost url nonce k payload) http;;
    match reply with
    | Down failure => afail (request_failed url failure)
    | Answer status headers body =>
        _ <-@ modify (set_nonce (replay_nonce headers));;
        match body with
        | inr failure => afail (request_failed url failure)
        | inl body =>
            if status <? 400 then aret (headers, body)
            else
              let '(kind, detail) := problem_fields body in
              let problem := CProblem (problem_of url status kind detail (retry_after headers) body) in
              if bool_decide (is_Some (str_strip_suffix ":badNonce" kind))
              then match retries with
                   | S retries' => post_loop dir url payload retries'
                   | O => afail (AcmeFailed [problem])
                   end
              else afail (AcmeFailed [problem])
        end
    end.

Definition post (dir : Directory) (url : string) (payload : option Payload) : AM (Headers * bytes) :=
  _ <-@ check_url url;; post_loop dir url payload 3.

(** [get]: a read, repeated on a transient failure. *)
Fixpoint get_loop (dir : Directory) (url : string) (more : nat) : AM (Headers * bytes) :=
  match more with
  | O => post dir url None
  | S more' =>
      reply <-@ atry (post dir url None);;
      match reply with
      | Ok reply => aret reply
      | Err AcmeStopped => afail AcmeStopped
      | Err (AcmeFailed error) =>
          match classify error with
          | FTransient _ => _ <-@ await EvSleep (fun _ => tt);; get_loop dir url more'
          | _ => afail (AcmeFailed error)
          end
      end
  end.
Definition get (dir : Directory) (url : string) : AM (Headers * bytes) := get_loop dir url (REQUEST_TRIES - 1).

Definition parsed {A} (parse : bytes -> option A) (what : string) (body : bytes) : AM A :=
  match parse body with Some a => aret a | None => transient (parse_error what body) end.

Definition get_authorization (dir : Directory) (url : string) : AM Authorization :=
  r <-@ get dir url;; parsed parse_authorization "authorization" (snd r).
Definition get_order (dir : Directory) (url : string) : AM Order :=
  r <-@ get dir url;; parsed parse_order "order" (snd r).

Definition deactivate (dir : Directory) (url : string) : AM unit :=
  r <-@ atry (post dir url (Some PlDeactivate));;
  match r with
  | Ok _ => aret tt
  | Err AcmeStopped => afail AcmeStopped
  | Err (AcmeFailed error) =>
      authorization <-@ get_authorization dir url;;
      if String.eqb (au_status authorization) "pending"
      then afail (AcmeFailed (COther "deactivating an ACME authorization" :: error))
      else aret tt
  end.

(** ** Placing an order *)

Definition dns_challenge (a : Authorization) : option AcmeChallenge :=
  List.find (fun c => String.eqb (ch_kind c) "dns-01") (au_challenges a).

Definition error_detail (a : Authorization) : string :=
  String.concat "; " (map (fun e =>
    if str_is_empty (ed_kind e) && str_is_empty (ed_detail e) then ed_text e
    else if negb (str_is_empty (ed_kind e)) && negb (str_is_empty (ed_detail e)) then ed_kind e +:+ ": " +:+ ed_detail e
    else ed_kind e +:+ ed_detail e) (omap ch_error (au_challenges a))).

(** The authorizations of an order: the pending ones, the stale ones, and whether the order can succeed. *)
Fixpoint read_authorizations (dir : Directory) (urls : list string) : AM (list PendingAuth * list string * bool) :=
  match urls with
  | [] => aret ([], [], true)
  | url :: urls' =>
      a <-@ get_authorization dir url;;
      if String.eqb (au_status a) "valid" then read_authorizations dir urls'
      else if negb (String.eqb (au_status a) "pending") then
        rest <-@ read_authorizations dir urls';;
        let '(pending, stale, _) := rest in aret (pending, stale, false)
      else
        match dns_challenge a with
        | None => bail "ACME server did not offer dns-01"
        | Some challenge =>
            rest <-@ read_authorizations dir urls';;
            let '(pending, stale, usable) := rest in
            if negb (str_is_empty (ch_status challenge) || String.eqb (ch_status challenge) "pending")
            then aret (pending, url :: stale, false)
            else aret (mkPendingAuth url (au_identifier a) (ch_url challenge) (ch_token challenge)
                         (challenge_value (ch_token challenge)) :: pending, stale, usable)
        end
  end.

Fixpoint place_order (dir : Directory) (identifiers : list string) (orders : nat) : AM (string * list PendingAuth) :=
  match orders with
  | O => transient "ACME server kept handing out authorizations that cannot succeed"
  | S orders' =>
      r <-@ post dir (new_order dir) (Some (PlOrder identifiers));;
      match location (fst r) with
      | None => bail "ACME order has no location URL"
      | Some order_url =>
          order <-@ parsed parse_order "order" (snd r);;
          found <-@ read_authorizations dir (or_authorizations order);;
          let '(pending, stale, usable) := found in
          if usable : bool then aret (order_url, pending)
          else _ <-@ each stale (deactivate dir);; place_order dir identifiers orders'
      end
  end.

(** ** One attempt *)

Definition challenge_name (identifier : string) : string := "_acme-challenge." +:+ trim_wildcards identifier.

(** The records to publish: a name and its wildcard may share one. *)
Definition wanted_records (pending : list PendingAuth) : list (string * string) :=
  fold_left (fun wanted p =>
    let nv := (challenge_name (pa_identifier p), pa_value p) in
    if existsb (fun w => String.eqb w.1 nv.1 && String.eqb w.2 nv.2) wanted then wanted else wanted ++ [nv]) pending [].

Definition publish (nv : string * string) : AM unit :=
  id <-@ await (EvCreate nv.1 nv.2) created;;
  match id with
  | inl id => push_record (mkTxtRecord nv.1 nv.2 id)
  | inr error => afail (AcmeFailed (COther "creating the DNS challenge record" :: error))
  end.

Definition answer (dir : Directory) (p : PendingAuth) : AM unit :=
  l <-@ unsettled;;
  _ <-@ set_unsettled (l ++ [p]);;
  _ <-@ post dir (pa_challenge_url p) (Some PlAnswer);;
  aret tt.

(** One pass over the unsettled authorizations, of which [kept] were found pending; those left. *)
Fixpoint settle_pass (dir : Directory) (kept rest : list PendingAuth) : AM (list PendingAuth) :=
  match rest with
  | [] => aret kept
  | current :: rest' =>
      a <-@ get_authorization dir (pa_url current);;
      if String.eqb (au_status a) "valid" then _ <-@ set_unsettled (kept ++ rest');; settle_pass dir kept rest'
      else if String.eqb (au_status a) "pending" then settle_pass dir (kept ++ [current]) rest'
      else
        _ <-@ set_unsettled (kept ++ rest');;
        bail ("ACME authorization for " +:+ pa_identifier current +:+ " ended in " +:+ au_status a
              +:+ (if str_is_empty (error_detail a) then "" else ": " +:+ error_detail a))
  end.

Fixpoint settle_loop (dir : Directory) (polls : nat) : AM unit :=
  l <-@ unsettled;;
  left <-@ settle_pass dir [] l;;
  match left, polls with
  | [], _ => aret tt
  | _, O => transient "ACME authorization ended in pending"
  | _, S polls' => _ <-@ await EvSleep (fun _ => tt);; settle_loop dir polls'
  end.

(** The order, read again while it has a status. *)
Fixpoint order_while (dir : Directory) (url status : string) (polls : nat) (order : Order) : AM Order :=
  match polls with
  | O => aret order
  | S polls' =>
      if negb (String.eqb (or_status order) status) then aret order
      else _ <-@ await EvSleep (fun _ => tt);; order <-@ get_order dir url;; order_while dir url status polls' order
  end.

Definition finalize (dir : Directory) (url : string) (csr : bytes) (order : Order) : AM Order :=
  if String.eqb (or_status order) "ready" then
    match or_finalize order with
    | None => bail "ACME order has no finalize URL"
    | Some f => _ <-@ post dir f (Some (PlFinalize csr));; get_order dir url
    end
  else aret order.

Definition fetch (dir : Directory) (csr : bytes) (order : Order) : AM Issued :=
  match or_certificate order with
  | Some url =>
      if String.eqb (or_status order) "valid" then
        r <-@ get dir url;;
        match from_utf8 (snd r) with
        | None => bail (utf8_error (snd r))
        | Some pem =>
            match chain_from_pem pem with
            | Err error => bail error
            | Ok issued => if certifies_key pem csr then aret issued else bail "ACME returned a certificate for another key"
            end
        end
      else if String.eqb (or_status order) "pending" || String.eqb (or_status order) "processing"
      then transient ("ACME order ended in " +:+ or_status order)
      else bail ("ACME order ended in " +:+ or_status order)
  | None =>
      if String.eqb (or_status order) "pending" || String.eqb (or_status order) "processing"
      then transient ("ACME order ended in " +:+ or_status order)
      else bail ("ACME order ended in " +:+ or_status order)
  end.

(** A shutdown that is noticed before anything else. *)
Definition checkpoint : AM unit := fun s => if at_stoppable s && stops (at_events s) then (Err AcmeStopped, s) else (Ok tt, s).

(** The part of an attempt that a shutdown ends. *)
Definition attempt_order (dir : Directory) (order_url csr_pem : string) (pending : list PendingAuth) : AM Issued :=
  _ <-@ checkpoint;;
  _ <-@ each (wanted_records pending) publish;;
  _ <-@ await EvPropagation (fun _ => tt);;
  _ <-@ each pending (answer dir);;
  _ <-@ settle_loop dir AUTHORIZATION_POLLS;;
  order <-@ get_order dir order_url;;
  order <-@ order_while dir order_url "pending" 30 order;;
  match pem_der csr_pem with
  | None => bail "CSR is not PEM"
  | Some csr =>
      order <-@ finalize dir order_url csr order;;
      order <-@ order_while dir order_url "processing" 30 order;;
      fetch dir csr order
  end.

(** Deactivates the authorizations left open: whether all are settled. *)
Fixpoint deactivate_all (dir : Directory) (l : list PendingAuth) : AM bool :=
  match l with
  | [] => aret true
  | p :: l' =>
      r <-@ atry (deactivate dir (pa_url p));;
      rest <-@ deactivate_all dir l';;
      aret (match r with Ok _ => rest | Err _ => false end)
  end.

Definition records : AM (list TxtRecord) := fun s => (Ok (at_records s), s).
Definition delete_txt (r : TxtRecord) : AM unit := await (EvDelete r) (fun _ => tt).

Definition clean_up (dir : Directory) : AM unit :=
  l <-@ unsettled;;
  settled <-@ deactivate_all dir l;;
  if settled : bool then rs <-@ records;; each rs delete_txt else aret tt.

Definition read_directory : AM Directory :=
  reply <-@ await EvDirectory http;;
  match reply with
  | Down failure => afail (AcmeFailed [COther "fetching the ACME directory"; CHttp failure])
  | Answer status _ body =>
      if 400 <=? status then afail (AcmeFailed [CHttp (status_failure status)])
      else match body with
           | inr failure => afail (AcmeFailed [COther "reading the ACME directory"; CHttp failure])
           | inl body => match parse_directory body with
                         | Some dir => aret dir
                         | None => afail (AcmeFailed [COther "reading the ACME directory"; CHttp (decode_failure body)])
                         end
           end
  end.

(** Registers the account unless it is known. *)
Definition register (dir : Directory) (binding : result unit string) : AM unit :=
  k <-@ kid;;
  match k with
  | Some _ => aret tt
  | None =>
      match binding with
      | Err error => bail error
      | Ok _ =>
          r <-@ post dir (new_account dir) (Some PlAccount);;
          match location (fst r) with
          | None => bail "ACME account has no location URL"
          | Some url => set_kid (Some url)
          end
      end
  end.

Definition show (pending : list PendingAuth) : AM unit :=
  match pending with
  | [] => aret tt
  | first :: _ =>
      r <-@ await (EvChallenge (pa_token first) (pa_value first)) shown;;
      match r with Ok _ => aret tt | Err error => afail (AcmeFailed error) end
  end.

(** What the server was configured with: the account binding, the DNS provider, and the account's key. *)
Record Config := mkConfig { cf_eab : bool; cf_dns : bool; cf_key : result unit string; cf_binding : result unit string }.

(** Up to the challenge: the directory, the account, the order, and what the caller does with the first challenge. *)
Definition open_order (config : Config) (identifiers : list string) : AM (Directory * (string * list PendingAuth)) :=
  match cf_key config, valid_url directory with
  | Err error, _ => bail error
  | _, false => afail (AcmeFailed [COther "ACME_URL is not a URL"; COther url_error])
  | Ok _, true =>
      dir <-@ read_directory;;
      _ <-@ register dir (cf_binding config);;
      found <-@ place_order dir identifiers ORDERS;;
      _ <-@ show (snd found);;
      aret (dir, found)
  end.

(** [Acme::issue] *)
Definition issue (config : Config) (identifiers : list string) (csr_pem : string) : AM Issued :=
  if negb (cf_eab config) then bail "ACME_EAB_KID and ACME_EAB_HMAC_KEY are required"
  else if negb (cf_dns config) then bail "CLOUDFLARE_ZONE_ID and CLOUDFLARE_API_TOKEN are required"
  else fun s =>
    if stops (at_events s) then (Err AcmeStopped, s)
    else
      (opened <-@ open_order config identifiers;;
       let '(dir, (order_url, pending)) := opened in
       _ <-@ set_stoppable true;;
       result <-@ atry (attempt_order dir order_url csr_pem pending);;
       _ <-@ set_stoppable false;;
       _ <-@ clean_up dir;;
       match result with Ok issued => aret issued | Err e => afail e end) s.

(** ** What an operation does *)

(** What the session does: events of some kinds, and nothing to the records and the authorizations. *)
Definition session {A} (K : Event -> Prop) (m : AM A) (Q : list Event -> A -> Prop) : Prop :=
  forall s r s', m s = (r, s') ->
    (exists l, at_events s' = at_events s ++ l /\ Forall K l) /\
    at_records s' = at_records s /\ at_unsettled s' = at_unsettled s /\ at_stoppable s' = at_stoppable s /\
    (at_stoppable s = false -> r <> Err AcmeStopped) /\ forall a, r = Ok a -> Q (at_events s') a.

Section Session.
Context (K : Event -> Prop).
Abbreviation any := (fun _ _ => True).

Lemma session_ret {A} (a : A) (Q : list Event -> A -> Prop) : (forall l, Q l a) -> session K (aret a) Q.
Proof. intros HQ s r s' [= <- <-]. split_and!; [exists []; by rewrite app_nil_r|done..|by intros a' [= <-]]. Qed.

Lemma session_fail {A} e (Q : list Event -> A -> Prop) : e <> AcmeStopped -> session K (afail e) Q.
Proof. intros He s r s' [= <- <-]. split_and!; [exists []; by rewrite app_nil_r|done..| |done]. congruence. Qed.

Lemma session_bind {A B} (m : AM A) (k : A -> AM B) Q R :
  session K m Q -> (forall a, session K (k a) (fun l b => (exists l0, l0 `prefix_of` l /\ Q l0 a) -> R l b)) -> session K (abind m k) R.
Proof.
  intros Hm Hk s r s' H. unfold abind in H. destruct (m s) as [[a|e] s1] eqn:E.
  - destruct (Hm _ _ _ E) as ((l & H1 & H2) & H3 & H4 & H5 & H6 & H7).
    destruct (Hk a _ _ _ H) as ((l' & H1' & H2') & H3' & H4' & H5' & H6' & H7'). split_and!; [|congruence..| |].
    + exists (l ++ l'). rewrite H1', H1, app_assoc. split; [done|]. by apply Forall_app.
    + intros Hs. apply H6'. congruence.
    + intros b Hb. apply H7'; [done|]. exists (at_events s1). split; [rewrite H1'; by eexists|by apply H7].
  - injection H as <- <-. destruct (Hm _ _ _ E) as (H1 & H3 & H4 & H5 & H6 & _). split_and!; try done. intros Hs ?. apply (H6 Hs). congruence.
Qed.

Lemma session_await {A} e (answer : list Event -> A) :
  K e -> session K (await e answer) (fun l a => exists l0, l = l0 ++ [e] /\ a = answer l).
Proof.
  intros He s r s' H. unfold await in H. cbn in H. destruct (at_stoppable s && stops (at_events s ++ [e])) eqn:Es; injection H as <- <-; cbn.
  - split_and!; [exists [e]; split; [done|by constructor]|done..| |done]. intros Hs. by rewrite Hs in Es.
  - split_and!; [exists [e]; split; [done|by constructor]|done..|]. intros a [= <-]. by eexists.
Qed.

Lemma session_weaken {A} (m : AM A) (Q Q' : list Event -> A -> Prop) : session K m Q -> (forall l a, Q l a -> Q' l a) -> session K m Q'.
Proof. intros Hm HQ s r s' H. destruct (Hm _ _ _ H) as (H1 & H3 & H4 & H5 & H6 & H7). split_and!; auto. Qed.

Lemma session_then {A B} (m : AM A) (k : A -> AM B) R : session K m any -> (forall a, session K (k a) R) -> session K (abind m k) R.
Proof. intros Hm Hk. eapply session_bind; [exact Hm|]. intros a. eapply session_weaken; [apply Hk|]. auto. Qed.

Lemma session_any {A} (m : AM A) Q : session K m Q -> session K m any.
Proof. intros Hm. by eapply session_weaken. Qed.

Lemma session_await_any {A} e (answer : list Event -> A) : K e -> session K (await e answer) any.
Proof. intros He. by eapply session_any, session_await. Qed.

Lemma session_try {A} (m : AM A) Q :
  session K m Q -> session K (atry m) (fun l r => match r with Ok a => Q l a | Err e => True end).
Proof.
  intros Hm s r s' H. unfold atry in H. destruct (m s) as [r0 s1] eqn:E. injection H as <- <-.
  destruct (Hm _ _ _ E) as (H1 & H3 & H4 & H5 & H6 & H7). split_and!; try done. intros a [= <-]. destruct r0; auto.
Qed.
End Session.

(** A failure that is handled; a shutdown is not. *)
Lemma session_catch {A B} K (m : AM A) (k : A -> AM B) (h : list Cause -> AM B) Q R :
  session K m Q -> (forall a, session K (k a) (fun l b => (exists l0, l0 `prefix_of` l /\ Q l0 a) -> R l b)) ->
  (forall e, session K (h e) R) ->
  session K (r <-@ atry m;; match r with Ok a => k a | Err AcmeStopped => afail AcmeStopped | Err (AcmeFailed e) => h e end) R.
Proof.
  intros Hm Hk Hh s r s' H. unfold abind, atry in H. destruct (m s) as [[a|[e|]] s1] eqn:E.
  - eapply session_bind; [exact Hm|exact Hk|]. unfold abind. by rewrite E.
  - destruct (Hm _ _ _ E) as ((l & H1 & H2) & H3 & H4 & H5 & H6 & _).
    destruct (Hh e _ _ _ H) as ((l' & H1' & H2') & H3' & H4' & H5' & H6' & H7'). split_and!; [|congruence..| |done].
    + exists (l ++ l'). rewrite H1', H1, app_assoc. split; [done|]. by apply Forall_app.
    + intros Hs. apply H6'. congruence.
  - injection H as <- <-. destruct (Hm _ _ _ E) as (H1 & H3 & H4 & H5 & H6 & _). split_and!; [done..| |done]. intros Hs _. by apply (H6 Hs).
Qed.

(** Requests, all on the directory's origin, and waits. *)
Definition session_event (payloads : string -> option Payload -> Prop) (e : Event) : Prop :=
  match e with
  | EvNonce url _ => on_origin url = true
  | EvPost url _ _ payload => on_origin url = true /\ payloads url payload
  | EvSleep | EvPropagation => True
  | _ => False
  end.

(** The CA answered a request with success. *)
Definition responded (l : list Event) (url : string) (payload : option Payload) (reply : Headers * bytes) : Prop :=
  exists l0 nonce k status, (l0 ++ [EvPost url nonce k payload]) `prefix_of` l /\
    http (l0 ++ [EvPost url nonce k payload]) = Answer status (fst reply) (inl (snd reply)) /\ status < 400.

Lemma responded_mono l l' url payload reply : responded l url payload reply -> l `prefix_of` l' -> responded l' url payload reply.
Proof. intros (l0 & nonce & k & status & Hl & Hr) Hp. exists l0, nonce, k, status. split; [by etransitivity|done]. Qed.

Section Requests.
Context (dir : Directory) (P : string -> option Payload -> Prop).
Abbreviation K := (session_event P).
Abbreviation any := (fun _ _ => True).

Lemma session_check url : session K (check_url url) (fun _ _ => on_origin url = true).
Proof. unfold check_url. case_split; [by apply session_ret|by apply session_fail]. Qed.

Lemma session_pause b : session K (if b : bool then await EvSleep (fun _ => tt) else aret tt) any.
Proof. destruct b; [by apply session_await_any|by apply session_ret]. Qed.

Lemma session_nonce_loop url tries head last : on_origin url = true -> session K (nonce_loop url tries head last) any.
Proof.
  intros Hu. revert head last. induction tries as [|tries IH]; intros head last; cbn [nonce_loop]; [by apply session_fail|].
  apply session_then; [by apply session_await_any|]. intros [failure|status headers body].
  - apply session_then; [apply session_pause|]. intros _. apply IH.
  - destruct (replay_nonce headers); [by apply session_ret|]. apply session_then; [apply session_pause|]. intros _. apply IH.
Qed.

(** A check before an operation. *)
Lemma session_checked {A} url (m : AM A) Q : (on_origin url = true -> session K m Q) -> session K (_ <-@ check_url url;; m) Q.
Proof.
  intros Hm. unfold check_url. case_split; [|unfold bail, abind, afail; by apply (session_fail K (AcmeFailed _))].
  intros s r s' H. by eapply Hm.
Qed.

Lemma session_modify f :
  (forall s, at_events (f s) = at_events s /\ at_records (f s) = at_records s /\ at_unsettled (f s) = at_unsettled s /\
     at_stoppable (f s) = at_stoppable s) -> session K (modify f) any.
Proof.
  intros Hf s r s' [= <- <-]. destruct (Hf s) as (-> & -> & -> & ->). split_and!; [exists []; by rewrite app_nil_r|done..].
Qed.

Lemma session_kid : session K kid any.
Proof. intros s r s' [= <- <-]. split_and!; [exists []; by rewrite app_nil_r|done..]. Qed.

Lemma session_fresh_nonce : session K (fresh_nonce dir) any.
Proof.
  intros s r s' H. unfold fresh_nonce in H. destruct (at_nonce s).
  - injection H as <- <-. split_and!; [exists []; by rewrite app_nil_r|done..].
  - refine (session_checked (new_nonce dir) _ any _ s r s' H). intros Hu. by apply session_nonce_loop.
Qed.

Lemma session_post_loop url payload retries :
  on_origin url = true -> P url payload -> session K (post_loop dir url payload retries) (fun l reply => responded l url payload reply).
Proof.
  intros Hu Hp. induction retries as [|retries IH]; cbn [post_loop].
  all: apply session_then; [apply session_fresh_nonce|]; intros nonce; case_split; [by apply session_fail|].
  all: apply session_then; [apply session_kid|]; intros k; eapply session_bind; [by apply session_await|].
  all: intros [failure|status headers body]; [by apply session_fail|].
  all: apply session_then; [by apply session_modify|]; intros _; destruct body as [body|failure]; [|by apply session_fail].
  all: destruct (status <? 400) eqn:Est; [apply session_ret; intros l (l0 & Hl & l1 & -> & Hh); exists l1, nonce, k, status; bsimp; by split_and!|].
  all: destruct (problem_fields body) as [kind detail]; case_split; [|by apply session_fail].
  - by apply session_fail.
  - eapply session_weaken; [exact IH|]. auto.
Qed.

Lemma session_post url payload : P url payload -> session K (post dir url payload) (fun l reply => responded l url payload reply).
Proof. intros Hp. apply session_checked. intros Hu. by apply session_post_loop. Qed.

Lemma session_get url : P url None -> session K (get dir url) (fun l reply => responded l url None reply).
Proof.
  intros Hp. unfold get. induction (REQUEST_TRIES - 1)%nat as [|more IH]; cbn [get_loop]; [by apply session_post|].
  eapply session_catch; [by apply session_post|..].
  - intros reply. apply session_ret. intros l (l0 & Hl & Hr). by eapply responded_mono.
  - intros error. case_split; [|by apply session_fail..]. apply session_then; [by apply session_await_any|]. intros _. exact IH.
Qed.

(** An authorization the CA answered with. *)
Definition read_from (l : list Event) (url : string) (a : Authorization) : Prop :=
  exists reply, responded l url None reply /\ parse_authorization (snd reply) = Some a.

Lemma read_from_mono l l' url a : read_from l url a -> l `prefix_of` l' -> read_from l' url a.
Proof. intros (reply & Hr & Ha) Hl. exists reply. split; [by eapply responded_mono|done]. Qed.

Lemma session_authorization url : P url None -> session K (get_authorization dir url) (fun l a => read_from l url a).
Proof.
  intros Hp. eapply session_bind; [by apply session_get|]. intros reply. unfold parsed. case_split; [|by apply session_fail].
  apply session_ret. intros l (l0 & Hl & Hr). exists reply. split; [by eapply responded_mono|done].
Qed.

(** An order the CA answered with. *)
Definition order_read (l : list Event) (url : string) (order : Order) : Prop :=
  exists reply, responded l url None reply /\ parse_order (snd reply) = Some order.

Lemma order_read_mono l l' url order : order_read l url order -> l `prefix_of` l' -> order_read l' url order.
Proof. intros (reply & Hr & Ho) Hl. exists reply. split; [by eapply responded_mono|done]. Qed.

Lemma session_order url : P url None -> session K (get_order dir url) (fun l order => order_read l url order).
Proof.
  intros Hp. eapply session_bind; [by apply session_get|]. intros reply. unfold parsed. case_split; [|by apply session_fail].
  apply session_ret. intros l (l0 & Hl & Hr). exists reply. split; [by eapply responded_mono|done].
Qed.

(** An authorization the CA is done with: deactivated, or read in a final state. *)
Definition settled (l : list Event) (url : string) : Prop :=
  (exists reply, responded l url (Some PlDeactivate) reply) \/ exists a, read_from l url a /\ au_status a <> "pending".

Lemma settled_mono l l' url : settled l url -> l `prefix_of` l' -> settled l' url.
Proof.
  intros [[reply Hr]|(a & Ha & Hs)] Hl; [left; exists reply; by eapply responded_mono|right; exists a; split; [by eapply read_from_mono|done]].
Qed.

Lemma session_deactivate url :
  P url None -> P url (Some PlDeactivate) -> session K (deactivate dir url) (fun l _ => settled l url).
Proof.
  intros Hp Hd. eapply session_catch; [by apply session_post|..].
  - intros reply. apply session_ret. intros l (l0 & Hl & Hr). left. exists reply. by eapply responded_mono.
  - intros error. eapply session_bind; [by apply session_authorization|]. intros a.
    destruct (String.eqb_spec (au_status a) "pending"); [by apply session_fail|].
    apply session_ret. intros l (l0 & Hl & Hr). right. exists a. split; [by eapply read_from_mono|done].
Qed.

Lemma session_each {A} (l : list A) f : (forall x, session K (f x) any) -> session K (each l f) any.
Proof. intros Hf. induction l as [|x l IH]; cbn [each]; [by apply session_ret|]. by apply session_then. Qed.

(** A challenge the CA offered, with its authorization. *)
Definition offered (l : list Event) (p : PendingAuth) : Prop :=
  exists a ch, read_from l (pa_url p) a /\ au_status a = "pending" /\ dns_challenge a = Some ch /\
    ch_url ch = pa_challenge_url p /\ pa_value p = challenge_value (ch_token ch) /\ pa_identifier p = au_identifier a.

Lemma offered_mono l l' p : offered l p -> l `prefix_of` l' -> offered l' p.
Proof. intros (a & ch & Ha & Hrest) Hl. exists a, ch. split; [by eapply read_from_mono|done]. Qed.

Lemma session_read_authorizations urls :
  (forall url, P url None) -> session K (read_authorizations dir urls) (fun l found => Forall (offered l) found.1.1).
Proof.
  intros Hp. induction urls as [|url urls IH]; cbn [read_authorizations]; [apply session_ret; by constructor|].
  eapply session_bind; [by apply session_authorization|]. intros a. case_split; [eapply session_weaken; [exact IH|auto]|].
  destruct (String.eqb_spec (au_status a) "pending") as [Hpend|]; cbn [negb].
  - destruct (dns_challenge a) as [ch|] eqn:Ech; [|by apply session_fail].
    eapply session_bind; [exact IH|]. intros [[pending stale] usable]. case_split; apply session_ret; intros l (l0 & Hl & Hr) (l1 & Hl1 & Ha); cbn in *.
    + eapply Forall_impl; [exact Hr|]. intros p Hoff. by eapply offered_mono.
    + constructor; [|eapply Forall_impl; [exact Hr|]; intros p Hoff; by eapply offered_mono].
      exists a, ch. split_and!; [by eapply read_from_mono|done..].
  - eapply session_bind; [exact IH|]. intros [[pending stale] usable]. apply session_ret. intros l (l0 & Hl & Hr) _. cbn in *.
    eapply Forall_impl; [exact Hr|]. intros p Hoff. by eapply offered_mono.
Qed.

Lemma session_place_order identifiers orders :
  (forall url payload, payload <> Some PlAnswer -> P url payload) ->
  session K (place_order dir identifiers orders) (fun l found => Forall (offered l) found.2).
Proof.
  intros Hp. induction orders as [|orders IH]; cbn [place_order]; [by apply session_fail|].
  apply session_then; [eapply session_any, session_post, Hp; done|]. intros reply. destruct (location reply.1); [|by apply session_fail].
  apply session_then; [unfold parsed; case_split; [by apply session_ret|by apply session_fail]|]. intros order.
  eapply session_bind; [apply session_read_authorizations; intros; by apply Hp|]. intros [[pending stale] usable]. destruct usable.
  - apply session_ret. intros l (l0 & Hl & Hr). cbn in *. eapply Forall_impl; [exact Hr|]. intros p Hoff. by eapply offered_mono.
  - apply session_then; [|intros _; eapply session_weaken; [exact IH|auto]].
    apply session_each. intros url. eapply session_any, session_deactivate; by apply Hp.
Qed.
End Requests.

(** ** An authorization that could not be settled *)

(** What holds of every event of [l2], which came after [l1], with the history that ends in it. *)
Definition segment (P : list Event -> Event -> Prop) (l1 l2 : list Event) : Prop :=
  forall l0 e l', l2 = l0 ++ e :: l' -> P (l1 ++ l0 ++ [e]) e.

Lemma segment_nil P l1 : segment P l1 [].
Proof. intros l0 e l' H. by destruct l0. Qed.

Lemma segment_one P l1 e : P (l1 ++ [e]) e -> segment P l1 [e].
Proof. intros He [|x [|]] e' l' [= <-]; done. Qed.

Lemma segment_app P l1 l2 l3 : segment P l1 l2 -> segment P (l1 ++ l2) l3 -> segment P l1 (l2 ++ l3).
Proof.
  intros H2 H3 l0 e l' H. apply app_eq_app in H as (k & [[-> Hk]|[-> Hk]]).
  - destruct k as [|x k]; cbn in Hk; simplify_eq.
    + rewrite app_nil_r in H3. specialize (H3 [] e l' eq_refl). by rewrite <- app_assoc in H3.
    + by eapply H2.
  - rewrite <- app_assoc. specialize (H3 k e l' Hk). by rewrite <- !app_assoc in H3.
Qed.

Lemma segment_impl (P Q : list Event -> Event -> Prop) l1 l2 : (forall h e, P h e -> Q h e) -> segment P l1 l2 -> segment Q l1 l2.
Proof. intros HPQ H l0 e l' Hl. by eapply HPQ, H. Qed.

Lemma await_runs {A} e (answer : list Event -> A) s :
  at_stoppable s = false -> await e answer s = (Ok (answer (at_events s ++ [e])), set_events (at_events s ++ [e]) s).
Proof. intros Hs. unfold await. cbn. by rewrite Hs. Qed.

(** What happened between two states while no shutdown can end the attempt. *)
Definition between (s s' : Attempt) (P : list Event -> Event -> Prop) (l : list Event) : Prop :=
  at_stoppable s' = false /\ at_events s' = at_events s ++ l /\ segment P (at_events s) l.

Lemma between_refl s P : at_stoppable s = false -> between s s P [].
Proof. intros Hs. split_and!; [done|by rewrite app_nil_r|apply segment_nil]. Qed.

Lemma between_trans s1 s2 s3 P l l' : between s1 s2 P l -> between s2 s3 P l' -> between s1 s3 P (l ++ l').
Proof. intros (H1 & H2 & H3) (H4 & H5 & H6). rewrite H2 in *. split_and!; [done|by rewrite H5, app_assoc|by apply segment_app]. Qed.

Lemma between_step s s' e (P : list Event -> Event -> Prop) l :
  at_stoppable s = false -> P (at_events s ++ [e]) e -> between (set_events (at_events s ++ [e]) s) s' P l -> between s s' P (e :: l).
Proof. intros Hs He Hl. eapply (between_trans _ _ _ _ [e]); [|exact Hl]. split_and!; [done|done|by apply segment_one]. Qed.

Lemma between_impl s s' (P Q : list Event -> Event -> Prop) l : (forall h e, P h e -> Q h e) -> between s s' P l -> between s s' Q l.
Proof. intros HPQ (H1 & H2 & H3). split_and!; [done|done|by eapply segment_impl]. Qed.

Section Deactivation.
Context (dir : Directory).

Definition nonce_in (reply : HttpReply) : option string := match reply with Answer _ headers _ => replay_nonce headers | Down _ => None end.

(** No nonce could be had, or nothing signed. *)
Definition unsendable (l1 l2 : list Event) (url : string) (payload : option Payload) : Prop :=
  on_origin url = false \/ on_origin (new_nonce dir) = false \/ (exists nonce, signs url nonce payload = false) \/
  exists l0 head l', l2 = l0 ++ EvNonce (new_nonce dir) head :: l' /\ nonce_in (http (l1 ++ l0 ++ [EvNonce (new_nonce dir) head])) = None.

(** Waits, requests for nonces, and requests to [url] with [payload]; a success of one of them is the answer [r]. *)
Definition sending (url : string) (payload : option Payload) (r : result (Headers * bytes) AcmeError) (h : list Event) (e : Event) : Prop :=
  match e with
  | EvNonce _ _ | EvSleep => True
  | EvPost url' _ _ payload' => url' = url /\ payload' = payload /\
      forall status headers body, http h = Answer status headers (inl body) -> status < 400 -> r = Ok (headers, body)
  | _ => False
  end.

(** The request was sent, or could not be. *)
Definition tried (l1 l2 : list Event) (url : string) (payload : option Payload) : Prop :=
  (exists nonce k, EvPost url nonce k payload ∈ l2) \/ unsendable l1 l2 url payload.

Lemma tried_more l1 l2 l3 url payload : tried l1 l2 url payload -> tried l1 (l2 ++ l3) url payload.
Proof.
  intros [(nonce & k & H)|[?|[?|[?|(l0 & head & l' & -> & Hn)]]]]; [left; exists nonce, k; apply elem_of_app; by left|right; unfold unsendable; auto..|].
  right. right. right. right. exists l0, head, (l' ++ l3). by rewrite <- app_assoc.
Qed.

Lemma nonce_loop_trace url payload r0 tries : forall head last s r s',
  at_stoppable s = false -> nonce_loop (new_nonce dir) tries head last s = (r, s') ->
  exists l, between s s' (sending url payload r0) l /\ ((0 < tries)%nat -> forall e, r = Err e -> tried (at_events s) l url payload).
Proof.
  induction tries as [|tries IH]; intros head last s r s' Hs H; cbn [nonce_loop] in H.
  { injection H as <- <-. exists []. split; [by apply between_refl|lia]. }
  unfold abind at 1 in H. rewrite await_runs in H by done. set (e := EvNonce (new_nonce dir) head) in *. set (s1 := set_events _ s) in H.
  assert (forall last', (_ <-@ (if (0 <? tries)%nat then await EvSleep (fun _ => tt) else aret tt);; nonce_loop (new_nonce dir) tries false last') s1 = (r, s') ->
    exists l, between s s' (sending url payload r0) (e :: l)) as Hagain.
  { intros last' Hx. unfold abind in Hx. destruct (0 <? tries)%nat.
    - rewrite await_runs in Hx by done. destruct (IH false last' (set_events (at_events s1 ++ [EvSleep]) s1) _ _ Hs Hx) as (l & Hl & _).
      exists (EvSleep :: l). apply between_step; [done|done|]. by apply between_step.
    - destruct (IH false last' s1 _ _ Hs Hx) as (l & Hl & _). exists l. by apply between_step. }
  assert (forall l, nonce_in (http (at_events s ++ [e])) = None -> tried (at_events s) (e :: l) url payload) as Hno.
  { intros l Hn. right. right. right. right. by exists [], head, l. }
  destruct (http (at_events s ++ [e])) as [failure|status headers body]; [|destruct (replay_nonce headers) eqn:En].
  - destruct (Hagain _ H) as (l & Hl). exists (e :: l). split; [done|]. intros _ e' _. by apply Hno.
  - injection H as <- <-. exists [e]. split; [|done]. apply between_step; [done|done|by apply between_refl].
  - destruct (Hagain _ H) as (l & Hl). exists (e :: l). split; [done|]. intros _ e' _. by apply Hno.
Qed.

Lemma fresh_nonce_trace url payload r0 s r s' :
  at_stoppable s = false -> fresh_nonce dir s = (r, s') ->
  exists l, between s s' (sending url payload r0) l /\ forall e, r = Err e -> tried (at_events s) l url payload.
Proof.
  intros Hs H. unfold fresh_nonce in H. destruct (at_nonce s).
  - injection H as <- <-. exists []. split; [|done]. split_and!; [done|by rewrite app_nil_r|apply segment_nil].
  - unfold abind, check_url in H. destruct (on_origin (new_nonce dir)) eqn:Eo.
    + destruct (nonce_loop_trace url payload r0 REQUEST_TRIES true "" s _ _ Hs H) as (l & Hl & Ht). exists l. split; [done|]. apply Ht. cbv. lia.
    + injection H as <- <-. exists []. split; [by apply between_refl|]. intros e _. right. right. by left.
Qed.

Lemma post_loop_trace url payload retries : forall s r s',
  at_stoppable s = false -> post_loop dir url payload retries s = (r, s') ->
  exists l, between s s' (sending url payload r) l /\ forall e, r = Err e -> tried (at_events s) l url payload.
Proof.
  induction retries as [|retries IH]; intros s r s' Hs H; cbn [post_loop] in H; unfold abind at 1 in H;
    destruct (fresh_nonce dir s) as [[nonce|e] s1] eqn:En; destruct (fresh_nonce_trace url payload r _ _ _ Hs En) as (l1 & Hl1 & Ht1);
    try (injection H as <- <-; exists l1; split; [done|by intros e0 _; eapply Ht1]).
  all: destruct (signs url nonce payload) eqn:Esig; cbn [negb] in H;
    [|injection H as <- <-; exists l1; split; [done|]; intros e _; right; right; right; left; by exists nonce].
  all: unfold abind at 1, kid in H; unfold abind at 1 in H; pose proof (proj1 Hl1) as Hs1; rewrite await_runs in H by done.
  all: set (e := EvPost url nonce (at_kid s1) payload) in *; set (s2 := set_events _ s1) in H.
  all: assert (forall l, tried (at_events s) (l1 ++ e :: l) url payload) as Hsent by
    (intros l; left; exists nonce, (at_kid s1); apply elem_of_app; right; by left).
  all: assert (forall s3 l, at_events s3 = at_events s2 -> at_stoppable s3 = false -> between s3 s' (sending url payload r) l ->
    (forall status headers body, http (at_events s1 ++ [e]) = Answer status headers (inl body) -> status < 400 -> r = Ok (headers, body)) ->
    exists l', between s s' (sending url payload r) l' /\ forall e0, r = Err e0 -> tried (at_events s) l' url payload) as Hgo by
    (intros s3 l He3 Hs3 (Ha & Hb & Hc) Hok; exists (l1 ++ e :: l); split; [|intros e0 _; apply Hsent];
     eapply between_trans; [exact Hl1|]; apply between_step; [done|done|]; rewrite He3 in Hb, Hc; by split_and!).
  all: destruct (http (at_events s1 ++ [e])) as [failure|status headers body];
    [injection H as <- <-; apply (Hgo s2 []); [done|done|by apply between_refl|done]|].
  all: unfold abind at 1, modify in H; set (s3 := set_nonce _ s2) in H; destruct body as [body|failure];
    [|injection H as <- <-; apply (Hgo s3 []); [done|done|by apply between_refl|done]].
  all: destruct (status <? 400) eqn:Est; [injection H as <- <-; apply (Hgo s3 []); [done|done|by apply between_refl|by intros ??? [= <- <- <-]]|].
  all: destruct (problem_fields body) as [kind detail]; cbn zeta in H; bsimp.
  all: assert (forall st hs bd, Answer status headers (inl body) = Answer st hs (inl bd) -> st < 400 -> r = Ok (hs, bd)) as Hno by
    (intros st hs bd [= <- <- <-]; lia).
  all: destruct (bool_decide _); try (injection H as <- <-; apply (Hgo s3 []); [done|done|by apply between_refl|done]).
  destruct (IH s3 _ _ Hs1 H) as (l & Hl & _). by apply (Hgo s3 l).
Qed.

Lemma post_trace url payload s r s' :
  at_stoppable s = false -> post dir url payload s = (r, s') ->
  exists l, between s s' (sending url payload r) l /\ forall e, r = Err e -> tried (at_events s) l url payload.
Proof.
  intros Hs H. unfold post, abind, check_url in H. destruct (on_origin url) eqn:Eo; [exact (post_loop_trace _ _ 3 s r s' Hs H)|].
  injection H as <- <-. exists []. split; [by apply between_refl|]. intros e _. right. by left.
Qed.

Lemma get_trace url s r s' :
  at_stoppable s = false -> get dir url s = (r, s') -> exists l, between s s' (sending url None r) l.
Proof.
  intros Hs. unfold get. revert s Hs. induction (REQUEST_TRIES - 1)%nat as [|more IH]; intros s Hs H; cbn [get_loop] in H.
  { by destruct (post_trace _ _ _ _ _ Hs H) as (l & Hl & _); exists l. }
  unfold abind at 1, atry in H. destruct (post dir url None s) as [r1 s1] eqn:Ep. destruct (post_trace _ _ _ _ _ Hs Ep) as (l & Hl & _).
  pose proof (proj1 Hl) as Hs1. destruct r1 as [reply|e]; [injection H as <- <-; by exists l|].
  assert (between s s1 (sending url None r) l) as Hl'.
  { eapply between_impl; [|exact Hl]. intros h [] He; cbn in *; try done. destruct He as (? & ? & He). split_and!; [done|done|].
    intros st hs bd Hhttp Hlow. by specialize (He _ _ _ Hhttp Hlow). }
  destruct e as [error|]; [|injection H as <- <-; by exists l]. destruct (classify error); try (injection H as <- <-; by exists l).
  unfold abind in H. rewrite await_runs in H by done. destruct (IH (set_events (at_events s1 ++ [EvSleep]) s1) Hs1 H) as (l2 & Hl2).
  exists (l ++ EvSleep :: l2). eapply between_trans; [exact Hl'|]. by apply between_step.
Qed.

(** The CA neither took a deactivation of [url] nor showed it in a final state. *)
Definition unconfirmed (url : string) (h : list Event) (e : Event) : Prop :=
  match e with
  | EvPost url' _ _ payload => url' = url -> forall status headers body, http h = Answer status headers (inl body) -> status < 400 ->
      payload <> Some PlDeactivate /\ (payload = None -> forall a, parse_authorization body = Some a -> au_status a = "pending")
  | _ => True
  end.

(** [url] was given up in [l2], after [l1]: deactivating it was tried, and nothing the CA answered said that it is settled. *)
Definition given_up (l1 l2 : list Event) (url : string) : Prop :=
  tried l1 l2 url (Some PlDeactivate) /\ segment (unconfirmed url) l1 l2.

Lemma deactivate_given_up url s e s' :
  at_stoppable s = false -> deactivate dir url s = (Err e, s') ->
  at_stoppable s' = false /\ exists l, at_events s' = at_events s ++ l /\ given_up (at_events s) l url.
Proof.
  intros Hs H. unfold deactivate, abind at 1, atry in H. destruct (post dir url (Some PlDeactivate) s) as [r1 s1] eqn:Ep.
  destruct (post_trace _ _ _ _ _ Hs Ep) as (l1 & (Hs1 & He1 & Hseg1) & Ht1). destruct r1 as [reply|e1]; [done|].
  specialize (Ht1 _ eq_refl). assert (segment (unconfirmed url) (at_events s) l1) as Hu1.
  { eapply segment_impl; [|exact Hseg1]. intros h [] He; cbn in *; try done. destruct He as (_ & _ & He). intros _ st hs bd Hhttp Hlow. by specialize (He _ _ _ Hhttp Hlow). }
  destruct e1 as [error|]; [|injection H as <- <-; split; [done|]; by exists l1].
  unfold get_authorization, abind at 1 in H. unfold abind at 1 in H. destruct (get dir url s1) as [r2 s2] eqn:Eg.
  destruct (get_trace _ _ _ _ Hs1 Eg) as (l2 & Hs2 & He2 & Hseg2).
  assert (s' = s2 /\ forall reply, r2 = Ok reply -> forall a, parse_authorization reply.2 = Some a -> au_status a = "pending") as [-> Hr2].
  { destruct r2 as [reply|e2]; [|by injection H as <- <-]. unfold parsed in H. destruct (parse_authorization reply.2) as [a|] eqn:Ea.
    - cbn in H. destruct (String.eqb_spec (au_status a) "pending"); [|done]. injection H as <- <-. split; [done|]. intros ? [= <-]. congruence.
    - injection H as <- <-. split; [done|]. intros ? [= <-]. congruence. }
  split; [done|]. exists (l1 ++ l2). rewrite He2, He1, app_assoc. split; [done|]. split; [by apply tried_more|]. apply segment_app; [done|].
  rewrite <- He1. eapply segment_impl; [|exact Hseg2]. intros h [] He; cbn in *; try done. destruct He as (_ & -> & He).
  intros _ st hs bd Hhttp Hlow. split; [done|]. intros _ a Ha. exact (Hr2 _ (He _ _ _ Hhttp Hlow) a Ha).
Qed.

(** If not all could be deactivated, one was given up. *)
Lemma deactivate_all_given_up l : forall s s',
  at_stoppable s = false -> deactivate_all dir l s = (Ok false, s') ->
  exists p l1 l2 l3, p ∈ l /\ at_events s' = at_events s ++ l1 ++ l2 ++ l3 /\ given_up (at_events s ++ l1) l2 (pa_url p).
Proof.
  induction l as [|p l IH]; intros s s' Hs H; cbn [deactivate_all] in H; [done|]. unfold abind at 1, atry in H.
  destruct (deactivate dir (pa_url p) s) as [res s1] eqn:Ed.
  destruct (session_deactivate dir (fun _ _ => True) _ I I _ _ _ Ed) as ((l1 & He1 & _) & _ & _ & Hst1 & _).
  unfold abind in H. destruct (deactivate_all dir l s1) as [[b|e] s2] eqn:Ea; [|done]. injection H as Hb <-. destruct res as [u|e].
  - subst b. destruct (IH s1 s2 ltac:(congruence) Ea) as (q & k1 & k2 & k3 & Hq & He2 & Hg). exists q, (l1 ++ k1), k2, k3.
    rewrite He2, He1, <- !app_assoc. split_and!; [by right|done|]. by rewrite He1, <- app_assoc in Hg.
  - destruct (deactivate_given_up _ _ _ _ Hs Ed) as (_ & l2 & He2 & Hg).
    assert (exists l3, at_events s2 = at_events s1 ++ l3) as [l3 He3].
    { revert Ea. clear. revert s1 s2 b. induction l as [|q l IH]; intros s1 s2 b H; cbn [deactivate_all] in H; [injection H as <- <-; exists []; by rewrite app_nil_r|].
      unfold abind at 1, atry in H. destruct (deactivate dir (pa_url q) s1) as [res s3] eqn:Ed.
      destruct (session_deactivate dir (fun _ _ => True) _ I I _ _ _ Ed) as ((k & Hk & _) & _).
      unfold abind in H. destruct (deactivate_all dir l s3) as [[b'|e] s4] eqn:Ea; [|done]. injection H as _ <-. destruct (IH _ _ _ Ea) as [k' Hk'].
      exists (k ++ k'). by rewrite Hk', Hk, app_assoc. }
    exists p, [], l2, l3. rewrite He3, He2, !app_nil_r, <- app_assoc. by split_and!; [left|..].
Qed.
End Deactivation.

(** ** What an attempt leaves behind *)

Definition plain (url : string) (payload : option Payload) : Prop := payload <> Some PlAnswer.

(** The directory the CA answered with. *)
Definition directory_read (l : list Event) (dir : Directory) : Prop :=
  exists l0 status headers body, (l0 ++ [EvDirectory]) `prefix_of` l /\ http (l0 ++ [EvDirectory]) = Answer status headers (inl body) /\
    status < 400 /\ parse_directory body = Some dir.

Lemma directory_read_mono l l' dir : directory_read l dir -> l `prefix_of` l' -> directory_read l' dir.
Proof. intros (l0 & st & hs & bd & H & Hrest) Hl. exists l0, st, hs, bd. split; [by etransitivity|done]. Qed.

Section CleanUp.
Context (dir : Directory) (pending : list PendingAuth).

(** The challenges answered so far are unsettled or settled; the records created are known; none is deleted. *)
Record in_order (s : Attempt) : Prop := mkInOrder {
  io_offered : Forall (offered (at_events s)) pending;
  io_answered : forall c n k, EvPost c n k (Some PlAnswer) ∈ at_events s ->
    exists p, p ∈ pending /\ pa_challenge_url p = c /\ (p ∈ at_unsettled s \/ settled (at_events s) (pa_url p));
  io_created : forall i name value id, at_events s !! i = Some (EvCreate name value) ->
    created (take (S i) (at_events s)) = inl id -> stops (take (S i) (at_events s)) = false ->
    mkTxtRecord name value id ∈ at_records s;
  io_deleted : forall r, EvDelete r ∉ at_events s;
}.

(** An attempt's step keeps it in order, and may be stopped. *)
Definition orderly {A} (m : AM A) : Prop :=
  forall s r s', in_order s -> at_stoppable s = true -> m s = (r, s') -> in_order s' /\ at_stoppable s' = true.

Lemma orderly_bind {A B} (m : AM A) (k : A -> AM B) : orderly m -> (forall a, orderly (k a)) -> orderly (abind m k).
Proof.
  intros Hm Hk s r s' Hs Hst H. unfold abind in H. destruct (m s) as [[a|e] s1] eqn:E.
  - destruct (Hm _ _ _ Hs Hst E). by eapply Hk.
  - injection H as <- <-. by eapply Hm.
Qed.

Lemma orderly_ret {A} (a : A) : orderly (aret a).
Proof. by intros s r s' Hs Hst [= <- <-]. Qed.
Lemma orderly_fail {A} e : orderly (@afail A e).
Proof. by intros s r s' Hs Hst [= <- <-]. Qed.

Lemma orderly_each {A} (l : list A) f : (forall x, x ∈ l -> orderly (f x)) -> orderly (each l f).
Proof.
  induction l as [|x l IH]; intros Hf; cbn [each]; [apply orderly_ret|]. apply orderly_bind; [apply Hf; left|]. intros _.
  apply IH. intros y Hy. apply Hf. by right.
Qed.

(** More of the session's events. *)
Lemma in_order_more s s' l P :
  in_order s -> at_events s' = at_events s ++ l -> at_records s' = at_records s -> Forall (session_event P) l ->
  (forall p, p ∈ at_unsettled s -> p ∈ at_unsettled s' \/ settled (at_events s') (pa_url p)) ->
  (forall url, P url (Some PlAnswer) -> exists p, p ∈ pending /\ pa_challenge_url p = url /\ p ∈ at_unsettled s') -> in_order s'.
Proof.
  intros [H1 H2 H3 H4] He Hr Hl Hu HP. rewrite Forall_forall in Hl.
  assert (at_events s `prefix_of` at_events s') as Hpre by (rewrite He; by eexists). constructor.
  - eapply Forall_impl; [exact H1|]. intros p Hp. by eapply offered_mono.
  - intros c n k Hin. rewrite He in Hin. apply elem_of_app in Hin as [Hin|Hin].
    + destruct (H2 _ _ _ Hin) as (p & Hp & Hc & [Hup|Hs]); exists p; (split_and!; [done|done|]); [by apply Hu|right; by eapply settled_mono].
    + destruct (Hl _ Hin) as [_ Hpl]. destruct (HP _ Hpl) as (p & Hp & Hc & Hup). exists p. auto.
  - intros i name value id Hi. rewrite Hr. rewrite He in *. destruct (decide (i < length (at_events s))%nat) as [Hlt|Hge].
    + rewrite lookup_app_l in Hi by done. rewrite take_app_le by lia. by apply H3.
    + rewrite lookup_app_r in Hi by lia. apply list_elem_of_lookup_2, Hl in Hi. done.
  - intros r Hin. rewrite He in Hin. apply elem_of_app in Hin as [Hin|Hin]; [by apply (H4 r)|by apply Hl in Hin].
Qed.

Lemma orderly_session {A} (m : AM A) Q : session (session_event plain) m Q -> orderly m.
Proof.
  intros Hm s r s' Hs Hst H. destruct (Hm _ _ _ H) as ((l & He & Hl) & Hr & Hu & Hst' & _). split; [|congruence].
  eapply in_order_more; [done|done|done|done|intros p; rewrite Hu; auto|]. intros url Hp. by destruct Hp.
Qed.

Lemma orderly_publish nv : orderly (publish nv).
Proof.
  intros s r s' [H1 H2 H3 H4] Hst H. unfold publish, abind, await in H. cbn in H. rewrite Hst in H. cbn in H.
  set (events := at_events s ++ [EvCreate nv.1 nv.2]) in *.
  assert (at_events s `prefix_of` events) as Hpre by (by eexists).
  assert (forall s', at_events s' = events -> at_unsettled s' = at_unsettled s ->
    (forall x, x ∈ at_records s -> x ∈ at_records s') ->
    (forall id, created events = inl id -> stops events = false -> mkTxtRecord nv.1 nv.2 id ∈ at_records s') -> in_order s') as Hadd.
  { intros s1 He Hu Hr Hnew. constructor; rewrite ?He, ?Hu.
    - eapply Forall_impl; [exact H1|]. intros p Hp. by eapply offered_mono.
    - intros c n k Hin. unfold events in Hin. apply elem_of_app in Hin as [Hin|Hin]; [|by apply list_elem_of_singleton in Hin].
      destruct (H2 _ _ _ Hin) as (p & Hp & Hc & [Hup|Hs]); exists p; (split_and!; [done|done|]); [auto|right; by eapply settled_mono].
    - intros i name value id Hi Hc Hs. destruct (decide (i < length (at_events s))%nat) as [Hlt|Hge].
      + unfold events in *. rewrite lookup_app_l in Hi by done. rewrite take_app_le in Hc, Hs by lia. eauto.
      + unfold events in Hi. rewrite lookup_app_r in Hi by lia. apply list_lookup_singleton_Some in Hi as [Hi Hev]. injection Hev as <- <-.
        assert (take (S i) events = events) as Htake by (apply take_ge; unfold events; rewrite length_app; cbn; lia).
        rewrite Htake in *. auto.
    - intros x Hin. unfold events in Hin. apply elem_of_app in Hin as [Hin|Hin]; [by apply (H4 x)|by apply list_elem_of_singleton in Hin]. }
  destruct (stops events) eqn:Es; [injection H as <- <-; split; [apply Hadd; done|done]|].
  destruct (created events) as [id|error] eqn:Ec; injection H as <- <-; cbn; (split; [apply Hadd; cbn; try done|done]).
  - intros x Hx. apply elem_of_app. by left.
  - intros id' [= <-] _. apply elem_of_app. right. by left.
Qed.

Lemma orderly_answer p : p ∈ pending -> orderly (answer dir p).
Proof.
  intros Hp s r s' Hs Hst H. unfold answer, abind, unsettled, set_unsettled, modify in H. cbn in H.
  set (s1 := mkAttempt _ _ _ _ _ _) in H.
  assert (session (session_event (fun url pl => pl = Some PlAnswer -> url = pa_challenge_url p)) (post dir (pa_challenge_url p) (Some PlAnswer))
    (fun l reply => responded l (pa_challenge_url p) (Some PlAnswer) reply)) as Hpost by (by apply session_post).
  destruct (post _ _ _ s1) as [reply s2] eqn:E. destruct (Hpost _ _ _ E) as ((l & He & Hl) & Hr & Hu & Hst' & _).
  assert (s' = s2) as -> by (destruct reply; by injection H). split; [|by rewrite Hst'].
  eapply in_order_more; [exact Hs|exact He|exact Hr|exact Hl|..].
  - intros q Hq. left. rewrite Hu. cbn. apply elem_of_app. by left.
  - intros url Hurl. exists p. split_and!; [done|by rewrite Hurl|]. rewrite Hu. cbn. apply elem_of_app. right. by left.
Qed.

(** Less is unsettled: what is gone is settled. *)
Lemma in_order_settle s l :
  in_order s -> (forall p, p ∈ at_unsettled s -> p ∈ l \/ settled (at_events s) (pa_url p)) -> in_order (snd (set_unsettled l s)).
Proof.
  intros Hs Hl. eapply (in_order_more s _ [] plain Hs); [cbn; by rewrite app_nil_r|done|constructor|done|]. intros url Hp. by destruct Hp.
Qed.

Lemma settle_pass_orderly rest : forall kept s r s',
  in_order s -> at_stoppable s = true -> at_unsettled s = kept ++ rest -> settle_pass dir kept rest s = (r, s') ->
  in_order s' /\ at_stoppable s' = true /\ forall left, r = Ok left -> at_unsettled s' = left.
Proof.
  induction rest as [|current rest IH]; intros kept s r s' Hs Hst Hu H; cbn [settle_pass] in H.
  - injection H as <- <-. split_and!; [done|done|]. intros left [= <-]. by rewrite Hu, app_nil_r.
  - unfold abind at 1 in H. destruct (get_authorization dir (pa_url current) s) as [[a|e] s1] eqn:E;
      destruct (session_authorization dir plain (pa_url current) ltac:(done) _ _ _ E) as ((l & He & Hl) & Hr & Hu1 & Hst1 & _ & Hread);
      destruct (orderly_session _ _ (session_authorization dir plain (pa_url current) ltac:(done)) _ _ _ Hs Hst E) as [Hs1 Hst1'];
      [|injection H as <- <-; by split_and!]. specialize (Hread a eq_refl). rewrite Hu in Hu1.
    assert (au_status a <> "pending" -> in_order (snd (set_unsettled (kept ++ rest) s1))) as Hdrop.
    { intros Hn. apply in_order_settle; [done|]. intros p Hp. rewrite Hu1 in Hp. apply elem_of_app in Hp as [Hp|Hp]; [left; apply elem_of_app; by left|].
      apply elem_of_cons in Hp as [->|Hp]; [right; right; by exists a|left; apply elem_of_app; by right]. }
    destruct (String.eqb_spec (au_status a) "valid") as [Hv|Hv].
    + unfold abind in H. cbn in H. eapply IH in H; [exact H| |done|done]. apply Hdrop. by rewrite Hv.
    + destruct (String.eqb_spec (au_status a) "pending") as [Hp|Hp].
      * eapply IH in H; [exact H|done|done|]. by rewrite Hu1, <- app_assoc.
      * unfold abind in H. cbn in H. injection H as <- <-. split_and!; [by apply Hdrop|done|done].
Qed.

Lemma orderly_settle_loop polls : orderly (settle_loop dir polls).
Proof.
  induction polls as [|polls IH]; intros s r s' Hs Hst H; cbn [settle_loop] in H; unfold abind at 1, unsettled at 1 in H;
    unfold abind at 1 in H; destruct (settle_pass dir [] (at_unsettled s) s) as [[left|e] s1] eqn:E;
    destruct (settle_pass_orderly (at_unsettled s) [] _ _ _ Hs Hst eq_refl E) as (Hs1 & Hst1 & _); try (injection H as <- <-; done).
  - destruct left; injection H as <- <-; done.
  - destruct left; [by injection H as <- <-|]. unfold abind in H.
    destruct (await EvSleep (fun _ => tt) s1) as [[u|e] s2] eqn:Ew;
      destruct (orderly_session _ _ (session_await_any (session_event plain) EvSleep (fun _ => tt) I) _ _ _ Hs1 Hst1 Ew) as [Hs2 Hst2].
    + by eapply IH.
    + by injection H as <- <-.
Qed.

Lemma session_order_while url status polls order :
  session (session_event plain) (order_while dir url status polls order) (fun l order' => order' = order \/ order_read l url order').
Proof.
  revert order. induction polls as [|polls IH]; intros order; cbn [order_while]; [apply session_ret; auto|]. case_split; [apply session_ret; auto|].
  apply session_then; [by apply session_await_any|]. intros _. eapply session_bind; [by apply session_order|]. intros order'.
  eapply session_weaken; [apply IH|]. cbn. intros l o [->|Ho] (l0 & Hl & Ho'); right; [by eapply order_read_mono|done].
Qed.

Lemma session_finalize url csr order :
  session (session_event plain) (finalize dir url csr order) (fun l order' => order' = order \/ order_read l url order').
Proof.
  unfold finalize. case_split; [|apply session_ret; auto]. case_split; [|by apply session_fail].
  apply session_then; [by eapply session_any, session_post|]. intros _. eapply session_weaken; [by apply session_order|]. auto.
Qed.

(** The CA's answer that [issued] was read from: the certificate of a valid order, for the request's key. *)
Definition certified (l : list Event) (order_url : string) (csr : bytes) (issued : Issued) : Prop :=
  exists order url reply pem,
    order_read l order_url order /\ or_status order = "valid" /\ or_certificate order = Some url /\
    responded l url None reply /\ from_utf8 (snd reply) = Some pem /\ chain_from_pem pem = Ok issued /\ certifies_key pem csr = true.

Lemma session_fetch order_url csr order :
  session (session_event plain) (fetch dir csr order) (fun l issued => order_read l order_url order -> certified l order_url csr issued).
Proof.
  unfold fetch. destruct (or_certificate order) as [url|] eqn:Eu; [|case_split; by apply session_fail].
  destruct (String.eqb_spec (or_status order) "valid") as [Hv|]; [|case_split; by apply session_fail].
  eapply session_bind; [by apply session_get|]. intros reply. destruct (from_utf8 reply.2) as [pem|] eqn:Ep; [|by apply session_fail].
  destruct (chain_from_pem pem) as [issued|] eqn:Ec; [|by apply session_fail].
  destruct (certifies_key pem csr) eqn:Ek; [|by apply session_fail].
  apply session_ret. intros l (l0 & Hl & Hr) Ho. exists order, url, reply, pem.
  split_and!; [done|done|done|by eapply responded_mono|done..].
Qed.

(** The end of an attempt, once its authorizations are settled. *)
Lemma session_ready order_url csr_pem :
  session (session_event plain)
    (order <-@ get_order dir order_url;;
     order <-@ order_while dir order_url "pending" 30 order;;
     match pem_der csr_pem with
     | None => bail "CSR is not PEM"
     | Some csr =>
         order <-@ finalize dir order_url csr order;;
         order <-@ order_while dir order_url "processing" 30 order;;
         fetch dir csr order
     end)
    (fun l issued => exists csr, pem_der csr_pem = Some csr /\ certified l order_url csr issued).
Proof.
  eapply session_bind; [by apply session_order|]. intros o1. eapply session_bind; [apply session_order_while|]. intros o2.
  destruct (pem_der csr_pem) as [csr|]; [|by apply session_fail]. eapply session_bind; [apply session_finalize|]. intros o3.
  eapply session_bind; [apply session_order_while|]. intros o4. eapply session_weaken; [apply (session_fetch order_url)|].
  cbn. intros l issued Hf (l4 & Hl4 & H4) (l3 & Hl3 & H3) (l2 & Hl2 & H2) (l1 & Hl1 & H1). exists csr. split; [done|]. apply Hf.
  destruct H4 as [->|H4]; [|by eapply order_read_mono]. destruct H3 as [->|H3]; [|by eapply order_read_mono].
  destruct H2 as [->|H2]; by eapply order_read_mono.
Qed.

Lemma orderly_attempt order_url csr_pem : orderly (attempt_order dir order_url csr_pem pending).
Proof.
  unfold attempt_order. apply orderly_bind; [intros s r s' Hs Hst H; unfold checkpoint in H; case_split; by injection H as <- <-|]. intros _.
  apply orderly_bind; [apply orderly_each; intros; apply orderly_publish|]. intros _.
  apply orderly_bind; [by eapply orderly_session, session_await|]. intros _.
  apply orderly_bind; [apply orderly_each; intros; by apply orderly_answer|]. intros _.
  apply orderly_bind; [apply orderly_settle_loop|]. intros _.
  eapply orderly_session, session_ready.
Qed.

Lemma session_deactivate_all l :
  session (session_event plain) (deactivate_all dir l) (fun events b => b = true -> Forall (fun p => settled events (pa_url p)) l).
Proof.
  induction l as [|p l IH]; cbn [deactivate_all]; [apply session_ret; constructor|].
  eapply session_bind; [by apply session_try, session_deactivate|]. intros res. eapply session_bind; [exact IH|]. intros rest.
  apply session_ret. intros events (l0 & Hl0 & Hrest) (l1 & Hl1 & Hres) Hb. destruct res as [u|e]; [|done]. constructor.
  - by apply (settled_mono l1).
  - eapply Forall_impl; [by apply Hrest|]. intros q Hq. by apply (settled_mono l0).
Qed.

Lemma deactivate_all_Ok l s : exists b s', deactivate_all dir l s = (Ok b, s').
Proof.
  revert s. induction l as [|p l IH]; intros s; cbn [deactivate_all]; [by eexists _, _|]. unfold abind, atry.
  destruct (deactivate dir (pa_url p) s) as [res s1]. destruct (IH s1) as (b & s2 & ->). by eexists _, _.
Qed.

Lemma delete_each rs s :
  at_stoppable s = false -> each rs delete_txt s = (Ok tt, set_events (at_events s ++ map EvDelete rs) s).
Proof.
  revert s. induction rs as [|r rs IH]; intros s Hst; cbn [each map].
  - rewrite app_nil_r. by destruct s.
  - unfold abind, delete_txt, await. cbn. rewrite Hst. cbn. rewrite IH by done. cbn. rewrite <- app_assoc. by destruct s.
Qed.

(** What is left after an attempt. *)
Definition tidy (s : Attempt) : Prop :=
  let l := at_events s in
  (forall i r, l !! i = Some (EvDelete r) -> forall c n k, EvPost c n k (Some PlAnswer) ∈ take i l ->
     exists p, offered (take i l) p /\ pa_challenge_url p = c /\ settled (take i l) (pa_url p)) /\
  ((forall i name value id, l !! i = Some (EvCreate name value) -> created (take (S i) l) = inl id -> stops (take (S i) l) = false ->
      EvDelete (mkTxtRecord name value id) ∈ l) \/
   (forall r, EvDelete r ∉ l) /\
   exists dir p l1 l2 l3, directory_read l dir /\ p ∈ at_unsettled s /\ l = l1 ++ l2 ++ l3 /\ given_up dir l1 l2 (pa_url p)).

Lemma tidy_deleted s :
  in_order s -> (forall p, p ∈ at_unsettled s -> settled (at_events s) (pa_url p)) ->
  tidy (set_events (at_events s ++ map EvDelete (at_records s)) s).
Proof.
  intros [H1 H2 H3 H4] Hall. unfold tidy. cbn. set (events := at_events s) in *. split.
  - intros i r Hi c n k Hin. destruct (decide (i < length events)%nat) as [Hlt|Hge].
    { rewrite lookup_app_l in Hi by done. apply list_elem_of_lookup_2 in Hi. by apply H4 in Hi. }
    assert (take i (events ++ map EvDelete (at_records s)) = events ++ take (i - length events) (map EvDelete (at_records s))) as Et.
    { rewrite take_app. by rewrite take_ge by lia. }
    rewrite Et in *. assert (events `prefix_of` events ++ take (i - length events) (map EvDelete (at_records s))) as Hpre by (by eexists).
    apply elem_of_app in Hin as [Hin|Hin].
    + destruct (H2 _ _ _ Hin) as (p & Hp & Hc & Hs). exists p. rewrite Forall_forall in H1.
      split_and!; [eapply offered_mono; [by apply H1|done]|done|]. eapply settled_mono; [|done]. destruct Hs as [Hu|?]; auto.
    + apply elem_of_take in Hin as (j & Hj & _). apply list_elem_of_lookup_2, list_elem_of_fmap in Hj as (x & [=] & _).
  - left. intros i name value id Hi. destruct (decide (i < length events)%nat) as [Hlt|Hge].
    + rewrite lookup_app_l in Hi by done. rewrite take_app_le by lia. intros Hc Hs. apply elem_of_app. right.
      apply list_elem_of_fmap. exists (mkTxtRecord name value id). split; [done|]. eauto.
    + rewrite lookup_app_r in Hi by lia. apply list_elem_of_lookup_2, list_elem_of_fmap in Hi as (x & [=] & _).
Qed.

Lemma tidy_kept s p l1 l2 l3 :
  in_order s -> directory_read (at_events s) dir -> p ∈ at_unsettled s -> at_events s = l1 ++ l2 ++ l3 -> given_up dir l1 l2 (pa_url p) -> tidy s.
Proof.
  intros [H1 H2 H3 H4] Hd Hp Hl Hg. split; [intros i r Hi; apply list_elem_of_lookup_2 in Hi; by apply H4 in Hi|].
  right. split; [done|]. by exists dir, p, l1, l2, l3.
Qed.

Lemma clean_up_tidy s r s' :
  in_order s -> directory_read (at_events s) dir -> at_stoppable s = false -> clean_up dir s = (r, s') -> r = Ok tt /\ tidy s'.
Proof.
  intros Hs Hd Hst H. unfold clean_up, abind, unsettled, records in H. cbn in H.
  destruct (deactivate_all_Ok (at_unsettled s) s) as (b & s1 & E). rewrite E in H.
  destruct (session_deactivate_all _ _ _ _ E) as ((l & He & Hl) & Hr & Hu & Hst1 & _ & Hb). specialize (Hb b eq_refl).
  assert (in_order s1) as Hs1.
  { eapply in_order_more; [done|done|done|done|intros p; rewrite Hu; auto|]. intros url Hp. by destruct Hp. }
  destruct b.
  - rewrite delete_each in H by congruence. injection H as <- <-. split; [done|]. apply tidy_deleted; [done|].
    specialize (Hb eq_refl). rewrite Forall_forall, <- Hu in Hb. auto.
  - injection H as <- <-. split; [done|].
    destruct (deactivate_all_given_up dir _ _ _ Hst E) as (p & l1 & l2 & l3 & Hp & He' & Hg).
    apply (tidy_kept s1 p (at_events s ++ l1) l2 l3); [done| |by rewrite Hu|by rewrite He', <- app_assoc|done].
    eapply directory_read_mono; [exact Hd|]. rewrite He. by eexists.
Qed.
End CleanUp.

(** ** A whole attempt *)

(** Before the challenge is shown. *)
Definition early (e : Event) : Prop :=
  match e with
  | EvCreate _ _ | EvDelete _ | EvChallenge _ _ => False
  | EvPost url _ _ payload => on_origin url = true /\ payload <> Some PlAnswer
  | EvNonce url _ => on_origin url = true
  | _ => True
  end.

(** After it, or where there is none: records are published and challenges answered only if one was. *)
Definition working (was_shown : bool) (e : Event) : Prop :=
  match e with
  | EvCreate _ _ => was_shown = true
  | EvChallenge _ _ => False
  | EvPost url _ _ payload => on_origin url = true /\ (payload = Some PlAnswer -> was_shown = true)
  | EvNonce url _ => on_origin url = true
  | _ => True
  end.

Lemma session_mono {A} (K K' : Event -> Prop) (m : AM A) Q : (forall e, K e -> K' e) -> session K m Q -> session K' m Q.
Proof.
  intros HK Hm s r s' H. destruct (Hm _ _ _ H) as ((l & He & Hl) & Hrest). split; [|done]. exists l. split; [done|]. by eapply Forall_impl.
Qed.

Lemma session_plain_early {A} (m : AM A) Q : session (session_event plain) m Q -> session early m Q.
Proof. apply session_mono. by intros []. Qed.

Lemma session_read_directory : session early read_directory directory_read.
Proof.
  unfold read_directory. eapply session_bind; [by apply session_await|]. intros [failure|status headers body]; [by apply session_fail|].
  destruct (400 <=? status) eqn:Est; [by apply session_fail|]. destruct body as [body|]; [|by apply session_fail].
  destruct (parse_directory body) as [dir|] eqn:Ed; [|by apply session_fail]. apply session_ret. intros l (l0 & Hl & l1 & -> & Hh).
  exists l1, status, headers, body. bsimp. split_and!; [done|by rewrite <- Hh|lia|done].
Qed.

Lemma session_register dir binding : session (session_event plain) (register dir binding) (fun _ _ => True).
Proof.
  unfold register. apply session_then; [apply session_kid|]. intros [k|]; [by apply session_ret|]. destruct binding; [|by apply session_fail].
  apply session_then; [by eapply session_any, session_post|]. intros reply. destruct (location _); [by apply session_modify|by apply session_fail].
Qed.

(** How the opening of an attempt ends: before the challenge, at one the caller refused, or after it was shown. *)
Inductive opened : list Event -> result (Directory * (string * list PendingAuth)) AcmeError -> Prop :=
| opened_failed l e : Forall early l -> opened l (Err e)
| opened_quietly l dir order : Forall early l -> directory_read l dir -> opened l (Ok (dir, (order, [])))
| opened_refused l token key e :
    Forall early l -> shown (l ++ [EvChallenge token key]) = Err e -> opened (l ++ [EvChallenge token key]) (Err (AcmeFailed e))
| opened_shown l token key dir order pending :
    Forall early l -> directory_read l dir -> shown (l ++ [EvChallenge token key]) = Ok tt -> Forall (offered l) pending ->
    opened (l ++ [EvChallenge token key]) (Ok (dir, (order, pending))).

(** An attempt that has done nothing yet. *)
Definition fresh (s : Attempt) : Prop := at_events s = [] /\ at_records s = [] /\ at_unsettled s = [] /\ at_stoppable s = false.

Lemma open_order_opened config identifiers s r s' :
  fresh s -> open_order config identifiers s = (r, s') ->
  opened (at_events s') r /\ at_records s' = [] /\ at_unsettled s' = [] /\ at_stoppable s' = false.
Proof.
  intros (H1 & H2 & H3 & H4) H.
  assert (forall e : AcmeError, (Err e, s) = (r, s') -> opened (at_events s') r /\ at_records s' = [] /\ at_unsettled s' = [] /\ at_stoppable s' = false) as Hnow.
  { intros e [= <- <-]. rewrite H1. split_and!; [by constructor|done..]. }
  unfold open_order in H. destruct (cf_key config); [|by eapply Hnow]. destruct (valid_url directory); [|by eapply Hnow]. clear Hnow.
  set (opening := dir <-@ read_directory;; _ <-@ register dir (cf_binding config);; found <-@ place_order dir identifiers ORDERS;; aret (dir, found)).
  assert (session early opening (fun l o => directory_read l o.1 /\ Forall (offered l) o.2.2)) as Hopen.
  { eapply session_bind; [apply session_read_directory|]. intros dir. apply session_then; [by apply session_plain_early, session_register|]. intros _.
    eapply session_bind; [apply session_plain_early, session_place_order; by intros|]. intros [url pending]. apply session_ret.
    intros l (l0 & Hl & Hp) (l1 & Hl1 & Hd). cbn in *. split; [by eapply directory_read_mono|].
    eapply Forall_impl; [exact Hp|]. intros p Ho. by eapply offered_mono. }
  assert ((o <-@ opening;; _ <-@ show o.2.2;; aret o) s = (r, s')) as H'.
  { rewrite <- H. unfold opening, abind. destruct (read_directory s) as [[dir|] s1]; [|done]. destruct (register _ _ s1) as [[u|] s2]; [|done].
    by destruct (place_order _ _ _ s2) as [[found|] s3]. }
  clear H. unfold abind in H'. destruct (opening s) as [[[dir [order pending]]|e] s1] eqn:E;
    destruct (Hopen _ _ _ E) as ((l & He & Hl) & Hr & Hu & Hst & _ & Hq); rewrite H1 in He; cbn in He, H'.
  2: { injection H' as <- <-. rewrite He, Hr, Hu, Hst. split_and!; [by constructor|done..]. }
  specialize (Hq _ eq_refl) as [Hdir Hq]. cbn in Hdir, Hq. rewrite He in Hdir, Hq. destruct pending as [|p pending]; unfold show, aret in H'.
  - injection H' as <- <-. rewrite He, Hr, Hu, Hst. split_and!; [by constructor|done..].
  - unfold abind, await in H'. cbn in H'. rewrite Hst, H4 in H'. cbn in H'. rewrite He in H'.
    destruct (shown (l ++ [_])) as [[]|e] eqn:Es; injection H' as <- <-; cbn; (split_and!; [by constructor|congruence..]).
Qed.

(** The events of an operation are of a kind. *)
Definition visits {A} (K : Event -> Prop) (m : AM A) : Prop :=
  forall s r s', m s = (r, s') -> exists l, at_events s' = at_events s ++ l /\ Forall K l.

Section Visits.
Context (K : Event -> Prop).

Lemma visits_none {A} (m : AM A) : (forall s, at_events (snd (m s)) = at_events s) -> visits K m.
Proof. intros Hm s r s' H. exists []. rewrite app_nil_r. split; [|done]. specialize (Hm s). by rewrite H in Hm. Qed.

Lemma visits_await {A} e (f : list Event -> A) : K e -> visits K (await e f).
Proof.
  intros He s r s' H. exists [e]. unfold await in H. cbn in H. split; [|by constructor].
  destruct (_ && _); injection H as <- <-; done.
Qed.

Lemma visits_bind {A B} (m : AM A) (k : A -> AM B) : visits K m -> (forall a, visits K (k a)) -> visits K (abind m k).
Proof.
  intros Hm Hk s r s' H. unfold abind in H. destruct (m s) as [[a|e] s1] eqn:E; destruct (Hm _ _ _ E) as (l & He & Hl).
  - destruct (Hk _ _ _ _ H) as (l' & He' & Hl'). exists (l ++ l'). rewrite He', He, app_assoc. split; [done|]. by apply Forall_app.
  - injection H as <- <-. by exists l.
Qed.

Lemma visits_each {A} (l : list A) f : (forall x, x ∈ l -> visits K (f x)) -> visits K (each l f).
Proof.
  induction l as [|x l IH]; intros Hf; cbn [each]; [by apply visits_none|]. apply visits_bind; [apply Hf; left|]. intros _.
  apply IH. intros y Hy. apply Hf. by right.
Qed.

Lemma visits_session {A} (K0 : Event -> Prop) (m : AM A) Q : (forall e, K0 e -> K e) -> session K0 m Q -> visits K m.
Proof. intros HK Hm s r s' H. destruct (Hm _ _ _ H) as ((l & He & Hl) & _). exists l. split; [done|]. by eapply Forall_impl. Qed.
End Visits.

Lemma plain_working b e : session_event plain e -> working b e.
Proof. destruct e; cbn; try done. intros [Ho Hp]. split; [done|]. intros ->. by destruct Hp. Qed.

Lemma visits_plain {A} b (m : AM A) Q : session (session_event plain) m Q -> visits (working b) m.
Proof. apply visits_session, plain_working. Qed.

Lemma visits_settle_pass b dir rest : forall kept, visits (working b) (settle_pass dir kept rest).
Proof.
  induction rest as [|p rest IH]; intros kept; cbn [settle_pass]; [by apply visits_none|].
  apply visits_bind; [by eapply visits_plain, session_authorization|]. intros a. case_split.
  - apply visits_bind; [by apply visits_none|]. intros _. apply IH.
  - case_split; [apply IH|]. apply visits_bind; [by apply visits_none|]. intros _. by apply visits_none.
Qed.

Lemma visits_settle_loop b dir polls : visits (working b) (settle_loop dir polls).
Proof.
  induction polls as [|polls IH]; cbn [settle_loop]; (apply visits_bind; [by apply visits_none|]); intros l;
    (apply visits_bind; [apply visits_settle_pass|]); intros [|p left]; try by apply visits_none.
  apply visits_bind; [by apply visits_await|]. by intros _.
Qed.

(** Whether a challenge was shown: there was one. *)
Definition challenged (pending : list PendingAuth) : bool := match pending with [] => false | _ => true end.

Lemma wanted_records_nil pending nv : nv ∈ wanted_records pending -> challenged pending = true.
Proof. destruct pending; [by intros ?%elem_of_nil|done]. Qed.

Lemma visits_attempt dir order_url csr_pem pending :
  visits (working (challenged pending)) (attempt_order dir order_url csr_pem pending).
Proof.
  unfold attempt_order. apply visits_bind; [apply visits_none; intros s; unfold checkpoint; by case_split|]. intros _.
  apply visits_bind.
  { apply visits_each. intros nv Hnv. apply visits_bind; [apply visits_await; cbn; by eapply wanted_records_nil|].
    intros [id|error]; by apply visits_none. }
  intros _. apply visits_bind; [by apply visits_await|]. intros _. apply visits_bind.
  { apply visits_each. intros p Hp. apply visits_bind; [by apply visits_none|]. intros l. apply visits_bind; [by apply visits_none|]. intros _.
    apply visits_bind; [|intros; by apply visits_none]. apply (visits_session _ (session_event (fun _ _ => True)) _ _) with (2 := session_post dir _ _ _ I).
    intros []; cbn; try done. intros [Ho _]. split; [done|]. intros _. by destruct pending; [apply elem_of_nil in Hp|]. }
  intros _. apply visits_bind; [apply visits_settle_loop|]. intros _. eapply visits_plain, session_ready.
Qed.

Lemma visits_clean_up b dir : visits (working b) (clean_up dir).
Proof.
  unfold clean_up. apply visits_bind; [by apply visits_none|]. intros l. apply visits_bind; [eapply visits_plain, session_deactivate_all|]. intros [|].
  - apply visits_bind; [by apply visits_none|]. intros rs. apply visits_each. intros x _. by apply visits_await.
  - by apply visits_none.
Qed.

(** How an attempt went: it ended while opening, or it worked on its order and cleaned up. *)
Inductive attempted (csr_pem : string) : result Issued AcmeError -> Attempt -> Prop :=
| attempted_opening e s :
    opened (at_events s) (Err e) -> at_records s = [] -> at_unsettled s = [] -> attempted csr_pem (Err e) s
| attempted_working dir order pending s1 r s2 s3 :
    opened (at_events s1) (Ok (dir, (order, pending))) -> in_order pending s1 -> at_stoppable s1 = true ->
    attempt_order dir order csr_pem pending s1 = (r, s2) -> in_order pending s2 -> directory_read (at_events s2) dir ->
    clean_up dir (snd (set_stoppable false s2)) = (Ok tt, s3) -> attempted csr_pem r s3.

Lemma in_order_same pending s s' :
  in_order pending s -> at_events s' = at_events s -> at_records s' = at_records s -> at_unsettled s' = at_unsettled s -> in_order pending s'.
Proof. intros [H1 H2 H3 H4] E1 E2 E3. constructor; by rewrite ?E1, ?E2, ?E3. Qed.

(** An opened attempt starts in order. *)
Lemma opened_in_order s dir order pending :
  opened (at_events s) (Ok (dir, (order, pending))) -> at_records s = [] -> in_order pending s.
Proof.
  intros Ho Hr.
  assert (Forall (fun e => early e \/ exists t k, e = EvChallenge t k) (at_events s) /\ Forall (offered (at_events s)) pending) as [Hl Hoff].
  { inversion Ho as [|l ? ? Hl Hdir Heq|? ? ? ? ? ? Heq|l t k ? ? ? Hl Hdir Hs Hoff Heq]; subst.
    - split; [|constructor]. eapply Forall_impl; [exact Hl|]. auto.
    - split.
      + apply Forall_app. split; [eapply Forall_impl; [exact Hl|]; auto|]. constructor; [right; by eexists _, _|constructor].
      + eapply Forall_impl; [exact Hoff|]. intros p Hp. eapply offered_mono; [done|by eexists]. }
  rewrite Forall_forall in Hl. constructor; [done|..].
  - intros c n k [Hp|(? & ? & ?)]%Hl; [by destruct Hp|done].
  - intros i name value id [Hp|(? & ? & ?)]%list_elem_of_lookup_2%Hl; done.
  - intros x [Hp|(? & ? & ?)]%Hl; done.
Qed.

Lemma opened_directory l dir order pending : opened l (Ok (dir, (order, pending))) -> directory_read l dir.
Proof.
  intros Ho. inversion Ho as [|? ? ? Hl Hdir|?|? t k ? ? ? Hl Hdir Hs Hoff]; subst; [done|]. eapply directory_read_mono; [done|by eexists].
Qed.

Lemma issue_attempted config identifiers csr_pem s r s' :
  fresh s -> issue config identifiers csr_pem s = (r, s') -> attempted csr_pem r s'.
Proof.
  intros Hf H. pose proof Hf as (H1 & H2 & H3 & H4).
  assert (forall e : AcmeError, (Err e, s) = (r, s') -> attempted csr_pem r s') as Hnow.
  { intros e [= <- <-]. constructor; [rewrite H1; by constructor|done..]. }
  unfold issue in H. case_split; [by eapply Hnow|]. case_split; [by eapply Hnow|]. destruct (stops (at_events s)); [by eapply Hnow|]. clear Hnow.
  unfold abind at 1 in H. destruct (open_order config identifiers s) as [[[dir [order pending]]|e] s1] eqn:Eo;
    destruct (open_order_opened _ _ _ _ _ Hf Eo) as (Ho & Hr & Hu & Hst); [|injection H as <- <-; by constructor].
  unfold abind at 1, set_stoppable at 1, modify at 1 in H. set (s2 := mkAttempt _ _ _ _ _ _) in H.
  unfold abind at 1, atry in H. destruct (attempt_order dir order csr_pem pending s2) as [result s3] eqn:Ea.
  assert (in_order pending s2) as Hs2 by (eapply in_order_same; [by eapply opened_in_order|done..]).
  destruct (orderly_attempt dir pending order csr_pem _ _ _ Hs2 eq_refl Ea) as [Hs3 _].
  assert (directory_read (at_events s3) dir) as Hd.
  { destruct (visits_attempt _ _ _ _ _ _ _ Ea) as (l & -> & _). eapply directory_read_mono; [by eapply opened_directory|by eexists]. }
  unfold abind at 1 in H. cbn in H. unfold abind in H. destruct (clean_up dir _) as [c s4] eqn:Ec.
  edestruct (clean_up_tidy dir pending) as [Hc _]; [..|exact Ec|]; [by eapply in_order_same|done|done|]. subst c.
  assert (r = result /\ s' = s4) as [-> ->] by (destruct result; by injection H as <- <-).
  by eapply (attempted_working _ dir order pending s2).
Qed.

(** The history of an attempt, around the challenge it showed. *)
Inductive history (r : result Issued AcmeError) : list Event -> Prop :=
| history_unshown l l' : Forall early l -> Forall (working false) l' -> history r (l ++ l')
| history_refused l token key e :
    Forall early l -> shown (l ++ [EvChallenge token key]) = Err e -> r = Err (AcmeFailed e) -> history r (l ++ [EvChallenge token key])
| history_shown l token key l' :
    Forall early l -> shown (l ++ [EvChallenge token key]) = Ok tt -> Forall (working true) l' ->
    history r ((l ++ [EvChallenge token key]) ++ l').

Lemma working_weaken b e : working b e -> working true e.
Proof. destruct e; cbn; auto. by intros [? ?]. Qed.

Lemma attempted_history csr_pem r s : attempted csr_pem r s -> history r (at_events s).
Proof.
  intros [e s0 Ho Hr Hu|dir order pending s1 r0 s2 s3 Ho Hs1 Hst Ha Hs2 Hd Hc].
  - inversion Ho as [l ? Hl| |l t k ? Hl Hs|]; subst; [|by apply (history_refused _ l t k e0)]. rewrite <- (app_nil_r (at_events s0)). by constructor.
  - destruct (visits_attempt _ _ _ _ _ _ _ Ha) as (l1 & He1 & Hl1).
    destruct (visits_clean_up (challenged pending) _ _ _ _ Hc) as (l2 & He2 & Hl2). cbn in He2. rewrite He1, <- app_assoc in He2. rewrite He2.
    assert (Forall (working (challenged pending)) (l1 ++ l2)) as Hall by (by apply Forall_app).
    inversion Ho as [|l ? ? Hl Hdir|?|l t k ? ? ? Hl Hdir Hs Hoff]; subst; [by constructor|].
    constructor; [done..|]. eapply Forall_impl; [exact Hall|]. apply working_weaken.
Qed.

(** ** What an attempt promises *)

(** A step that succeeded, and what follows it. *)
Lemma abind_Ok {A B} (m : AM A) (k : A -> AM B) s b s' : abind m k s = (Ok b, s') -> exists a s1, m s = (Ok a, s1) /\ k a s1 = (Ok b, s').
Proof. unfold abind. destruct (m s) as [[a|e] s1]; [|done]. intros H. by exists a, s1. Qed.

Lemma settle_loop_settles dir pending polls s s' :
  in_order pending s -> at_stoppable s = true -> settle_loop dir polls s = (Ok tt, s') -> at_unsettled s' = [].
Proof.
  revert s. induction polls as [|polls IH]; intros s Hs Hst H; cbn [settle_loop] in H; unfold abind at 1, unsettled at 1 in H;
    apply abind_Ok in H as (left & s1 & E & H); destruct (settle_pass_orderly dir pending (at_unsettled s) [] _ _ _ Hs Hst eq_refl E) as (Hs1 & Hst1 & Hl);
    specialize (Hl _ eq_refl); destruct left; try (injection H as <-; done).
  - by injection H.
  - apply abind_Ok in H as (u & s2 & Ew & H).
    destruct (orderly_session pending _ _ (session_await_any (session_event plain) EvSleep (fun _ => tt) I) _ _ _ Hs1 Hst1 Ew). by eapply IH.
Qed.

Lemma attempt_certified dir order_url csr_pem pending s issued s' :
  in_order pending s -> at_stoppable s = true -> attempt_order dir order_url csr_pem pending s = (Ok issued, s') ->
  at_unsettled s' = [] /\ exists csr, pem_der csr_pem = Some csr /\ certified (at_events s') order_url csr issued.
Proof.
  intros Hs Hst H. unfold attempt_order in H.
  apply abind_Ok in H as (u1 & s1 & E1 & H). assert (s1 = s) as -> by (unfold checkpoint in E1; case_split; by injection E1).
  apply abind_Ok in H as (u2 & s2 & E2 & H).
  destruct (orderly_each pending _ _ (fun nv _ => orderly_publish pending nv) _ _ _ Hs Hst E2) as [Hs2 Hst2].
  apply abind_Ok in H as (u3 & s3 & E3 & H).
  destruct (orderly_session pending _ _ (session_await_any (session_event plain) EvPropagation (fun _ => tt) I) _ _ _ Hs2 Hst2 E3) as [Hs3 Hst3].
  apply abind_Ok in H as (u4 & s4 & E4 & H).
  destruct (orderly_each pending _ _ (fun p Hp => orderly_answer dir pending p Hp) _ _ _ Hs3 Hst3 E4) as [Hs4 Hst4].
  apply abind_Ok in H as ([] & s5 & E5 & H). pose proof (settle_loop_settles _ _ _ _ _ Hs4 Hst4 E5) as Hu.
  destruct (session_ready dir order_url csr_pem _ _ _ H) as (_ & _ & Hu' & _ & _ & Hq). split; [congruence|]. by apply Hq.
Qed.

Lemma clean_up_unsettled dir s r s' :
  at_stoppable s = false -> clean_up dir s = (r, s') -> at_unsettled s' = at_unsettled s /\ at_events s `prefix_of` at_events s'.
Proof.
  intros Hst H. split; [|destruct (visits_clean_up true _ _ _ _ H) as (l & -> & _); by eexists].
  unfold clean_up, abind, unsettled, records in H. cbn in H. destruct (deactivate_all dir (at_unsettled s) s) as [b s1] eqn:E.
  destruct (session_deactivate_all dir _ _ _ _ E) as (_ & _ & Hu & Hst' & _). destruct b as [[]|]; [|by injection H as <- <-..].
  rewrite delete_each in H by congruence. by injection H as <- <-.
Qed.

(** C12: an attempt never takes a challenge record away while the CA may still check it: whenever a record is deleted, every
    authorization whose challenge was answered had been deactivated or read in a final state before. And it leaves nothing
    behind: every record it created, whose creation it learnt, is deleted, unless some authorization was given up, in which case none
    is: its deactivation was sent, or had no nonce or signature or a URL elsewhere, and from then until the attempt went on to the
    next one the CA neither took a deactivation nor showed the authorization in a final state. That holds however the CA, the DNS
    provider and a shutdown behave. *)
Theorem records_cleaned_up config identifiers csr_pem s r s' :
  fresh s -> issue config identifiers csr_pem s = (r, s') -> tidy s'.
Proof.
  intros Hf H. destruct (issue_attempted _ _ _ _ _ _ Hf H) as [e s0 Ho Hr Hu|dir order pending s1 r0 s2 s3 Ho Hs1 Hst Ha Hs2 Hd Hc].
  - assert (forall x, x ∈ at_events s0 -> early x \/ exists t k, x = EvChallenge t k) as Hq.
    { inversion Ho as [l ? Hl| |l t k ? Hl Hs|]; subst; intros x Hx; rewrite Forall_forall in Hl; [auto|].
      apply elem_of_app in Hx as [Hx|Hx]; [auto|]. apply list_elem_of_singleton in Hx as ->. right. by eexists _, _. }
    split.
    + intros i x Hi. apply list_elem_of_lookup_2, Hq in Hi as [?|(? & ? & ?)]; done.
    + left. intros i name value id Hi. apply list_elem_of_lookup_2, Hq in Hi as [?|(? & ? & ?)]; done.
  - eapply (clean_up_tidy dir pending); [..|exact Hc]; [by eapply in_order_same|done|done].
Qed.

(** whatever URLs the CA names, an attempt sends no request outside its directory's origin. *)
Theorem requests_same_origin config identifiers csr_pem s r s' url :
  fresh s -> issue config identifiers csr_pem s = (r, s') ->
  (exists head, EvNonce url head ∈ at_events s') \/ (exists nonce k payload, EvPost url nonce k payload ∈ at_events s') ->
  on_origin url = true.
Proof.
  intros Hf H Hin. pose proof (attempted_history _ _ _ (issue_attempted _ _ _ _ _ _ Hf H)) as Hh.
  assert (forall x, x ∈ at_events s' -> early x \/ working true x \/ exists t k, x = EvChallenge t k) as Hq.
  { inversion Hh as [l l' Hl Hl'|l t k ? Hl|l t k l' Hl Hs Hl']; intros x Hx; rewrite !Forall_forall in *; rewrite !elem_of_app in Hx;
      rewrite ?list_elem_of_singleton in Hx; naive_solver eauto using working_weaken. }
  destruct Hin as [[head Hx]|(nonce & k & payload & Hx)]; apply Hq in Hx as [Hx|[Hx|(? & ? & ?)]]; try done; apply Hx.
Qed.

(** Publishing a record, or answering a challenge. *)
Definition publishes (e : Event) : bool :=
  match e with EvCreate _ _ | EvPost _ _ _ (Some PlAnswer) => true | _ => false end.

Lemma early_unpublished e : early e -> publishes e = false /\ forall t k, e <> EvChallenge t k.
Proof. destruct e as [| |url nonce k [[]|]|? ?|? ?| | |?]; cbn; try done. by intros [? []]. Qed.

Lemma working_unpublished b e : working b e -> (publishes e = true -> b = true) /\ forall t k, e <> EvChallenge t k.
Proof. destruct e as [| |url nonce k [[]|]|? ?|? ?| | |?]; cbn; try done. intros [? Hb]. split; [|done]. intros _. by apply Hb. Qed.

(** A list split at an element it has once. *)
Lemma split_at_once {A} (l1 l2 la lb : list A) x y :
  l1 ++ x :: l2 = la ++ y :: lb -> (x = y /\ l1 = la /\ l2 = lb) \/ (x ∈ la) \/ x ∈ lb /\ exists lb', l1 = la ++ y :: lb'.
Proof.
  intros H. apply app_eq_app in H as ([|z l] & [[H1 H2]|[H1 H2]]); rewrite ?app_nil_r in H1; subst; cbn in H2; simplify_eq; auto.
  - right. right. split; [apply elem_of_app; right; by left|by eexists].
  - right. left. apply elem_of_app. right. by left.
Qed.

(** an attempt shows its challenge before it does anything with it: no record is published and no challenge answered
    before the caller has accepted one. It shows one at most, with nothing published before; if the caller refuses it (a
    lost lease, a full disk), the attempt ends there, with the caller's error. *)
Theorem challenge_shown_first config identifiers csr_pem s r s' :
  fresh s -> issue config identifiers csr_pem s = (r, s') ->
  (forall l1 e l2, at_events s' = l1 ++ e :: l2 -> publishes e = true ->
     exists la token key lb, l1 = la ++ EvChallenge token key :: lb /\ shown (la ++ [EvChallenge token key]) = Ok tt) /\
  (forall l1 token key l2, at_events s' = l1 ++ EvChallenge token key :: l2 ->
     Forall early l1 /\ (forall token' key', EvChallenge token' key' ∉ l2) /\
     forall e, shown (l1 ++ [EvChallenge token key]) = Err e -> l2 = [] /\ r = Err (AcmeFailed e)).
Proof.
  intros Hf H. pose proof (attempted_history _ _ _ (issue_attempted _ _ _ _ _ _ Hf H)) as Hh.
  inversion Hh as [l l' Hl Hl' Heq|l t k e0 Hl Hs Hr Heq|l t k l' Hl Hs Hl' Heq]; rewrite Forall_forall in Hl; try rewrite Forall_forall in Hl'.
  - assert (forall x, x ∈ l ++ l' -> publishes x = false /\ forall t k, x <> EvChallenge t k) as Hnone.
    { intros x [Hx%Hl%early_unpublished|Hx%Hl'%working_unpublished]%elem_of_app; [done|]. destruct (publishes x); naive_solver. }
    split.
    + intros l1 x l2 E Hx. destruct (Hnone x) as [? _]; [rewrite E; apply elem_of_app; right; by left|congruence].
    + intros l1 t k l2 E. destruct (Hnone (EvChallenge t k)) as [_ Hn]; [rewrite E; apply elem_of_app; right; by left|by destruct (Hn t k)].
  - split.
    + intros l1 x l2 E Hx. rewrite <- ?app_assoc in E. symmetry in E. apply split_at_once in E as [(-> & -> & ->)|[Hin|[Hin _]]]; [done|..|by apply elem_of_nil in Hin].
      apply Hl, early_unpublished in Hin as [? _]. congruence.
    + intros l1 token key l2 E. rewrite <- ?app_assoc in E. symmetry in E. apply split_at_once in E as [([= -> ->] & -> & ->)|[Hin|[Hin _]]]; [|exfalso|by apply elem_of_nil in Hin].
      * split_and!; [by rewrite Forall_forall|by intros ? ? ?%elem_of_nil|]. intros e He. split; [done|]. congruence.
      * apply Hl, early_unpublished in Hin as [_ Hn]. by eapply Hn.
  - split.
    + intros l1 x l2 E Hx. rewrite <- ?app_assoc in E. symmetry in E. apply split_at_once in E as [(-> & -> & ->)|[Hin|[Hin [lb ->]]]]; [done|..|by eexists _, _, _, _].
      apply Hl, early_unpublished in Hin as [? _]. congruence.
    + intros l1 token key l2 E. rewrite <- ?app_assoc in E. symmetry in E. apply split_at_once in E as [([= -> ->] & -> & ->)|[Hin|[Hin _]]]; [|exfalso|exfalso].
      * split_and!; [by rewrite Forall_forall| |intros e He; congruence]. intros t' k' Hin. apply Hl', working_unpublished in Hin as [_ Hn]. by eapply Hn.
      * apply Hl, early_unpublished in Hin as [_ Hn]. by eapply Hn.
      * apply Hl', working_unpublished in Hin as [_ Hn]. by eapply Hn.
Qed.

(** an attempt that succeeds returns the certificate the CA answered with for its order, which the CA called valid, for
    the public key of the request; its authorizations are settled, and every challenge record it created is deleted. *)
Theorem issued_certificate config identifiers csr_pem s issued s' :
  fresh s -> issue config identifiers csr_pem s = (Ok issued, s') ->
  (exists order_url csr, pem_der csr_pem = Some csr /\ certified (at_events s') order_url csr issued) /\
  forall i name value id, at_events s' !! i = Some (EvCreate name value) -> created (take (S i) (at_events s')) = inl id ->
    stops (take (S i) (at_events s')) = false -> EvDelete (mkTxtRecord name value id) ∈ at_events s'.
Proof.
  intros Hf H. pose proof (issue_attempted _ _ _ _ _ _ Hf H) as Hat.
  inversion Hat as [|dir order pending s1 r0 s2 s3 Ho Hs1 Hst Ha Hs2 Hd Hc]; subst.
  destruct (attempt_certified _ _ _ _ _ _ _ Hs1 Hst Ha) as [Hu (csr & Hcsr & Hcert)].
  destruct (clean_up_unsettled dir (snd (set_stoppable false s2)) _ _ eq_refl Hc) as [Hu' Hpre]. cbn in Hu', Hpre. split.
  - exists order, csr. split; [done|]. destruct Hcert as (o & url & reply & pem & Hor & Hv & Hcu & Hr & Hrest). exists o, url, reply, pem.
    split_and!; [by eapply order_read_mono|done|done|by eapply responded_mono|apply Hrest..].
  - edestruct (clean_up_tidy dir pending) as [_ [_ [Hdel|(_ & ? & p & ? & ? & ? & _ & Hp & _)]]]; [..|exact Hc|exact Hdel|];
      [by eapply in_order_same|done|done|]. rewrite Hu', Hu in Hp. by apply elem_of_nil in Hp.
Qed.
End Acme.

(** ** Concrete runs *)
Module AcmeDemo.

(** A CA on one origin: an order "co1" of one authorization "ca1", valid once its challenge "cc1" was answered. A body is
    the tag of what it stands for. *)
Definition answered (l : list Event) : bool :=
  existsb (fun e => match e with EvPost _ _ _ (Some PlAnswer) => true | _ => false end) l.
Definition finalized (l : list Event) : bool :=
  existsb (fun e => match e with EvPost _ _ _ (Some (PlFinalize _)) => true | _ => false end) l.
Definition demo_reply (at_url : option string) (tag : Z) : HttpReply := Answer 200 (mkHeaders (Some "n") at_url None) (inl [tag]).

Definition demo_http (l : list Event) : HttpReply :=
  match last l with
  | Some EvDirectory => demo_reply None 1
  | Some (EvPost url _ _ payload) =>
      match payload with
      | Some PlAccount => demo_reply (Some "cu1") 0
      | Some (PlOrder _) => demo_reply (Some "co1") 2
      | Some _ => demo_reply None 0
      | None =>
          if String.eqb url "ca1" then demo_reply None (if answered l then 4 else 3)
          else if String.eqb url "co1" then demo_reply None (if finalized l then 6 else 5)
          else demo_reply None 65
      end
  | _ => demo_reply None 0
  end.

Definition demo_directory (body : bytes) : option Directory :=
  match body with [1] => Some (mkDirectory "cn" "cu" "co") | _ => None end.
Definition demo_order (body : bytes) : option Order :=
  match body with
  | [2] => Some (mkOrder "pending" ["ca1"] None None)
  | [5] => Some (mkOrder "ready" ["ca1"] (Some "cf1") None)
  | [6] => Some (mkOrder "valid" ["ca1"] None (Some "ct1"))
  | _ => None
  end.
Definition demo_authorization (body : bytes) : option Authorization :=
  let challenges := [mkAcmeChallenge "dns-01" "cc1" "t" "pending" None] in
  match body with
  | [3] => Some (mkAuthorization "pending" "x.test" challenges)
  | [4] => Some (mkAuthorization "valid" "x.test" challenges)
  | _ => None
  end.
Definition demo_issued : Issued := mkIssued "A" "" "2030".
Definition demo_origin (url : string) : option string := match url with String c _ => Some (String c "") | _ => None end.
Definition demo_failure (n : Z) : HttpFailure := mkHttpFailure None false false true false false "down".
Definition demo_start : Attempt := mkAttempt [] None None false [] [].

Abbreviation demo f := (f demo_http (fun _ => inl (Some "r1")) (fun _ => Ok tt) (fun _ => false) "cd" (fun _ => true) "" demo_origin
  demo_directory demo_order demo_authorization (fun _ => ("", "")) (fun _ _ => "") (fun _ _ _ => true) (fun token => token)
  (fun _ => Some [7]) (fun _ => Ok demo_issued) (fun _ _ => true) demo_failure (fun _ => demo_failure 0) (fun _ => "")
  (mkConfig true true (Ok tt) (Ok tt)) ["x.test"] "csr").

Definition demo_end : Attempt := Eval vm_compute in snd (demo issue demo_start).

Lemma demo_fresh : fresh demo_start.
Proof. repeat split. Qed.

Lemma demo_runs : demo issue demo_start = (Ok demo_issued, demo_end).
Proof. vm_compute. reflexivity. Qed.

Lemma records_cleaned_up_witness :
  tidy demo_http (fun _ => inl (Some "r1")) (fun _ => false) "cd" demo_origin demo_directory demo_authorization (fun _ _ _ => true)
    (fun token => token) demo_end.
Proof. exact (demo records_cleaned_up demo_start (Ok demo_issued) demo_end demo_fresh demo_runs). Defined.

Lemma requests_same_origin_witness : on_origin "cd" demo_origin "cc1" = true.
Proof.
  apply (demo requests_same_origin demo_start (Ok demo_issued) demo_end "cc1" demo_fresh demo_runs).
  right. exists "n", (Some "cu1"), (Some PlAnswer). apply (list_elem_of_lookup_2 _ 8). reflexivity.
Defined.

Lemma challenge_shown_first_witness :
  exists la token key lb, take 6 (at_events demo_end) = la ++ EvChallenge token key :: lb.
Proof.
  destruct (demo challenge_shown_first demo_start (Ok demo_issued) demo_end demo_fresh demo_runs) as [H _].
  destruct (H (take 6 (at_events demo_end)) (EvCreate "_acme-challenge.x.test" "t") (drop 7 (at_events demo_end))) as (la & token & key & lb & Hl & _).
  - reflexivity.
  - reflexivity.
  - exists la, token, key, lb. exact Hl.
Defined.

Lemma issued_certificate_witness :
  EvDelete (mkTxtRecord "_acme-challenge.x.test" "t" (Some "r1")) ∈ at_events demo_end.
Proof.
  apply (proj2 (demo issued_certificate demo_start demo_issued demo_end demo_fresh demo_runs) 6%nat); reflexivity.
Defined.
End AcmeDemo.
