(* ===== verification/ClientTunnel.v ===== *)
(** * ClientTunnel: a running tunnel on the client, [crates/opentunnel/src/tunnel.rs]

    The supervisor runs one bridge session after another; a session reads the bridge, starts a task per public connection
    and reports what happens; a task carries one connection. The socket, the tasks' ends, the clock, the user's routes and
    a shutdown are the inputs of a session, in any order. TLS, the targets' sockets and JSON are parameters. *)

From Stdlib Require Import ZArith Lia Ascii String List.
From stdpp Require Import base list strings gmap.
From S2P Require Import Prelude Text Names ProxyHeader Frames ClientApi.

Definition MAX_CONNS : nat := 256.
#[global] Arguments MAX_CONNS : simpl never.
Definition CERTIFICATE_CHECK_FRESH : Z := 12 * 60 * 60 * 1000.
Definition CERTIFICATE_CHECK_DUE : Z := 60 * 1000.
Definition RENEWAL_WINDOW : Z := 30 * 24 * 60 * 60 * 1000.
Definition RECONNECT_BACKOFF_MIN_MS : Z := 250.
Definition RECONNECT_BACKOFF_MAX_MS : Z := 30000.
Definition UPSTREAM_CONNECT_FAILED : string := "upstream_connect_failed".
Definition UPSTREAM_IO_ERROR : string := "upstream_io_error".

(** A [BTreeMap] from route names to routes, in its order. *)
Definition Routes : Type := list (string * Route).
Definition keys (routes : Routes) : list string := map fst routes.
Fixpoint route_at (routes : Routes) (name : string) : option Route :=
  match routes with
  | [] => None
  | (n, r) :: routes' => if String.eqb n name then Some r else route_at routes' name
  end.

Inductive TunnelEvent :=
| Connecting (attempt : Z)
| Connected (session : string) (routes : list string)
| Disconnected (reason : string)
| Reconnecting (attempt delay_ms : Z)
| ConnectionOpened (conn : Z) (route peer : string)
| ConnectionClosed (conn : Z) (route : string) (error : option string)
| CertificateRenewed (expiry : string)
| Stopped (error : option string).

Inductive State := StWaitingRoutes | StConnecting | StConnected | StReconnecting | StStopped.

Record Status := mkStatus {
  su_state : State;
  su_routes : Routes;
  su_session : option string;
  su_connections : nat;
  su_last_error : option string;
  su_connected_at : option Z;
}.

(** The errors a session can end with; the others of [Error] are [TunnelOther], by their text. *)
Inductive TunnelError := TunnelAttach (code : string) | TunnelInvalid (text : string) | TunnelOther (text : string).
Definition error_text (e : TunnelError) : string :=
  match e with
  | TunnelAttach code => "bridge attach failed: " +:+ code
  | TunnelInvalid text | TunnelOther text => text
  end.

Inductive SessionEnd :=
| EndShutdown
| EndRoutesChanged
| EndFatal (error : TunnelError)
| EndRetry (error : string) (attached : bool).

Definition retry (error : string) : SessionEnd := EndRetry error true.

(** ** A session *)

Inductive Inbound := InData (payload : bytes) | InEnd.

(** The task of a connection: what it was started with, what was queued for it, and whether it was aborted. *)
Record Task := mkTask {
  ta_conn : Z;
  ta_target : string;
  ta_preamble : option bytes;
  ta_inbound : list Inbound;
  ta_aborted : bool;
}.

Record Channel := mkChannel { cn_route : string; cn_task : nat }.

Record Session := mkSession {
  se_channels : gmap Z Channel;
  se_tasks : gmap nat Task;
  se_next_task : nat;
  se_targets : Routes;
  se_status : Status;
  se_events : list TunnelEvent;
  se_controls : list ClientMessage;
  se_last_received : Z;
}.

(** How a queue took an item: it fit or was made room for in time, its task is gone, or it stayed full. *)
Inductive Queued := Queue | QueueClosed | QueueFull.

Inductive WsMessage := MBinary (frame : bytes) | MText (text : string) | MClose (frame : option (Z * string)) | MOther.

Inductive Input :=
| InMessage (now : Z) (message : WsMessage) (queued : Queued)
| InSocketError (error : string)
| InSocketEnd
| InTaskEnded (task : nat) (finished : option (option string))
| InHeartbeat (now : Z)
| InRoutes (next : option Routes)
| InShutdown.

Definition set_channels (c : gmap Z Channel) (s : Session) : Session :=
  mkSession c (se_tasks s) (se_next_task s) (se_targets s) (se_status s) (se_events s) (se_controls s) (se_last_received s).
Definition set_tasks (t : gmap nat Task) (s : Session) : Session :=
  mkSession (se_channels s) t (se_next_task s) (se_targets s) (se_status s) (se_events s) (se_controls s) (se_last_received s).
Definition set_targets (r : Routes) (s : Session) : Session :=
  mkSession (se_channels s) (se_tasks s) (se_next_task s) r (se_status s) (se_events s) (se_controls s) (se_last_received s).
Definition set_status (f : Status -> Status) (s : Session) : Session :=
  mkSession (se_channels s) (se_tasks s) (se_next_task s) (se_targets s) (f (se_status s)) (se_events s) (se_controls s) (se_last_received s).
Definition emit (e : TunnelEvent) (s : Session) : Session :=
  mkSession (se_channels s) (se_tasks s) (se_next_task s) (se_targets s) (se_status s) (se_events s ++ [e]) (se_controls s) (se_last_received s).
Definition control (m : ClientMessage) (s : Session) : Session :=
  mkSession (se_channels s) (se_tasks s) (se_next_task s) (se_targets s) (se_status s) (se_events s) (se_controls s ++ [m]) (se_last_received s).
Definition received (now : Z) (s : Session) : Session :=
  mkSession (se_channels s) (se_tasks s) (se_next_task s) (se_targets s) (se_status s) (se_events s) (se_controls s) now.

Definition set_connections (n : nat) (u : Status) : Status :=
  mkStatus (su_state u) (su_routes u) (su_session u) n (su_last_error u) (su_connected_at u).
Definition set_su_routes (r : Routes) (u : Status) : Status :=
  mkStatus (su_state u) r (su_session u) (su_connections u) (su_last_error u) (su_connected_at u).

Definition count_connections (s : Session) : Session := set_status (set_connections (size (se_channels s))) s.

(** [AbortHandle::abort]; a task that ended already has no entry. *)
Definition abort (task : nat) (s : Session) : Session :=
  set_tasks (alter (fun t => mkTask (ta_conn t) (ta_target t) (ta_preamble t) (ta_inbound t) true) task (se_tasks s)) s.

(** Queues an item for a connection's task. *)
Definition queue (task : nat) (item : Inbound) (s : Session) : Session :=
  set_tasks (alter (fun t => mkTask (ta_conn t) (ta_target t) (ta_preamble t) (ta_inbound t ++ [item]) (ta_aborted t)) task (se_tasks s)) s.

Definition stalled (conn : Z) (s : Session) : Session :=
  match se_channels s !! conn with
  | None => s
  | Some channel =>
      let s := abort (cn_task channel) (set_channels (delete conn (se_channels s)) s) in
      let s := count_connections (control (CReset conn UPSTREAM_IO_ERROR) s) in
      emit (ConnectionClosed conn (cn_route channel) (Some "local connection stalled")) s
  end.

(** Data or an end for a connection, through [deliver]. *)
Definition deliver (conn : Z) (item : Inbound) (queued : Queued) (s : Session) : Session :=
  match se_channels s !! conn with
  | None => s
  | Some channel =>
      match queued with
      | Queue => queue (cn_task channel) item s
      | QueueClosed => s
      | QueueFull => stalled conn s
      end
  end.

Section Session.
(** [serde_json::from_str], and the tunnel's hostname. *)
Context (from_str : string -> option Json) (hostname : string).

Definition start_task (conn : Z) (target : string) (preamble : option bytes) (s : Session) : Session :=
  mkSession (se_channels s) (<[se_next_task s := mkTask conn target preamble [] false]> (se_tasks s)) (S (se_next_task s))
    (se_targets s) (se_status s) (se_events s) (se_controls s) (se_last_received s).

Definition open (conn : Z) (peer sni : string) (s : Session) : Session :=
  let route := Protocol.route_for_sni sni hostname in
  match route, (let* name := route in route_at (se_targets s) name) with
  | Some route, Some r =>
      if (MAX_CONNS <=? size (se_channels s))%nat then control (CReset conn TOO_MANY_CONNECTIONS) s
      else
        let preamble := (fun version => Client.header version peer sni) <$> proxy_protocol r in
        let s' := start_task conn (target r) preamble s in
        let s' := set_channels (<[conn := mkChannel route (se_next_task s)]> (se_channels s')) s' in
        emit (ConnectionOpened conn route peer) (count_connections s')
  | _, _ => control (CReset conn UNKNOWN_ROUTE) s
  end.

Definition reset (conn : Z) (code : string) (s : Session) : Session :=
  match se_channels s !! conn with
  | None => s
  | Some channel =>
      let s := abort (cn_task channel) (set_channels (delete conn (se_channels s)) s) in
      emit (ConnectionClosed conn (cn_route channel) (Some code)) (count_connections s)
  end.

Definition server_message (m : ServerMessage) (queued : Queued) (s : Session) : Session * option SessionEnd :=
  match m with
  | SOpen conn peer sni _ => (open conn peer sni s, None)
  | SEnd conn => (deliver conn InEnd queued s, None)
  | SReset conn code => (reset conn code s, None)
  | SPing time_sent => (control (CPong time_sent) s, None)
  | SDrain reason => (s, Some (retry ("server draining: " +:+ reason)))
  | SPong _ | SAttached _ _ _ _ | SAttachError _ => (s, None)
  end.

Definition message (m : WsMessage) (queued : Queued) (s : Session) : Session * option SessionEnd :=
  match m with
  | MBinary frame =>
      match decode_data_frame frame with
      | None => (s, None)
      | Some (conn, payload) => (deliver conn (InData payload) queued s, None)
      end
  | MText text =>
      match decode from_str text with
      | Ok (Some m) => server_message m queued s
      | Ok None | Err _ => (s, None)
      end
  | MClose frame =>
      (s, Some (retry match frame with Some (code, reason) => dec_string code +:+ " " +:+ reason | None => "bridge closed" end))
  | MOther => (s, None)
  end.

Definition task_ended (task : nat) (finished : option (option string)) (s : Session) : Session :=
  match se_tasks s !! task with
  | None => s
  | Some t =>
      let s := set_tasks (delete task (se_tasks s)) s in
      match finished with
      | None => s
      | Some error =>
          match se_channels s !! ta_conn t with
          | None => s
          | Some channel =>
              let s := set_channels (delete (ta_conn t) (se_channels s)) s in
              emit (ConnectionClosed (ta_conn t) (cn_route channel) error) (count_connections s)
          end
      end
  end.

(** One turn of the session's loop. *)
Definition step (idle_timeout : Z) (names : list string) (i : Input) (s : Session) : Session * option SessionEnd :=
  match i with
  | InMessage now m queued => message m queued (received now s)
  | InSocketError error => (s, Some (retry error))
  | InSocketEnd => (s, Some (retry "bridge closed"))
  | InTaskEnded task finished => (task_ended task finished s, None)
  | InHeartbeat now =>
      if idle_timeout <? now - se_last_received s then (s, Some (retry "bridge idle timeout"))
      else (control (CPing now) s, None)
  | InRoutes None => (s, Some EndShutdown)
  | InRoutes (Some next) =>
      if bool_decide (keys next = names) then (set_targets next (set_status (set_su_routes next) s), None)
      else (s, Some EndRoutesChanged)
  | InShutdown => (s, Some EndShutdown)
  end.

(** The loop, over the inputs that arrive; [None]: it still waits for the next one. *)
Fixpoint session_loop (idle_timeout : Z) (names : list string) (inputs : list Input) (s : Session) : Session * option SessionEnd :=
  match inputs with
  | [] => (s, None)
  | i :: inputs' =>
      match step idle_timeout names i s with
      | (s', None) => session_loop idle_timeout names inputs' s'
      | ended => ended
      end
  end.

(** The channels left when a session ends, in any order. *)
Definition drain (s : Session) : Session :=
  let closed := map (fun '(conn, channel) => ConnectionClosed conn (cn_route channel) (Some "bridge disconnected")) (map_to_list (se_channels s)) in
  mkSession ∅ ((fun t => mkTask (ta_conn t) (ta_target t) (ta_preamble t) (ta_inbound t) true) <$> se_tasks s) (se_next_task s) (se_targets s)
    (se_status s) (se_events s ++ closed) (se_controls s) (se_last_received s).

(** [attach], once the socket is open: what the bridge says until it answers. *)
Record AttachedSession := mkAttachedSession { as_session : string; as_heartbeat : Z; as_idle_timeout : Z }.

Inductive AttachInput := AttachMessage (m : WsMessage) | AttachBroken (error : string) | AttachClosed.

Fixpoint attach_reply (inputs : list AttachInput) : option (result AttachedSession TunnelError) :=
  match inputs with
  | [] => None
  | AttachBroken error :: _ => Some (Err (TunnelOther ("bridge error: " +:+ error)))
  | AttachClosed :: _ => Some (Err (TunnelOther "bridge error: bridge closed before attach"))
  | AttachMessage (MText text) :: rest =>
      match decode from_str text with
      | Ok (Some (SAttached session _ heartbeat_ms idle_timeout_ms)) =>
          Some (Ok (mkAttachedSession session (Z.max heartbeat_ms 1000) (Z.max idle_timeout_ms 5000)))
      | Ok (Some (SAttachError code)) => Some (Err (TunnelAttach code))
      | _ => attach_reply rest
      end
  | AttachMessage _ :: rest => attach_reply rest
  end.

(** How attaching ends: what the bridge answered or the connection failed with, too late, or never, for a shutdown. *)
Inductive Attaching := AttachDone (r : result AttachedSession TunnelError) | AttachTimedOut | AttachShutdown.

Definition attach_end (a : Attaching) : AttachedSession + SessionEnd :=
  match a with
  | AttachDone (Ok attached) => inl attached
  | AttachDone (Err (TunnelAttach code)) =>
      inr (if is_fatal_attach_error code then EndFatal (TunnelAttach code) else EndRetry (error_text (TunnelAttach code)) false)
  | AttachDone (Err (TunnelInvalid text)) => inr (EndFatal (TunnelInvalid text))
  | AttachDone (Err error) => inr (EndRetry (error_text error) false)
  | AttachTimedOut => inr (EndRetry "bridge attach timed out" false)
  | AttachShutdown => inr EndShutdown
  end.

(** ** The supervisor *)

Record Supervisor := mkSupervisor { sp_attempt : Z; sp_status : Status; sp_events : list TunnelEvent }.

(** What one turn of the supervisor's loop meets: a shutdown, the routes, how attaching ends and when, the session's
    inputs, and the random number of the wait. *)
Record Turn := mkTurn {
  tu_shutdown : bool;
  tu_routes : Routes;
  tu_attaching : Attaching;
  tu_now : Z;
  tu_inputs : list Input;
  tu_random : Z;
}.

Definition backoff (attempt random : Z) : Z :=
  let base := Z.min (sat_mul RECONNECT_BACKOFF_MIN_MS (Z.shiftl 1 (Z.min attempt 16))) RECONNECT_BACKOFF_MAX_MS in
  random_range random (base / 2) base.

Definition set_state (st : State) (u : Status) : Status :=
  mkStatus st (su_routes u) (su_session u) (su_connections u) (su_last_error u) (su_connected_at u).
Definition set_error (e : option string) (u : Status) : Status :=
  mkStatus (su_state u) (su_routes u) (su_session u) (su_connections u) e (su_connected_at u).
Definition set_session (x : option string) (u : Status) : Status :=
  mkStatus (su_state u) (su_routes u) x (su_connections u) (su_last_error u) (su_connected_at u).

Definition sp_emit (e : TunnelEvent) (v : Supervisor) : Supervisor := mkSupervisor (sp_attempt v) (sp_status v) (sp_events v ++ [e]).
Definition sp_modify (f : Status -> Status) (v : Supervisor) : Supervisor := mkSupervisor (sp_attempt v) (f (sp_status v)) (sp_events v).
Definition sp_set_attempt (n : Z) (v : Supervisor) : Supervisor := mkSupervisor n (sp_status v) (sp_events v).

(** The session's state once it is attached. *)
Definition attached_session (a : AttachedSession) (routes : Routes) (now : Z) (v : Supervisor) : Session :=
  mkSession ∅ ∅ 0 routes (mkStatus StConnected routes (Some (as_session a)) (su_connections (sp_status v)) None (Some now))
    (sp_events v ++ [Connected (as_session a) (keys routes)]) [] now.

(** [session]: the supervisor afterwards and how the session ended; [None]: it goes on. *)
Definition session (t : Turn) (v : Supervisor) : Supervisor * option SessionEnd :=
  match attach_end (tu_attaching t) with
  | inr end_ => (v, Some end_)
  | inl attached =>
      let '(s, end_) := session_loop (as_idle_timeout attached) (keys (tu_routes t)) (tu_inputs t) (attached_session attached (tu_routes t) (tu_now t) v) in
      match end_ with
      | None => (mkSupervisor (sp_attempt v) (se_status s) (se_events s), None)
      | Some _ => let s := drain s in (mkSupervisor (sp_attempt v) (se_status s) (se_events s), end_)
      end
  end.

(** The end of [run]. *)
Definition stop (r : result unit TunnelError) (v : Supervisor) : Supervisor :=
  let error := match r with Err e => Some (error_text e) | Ok _ => None end in
  sp_emit (Stopped error) (sp_modify (fun u => set_state StStopped (match error with Some _ => set_error error u | None => u end)) v).

(** A turn of [run]'s loop; a result ends it. *)
Definition run_turn (t : Turn) (v : Supervisor) : Supervisor * option (result unit TunnelError) * bool :=
  if tu_shutdown t then (v, Some (Ok tt), false)
  else if bool_decide (tu_routes t = []) then (sp_modify (fun u => set_state StWaitingRoutes (set_su_routes [] u)) v, None, false)
  else
    let '(v, end_) := session t (sp_emit (Connecting (sp_attempt v)) (sp_modify (set_state StConnecting) v)) in
    match end_ with
    | None => (v, None, true)
    | Some end_ =>
        let v := sp_modify (fun u => set_connections 0 (set_session None u)) v in
        match end_ with
        | EndShutdown => (v, Some (Ok tt), false)
        | EndRoutesChanged => (sp_set_attempt 0 (sp_emit (Disconnected "routes changed") v), None, false)
        | EndFatal error => (v, Some (Err error), false)
        | EndRetry error attached =>
            let attempt := if attached : bool then 0 else sp_attempt v in
            let delay := backoff attempt (tu_random t) in
            let attempt := Z.min U32_MAX (attempt + 1) in
            let v := sp_set_attempt attempt (sp_emit (Disconnected error) v) in
            (sp_emit (Reconnecting attempt delay) (sp_modify (fun u => set_error (Some error) (set_state StReconnecting u)) v), None, false)
        end
    end.

(** [run] over the turns that happen: its result, or [None] while it goes on. *)
Fixpoint run (turns : list Turn) (v : Supervisor) : Supervisor * option (result unit TunnelError) :=
  match turns with
  | [] => (v, None)
  | t :: turns' =>
      let '(v', ended, waiting) := run_turn t v in
      match ended with
      | Some r => (stop r v', Some r)
      | None => if waiting : bool then (v', None) else run turns' v'
      end
  end.
End Session.

(** ** A connection *)

(** What a connection's [receive] writes to its local side: the bytes, and whether it was ended. *)
Fixpoint written (items : list Inbound) : bytes * bool :=
  match items with
  | [] => ([], false)
  | InEnd :: _ => ([], true)
  | InData payload :: items' => let '(data, ended) := written items' in (payload ++ data, ended)
  end.

Inductive Outbound := OutFrame (frame : bytes) | OutControl (m : ClientMessage).

(** What its [send] loop sends for what it reads, an empty read being the end; [None]: it still reads. *)
Fixpoint send_frames (conn : Z) (reads : list bytes) : list Outbound * option unit :=
  match reads with
  | [] => ([], None)
  | [] :: _ => ([OutControl (CEnd conn)], Some tt)
  | data :: reads' => let '(out, ended) := send_frames conn reads' in (OutFrame (encode_data_frame conn data) :: out, ended)
  end.

Inductive ChannelError := ChConnect (error : string) | ChIo (error : string).

(** How a connection's task ends: the reset it sends, and its result. *)
Definition channel_end (conn : Z) (r : result unit ChannelError) : list Outbound * (Z * option string) :=
  match r with
  | Ok _ => ([], (conn, None))
  | Err (ChConnect error) => ([OutControl (CReset conn UPSTREAM_CONNECT_FAILED)], (conn, Some ("upstream connect failed: " +:+ error)))
  | Err (ChIo error) => ([OutControl (CReset conn UPSTREAM_IO_ERROR)], (conn, Some error))
  end.

(** ** The certificate *)

Record Identity := mkIdentity {
  id_id : string;
  id_hostname : string;
  id_token : string;
  id_private_key : string;
  id_certificate : string;
  id_chain : string;
  id_certificate_expiry : string;
}.

Section Certificate.
(** [humantime::parse_rfc3339_weak] in Unix milliseconds, and whether a TLS acceptor can be built from a certificate, its
    chain and a private key. *)
Context (parse_rfc3339_weak : string -> option Z) (acceptor_ok : string -> string -> string -> bool).

Definition renewal_due (expiry : string) (now : Z) : bool :=
  match parse_rfc3339_weak expiry with
  | None => true
  | Some at_ => (at_ <? now) || (at_ - now <? RENEWAL_WINDOW)
  end.

Definition accepts (i : Identity) : bool := acceptor_ok (id_certificate i) (id_chain i) (id_private_key i).

(** The identity, the one whose acceptor serves, what was saved, and the renewals reported. *)
Record Refresher := mkRefresher { rf_identity : Identity; rf_serving : Identity; rf_saved : list Identity; rf_events : list TunnelEvent }.

Definition refresh_wait (now : Z) (r : Refresher) : Z :=
  if renewal_due (id_certificate_expiry (rf_identity r)) now then CERTIFICATE_CHECK_DUE else CERTIFICATE_CHECK_FRESH.

(** The API's answer to a check: nothing, a certificate that is not ready, or its certificate, chain and expiry. *)
Definition check_certificate (answer : option (option (string * string * string))) (stores saves : bool) (r : Refresher) : Refresher :=
  match answer with
  | Some (Some (certificate, chain, expiry)) =>
      let i := rf_identity r in
      if String.eqb certificate (id_certificate i) then r
      else
        let renewed := mkIdentity (id_id i) (id_hostname i) (id_token i) (id_private_key i) certificate chain expiry in
        if negb (accepts renewed) then r
        else mkRefresher renewed renewed (if stores && saves then rf_saved r ++ [renewed] else rf_saved r) (rf_events r ++ [CertificateRenewed expiry])
  | _ => r
  end.
End Certificate.

Fixpoint validate_routes (routes : Routes) : result unit RouteError :=
  match routes with
  | [] => Ok tt
  | (name, r) :: routes' => let? _ := validate r name in validate_routes routes'
  end.

(** ** What one turn of a session changes *)

(** The tasks go on as they were, but the one that was aborted; queues grow and tasks end. *)
Definition tasks_kept (aborted : option nat) (s s' : Session) : Prop :=
  forall id t', se_tasks s' !! id = Some t' -> exists t, se_tasks s !! id = Some t /\ ta_conn t' = ta_conn t /\
    ta_target t' = ta_target t /\ ta_preamble t' = ta_preamble t /\ (aborted <> Some id -> ta_aborted t' = ta_aborted t).

Lemma tasks_kept_refl aborted s s' : se_tasks s' = se_tasks s -> tasks_kept aborted s s'.
Proof. intros Ht id t' H. rewrite Ht in H. eauto 10. Qed.

Section Sessions.
Context (from_str : string -> option Json) (hostname : string).

(** The connection an input opens. *)
Definition opens (i : Input) : option Z :=
  match i with
  | InMessage _ (MText text) _ => match decode from_str text with Ok (Some (SOpen conn _ _ _)) => Some conn | _ => None end
  | _ => None
  end.

Inductive change (i : Input) (s s' : Session) : Prop :=
| change_quiet :
    se_channels s' = se_channels s -> se_next_task s' = se_next_task s -> se_events s' = se_events s ->
    su_connections (se_status s') = su_connections (se_status s) -> tasks_kept None s s' -> change i s s'
| change_closed conn channel error :
    se_channels s !! conn = Some channel -> se_channels s' = delete conn (se_channels s) -> se_next_task s' = se_next_task s ->
    se_events s' = se_events s ++ [ConnectionClosed conn (cn_route channel) error] ->
    su_connections (se_status s') = size (se_channels s') -> tasks_kept (Some (cn_task channel)) s s' -> change i s s'
| change_opened conn route peer sni r :
    opens i = Some conn -> Protocol.route_for_sni sni hostname = Some route -> route_at (se_targets s) route = Some r ->
    (size (se_channels s) < MAX_CONNS)%nat -> se_channels s' = <[conn := mkChannel route (se_next_task s)]> (se_channels s) ->
    se_next_task s' = S (se_next_task s) -> se_events s' = se_events s ++ [ConnectionOpened conn route peer] ->
    su_connections (se_status s') = size (se_channels s') ->
    se_tasks s' = <[se_next_task s := mkTask conn (target r) ((fun v => Client.header v peer sni) <$> proxy_protocol r) [] false]> (se_tasks s) ->
    change i s s'.

Lemma tasks_kept_alter aborted f id s s' :
  se_tasks s' = alter f id (se_tasks s) ->
  (forall t, ta_conn (f t) = ta_conn t /\ ta_target (f t) = ta_target t /\ ta_preamble (f t) = ta_preamble t /\
     (aborted <> Some id -> ta_aborted (f t) = ta_aborted t)) -> tasks_kept aborted s s'.
Proof.
  intros Ht Hf id' t' H. rewrite Ht in H. destruct (decide (id' = id)) as [->|Hne].
  - rewrite lookup_alter_eq in H. destruct (se_tasks s !! id) as [t|]; [|done]. injection H as <-. destruct (Hf t) as (? & ? & ? & ?). eauto 10.
  - rewrite lookup_alter_ne in H by done. eauto 10.
Qed.

Lemma stalled_change i conn s : change i s (stalled conn s).
Proof.
  unfold stalled. destruct (se_channels s !! conn) as [channel|] eqn:E; [|by apply change_quiet; try apply tasks_kept_refl].
  eapply change_closed; [exact E|reflexivity..|]. eapply tasks_kept_alter; [reflexivity|]. intros t. by split_and!.
Qed.

Lemma deliver_change i conn item queued s : change i s (deliver conn item queued s).
Proof.
  unfold deliver. destruct (se_channels s !! conn) as [channel|] eqn:E; [|by apply change_quiet; try apply tasks_kept_refl].
  destruct queued; [|by apply change_quiet; try apply tasks_kept_refl|apply stalled_change].
  apply change_quiet; try reflexivity. eapply tasks_kept_alter; [reflexivity|]. intros t. by split_and!.
Qed.

Lemma reset_change i conn code s : change i s (reset conn code s).
Proof.
  unfold reset. destruct (se_channels s !! conn) as [channel|] eqn:E; [|by apply change_quiet; try apply tasks_kept_refl].
  eapply change_closed; [exact E|reflexivity..|]. eapply tasks_kept_alter; [reflexivity|]. intros t. by split_and!.
Qed.

Lemma open_change i conn peer sni s : opens i = Some conn -> change i s (open hostname conn peer sni s).
Proof.
  intros Hi. unfold open. destruct (Protocol.route_for_sni sni hostname) as [route|] eqn:Er; cbn;
    [|by apply change_quiet; try apply tasks_kept_refl]. destruct (route_at (se_targets s) route) as [r|] eqn:Et;
    [|by apply change_quiet; try apply tasks_kept_refl]. case_split; [by apply change_quiet; try apply tasks_kept_refl|]. bsimp.
  apply (change_opened _ _ _ conn route peer sni r); first [done|reflexivity|unfold MAX_CONNS in *; lia].
Qed.

Lemma task_ended_change i task finished s : change i s (task_ended task finished s).
Proof.
  unfold task_ended. destruct (se_tasks s !! task) as [t|] eqn:Et; [|by apply change_quiet; try apply tasks_kept_refl].
  assert (forall aborted (s' : Session), se_tasks s' = delete task (se_tasks s) -> tasks_kept aborted s s') as Hdel.
  { intros aborted s' Hs id t' H. rewrite Hs in H. apply lookup_delete_Some in H as [_ H]. eauto 10. }
  destruct finished as [error|]; [|apply change_quiet; try done; by apply Hdel]. cbn.
  destruct (se_channels s !! ta_conn t) as [channel|] eqn:E; [|apply change_quiet; try done; by apply Hdel].
  eapply change_closed; [exact E|reflexivity..|]. by apply Hdel.
Qed.

Lemma step_change idle names i s s' end_ : step from_str hostname idle names i s = (s', end_) -> change i s s'.
Proof.
  assert (forall now, change i s (received now s)) as Hrec by (intros; by apply change_quiet; try apply tasks_kept_refl).
  intros H. destruct i as [now m queued|error| |task finished|now|[next|]|]; cbn [step] in H.
  - assert (forall s1, change (InMessage now m queued) (received now s) s1 -> change (InMessage now m queued) s s1) as Hmove.
    { intros s1 Hc. inversion Hc; by econstructor. }
    destruct m as [frame|text|frame|]; cbn [message] in H.
    + destruct (decode_data_frame frame) as [[conn payload]|]; injection H as <- <-; [|done]. apply Hmove, deliver_change.
    + destruct (decode from_str text) as [[m|]|] eqn:Ed; [|injection H as <- <-; done..].
      destruct m; cbn [server_message] in H; injection H as <- <-; apply Hmove; try (by apply change_quiet; try apply tasks_kept_refl).
      * apply open_change. cbn. by rewrite Ed.
      * apply deliver_change.
      * apply reset_change.
    + injection H as <- <-. apply Hrec.
    + injection H as <- <-. apply Hrec.
  - injection H as <- <-. by apply change_quiet; try apply tasks_kept_refl.
  - injection H as <- <-. by apply change_quiet; try apply tasks_kept_refl.
  - injection H as <- <-. apply task_ended_change.
  - case_split; injection H as <- <-; by apply change_quiet; try apply tasks_kept_refl.
  - case_split; injection H as <- <-; by apply change_quiet; try apply tasks_kept_refl.
  - injection H as <- <-. by apply change_quiet; try apply tasks_kept_refl.
  - injection H as <- <-. by apply change_quiet; try apply tasks_kept_refl.
Qed.

(** ** The invariant of a session *)

Record session_ok (s : Session) : Prop := mkSessionOk {
  so_limit : (size (se_channels s) <= MAX_CONNS)%nat;
  so_count : su_connections (se_status s) = size (se_channels s);
  so_tasks conn channel : se_channels s !! conn = Some channel -> (cn_task channel < se_next_task s)%nat /\
    forall t, se_tasks s !! cn_task channel = Some t -> ta_conn t = conn /\ ta_aborted t = false;
  so_inj conn conn' channel channel' : se_channels s !! conn = Some channel -> se_channels s !! conn' = Some channel' ->
    cn_task channel = cn_task channel' -> conn = conn';
  so_fresh id t : se_tasks s !! id = Some t -> (id < se_next_task s)%nat;
}.

Lemma step_ok i s s' : change i s s' -> session_ok s -> session_ok s'.
Proof.
  intros Hc [H1 H2 H3 H4 H5]. destruct Hc as [Ec En Ee Es Ht|conn channel error Hch Ec En Ee Es Ht|conn route peer sni r Hi Hr Htg Hlt Ec En Ee Es Ht].
  - constructor; rewrite ?Ec, ?Es, ?En; try done.
    + intros conn ch Hch. destruct (H3 _ _ Hch) as [Hlt Hch']. split; [done|]. intros t' Ht'.
      destruct (Ht _ _ Ht') as (t & Hin & -> & _ & _ & ->); [by apply Hch'|done].
    + intros id t' Ht'. destruct (Ht _ _ Ht') as (t & Hin & _). by eapply H5.
  - assert (forall id t', se_tasks s' !! id = Some t' -> (id < se_next_task s)%nat) as Hf.
    { intros id t' Ht'. destruct (Ht _ _ Ht') as (t & Hin & _). by eapply H5. }
    constructor; rewrite ?Es, ?En, ?Ec; try done.
    + rewrite map_size_delete, Hch. lia.
    + intros c ch [Hne Hlk]%lookup_delete_Some. destruct (H3 _ _ Hlk) as [Hlt Hch']. split; [done|]. intros t' Ht'.
      destruct (Ht _ _ Ht') as (t & Hin & -> & _ & _ & ->); [by apply Hch'|]. intros [= Heq]. by apply Hne, (H4 _ _ _ _ Hch Hlk).
    + intros c c' ch ch' [_ ?]%lookup_delete_Some [_ ?]%lookup_delete_Some. by apply H4.
  - constructor; rewrite ?Es, ?En, ?Ec; try done.
    + rewrite map_size_insert. case_match; unfold id; lia.
    + intros c ch [[<- <-]|[Hne Hlk]]%lookup_insert_Some; cbn [cn_task].
      * split; [lia|]. intros t. rewrite Ht, lookup_insert_eq. by intros [= <-].
      * destruct (H3 _ _ Hlk) as [Hl Hch']. split; [lia|]. intros t. rewrite Ht, lookup_insert_ne by lia. apply Hch'.
    + intros c c' ch ch' [[<- <-]|[Hne Hlk]]%lookup_insert_Some [[<- <-]|[Hne' Hlk']]%lookup_insert_Some; cbn [cn_task]; try done.
      * intros Heq. destruct (H3 _ _ Hlk'). lia.
      * intros Heq. destruct (H3 _ _ Hlk). lia.
      * by apply H4.
    + intros id t. rewrite Ht. intros [[<- _]|[_ Hlk]]%lookup_insert_Some; [lia|]. apply H5 in Hlk. lia.
Qed.

(** ** Connections reported *)

Definition opened_of (e : TunnelEvent) : option (Z * string) := match e with ConnectionOpened conn route _ => Some (conn, route) | _ => None end.
Definition closed_of (e : TunnelEvent) : option (Z * string) := match e with ConnectionClosed conn route _ => Some (conn, route) | _ => None end.
Definition live (s : Session) : list (Z * string) := (fun x => (x.1, cn_route x.2)) <$> map_to_list (se_channels s).

(** What was reported open is what was reported closed and what is live. *)
Definition balanced (events : list TunnelEvent) (live : list (Z * string)) : Prop :=
  omap opened_of events ≡ₚ omap closed_of events ++ live.

Lemma balanced_step i s s' :
  change i s s' -> (forall conn, opens i = Some conn -> se_channels s !! conn = None) ->
  balanced (se_events s) (live s) -> balanced (se_events s') (live s').
Proof.
  unfold balanced, live. intros Hc Hfresh Hb.
  destruct Hc as [Ec En Ee Es Ht|conn channel error Hch Ec En Ee Es Ht|conn route peer sni r Hi Hr Htg Hlt Ec En Ee Es Ht]; rewrite Ec, Ee, ?omap_app; cbn.
  - done.
  - rewrite app_nil_r, Hb, <- (map_to_list_delete _ _ _ Hch). cbn. by rewrite <- app_assoc.
  - rewrite map_to_list_insert by (by apply Hfresh). cbn. rewrite app_nil_r, Hb, <- app_assoc.
    apply Permutation_app_head, (Permutation_app_comm _ [(conn, route)]).
Qed.

(** The connections are among those opened. *)
Lemma live_step i s s' (seen : list Z) :
  change i s s' -> (forall conn, is_Some (se_channels s !! conn) -> conn ∈ seen) ->
  forall conn, is_Some (se_channels s' !! conn) -> conn ∈ seen ++ option_list (opens i).
Proof.
  intros Hc Hs conn. destruct Hc as [Ec _ _ _ _|c channel error Hch Ec _ _ _ _|c route peer sni r Hi _ _ _ Ec _ _ _ _]; rewrite Ec; intros [ch Hin]; apply elem_of_app.
  - left. by apply Hs.
  - left. apply Hs. apply lookup_delete_Some in Hin as [_ ?]. by eexists.
  - apply lookup_insert_Some in Hin as [[-> _]|[_ ?]]; [right; rewrite Hi; by left|left; apply Hs; by eexists].
Qed.

(** A session's loop keeps all of it, for a server that opens a number once. *)
Lemma loop_ok idle names inputs : forall seen s s' end_,
  session_loop from_str hostname idle names inputs s = (s', end_) -> NoDup (seen ++ omap opens inputs) ->
  (forall conn, is_Some (se_channels s !! conn) -> conn ∈ seen) -> session_ok s -> balanced (se_events s) (live s) ->
  session_ok s' /\ balanced (se_events s') (live s').
Proof.
  induction inputs as [|i inputs IH]; intros seen s s' end_ H Hnd Hseen Hok Hb; cbn [session_loop] in H; [by injection H as <- <-|].
  destruct (step from_str hostname idle names i s) as [s1 end1] eqn:E. pose proof (step_change _ _ _ _ _ _ E) as Hc.
  assert (session_ok s1 /\ balanced (se_events s1) (live s1)) as [Hok1 Hb1].
  { split; [by eapply step_ok|]. eapply balanced_step; [done| |done]. intros conn Hi. apply eq_None_not_Some. intros Hsome%Hseen.
    cbn in Hnd. rewrite Hi in Hnd. apply NoDup_app in Hnd as (_ & Hdis & _). eapply Hdis; [done|by left]. }
  destruct end1; [by injection H as <- <-|]. eapply (IH (seen ++ option_list (opens i))); [exact H| |by eapply live_step|done|done].
  rewrite <- app_assoc. cbn in Hnd. by destruct (opens i).
Qed.

Lemma drain_balanced s : balanced (se_events s) (live s) -> balanced (se_events (drain s)) [].
Proof.
  unfold balanced, live, drain. cbn. rewrite !omap_app, app_nil_r. intros ->.
  assert (forall l : list (Z * Channel), omap opened_of (map (fun '(conn, channel) => ConnectionClosed conn (cn_route channel) (Some "bridge disconnected")) l) = []
    /\ omap closed_of (map (fun '(conn, channel) => ConnectionClosed conn (cn_route channel) (Some "bridge disconnected")) l) = (fun x => (x.1, cn_route x.2)) <$> l) as Hl.
  { induction l as [|[c ch] l [IH1 IH2]]; cbn; [done|]. by rewrite IH1, IH2. }
  destruct (Hl (map_to_list (se_channels s))) as [H1 H2]. cbn in *. by rewrite H1, H2, app_nil_r.
Qed.

(** ** The supervisor's turns *)

(** Events of connections alone. *)
Definition of_connection (e : TunnelEvent) : bool := match e with ConnectionOpened _ _ _ | ConnectionClosed _ _ _ => true | _ => false end.

Lemma step_events i s s' : change i s s' -> exists l, se_events s' = se_events s ++ l /\ Forall of_connection l.
Proof. intros [_ _ -> _ _|? ? ? _ _ _ -> _ _|? ? ? ? ? _ _ _ _ _ _ -> _ _]; [exists []; by rewrite app_nil_r|eexists; by repeat constructor..]. Qed.

Lemma loop_events idle names inputs : forall s s' end_,
  session_loop from_str hostname idle names inputs s = (s', end_) -> exists l, se_events s' = se_events s ++ l /\ Forall of_connection l.
Proof.
  induction inputs as [|i inputs IH]; intros s s' end_ H; cbn [session_loop] in H; [injection H as <- <-; exists []; by rewrite app_nil_r|].
  destruct (step from_str hostname idle names i s) as [s1 end1] eqn:E. destruct (step_events _ _ _ (step_change _ _ _ _ _ _ E)) as (l & El & Hl).
  destruct end1; [injection H as <- <-; by exists l|]. destruct (IH _ _ _ H) as (l' & El' & Hl').
  exists (l ++ l'). rewrite El', El, app_assoc. split; [done|]. by apply Forall_app.
Qed.

(** A shutdown reached a session, or its attach. *)
Definition asked_to_stop (t : Turn) : Prop :=
  tu_shutdown t = true \/ tu_attaching t = AttachShutdown \/ InShutdown ∈ tu_inputs t \/ InRoutes None ∈ tu_inputs t.

(** The errors that end a tunnel. *)
Definition fatal (e : TunnelError) : Prop :=
  match e with TunnelAttach code => is_fatal_attach_error code = true | TunnelInvalid _ => True | TunnelOther _ => False end.

Lemma loop_end idle names inputs : forall s s' end_,
  session_loop from_str hostname idle names inputs s = (s', Some end_) ->
  match end_ with EndFatal _ => False | EndShutdown => InShutdown ∈ inputs \/ InRoutes None ∈ inputs | EndRoutesChanged => True | EndRetry _ attached => attached = true end.
Proof.
  induction inputs as [|i inputs IH]; intros s s' end_ H; cbn [session_loop] in H; [done|].
  destruct (step from_str hostname idle names i s) as [s1 [end1|]] eqn:E.
  - injection H as <- <-. destruct i as [now m queued|error| |task finished|now|[next|]|]; cbn [step] in E.
    + destruct m as [frame|text|frame|]; cbn [message] in E; [destruct (decode_data_frame frame) as [[]|]; discriminate| |by injection E as <- <-|discriminate].
      destruct (decode from_str text) as [[m|]|]; [|discriminate..]. destruct m; cbn [server_message] in E; try discriminate. by injection E as <- <-.
    + by injection E as <- <-.
    + by injection E as <- <-.
    + discriminate.
    + destruct (_ <? _); [by injection E as <- <-|discriminate].
    + destruct (bool_decide _); [discriminate|by injection E as <- <-].
    + injection E as <- <-. right. by left.
    + injection E as <- <-. left. by left.
  - specialize (IH _ _ _ H). destruct end_; try done. destruct IH as [?|?]; [left|right]; by right.
Qed.

Lemma session_events t v v' end_ : session from_str hostname t v = (v', end_) ->
  sp_attempt v' = sp_attempt v /\ exists l, sp_events v' = sp_events v ++ l /\ Forall (fun e => of_connection e = true \/ exists a b, e = Connected a b) l.
Proof.
  intros H. unfold session in H. destruct (attach_end (tu_attaching t)) as [a|e]; [|injection H as <- <-; split; [done|]; exists []; by rewrite app_nil_r].
  destruct (session_loop _ _ _ _ _ _) as [s' e'] eqn:E. destruct (loop_events _ _ _ _ _ _ E) as (l & El & Hl). cbn in El.
  assert (Forall (fun e => of_connection e = true \/ exists a b, e = Connected a b) ([Connected (as_session a) (keys (tu_routes t))] ++ l)) as Hall.
  { constructor; [right; by eexists _, _|]. eapply Forall_impl; [exact Hl|]. intros x Hx. left. by apply Is_true_true. }
  rewrite <- app_assoc in El. destruct e'; injection H as <- <-; cbn; (split; [done|]); [|by eexists].
  eexists. rewrite El, <- app_assoc. split; [reflexivity|]. apply Forall_app. split; [done|]. apply Forall_forall. intros x Hx.
  apply list_elem_of_fmap in Hx as ([c ch] & -> & _). by left.
Qed.

Lemma session_end t v v' end_ : session from_str hostname t v = (v', Some end_) ->
  match end_ with EndFatal e => fatal e | EndShutdown => asked_to_stop t | _ => True end.
Proof.
  intros H. unfold session in H. destruct (attach_end (tu_attaching t)) as [a|e] eqn:Ea.
  - destruct (session_loop _ _ _ _ _ _) as [s' [e'|]] eqn:E; [|done]. injection H as _ <-. apply loop_end in E. destruct e'; try done.
    right. right. by destruct E; [left|right].
  - injection H as _ <-. unfold attach_end in Ea. destruct (tu_attaching t) as [[|[code|text|text]]| |] eqn:Et; try (injection Ea as <-); try done.
    + by destruct (is_fatal_attach_error code) eqn:Ef.
    + right. by left.
Qed.

(** Between sessions nothing is live. *)
Definition at_rest (v : Supervisor) : Prop := su_connections (sp_status v) = 0%nat /\ balanced (sp_events v) [].

Lemma balanced_emit e events l : of_connection e = false -> balanced events l -> balanced (events ++ [e]) l.
Proof. unfold balanced. rewrite !omap_app. destruct e; cbn; try done; by rewrite !app_nil_r. Qed.

Lemma session_balanced t v v' end_ :
  session from_str hostname t v = (v', end_) -> NoDup (omap opens (tu_inputs t)) -> at_rest v ->
  exists l, balanced (sp_events v') l /\ (length l <= MAX_CONNS)%nat /\
    match end_ with Some _ => l = [] | None => su_connections (sp_status v') = length l end.
Proof.
  intros H Hnd [Hc Hb]. unfold session in H. destruct (attach_end (tu_attaching t)) as [a|e].
  - destruct (session_loop _ _ _ _ _ _) as [s' e'] eqn:E.
    edestruct (loop_ok _ _ _ [] _ _ _ E) as [Hok Hb']; [exact Hnd|intros conn [ch Hch]; cbn in Hch; by rewrite lookup_empty in Hch| | |].
    + constructor; cbn; [rewrite map_size_empty; unfold MAX_CONNS; lia|by rewrite map_size_empty|intros ? ?; by rewrite lookup_empty|intros ? ? ? ?; by rewrite lookup_empty|intros ? ?; by rewrite lookup_empty].
    + cbn. unfold live. cbn. rewrite map_to_list_empty. by apply balanced_emit.
    + destruct e'; injection H as <- <-; cbn.
      * exists []. split_and!; [by apply drain_balanced|cbn; lia|done].
      * exists (live s'). split_and!; [done| |]; unfold live; rewrite length_fmap, length_map_to_list; [exact (so_limit _ Hok)|exact (so_count _ Hok)].
  - injection H as <- <-. exists []. split_and!; [done|cbn; lia|done].
Qed.

Lemma run_turn_balanced t v v' ended waiting :
  run_turn from_str hostname t v = (v', ended, waiting) -> NoDup (omap opens (tu_inputs t)) -> at_rest v ->
  if waiting then ended = None /\ exists l, balanced (sp_events v') l /\ (length l <= MAX_CONNS)%nat /\ su_connections (sp_status v') = length l
  else at_rest v'.
Proof.
  intros H Hnd [Hc Hb]. unfold run_turn in H. destruct (tu_shutdown t); [injection H as <- <- <-; by split|].
  destruct (bool_decide _); [injection H as <- <- <-; by split|].
  destruct (session _ _ _ _) as [v1 end_] eqn:E. edestruct session_balanced as (l & Hb1 & Hl & He); [exact E|exact Hnd| |].
  { split; [done|]. by apply balanced_emit. }
  destruct end_ as [[| |e|error attached]|]; injection H as <- <- <-.
  5: { split; [done|]. by exists l. }
  all: subst l; (split; [done|]); cbn [sp_events sp_emit sp_set_attempt sp_modify]; repeat (apply balanced_emit; [done|]); done.
Qed.

(** every connection a tunnel reports as opened it reports as closed exactly once, with the same route, however sessions
    end and whatever the server, the local tasks and the user do, as long as a server opens a connection's number once per
    session; the number of connections in its status is the number of those reported open and not closed, at most 256, and
    once the tunnel stopped there is none. *)
Theorem connections_reported turns v v' r :
  at_rest v -> Forall (fun t => NoDup (omap opens (tu_inputs t))) turns -> run from_str hostname turns v = (v', r) ->
  exists l, omap opened_of (sp_events v') ≡ₚ omap closed_of (sp_events v') ++ l /\ (length l <= MAX_CONNS)%nat /\
    su_connections (sp_status v') = length l /\ (r <> None -> l = []).
Proof.
  intros Hv Hturns. revert v Hv. induction Hturns as [|t turns Ht Hturns IH]; intros v Hv H; cbn [run] in H.
  - injection H as <- <-. exists []. destruct Hv. split_and!; [done|cbn; lia|done..].
  - destruct (run_turn from_str hostname t v) as [[v1 ended] waiting] eqn:E. pose proof (run_turn_balanced _ _ _ _ _ E Ht Hv) as Hres.
    destruct ended as [r1|].
    + injection H as <- <-. destruct waiting; [by destruct Hres|]. destruct Hres as [Hc Hb]. exists [].
      split_and!; [by apply (balanced_emit (Stopped _))|cbn; lia| |done]. by destruct r1.
    + destruct waiting; [|by apply (IH v1)]. injection H as <- <-. destruct Hres as [_ (l & ? & ? & ?)]. exists l. by split_and!.
Qed.

(** ** How a tunnel comes back *)

Lemma reconnect_bounds attempt random :
  0 <= attempt -> 125 <= backoff attempt random <= RECONNECT_BACKOFF_MAX_MS /\ backoff attempt random <= 250 * 2 ^ Z.min attempt 16.
Proof.
  intros Ha. unfold backoff, random_range, RECONNECT_BACKOFF_MIN_MS, RECONNECT_BACKOFF_MAX_MS, sat_mul, U64_MAX.
  rewrite Z.shiftl_1_l. assert (1 <= 2 ^ Z.min attempt 16 <= 65536) as Hp.
  { split; [apply (Z.pow_le_mono_r 2 0); lia|]. apply (Z.pow_le_mono_r 2 _ 16); lia. }
  set (base := Z.min (Z.min _ (250 * 2 ^ Z.min attempt 16)) 30000). assert (250 <= base <= 30000 /\ base <= 250 * 2 ^ Z.min attempt 16) as Hb by lia.
  assert (125 <= base / 2 <= base) as Hh by (split; [apply Z.div_le_lower_bound; lia|apply Z.div_le_upper_bound; lia]).
  pose proof (Z.mod_pos_bound random (base - base / 2 + 1) ltac:(lia)). lia.
Qed.

(** A wait that was announced is within its bounds. *)
Definition fair_wait (e : TunnelEvent) : Prop :=
  match e with
  | Reconnecting attempt delay => 1 <= attempt /\ 125 <= delay <= RECONNECT_BACKOFF_MAX_MS /\ delay <= 250 * 2 ^ Z.min (attempt - 1) 16
  | Stopped _ => False
  | _ => True
  end.

Lemma run_turn_fair t v v' ended waiting :
  run_turn from_str hostname t v = (v', ended, waiting) -> 0 <= sp_attempt v <= U32_MAX -> Forall fair_wait (sp_events v) ->
  0 <= sp_attempt v' <= U32_MAX /\ Forall fair_wait (sp_events v') /\
  match ended with Some (Ok _) => asked_to_stop t | Some (Err e) => fatal e | None => True end.
Proof.
  intros H Ha Hf. unfold run_turn in H. destruct (tu_shutdown t) eqn:Es; [injection H as <- <- <-; split; [done|]; split; [done|by left]|].
  destruct (bool_decide _); [injection H as <- <- <-; split; [done|by split]|].
  destruct (session _ _ _ _) as [v1 end_] eqn:E. destruct (session_events _ _ _ _ E) as (Ea & l & El & Hl). cbn in Ea, El.
  assert (Forall fair_wait (sp_events v1)) as Hf1.
  { rewrite El. apply Forall_app. split; [apply Forall_app; split; [done|by repeat constructor]|]. eapply Forall_impl; [exact Hl|].
    intros e [He|(a & b & ->)]; [by destruct e|done]. }
  assert (forall e events, fair_wait e -> Forall fair_wait events -> Forall fair_wait (events ++ [e])) as Hadd.
  { intros e events ? ?. apply Forall_app. split; [done|by repeat constructor]. }
  destruct end_ as [end_|]; [|injection H as <- <- <-; rewrite Ea; split; [done|by split]]. apply session_end in E.
  destruct end_ as [| |e|error attached]; injection H as <- <- <-; cbn [sp_attempt sp_events sp_emit sp_modify sp_set_attempt]; rewrite ?Ea.
  - split; [done|by split].
  - split; [unfold U32_MAX; lia|]. split; [by apply Hadd|done].
  - split; [done|by split].
  - unfold U32_MAX in *. set (attempt := if attached then 0 else sp_attempt v).
    assert (0 <= attempt <= 4294967295) as Hatt by (unfold attempt; destruct attached; lia).
    split_and!; [lia..| |done]. apply Hadd; [|by apply Hadd]. cbn [fair_wait]. pose proof (reconnect_bounds attempt (tu_random t) ltac:(lia)) as [H1 H2].
    split_and!; [lia..|]. etransitivity; [exact H2|]. apply Z.mul_le_mono_nonneg_l; [lia|]. apply Z.pow_le_mono_r; lia.
Qed.

(** a tunnel gives up only on an error that repeating cannot mend (a refused token, a certificate that is not ready, a
    proxy it cannot use), and stops without an error only when it is asked to; it says so once, as the last thing it
    reports. Every other end of a session is followed by another attempt, after a wait between an eighth of a second and
    half a minute that is at most 250 ms doubled with each attempt since the last one that attached. *)
Theorem tunnel_keeps_trying turns v v' r :
  sp_attempt v = 0 -> sp_events v = [] -> run from_str hostname turns v = (v', r) ->
  match r with
  | None => Forall fair_wait (sp_events v')
  | Some res =>
      exists l, sp_events v' = l ++ [Stopped match res with Err e => Some (error_text e) | Ok _ => None end] /\ Forall fair_wait l /\
        su_state (sp_status v') = StStopped /\ match res with Ok _ => Exists asked_to_stop turns | Err e => fatal e end
  end.
Proof.
  intros Ha He. assert (0 <= sp_attempt v <= U32_MAX /\ Forall fair_wait (sp_events v)) as [Hatt Hf] by (rewrite Ha, He; split; [done|constructor]).
  clear Ha He. revert v Hatt Hf. induction turns as [|t turns IH]; intros v Hatt Hf H; cbn [run] in H; [by injection H as <- <-|].
  destruct (run_turn from_str hostname t v) as [[v1 ended] waiting] eqn:E. destruct (run_turn_fair _ _ _ _ _ E Hatt Hf) as (Ha1 & Hf1 & Hend).
  destruct ended as [r1|].
  - injection H as <- <-. exists (sp_events v1). split_and!; [done..|by destruct r1|]. destruct r1; [by constructor|done].
  - destruct waiting; [by injection H as <- <-|]. specialize (IH _ Ha1 Hf1 H). destruct r as [[]|]; try done.
    destruct IH as (l & ? & ? & ? & ?). exists l. split_and!; try done. by constructor.
Qed.

(** ** From a visitor to its target *)

Lemma deliver_targets conn item queued s : se_targets (deliver conn item queued s) = se_targets s.
Proof. unfold deliver, stalled. destruct (se_channels s !! conn) eqn:E; [|done]. destruct queued; done. Qed.

(** The routes of a session are those it attached. *)
Lemma step_targets idle names i s s' end_ :
  step from_str hostname idle names i s = (s', end_) -> keys (se_targets s) = names -> keys (se_targets s') = names.
Proof.
  intros H Hk. destruct i as [now m queued|error| |task finished|now|[next|]|]; cbn [step] in H.
  - destruct m as [frame|text|frame|]; cbn [message] in H; [|destruct (decode from_str text) as [[m|]|]; [|injection H as <- <-; done..]|injection H as <- <-; done..].
    + destruct (decode_data_frame frame) as [[conn payload]|]; injection H as <- <-; [by rewrite deliver_targets|done].
    + destruct m; cbn [server_message] in H; injection H as <- <-; try done; [|by rewrite deliver_targets|].
      * unfold open. repeat case_match; try done.
      * unfold reset. by case_match.
  - by injection H as <- <-.
  - by injection H as <- <-.
  - injection H as <- <-. unfold task_ended. by repeat case_match.
  - destruct (_ <? _); by injection H as <- <-.
  - destruct (bool_decide _) eqn:E; injection H as <- <-; [|done]. by bsimp.
  - by injection H as <- <-.
  - by injection H as <- <-.
Qed.

Lemma loop_targets idle names inputs : forall s s' end_,
  session_loop from_str hostname idle names inputs s = (s', end_) -> keys (se_targets s) = names -> keys (se_targets s') = names.
Proof.
  induction inputs as [|i inputs IH]; intros s s' end_ H Hk; cbn [session_loop] in H; [by injection H as <- <-|].
  destruct (step from_str hostname idle names i s) as [s1 [end1|]] eqn:E; [injection H as <- <-|]; eauto using step_targets.
Qed.

Lemma route_at_keys routes name : name ∈ keys routes -> is_Some (route_at routes name).
Proof.
  induction routes as [|[n r] routes IH]; cbn; [by intros ?%elem_of_nil|]. intros [->|Hin]%elem_of_cons; [by rewrite String.eqb_refl|].
  case_match; [done|auto].
Qed.
End Sessions.

(** a visitor that the server routes to a bridge reaches its target: while a client's session goes on and has room, a
    connection for which the server found one of the session's routes from the visitor's SNI is started towards the target
    that the client's configuration has for that very route now, with the PROXY header of the visitor's address if the
    route asks for one, and is reported. The exception is the label [@], which the client does not take for a route. *)
Theorem visitor_reaches_target from_str id domain sni r conn peer alpn text now queued idle names inputs s s' :
  keys (se_targets s) = names ->
  session_loop from_str (id +:+ "." +:+ domain) idle names inputs s = (s', None) ->
  Csr.valid_tunnel_id id = true -> to_ascii_lowercase sni = sni -> to_ascii_lowercase domain = domain -> Protocol.is_valid_route r = true ->
  sni <> Protocol.ROOT_ROUTE +:+ "." +:+ id +:+ "." +:+ domain ->
  Hostnames.route_name sni id domain = Some r -> r ∈ names -> (size (se_channels s') < MAX_CONNS)%nat ->
  decode from_str text = Ok (Some (SOpen conn peer sni alpn)) ->
  exists route s'', route_at (se_targets s') r = Some route /\
    step from_str (id +:+ "." +:+ domain) idle names (InMessage now (MText text) queued) s' = (s'', None) /\
    se_channels s'' = <[conn := mkChannel r (se_next_task s')]> (se_channels s') /\
    se_tasks s'' = <[se_next_task s' := mkTask conn (target route)
      ((fun version => Client.header version peer sni) <$> proxy_protocol route) [] false]> (se_tasks s') /\
    se_events s'' = se_events s' ++ [ConnectionOpened conn r peer].
Proof.
  intros Hk Hloop Hid Hs Hd Hr Hne Hname Hin Hsize Hdec. pose proof (loop_targets _ _ _ _ _ _ _ _ Hloop Hk) as Hk'.
  rewrite valid_tunnel_id_is_label in Hid.
  assert (Protocol.route_for_sni sni (id +:+ "." +:+ domain) = Some r) as Hsni.
  { apply route_name_route_for_sni in Hname as [?|[_ ?]]; done. }
  destruct (route_at_keys (se_targets s') r) as [route Hroute]; [by rewrite Hk'|]. exists route. eexists. split; [done|].
  split; [cbn [step message]; rewrite Hdec; reflexivity|]. unfold open. rewrite Hsni. cbn [mbind option_bind received se_targets]. 
  rewrite Hroute. rewrite (proj2 (Nat.leb_gt _ _)) by done. done.
Qed.

Section Streams.
Context (from_str : string -> option Json) (hostname : string).

(** What an input queues for a connection. *)
Definition item_for (conn : Z) (i : Input) : list Inbound :=
  match i with
  | InMessage _ (MBinary frame) Queue =>
      match decode_data_frame frame with Some (c, payload) => if c =? conn then [InData payload] else [] | None => [] end
  | InMessage _ (MText text) Queue =>
      match decode from_str text with Ok (Some (SEnd c)) => if c =? conn then [InEnd] else [] | _ => [] end
  | _ => []
  end.

(** A channel that is there after a turn and not newer was there before, and so was its task. *)
Lemma change_back i s s' conn channel :
  change from_str hostname i s s' -> se_channels s' !! conn = Some channel -> (cn_task channel < se_next_task s)%nat ->
  se_channels s !! conn = Some channel.
Proof.
  intros [-> _ _ _ _|c ch error Hch -> _ _ _ _|c route peer sni r _ _ _ _ -> _ _ _ _] Hin Hlt; [done|by apply lookup_delete_Some in Hin as [_ ?]|].
  apply lookup_insert_Some in Hin as [[_ <-]|[_ ?]]; [cbn in Hlt; lia|done].
Qed.

Lemma change_task_back i s s' id t' :
  change from_str hostname i s s' -> se_tasks s' !! id = Some t' -> (id < se_next_task s)%nat -> is_Some (se_tasks s !! id).
Proof.
  intros [_ _ _ _ Ht|c ch error _ _ _ _ _ Ht|c route peer sni r _ _ _ _ _ _ _ _ Ht] Hin Hlt.
  - destruct (Ht _ _ Hin) as (t & ? & _). by eexists.
  - destruct (Ht _ _ Hin) as (t & ? & _). by eexists.
  - rewrite Ht, lookup_insert_ne in Hin by lia. by eexists.
Qed.

Lemma change_next i s s' : change from_str hostname i s s' -> (se_next_task s <= se_next_task s')%nat.
Proof. intros [_ -> _ _ _|? ? ? _ _ -> _ _ _|? ? ? ? ? _ _ _ _ _ -> _ _ _]; lia. Qed.

Lemma loop_back idle names inputs : forall s s' end_ conn channel t',
  session_loop from_str hostname idle names inputs s = (s', end_) -> se_channels s' !! conn = Some channel ->
  se_tasks s' !! cn_task channel = Some t' -> (cn_task channel < se_next_task s)%nat ->
  se_channels s !! conn = Some channel /\ is_Some (se_tasks s !! cn_task channel).
Proof.
  induction inputs as [|i inputs IH]; intros s s' end_ conn channel t' H Hch Ht Hlt; cbn [session_loop] in H; [injection H as <- <-; split; [done|by eexists]|].
  destruct (step from_str hostname idle names i s) as [s1 end1] eqn:E. pose proof (step_change _ _ _ _ _ _ _ _ E) as Hc. pose proof (change_next _ _ _ Hc).
  assert (se_channels s1 !! conn = Some channel /\ is_Some (se_tasks s1 !! cn_task channel)) as [Hch1 [t1 Ht1]].
  { destruct end1; [injection H as <- <-; split; [done|by eexists]|]. eapply IH; [exact H|done|done|lia]. }
  split; [by eapply change_back|by eapply change_task_back].
Qed.

(** What a delivery does to a connection's queue. *)
Lemma deliver_queue c item queued conn channel t t' s :
  session_ok s -> se_channels s !! conn = Some channel -> se_tasks s !! cn_task channel = Some t ->
  se_channels (deliver c item queued s) !! conn = Some channel -> se_tasks (deliver c item queued s) !! cn_task channel = Some t' ->
  ta_inbound t' = ta_inbound t ++ (match queued with Queue => if c =? conn then [item] else [] | _ => [] end).
Proof.
  intros Hok Hch Ht. unfold deliver. destruct (se_channels s !! c) as [channel'|] eqn:Ec.
  2: { intros _ Ht'. rewrite Ht in Ht'. injection Ht' as <-. destruct queued; rewrite ?app_nil_r; try done.
       destruct (Z.eqb_spec c conn) as [->|]; [congruence|by rewrite app_nil_r]. }
  destruct (Z.eqb_spec c conn) as [->|Hne].
  - assert (channel' = channel) as -> by congruence. destruct queued.
    + intros _. cbn. rewrite lookup_alter_eq, Ht. by intros [= <-].
    + intros _ Ht'. rewrite Ht in Ht'. injection Ht' as <-. by rewrite app_nil_r.
    + unfold stalled. rewrite Hch. cbn. rewrite lookup_delete_eq. done.
  - assert (cn_task channel' <> cn_task channel) as Htask by (intros Heq; apply Hne; by eapply so_inj).
    intros _ Ht'. assert (ta_inbound t' = ta_inbound t) as ->; [|destruct queued; by rewrite app_nil_r].
    destruct queued; cbn in Ht'; [rewrite lookup_alter_ne in Ht' by done|..|unfold stalled in Ht'; rewrite Ec in Ht'; cbn in Ht'; rewrite lookup_alter_ne in Ht' by done]; congruence.
Qed.

Lemma step_queue idle names i s s' end_ conn channel t t' :
  session_ok s -> step from_str hostname idle names i s = (s', end_) ->
  se_channels s !! conn = Some channel -> se_tasks s !! cn_task channel = Some t ->
  se_channels s' !! conn = Some channel -> se_tasks s' !! cn_task channel = Some t' ->
  ta_inbound t' = ta_inbound t ++ item_for conn i.
Proof.
  intros Hok H Hch Ht Hch' Ht'.
  assert (se_tasks s' = se_tasks s -> ta_inbound t' = ta_inbound t ++ []) as Hsame by (intros E; rewrite E in Ht'; rewrite app_nil_r; congruence).
  assert (session_ok (received 0 s) /\ forall now, session_ok (received now s)) as [_ Hrec] by (split; [|intros now]; by destruct Hok; constructor).
  destruct i as [now m queued|error| |task finished|now|[next|]|]; cbn [step item_for] in *; try (injection H as <- <-; by apply Hsame).
  - destruct m as [frame|text|frame|]; cbn [message] in H; [| |injection H as <- <-; destruct queued; by apply Hsame..].
    + destruct (decode_data_frame frame) as [[c payload]|]; injection H as <- <-; [|destruct queued; by apply Hsame].
      apply (deliver_queue c (InData payload) queued conn channel t t' (received now s)) in Ht'; try done; by destruct queued.
    + destruct (decode from_str text) as [[m|]|]; [|injection H as <- <-; destruct queued; by apply Hsame..].
      destruct m as [| |c peer sni alpn| | | |c|c code]; cbn [server_message] in H; injection H as <- <-; try (destruct queued; by apply Hsame).
      * assert (ta_inbound t' = ta_inbound t) as ->; [|destruct queued; by rewrite app_nil_r].
        unfold open in Ht'. repeat case_match; cbn in Ht'; try congruence.
        rewrite lookup_insert_ne in Ht'; [congruence|]. destruct (so_tasks _ Hok _ _ Hch). lia.
      * apply (deliver_queue c InEnd queued conn channel t t' (received now s)) in Ht'; try done; by destruct queued.
      * assert (ta_inbound t' = ta_inbound t) as ->; [|destruct queued; by rewrite app_nil_r].
        unfold reset in Ht', Hch'. cbn in Ht', Hch'. destruct (se_channels s !! c) as [channel'|] eqn:Ec; [|cbn in Ht'; congruence]. cbn in Ht', Hch'.
        apply lookup_delete_Some in Hch' as [Hne _]. rewrite lookup_alter_ne in Ht'; [congruence|].
        intros Heq. apply Hne. by eapply so_inj.
  - injection H as <- <-. rewrite app_nil_r. unfold task_ended in Ht'. destruct (se_tasks s !! task) as [t0|]; [|congruence].
    destruct finished; cbn in Ht'; repeat case_match; cbn in Ht'; apply lookup_delete_Some in Ht' as [_ ?]; congruence.
  - destruct (_ <? _); injection H as <- <-; by apply Hsame.
  - destruct (bool_decide _); injection H as <- <-; by apply Hsame.
Qed.

(** C28: connections do not mix: over any stretch of a session through which a connection stays open, its task is given
    exactly what the bridge received for that connection's number and had room for, in order, whatever happens to other
    connections in between; its target stays what it was started with, and it is not aborted. *)
Theorem stream_in_order idle names inputs s s' conn channel t t' :
  session_ok s -> se_channels s !! conn = Some channel -> se_tasks s !! cn_task channel = Some t ->
  session_loop from_str hostname idle names inputs s = (s', None) ->
  se_channels s' !! conn = Some channel -> se_tasks s' !! cn_task channel = Some t' ->
  ta_inbound t' = ta_inbound t ++ concat (map (item_for conn) inputs) /\ ta_target t' = ta_target t /\
  ta_conn t' = conn /\ ta_aborted t' = false.
Proof.
  revert s t. induction inputs as [|i inputs IH]; intros s t Hok Hch Ht H Hch' Ht'; cbn [session_loop] in H.
  - injection H as <-. rewrite app_nil_r. destruct (so_tasks _ Hok _ _ Hch) as [_ Hc]. destruct (Hc _ Ht) as [? ?].
    assert (t' = t) as -> by congruence. by split_and!.
  - destruct (step from_str hostname idle names i s) as [s1 [end1|]] eqn:E; [done|]. pose proof (step_change _ _ _ _ _ _ _ _ E) as Hc.
    destruct (so_tasks _ Hok _ _ Hch) as [Hlt _]. pose proof (change_next _ _ _ Hc).
    destruct (loop_back _ _ _ _ _ _ _ _ _ H Hch' Ht' ltac:(lia)) as [Hch1 [t1 Ht1]].
    destruct (IH _ _ (step_ok _ _ _ _ _ Hc Hok) Hch1 Ht1 H Hch' Ht') as (Hin & Htg & Hrest).
    rewrite Hin, (step_queue _ _ _ _ _ _ _ _ _ _ Hok E Hch Ht Hch1 Ht1). cbn. rewrite <- app_assoc. split_and!; [done| |apply Hrest..].
    rewrite Htg. destruct Hc as [_ _ _ _ Hk|? ? ? _ _ _ _ _ Hk|? ? ? ? ? _ _ _ _ _ _ _ _ Hk].
    + destruct (Hk _ _ Ht1) as (t0 & ? & _ & ? & _). congruence.
    + destruct (Hk _ _ Ht1) as (t0 & ? & _ & ? & _). congruence.
    + rewrite Hk, lookup_insert_ne in Ht1 by lia. congruence.
Qed.
End Streams.

(** ** What a connection sends *)

Lemma decode_encode_data_frame conn payload :
  0 <= conn <= U32_MAX -> decode_data_frame (encode_data_frame conn payload) = Some (conn, payload).
Proof.
  unfold U32_MAX, decode_data_frame, encode_data_frame, CONN_ID_SIZE. intros Hc.
  rewrite length_app, length_be_bytes, (proj2 (Nat.ltb_ge _ _)) by lia.
  rewrite take_app_length', drop_app_length' by (by rewrite length_be_bytes). by rewrite be_value_bytes_id by (cbn; lia).
Qed.

Definition sent_data (o : Outbound) : option (Z * bytes) := match o with OutFrame frame => decode_data_frame frame | OutControl _ => None end.

(** What a connection reads from its local side reaches the bridge in frames of its number that carry exactly those bytes in
    order, none larger than a frame may be, with one end after them, once there is nothing more to read. *)
Theorem reads_sent conn reads out ended :
  0 <= conn <= U32_MAX -> Forall (fun r => (length r <= MAX_PAYLOAD_SIZE)%nat) reads -> send_frames conn reads = (out, ended) ->
  exists data, Forall (fun r => r <> []) data /\ data `prefix_of` reads /\ omap sent_data out = map (pair conn) data /\
    (forall frame, OutFrame frame ∈ out -> (length frame <= CONN_ID_SIZE + MAX_PAYLOAD_SIZE)%nat) /\
    match ended with
    | None => data = reads /\ out = map (fun r => OutFrame (encode_data_frame conn r)) data
    | Some _ => data ++ [[]] `prefix_of` reads /\ out = map (fun r => OutFrame (encode_data_frame conn r)) data ++ [OutControl (CEnd conn)]
    end.
Proof.
  intros Hc Hr. revert out ended. induction Hr as [|r reads Hlen Hr IH]; intros out ended H; cbn [send_frames] in H.
  - injection H as <- <-. exists []. split_and!; first [done|apply prefix_nil|by intros frame ?%elem_of_nil|by constructor].
  - destruct r as [|b r].
    + injection H as <- <-. exists []. split_and!; first [done|apply prefix_nil|by constructor|by exists reads|intros frame Hin; by apply list_elem_of_singleton in Hin].
    + destruct (send_frames conn reads) as [out' ended'] eqn:E. destruct (IH _ _ eq_refl) as (data & Hne & Hpre & Hsent & Hsize & Hend).
      injection H as <- <-. exists ((b :: r) :: data). split_and!.
      * by constructor.
      * by apply prefix_cons.
      * cbn [omap list_omap sent_data map]. rewrite decode_encode_data_frame by done. cbn. f_equal. exact Hsent.
      * intros frame [Heq|Hin]%elem_of_cons; [|auto]. injection Heq as ->. unfold encode_data_frame. rewrite length_app, length_be_bytes. unfold CONN_ID_SIZE. lia.
      * destruct ended'; destruct Hend as [Hd ->]; (split; [|done]); [by apply prefix_cons|by rewrite Hd].
Qed.

(** ** The certificate that is served *)

Section Certificates.
Context (acceptor_ok : string -> string -> string -> bool).

Definition check_all (checks : list (option (option (string * string * string)) * bool * bool)) (r : Refresher) : Refresher :=
  fold_left (fun r c => check_certificate acceptor_ok c.1.1 c.1.2 c.2 r) checks r.

(** A tunnel serves with a certificate that fits its private key, the newest one it learnt of that does; its name, token
    and key never change, and with a working store the stored identity is the one that serves. *)
Theorem serves_newest checks r :
  rf_identity r = rf_serving r -> accepts acceptor_ok (rf_serving r) = true -> last (rf_saved r) = Some (rf_serving r) ->
  Forall (fun c => c.1.2 = true /\ c.2 = true) checks ->
  let r' := check_all checks r in
  rf_identity r' = rf_serving r' /\ accepts acceptor_ok (rf_serving r') = true /\ last (rf_saved r') = Some (rf_serving r') /\
  id_id (rf_serving r') = id_id (rf_serving r) /\ id_token (rf_serving r') = id_token (rf_serving r) /\
  id_private_key (rf_serving r') = id_private_key (rf_serving r) /\
  forall c certificate chain expiry, last checks = Some c -> c.1.1 = Some (Some (certificate, chain, expiry)) ->
    acceptor_ok certificate chain (id_private_key (rf_serving r)) = true -> id_certificate (rf_serving r') = certificate.
Proof.
  intros H1 H2 H3 Hall. induction checks as [|c checks IH] using rev_ind; cbn zeta; [by split_and!|].
  apply Forall_app in Hall as [Hall Hc]. apply List.Forall_inv in Hc. specialize (IH Hall). cbn zeta in IH. destruct IH as (I1 & I2 & I3 & I4 & I5 & I6 & I7).
  unfold check_all in *. rewrite fold_left_app. cbn [fold_left]. set (r1 := fold_left _ checks r) in *.
  assert (forall c0 certificate chain expiry, last (checks ++ [c]) = Some c0 -> c0.1.1 = Some (Some (certificate, chain, expiry)) -> c.1.1 = Some (Some (certificate, chain, expiry))) as Hlast.
  { intros c0 certificate chain expiry. rewrite last_snoc. by intros [= ->]. }
  unfold check_certificate. destruct (c.1.1) as [[[[certificate chain] expiry]|]|] eqn:Ec; [|split_and!; try done; intros c0 ct ch ex Hl Hx; discriminate (Hlast _ _ _ _ Hl Hx)..].
  destruct (String.eqb_spec certificate (id_certificate (rf_identity r1))) as [Heq|Hne].
  - split_and!; try done. intros c0 ct ch ex Hl Hx _. injection (Hlast _ _ _ _ Hl Hx) as <- <- <-. congruence.
  - set (renewed := mkIdentity _ _ _ _ _ _ _). destruct (accepts acceptor_ok renewed) eqn:Ea; cbn [negb].
    + cbn. destruct Hc as [Hst Hsv]. rewrite Hst, Hsv. cbn. rewrite last_snoc. split_and!; try done; try congruence.
      intros c0 ct ch ex Hl Hx _. by injection (Hlast _ _ _ _ Hl Hx) as <- <- <-.
    + split_and!; try done. intros c0 ct ch ex Hl Hx Hok. injection (Hlast _ _ _ _ Hl Hx) as <- <- <-.
      unfold accepts, renewed in Ea. cbn in Ea. rewrite I1, I6, Hok in Ea. done.
Qed.
End Certificates.

(** ** Concrete runs *)
Module TunnelDemo.

(** A server that opens connection 1 for a visitor of "app.abc.t". *)
Definition demo_from_str (text : string) : option Json :=
  if String.eqb text "open" then Some (ser_server (SOpen 1 "192.0.2.1:5" "app.abc.t" "")) else None.
Definition demo_routes : Routes := [("app", mkRoute "localhost:80" None)].
Definition demo_supervisor : Supervisor := mkSupervisor 0 (mkStatus StConnecting demo_routes None 0 None None) [].
Definition demo_turn : Turn :=
  mkTurn false demo_routes (AttachDone (Ok (mkAttachedSession "s" 15000 45000))) 1000
    [InMessage 2000 (MText "open") Queue; InMessage 3000 (MBinary [0; 0; 0; 1; 7]) Queue; InSocketEnd] 0.
Definition demo_refused : Turn := mkTurn false demo_routes (AttachDone (Err (TunnelAttach "bad_token"))) 5000 [] 0.
Definition demo_run : Supervisor * option (result unit TunnelError) := run demo_from_str "abc.t" [demo_turn; demo_refused] demo_supervisor.

Lemma demo_tunnel_runs : run demo_from_str "abc.t" [demo_turn; demo_refused] demo_supervisor = (demo_run.1, demo_run.2).
Proof. unfold demo_run. apply surjective_pairing. Qed.

Lemma connections_reported_witness :
  exists l, omap opened_of (sp_events demo_run.1) ≡ₚ omap closed_of (sp_events demo_run.1) ++ l /\ (length l <= MAX_CONNS)%nat /\
    su_connections (sp_status demo_run.1) = length l /\ (demo_run.2 <> None -> l = []).
Proof.
  apply (connections_reported demo_from_str "abc.t" [demo_turn; demo_refused] demo_supervisor).
  - split; [reflexivity|constructor].
  - repeat (apply Forall_cons; split); [change (NoDup [1]); apply NoDup_singleton|constructor|constructor].
  - exact demo_tunnel_runs.
Defined.

Lemma tunnel_keeps_trying_witness :
  match demo_run.2 with
  | None => Forall fair_wait (sp_events demo_run.1)
  | Some res =>
      exists l, sp_events demo_run.1 = l ++ [Stopped match res with Err e => Some (error_text e) | Ok _ => None end] /\ Forall fair_wait l /\
        su_state (sp_status demo_run.1) = StStopped /\ match res with Ok _ => Exists asked_to_stop [demo_turn; demo_refused] | Err e => fatal e end
  end.
Proof.
  apply (tunnel_keeps_trying demo_from_str "abc.t" [demo_turn; demo_refused] demo_supervisor); [reflexivity|reflexivity|exact demo_tunnel_runs].
Defined.

Definition demo_session : Session := attached_session (mkAttachedSession "s" 15000 45000) demo_routes 1000 demo_supervisor.

Lemma visitor_reaches_target_witness :
  exists route s'', route_at (se_targets demo_session) "app" = Some route /\
    step demo_from_str "abc.t" 45000 ["app"] (InMessage 2000 (MText "open") Queue) demo_session = (s'', None) /\
    se_channels s'' = <[1 := mkChannel "app" 0]> (se_channels demo_session) /\
    se_tasks s'' = <[0%nat := mkTask 1 (target route)
      ((fun version => Client.header version "192.0.2.1:5" "app.abc.t") <$> proxy_protocol route) [] false]> (se_tasks demo_session) /\
    se_events s'' = se_events demo_session ++ [ConnectionOpened 1 "app" "192.0.2.1:5"].
Proof.
  apply (visitor_reaches_target demo_from_str "abc" "t" "app.abc.t" "app" 1 "192.0.2.1:5" "" "open" 2000 Queue 45000 ["app"] [] demo_session demo_session);
    try reflexivity.
  - discriminate.
  - left.
  - cbn. rewrite map_size_empty. unfold MAX_CONNS. lia.
Defined.

Definition demo_open : Session :=
  mkSession (<[1 := mkChannel "app" 0]> ∅) (<[0%nat := mkTask 1 "localhost:80" None [] false]> ∅) 1 demo_routes
    (mkStatus StConnected demo_routes (Some "s") 1 None (Some 1000)) [] [] 2000.

Lemma demo_open_ok : session_ok demo_open.
Proof.
  constructor; cbn.
  - rewrite map_size_insert_None, map_size_empty by apply lookup_empty. unfold MAX_CONNS. lia.
  - by rewrite map_size_insert_None, map_size_empty by apply lookup_empty.
  - intros conn channel [[<- <-]|[_ H]]%lookup_insert_Some; [|by rewrite lookup_empty in H]. cbn. split; [lia|].
    intros t [[_ <-]|[H _]]%lookup_insert_Some; [done|by destruct H].
  - intros c c' ch ch' [[<- <-]|[_ H]]%lookup_insert_Some [[<- <-]|[_ H']]%lookup_insert_Some; rewrite ?lookup_empty in *; done.
  - intros id t [[<- _]|[_ H]]%lookup_insert_Some; [lia|by rewrite lookup_empty in H].
Qed.

Lemma stream_in_order_witness :
  exists t', ta_inbound t' = [InData [7]] /\ ta_target t' = "localhost:80".
Proof.
  exists (mkTask 1 "localhost:80" None [InData [7]] false).
  destruct (stream_in_order demo_from_str "abc.t" 45000 ["app"] [InMessage 3000 (MBinary [0; 0; 0; 1; 7]) Queue] demo_open
    (fst (step demo_from_str "abc.t" 45000 ["app"] (InMessage 3000 (MBinary [0; 0; 0; 1; 7]) Queue) demo_open)) 1 (mkChannel "app" 0)
    (mkTask 1 "localhost:80" None [] false) (mkTask 1 "localhost:80" None [InData [7]] false)) as (H1 & H2 & _).
  - exact demo_open_ok.
  - apply lookup_insert_eq.
  - apply lookup_insert_eq.
  - reflexivity.
  - reflexivity.
  - reflexivity.
  - split; [exact H1|exact H2].
Defined.
End TunnelDemo.
