(* ===== verification/Dns.v ===== *)
(** * Dns: challenge records at the DNS provider, [dns.rs]

    Creating, finding, deleting and sweeping TXT records, and waiting until resolvers see them. The provider and the
    resolvers answer as they like: each answer is a function of the requests so far. Pauses are steps too. *)

From Stdlib Require Import ZArith Lia Ascii String List.
From stdpp Require Import base list strings gmap.
From S2P Require Import Prelude Text Names Record Failure Store Service Jobs Acme.

Inductive DnsProvider := Cloudflare | ChallTestSrv | Exec.

Record Listed := mkListed { ls_id : string; ls_name : string; ls_content : string; ls_created_on : string }.
Record CloudflareResponse := mkCloudflareResponse { cr_success : bool; cr_created : option string; cr_errors : list (Z * string) }.

Definition DELETE_TRIES : nat := 4.
Definition CLOUDFLARE_IDENTICAL_RECORD : Z := 81058.
Definition MAX_PAGES : nat := 1000.
Definition DNS_SWEEP_LIMIT : nat := 1000.

(** What is asked of the provider, and the pauses, in order. *)
Inductive DnsStep :=
| RqCreate (name value : string)
| RqFind (name : string)
| RqDelete (id : string)
| RqList (page : nat)
| RqSet (host value : string)
| RqClear (host : string)
| RqHook (action name value : string)
| RqResolve (resolver name : string)
| Pause (ms : Z).

Definition DM (A : Type) : Type := list DnsStep -> A * list DnsStep.
Definition dret {A} (a : A) : DM A := fun l => (a, l).
Definition dbind {A B} (m : DM A) (k : A -> DM B) : DM B := fun l => let '(a, l') := m l in k a l'.
Notation "x <-% m ;; k" := (dbind m (fun x => k)) (at level 100, m at next level, right associativity).
Definition ask {A} (r : DnsStep) (answer : list DnsStep -> A) : DM A := fun l => (answer (l ++ [r]), l ++ [r]).
Definition pause (ms : Z) : DM unit := ask (Pause ms) (fun _ => tt).

(** [trim_matches] of the double quote *)
Fixpoint trim_quotes_l (l : bytes) : bytes := match l with b :: l' => if b =? 34 then trim_quotes_l l' else l | [] => [] end.
Definition trim_quotes (s : string) : string := of_bytes (rev (trim_quotes_l (rev (trim_quotes_l (as_bytes s))))).

Definition status_success (status : Z) : bool := (200 <=? status) && (status <=? 299).
Definition status_server_error (status : Z) : bool := (500 <=? status) && (status <=? 599).

Section Provider.
(** The provider's and the resolvers' answers. A request that fails does so with a text. *)
Context (created_reply : list DnsStep -> result (Z * option CloudflareResponse) string)
  (found_reply : list DnsStep -> result (list Listed) string)
  (deleted_reply : list DnsStep -> result (Z * option string) string)
  (listed_reply : list DnsStep -> result (list Listed * Z) string)
  (set_reply : list DnsStep -> result Z string) (clear_reply : list DnsStep -> result unit string)
  (hook_reply : list DnsStep -> result unit string)
  (resolved : list DnsStep -> option (Z * list (Z * string))).
Context (provider : DnsProvider).

Definition find_txt (name value : string) : DM (result (option string) string) :=
  match provider with
  | Cloudflare =>
      reply <-% ask (RqFind name) found_reply;;
      dret match reply with
           | Ok records => Ok (ls_id <$> List.find (fun r => String.eqb (trim_quotes (ls_content r)) value) records)
           | Err error => Err error
           end
  | _ => dret (Ok None)
  end.

(** A record looked up where failing to is no error. *)
Definition find_or_none (name value : string) : DM (option string) :=
  found <-% find_txt name value;; dret match found with Ok id => id | Err _ => None end.

Definition identical (errors : list (Z * string)) : bool :=
  existsb (fun e => (e.1 =? CLOUDFLARE_IDENTICAL_RECORD) || str_contains e.2 "identical record already exists") errors.

Definition creation_failed (errors : list (Z * string)) : string :=
  let messages := List.filter (fun m => negb (str_is_empty m)) (map snd errors) in
  match messages with [] => "DNS record creation failed" | _ => String.concat ", " messages end.

Definition create_txt (name value : string) : DM (result TxtRecord string) :=
  match provider with
  | Cloudflare =>
      reply <-% ask (RqCreate name value) created_reply;;
      match reply with
      | Err error => dret (Err error)
      | Ok (_, None) => dret (Err "DNS record creation failed")
      | Ok (status, Some body) =>
          match cr_created body, status_success status && cr_success body with
          | Some id, true => dret (Ok (mkTxtRecord name value (Some id)))
          | _, _ =>
              if identical (cr_errors body) then id <-% find_or_none name value;; dret (Ok (mkTxtRecord name value id))
              else dret (Err (creation_failed (cr_errors body)))
          end
      end
  | ChallTestSrv =>
      reply <-% ask (RqSet (name +:+ ".") value) set_reply;;
      dret match reply with
           | Err error => Err error
           | Ok status => if status_success status then Ok (mkTxtRecord name value None)
                          else Err ("DNS record creation failed: HTTP " +:+ dec_string status)
           end
  | Exec =>
      reply <-% ask (RqHook "create" name value) hook_reply;;
      dret match reply with Err error => Err error | Ok _ => Ok (mkTxtRecord name value None) end
  end.

Definition delete_failed (id last : string) : result unit string := Err ("deleting DNS record " +:+ id +:+ " failed: " +:+ last).

(** [delete_id] from some try on: the pause so far, in milliseconds, and the last failure. *)
Fixpoint delete_loop (id : string) (tries : nat) (wait : Z) (last : string) : DM (result unit string) :=
  match tries with
  | O => dret (delete_failed id last)
  | S tries' =>
      reply <-% ask (RqDelete id) deleted_reply;;
      match reply with
      | Ok (status, retry_after) =>
          if status_success status || (status =? 404) then dret (Ok tt)
          else
            let last := "HTTP " +:+ dec_string status in
            if negb ((status =? 429) || status_server_error status) then dret (delete_failed id last)
            else
              let wait := match (let* value := retry_after in parse_uint U64_MAX (as_bytes (str_trim value))) with
                          | Some seconds => Z.max wait (Z.min seconds 30 * 1000)
                          | None => wait
                          end in
              _ <-% (if (0 <? tries')%nat then pause wait else dret tt);;
              delete_loop id tries' (wait * 2) last
      | Err error =>
          _ <-% (if (0 <? tries')%nat then pause wait else dret tt);;
          delete_loop id tries' (wait * 2) error
      end
  end.

Definition delete_id (id : string) : DM (result unit string) :=
  match provider with Cloudflare => delete_loop id DELETE_TRIES 1000 "" | _ => dret (Ok tt) end.

(** [delete_txt]: whether the record is gone. *)
Definition delete_txt (record : TxtRecord) : DM bool :=
  deleted <-%
    match provider with
    | Cloudflare =>
        id <-% match tx_id record with Some id => dret (Some id) | None => find_or_none (tx_name record) (tx_value record) end;;
        match id with Some id => delete_id id | None => dret (Ok tt) end
    | ChallTestSrv => ask (RqClear (tx_name record +:+ ".")) clear_reply
    | Exec => ask (RqHook "delete" (tx_name record) (tx_value record)) hook_reply
    end;;
  dret match deleted with Ok _ => true | Err _ => false end.

(** The pages from one on; the loop ends at page 1000, so fuel for the pages up to it is enough. *)
Fixpoint list_loop (fuel page : nat) (records : list Listed) : DM (result (list Listed) string) :=
  match fuel with
  | O => dret (Ok records)
  | S fuel' =>
      reply <-% ask (RqList page) listed_reply;;
      match reply with
      | Err error => dret (Err error)
      | Ok (result, total_pages) =>
          let records := records ++ result in
          if (length result =? 0)%nat || (Z.max total_pages 1 <=? Z.of_nat page) || (MAX_PAGES <=? page)%nat
          then dret (Ok records)
          else list_loop fuel' (S page) records
      end
  end.

Definition challenge_records : DM (result (option (list Listed)) string) :=
  match provider with
  | Cloudflare =>
      found <-% list_loop MAX_PAGES 1 [];;
      dret match found with Ok records => Ok (Some records) | Err error => Err error end
  | _ => dret (Ok None)
  end.

Section Sweep.
Context `{HT : TimeText}.
Context (domain : string) (before : Z) (in_flight : list string) (limit : nat) (every : Z).

Definition starts_with (p s : string) : bool := bool_decide (is_Some (str_strip_prefix p s)).
Definition ends_with (p s : string) : bool := bool_decide (is_Some (str_strip_suffix p s)).

(** What issuance makes: a challenge name under the domain, and a SHA-256 in base64url. *)
Definition ours (r : Listed) : bool :=
  let name := to_ascii_lowercase (ls_name r) in
  let value := trim_quotes (ls_content r) in
  starts_with "_acme-challenge." name && (ends_with ("." +:+ domain) name || String.eqb name ("_acme-challenge." +:+ domain))
  && (str_len value =? 43)%nat
  && forallb (fun b => is_ascii_alphanumeric b || (b =? 45) || (b =? 95)) (as_bytes value).

Definition old (r : Listed) : bool := match parse_iso (ls_created_on r) with Some at_ => at_ <? before | None => false end.

Definition sweepable (r : Listed) : bool := ours r && old r && negb (existsb (String.eqb (to_ascii_lowercase (ls_name r))) in_flight).

Fixpoint sweep_loop (records : list Listed) (swept : nat) : DM nat :=
  match records with
  | [] => dret swept
  | r :: records' =>
      if (limit <=? swept)%nat then dret swept
      else if negb (sweepable r) then sweep_loop records' swept
      else
        deleted <-% delete_id (ls_id r);;
        match deleted with
        | Ok _ => _ <-% pause every;; sweep_loop records' (S swept)
        | Err _ => dret swept
        end
  end.

Definition sweep : DM (result nat string) :=
  found <-% challenge_records;;
  match found with
  | Err error => dret (Err error)
  | Ok None => dret (Ok 0%nat)
  | Ok (Some records) => swept <-% sweep_loop records 0;; dret (Ok swept)
  end.
End Sweep.

(** ** Propagation *)

Definition RESOLVERS : list string := ["https://cloudflare-dns.com/dns-query"; "https://dns.google/resolve"].

Fixpoint resolvers_loop (resolvers : list string) (record : TxtRecord) : DM bool :=
  match resolvers with
  | [] => dret false
  | resolver :: rest =>
      reply <-% ask (RqResolve resolver (tx_name record)) resolved;;
      match reply with
      | Some (status, answers) =>
          if negb (status =? 0) then resolvers_loop rest record
          else if existsb (fun a => (a.1 =? 16) && String.eqb (trim_quotes a.2) (tx_value record)) answers then dret true
          else resolvers_loop rest record
      | None => resolvers_loop rest record
      end
  end.
Definition resolvers_see (record : TxtRecord) : DM bool := resolvers_loop RESOLVERS record.

Fixpoint all_visible (records : list TxtRecord) : DM bool :=
  match records with
  | [] => dret true
  | r :: records' => seen <-% resolvers_see r;; if seen : bool then all_visible records' else dret false
  end.

(** [wait_for_propagation]: whether all records were seen, [late l] being whether the deadline has passed; [None]: the fuel
    for its turns was too little. *)
Fixpoint propagation_loop (late : list DnsStep -> bool) (turns : nat) (records : list TxtRecord) : DM (option bool) :=
  match turns with
  | O => dret None
  | S turns' =>
      visible <-% all_visible records;;
      if visible : bool then dret (Some true)
      else fun l => if late l then (Some false, l) else (_ <-% pause 500;; propagation_loop late turns' records) l
  end.
Definition wait_for_propagation (late : list DnsStep -> bool) (timeout : Z) (turns : nat) (records : list TxtRecord) : DM (option bool) :=
  if (timeout =? 0) || bool_decide (length records = 0%nat) then dret (Some true) else propagation_loop late turns records.
End Provider.

(** ** What the operations ask *)

Definition deletes (l : list DnsStep) : list string := omap (fun s => match s with RqDelete id => Some id | _ => None end) l.

Lemma deletes_app l l' : deletes (l ++ l') = deletes l ++ deletes l'.
Proof. unfold deletes. by rewrite omap_app. Qed.

(** A record is gone by the provider's answer. *)
Definition gone (reply : result (Z * option string) string) : Prop :=
  exists status retry_after, reply = Ok (status, retry_after) /\ status_success status || (status =? 404) = true.

Section Operations.
Context (created_reply : list DnsStep -> result (Z * option CloudflareResponse) string)
  (found_reply : list DnsStep -> result (list Listed) string)
  (deleted_reply : list DnsStep -> result (Z * option string) string)
  (listed_reply : list DnsStep -> result (list Listed * Z) string).

(** A deletion asks for its own record, a few times, and succeeds on the provider's word. *)
Lemma delete_loop_trace id tries : forall wait last l r l',
  delete_loop deleted_reply id tries wait last l = (r, l') ->
  exists steps, l' = l ++ steps /\ Forall (eq id) (deletes steps) /\ (length (deletes steps) <= tries)%nat /\
    (r = Ok tt -> gone (deleted_reply l')).
Proof.
  induction tries as [|tries IH]; intros wait last l r l' H; cbn [delete_loop] in H.
  - injection H as <- <-. exists []. rewrite app_nil_r. split_and!; [done|constructor|cbn; lia|done].
  - unfold dbind, ask, dret in H.
    assert (forall steps, Forall (eq id) (deletes steps) -> (length (deletes steps) <= tries)%nat ->
      Forall (eq id) (deletes ([RqDelete id] ++ steps)) /\ (length (deletes ([RqDelete id] ++ steps)) <= S tries)%nat) as Hone.
    { intros steps Hs Hl. change (deletes ([RqDelete id] ++ steps)) with (id :: deletes steps). split; [by constructor|cbn [length]; lia]. }
    assert (forall wait wait' last, (let '(_, l1) := (if (0 <? tries)%nat then pause wait else dret tt) (l ++ [RqDelete id]) in
        delete_loop deleted_reply id tries wait' last l1) = (r, l') ->
      exists steps, l' = l ++ steps /\ Forall (eq id) (deletes steps) /\ (length (deletes steps) <= S tries)%nat /\ (r = Ok tt -> gone (deleted_reply l'))) as Hagain.
    { intros w w' la Ha. destruct (0 <? tries)%nat; cbn in Ha; destruct (IH _ _ _ _ _ Ha) as (steps & -> & Hs & Hl & Hr).
      - exists ([RqDelete id] ++ [Pause w] ++ steps). rewrite !app_assoc. split; [by rewrite <- !app_assoc|].
        rewrite <- (app_assoc [RqDelete id]). destruct (Hone ([Pause w] ++ steps)) as [? ?]; [done|done|]. by rewrite <- !app_assoc in *.
      - exists ([RqDelete id] ++ steps). rewrite !app_assoc. destruct (Hone steps) as [? ?]; [done|done|]. by rewrite <- !app_assoc in *. }
    destruct (deleted_reply (l ++ [RqDelete id])) as [[status retry_after]|error] eqn:Er; [|by eapply Hagain].
    destruct (status_success status || (status =? 404)) eqn:Eg; [|destruct (negb _); [|by eapply Hagain]];
      injection H as <- <-; exists [RqDelete id]; (split_and!; [done|by constructor|cbn; lia|]); [intros _; rewrite Er; by eexists _, _|done].
Qed.

Lemma delete_id_trace provider id l r l' :
  delete_id deleted_reply provider id l = (r, l') ->
  exists steps, l' = l ++ steps /\ Forall (eq id) (deletes steps) /\ (length (deletes steps) <= DELETE_TRIES)%nat /\
    (provider = Cloudflare -> r = Ok tt -> gone (deleted_reply l')).
Proof.
  unfold delete_id. destruct provider; [intros H; destruct (delete_loop_trace _ _ _ _ _ _ _ H) as (steps & ? & ? & ? & ?); exists steps; by split_and!| |].
  all: intros [= <- <-]; exists []; rewrite app_nil_r; (split_and!; [done|constructor|cbn; lia|done]).
Qed.

Section Sweeps.
Context `{HT : TimeText}.
Context (domain : string) (before : Z) (in_flight : list string) (limit : nat) (every : Z).
Abbreviation may_sweep := (sweepable domain before in_flight).

Lemma sweep_loop_trace provider records : forall swept l n l',
  sweep_loop deleted_reply provider domain before in_flight limit every records swept l = (n, l') -> (swept <= limit)%nat ->
  (swept <= n <= limit)%nat /\
  exists steps, l' = l ++ steps /\ (length (deletes steps) <= DELETE_TRIES * (limit - swept))%nat /\
    forall id, RqDelete id ∈ steps -> exists r, r ∈ records /\ ls_id r = id /\ may_sweep r = true.
Proof.
  assert (forall l : list DnsStep, exists steps, l = l ++ steps /\ steps = []) as Hnil by (intros l; exists []; by rewrite app_nil_r).
  induction records as [|r records IH]; intros swept l n l' H Hle; cbn [sweep_loop] in H.
  - injection H as <- <-. split; [lia|]. destruct (Hnil l) as (? & ? & ->). exists []. split_and!; [done|cbn; lia|]. by intros id ?%elem_of_nil.
  - destruct (limit <=? swept)%nat eqn:El; bsimp.
    { injection H as <- <-. split; [lia|]. exists []. rewrite app_nil_r. split_and!; [done|cbn; lia|]. by intros id ?%elem_of_nil. }
    destruct (may_sweep r) eqn:Es; cbn [negb] in H.
    + unfold dbind in H. destruct (delete_id deleted_reply provider (ls_id r) l) as [res l1] eqn:Ed.
      destruct (delete_id_trace _ _ _ _ _ Ed) as (steps & -> & Hs & Hl & _).
      assert (forall id, RqDelete id ∈ steps -> ls_id r = id) as Hid.
      { intros id Hin. rewrite Forall_forall in Hs. apply Hs. apply list_elem_of_omap. by exists (RqDelete id). }
      destruct res as [u|error].
      * destruct (IH _ _ _ _ H ltac:(lia)) as (Hn & steps' & -> & Hc & Hr). split; [lia|].
        exists (steps ++ [Pause every] ++ steps'). rewrite !app_assoc. split; [done|]. rewrite <- !app_assoc, !deletes_app. cbn [app deletes omap list_omap].
        rewrite length_app. change (deletes [Pause every]) with (@nil string). split; [unfold DELETE_TRIES in *; lia|].
        intros id [Hin|[Hin|Hin]%elem_of_cons]%elem_of_app; [exists r; split_and!; [left|auto|done]|done|].
        destruct (Hr _ Hin) as (r' & ? & ? & ?). exists r'. split_and!; [by right|done..].
      * injection H as <- <-. split; [lia|]. exists steps. split_and!; [done|unfold DELETE_TRIES in *; lia|].
        intros id Hin. exists r. split_and!; [left|auto|done].
    + destruct (IH _ _ _ _ H Hle) as (Hn & steps & -> & Hc & Hr). split; [done|]. exists steps. split_and!; [done..|].
      intros id Hin. destruct (Hr _ Hin) as (r' & ? & ? & ?). exists r'. split_and!; [by right|done..].
Qed.

(** A record the provider listed. *)
Definition was_listed (l : list DnsStep) (r : Listed) : Prop :=
  exists l0 page rs total, l0 ++ [RqList page] `prefix_of` l /\ listed_reply (l0 ++ [RqList page]) = Ok (rs, total) /\ r ∈ rs.

Lemma list_loop_trace fuel : forall page records l found l',
  list_loop listed_reply fuel page records l = (found, l') ->
  exists steps, l' = l ++ steps /\ deletes steps = [] /\ (length steps <= fuel)%nat /\
    forall rs r, found = Ok rs -> r ∈ rs -> r ∈ records \/ was_listed l' r.
Proof.
  induction fuel as [|fuel IH]; intros page records l found l' H; cbn [list_loop] in H.
  - injection H as <- <-. exists []. rewrite app_nil_r. split_and!; [done..|]. intros rs r [= <-]. auto.
  - unfold dbind, ask in H. destruct (listed_reply (l ++ [RqList page])) as [[rs total]|error] eqn:Er.
    + assert (forall r, r ∈ rs -> was_listed (l ++ [RqList page]) r) as Hnew by (intros r Hr; exists l, page, rs, total; by split_and!).
      destruct (_ || _ || _).
      * injection H as <- <-. exists [RqList page]. split_and!; [done..|cbn; lia|]. intros rs' r [= <-] [Hin|Hin]%elem_of_app; auto.
      * destruct (IH _ _ _ _ _ H) as (steps & -> & Hd & Hl & Hr). exists ([RqList page] ++ steps). rewrite app_assoc.
        split_and!; [done|done|cbn; lia|]. intros rs' r E Hin. destruct (Hr _ _ E Hin) as [[Hold|Hrs]%elem_of_app|Hw]; auto.
        right. destruct (Hnew _ Hrs) as (l0 & p & rs0 & t0 & Hp & Hrest). exists l0, p, rs0, t0. split; [|done]. by apply prefix_app_r.
    + injection H as <- <-. exists [RqList page]. split_and!; [done..|cbn; lia|done].
Qed.

(** Enough fuel: the loop stops by itself at the last page. *)
Lemma list_loop_fuel fuel more page records l :
  (1 <= page)%nat -> (MAX_PAGES < page + fuel)%nat ->
  list_loop listed_reply (fuel + more) page records l = list_loop listed_reply fuel page records l \/ (MAX_PAGES < page)%nat.
Proof.
  revert page records l. induction fuel as [|fuel IH]; intros page records l Hp Hf; [right; lia|]. cbn [list_loop plus]. unfold dbind, ask.
  destruct (listed_reply _) as [[rs total]|error]; [|by left]. destruct (_ || _ || _) eqn:E; [by left|].
  apply orb_false_iff in E as [_ E]. bsimp. destruct (IH (S page) (records ++ rs) (l ++ [RqList page])) as [Heq|Hlt]; [lia|lia|by left|lia].
Qed.

Lemma challenge_records_trace provider l found l' :
  challenge_records listed_reply provider l = (found, l') ->
  exists steps, l' = l ++ steps /\ deletes steps = [] /\ forall rs r, found = Ok (Some rs) -> r ∈ rs -> was_listed l' r.
Proof.
  unfold challenge_records. destruct provider; [|intros [= <- <-]; exists []; rewrite app_nil_r; by split_and!..].
  unfold dbind, dret. destruct (list_loop listed_reply MAX_PAGES 1 [] l) as [f l1] eqn:E. intros [= <- <-].
  destruct (list_loop_trace _ _ _ _ _ _ E) as (steps & -> & Hd & _ & Hr). exists steps. split_and!; [done..|]. intros rs r Hf Hin.
  destruct f as [rs'|]; [|done]. injection Hf as <-. destruct (Hr _ _ eq_refl Hin) as [?%elem_of_nil|?]; done.
Qed.

Lemma sweep_trace provider l res l' :
  sweep deleted_reply listed_reply provider domain before in_flight limit every l = (res, l') ->
  (forall n, res = Ok n -> (n <= limit)%nat) /\
  exists steps, l' = l ++ steps /\ (length (deletes steps) <= DELETE_TRIES * limit)%nat /\
    forall id, RqDelete id ∈ steps -> exists r, was_listed l' r /\ ls_id r = id /\ may_sweep r = true.
Proof.
  unfold sweep, dbind. destruct (challenge_records listed_reply provider l) as [found l1] eqn:E.
  destruct (challenge_records_trace _ _ _ _ E) as (steps & -> & Hd & Hw).
  assert (forall id, RqDelete id ∉ steps) as Hno.
  { intros id Hin. apply (not_elem_of_nil id). rewrite <- Hd. apply list_elem_of_omap. by exists (RqDelete id). }
  destruct found as [[records|]|error]; cbn [dret].
  - destruct (sweep_loop _ _ _ _ _ _ _ records 0 _) as [n l2] eqn:El. intros [= <- <-].
    destruct (sweep_loop_trace _ _ _ _ _ _ El) as (Hn & steps' & -> & Hc & Hr); [lia|]. split; [intros k [= <-]; lia|].
    exists (steps ++ steps'). rewrite app_assoc, deletes_app, Hd. split_and!; [done|cbn [app]; lia|].
    intros id [Hin|Hin]%elem_of_app; [by apply Hno in Hin|]. destruct (Hr _ Hin) as (r & Hin' & Hid & Hs). exists r. split_and!; try done.
    destruct (Hw _ _ eq_refl Hin') as (l0 & page & rs & total & Hp & Hrest). exists l0, page, rs, total. split; [|done]. by apply prefix_app_r.
  - intros [= <- <-]. split; [intros k [= <-]; lia|]. exists steps. split_and!; [done|rewrite Hd; cbn; lia|]. intros id Hin. by apply Hno in Hin.
  - intros [= <- <-]. split; [done|]. exists steps. split_and!; [done|rewrite Hd; cbn; lia|]. intros id Hin. by apply Hno in Hin.
Qed.
End Sweeps.

(** The names a sweep leaves alone are those of the challenges of every leased job. *)
Lemma sweep_dns_names owner now w names w' :
  sweep_dns owner now w = (Ok (Some names), w') ->
  forall job row i, jobs (fst w') !! job = Some row -> j_status row = Pending -> lease_free now row = false -> i ∈ j_identifiers row ->
    to_ascii_lowercase (challenge_name i) ∈ names.
Proof.
  intros Hx job row i Hjob Hst Hl Hi. unfold sweep_dns in Hx. apply bind_Ok in Hx as (current & w1 & _ & Hx).
  destruct (match (let* value := current in sweeper_lease value) with Some _ => _ | None => _ end); [done|].
  apply bind_Ok in Hx as (taken & w2 & _ & Hx). destruct taken; [|done]. apply bind_Ok in Hx as (ids & w3 & Hq & Hx).
  injection Hx as <- <-. apply query_Ok in Hq. unfold challenge_name. rewrite to_ascii_lowercase_app.
  change (to_ascii_lowercase "_acme-challenge.") with "_acme-challenge.".
  apply list_elem_of_fmap. exists i. split; [done|]. rewrite Hq. apply list_elem_of_In, in_concat. exists (j_identifiers row).
  split; [|by apply list_elem_of_In]. apply list_elem_of_In, list_elem_of_fmap. exists (job, row). split; [done|].
  apply list_elem_of_filter. split; [done|]. by apply elem_of_map_to_list.
Qed.

(** a sweep of leftover records, by the machine that holds the sweeper's lease, deletes only records the provider listed
    that are of issuance (a challenge name under the domain with a SHA-256) and older than the given time, and none with the
    name of a challenge of any job that was leased when the sweep read the jobs, so attempts that run keep their records. It
    deletes no more than its limit, with at most four requests for each. *)
Theorem sweep_spares_attempts `{HT : TimeText} provider owner now w names w' domain before limit every l res l' :
  sweep_dns owner now w = (Ok (Some names), w') ->
  sweep deleted_reply listed_reply provider domain before names limit every l = (res, l') ->
  (forall n, res = Ok n -> (n <= limit)%nat) /\
  exists steps, l' = l ++ steps /\ (length (deletes steps) <= DELETE_TRIES * limit)%nat /\
    forall id, RqDelete id ∈ steps -> exists r, was_listed l' r /\ ls_id r = id /\ ours domain r = true /\ old before r = true /\
      forall job row i, jobs (fst w') !! job = Some row -> j_status row = Pending -> lease_free now row = false -> i ∈ j_identifiers row ->
        to_ascii_lowercase (ls_name r) <> to_ascii_lowercase (challenge_name i).
Proof.
  intros Hnames Hsweep. destruct (sweep_trace _ _ _ _ _ _ _ _ _ Hsweep) as (Hn & steps & -> & Hc & Hr). split; [done|].
  exists steps. split_and!; [done..|]. intros id Hin. destruct (Hr _ Hin) as (r & Hw & Hid & Hs). apply andb_prop in Hs as [[Hours Hold]%andb_prop Hfl%negb_true_iff]. exists r.
  split_and!; [done..|]. intros job row i Hjob Hst Hl Hi Heq. pose proof (sweep_dns_names _ _ _ _ _ Hnames _ _ _ Hjob Hst Hl Hi) as Hm.
  apply not_true_iff_false in Hfl. apply Hfl. apply existsb_exists. exists (to_ascii_lowercase (challenge_name i)).
  split; [by apply list_elem_of_In|]. by apply String.eqb_eq.
Qed.
End Operations.

(** ** A concrete sweep *)
Module DnsDemo.
Import Demo.

Definition demo_sha : string := "0123456789012345678901234567890123456789-_Z".
Definition demo_record : Listed := mkListed "r1" "_acme-challenge.a.t.test" demo_sha "1000".
Definition demo_listed (l : list DnsStep) : result (list Listed * Z) string := Ok ([demo_record], 1).
Definition demo_deleted (l : list DnsStep) : result (Z * option string) string := Ok (200, None).
Definition demo_leased : Db := mkDb ∅ ∅ ∅ (<[DNS_SWEEPER_KEY := lease_text "m" 4000]> ∅) ∅.

Lemma sweep_spares_attempts_witness :
  exists r, was_listed demo_listed [RqList 1; RqDelete "r1"; Pause 250] r /\ ls_id r = "r1" /\ ours "t.test" r = true.
Proof.
  destruct (sweep_spares_attempts demo_deleted demo_listed Cloudflare "m" 4000 (empty_db, []) [] (demo_leased, []) "t.test" 2000 1000 250
    [] (Ok 1%nat) [RqList 1; RqDelete "r1"; Pause 250]) as (_ & steps & Hl & _ & Hr).
  - reflexivity.
  - vm_compute. reflexivity.
  - cbn in Hl. subst steps. destruct (Hr "r1") as (r & Hw & Hid & Ho & _); [right; left|].
    exists r. split; [exact Hw|]. split; [exact Hid|exact Ho].
Defined.

(** A record that an interrupted attempt left is taken over as it is by the next attempt of its job, and a sweep that read
    the leased jobs before that attempt's lease deletes it while the CA is to check it: it is old, and its name is not among
    those the sweep knows. *)
Example reused_record_swept :
  fst (create_txt (fun _ => Ok (400, Some (mkCloudflareResponse false None [(CLOUDFLARE_IDENTICAL_RECORD, "")]))) (fun _ => Ok [demo_record])
    (fun _ => Ok 200) (fun _ => Ok tt) Cloudflare (ls_name demo_record) demo_sha []) =
    Ok (mkTxtRecord (ls_name demo_record) demo_sha (Some "r1")) /\
  RqDelete "r1" ∈ snd (sweep demo_deleted demo_listed Cloudflare "t.test" 2000 [] 1000 250 []).
Proof. split; [vm_compute; reflexivity|apply (list_elem_of_lookup_2 _ 1); vm_compute; reflexivity]. Qed.
End DnsDemo.
