(* ===== verification/ClientStore.v ===== *)
(** * ClientStore: identities on disk and the operations on a profile, [storage.rs] and [client.rs] of the client

    A profile's directory is its files. Every file is replaced or removed atomically, and between any two steps of an
    operation the process may die: the next run finds the files as they are then. The API, the key generator and the moment
    of a death are functions of what happened before. The JSON of the two metadata files is a class with the round trip. *)

From Stdlib Require Import ZArith Lia Ascii String List.
From stdpp Require Import base list strings gmap.
From S2P Require Import Prelude Text Names Record ClientApi ClientTunnel.

(** ** Data *)

Record PendingIdentity := mkPendingIdentity {
  pd_id : string;
  pd_hostname : string;
  pd_token : string;
  pd_private_key : string;
  pd_csr : string;
}.

Record TunnelFile := mkTunnelFile { tf_id : string; tf_hostname : string; tf_certificate_expiry : string }.
Record PendingFile := mkPendingFile { pf_id : string; pf_hostname : string; pf_csr : string }.

(** [to_json] and [serde_json::from_str] of the two. *)
Class Metadata := {
  tunnel_json : TunnelFile -> string;
  tunnel_of_json : string -> option TunnelFile;
  pending_json : PendingFile -> string;
  pending_of_json : string -> option PendingFile;
  tunnel_read : forall f, tunnel_of_json (tunnel_json f) = Some f;
  pending_read : forall f, pending_of_json (pending_json f) = Some f;
}.

(** The client's errors; of a failed request, what [is_connect], [is_timeout] and [is_request] say of it. *)
Inductive StoreFailure :=
| FApi (status : Z) (tag message : string)
| FHttp (connect timeout request : bool)
| FIo (context : string)
| FCorrupt (path : string)
| FAttach (reason : string)
| FBridge (reason : string)
| FCertificateFailed (reason : string)
| FInvalid (text : string)
| FCrypto (reason : string).
Definition is_transient (e : StoreFailure) : bool :=
  match e with
  | FApi status _ _ => retryable_status status Idempotent
  | FHttp connect timeout request => connect || timeout || request
  | _ => false
  end.

(** A profile's directory, and what happens to it and outside. *)
Abbreviation Files := (gmap string string).
Inductive Deed :=
| DWrite (name content : string)
| DRemove (name : string)
| DCreate
| DGenerate (hostname : string)
| DBind (token id csr : string)
| DCertificate (token id : string)
| DDelete (token id : string)
| DSleep.

(** An operation fails, or its process dies; a file that cannot be written ends it as a death there does. *)
Inductive Outcome := OpFailed (e : StoreFailure) | Died.
Record World := mkWorld { wo_files : Files; wo_deeds : list Deed }.
Definition CM (A : Type) : Type := World -> result A Outcome * World.
Definition cret {A} (a : A) : CM A := fun w => (Ok a, w).
Definition cfail {A} (e : StoreFailure) : CM A := fun w => (Err (OpFailed e), w).
Definition cbind {A B} (m : CM A) (k : A -> CM B) : CM B := fun w =>
  match m w with (Ok a, w') => k a w' | (Err e, w') => (Err e, w') end.
Notation "x <-$ m ;; k" := (cbind m (fun x => k)) (at level 100, m at next level, right associativity).
Definition files : CM Files := fun w => (Ok (wo_files w), w).
Definition lift {A} (r : result A StoreFailure) : CM A := match r with Ok a => cret a | Err e => cfail e end.

Definition newline : string := String (Ascii.ascii_of_nat 10) "".

Section Storage.
Context `{Metadata}.
Context (profile : string).

(** ** Reading *)

Definition profile_dir : result unit StoreFailure :=
  if Protocol.is_valid_profile profile then Ok tt
  else Err (FInvalid ("invalid profile name '" +:+ profile +:+ "': use lowercase letters, numbers, and hyphens")).

(** A metadata file: absent, read, or corrupt. *)
Definition read_json {A} (parse : string -> option A) (name : string) (fs : Files) : result (option A) StoreFailure :=
  match fs !! name with
  | None => Ok None
  | Some content => match parse content with Some a => Ok (Some a) | None => Err (FCorrupt name) end
  end.

Definition load (fs : Files) : result (option Identity) StoreFailure :=
  let? _ := profile_dir in
  let? file := read_json tunnel_of_json "tunnel.json" fs in
  match file with
  | None => Ok None
  | Some file =>
      let incomplete := FInvalid ("incomplete tunnel identity for '" +:+ profile +:+ "'") in
      let? token := ok_or (fs !! "token") incomplete in
      let? private_key := ok_or (fs !! "private-key.pem") incomplete in
      let? certificate := ok_or (fs !! "certificate.pem") incomplete in
      let? chain := ok_or (fs !! "chain.pem") incomplete in
      Ok (Some (mkIdentity (tf_id file) (tf_hostname file) (str_trim token) private_key certificate chain (tf_certificate_expiry file)))
  end.

Definition load_pending (fs : Files) : result (option PendingIdentity) StoreFailure :=
  let? _ := profile_dir in
  let? file := read_json pending_of_json "pending.json" fs in
  match file with
  | None => Ok None
  | Some file =>
      let incomplete := FInvalid ("incomplete pending tunnel identity for '" +:+ profile +:+ "'") in
      let? token := ok_or (fs !! "token") incomplete in
      let? private_key := ok_or (fs !! "private-key.pem") incomplete in
      Ok (Some (mkPendingIdentity (pf_id file) (pf_hostname file) (str_trim token) private_key (pf_csr file)))
  end.

Section Client.
(** The API's answers: a new tunnel's ID, hostname and token, a bind, a certificate's state, a delete; a new key and its
    request; and when the process dies. *)
Context (created : list Deed -> result (string * string * string) StoreFailure) (generated : list Deed -> result (string * string) StoreFailure)
  (bound : list Deed -> result unit StoreFailure) (certificate_state : list Deed -> result CertificateState StoreFailure)
  (deleted : list Deed -> result unit StoreFailure) (dies : list Deed -> bool).

(** Something happens, unless the process dies before. *)
Definition deed {A} (d : Deed) (f : Files -> Files) (answer : list Deed -> A) : CM A := fun w =>
  if dies (wo_deeds w) then (Err Died, w)
  else (Ok (answer (wo_deeds w ++ [d])), mkWorld (f (wo_files w)) (wo_deeds w ++ [d])).
Definition call {A} (d : Deed) (answer : list Deed -> result A StoreFailure) : CM A := r <-$ deed d id answer;; lift r.

(** ** Writing *)

Definition write_secret (name content : string) : CM unit := deed (DWrite name content) (insert name content) (fun _ => tt).
Definition remove_file (name : string) : CM unit := deed (DRemove name) (delete name) (fun _ => tt).

Definition save_pending (p : PendingIdentity) : CM unit :=
  _ <-$ lift profile_dir;;
  _ <-$ write_secret "token" (pd_token p +:+ newline);;
  _ <-$ write_secret "private-key.pem" (pd_private_key p);;
  write_secret "pending.json" (pending_json (mkPendingFile (pd_id p) (pd_hostname p) (pd_csr p))).

Definition save (i : Identity) : CM unit :=
  _ <-$ lift profile_dir;;
  _ <-$ write_secret "token" (id_token i +:+ newline);;
  _ <-$ write_secret "private-key.pem" (id_private_key i);;
  _ <-$ write_secret "certificate.pem" (id_certificate i);;
  _ <-$ write_secret "chain.pem" (id_chain i);;
  _ <-$ write_secret "tunnel.json" (tunnel_json (mkTunnelFile (id_id i) (id_hostname i) (id_certificate_expiry i)));;
  remove_file "pending.json".

(** [remove_dir_all] removes what it lists, one by one in that order. *)
Fixpoint remove_files (names : list string) : CM unit :=
  match names with [] => cret tt | name :: names' => _ <-$ remove_file name;; remove_files names' end.
Definition remove_profile (listing : Files -> list string) : CM unit :=
  _ <-$ lift profile_dir;; fs <-$ files;; remove_files (listing fs).

(** ** The client *)

(** The wait for a certificate, at most [polls] times; the process may be ended while it waits, and is after as many. *)
Fixpoint wait_certificate (polls : nat) (p : PendingIdentity) : CM (string * string * string) :=
  match polls with
  | O => fun w => (Err Died, w)
  | S polls' =>
      state <-$ call (DCertificate (pd_token p) (pd_id p)) certificate_state;;
      match state with
      | Ready certificate chain expiry => cret (certificate, chain, expiry)
      | Failed reason => cfail (FCertificateFailed reason)
      | Challenge _ _ | Issuing => _ <-$ deed DSleep id (fun _ => tt);; wait_certificate polls' p
      end
  end.

(** A bind that is refused because one is under way goes on. *)
Definition bind_or_running (p : PendingIdentity) : CM unit :=
  r <-$ deed (DBind (pd_token p) (pd_id p) (pd_csr p)) id bound;;
  match r with
  | Ok _ => cret tt
  | Err (FApi status tag message) => if String.eqb tag "CertificateInProgressError" then cret tt else cfail (FApi status tag message)
  | Err e => cfail e
  end.

Definition complete (polls : nat) (p : PendingIdentity) : CM Identity :=
  _ <-$ bind_or_running p;;
  got <-$ wait_certificate polls p;;
  let '(certificate, chain, expiry) := got in
  let i := mkIdentity (pd_id p) (pd_hostname p) (pd_token p) (pd_private_key p) certificate chain expiry in
  _ <-$ save i;;
  cret i.

Definition provision (polls : nat) (id_ hostname token : string) : CM Identity :=
  key <-$ call (DGenerate hostname) generated;;
  let p := mkPendingIdentity id_ hostname token (fst key) (snd key) in
  _ <-$ save_pending p;;
  complete polls p.

Definition create (polls : nat) : CM Identity :=
  fs <-$ files;;
  existing <-$ lift (load fs);;
  match existing with
  | Some _ => cfail (FInvalid ("profile '" +:+ profile +:+ "' already has a tunnel"))
  | None =>
      pending <-$ lift (load_pending fs);;
      match pending with
      | Some p => complete polls p
      | None =>
          t <-$ call DCreate created;;
          let '(id_, hostname, token) := t in provision polls id_ hostname token
      end
  end.

Definition resume (polls : nat) : CM (option Identity) :=
  fs <-$ files;;
  pending <-$ lift (load_pending fs);;
  match pending with
  | None => cret None
  | Some p => i <-$ complete polls p;; cret (Some i)
  end.

(** [expired], of a time that can be read. *)
Context (parse_rfc3339_weak : string -> option Z) (now : Z).
Definition expired (expiry : string) : bool := match parse_rfc3339_weak expiry with Some at_ => at_ <=? now | None => true end.

Definition ensure (polls : nat) : CM Identity :=
  fs <-$ files;;
  existing <-$ lift (load fs);;
  match existing with
  | None => create polls
  | Some existing =>
      answer <-$ deed (DCertificate (id_token existing) (id_id existing)) id certificate_state;;
      match answer with
      | Err e => if is_transient e && negb (expired (id_certificate_expiry existing)) then cret existing else cfail e
      | Ok (Ready certificate chain expiry) =>
          if String.eqb certificate (id_certificate existing) then cret existing
          else
            let renewed := mkIdentity (id_id existing) (id_hostname existing) (id_token existing) (id_private_key existing) certificate chain expiry in
            _ <-$ save renewed;;
            cret renewed
      | Ok (Failed _) => provision polls (id_id existing) (id_hostname existing) (id_token existing)
      | Ok _ => cret existing
      end
  end.

Definition remove (listing : Files -> list string) : CM unit :=
  fs <-$ files;;
  existing <-$ lift (load fs);;
  _ <-$ match existing with
        | None => cret tt
        | Some i =>
            r <-$ deed (DDelete (id_token i) (id_id i)) id deleted;;
            match r with
            | Ok _ => cret tt
            | Err (FApi status tag message) => if status =? 404 then cret tt else cfail (FApi status tag message)
            | Err e => cfail e
            end
        end;;
  remove_profile listing.
End Client.
End Storage.

(** ** What the files hold *)

Section Stored.
Context `{Metadata}.
Context (profile : string).

(** The files of a pending identity, and of an identity. *)
Record holds_pending (p : PendingIdentity) (fs : Files) : Prop := mkHoldsPending {
  hp_token : exists t, fs !! "token" = Some t /\ str_trim t = pd_token p;
  hp_key : fs !! "private-key.pem" = Some (pd_private_key p);
  hp_file : exists j, fs !! "pending.json" = Some j /\ pending_of_json j = Some (mkPendingFile (pd_id p) (pd_hostname p) (pd_csr p));
}.
Record holds_identity (i : Identity) (fs : Files) : Prop := mkHoldsIdentity {
  hi_token : exists t, fs !! "token" = Some t /\ str_trim t = id_token i;
  hi_key : fs !! "private-key.pem" = Some (id_private_key i);
  hi_certificate : fs !! "certificate.pem" = Some (id_certificate i);
  hi_chain : fs !! "chain.pem" = Some (id_chain i);
  hi_file : exists j, fs !! "tunnel.json" = Some j /\ tunnel_of_json j = Some (mkTunnelFile (id_id i) (id_hostname i) (id_certificate_expiry i));
}.

Lemma load_pending_holds p fs :
  load_pending profile fs = Ok (Some p) <-> Protocol.is_valid_profile profile = true /\ holds_pending p fs.
Proof.
  unfold load_pending, profile_dir, read_json. destruct (Protocol.is_valid_profile profile); cbn; [|split; [done|by intros [? _]]]. split.
  - destruct (fs !! "pending.json") as [j|] eqn:Ej; [|done]. destruct (pending_of_json j) as [f|] eqn:Ef; [|done]. cbn.
    destruct (fs !! "token") as [t|] eqn:Et; [|done]. cbn. destruct (fs !! "private-key.pem") as [k|] eqn:Ek; [|done]. cbn.
    intros [= <-]. split; [done|]. destruct f. constructor; eauto.
  - intros [_ [(t & Et & Htrim) Ek (j & Ej & Ef)]]. rewrite Ej, Ef. cbn. rewrite Et. cbn. rewrite Ek. cbn. rewrite Htrim. by destruct p.
Qed.

Lemma load_holds i fs : load profile fs = Ok (Some i) <-> Protocol.is_valid_profile profile = true /\ holds_identity i fs.
Proof.
  unfold load, profile_dir, read_json. destruct (Protocol.is_valid_profile profile); cbn; [|split; [done|by intros [? _]]]. split.
  - destruct (fs !! "tunnel.json") as [j|] eqn:Ej; [|done]. destruct (tunnel_of_json j) as [f|] eqn:Ef; [|done]. cbn.
    destruct (fs !! "token") as [t|] eqn:Et; [|done]. cbn. destruct (fs !! "private-key.pem") as [k|] eqn:Ek; [|done]. cbn.
    destruct (fs !! "certificate.pem") as [c|] eqn:Ec; [|done]. cbn. destruct (fs !! "chain.pem") as [ch|] eqn:Ech; [|done]. cbn.
    intros [= <-]. split; [done|]. destruct f. constructor; eauto.
  - intros [_ [(t & Et & Htrim) Ek Ec Ech (j & Ej & Ef)]]. rewrite Ej, Ef. cbn. rewrite Et. cbn. rewrite Ek. cbn. rewrite Ec. cbn. rewrite Ech. cbn.
    rewrite Htrim. by destruct i.
Qed.

(** A token that its file gives back. *)
Definition plain_token (token : string) : Prop := str_trim (token +:+ newline) = token.

(** Writing a file that is not among those of a pending identity, or what it holds already. *)
Lemma holds_pending_write p name content fs :
  holds_pending p fs -> name <> "pending.json" ->
  (name = "token" -> str_trim content = pd_token p) -> (name = "private-key.pem" -> content = pd_private_key p) ->
  holds_pending p (<[name := content]> fs).
Proof.
  intros [(t & Et & Htrim) Ek (j & Ej & Ef)] Hn Htok Hkey. constructor.
  - destruct (decide (name = "token")) as [->|]; [exists content; by rewrite lookup_insert_eq; auto|exists t; by rewrite lookup_insert_ne].
  - destruct (decide (name = "private-key.pem")) as [->|]; [rewrite lookup_insert_eq; f_equal; auto|by rewrite lookup_insert_ne].
  - exists j. by rewrite lookup_insert_ne.
Qed.

(** ** What operations leave *)

Definition triple {A} (P : World -> Prop) (m : CM A) (Q : A -> World -> Prop) (E : World -> Prop) : Prop :=
  forall w r w', P w -> m w = (r, w') -> match r with Ok a => Q a w' | Err _ => E w' end.

Lemma triple_bind {A B} P (m : CM A) (k : A -> CM B) R Q E :
  triple P m R E -> (forall a, triple (R a) (k a) Q E) -> triple P (cbind m k) Q E.
Proof.
  intros Hm Hk w r w' Hw Hr. unfold cbind in Hr. destruct (m w) as [[a|e] w1] eqn:Em; specialize (Hm _ _ _ Hw Em).
  - exact (Hk a _ _ _ Hm Hr).
  - by injection Hr as <- <-.
Qed.

Lemma triple_ret {A} P (a : A) (Q : A -> World -> Prop) E : (forall w, P w -> Q a w) -> triple P (cret a) Q E.
Proof. intros HQ w r w' Hw [= <- <-]. auto. Qed.
Lemma triple_fail {A} (P : World -> Prop) e (Q : A -> World -> Prop) E : (forall w, P w -> E w) -> triple P (cfail e) Q E.
Proof. intros HE w r w' Hw [= <- <-]. auto. Qed.
Lemma triple_lift {A} (P : World -> Prop) (x : result A StoreFailure) (Q : A -> World -> Prop) E :
  (forall a w, x = Ok a -> P w -> Q a w) -> (forall w, P w -> E w) -> triple P (lift x) Q E.
Proof. intros HQ HE. destruct x as [a|e]; [apply triple_ret|apply triple_fail]; auto. Qed.

Lemma triple_deed {A} dies d f (answer : list Deed -> A) (P : World -> Prop) (Q : A -> World -> Prop) (E : World -> Prop) :
  (forall w a, P w -> Q a (mkWorld (f (wo_files w)) (wo_deeds w ++ [d]))) -> (forall w, P w -> E w) -> triple P (deed dies d f answer) Q E.
Proof. intros HQ HE w r w' Hw Hr. unfold deed in Hr. destruct (dies (wo_deeds w)); injection Hr as <- <-; auto. Qed.

Lemma triple_call {A} dies d (answer : list Deed -> result A StoreFailure) (P : World -> Prop) :
  (forall w, P w -> P (mkWorld (wo_files w) (wo_deeds w ++ [d]))) -> triple P (call dies d answer) (fun _ => P) P.
Proof. intros HP. eapply triple_bind; [apply triple_deed; [|done]; intros w a Hw; by apply HP|]. intros x. by apply triple_lift. Qed.

(** How often a tunnel was created. *)
Definition is_create (d : Deed) : bool := match d with DCreate => true | _ => false end.
Definition creations (w : World) : nat := length (List.filter is_create (wo_deeds w)).

Lemma creations_deed fs l d : is_create d = false -> creations (mkWorld fs (l ++ [d])) = creations (mkWorld fs l).
Proof. intros Hd. unfold creations. cbn. rewrite List.filter_app. cbn. rewrite Hd. by rewrite app_nil_r. Qed.

#[local] Arguments creations : simpl never.

(** A write keeps the pending identity, and a creation is not made. *)
Abbreviation pending_kept p n := (fun w => holds_pending p (wo_files w) /\ creations w = n).

Definition of_pending (i : Identity) (p : PendingIdentity) : Prop :=
  id_id i = pd_id p /\ id_hostname i = pd_hostname p /\ id_token i = pd_token p /\ id_private_key i = pd_private_key p.

(** Some files are as they were written. *)
Definition written_files (l : list (string * string)) (fs : Files) : Prop := Forall (fun nc => fs !! nc.1 = Some nc.2) l.

Lemma triple_next dies p n l name content :
  name <> "pending.json" -> (name = "token" -> str_trim content = pd_token p) -> (name = "private-key.pem" -> content = pd_private_key p) ->
  name ∉ map fst l ->
  triple (fun w => pending_kept p n w /\ written_files l (wo_files w)) (write_secret dies name content)
    (fun _ w => pending_kept p n w /\ written_files ((name, content) :: l) (wo_files w)) (pending_kept p n).
Proof.
  intros Hn Ht Hk Hl. apply triple_deed; [|by intros w [? _]]. intros w _ [[Hh Hc] Hw]. cbn. split; [split; [by apply holds_pending_write|by rewrite creations_deed]|].
  constructor; [apply lookup_insert_eq|]. apply Forall_forall. intros [n' c'] Hin. cbn. unfold written_files in Hw. rewrite Forall_forall in Hw.
  rewrite lookup_insert_ne; [by apply (Hw (n', c'))|]. intros ->. apply Hl, list_elem_of_fmap. by exists (n', c').
Qed.

(** What it takes to finish: on success the identity is stored and nothing is pending; otherwise the pending one is. *)
Lemma complete_keeps dies bound certificate_state polls p n :
  plain_token (pd_token p) -> Protocol.is_valid_profile profile = true ->
  triple (pending_kept p n) (complete profile bound certificate_state dies polls p)
    (fun i w => holds_identity i (wo_files w) /\ of_pending i p /\ wo_files w !! "pending.json" = None /\ creations w = n) (pending_kept p n).
Proof.
  intros Htok Hval. assert (forall d, is_create d = false -> forall w, pending_kept p n w -> pending_kept p n (mkWorld (wo_files w) (wo_deeds w ++ [d]))) as Hquiet.
  { intros d Hd w [? ?]. cbn. split; [done|]. by rewrite creations_deed. }
  unfold complete. apply (triple_bind _ _ _ (fun _ => pending_kept p n)); [|intros _; apply (triple_bind _ _ _ (fun _ => pending_kept p n))].
  - unfold bind_or_running. apply (triple_bind _ _ _ (fun _ => pending_kept p n)); [apply triple_deed; [|done]; intros w a Hw; by apply Hquiet|].
    intros [u|e]; [by apply triple_ret|]. destruct e; try case_split; first [by apply triple_ret|by apply triple_fail].
  - induction polls as [|polls IH]; cbn [wait_certificate]; [by intros w r w' Hw [= <- <-]|].
    eapply triple_bind; [apply triple_call; intros w Hw; by apply Hquiet|]. intros [token key| |certificate chain expiry|reason].
    + apply (triple_bind _ _ _ (fun _ => pending_kept p n)); [apply triple_deed; [|done]; intros w a Hw; by apply Hquiet|]. intros _. exact IH.
    + apply (triple_bind _ _ _ (fun _ => pending_kept p n)); [apply triple_deed; [|done]; intros w a Hw; by apply Hquiet|]. intros _. exact IH.
    + by apply triple_ret.
    + by apply triple_fail.
  - intros [[certificate chain] expiry]. set (i := mkIdentity _ _ _ _ _ _ _).
    apply (triple_bind _ _ _ (fun _ w => holds_identity i (wo_files w) /\ of_pending i p /\ wo_files w !! "pending.json" = None /\ creations w = n)); [|intros []; by apply triple_ret]. unfold save.
    eapply triple_bind; [apply (triple_lift _ _ (fun _ => fun w => pending_kept p n w /\ written_files [] (wo_files w))); [|done]; intros; split; [done|constructor]|].
    intros []. eapply triple_bind; [apply triple_next; try done; by apply not_elem_of_nil|]. intros [].
    eapply triple_bind; [apply triple_next; try done; by apply (bool_decide_unpack _)|]. intros [].
    eapply triple_bind; [apply triple_next; try done; by apply (bool_decide_unpack _)|]. intros [].
    eapply triple_bind; [apply triple_next; try done; by apply (bool_decide_unpack _)|]. intros [].
    eapply triple_bind; [apply triple_next; try done; by apply (bool_decide_unpack _)|]. intros [].
    apply triple_deed; [|by intros w [? _]]. intros w _ [[Hh Hc] Hw]. cbn. apply Forall_cons in Hw as [H5 Hw]. apply Forall_cons in Hw as [H4 Hw].
    apply Forall_cons in Hw as [H3 Hw]. apply Forall_cons in Hw as [H2 Hw]. apply Forall_cons in Hw as [H1 _]. cbn in *. split_and!.
    + constructor; rewrite ?lookup_delete_ne by done; [by exists (id_token i +:+ newline)|done..|].
      eexists. split; [exact H5|]. by rewrite tunnel_read.
    + done.
    + apply lookup_delete_eq.
    + by rewrite creations_deed.
Qed.

Section Promises.
Context (created : list Deed -> result (string * string * string) StoreFailure) (generated : list Deed -> result (string * string) StoreFailure)
  (bound : list Deed -> result unit StoreFailure) (certificate_state : list Deed -> result CertificateState StoreFailure)
  (deleted : list Deed -> result unit StoreFailure).

(** C33: once a new tunnel's credentials are saved they are not lost: whatever the API answers and wherever the process dies,
    [create] and [resume] leave the profile with the same pending identity, or with the finished identity of that tunnel, with
    its ID, token and private key; [create] makes no second tunnel meanwhile. What they return is what is stored. *)
Theorem credentials_not_lost dies polls p w :
  plain_token (pd_token p) -> load profile (wo_files w) = Ok None -> load_pending profile (wo_files w) = Ok (Some p) ->
  (forall r w', create profile created generated bound certificate_state dies polls w = (r, w') ->
     creations w' = creations w /\
     match r with
     | Ok i => load profile (wo_files w') = Ok (Some i) /\ of_pending i p /\ load_pending profile (wo_files w') = Ok None
     | Err _ => load_pending profile (wo_files w') = Ok (Some p)
     end) /\
  (forall r w', resume profile bound certificate_state dies polls w = (r, w') ->
     creations w' = creations w /\
     match r with
     | Ok (Some i) => load profile (wo_files w') = Ok (Some i) /\ of_pending i p /\ load_pending profile (wo_files w') = Ok None
     | Ok None => False
     | Err _ => load_pending profile (wo_files w') = Ok (Some p)
     end).
Proof.
  intros Htok Hl Hp. pose proof Hp as [Hval Hh]%load_pending_holds.
  assert (forall r w', complete profile bound certificate_state dies polls p w = (r, w') -> creations w' = creations w /\
    match r with
    | Ok i => load profile (wo_files w') = Ok (Some i) /\ of_pending i p /\ load_pending profile (wo_files w') = Ok None
    | Err _ => load_pending profile (wo_files w') = Ok (Some p)
    end) as Hcomplete.
  { intros r w' Hr. pose proof (complete_keeps dies bound certificate_state polls p (creations w) Htok Hval w r w' (conj Hh eq_refl) Hr) as H0.
    destruct r as [i|e].
    - destruct H0 as (Hi & Hof & Hnone & Hc). split_and!; [done|by apply load_holds|done|]. unfold load_pending, profile_dir, read_json. by rewrite Hval, Hnone.
    - destruct H0 as [Hi Hc]. split; [done|]. by apply load_pending_holds. }
  split; intros r w'.
  - unfold create, cbind at 1, files. rewrite Hl. cbn. unfold cbind. rewrite Hp. cbn. apply Hcomplete.
  - unfold resume, cbind at 1, files. unfold cbind. rewrite Hp. cbn. destruct (complete _ _ _ _ _ _ w) as [[i|e] w1] ; intros [= <- <-]; exact (Hcomplete _ _ eq_refl).
Qed.

(** A saved identity is loaded as it was, and nothing is pending. *)
Theorem saved_is_loaded i w w' :
  plain_token (id_token i) -> save profile (fun _ => false) i w = (Ok tt, w') ->
  load profile (wo_files w') = Ok (Some i) /\ load_pending profile (wo_files w') = Ok None.
Proof.
  intros Htok. unfold save, profile_dir, lift. destruct (Protocol.is_valid_profile profile) eqn:Hval; [|done]. cbn. intros [= <-]. split.
  - apply load_holds. split; [done|]. constructor; cbn; rewrite ?lookup_delete_ne by done.
    + exists (id_token i +:+ newline). by simplify_map_eq.
    + by simplify_map_eq.
    + by simplify_map_eq.
    + by simplify_map_eq.
    + eexists. split; [by simplify_map_eq|]. by rewrite tunnel_read.
  - unfold load_pending, profile_dir, read_json. rewrite Hval. cbn. by rewrite lookup_delete_eq.
Qed.

(** C39: a renewed certificate whose saving is cut off after the certificate's file stays torn: the profile then has the new
    certificate with the old chain and the old expiry, and [ensure] and the running tunnel take the certificate for current,
    since they compare it alone, and write neither. *)
Theorem torn_renewal_stays parse_rfc3339_weak now polls i certificate chain expiry w :
  plain_token (id_token i) -> load profile (wo_files w) = Ok (Some i) -> wo_deeds w = [] -> certificate <> id_certificate i ->
  (forall l, certificate_state l = Ok (Ready certificate chain expiry)) ->
  let torn := mkIdentity (id_id i) (id_hostname i) (id_token i) (id_private_key i) certificate (id_chain i) (id_certificate_expiry i) in
  exists w', ensure profile created generated bound certificate_state (fun l => length l =? 4)%nat parse_rfc3339_weak now polls w = (Err Died, w') /\
    load profile (wo_files w') = Ok (Some torn) /\
    (exists w'', ensure profile created generated bound certificate_state (fun _ => false) parse_rfc3339_weak now polls w' = (Ok torn, w'') /\
       wo_files w'' = wo_files w') /\
    forall acceptor_ok stores saves saved events,
      check_certificate acceptor_ok (Some (Some (certificate, chain, expiry))) stores saves (mkRefresher torn torn saved events) = mkRefresher torn torn saved events.
Proof.
  intros Htok Hload Hdeeds Hne Hstate torn. pose proof Hload as [Hval [(t & Et & Htrim) Ek Ec Ech (j & Ej & Ef)]]%load_holds.
  eexists. split.
  { unfold ensure, cbind at 1, files. rewrite Hload. cbn. unfold cbind at 1, deed at 1. rewrite Hdeeds. cbn. rewrite Hstate.
    rewrite (proj2 (String.eqb_neq _ _) Hne). unfold save, profile_dir. rewrite Hval. reflexivity. }
  cbn [wo_files]. match goal with |- load profile ?fs = _ /\ _ => set (fs' := fs) end.
  assert (load profile fs' = Ok (Some torn)) as Htorn.
  { apply load_holds. split; [done|]. unfold fs'. constructor; cbn.
    - exists (id_token i +:+ newline). by simplify_map_eq.
    - by simplify_map_eq.
    - by simplify_map_eq.
    - by simplify_map_eq.
    - exists j. by simplify_map_eq. }
  split; [done|]. split.
  - eexists. unfold ensure, cbind, files. cbn [wo_files]. rewrite Htorn. cbn. rewrite Hstate. rewrite String.eqb_refl. split; reflexivity.
  - intros. cbn. by rewrite String.eqb_refl.
Qed.
End Promises.
End Stored.

(** ** Concrete profiles *)
Module StoreDemo.

(** A text form of the metadata that is read back: the characters of a field after plus signs, a dot at its end. *)
Fixpoint put (s rest : string) : string :=
  match s with "" => String "." rest | String c s' => String "+" (String c (put s' rest)) end.
Fixpoint got (l : string) : option (string * string) :=
  match l with
  | String mark (String c l') =>
      if Ascii.eqb mark "+" then match got l' with Some (s, rest) => Some (String c s, rest) | None => None end
      else if Ascii.eqb mark "." then Some ("", String c l') else None
  | String mark "" => if Ascii.eqb mark "." then Some ("", "") else None
  | "" => None
  end.

Lemma got_put s rest : got (put s rest) = Some (s, rest).
Proof. induction s as [|c s IH]; cbn; [by destruct rest|by rewrite IH]. Qed.

Definition put3 (a b c : string) : string := put a (put b (put c "")).
Definition got3 (l : string) : option (string * string * string) :=
  let* (a, l) := got l in let* (b, l) := got l in let* (c, _) := got l in Some (a, b, c).

Lemma got3_put3 a b c : got3 (put3 a b c) = Some (a, b, c).
Proof. unfold got3, put3. rewrite got_put. cbn. rewrite got_put. cbn. by rewrite got_put. Qed.

#[export] Instance demo_metadata : Metadata.
Proof.
  refine {|
    tunnel_json f := put3 (tf_id f) (tf_hostname f) (tf_certificate_expiry f);
    tunnel_of_json l := (fun x => mkTunnelFile x.1.1 x.1.2 x.2) <$> got3 l;
    pending_json f := put3 (pf_id f) (pf_hostname f) (pf_csr f);
    pending_of_json l := (fun x => mkPendingFile x.1.1 x.1.2 x.2) <$> got3 l;
  |}.
  - intros []. by rewrite got3_put3.
  - intros []. by rewrite got3_put3.
Defined.

Definition demo_pending : PendingIdentity := mkPendingIdentity "a" "a.t" "k" "key" "csr".
Definition demo_pending_files : Files :=
  <["token" := "k" +:+ newline]> (<["private-key.pem" := "key"]> (<["pending.json" := pending_json (mkPendingFile "a" "a.t" "csr")]> ∅)).
Definition demo_world : World := mkWorld demo_pending_files [].
Definition demo_ready (l : list Deed) : result CertificateState StoreFailure := Ok (Ready "C2" "H2" "E2").
Definition demo_created (l : list Deed) : result (string * string * string) StoreFailure := Ok ("b", "b.t", "k2").
Definition demo_generated (l : list Deed) : result (string * string) StoreFailure := Ok ("key2", "csr2").
Definition demo_create := create "p" demo_created demo_generated (fun _ => Ok tt) demo_ready (fun l => length l =? 3)%nat 5 demo_world.

Lemma credentials_not_lost_witness : creations demo_create.2 = creations demo_world.
Proof.
  refine (proj1 (proj1 (credentials_not_lost "p" demo_created demo_generated (fun _ => Ok tt) demo_ready (fun l => length l =? 3)%nat 5
    demo_pending demo_world _ _ _) demo_create.1 demo_create.2 _)).
  - reflexivity.
  - reflexivity.
  - reflexivity.
  - unfold demo_create. apply surjective_pairing.
Defined.

Definition demo_identity : Identity := mkIdentity "a" "a.t" "k" "key" "C1" "H1" "E1".
Definition demo_identity_files : Files :=
  <["token" := "k" +:+ newline]> (<["private-key.pem" := "key"]> (<["certificate.pem" := "C1"]> (<["chain.pem" := "H1"]>
    (<["tunnel.json" := tunnel_json (mkTunnelFile "a" "a.t" "E1")]> ∅)))).

Lemma torn_renewal_stays_witness :
  exists w', ensure "p" demo_created demo_generated (fun _ => Ok tt) demo_ready (fun l => length l =? 4)%nat (fun _ => None) 0 5
      (mkWorld demo_identity_files []) = (Err Died, w') /\
    load "p" (wo_files w') = Ok (Some (mkIdentity "a" "a.t" "k" "key" "C2" "H1" "E1")).
Proof.
  destruct (torn_renewal_stays "p" demo_created demo_generated (fun _ => Ok tt) demo_ready (fun _ => None) 0 5 demo_identity "C2" "H2" "E2"
    (mkWorld demo_identity_files [])) as (w' & H1 & H2 & _).
  - reflexivity.
  - reflexivity.
  - reflexivity.
  - discriminate.
  - intros l. reflexivity.
  - exists w'. split; [exact H1|exact H2].
Defined.
End StoreDemo.
