(* ===== verification/HttpApi.v ===== *)
(** * HttpApi: the server's HTTP API, [http.rs]

    Which handler a request reaches, what each answers, and the upgrade to a bridge. A handler that needs a tunnel runs the
    [Service] operation of its entry. The JSON of bodies is a value; website files, the admin endpoints' own handlers and
    the connection's end are in other files. *)

From Stdlib Require Import ZArith Lia Ascii String List.
From stdpp Require Import base list strings gmap.
From S2P Require Import Prelude Text Addr Names Record Frames Store Limits ClientApi Service.

(** ** Requests and responses *)

Inductive Method := MGet | MHead | MPost | MDelete | MOtherMethod.
Definition parse_method (m : string) : Method :=
  if String.eqb m "GET" then MGet else if String.eqb m "HEAD" then MHead else if String.eqb m "POST" then MPost
  else if String.eqb m "DELETE" then MDelete else MOtherMethod.

(** A request; its body is the JSON value it holds, [None] if it is too long or not JSON. *)
Record HttpRequest := mkHttpRequest {
  rq_method : Method;
  rq_path : string;
  rq_query : option string;
  rq_headers : Headers;
  rq_source : option IpAddr;
  rq_body : option Json;
}.

Inductive Body :=
| NoBody
| TextBody (text : string)
| FieldsBody (fields : list (string * string))
| ViewBody (view : TunnelView)
| CreatedBody (view : TunnelView) (token : string)
| CertificateBody (info : CertificateInfo)
| TrueBody.

Record Response := mkResponse { rs_status : Z; rs_retry_after : option Z; rs_body : Body }.
Definition response (status : Z) : Response := mkResponse status None NoBody.
Definition text_response (status : Z) (text : string) : Response := mkResponse status None (TextBody text).
Definition ordered (status : Z) (fields : list (string * string)) : Response := mkResponse status None (FieldsBody fields).

Definition unauthorized : Response := ordered 401 [("_tag", "UnauthorizedError"); ("message", "Invalid bearer token")].
Definition tunnel_not_found (id : string) : Response :=
  ordered 404 [("_tag", "TunnelNotFoundError"); ("tunnelID", id); ("message", "Tunnel not found")].

Definition div_ceil (a b : Z) : Z := (a + b - 1) / b.
(** [Retry-After] in whole seconds, at least one. *)
Definition retry_after (r : Response) (ms : Z) : Response := mkResponse (rs_status r) (Some (Z.max (div_ceil ms 1000) 1)) (rs_body r).
Definition rate_limited (message : string) (ms : Z) : Response :=
  let minutes := Z.max (div_ceil ms 60000) 1 in
  let when := if minutes =? 1 then "a minute" else dec_string minutes +:+ " minutes" in
  retry_after (ordered 429 [("_tag", "RateLimitedError"); ("message", message +:+ "; try again in " +:+ when)]) ms.
Definition unavailable (message : string) : Response := ordered 503 [("_tag", "ServiceUnavailableError"); ("message", message)].
Definition BACKLOG_RETRY_MS : Z := 30000.
Definition backlogged_response : Response := retry_after (unavailable "certificate issuance is busy; try again later") BACKLOG_RETRY_MS.

(** ** Reading a request *)

Definition header_text (headers : Headers) (name : string) : option string := let* value := header_get headers name in header_str value.

Definition bearer (headers : Headers) : string :=
  let value := match header_text headers "authorization" with Some v => v | None => "" end in
  if (7 <=? str_len value)%nat && bool_decide (to_ascii_lowercase (of_bytes (take 7 (as_bytes value))) = "bearer ")
  then of_bytes (drop 7 (as_bytes value)) else "".

Definition to_digit16 (b : Z) : option Z :=
  if is_ascii_digit b then Some (b - 48)
  else if (97 <=? b) && (b <=? 102) then Some (b - 87)
  else if (65 <=? b) && (b <=? 70) then Some (b - 55) else None.

Fixpoint percent_decode_l (l : bytes) : bytes :=
  match l with
  | [] => []
  | b :: l' =>
      match l' with
      | h :: (lo :: rest) as l'' =>
          match to_digit16 h, to_digit16 lo with
          | Some high, Some low => if b =? 37 then high * 16 + low :: percent_decode_l rest else b :: percent_decode_l l'
          | _, _ => b :: percent_decode_l l'
          end
      | _ => b :: percent_decode_l l'
      end
  end.
Definition percent_decode (value : string) : string :=
  match from_utf8 (percent_decode_l (as_bytes value)) with Some s => s | None => value end.

(** [payload]: a content type other than JSON is refused, and so is a body that is not JSON. *)
Definition payload (r : HttpRequest) : result Json Response :=
  let refused :=
    match header_get (rq_headers r) "content-type" with
    | None => None
    | Some value =>
        let text := match header_str value with Some t => t | None => "" end in
        let mime := str_trim (hd "" (str_split ";" text)) in
        if String.eqb (to_ascii_lowercase mime) "application/json" then None
        else Some (text_response 415 ("Unsupported content-type: " +:+ mime))
    end in
  match refused with
  | Some refusal => Err refusal
  | None => match rq_body r with Some v => Ok v | None => Err (response 400) end
  end.

Definition connect_path (path : string) : option string :=
  let* rest := str_strip_prefix "/api/tunnel/" path in
  let* id := str_strip_suffix "/connect" rest in
  if negb (str_is_empty id) && negb (str_contains id "/") then Some id else None.

(** ** Routing *)

(** What the API is asked for. *)
Inductive ApiCall :=
| CallCreate
| CallInfo (id token : string)
| CallRemove (id token : string)
| CallBind (id : string)
| CallCertificate (id token : string)
| CallConnect
| CallNone.

Definition segments (path : string) : list string :=
  map percent_decode (List.filter (fun s => negb (str_is_empty s)) (str_split "/" path)).

Definition api_call (r : HttpRequest) : ApiCall :=
  let get := match rq_method r with MGet | MHead => true | _ => false end in
  match segments (rq_path r) with
  | [a; b] => if String.eqb a "api" && String.eqb b "tunnel" then match rq_method r with MPost => CallCreate | _ => CallNone end else CallNone
  | [a; b; id] =>
      if String.eqb a "api" && String.eqb b "tunnel" then
        if get then CallInfo id (bearer (rq_headers r))
        else match rq_method r with MDelete => CallRemove id (bearer (rq_headers r)) | _ => CallNone end
      else CallNone
  | [a; b; id; last] =>
      if String.eqb a "api" && String.eqb b "tunnel" then
        if String.eqb last "certificate" then
          match rq_method r with
          | MPost => CallBind id
          | _ => if get then CallCertificate id (bearer (rq_headers r)) else CallNone
          end
        else if String.eqb last "connect" && get then CallConnect else CallNone
      else CallNone
  | _ => CallNone
  end.

(** What handles a request; [admin] is who may use the admin endpoints, if they are on. *)
Inductive Handler := HandleHealth | HandleUpgrade (id : string) | HandleAdmin (rest : string) | HandleNotFound | HandleOpenApi | HandleApi (call : ApiCall) | HandleStatic.

Definition handler (admin : option (string -> bool)) (r : HttpRequest) : Handler :=
  if String.eqb (rq_path r) "/health" then HandleHealth
  else
    match connect_path (rq_path r), rq_method r with
    | Some id, MGet => HandleUpgrade (percent_decode id)
    | _, _ =>
        match str_strip_prefix "/api/admin/" (rq_path r), admin with
        | Some rest, Some authorized =>
            if negb (match rq_method r with MPost => true | _ => false end) || negb (authorized (bearer (rq_headers r))) then HandleNotFound
            else HandleAdmin (match rq_query r with Some query => rest +:+ "?" +:+ query | None => rest end)
        | _, _ =>
            if String.eqb (rq_path r) "/openapi.json" then HandleOpenApi
            else if bool_decide (is_Some (str_strip_prefix "/api/" (rq_path r))) then HandleApi (api_call r)
            else HandleStatic
        end
    end.

(** ** Handlers *)

Section Handlers.
Context `{HT : TimeText}.
Context (now : Z) (domain : string) (cluster : option bool) (generation : Z) (hash_token : string -> string)
  (parse_x509 : string -> option (list string * list string)) (error_text : SvError -> string).

(** An operation whose failure is a 503. *)
Definition answered {A} (m : SM A) (k : A -> Response) : SM Response := fun s =>
  match m s with
  | (Ok a, s') => (Ok (k a), s')
  | (Err e, s') => (Ok (unavailable (error_text e)), s')
  end.

Definition info_call (id token : string) (online_elsewhere : bool) : SM Response :=
  answered (Service.info id now cluster generation hash_token online_elsewhere token) (fun r =>
    match r with LookupOk view => mkResponse 200 None (ViewBody view) | Unauthorized => unauthorized | NotFound => tunnel_not_found id end).

Definition remove_call (id token : string) : SM Response :=
  answered (Service.remove id now cluster generation hash_token token) (fun r =>
    match r with LookupOk _ => response 204 | Unauthorized => unauthorized | NotFound => tunnel_not_found id end).

Definition certificate_call (id token : string) : SM Response :=
  answered (Service.certificate_info id now cluster generation hash_token token) (fun r =>
    match r with
    | CertificateOk info => mkResponse 200 None (CertificateBody info)
    | CertificateUnauthorized => unauthorized
    | NoCertificate => ordered 404 [("_tag", "CertificateNotFoundError"); ("tunnelID", id); ("message", "Certificate not found")]
    | CertificateNotFound => tunnel_not_found id
    end).

Definition bind_response (id : string) (r : Bind) : Response :=
  match r with
  | BindOk info => mkResponse 202 None (CertificateBody info)
  | BindUnauthorized => unauthorized
  | BindNotFound => tunnel_not_found id
  | BindInvalidRequest message => ordered 400 [("_tag", "InvalidRequestError"); ("message", message)]
  | BindInvalidHostname provided expected =>
      ordered 400 [("_tag", "InvalidHostnameError"); ("provided", provided); ("expected", expected);
                   ("message", "CSR hostname does not match tunnel hostname")]
  | BindInProgress =>
      ordered 409 [("_tag", "CertificateInProgressError"); ("tunnelID", id); ("message", "Certificate issuance is already in progress")]
  | BindUnavailable message => unavailable message
  | BindRateLimited ms => rate_limited "Too many new certificates requested for this tunnel" ms
  | BindBacklogged => backlogged_response
  end.

Definition bind_call (id uuid : string) (r : HttpRequest) : SM Response :=
  match payload r with
  | Err refusal => sret refusal
  | Ok body =>
      match (let* csr := get body "csr" in de_string csr) with
      | None => sret (response 400)
      | Some csr => answered (Service.bind_certificate id now cluster generation hash_token parse_x509 error_text uuid (bearer (rq_headers r)) csr) (bind_response id)
      end
  end.

(** [create]: [id] and [token] are new random ones. *)
Definition create_call (id token : string) (r : HttpRequest) : SM Response := fun s =>
  let address :=
    match sv_limits s, rq_source r with
    | Some limits, Some source => Some (limits, client (proxies limits) source (rq_headers r))
    | _, _ => None
    end in
  match payload r with
  | Err refusal => (Ok refusal, s)
  | Ok (JObj fields) =>
      match lookup_field "name" fields with
      | None | Some JNull =>
          (full <~ check_backlog now;;
           if full : bool then sret backlogged_response
           else
             verdict <~ catch (match address with Some (limits, from) => st (Limits.create limits from now) | None => sret Allowed end);;
             match verdict with
             | Err e => sret (unavailable (error_text e))
             | Ok (Limited ms) => sret (rate_limited "Too many tunnels created from this address" ms)
             | Ok Allowed =>
                 answered (Service.create id now domain cluster generation (hash_token token)) (fun created =>
                   match created with
                   | Some view => mkResponse 201 None (CreatedBody view token)
                   | None => ordered 409 [("_tag", "HostnameUnavailableError"); ("name", id); ("message", "Hostname is unavailable")]
                   end)
             end) s
      | Some (JStr _) =>
          (Ok (ordered 400 [("_tag", "InvalidRequestError");
                            ("message", "Custom tunnel names are not supported; omit name to get a random hostname")]), s)
      | Some _ => (Ok (response 400), s)
      end
  | Ok _ => (Ok (response 400), s)
  end.

(** [Service::exists] *)
Definition tunnel_exists (id : string) : SM bool :=
  c <~ lock_routable id now cluster generation;; sret (bool_decide (is_Some (Service.record c))).

(** The upgrade to a bridge; [protocols] are the values of [Sec-WebSocket-Protocol] that are text; an empty body of status 101 is the accepted one. *)
Definition SUBPROTOCOLS : list string := ["opentunnel"].
Definition upgrade_call (id : string) (protocols : list string) (r : HttpRequest) : SM Response :=
  answered (tunnel_exists id) (fun found =>
    match found with
    | false => text_response 404 "Tunnel not found"
    | true =>
        let websocket := match header_text (rq_headers r) "upgrade" with Some v => String.eqb (to_ascii_lowercase v) "websocket" | None => false end in
        let offered := map str_trim (concat (map (str_split ",") protocols)) in
        if negb websocket then text_response 426 "Expected WebSocket upgrade"
        else
          match List.find (fun p => existsb (String.eqb p) offered) SUBPROTOCOLS with
          | None => text_response 426 "Expected opentunnel WebSocket subprotocol"
          | Some _ =>
              match header_get (rq_headers r) "sec-websocket-key" with
              | None => text_response 400 "Missing Sec-WebSocket-Key"
              | Some _ => response 101
              end
          end
    end).

(** [api]: the new tunnel's ID and token, the new certificate's ID and whether another machine has a bridge are arguments. *)
Definition api (new_id new_token uuid : string) (online_elsewhere : bool) (r : HttpRequest) : SM Response :=
  match api_call r with
  | CallCreate => create_call new_id new_token r
  | CallInfo id token => info_call id token online_elsewhere
  | CallRemove id token => remove_call id token
  | CallBind id => bind_call id uuid r
  | CallCertificate id token => certificate_call id token
  | CallConnect => sret (mkResponse 200 None TrueBody)
  | CallNone => sret (response 404)
  end.
End Handlers.

(** ** Reading paths *)

Lemma percent_decode_plain l : 37 ∉ l -> percent_decode_l l = l.
Proof.
  induction l as [|b l IH]; [done|]. intros [Hb Hl]%not_elem_of_cons. specialize (IH Hl).
  destruct l as [|h [|lo rest]]; cbn [percent_decode_l] in *; rewrite ?IH; try done.
  destruct (to_digit16 h), (to_digit16 lo); try done. by rewrite (proj2 (Z.eqb_neq b 37)).
Qed.

Lemma label_path_bytes id : Protocol.is_label id = true ->
  is_ascii (as_bytes id) = true /\ (37 ∉ as_bytes id) /\ (47 ∉ as_bytes id).
Proof.
  intros H%label_chars. rewrite Forall_forall in H. split_and!.
  - apply forallb_forall. intros b Hb%list_elem_of_In%H. unfold label_char, is_ascii_lowercase, is_ascii_digit in Hb. bsimp; lia.
  - by intros Hb%H.
  - by intros Hb%H.
Qed.

Lemma percent_decode_label id : Protocol.is_label id = true -> percent_decode id = id.
Proof.
  intros (Ha & H37 & _)%label_path_bytes. unfold percent_decode, from_utf8. rewrite percent_decode_plain by done.
  rewrite utf8_valid_ascii by done. apply of_as_bytes.
Qed.

Lemma label_kept id : Protocol.is_label id = true -> negb (str_is_empty id) = true.
Proof. intros H. unfold str_is_empty. rewrite bool_decide_false; [done|by apply label_nonempty]. Qed.

Lemma segments_slash id rest : Protocol.is_label id = true -> segments (id +:+ String "/" rest) = id :: segments rest.
Proof.
  intros Hid. pose proof (label_path_bytes _ Hid) as (_ & _ & H47). unfold segments, str_split.
  rewrite as_bytes_app, as_bytes_String. change (byte_of_ascii "/") with 47. rewrite split_l_app by done.
  cbn [map List.filter]. rewrite of_as_bytes, label_kept by done. cbn [map]. by rewrite percent_decode_label.
Qed.

Lemma segments_label id : Protocol.is_label id = true -> segments id = [id].
Proof.
  intros Hid. pose proof (label_path_bytes _ Hid) as (_ & _ & H47). unfold segments, str_split.
  change (byte_of_ascii "/") with 47. rewrite split_l_single by done.
  cbn [map List.filter]. rewrite of_as_bytes, label_kept by done. cbn [map]. by rewrite percent_decode_label.
Qed.

(** The segments of the client's paths. *)
Lemma segments_tunnel id suffix : segments (tunnel_path id suffix) = "api" :: "tunnel" :: segments (id +:+ suffix).
Proof.
  change (tunnel_path id suffix) with (String "/" ("api" +:+ String "/" ("tunnel" +:+ String "/" (id +:+ suffix)))).
  rewrite <- 2!segments_slash by reflexivity. reflexivity.
Qed.

Lemma label_no_slash id : Protocol.is_label id = true -> str_contains id "/" = false.
Proof.
  intros (_ & _ & H47)%label_path_bytes. unfold str_contains. apply bool_decide_eq_false. intros [n Hn].
  revert n Hn. induction (as_bytes id) as [|b l IH]; intros n; [done|]. apply not_elem_of_cons in H47 as [Hb Hl].
  cbn. rewrite decide_False by done. destruct (find_l _ l) eqn:E; [|done]. by destruct (IH Hl _ eq_refl).
Qed.

(** ** What requests reach *)

Definition visible (s : string) : bool := forallb (fun b => (32 <=? b) && (b <=? 126)) (as_bytes s).

Lemma bearer_read headers token :
  visible token = true -> header_get headers "authorization" = Some (as_bytes ("Bearer " +:+ token)) -> bearer headers = token.
Proof.
  intros Hv Hh. unfold bearer, header_text. rewrite Hh. cbn [mbind option_bind].
  assert (header_str (as_bytes ("Bearer " +:+ token)) = Some ("Bearer " +:+ token)) as ->.
  { unfold header_str. rewrite of_as_bytes, as_bytes_app, forallb_app. cbn [forallb].
    replace (forallb _ (as_bytes token)) with true; [done|]. symmetry. unfold visible in Hv. rewrite forallb_forall in *.
    intros b Hb. by rewrite (Hv _ Hb). }
  unfold str_len. rewrite as_bytes_app.
  change (as_bytes "Bearer ") with [66; 101; 97; 114; 101; 114; 32]. transitivity (of_bytes (as_bytes token)); [reflexivity|apply of_as_bytes].
Qed.

(** The call a request of the client stands for. *)
Definition call_of (token : string) (r : ClientApi.Request) : ApiCall :=
  match r with
  | ClientApi.Create => CallCreate
  | Get id => CallInfo id token
  | BindCertificate id _ => CallBind id
  | Certificate id => CallCertificate id token
  | ClientApi.Remove id => CallRemove id token
  end.
Definition request_id (r : ClientApi.Request) : option string :=
  match r with ClientApi.Create => None | Get id | BindCertificate id _ | Certificate id | ClientApi.Remove id => Some id end.

(** The request line and the header of a request of the client. *)
Record sent_as (r : ClientApi.Request) (token : string) (rq : HttpRequest) : Prop := mkSentAs {
  sa_method : rq_method rq = parse_method (request_line r).1;
  sa_path : rq_path rq = (request_line r).2;
  sa_bearer : header_get (rq_headers rq) "authorization" = Some (as_bytes ("Bearer " +:+ token));
}.

Lemma handler_tunnel admin rq id suffix :
  rq_path rq = tunnel_path id suffix -> (rq_method rq = MGet -> connect_path (rq_path rq) = None) -> handler admin rq = HandleApi (api_call rq).
Proof.
  intros Hp Hc. unfold handler. assert (connect_path (rq_path rq) = None \/ rq_method rq <> MGet) as Hn.
  { destruct (rq_method rq); [left; by apply Hc|by right..]. }
  rewrite Hp in *. cbn [String.eqb]. replace (String.eqb (tunnel_path id suffix) "/health") with false by done.
  replace (String.eqb (tunnel_path id suffix) "/openapi.json") with false by done.
  assert (str_strip_prefix "/api/admin/" (tunnel_path id suffix) = None) as ->.
  { destruct (str_strip_prefix "/api/admin/" (tunnel_path id suffix)) eqn:E; [|done]. by apply str_strip_prefix_Some in E. }
  rewrite bool_decide_true.
  2: { exists ("tunnel/" +:+ id +:+ suffix). by apply str_strip_prefix_Some. }
  destruct Hn as [->|Hn]; [done|]. destruct (connect_path _), (rq_method rq); done.
Qed.

Lemma connect_path_tunnel id suffix : Protocol.is_label id = true ->
  connect_path (tunnel_path id suffix) = (let* i := str_strip_suffix "/connect" (id +:+ suffix) in
    if negb (str_is_empty i) && negb (str_contains i "/") then Some i else None).
Proof.
  intros Hid. unfold connect_path. rewrite (proj2 (str_strip_prefix_Some "/api/tunnel/" (tunnel_path id suffix) (id +:+ suffix)) eq_refl). done.
Qed.

(** the server's router takes every request the client makes for the operation it stands for: the method and path of
    each request of [api.rs], for a tunnel whose ID is a label, reach that operation of that tunnel with the token the
    client sent, and the bridge's URL reaches the upgrade, whether or not the admin endpoints are on. *)
Theorem client_requests_routed admin rq :
  (forall r token, sent_as r token rq -> visible token = true -> (forall id, request_id r = Some id -> Protocol.is_label id = true) ->
     handler admin rq = HandleApi (call_of token r)) /\
  (forall id, rq_method rq = MGet -> rq_path rq = tunnel_path id "/connect" -> Protocol.is_label id = true ->
     handler admin rq = HandleUpgrade id).
Proof.
  split.
  - intros r token [Hm Hp Hb] Hv Hid. pose proof (bearer_read _ _ Hv Hb) as Ht.
    assert (forall id suffix, request_id r = Some id -> rq_path rq = tunnel_path id suffix ->
      suffix = "" \/ suffix = "/certificate" -> handler admin rq = HandleApi (api_call rq)) as Hh.
    { intros id suffix Hr Hpath Hs. eapply handler_tunnel; [exact Hpath|]. intros _. rewrite Hpath, connect_path_tunnel by auto.
      destruct (str_strip_suffix "/connect" _) as [i|] eqn:E; [|done]. exfalso. apply str_strip_suffix_Some in E.
      pose proof (label_path_bytes _ (Hid _ Hr)) as (_ & _ & H47). destruct Hs as [-> | ->].
      - apply (f_equal as_bytes) in E. rewrite !as_bytes_app, app_nil_r in E. apply H47. rewrite E. apply elem_of_app. right. by left.
      - apply (f_equal (fun s => list.last (as_bytes s))) in E. by rewrite !as_bytes_app, !last_app in E. }
    destruct r as [ |id|id csr|id|id]; cbn [request_line fst snd] in *.
    1: { unfold handler. rewrite Hp. cbn. unfold api_call. by rewrite Hp, Hm. }
    all: rewrite (Hh _ _ eq_refl Hp) by auto; f_equal; unfold api_call; rewrite Hp, Hm, segments_tunnel.
    all: assert (segments (id +:+ "") = [id]) as Hs1 by (rewrite str_app_nil; auto using segments_label).
    all: assert (segments (id +:+ "/certificate") = [id; "certificate"]) as Hs2 by (rewrite (segments_slash _ "certificate") by auto; done).
    all: rewrite ?Hs1, ?Hs2; cbn; by rewrite ?Ht.
  - intros id Hm Hp Hid. unfold handler. rewrite Hp, Hm, connect_path_tunnel by done.
    rewrite (proj2 (str_strip_suffix_Some _ _ id) eq_refl). cbn [mbind option_bind].
    rewrite label_kept, label_no_slash by done. cbn. by rewrite percent_decode_label.
Qed.

(** ** Who is served *)

Section Served.
Context `{HT : TimeText}.
Context (now : Z) (domain : string) (cluster : option bool) (generation : Z) (hash_token : string -> string)
  (parse_x509 : string -> option (list string * list string)) (error_text : SvError -> string).

(** An operation of a tunnel's owner: what [info], [remove], [certificate] and [bind_certificate] have in common. *)
Definition guarded {A} (id token : string) (missing refused : A) (body : Cache -> StoredTunnel -> SM A) : SM A :=
  c <~ lock_fresh id now cluster generation;;
  match record c with
  | None => sret missing
  | Some r => if negb (token_matches hash_token token (token_hash r)) then sret refused else body c r
  end.

(** Success is for who has the token; who has not gets a 401, and nothing is done but the read. *)
Definition owner_only (id token : string) (s : Sv) (rs : Response) (s' : Sv) : Prop :=
  match lock_fresh id now cluster generation s with
  | (Err _, s1) => rs_status rs = 503 /\ s' = s1
  | (Ok c, s1) =>
      match record c with
      | None => rs = tunnel_not_found id /\ s' = s1
      | Some r =>
          if token_matches hash_token token (token_hash r) then rs_status rs <> 401
          else rs = unauthorized /\ s' = s1
      end
  end.

Lemma guarded_owner {A} id token (missing refused : A) body (k : A -> Response) s rs s' :
  k missing = tunnel_not_found id -> k refused = unauthorized -> (forall c r s1 a s2, body c r s1 = (Ok a, s2) -> rs_status (k a) <> 401) ->
  answered error_text (guarded id token missing refused body) k s = (Ok rs, s') -> owner_only id token s rs s'.
Proof.
  intros Hm Hr Hb. unfold answered, guarded, owner_only, sbind.
  destruct (lock_fresh id now cluster generation s) as [[c|e] s1]; [|by intros [= <- <-]].
  destruct (record c) as [r|]; [|by intros [= <- <-]].
  destruct (token_matches hash_token token (token_hash r)); cbn [negb]; [|by intros [= <- <-]].
  destruct (body c r s1) as [[a|e] s2] eqn:E; intros [= <- <-]; [by eapply Hb|done].
Qed.

(** What an operation returns when it does not fail. *)
Definition returns {A} (P : A -> Prop) (m : SM A) : Prop := forall s a s', m s = (Ok a, s') -> P a.

Lemma returns_ret {A} (P : A -> Prop) a : P a -> returns P (sret a).
Proof. by intros HP s b s' [= <- _]. Qed.

Lemma returns_bind {A B} (P : B -> Prop) (m : SM A) k : (forall a, returns P (k a)) -> returns P (sbind m k).
Proof. intros Hk s b s'. unfold sbind. destruct (m s) as [[a|e] s1]; [apply Hk|done]. Qed.

Ltac returning := repeat first [progress cbv zeta | apply returns_bind; intros | apply returns_ret; done | case_split | case_match].

Lemma bind_new_accepts id uuid csr request r :
  returns (fun a => a <> BindUnauthorized) (bind_new id now cluster error_text uuid csr request r).
Proof. unfold bind_new. returning. Qed.

(** The tunnel a call is about. *)
Definition subject (call : ApiCall) : option string :=
  match call with CallInfo id _ | CallRemove id _ | CallBind id | CallCertificate id _ => Some id | _ => None end.

Lemma bearer_of_call rq :
  match api_call rq with CallInfo _ token | CallRemove _ token | CallCertificate _ token => token = bearer (rq_headers rq) | _ => True end.
Proof. unfold api_call. repeat case_match; simplify_eq; try done. Qed.

Lemma bind_call_owner id uuid rq s rs s' :
  bind_call now cluster generation hash_token parse_x509 error_text id uuid rq s = (Ok rs, s') ->
  ((rs_status rs = 400 \/ rs_status rs = 415) /\ s' = s) \/
  owner_only id (bearer (rq_headers rq)) s rs s'.
Proof.
  unfold bind_call. destruct (payload rq) as [body|refusal] eqn:Ep.
  2: { intros [= <- <-]. left. split; [|done]. unfold payload in Ep. repeat case_match; simplify_eq; auto. }
  destruct (let* csr := get body "csr" in de_string csr) as [csr|]; [|intros [= <- <-]; left; auto].
  intros Hb. right. revert Hb. apply guarded_owner; [done|done|]. intros c r s1 a s2 Ha.
  assert (a <> BindUnauthorized) as Hne; [|by destruct a].
  revert Ha. apply (fun H : returns (fun a => a <> BindUnauthorized) _ => H s1 a s2).
  returning; apply bind_new_accepts.
Qed.

Lemma answered_ok {A} (m : SM A) k s e s' : answered error_text m k s <> (Err e, s').
Proof. unfold answered. by destruct (m s) as [[a|e'] s1]. Qed.

Lemma create_call_answers id token rq s e s' :
  create_call now domain cluster generation hash_token error_text id token rq s <> (Err e, s').
Proof.
  unfold create_call. destruct (payload rq) as [[]|]; try done. destruct (lookup_field "name" fields) as [[]|]; try done.
  all: unfold sbind at 1, check_backlog; destruct (sv_limits s) as [l|]; [destruct (backlogged l now (sv_world s)) as [[full l'] w]|].
  all: try destruct full; try done; unfold sbind at 1, catch at 1; repeat case_match; simplify_eq; try done; try apply answered_ok.
Qed.

Lemma api_answers new_id new_token uuid online_elsewhere rq s e s' :
  api now domain cluster generation hash_token parse_x509 error_text new_id new_token uuid online_elsewhere rq s <> (Err e, s').
Proof.
  unfold api, bind_call. destruct (api_call rq); try apply answered_ok; try done; [apply create_call_answers|].
  repeat case_match; try done. apply answered_ok.
Qed.

(** C32: every API request is answered, and a tunnel's information, certificate, certificate request and deletion are for who
    has its token: whatever the record the operation reads, without the token of that record the answer is the 401 and
    nothing was done but that read, an unknown tunnel is a 404, and with the token it is not a 401. A certificate request
    whose body is not one is refused before that, and changes nothing. *)
Theorem only_owner_served new_id new_token uuid online_elsewhere rq s :
  exists rs s', api now domain cluster generation hash_token parse_x509 error_text new_id new_token uuid online_elsewhere rq s = (Ok rs, s') /\
    match subject (api_call rq) with
    | Some id => ((rs_status rs = 400 \/ rs_status rs = 415) /\ s' = s) \/ owner_only id (bearer (rq_headers rq)) s rs s'
    | None => True
    end.
Proof.
  destruct (api now domain cluster generation hash_token parse_x509 error_text new_id new_token uuid online_elsewhere rq s) as [[rs|e] s'] eqn:E.
  2: { exfalso. revert E. apply api_answers. }
  exists rs, s'. split; [done|]. pose proof (bearer_of_call rq) as Hb. unfold api in E.
  destruct (api_call rq) as [ |id token|id token|id|id token| |] eqn:Ec; cbn [subject]; try done; subst; try (by eapply bind_call_owner).
  all: right; revert E; apply guarded_owner; [done|done|].
  - intros c r s1 a s2 [= <- _]. done.
  - intros c r s1 a s2 Ha. assert (a <> Unauthorized) as Hne; [|by destruct a].
    revert Ha. apply (fun H : returns (fun a => a <> Unauthorized) _ => H s1 a s2). returning.
  - intros c r s1 a s2 [= <- _]. by destruct (certificate r).
Qed.
End Served.

(** ** Concrete requests *)
Module HttpDemo.

Definition demo_request (method : Method) (path : string) : HttpRequest :=
  mkHttpRequest method path None [("host", as_bytes "t.test"); ("authorization", as_bytes "Bearer k1")] None None.

Lemma client_requests_routed_witness :
  handler (Some (fun _ => true)) (demo_request MPost "/api/tunnel/swift-fox/certificate") = HandleApi (CallBind "swift-fox") /\
  handler (Some (fun _ => true)) (demo_request MDelete "/api/tunnel/swift-fox") = HandleApi (CallRemove "swift-fox" "k1") /\
  handler (Some (fun _ => true)) (demo_request MGet "/api/tunnel/swift-fox/connect") = HandleUpgrade "swift-fox".
Proof.
  split; [|split].
  - apply (proj1 (client_requests_routed (Some (fun _ => true)) (demo_request MPost "/api/tunnel/swift-fox/certificate")) (BindCertificate "swift-fox" "csr") "k1").
    + constructor; reflexivity.
    + reflexivity.
    + intros id [= <-]. reflexivity.
  - apply (proj1 (client_requests_routed (Some (fun _ => true)) (demo_request MDelete "/api/tunnel/swift-fox")) (ClientApi.Remove "swift-fox") "k1").
    + constructor; reflexivity.
    + reflexivity.
    + intros id [= <-]. reflexivity.
  - apply (proj2 (client_requests_routed (Some (fun _ => true)) (demo_request MGet "/api/tunnel/swift-fox/connect")) "swift-fox"); reflexivity.
Defined.

(** The router ignores empty segments and decodes the others, but the bridge's path is matched as it is. *)
Example loose_paths :
  handler None (demo_request MGet "/api//tunnel/a%2Db/") = HandleApi (CallInfo "a-b" "k1") /\
  handler None (demo_request MGet "/api/tunnel/a%2Db/connect") = HandleUpgrade "a-b" /\
  handler None (demo_request MGet "/api//tunnel/a/connect") = HandleApi CallConnect /\
  handler None (demo_request MGet "/api/tunnel") = HandleApi CallNone.
Proof. repeat split. Qed.
End HttpDemo.
