(* ===== verification/Website.v ===== *)
(** * Website: the static files of the site, [website.rs], and their responses, [http.rs]

    The directory is a tree of names; a path of a request is looked up among the files loaded from it. *)

From Stdlib Require Import ZArith Lia Ascii String List.
From stdpp Require Import base list strings gmap.
From S2P Require Import Prelude Text Names Limits HttpApi.

(** ** Loading *)

Record Asset := mkAsset { as_body : bytes; as_content_type : string; as_etag : string; as_immutable : bool }.
Abbreviation Website := (gmap string Asset).

(** A directory's entries; a name is what [to_string_lossy] gives. *)
Inductive Entry :=
| EFile (name : string) (contents : bytes)
| EDir (name : string) (entries : list Entry).

(** [replace('\\', "/")] *)
Definition slashes (path : string) : string := of_bytes (map (fun b => if b =? 92 then 47 else b) (as_bytes path)).

Definition content_type (path : string) : string :=
  match str_rsplit_once "." path with
  | None => "text/plain; charset=utf-8"
  | Some (_, e) =>
      if String.eqb e "html" then "text/html; charset=utf-8"
      else if String.eqb e "js" || String.eqb e "mjs" then "text/javascript; charset=utf-8"
      else if String.eqb e "css" then "text/css; charset=utf-8"
      else if String.eqb e "json" then "application/json"
      else if String.eqb e "svg" then "image/svg+xml"
      else if String.eqb e "png" then "image/png"
      else if String.eqb e "jpg" || String.eqb e "jpeg" then "image/jpeg"
      else if String.eqb e "webp" then "image/webp"
      else if String.eqb e "ico" then "image/x-icon"
      else if String.eqb e "woff2" then "font/woff2"
      else if String.eqb e "woff" then "font/woff"
      else if String.eqb e "txt" then "text/plain; charset=utf-8"
      else if String.eqb e "wasm" then "application/wasm"
      else if String.eqb e "mp3" then "audio/mpeg"
      else if String.eqb e "ogg" then "audio/ogg"
      else if String.eqb e "wav" then "audio/wav"
      else "application/octet-stream"
  end.

Section Load.
(** The text of the digest's first sixteen bytes in the tag of a file. *)
Context (sha256_hex : bytes -> string).

Definition asset (relative : string) (body : bytes) : Asset :=
  mkAsset body (content_type relative) (String "034" "" +:+ sha256_hex body +:+ String "034" "") (bool_decide (is_Some (str_strip_prefix "assets/" relative))).

(** [load_dir]; [prefix] is the path from the root, with its separator. *)
Fixpoint load_entry (prefix : string) (e : Entry) (files : Website) : Website :=
  match e with
  | EFile name contents => let relative := slashes (prefix +:+ name) in <[relative := asset relative contents]> files
  | EDir name entries =>
      (fix load_all (l : list Entry) (files : Website) : Website :=
         match l with [] => files | e :: l' => load_all l' (load_entry (prefix +:+ name +:+ "/") e files) end) entries files
  end.
Definition load (entries : list Entry) : Website := fold_left (fun files e => load_entry "" e files) entries ∅.
End Load.

(** ** [resolve] *)

Inductive Resolved := RFile (a : Asset) | RRedirect (location : string) | RNotFound.

(** [trim_start_matches('/')] *)
Fixpoint trim_slashes (l : bytes) : bytes := match l with b :: l' => if b =? 47 then trim_slashes l' else l | [] => [] end.
Definition str_trim_slashes (s : string) : string := of_bytes (trim_slashes (as_bytes s)).
Definition ends_with (p s : string) : bool := bool_decide (is_Some (str_strip_suffix p s)).

Definition resolve (files : Website) (path : string) : Resolved :=
  let path := str_trim_slashes path in
  if str_is_empty path || ends_with "/" path then
    match files !! (path +:+ "index.html") with Some a => RFile a | None => RNotFound end
  else
    match str_strip_suffix ".html" path with
    | Some stem =>
        if bool_decide (is_Some (files !! path)) then
          let clean :=
            match str_strip_suffix "index" stem with
            | Some directory => if str_is_empty directory || ends_with "/" directory then "/" +:+ directory else "/" +:+ stem
            | None => "/" +:+ stem
            end in
          RRedirect clean
        else RNotFound
    | None =>
        match files !! path with
        | Some a => RFile a
        | None =>
            match files !! (path +:+ ".html") with
            | Some a => RFile a
            | None => if bool_decide (is_Some (files !! (path +:+ "/index.html"))) then RRedirect ("/" +:+ path +:+ "/") else RNotFound
            end
        end
    end.

(** ** [static_file] *)

(** A body; [SOk] is the JSON of a passed health check. *)
Inductive StaticBody := SNone | SText (text : string) | SFile (contents : bytes) | SOk.
Record StaticResponse := mkStaticResponse { sr_status : Z; sr_headers : list (string * string); sr_body : StaticBody }.

Definition not_found : StaticResponse := mkStaticResponse 404 [("content-type", "text/plain;charset=UTF-8")] (SText "Not found").

Definition CACHE_FOREVER : string := "public, max-age=31536000, immutable".
Definition CACHE_CHECK : string := "public, max-age=0, must-revalidate".

Definition static_file (files : Website) (valid_header : string -> bool) (r : HttpRequest) : StaticResponse :=
  match rq_method r with
  | MGet | MHead =>
      match resolve files (rq_path r) with
      | RFile a =>
          let matches :=
            match header_text (rq_headers r) "if-none-match" with
            | Some value => existsb (fun tag => String.eqb (str_trim tag) (as_etag a)) (str_split "," value)
            | None => false
            end in
          let headers := [("etag", as_etag a); ("cache-control", if as_immutable a then CACHE_FOREVER else CACHE_CHECK)] in
          if matches then mkStaticResponse 304 headers SNone else mkStaticResponse 200 (("content-type", as_content_type a) :: headers) (SFile (as_body a))
      | RRedirect location =>
          let location := match rq_query r with Some query => location +:+ "?" +:+ query | None => location end in
          mkStaticResponse 307 (if valid_header location then [("location", location)] else []) SNone
      | RNotFound => not_found
      end
  | _ => not_found
  end.

(** [serve_redirect]: port 80. *)
Definition serve_redirect (domain : string) (valid_header : string -> bool) (path : string) (path_and_query : option string) : StaticResponse :=
  if String.eqb path "/health" then mkStaticResponse 200 [("content-type", "application/json")] SOk
  else
    let location := "https://" +:+ domain +:+ match path_and_query with Some p => p | None => "/" end in
    mkStaticResponse 301 (if valid_header location then [("location", location)] else []) SNone.

(** ** Lemmas on paths *)

Lemma trim_slashes_head l : forall b l', trim_slashes l = b :: l' -> b <> 47.
Proof. induction l as [|x l IH]; intros b l'; cbn; [done|]. destruct (x =? 47) eqn:E; [apply IH|]. intros [= -> _]. by bsimp. Qed.

Lemma trim_slashes_ok l : bytes_ok l -> bytes_ok (trim_slashes l).
Proof. induction 1 as [|x l Hx Hl IH]; cbn; [done|]. case_split; [done|by constructor]. Qed.

Lemma trim_slashes_id l : hd 0 l <> 47 -> trim_slashes l = l.
Proof. destruct l as [|b l]; [done|]. cbn. intros H. by rewrite (proj2 (Z.eqb_neq _ _) H). Qed.

Definition no_slash_first (s : string) : Prop := hd 0 (as_bytes s) <> 47.

Lemma trimmed_no_slash path : no_slash_first (str_trim_slashes path).
Proof.
  unfold no_slash_first, str_trim_slashes. rewrite as_of_bytes by (apply trim_slashes_ok, as_bytes_ok).
  destruct (trim_slashes (as_bytes path)) as [|b l] eqn:E; [done|]. cbn. by eapply trim_slashes_head.
Qed.

Lemma trim_slash_front s : no_slash_first s -> str_trim_slashes ("/" +:+ s) = s.
Proof.
  intros H. unfold str_trim_slashes. rewrite as_bytes_app. change (as_bytes "/") with [47]. cbn [app trim_slashes]. change (47 =? 47) with true. cbn iota.
  rewrite trim_slashes_id by done. apply of_as_bytes.
Qed.

Lemma no_slash_prefix a b : no_slash_first (a +:+ b) -> no_slash_first a.
Proof. unfold no_slash_first. rewrite as_bytes_app. by destruct (as_bytes a). Qed.

Lemma no_slash_app a b : no_slash_first a -> a <> "" -> no_slash_first (a +:+ b).
Proof.
  unfold no_slash_first. rewrite as_bytes_app. intros H Hne. destruct (as_bytes a) as [|x l] eqn:E; [|done].
  destruct Hne. by rewrite <- (of_as_bytes a), E.
Qed.

Lemma ends_with_app p s : ends_with p (s +:+ p) = true.
Proof. unfold ends_with. apply bool_decide_eq_true. exists s. by apply str_strip_suffix_Some. Qed.

(** A path that ends in a separator, or the root: the index of the directory. *)
Lemma resolve_directory files directory a :
  no_slash_first directory -> str_is_empty directory || ends_with "/" directory = true -> files !! (directory +:+ "index.html") = Some a ->
  resolve files ("/" +:+ directory) = RFile a.
Proof. intros Hn He Ha. unfold resolve. rewrite trim_slash_front by done. by rewrite He, Ha. Qed.

(** ** Properties *)

(** A redirect to a clean URL ends at a file: there are no loops and no dead ends, unless a page is called [.html] or
    [x.html.html]. *)
Theorem redirect_followed files path location :
  resolve files path = RRedirect location ->
  (forall stem, str_trim_slashes path = stem +:+ ".html" -> stem <> "" /\ ends_with "/" stem = false /\ ends_with ".html" stem = false) ->
  exists a, resolve files location = RFile a.
Proof.
  intros Hr Hstem. pose proof (trimmed_no_slash path) as Hno. unfold resolve in Hr. set (p := str_trim_slashes path) in *.
  destruct (str_is_empty p || ends_with "/" p) eqn:Ep; [by destruct (files !! (p +:+ "index.html"))|].
  destruct (str_strip_suffix ".html" p) as [stem|] eqn:Es.
  - apply str_strip_suffix_Some in Es. destruct (Hstem stem Es) as (Hne & Hslash & Hhtml). case_bool_decide as Hin; [|done]. destruct Hin as [a Ha].
    assert (no_slash_first stem) as Hns by (rewrite Es in Hno; by apply no_slash_prefix in Hno).
    assert (exists a, resolve files ("/" +:+ stem) = RFile a) as Hclean.
    { unfold resolve. rewrite trim_slash_front by done. rewrite Hslash. unfold str_is_empty. rewrite bool_decide_false by done. cbn [orb].
      destruct (str_strip_suffix ".html" stem) eqn:E2; [by unfold ends_with in Hhtml; rewrite E2, bool_decide_true in Hhtml by eauto|].
      destruct (files !! stem) as [b|]; [by exists b|]. rewrite <- Es, Ha. eauto. }
    destruct (str_strip_suffix "index" stem) as [directory|] eqn:Ei; [|by injection Hr as <-].
    destruct (str_is_empty directory || ends_with "/" directory) eqn:Ed; injection Hr as <-; [|done].
    apply str_strip_suffix_Some in Ei. exists a. apply resolve_directory; [|done|].
    + rewrite Ei in Hns. by apply no_slash_prefix in Hns.
    + rewrite Es, Ei in Ha. rewrite <- string_app_assoc in Ha. done.
  - destruct (files !! p); [done|]. destruct (files !! (p +:+ ".html")); [done|]. case_bool_decide as Hin; [|done]. destruct Hin as [a Ha]. injection Hr as <-.
    apply orb_false_iff in Ep as [Ep _]. unfold str_is_empty in Ep. bsimp. exists a. apply resolve_directory.
    + by apply no_slash_app.
    + rewrite ends_with_app. by rewrite orb_true_r.
    + rewrite <- string_app_assoc. done.
Qed.

(** A file is served under its own path, a page under its path without [.html]. *)
Theorem files_served files path a :
  files !! path = Some a -> no_slash_first path -> path <> "" -> ends_with "/" path = false ->
  (str_strip_suffix ".html" path = None -> resolve files ("/" +:+ path) = RFile a) /\
  (forall stem, path = stem +:+ ".html" -> files !! stem = None -> stem <> "" -> ends_with "/" stem = false -> str_strip_suffix ".html" stem = None ->
     resolve files ("/" +:+ stem) = RFile a).
Proof.
  intros Ha Hno Hne Hsl. split.
  - intros Hh. unfold resolve. rewrite trim_slash_front, Hsl, Hh, Ha by done. unfold str_is_empty. by rewrite bool_decide_false.
  - intros stem -> Hnone Hse Hss Hh. apply no_slash_prefix in Hno. unfold resolve. rewrite trim_slash_front, Hss, Hh, Hnone, Ha by done. unfold str_is_empty. by rewrite bool_decide_false.
Qed.

(** The names of loaded files have no backslash. *)
Definition plain_names (files : Website) : Prop := forall path a, files !! path = Some a -> 92 ∉ as_bytes path.

Lemma slashes_plain path : 92 ∉ as_bytes (slashes path).
Proof.
  unfold slashes. rewrite as_of_bytes.
  - intros (b & E & _)%list_elem_of_fmap. destruct (b =? 92) eqn:Eb; bsimp; congruence.
  - apply Forall_forall. intros x (b & -> & Hb)%list_elem_of_fmap. pose proof (as_bytes_ok path) as Hok. rewrite Forall_forall in Hok. apply Hok in Hb. case_split; [done|done].
Qed.

Lemma load_entry_plain sha256_hex : forall e prefix files, plain_names files -> plain_names (load_entry sha256_hex prefix e files).
Proof.
  fix IH 1. intros [name contents|name entries] prefix files Hf; cbn [load_entry].
  - intros path a. rewrite lookup_insert_Some. intros [[<- _]|[_ Hp]]; [apply slashes_plain|by eapply Hf].
  - revert files Hf. generalize (prefix +:+ name +:+ "/"). intros p. induction entries as [|e l IHl]; intros files Hf; [done|]. apply IHl. by apply IH.
Qed.

Lemma load_plain sha256_hex entries : plain_names (load sha256_hex entries).
Proof.
  unfold load. assert (plain_names ∅) as H0 by (intros p a; by rewrite lookup_empty). revert H0. generalize (∅ : Website).
  induction entries as [|e l IH]; intros files Hf; [done|]. cbn [fold_left]. apply IH. by apply load_entry_plain.
Qed.

(** A redirect stays on the site: its location is one slash and then neither a slash nor a backslash, which a browser would take for
    another host. *)
Theorem redirects_on_site sha256_hex entries path location :
  resolve (load sha256_hex entries) path = RRedirect location ->
  exists rest, location = "/" +:+ rest /\ hd 0 (as_bytes rest) <> 47 /\ hd 0 (as_bytes rest) <> 92.
Proof.
  pose proof (load_plain sha256_hex entries) as Hplain. set (files := load sha256_hex entries) in *. intros Hr.
  pose proof (trimmed_no_slash path) as Hno. unfold resolve in Hr. set (p := str_trim_slashes path) in *.
  assert (forall rest more a, files !! (rest +:+ more) = Some a -> hd 0 (as_bytes rest) <> 92) as Hb.
  { intros rest more a Ha. apply Hplain in Ha. rewrite as_bytes_app in Ha. destruct (as_bytes rest) as [|b l]; [done|]. cbn in *. intros ->. apply Ha. by left. }
  destruct (str_is_empty p || ends_with "/" p) eqn:Ep; [by destruct (files !! (p +:+ "index.html"))|].
  destruct (str_strip_suffix ".html" p) as [stem|] eqn:Es.
  - apply str_strip_suffix_Some in Es. case_bool_decide as Hin; [|done]. destruct Hin as [a Ha]. rewrite Es in Ha, Hno.
    assert (exists rest, "/" +:+ stem = "/" +:+ rest /\ hd 0 (as_bytes rest) <> 47 /\ hd 0 (as_bytes rest) <> 92) as Hclean
      by (exists stem; split_and!; [done|by apply no_slash_prefix in Hno|by eapply Hb]).
    destruct (str_strip_suffix "index" stem) as [directory|] eqn:Ei; [|by injection Hr as <-]. apply str_strip_suffix_Some in Ei.
    destruct (str_is_empty directory || ends_with "/" directory); injection Hr as <-; [|done]. exists directory. split_and!; [done| |].
    + apply no_slash_prefix in Hno. rewrite Ei in Hno. by apply no_slash_prefix in Hno.
    + rewrite Ei, <- string_app_assoc in Ha. by eapply Hb.
  - destruct (files !! p); [done|]. destruct (files !! (p +:+ ".html")); [done|]. case_bool_decide as Hin; [|done]. destruct Hin as [a Ha]. injection Hr as <-.
    exists (p +:+ "/"). split_and!; [done| |].
    + apply no_slash_app; [done|]. apply orb_false_iff in Ep as [Ep _]. unfold str_is_empty in Ep. by bsimp.
    + change ("/index.html") with ("/" +:+ "index.html") in Ha. rewrite string_app_assoc in Ha. by eapply Hb.
Qed.
