(* ===== verification/Metrics.v ===== *)
(** * Metrics: what is counted, and the monitor, [metrics.rs] and [service.rs]

    The registry is the libraries'; here is how outcomes are named, what a scrape samples, who is answered, and when the monitor warns. *)

From Stdlib Require Import ZArith Lia Ascii String List.
From stdpp Require Import base list strings gmap sorting.
From S2P Require Import Prelude Text Names Record Bridges Store Limits Service HttpApi.

(** ** Names of outcomes *)

Definition detach_reason (server_close : option Z) (clean : bool) : string :=
  match server_close with
  | Some code => if code =? 1012 then "drain" else if code =? 1000 then "delete" else if code =? 1001 then "idle_retire" else "server_close"
  | None => if clean then "client_close" else "drop"
  end.

Definition rejected_outcome (tunnel_exists : bool) (outcome : string) : string :=
  if negb tunnel_exists then "rejected_unknown_tunnel"
  else if String.eqb outcome "certificate_not_ready" then "rejected_cert_not_ready"
  else if String.eqb outcome "unknown_route" then "rejected_unknown_route"
  else if String.eqb outcome "too_many_connections" then "rejected_too_many_connections"
  else "rejected_no_bridge".

Definition hello_outcome (error : string) : string := if str_contains error "timeout" then "rejected_timeout" else "rejected_bad_hello".

(** ** What a scrape samples *)

Definition I64_MAX : Z := 2 ^ 63 - 1.
Definition as_i64 (value : Z) : Z := Z.min value I64_MAX.
Definition EXPIRING_WITHIN_MS : Z := 14 * DAY_MS.

Record Sample := mkSample { sm_bridges : nat; sm_pool_size : Z; sm_pool_idle : Z; sm_expiring : nat }.

Section Sample.
Context `{TimeText}.
(** The entries whose lock is taken just now are passed over. *)
Context (locked : string -> bool).

(** [expiring_certificates] and [bridge_count]. *)
Definition expires_before (before : Z) (c : Cache) : bool :=
  negb (bool_decide (attached_bridges (ca_tunnel c) = [])) &&
  match (let* r := record c in let* expiry := ready_expiry r in parse_iso expiry) with Some expiry => expiry <? before | None => false end.
Definition expiring_certificates (before : Z) (entries : gmap string Cache) : nat :=
  length (List.filter (fun ic : string * Cache => negb (locked ic.1) && expires_before before ic.2) (map_to_list entries)).
Definition bridge_count (entries : gmap string Cache) : nat :=
  list_sum (map (fun ic : string * Cache => if locked ic.1 then 0%nat else length (attached_bridges (ca_tunnel ic.2))) (map_to_list entries)).
Definition sample (now pool_size pool_idle : Z) (entries : gmap string Cache) : Sample :=
  mkSample (bridge_count entries) pool_size pool_idle (expiring_certificates (now + EXPIRING_WITHIN_MS) entries).
End Sample.

(** The gauges [render] sets from a sample. *)
Definition gauges (s : Sample) : list (string * Z) :=
  let idle := as_i64 (sm_pool_idle s) in
  [("bridges_attached", as_i64 (Z.of_nat (sm_bridges s))); ("db_pool_connections idle", idle); ("db_pool_connections in_use", Z.max (sm_pool_size s - idle) 0);
   ("certificates_expiring", as_i64 (Z.of_nat (sm_expiring s)))].

(** [respond] *)
Definition respond (method : Method) (path : string) : Z :=
  match method with MGet => if String.eqb path "/metrics" then 200 else 404 | _ => 404 end.

(** ** [run_monitor] *)

Definition fd_level (open_ limit : Z) : Z :=
  if limit =? 0 then 0 else let percent := open_ * 100 / limit in if 80 <=? percent then 2 else if 50 <=? percent then 1 else 0.

Definition REPEAT : Z := 600000.
Definition TRIM_INTERVAL : Z := 60000.
Definition JOBS_INTERVAL : Z := 60000.
Definition MONITOR_TICK : Z := 15000.

Record Monitor := mkMonitor { mo_level : Z; mo_warned_at : option Z; mo_jobs_at : option Z; mo_trimmed_at : option Z }.
Definition new_monitor : Monitor := mkMonitor 0 None None None.
Inductive MonitorAction := Warned (level : Z) | BackDown | Trimmed | CountedJobs.

Definition since (now every : Z) (at_ : option Z) : bool := match at_ with None => true | Some at_ => every <=? now - at_ end.

(** The part of a tick that looks at the descriptors. *)
Definition watch_fds (now : Z) (fds : option (Z * Z)) (m : Monitor) : list MonitorAction * Monitor :=
  match fds with
  | None => ([], m)
  | Some (open_, limit) =>
      let current := fd_level open_ limit in
      if (mo_level m <? current) || ((0 <? current) && since now REPEAT (mo_warned_at m))
      then ([Warned current], mkMonitor current (Some now) (mo_jobs_at m) (mo_trimmed_at m))
      else (if current <? mo_level m then [BackDown] else [], mkMonitor current (mo_warned_at m) (mo_jobs_at m) (mo_trimmed_at m))
  end.
Definition monitor_tick (now : Z) (fds : option (Z * Z)) (m : Monitor) : list MonitorAction * Monitor :=
  let '(said, m) := watch_fds now fds m in
  let '(trimmed, m) := if since now TRIM_INTERVAL (mo_trimmed_at m) then ([Trimmed], mkMonitor (mo_level m) (mo_warned_at m) (mo_jobs_at m) (Some now)) else ([], m) in
  let '(counted, m) := if since now JOBS_INTERVAL (mo_jobs_at m) then ([CountedJobs], mkMonitor (mo_level m) (mo_warned_at m) (Some now) (mo_trimmed_at m)) else ([], m) in
  (said ++ trimmed ++ counted, m).
Fixpoint run_monitor (ticks : list (Z * option (Z * Z))) (m : Monitor) : list (Z * MonitorAction) * Monitor :=
  match ticks with
  | [] => ([], m)
  | (now, fds) :: ticks' =>
      let '(said, m) := monitor_tick now fds m in
      let '(more, m) := run_monitor ticks' m in
      (map (fun a => (now, a)) said ++ more, m)
  end.

(** ** Properties *)

Local Ltac in_list := repeat (apply elem_of_cons; first [by left | right]).

(** A visitor that is turned away is counted under the reason the routing gave, each reason under a name of its own. *)
Theorem rejections_told_apart limits sni now t t' exists_ outcome :
  route limits sni now t = Some (Rejected exists_ outcome, t') ->
  outcome ∈ ["certificate_not_ready"; "unknown_route"; "too_many_connections"; "no_bridge"] /\
  forall there outcome2, outcome2 ∈ ["certificate_not_ready"; "unknown_route"; "too_many_connections"; "no_bridge"] ->
    rejected_outcome exists_ outcome = rejected_outcome there outcome2 -> there = exists_ /\ (exists_ = true -> outcome2 = outcome).
Proof.
  intros Hr. assert (outcome ∈ ["certificate_not_ready"; "unknown_route"; "too_many_connections"; "no_bridge"]) as Ho.
  { unfold route in Hr. destruct (live_record t) as [r|]; [|injection Hr as _ <- _; in_list]. revert Hr. cbn zeta.
    set (o := if negb (certificate_ready r) then _ else _). assert (o ∈ ["certificate_not_ready"; "unknown_route"; "too_many_connections"; "no_bridge"]) as Hin.
    { subst o. repeat case_match; in_list. }
    destruct (let* route := _ in _) as [b|].
    - destruct (String.eqb o "no_bridge"); [|intros [= _ <- _]; done]. destruct (_ || _); [intros [= _ <- _]; in_list|]. destruct (conn_loop _ _ _) as [[]|]; done.
    - intros [= _ <- _]. done. }
  split; [done|]. intros there outcome2 Ho2 E.
  repeat (apply elem_of_cons in Ho as [->|Ho]); try (by apply elem_of_nil in Ho);
    repeat (apply elem_of_cons in Ho2 as [->|Ho2]); try (by apply elem_of_nil in Ho2); destruct exists_, there; vm_compute in E; try discriminate E; done.
Qed.

(** The levels are half and four fifths of the limit. *)
Lemma fd_level_spec open_ limit : 0 < limit -> (fd_level open_ limit = 2 <-> 80 * limit <= open_ * 100) /\ (1 <= fd_level open_ limit <-> 50 * limit <= open_ * 100).
Proof.
  intros Hl. unfold fd_level. rewrite (proj2 (Z.eqb_neq _ _)) by lia. cbn zeta.
  assert (forall n, (n <=? open_ * 100 / limit) = true <-> n * limit <= open_ * 100) as Hn.
  { intros n. rewrite Z.leb_le. split; intros H; [pose proof (Z.mul_div_le (open_ * 100) limit Hl); nia|apply Z.div_le_lower_bound; lia]. }
  destruct (80 <=? _) eqn:E1; [apply Hn in E1; split; split; lia|]. assert (~ 80 * limit <= open_ * 100) by (rewrite <- Hn, E1; done).
  destruct (50 <=? _) eqn:E2; [apply Hn in E2; split; split; lia|]. assert (~ 50 * limit <= open_ * 100) by (rewrite <- Hn, E2; done). split; split; lia.
Qed.

(** While many descriptors are open a warning is never older than ten minutes; rising to a level warns at once; and there is no other warning. *)
Theorem descriptors_warned now open_ limit m said m' :
  monitor_tick now (Some (open_, limit)) m = (said, m') ->
  let level := fd_level open_ limit in
  mo_level m' = level /\ (mo_level m < level -> Warned level ∈ said) /\
  (0 < level -> exists w, mo_warned_at m' = Some w /\ (w = now \/ mo_warned_at m = Some w /\ now - w < REPEAT)) /\
  (forall l, Warned l ∈ said -> l = level /\ (mo_level m < level \/ 0 < level /\ since now REPEAT (mo_warned_at m) = true)).
Proof.
  intros H level. unfold monitor_tick in H. destruct (watch_fds now (Some (open_, limit)) m) as [said1 m1] eqn:Ew.
  assert (mo_level m' = mo_level m1 /\ mo_warned_at m' = mo_warned_at m1 /\ forall l, Warned l ∈ said <-> Warned l ∈ said1) as (-> & -> & Hsaid).
  { destruct (since now TRIM_INTERVAL _); cbn in H; destruct (since now JOBS_INTERVAL _); injection H as <- <-; (split_and!; [done..|]); intros l; (rewrite elem_of_app; split; [intros [?|Hx]; [done|exfalso]|by left]); cbn in Hx;
      repeat (apply elem_of_cons in Hx as [?|Hx]; [done|]); by apply elem_of_nil in Hx. }
  setoid_rewrite Hsaid. clear Hsaid H. unfold watch_fds in Ew. cbn zeta in Ew. fold level in Ew.
  destruct ((mo_level m <? level) || ((0 <? level) && since now REPEAT (mo_warned_at m))) eqn:E; injection Ew as <- <-; cbn [mo_level mo_warned_at].
  - split_and!; [done|intros; by left|intros; exists now; split; [done|by left]|]. intros l [= ->]%list_elem_of_singleton. split; [done|].
    apply orb_true_iff in E as [E|[? ?]%andb_true_iff]; bsimp; [left; lia|right; split; [lia|done]].
  - apply orb_false_iff in E as [E1 E2]. bsimp. split_and!; [done|lia| |].
    + intros Hl. rewrite (proj2 (Z.ltb_lt 0 level)) in E2 by done. cbn in E2. unfold since in E2. destruct (mo_warned_at m) as [w|]; [|done]. bsimp. exists w. split; [done|right; split; [done|lia]].
    + intros l Hl. exfalso. destruct (level <? mo_level m); [by apply list_elem_of_singleton in Hl|by apply elem_of_nil in Hl].
Qed.

(** The sampled connections in use are never negative, and with the idle ones they are the pool's. *)
Theorem pool_adds_up s : 0 <= sm_pool_idle s <= sm_pool_size s -> sm_pool_size s <= U32_MAX ->
  gauges s !! 1%nat = Some ("db_pool_connections idle", sm_pool_idle s) /\ gauges s !! 2%nat = Some ("db_pool_connections in_use", sm_pool_size s - sm_pool_idle s).
Proof. intros H1 H2. unfold gauges, as_i64, I64_MAX, U32_MAX in *. cbn [lookup list_lookup]. rewrite Z.min_l by lia. by rewrite Z.max_l by lia. Qed.
