(* ===== verification/Relay.v ===== *)
(** * Relay: the bytes between visitors and a bridge, [bridge.rs], [relay.rs] and the [Activity] of [net.rs]

    One bridge of a machine: its reader, its writer, and for each public connection an upload and a download. Each event is
    what one of these tasks does between two points where it waits; the events come in any order, and one whose task is not
    there, or may not go on, does nothing. Bytes that wait in memory hold shares of budgets; what other bridges hold of the
    machine's is [re_others]. A visitor's record outlives its place in [re_channels], as the tasks and the handles do. *)

From Stdlib Require Import ZArith Lia Ascii String List.
From stdpp Require Import base list strings gmap sets.
From S2P Require Import Prelude Text Addr Frames Mesh Bridges.

(** ** Constants *)

Definition CHANNEL_BUDGET : Z := 512 * 1024.
Definition BRIDGE_BUDGET : Z := 4 * 1024 * 1024.
Definition OUTBOUND_BUDGET : Z := 1024 * 1024.
Definition STALL : Z := 5000.
Definition PROGRESS : Z := 64 * 1024.
Definition MAX_PAYLOAD : nat := MAX_PAYLOAD_SIZE.

(** ** Messages for the bridge's socket *)

Inductive ServerControl :=
| ScAttached (session : string) (routes : list string) (heartbeat_ms idle_timeout_ms : Z)
| ScAttachError (code : string)
| ScOpen (conn : Z) (peer sni alpn : string)
| ScPing (time_sent : Z)
| ScPong (time_sent : Json)
| ScEnd (conn : Z)
| ScReset (conn : Z) (code : string).

(** The derived [Serialize]. *)
Definition control_json (c : ServerControl) : Json :=
  match c with
  | ScAttached session routes heartbeat_ms idle_timeout_ms =>
      tagged "attached" [("session", JStr session); ("routes", ser_strings routes);
                         ("heartbeat_ms", JInt heartbeat_ms); ("idle_timeout_ms", JInt idle_timeout_ms)]
  | ScAttachError code => tagged "attach_error" [("code", JStr code)]
  | ScOpen conn peer sni alpn =>
      tagged "open" [("conn", JInt conn); ("peer", JStr peer); ("sni", JStr sni); ("alpn", JStr alpn)]
  | ScPing time_sent => tagged "ping" [("time_sent", JInt time_sent)]
  | ScPong time_sent => tagged "pong" [("time_sent", time_sent)]
  | ScEnd conn => tagged "end" [("conn", JInt conn)]
  | ScReset conn code => tagged "reset" [("conn", JInt conn); ("code", JStr code)]
  end.

(** A message; [MBinary] and [MData] are data frames, the latter with the shares of its payload until it is written. *)
Inductive Outbound :=
| MText (control : ServerControl)
| MBinary (conn : Z) (payload : bytes)
| MData (conn : Z) (payload : bytes)
| MPong (data : bytes)
| MClose (code : Z) (reason : string).

(** [data_frame] and [data_message]: the bytes of a frame. *)
Definition frame_bytes (m : Outbound) : option bytes :=
  match m with MBinary conn payload | MData conn payload => Some (encode_data_frame conn payload) | _ => None end.

(** ** Activity *)

Record Timeouts := mkTimeouts { to_idle : Z; to_half_close : Z }.
Definition default_timeouts : Timeouts := mkTimeouts (15 * 60 * 1000) (60 * 1000).
Record Activity := mkActivity { ac_last : Z; ac_half_closed : bool }.
Definition touch (now : Z) (a : Activity) : Activity := mkActivity (Z.max (ac_last a) now) (ac_half_closed a).
Definition half_close (now : Z) (a : Activity) : Activity := mkActivity (ac_last (touch now a)) true.

(** One turn of the loop of [expired]: it is over, or sleeps until a time. *)
Definition deadline (t : Timeouts) (a : Activity) : Z := ac_last a + (if ac_half_closed a then to_half_close t else to_idle t).
Definition expired_turn (t : Timeouts) (a : Activity) (now : Z) : option Z :=
  if deadline t a <=? now then None else Some (Z.min (deadline t a) (now + to_half_close t)).
Definition quiet (t : Timeouts) (a : Activity) (now : Z) : bool := deadline t a <=? now.

(** ** A public connection *)

(** Data from the client, with the shares of its payload, or the end of it. *)
Inductive Inbound := IData (payload : bytes) | IEnd.

(** [upload]: reads; has read a chunk, with none, the bridge's, or also the machine's share of it; is about to queue the end. *)
Inductive Upload := UReading | UHolding (chunk : bytes) (shares : nat) | UEnding | UDone.

(** [download]: waits for data; writes some, [written] bytes of it so far, with what [write_watched] last saw. *)
Inductive Download := DReceiving | DWriting (payload : bytes) (written : nat) (previous : option Z) (acked : Z) | DDone.

(** The opening message's peer, name and protocol, and then the bytes read before, in chunks; a forwarded connection is
    accepted first. *)
Record Start := mkStart { sr_peer : string; sr_sni : string; sr_alpn : string }.
Inductive Phase := Accepting (start : Start) (chunks : list bytes) | Opening (start : option Start) (chunks : list bytes) | Relaying (up : Upload) (down : Download) | Over.

(** The last fields are what happened: the bytes the client sent for the connection and whether it ended them, those its
    socket took and whether it was shut down, the bytes read from it and whether they ended. *)
Record Visitor := mkVisitor {
  vi_conn : Z;
  vi_inbound : list Inbound;
  vi_budget : Z;
  vi_drained_at : Z;
  vi_finish : Finish;
  vi_phase : Phase;
  vi_activity : Activity;
  vi_received : bytes;
  vi_ended : bool;
  vi_written : bytes;
  vi_shut : bool;
  vi_read : bytes;
  vi_eof : bool;
}.

Definition set_inbound l x := mkVisitor (vi_conn x) l (vi_budget x) (vi_drained_at x) (vi_finish x) (vi_phase x) (vi_activity x)
  (vi_received x) (vi_ended x) (vi_written x) (vi_shut x) (vi_read x) (vi_eof x).
Definition set_budget b x := mkVisitor (vi_conn x) (vi_inbound x) b (vi_drained_at x) (vi_finish x) (vi_phase x) (vi_activity x)
  (vi_received x) (vi_ended x) (vi_written x) (vi_shut x) (vi_read x) (vi_eof x).
Definition set_drained t x := mkVisitor (vi_conn x) (vi_inbound x) (vi_budget x) t (vi_finish x) (vi_phase x) (vi_activity x)
  (vi_received x) (vi_ended x) (vi_written x) (vi_shut x) (vi_read x) (vi_eof x).
Definition set_finish f x := mkVisitor (vi_conn x) (vi_inbound x) (vi_budget x) (vi_drained_at x) f (vi_phase x) (vi_activity x)
  (vi_received x) (vi_ended x) (vi_written x) (vi_shut x) (vi_read x) (vi_eof x).
Definition set_phase p x := mkVisitor (vi_conn x) (vi_inbound x) (vi_budget x) (vi_drained_at x) (vi_finish x) p (vi_activity x)
  (vi_received x) (vi_ended x) (vi_written x) (vi_shut x) (vi_read x) (vi_eof x).
Definition set_activity a x := mkVisitor (vi_conn x) (vi_inbound x) (vi_budget x) (vi_drained_at x) (vi_finish x) (vi_phase x) a
  (vi_received x) (vi_ended x) (vi_written x) (vi_shut x) (vi_read x) (vi_eof x).
Definition set_received r e x := mkVisitor (vi_conn x) (vi_inbound x) (vi_budget x) (vi_drained_at x) (vi_finish x) (vi_phase x)
  (vi_activity x) r e (vi_written x) (vi_shut x) (vi_read x) (vi_eof x).
Definition set_written w s x := mkVisitor (vi_conn x) (vi_inbound x) (vi_budget x) (vi_drained_at x) (vi_finish x) (vi_phase x)
  (vi_activity x) (vi_received x) (vi_ended x) w s (vi_read x) (vi_eof x).
Definition set_read r e x := mkVisitor (vi_conn x) (vi_inbound x) (vi_budget x) (vi_drained_at x) (vi_finish x) (vi_phase x)
  (vi_activity x) (vi_received x) (vi_ended x) (vi_written x) (vi_shut x) r e.

Definition finish_visitor (outcome : Outcome) (abort : bool) (x : Visitor) : Visitor := set_finish (finish outcome abort (vi_finish x)) x.
Definition aborted (x : Visitor) : bool := fi_abort (vi_finish x).

(** The receiver of its data lives as long as its download. *)
Definition receiving (x : Visitor) : bool :=
  match vi_phase x with Accepting _ _ | Opening _ _ | Relaying _ DReceiving | Relaying _ (DWriting _ _ _ _) => true | _ => false end.

(** ** The bridge *)

(** The reader: waits for a message; has no room for data of a connection and waits for the shares it lacks, until a time;
    resets connections one after the other and then tries the data again, if any is left; has a message to queue, of a reset with
    the handle of its connection. *)
Inductive Reply := RpReset (conn : Z) | RpPong (time_sent : Json).
Record Pending := mkPending { pe_conn : Z; pe_visitor : nat; pe_payload : bytes; pe_empty : bool }.
Inductive Reader :=
| RNext
| RWait (p : Pending) (shares : nat) (until : Z)
| RReset (todo : list (Z * nat)) (p : option Pending)
| RSend (m : Reply) (reset : option nat) (todo : list (Z * nat)) (p : option Pending)
| RDone.

Record Relay := mkRelay {
  re_inbound : Z;
  re_outbound : Z;
  re_buffer : Z;
  re_others : Z;
  re_queue : list Outbound;
  re_open : bool;
  re_socket : list Outbound;
  re_channels : gmap Z nat;
  re_visitors : list Visitor;
  re_reader : Reader;
  re_sent_at : Z;
  re_cancelled : bool;
}.

Definition set_budgets i o b r := mkRelay i o b (re_others r) (re_queue r) (re_open r) (re_socket r) (re_channels r) (re_visitors r)
  (re_reader r) (re_sent_at r) (re_cancelled r).
Definition set_rqueue q r := mkRelay (re_inbound r) (re_outbound r) (re_buffer r) (re_others r) q (re_open r) (re_socket r) (re_channels r)
  (re_visitors r) (re_reader r) (re_sent_at r) (re_cancelled r).
Definition set_rchannels c r := mkRelay (re_inbound r) (re_outbound r) (re_buffer r) (re_others r) (re_queue r) (re_open r) (re_socket r) c
  (re_visitors r) (re_reader r) (re_sent_at r) (re_cancelled r).
Definition set_rvisitors v r := mkRelay (re_inbound r) (re_outbound r) (re_buffer r) (re_others r) (re_queue r) (re_open r) (re_socket r)
  (re_channels r) v (re_reader r) (re_sent_at r) (re_cancelled r).
Definition set_reader d r := mkRelay (re_inbound r) (re_outbound r) (re_buffer r) (re_others r) (re_queue r) (re_open r) (re_socket r)
  (re_channels r) (re_visitors r) d (re_sent_at r) (re_cancelled r).
Definition set_sent_at t r := mkRelay (re_inbound r) (re_outbound r) (re_buffer r) (re_others r) (re_queue r) (re_open r) (re_socket r)
  (re_channels r) (re_visitors r) (re_reader r) t (re_cancelled r).
Definition set_cancelled r := mkRelay (re_inbound r) (re_outbound r) (re_buffer r) (re_others r) (re_queue r) (re_open r) (re_socket r)
  (re_channels r) (re_visitors r) (re_reader r) (re_sent_at r) true.
Definition set_writer q o k r := mkRelay (re_inbound r) (re_outbound r) (re_buffer r) (re_others r) q o k
  (re_channels r) (re_visitors r) (re_reader r) (re_sent_at r) (re_cancelled r).

Definition init (machine now : Z) : Relay := mkRelay BRIDGE_BUDGET OUTBOUND_BUDGET machine 0 [] true [] ∅ [] RNext now false.

(** Changes one visitor's record. *)
Definition upd (v : nat) (f : Visitor -> Visitor) (r : Relay) : Relay := set_rvisitors (alter f v (re_visitors r)) r.

(** [channels.remove] *)
Definition leave (conn : Z) (r : Relay) : Relay := set_rchannels (delete conn (re_channels r)) r.

(** Room for a message; a queue whose writer is gone takes none, and those that wait for room go on. *)
Definition room (r : Relay) : bool := (length (re_queue r) <? OUTBOUND_QUEUE)%nat.
Definition try_send (m : Outbound) (r : Relay) : Relay := if re_open r && room r then set_rqueue (re_queue r ++ [m]) r else r.
Definition send (m : Outbound) (r : Relay) : Relay := if re_open r then set_rqueue (re_queue r ++ [m]) r else r.
Definition can_send (r : Relay) : bool := negb (re_open r) || room r.

(** *** Shares *)

Definition blen (l : bytes) : Z := Z.of_nat (length l).

(** [Held] of data from the client, dropped: its shares are given back and the visitor took data. *)
Definition give_back (v : nat) (n now : Z) (r : Relay) : Relay :=
  upd v (fun x => set_drained now (set_budget (vi_budget x + n) x)) (set_budgets (re_inbound r + n) (re_outbound r) (re_buffer r + n) r).

(** [Held] of a visitor's data, dropped: [shares] of the bridge's and the machine's. *)
Definition give_back_out (shares : nat) (n : Z) (r : Relay) : Relay :=
  set_budgets (re_inbound r) (re_outbound r + (if (1 <=? shares)%nat then n else 0)) (re_buffer r + (if (2 <=? shares)%nat then n else 0)) r.

(** [try_hold] and the connection it is for: [machine] is whether the machine's budget has it now for this bridge. *)
Definition try_hold (machine : bool) (v : nat) (n : Z) (r : Relay) : option Relay :=
  let* x := re_visitors r !! v in
  if (n <=? vi_budget x) && (n <=? re_inbound r) && machine && (n <=? re_buffer r)
  then Some (upd v (fun x => set_budget (vi_budget x - n) x) (set_budgets (re_inbound r - n) (re_outbound r) (re_buffer r - n) r))
  else None.

(** The payloads that hold shares of a visitor's budgets: queued for it, or being written. *)
Definition payload_of (i : Inbound) : bytes := match i with IData p => p | IEnd => [] end.
Definition writing (x : Visitor) : bytes := match vi_phase x with Relaying _ (DWriting p _ _ _) => p | _ => [] end.
Definition held (x : Visitor) : Z := blen (concat (map payload_of (vi_inbound x))) + blen (writing x).

Definition holds (x : Visitor) : bool :=
  match vi_phase x with Relaying _ (DWriting _ _ _ _) => true | _ => existsb (fun i => match i with IData _ => true | IEnd => false end) (vi_inbound x) end.

(** The receiver is dropped, with what is queued and what is being written. *)
Definition drop_down (v : nat) (now : Z) (r : Relay) : Relay :=
  match re_visitors r !! v with
  | Some x => upd v (set_inbound []) (if holds x then give_back v (held x) now r else r)
  | None => r
  end.

(** [channel.inbound.send]: a visitor that is gone drops the data and its shares. *)
Definition deliver (p : Pending) (now : Z) (r : Relay) : Relay :=
  match re_visitors r !! pe_visitor p with
  | Some x => if receiving x then upd (pe_visitor p) (fun x => set_inbound (vi_inbound x ++ [IData (pe_payload p)]) x) r
              else give_back (pe_visitor p) (blen (pe_payload p)) now r
  | None => r
  end.

(** *** The reader *)

(** What is left of the resets, after which the data is tried again; nothing left is the next message. *)
Definition resets (todo : list (Z * nat)) (p : option Pending) : Reader := match todo, p with [], None => RNext | _, _ => RReset todo p end.

(** [held]: with [empty], data starts waiting for the visitor now. *)
Definition starts_waiting (p : Pending) (now : Z) (r : Relay) : Relay := if pe_empty p then upd (pe_visitor p) (set_drained now) r else r.

(** [data], up to where it has to wait. *)
Definition data (frame : bytes) (machine : bool) (now : Z) (r : Relay) : Relay :=
  match re_reader r, decode_data_frame frame with
  | RNext, Some (conn, payload) =>
      match re_channels r !! conn with
      | None => r
      | Some v =>
          match re_visitors r !! v with
          | None => r
          | Some x =>
              let r := upd v (fun x => set_received (vi_received x ++ payload) (vi_ended x) x) r in
              let p := mkPending conn v payload (vi_budget x =? CHANNEL_BUDGET) in
              let r := starts_waiting p now r in
              match try_hold machine v (blen payload) r with
              | Some r => deliver p now r
              | None => set_reader (RWait p 0 (now + STALL)) r
              end
          end
      end
  | _, _ => r
  end.

(** The shares a waiting reader has are given back. *)
Definition give_back_wait (p : Pending) (shares : nat) (r : Relay) : Relay :=
  let n := blen (pe_payload p) in
  let r := if (1 <=? shares)%nat then upd (pe_visitor p) (fun x => set_budget (vi_budget x + n) x) r else r in
  if (2 <=? shares)%nat then set_budgets (re_inbound r + n) (re_outbound r) (re_buffer r) r else r.

(** A share the reader waits for is there: the connection's, then the bridge's, then the machine's. *)
Definition acquire (now : Z) (r : Relay) : Relay :=
  match re_reader r with
  | RWait p shares until =>
      let n := blen (pe_payload p) in
      match shares, re_visitors r !! pe_visitor p with
      | 0%nat, Some x =>
          if n <=? vi_budget x then set_reader (RWait p 1 until) (upd (pe_visitor p) (fun x => set_budget (vi_budget x - n) x) r) else r
      | 1%nat, _ => if n <=? re_inbound r then set_reader (RWait p 2 until) (set_budgets (re_inbound r - n) (re_outbound r) (re_buffer r) r) else r
      | 2%nat, _ =>
          if n <=? re_buffer r
          then set_reader RNext (deliver p now (set_budgets (re_inbound r) (re_outbound r) (re_buffer r - n) r)) else r
      | _, _ => r
      end
  | _ => r
  end.

(** [reset_stalled]: the connections with data waiting whose visitor took none for [STALL]. *)
Definition stalled_at (now : Z) (x : Visitor) : bool := (vi_budget x <? CHANNEL_BUDGET) && (STALL <=? sat_sub now (vi_drained_at x)).
Definition stalled (now : Z) (r : Relay) : list (Z * nat) :=
  filter (fun cv => match re_visitors r !! cv.2 with Some x => stalled_at now x | None => false end = true) (map_to_list (re_channels r)).

(** The wait is over: [order] is the order in which the map gives the stalled connections. *)
Definition stalled_share (now : Z) (order : list (Z * nat)) (r : Relay) : Relay :=
  match re_reader r with
  | RWait p shares until =>
      if until <=? now then
        let r := give_back_wait p shares r in
        if bool_decide (order ≡ₚ stalled now r) then set_reader (RReset order (Some p)) r else set_reader (RReset (stalled now r) (Some p)) r
      else r
  | _ => r
  end.

(** [reset], up to where it queues the message. *)
Definition reset_code : string := "client_io_error".
Definition reset (conn : Z) (v : nat) (todo : list (Z * nat)) (p : option Pending) (r : Relay) : Relay :=
  set_reader (RSend (RpReset conn) (Some v) todo p) (upd v (finish_visitor Backpressure true) (leave conn r)).

(** The next reset, or the second try of the data. *)
Definition reset_next (machine : bool) (now : Z) (r : Relay) : Relay :=
  match re_reader r with
  | RReset ((conn, v) :: todo) p => reset conn v todo p r
  | RReset [] (Some p) =>
      match re_channels r !! pe_conn p with
      | None => set_reader RNext r
      | Some _ =>
          match try_hold machine (pe_visitor p) (blen (pe_payload p)) (starts_waiting p now r) with
          | Some r => set_reader RNext (deliver p now r)
          | None => reset (pe_conn p) (pe_visitor p) [] None r
          end
      end
  | _ => r
  end.

(** The reader's message is queued, or dropped without a writer. *)
Definition reply (m : Reply) : ServerControl := match m with RpReset conn => ScReset conn reset_code | RpPong time_sent => ScPong time_sent end.
Definition reader_sends (r : Relay) : Relay :=
  match re_reader r with
  | RSend m _ todo p => if can_send r then set_reader (resets todo p) (send (MText (reply m)) r) else r
  | _ => r
  end.

(** [keep_alive], while the reader waits; [wall] is the time of day. *)
Definition keep_alive (now wall : Z) (r : Relay) : Relay :=
  match re_reader r with
  | RWait _ _ _ => if sat_sub now (re_sent_at r) <? HEARTBEAT_MS then r else try_send (MText (ScPing wall)) (set_sent_at now r)
  | _ => r
  end.

(** The bridge is cancelled: a waiting reader gives up, the session then ends. *)
Definition reader_cancelled (r : Relay) : Relay :=
  if re_cancelled r then
    match re_reader r with
    | RWait p shares _ => set_reader RNext (give_back_wait p shares r)
    | RNext => set_reader RDone r
    | _ => r
    end
  else r.

(** [handle_control] *)
Inductive Control := KPing (time_sent : Json) | KEnd (conn : Z) | KReset (conn : Z).
Definition control (k : Control) (r : Relay) : Relay :=
  match re_reader r, k with
  | RNext, KPing time_sent => set_reader (RSend (RpPong time_sent) None [] None) r
  | RNext, KReset conn =>
      match re_channels r !! conn with Some v => upd v (finish_visitor Reset true) (leave conn r) | None => r end
  | RNext, KEnd conn =>
      match re_channels r !! conn with
      | Some v =>
          let ended x :=
            let x := set_received (vi_received x) true (finish_visitor Closed false x) in
            if receiving x then set_inbound (vi_inbound x ++ [IEnd]) x else x in
          upd v ended (leave conn r)
      | None => r
      end
  | _, _ => r
  end.

(** *** The writer *)

Definition release_message (m : Outbound) (r : Relay) : Relay := match m with MData _ p => give_back_out 2 (blen p) r | _ => r end.
Fixpoint release_messages (q : list Outbound) (r : Relay) : Relay := match q with [] => r | m :: q' => release_messages q' (release_message m r) end.

(** The writer's end of the queue is dropped. *)
Definition close_queue (r : Relay) : Relay := set_writer [] false (re_socket r) (release_messages (re_queue r) r).

(** The first message is written, or cannot be. *)
Definition write (ok : bool) (now : Z) (r : Relay) : Relay :=
  match re_open r, re_queue r with
  | true, m :: q =>
      if ok then
        let r := release_message m (set_writer q true (re_socket r ++ [m]) r) in
        match m with MClose _ _ => close_queue r | _ => set_sent_at now r end
      else close_queue (set_cancelled (release_message m (set_rqueue q r)))
  | _, _ => r
  end.
Definition writer_cancelled (r : Relay) : Relay := if re_open r && re_cancelled r then close_queue r else r.

(** *** A connection's tasks *)

(** [chunks] of the bytes read so far. *)
Fixpoint chunks (fuel : nat) (l : bytes) : list bytes :=
  match fuel, l with S fuel', _ :: _ => take MAX_PAYLOAD l :: chunks fuel' (drop MAX_PAYLOAD l) | _, _ => [] end.
(** [route] gave it the number [conn]. *)
Definition opened (forwarded : bool) (conn : Z) (initial : bytes) (start : Start) (now : Z) (r : Relay) : Relay :=
  match re_channels r !! conn with
  | Some _ => r
  | None =>
      let todo := chunks (length initial) initial in
      let x := mkVisitor conn [] CHANNEL_BUDGET now (mkFinish None false) (if forwarded then Accepting start todo else Opening (Some start) todo)
                 (mkActivity now false) [] false [] false initial false in
      set_rchannels (<[conn := length (re_visitors r)]> (re_channels r)) (set_rvisitors (re_visitors r ++ [x]) r)
  end.

(** Runs what an event does for a visitor that is there. *)
Definition with_visitor (v : nat) (f : Visitor -> Relay -> Relay) (r : Relay) : Relay :=
  match re_visitors r !! v with Some x => f x r | None => r end.
Definition to_phase (v : nat) (p : Phase) (r : Relay) : Relay := upd v (set_phase p) r.

(** The machine that forwarded the visitor is told, or is gone. *)
Definition accepted (v : nat) (ok : bool) (now : Z) : Relay -> Relay := with_visitor v (fun x r =>
  match vi_phase x with
  | Accepting start todo => if ok then to_phase v (Opening (Some start) todo) r else to_phase v Over (drop_down v now (leave (vi_conn x) r))
  | _ => r
  end).

(** The opening messages are queued one by one; then both directions start. *)
Definition open_next (v : nat) (now : Z) : Relay -> Relay := with_visitor v (fun x r =>
  match vi_phase x with
  | Opening None [] => to_phase v (Relaying UReading DReceiving) (upd v (set_activity (mkActivity now false)) r)
  | Opening (Some s) todo =>
      if can_send r then to_phase v (Opening None todo) (send (MText (ScOpen (vi_conn x) (sr_peer s) (sr_sni s) (sr_alpn s))) r) else r
  | Opening None (chunk :: todo) => if can_send r then to_phase v (Opening None todo) (send (MBinary (vi_conn x) chunk) r) else r
  | _ => r
  end).

(** *** [upload] *)

(** The socket gives some bytes, their end, or fails. *)
Definition read_chunk (v : nat) (chunk : bytes) (now : Z) : Relay -> Relay := with_visitor v (fun x r =>
  match vi_phase x with
  | Relaying UReading down =>
      if (0 <? length chunk)%nat && (length chunk <=? MAX_PAYLOAD)%nat then
        to_phase v (Relaying (UHolding chunk 0) down) (upd v (fun x => set_activity (touch now (vi_activity x)) (set_read (vi_read x ++ chunk) (vi_eof x) x)) r)
      else r
  | _ => r
  end).
Definition read_end (v : nat) (now : Z) : Relay -> Relay := with_visitor v (fun x r =>
  match vi_phase x with
  | Relaying UReading down =>
      to_phase v (Relaying UEnding down) (upd v (fun x => set_activity (half_close now (vi_activity x)) (set_read (vi_read x) true x)) r)
  | _ => r
  end).
Definition read_failed (v : nat) : Relay -> Relay := with_visitor v (fun x r =>
  match vi_phase x with
  | Relaying UReading down =>
      let r := to_phase v (Relaying UDone down) r in
      upd v (finish_visitor ClientError true) (leave (vi_conn x) (try_send (MText (ScReset (vi_conn x) reset_code)) r))
  | _ => r
  end).

(** [hold_outbound]: the bridge's share, then the machine's. *)
Definition hold_outbound (v : nat) : Relay -> Relay := with_visitor v (fun x r =>
  match vi_phase x with
  | Relaying (UHolding chunk 0) down =>
      if blen chunk <=? re_outbound r
      then to_phase v (Relaying (UHolding chunk 1) down) (set_budgets (re_inbound r) (re_outbound r - blen chunk) (re_buffer r) r) else r
  | Relaying (UHolding chunk 1) down =>
      if blen chunk <=? re_buffer r
      then to_phase v (Relaying (UHolding chunk 2) down) (set_budgets (re_inbound r) (re_outbound r) (re_buffer r - blen chunk) r) else r
  | _ => r
  end).

(** The chunk is queued; without a writer it is dropped and the connection ends. *)
Definition upload_sends (v : nat) : Relay -> Relay := with_visitor v (fun x r =>
  match vi_phase x with
  | Relaying (UHolding chunk 2) down =>
      if re_open r then
        if room r then to_phase v (Relaying UReading down) (set_rqueue (re_queue r ++ [MData (vi_conn x) chunk]) r) else r
      else to_phase v (Relaying UDone down) (upd v (finish_visitor BridgeDisconnected true) (give_back_out 2 (blen chunk) r))
  | Relaying UEnding down =>
      if can_send r
      then to_phase v (Relaying UDone down) (send (MText (ScEnd (vi_conn x))) r) else r
  | _ => r
  end).

(** The upload is dropped, with the shares it has. *)
Definition drop_up (v : nat) : Relay -> Relay := with_visitor v (fun x r =>
  match vi_phase x with Relaying (UHolding chunk shares) _ => give_back_out shares (blen chunk) r | _ => r end).
Definition upload_aborted (v : nat) : Relay -> Relay := with_visitor v (fun x r =>
  if aborted x then
    match vi_phase x with
    | Relaying UReading down => to_phase v (Relaying UDone down) r
    | Relaying (UHolding _ _) down => to_phase v (Relaying UDone down) (drop_up v r)
    | _ => r
    end
  else r).

(** *** [download] *)

(** Whether something may still be queued: the bridge has the channel, or its reader a handle of it. *)
Definition reader_has (v : nat) (d : Reader) : bool :=
  let pending p := match p with Some p => (pe_visitor p =? v)%nat | None => false end in
  match d with
  | RWait p _ _ => (pe_visitor p =? v)%nat
  | RReset todo p => existsb (fun cv => (cv.2 =? v)%nat) todo || pending p
  | RSend _ reset todo p => match reset with Some w => (w =? v)%nat | None => false end || existsb (fun cv => (cv.2 =? v)%nat) todo || pending p
  | _ => false
  end.
Definition sender_lives (v : nat) (r : Relay) : bool :=
  existsb (fun cv => (cv.2 =? v)%nat) (map_to_list (re_channels r)) || reader_has v (re_reader r).

(** The next of the queue; its end, or that nothing can come, is passed on as a shutdown. *)
Definition receive (v : nat) (now : Z) : Relay -> Relay := with_visitor v (fun x r =>
  let over up r := to_phase v (Relaying up DDone) (drop_down v now (upd v (fun x => set_activity (half_close now (vi_activity x)) (set_written (vi_written x) true x)) r)) in
  match vi_phase x, vi_inbound x with
  | Relaying up DReceiving, IData p :: l => to_phase v (Relaying up (DWriting p 0 None 0)) (upd v (set_inbound l) r)
  | Relaying up DReceiving, IEnd :: l => over up r
  | Relaying up DReceiving, [] => if sender_lives v r then r else over up r
  | _, _ => r
  end).

(** The visitor's socket takes [n] more bytes; all of them written, their shares are given back. *)
Definition write_some (v : nat) (n : nat) (now : Z) : Relay -> Relay := with_visitor v (fun x r =>
  match vi_phase x with
  | Relaying up (DWriting p written previous acked) =>
      let taken := take n (drop written p) in
      let r := upd v (fun x => set_written (vi_written x ++ taken) (vi_shut x) x) r in
      if (length p <=? written + length taken)%nat
      then to_phase v (Relaying up DReceiving) (give_back v (blen p) now (upd v (fun x => set_activity (touch now (vi_activity x)) x) r))
      else to_phase v (Relaying up (DWriting p (written + length taken) previous acked)) r
  | _ => r
  end).
Definition write_failed (v : nat) (now : Z) : Relay -> Relay := with_visitor v (fun x r =>
  match vi_phase x with
  | Relaying up (DWriting p _ _ _) =>
      let r := to_phase v (Relaying up DDone) (drop_down v now r) in
      upd v (finish_visitor ClientError true) (try_send (MText (ScReset (vi_conn x) reset_code)) (leave (vi_conn x) r))
  | _ => r
  end).

(** [write_watched]'s check: [queued] bytes are not acknowledged; enough acknowledged since the last note is progress. *)
Definition check_progress (v : nat) (queued : option Z) (now : Z) : Relay -> Relay := with_visitor v (fun x r =>
  match vi_phase x, queued with
  | Relaying up (DWriting p written previous acked), Some queued =>
      let acked := match previous with Some previous => if queued <? previous then acked + (previous - queued) else acked | None => acked end in
      if PROGRESS <=? acked
      then to_phase v (Relaying up (DWriting p written (Some queued) 0)) (upd v (set_drained now) r)
      else to_phase v (Relaying up (DWriting p written (Some queued) acked)) r
  | _, _ => r
  end).
Definition download_aborted (v : nat) (now : Z) : Relay -> Relay := with_visitor v (fun x r =>
  if aborted x then
    match vi_phase x with
    | Relaying up DReceiving | Relaying up (DWriting _ _ _ _) => to_phase v (Relaying up DDone) (drop_down v now r)
    | _ => r
    end
  else r).

(** *** The end of a connection *)

(** Both directions are over, or the connection was quiet for too long. *)
Definition done (v : nat) : Relay -> Relay := with_visitor v (fun x r =>
  match vi_phase x with
  | Relaying UDone DDone => upd v (finish_visitor Closed false) (leave (vi_conn x) (to_phase v Over r))
  | _ => r
  end).
Definition idle (t : Timeouts) (v : nat) (now : Z) : Relay -> Relay := with_visitor v (fun x r =>
  match vi_phase x with
  | Relaying up down =>
      if quiet t (vi_activity x) now then
        let r := to_phase v (Relaying UDone down) (drop_up v r) in
        let r := to_phase v Over (drop_down v now r) in
        upd v (finish_visitor ClientError true) (try_send (MText (ScReset (vi_conn x) reset_code)) (leave (vi_conn x) r))
      else r
  | _ => r
  end).

(** [finish_channels]: the bridge is retired, closed or deleted. *)
Definition finish_all (outcome : Outcome) (r : Relay) : Relay :=
  set_rchannels ∅ (foldr (fun cv => upd cv.2 (finish_visitor outcome true)) r (map_to_list (re_channels r))).

(** Other bridges take from the machine's budget, or give back. *)
Definition others (n : Z) (r : Relay) : Relay :=
  if (n <=? re_buffer r) && (0 <=? re_others r + n)
  then mkRelay (re_inbound r) (re_outbound r) (re_buffer r - n) (re_others r + n) (re_queue r) (re_open r) (re_socket r) (re_channels r)
         (re_visitors r) (re_reader r) (re_sent_at r) (re_cancelled r)
  else r.

(** ** Events *)

Inductive Event :=
| EvData (frame : bytes) (machine : bool)
| EvAcquire
| EvGiveUp (order : list (Z * nat))
| EvResetNext (machine : bool)
| EvReaderSends
| EvKeepAlive (wall : Z)
| EvReaderCancelled
| EvControl (k : Control)
| EvTrySend (m : Outbound)
| EvWrite (ok : bool)
| EvWriterCancelled
| EvCancel
| EvOpened (forwarded : bool) (conn : Z) (initial : bytes) (start : Start)
| EvAccepted (v : nat) (ok : bool)
| EvOpenNext (v : nat)
| EvRead (v : nat) (chunk : bytes)
| EvReadEnd (v : nat)
| EvReadFailed (v : nat)
| EvHold (v : nat)
| EvUploadSends (v : nat)
| EvUploadAborted (v : nat)
| EvReceive (v : nat)
| EvWriteSome (v n : nat)
| EvWriteFailed (v : nat)
| EvProgress (v : nat) (queued : option Z)
| EvDownloadAborted (v : nat)
| EvDone (v : nat)
| EvIdle (v : nat)
| EvFinishAll (outcome : Outcome)
| EvOthers (n : Z).

Definition step (t : Timeouts) (r : Relay) (e : Event * Z) : Relay :=
  let now := e.2 in
  match e.1 with
  | EvData frame machine => data frame machine now r
  | EvAcquire => acquire now r
  | EvGiveUp order => stalled_share now order r
  | EvResetNext machine => reset_next machine now r
  | EvReaderSends => reader_sends r
  | EvKeepAlive wall => keep_alive now wall r
  | EvReaderCancelled => reader_cancelled r
  | EvControl k => control k r
  | EvTrySend m => match m with MPong _ | MClose _ _ => try_send m r | _ => r end
  | EvWrite ok => write ok now r
  | EvWriterCancelled => writer_cancelled r
  | EvCancel => set_cancelled r
  | EvOpened forwarded conn initial start => opened forwarded conn initial start now r
  | EvAccepted v ok => accepted v ok now r
  | EvOpenNext v => open_next v now r
  | EvRead v chunk => read_chunk v chunk now r
  | EvReadEnd v => read_end v now r
  | EvReadFailed v => read_failed v r
  | EvHold v => hold_outbound v r
  | EvUploadSends v => upload_sends v r
  | EvUploadAborted v => upload_aborted v r
  | EvReceive v => receive v now r
  | EvWriteSome v n => write_some v n now r
  | EvWriteFailed v => write_failed v now r
  | EvProgress v queued => check_progress v queued now r
  | EvDownloadAborted v => download_aborted v now r
  | EvDone v => done v r
  | EvIdle v => idle t v now r
  | EvFinishAll outcome => finish_all outcome r
  | EvOthers n => others n r
  end.
Definition run (t : Timeouts) (machine start : Z) (events : list (Event * Z)) : Relay := fold_left (step t) events (init machine start).

(** ** Accounting for the bytes in memory *)

Definition total (f : Visitor -> Z) (l : list Visitor) : Z := foldr (fun x n => f x + n) 0 l.

Lemma total_app f l1 l2 : total f (l1 ++ l2) = total f l1 + total f l2.
Proof. induction l1 as [|x l1 IH]; cbn; [done|]. fold (total f (l1 ++ l2)) (total f l1). lia. Qed.

Lemma total_alter f g l v x : l !! v = Some x -> total f (alter g v l) = total f l - f x + f (g x).
Proof.
  revert v. induction l as [|y l IH]; intros [|v]; cbn; [done|done| |].
  - intros [= ->]. fold (total f l). lia.
  - intros Hv. specialize (IH _ Hv). unfold total in IH. cbn in IH. rewrite IH. lia.
Qed.

Lemma total_nonneg f l : (forall x, 0 <= f x) -> 0 <= total f l.
Proof. intros Hf. induction l as [|x l IH]; cbn; [done|]. fold (total f l). specialize (Hf x). lia. Qed.

Lemma total_member f l v x : (forall x, 0 <= f x) -> l !! v = Some x -> f x <= total f l.
Proof.
  intros Hf. revert v. induction l as [|y l IH]; intros [|v]; cbn; [done|done| |]; fold (total f l).
  - intros [= ->]. pose proof (total_nonneg f l Hf). lia.
  - intros Hv%IH. specialize (Hf y). lia.
Qed.

Lemma blen_nonneg l : 0 <= blen l.
Proof. unfold blen. lia. Qed.
Lemma blen_app l1 l2 : blen (l1 ++ l2) = blen l1 + blen l2.
Proof. unfold blen. rewrite length_app. lia. Qed.
Lemma held_nonneg x : 0 <= held x.
Proof. unfold held. pose proof (blen_nonneg (concat (map payload_of (vi_inbound x)))). pose proof (blen_nonneg (writing x)). lia. Qed.

Lemma alter_lookup_is_Some {A} (f : A -> A) (l : list A) v w : is_Some (alter f v l !! w) <-> is_Some (l !! w).
Proof. rewrite !lookup_lt_is_Some. by rewrite length_alter. Qed.
Lemma alter_None {A} (f : A -> A) (l : list A) v : l !! v = None -> alter f v l = l.
Proof.
  intros Hv. apply list_eq. intros w. destruct (decide (v = w)) as [<-|]; [|by rewrite list_lookup_alter_ne].
  by rewrite list_lookup_alter_eq, Hv.
Qed.

(** What an upload holds of the bridge's budget and of the machine's, and what the reader holds. *)
Definition up_shares (min : nat) (x : Visitor) : Z :=
  match vi_phase x with Relaying (UHolding chunk shares) _ => if (min <=? shares)%nat then blen chunk else 0 | _ => 0 end.
Definition queued (q : list Outbound) : Z := foldr (fun m n => match m with MData _ p => blen p + n | _ => n end) 0 q.
Definition reader_local (v : nat) (d : Reader) : Z :=
  match d with RWait p shares _ => if (1 <=? shares)%nat && (pe_visitor p =? v)%nat then blen (pe_payload p) else 0 | _ => 0 end.
Definition reader_shared (d : Reader) : Z := match d with RWait p shares _ => if (2 <=? shares)%nat then blen (pe_payload p) else 0 | _ => 0 end.
Definition pending_of (d : Reader) : option Pending := match d with RWait p _ _ => Some p | RReset _ p | RSend _ _ _ p => p | _ => None end.

Lemma up_shares_nonneg min x : 0 <= up_shares min x.
Proof. unfold up_shares. repeat case_match; auto using blen_nonneg with lia. Qed.
Lemma queued_app q1 q2 : queued (q1 ++ q2) = queued q1 + queued q2.
Proof. induction q1 as [|m q1 IH]; cbn; [done|]. fold (queued (q1 ++ q2)) (queued q1). destruct m; lia. Qed.
Lemma queued_nonneg q : 0 <= queued q.
Proof. induction q as [|m q IH]; cbn; [done|]. fold (queued q). destruct m; try done. pose proof (blen_nonneg payload). lia. Qed.

(** Every share of every budget is where bytes wait, or free. *)
Record accounted (machine : Z) (r : Relay) : Prop := mkAccounted {
  ac_channel : forall v x, re_visitors r !! v = Some x -> 0 <= vi_budget x /\ vi_budget x + held x + reader_local v (re_reader r) = CHANNEL_BUDGET;
  ac_inbound : 0 <= re_inbound r /\ re_inbound r + total held (re_visitors r) + reader_shared (re_reader r) = BRIDGE_BUDGET;
  ac_outbound : 0 <= re_outbound r /\ re_outbound r + queued (re_queue r) + total (up_shares 1) (re_visitors r) = OUTBOUND_BUDGET;
  ac_buffer : 0 <= re_buffer r /\ 0 <= re_others r /\
    re_buffer r + re_others r + total held (re_visitors r) + queued (re_queue r) + total (up_shares 2) (re_visitors r) = machine;
  ac_reader : (match re_reader r with RWait _ shares _ => (shares <= 2)%nat | _ => True end) /\
    (forall p, pending_of (re_reader r) = Some p -> is_Some (re_visitors r !! pe_visitor p));
  ac_queue : re_open r = false -> re_queue r = [];
}.

(** One visitor's record changes, and the rest of the bridge around it. *)
Lemma accounted_upd machine r v x f r' :
  accounted machine r -> re_visitors r !! v = Some x -> re_visitors r' = alter f v (re_visitors r) -> re_others r' = re_others r ->
  0 <= vi_budget (f x) -> 0 <= re_inbound r' -> 0 <= re_outbound r' -> 0 <= re_buffer r' ->
  vi_budget (f x) + held (f x) + reader_local v (re_reader r') = CHANNEL_BUDGET ->
  (forall w, w <> v -> reader_local w (re_reader r') = reader_local w (re_reader r)) ->
  re_inbound r' + held (f x) + reader_shared (re_reader r') = re_inbound r + held x + reader_shared (re_reader r) ->
  re_outbound r' + queued (re_queue r') + up_shares 1 (f x) = re_outbound r + queued (re_queue r) + up_shares 1 x ->
  re_buffer r' + held (f x) + queued (re_queue r') + up_shares 2 (f x) = re_buffer r + held x + queued (re_queue r) + up_shares 2 x ->
  (match re_reader r' with RWait _ shares _ => (shares <= 2)%nat | _ => True end) ->
  (forall p, pending_of (re_reader r') = Some p -> pending_of (re_reader r) = Some p \/ pe_visitor p = v) ->
  (re_open r' = false -> re_queue r' = []) ->
  accounted machine r'.
Proof.
  intros [Hc [Hi0 Hi] [Ho0 Ho] (Hb0 & Hn & Hb) [Hr Hp] Hq] Hv Evs Eo Hf Hi' Ho' Hb' Hcv Hloc Hin Hout Hbuf Hrd Hpe Hq'.
  constructor; rewrite ?Evs; rewrite ?(total_alter _ _ _ _ _ Hv), ?Eo; try (split_and?; lia); try done.
  - intros w y Hy. destruct (decide (w = v)) as [->|Hne].
    + rewrite list_lookup_alter_eq, Hv in Hy. by injection Hy as <-.
    + rewrite list_lookup_alter_ne in Hy by done. rewrite Hloc by done. by apply Hc.
  - split; [done|]. intros p Hp'%Hpe. apply alter_lookup_is_Some. destruct Hp' as [?| ->]; eauto.
Qed.

(** No visitor's record changes. *)
Lemma accounted_same machine r r' :
  accounted machine r -> re_visitors r' = re_visitors r ->
  0 <= re_inbound r' -> 0 <= re_outbound r' -> 0 <= re_buffer r' -> 0 <= re_others r' ->
  (forall v, reader_local v (re_reader r') = reader_local v (re_reader r)) ->
  re_inbound r' + reader_shared (re_reader r') = re_inbound r + reader_shared (re_reader r) ->
  re_outbound r' + queued (re_queue r') = re_outbound r + queued (re_queue r) ->
  re_buffer r' + re_others r' + queued (re_queue r') = re_buffer r + re_others r + queued (re_queue r) ->
  (match re_reader r' with RWait _ shares _ => (shares <= 2)%nat | _ => True end) ->
  (forall p, pending_of (re_reader r') = Some p -> pending_of (re_reader r) = Some p) ->
  (re_open r' = false -> re_queue r' = []) ->
  accounted machine r'.
Proof.
  intros [Hc [Hi0 Hi] [Ho0 Ho] (Hb0 & Hn & Hb) [Hr Hp] Hq] Evs Hi' Ho' Hb' Hn' Hloc Hin Hout Hbuf Hrd Hpe Hq'.
  constructor; rewrite ?Evs; try (split_and?; lia); try done.
  - intros v x Hx. rewrite Hloc. by apply Hc.
  - split; [done|]. auto.
Qed.

(** Changes that no budget sees. *)
Definition frugal (f : Visitor -> Visitor) : Prop :=
  forall x, vi_budget (f x) = vi_budget x /\ vi_inbound (f x) = vi_inbound x /\ vi_phase (f x) = vi_phase x.

Lemma frugal_same f x : frugal f -> held (f x) = held x /\ forall min, up_shares min (f x) = up_shares min x.
Proof. intros Hf. destruct (Hf x) as (_ & Hi & Hp). unfold held, up_shares, writing. by rewrite Hi, Hp. Qed.

Lemma accounted_frugal machine v f r : frugal f -> accounted machine r -> accounted machine (upd v f r).
Proof.
  intros Hf Hr. destruct (re_visitors r !! v) as [x|] eqn:Hv.
  - destruct (frugal_same f x Hf) as [Hh Hu]. destruct (Hf x) as [Hb _]. pose proof Hr as [Hc [Hi _] [Ho _] (Hbf & _) [Hk _] Hq].
    destruct (Hc _ _ Hv). eapply (accounted_upd _ _ _ _ f); eauto; cbn; rewrite ?Hh, ?Hu, ?Hb; auto; lia.
  - replace (upd v f r) with r; [done|]. unfold upd. rewrite alter_None by done. by destruct r.
Qed.

Lemma queued_data q conn p : queued (q ++ [MData conn p]) = queued q + blen p.
Proof. rewrite queued_app. cbn. lia. Qed.
Lemma queued_other q m : match m with MData _ _ => False | _ => True end -> queued (q ++ [m]) = queued q.
Proof. intros Hm. rewrite queued_app. destruct m; cbn in *; (done || lia). Qed.

(** The lookups, sums and shares of a changed bridge. *)
Ltac relay_norm :=
  unfold give_back, give_back_out, give_back_wait, to_phase, upd, leave, set_budgets, set_rqueue, set_rchannels, set_rvisitors, set_reader,
    set_sent_at, set_cancelled, set_writer;
  cbn [re_inbound re_outbound re_buffer re_others re_queue re_open re_socket re_channels re_visitors re_reader re_sent_at re_cancelled Nat.leb];
  rewrite ?list_alter_alter_eq.
Ltac visitor_norm :=
  cbn [vi_conn vi_inbound vi_budget vi_drained_at vi_finish vi_phase vi_activity vi_received vi_ended vi_written vi_shut vi_read vi_eof
    set_inbound set_budget set_drained set_finish set_phase set_activity set_received set_written set_read finish_visitor
    payload_of map concat app queued foldr reader_local reader_shared pending_of pe_visitor pe_payload Nat.leb andb] in *.
Ltac account :=
  unfold held, up_shares, writing, compose in *; visitor_norm; rewrite ?map_app, ?concat_app, ?blen_app, ?queued_app in *; visitor_norm;
  rewrite ?app_nil_r in *; change (blen []) with 0 in *;
  repeat match goal with |- context [blen ?l] => lazymatch goal with _ : 0 <= blen l |- _ => fail | _ => pose proof (blen_nonneg l) end end;
  try done; try lia; auto; try (intros; exfalso; congruence).
Ltac account_upd Hr Hv :=
  let H1 := fresh in let H2 := fresh in
  pose proof (ac_channel _ _ Hr _ _ Hv) as [H1 H2]; pose proof (proj1 (ac_inbound _ _ Hr)); pose proof (proj1 (ac_outbound _ _ Hr));
  pose proof (proj1 (ac_buffer _ _ Hr)); pose proof (proj1 (ac_reader _ _ Hr)); pose proof (ac_queue _ _ Hr);
  eapply (accounted_upd _ _ _ _ _ _ Hr Hv); clear Hr Hv; [relay_norm; reflexivity|..]; relay_norm; account.
Ltac account_same Hr :=
  pose proof (proj1 (ac_inbound _ _ Hr)); pose proof (proj1 (ac_outbound _ _ Hr)); pose proof (ac_buffer _ _ Hr) as (? & ? & _);
  pose proof (proj1 (ac_reader _ _ Hr)); pose proof (ac_queue _ _ Hr);
  eapply (accounted_same _ _ _ Hr); clear Hr; relay_norm; account.

Lemma accounted_leave machine conn r : accounted machine r -> accounted machine (leave conn r).
Proof. intros Hr. account_same Hr. Qed.

Lemma accounted_try_send machine m r : accounted machine r -> match m with MData _ _ => False | _ => True end -> accounted machine (try_send m r).
Proof.
  intros Hr Hm. unfold try_send. destruct (re_open r) eqn:Eo, (room r); try done; cbn [andb].
  account_same Hr; destruct m; (done || lia || congruence).
Qed.

Lemma accounted_send machine m r : accounted machine r -> match m with MData _ _ => False | _ => True end ->
  accounted machine (send m r).
Proof. intros Hr Hm. unfold send. destruct (re_open r) eqn:Eo; [|done]. account_same Hr; destruct m; (done || lia || congruence). Qed.

Lemma accounted_others machine n r : accounted machine r -> accounted machine (others n r).
Proof. intros Hr. unfold others. case_split; [|done]. bsimp. account_same Hr. Qed.

Lemma accounted_finish machine v outcome abort r : accounted machine r -> accounted machine (upd v (finish_visitor outcome abort) r).
Proof. apply accounted_frugal. done. Qed.

Lemma accounted_drained machine v t r : accounted machine r -> accounted machine (upd v (set_drained t) r).
Proof. apply accounted_frugal. done. Qed.

Lemma accounted_finish_all machine outcome r : accounted machine r -> accounted machine (finish_all outcome r).
Proof.
  intros Hr. unfold finish_all. assert (accounted machine (foldr (fun cv => upd cv.2 (finish_visitor outcome true)) r (map_to_list (re_channels r)))) as H.
  { induction (map_to_list (re_channels r)) as [|cv l IH]; cbn; [done|]. by apply accounted_finish. }
  account_same H.
Qed.

Lemma visitors_try_send m r : re_visitors (try_send m r) = re_visitors r.
Proof. unfold try_send. by case_split. Qed.
Lemma visitors_send m r : re_visitors (send m r) = re_visitors r.
Proof. unfold send. by destruct (re_open r). Qed.

(** A visitor that stops receiving, in a phase without a download. *)
Definition no_down (p : Phase) : Prop := match p with Relaying _ DDone | Over => True | _ => False end.

Lemma held_none x : holds x = false -> held x = 0.
Proof.
  unfold holds, held, writing. intros H. assert (existsb (fun i => match i with IData _ => true | IEnd => false end) (vi_inbound x) = false ->
    blen (concat (map payload_of (vi_inbound x))) = 0) as Hl.
  { clear H. induction (vi_inbound x) as [|[p|] l IH]; cbn; [done|done|]. exact IH. }
  destruct (vi_phase x) as [| |up [|p w q a|]|]; try done; rewrite Hl by done; done.
Qed.

Lemma drop_down_upd v now x r : re_visitors r !! v = Some x ->
  exists t, re_visitors (drop_down v now r) = alter (fun x => set_drained t (set_budget (vi_budget x + held x) (set_inbound [] x))) v (re_visitors r) /\
    drop_down v now r = set_rvisitors (re_visitors (drop_down v now r)) (set_budgets (re_inbound r + held x) (re_outbound r) (re_buffer r + held x) r).
Proof.
  intros Hv. unfold drop_down. rewrite Hv. destruct (holds x) eqn:Eh.
  - exists now. relay_norm. split; [|done]. apply list_eq. intros w.
    destruct (decide (v = w)) as [<-|]; [rewrite !list_lookup_alter_eq, Hv; done|by rewrite !list_lookup_alter_ne].
  - exists (vi_drained_at x). rewrite (held_none _ Eh). relay_norm. split; [|by rewrite !Z.add_0_r].
    apply list_eq. intros w. destruct (decide (v = w)) as [<-|]; [rewrite !list_lookup_alter_eq, Hv|by rewrite !list_lookup_alter_ne].
    cbn. rewrite (held_none _ Eh), Z.add_0_r. by destruct x.
Qed.

Lemma accounted_drop_down machine v now x p r :
  accounted machine r -> re_visitors r !! v = Some x -> no_down p -> (forall min, up_shares min (set_phase p x) = up_shares min x) ->
  accounted machine (to_phase v p (drop_down v now r)).
Proof.
  intros Hr Hv Hp Hu. destruct (drop_down_upd v now x r Hv) as (t & Ev & ->). unfold to_phase, upd. cbn [re_visitors set_rvisitors]. rewrite Ev.
  pose proof Hr as [Hc [Hi0 Hi] [Ho0 Ho] (Hb0 & Hn & Hb) [Hk Hpe] Hq]. destruct (Hc _ _ Hv).
  pose proof (total_member held _ _ _ held_nonneg Hv). pose proof (held_nonneg x).
  set (f := fun x => set_drained t (set_budget (vi_budget x + held x) (set_inbound [] x))).
  assert (held (set_phase p (f x)) = 0) as Hh by (destruct p as [| |up []|]; done).
  assert (forall min, up_shares min (set_phase p (f x)) = up_shares min x) as Hu' by (intros min; rewrite <- Hu; reflexivity).
  eapply (accounted_upd _ _ _ _ (set_phase p ∘ f) _ Hr Hv); [relay_norm; reflexivity|..]; relay_norm; cbn [compose]; unfold compose; rewrite ?Hh, ?Hu'; cbn; auto; lia.
Qed.

Lemma upd_lookup v f x r : re_visitors r !! v = Some x -> re_visitors (upd v f r) !! v = Some (f x).
Proof. intros Hv. cbn. by rewrite list_lookup_alter_eq, Hv. Qed.

(** What a step of one visitor's task does to it. *)
Ltac visitor_cases :=
  unfold with_visitor; match goal with |- context [re_visitors ?r !! ?v] => destruct (re_visitors r !! v) as [x|] eqn:Hv; [|done] end;
  match goal with Hv : _ !! _ = Some ?y |- _ => destruct y as [conn inbound budget drained fin ph act received ended written shut rd eof] end;
  visitor_norm.

Lemma accounted_accepted machine v ok now r : accounted machine r -> accounted machine (accepted v ok now r).
Proof.
  intros Hr. unfold accepted. visitor_cases. destruct ph as [s todo|s todo|up down|]; try done. destruct ok; [account_upd Hr Hv|].
  eapply accounted_drop_down; [by apply accounted_leave|exact Hv|done|done].
Qed.

Lemma accounted_open_next machine v now r : accounted machine r -> accounted machine (open_next v now r).
Proof.
  intros Hr. unfold open_next. visitor_cases. destruct ph as [|[s|] [|chunk todo]|up down|]; try done; try (destruct (can_send r); [|done]);
    try (match goal with |- context [send ?m ?q] => pose proof (accounted_send machine m q Hr I) as Hr'; rewrite <- (visitors_send m) in Hv end;
         clear Hr; rename Hr' into Hr); account_upd Hr Hv.
Qed.

Lemma accounted_read_chunk machine v chunk now r : accounted machine r -> accounted machine (read_chunk v chunk now r).
Proof. intros Hr. unfold read_chunk. visitor_cases. destruct ph as [| |[] down|]; try done. case_split; [|done]. account_upd Hr Hv. Qed.

Lemma accounted_read_end machine v now r : accounted machine r -> accounted machine (read_end v now r).
Proof. intros Hr. unfold read_end. visitor_cases. destruct ph as [| |[] down|]; try done. account_upd Hr Hv. Qed.

(** The end of a connection's place in the bridge. *)
Lemma accounted_ended machine v outcome abort conn m r : accounted machine r -> match m with MData _ _ => False | _ => True end ->
  accounted machine (upd v (finish_visitor outcome abort) (leave conn (try_send m r))) /\
  accounted machine (upd v (finish_visitor outcome abort) (try_send m (leave conn r))).
Proof. intros Hr Hm. split; apply accounted_finish; [by apply accounted_leave, accounted_try_send|by apply accounted_try_send; [apply accounted_leave|]]. Qed.

Lemma accounted_read_failed machine v r : accounted machine r -> accounted machine (read_failed v r).
Proof. intros Hr. unfold read_failed. visitor_cases. destruct ph as [| |[] down|]; try done. apply accounted_ended; [|done]. account_upd Hr Hv. Qed.

Lemma accounted_hold_outbound machine v r : accounted machine r -> accounted machine (hold_outbound v r).
Proof.
  intros Hr. unfold hold_outbound. visitor_cases. destruct ph as [| |[|chunk [|[|]]| |] down|]; try done; case_split; try done; bsimp; account_upd Hr Hv.
Qed.

Lemma accounted_upload_sends machine v r :
  accounted machine r -> accounted machine (upload_sends v r).
Proof.
  intros Hr. unfold upload_sends. visitor_cases. destruct ph as [| |[|chunk [|[|[|]]]| |] down|]; try done.
  - destruct (re_open r) eqn:Eo; [case_split; [|done]|]; account_upd Hr Hv.
  - destruct (can_send r); [|done]. pose proof (accounted_send machine (MText (ScEnd conn)) r Hr I) as Hr'.
    rewrite <- (visitors_send (MText (ScEnd conn))) in Hv. account_upd Hr' Hv.
Qed.

Lemma accounted_upload_aborted machine v r : accounted machine r -> accounted machine (upload_aborted v r).
Proof.
  intros Hr. unfold upload_aborted, drop_up, with_visitor. destruct (re_visitors r !! v) as [x|] eqn:Hv; [|done].
  destruct x as [conn inbound budget drained fin ph act received ended written shut rd eof]. cbn [vi_phase aborted vi_finish] in *. case_split; [|done].
  destruct ph as [| |[|chunk [|[|shares]]| |] down|]; try done; account_upd Hr Hv.
Qed.

Lemma accounted_receive machine v now r : accounted machine r -> accounted machine (receive v now r).
Proof.
  intros Hr. unfold receive, with_visitor. destruct (re_visitors r !! v) as [x|] eqn:Hv; [|done].
  assert (forall up, vi_phase x = Relaying up DReceiving -> accounted machine (to_phase v (Relaying up DDone) (drop_down v now
    (upd v (fun x => set_activity (half_close now (vi_activity x)) (set_written (vi_written x) true x)) r)))) as Hover.
  { intros up Hp. eapply accounted_drop_down; [by apply accounted_frugal|cbn; by rewrite list_lookup_alter_eq, Hv|done|].
    intros min. unfold up_shares. cbn. by rewrite Hp. }
  destruct x as [conn inbound budget drained fin ph act received ended written shut rd eof]. cbn [vi_phase vi_inbound] in *.
  destruct ph as [| |up [| |]|]; try done. destruct inbound as [|[p|] l].
  - case_split; [done|]. by apply Hover.
  - clear Hover. account_upd Hr Hv.
  - by apply Hover.
Qed.

Lemma accounted_write_some machine v n now r : accounted machine r -> accounted machine (write_some v n now r).
Proof.
  intros Hr. unfold write_some, with_visitor. destruct (re_visitors r !! v) as [x|] eqn:Hv; [|done].
  destruct (vi_phase x) as [| |up [|p w q a|]|] eqn:Hp; try done. cbv zeta. set (g := fun x => set_written _ _ x).
  assert (accounted machine (upd v g r)) as Hg by by apply accounted_frugal. apply (upd_lookup v g) in Hv. revert Hg Hv.
  generalize (upd v g r) as r'. assert (vi_phase (g x) = Relaying up (DWriting p w q a)) as Hp' by done. revert Hp'. generalize (g x) as y.
  intros y Hp' r' Hr' Hv'. clear Hr Hp. case_split.
  - set (h := fun x => set_activity _ x). assert (accounted machine (upd v h r')) as Hh by by apply accounted_frugal.
    apply (upd_lookup v h) in Hv'. assert (vi_phase (h y) = Relaying up (DWriting p w q a)) as Hp by done. revert Hh Hv' Hp.
    generalize (upd v h r'), (h y). clear. intros r [conn inbound budget drained fin ph act received ended written shut rd eof] Hr Hv ?.
    visitor_norm. subst. account_upd Hr Hv.
  - clear -Hr' Hv' Hp'. destruct y. visitor_norm. subst. account_upd Hr' Hv'.
Qed.

Lemma accounted_check_progress machine v queued now r : accounted machine r -> accounted machine (check_progress v queued now r).
Proof.
  intros Hr. unfold check_progress. visitor_cases. destruct ph as [| |up [|p w q a|]|]; try done. destruct queued; [|done].
  case_split; account_upd Hr Hv.
Qed.

Lemma accounted_download_aborted machine v now r : accounted machine r -> accounted machine (download_aborted v now r).
Proof.
  intros Hr. unfold download_aborted, with_visitor. destruct (re_visitors r !! v) as [x|] eqn:Hv; [|done]. case_split; [|done].
  destruct (vi_phase x) as [| |up [|p w q a|]|] eqn:Hp; try done.
  all: eapply accounted_drop_down; [done|exact Hv|done|intros min; unfold up_shares; cbn; by rewrite Hp].
Qed.

Lemma accounted_done machine v r : accounted machine r -> accounted machine (done v r).
Proof. intros Hr. unfold done. visitor_cases. destruct ph as [| |[] []|]; try done. apply accounted_finish, accounted_leave. account_upd Hr Hv. Qed.

Lemma accounted_write_failed machine v now r : accounted machine r -> accounted machine (write_failed v now r).
Proof.
  intros Hr. unfold write_failed, with_visitor. destruct (re_visitors r !! v) as [x|] eqn:Hv; [|done].
  destruct (vi_phase x) as [| |up [|p w q a|]|] eqn:Hp; try done. apply accounted_ended; [|done].
  eapply accounted_drop_down; [done|exact Hv|done|]. intros min. unfold up_shares. cbn. by rewrite Hp.
Qed.

Lemma accounted_drop_up machine v x up down r : accounted machine r -> re_visitors r !! v = Some x -> vi_phase x = Relaying up down ->
  accounted machine (to_phase v (Relaying UDone down) (drop_up v r)).
Proof.
  intros Hr Hv Hp. unfold drop_up, with_visitor. rewrite Hv. destruct x as [conn inbound budget drained fin ph act received ended written shut rd eof].
  visitor_norm. subst ph. destruct up as [|chunk [|[|shares]]| |]; account_upd Hr Hv.
Qed.

Lemma accounted_idle machine t v now r : accounted machine r -> accounted machine (idle t v now r).
Proof.
  intros Hr. unfold idle, with_visitor. destruct (re_visitors r !! v) as [x|] eqn:Hv; [|done].
  destruct (vi_phase x) as [| |up down|] eqn:Hp; try done. case_split; [|done]. apply accounted_ended; [|done].
  pose proof (accounted_drop_up _ _ _ _ _ _ Hr Hv Hp) as H. eapply (accounted_drop_down _ _ _ (set_phase (Relaying UDone down) x)); [exact H| |done|done].
  apply upd_lookup. unfold drop_up, with_visitor. rewrite Hv. by destruct (vi_phase x) as [| |[] ?|].
Qed.

(** *** The reader's steps *)

Lemma accounted_starts_waiting machine p now r : accounted machine r -> accounted machine (starts_waiting p now r).
Proof. intros Hr. unfold starts_waiting. case_split; [by apply accounted_drained|done]. Qed.

Lemma give_back_held v n now r :
  give_back v n now (upd v (fun x => set_budget (vi_budget x - n) x) (set_budgets (re_inbound r - n) (re_outbound r) (re_buffer r - n) r)) =
  upd v (set_drained now) r.
Proof.
  relay_norm. f_equal; try lia. apply list_eq. intros w.
  destruct (decide (v = w)) as [<-|]; [rewrite !list_lookup_alter_eq|by rewrite !list_lookup_alter_ne].
  destruct (re_visitors r !! v) as [[]|]; cbn; [|done]. unfold set_drained, set_budget, compose. cbn. do 2 f_equal. lia.
Qed.

Lemma try_hold_deliver machine m p now d r r' :
  accounted machine r -> try_hold m (pe_visitor p) (blen (pe_payload p)) r = Some r' -> reader_shared (re_reader r) = 0 ->
  (forall v, reader_local v (re_reader r) = 0) -> pending_of d = None -> accounted machine (set_reader d (deliver p now r')).
Proof.
  intros Hr Hh Hs Hl Hd. unfold try_hold in Hh. destruct (re_visitors r !! pe_visitor p) as [x|] eqn:Hv; [|done]. cbn [mbind option_bind] in Hh.
  assert ((forall v, reader_local v d = 0) /\ reader_shared d = 0 /\ match d with RWait _ shares _ => (shares <= 2)%nat | _ => True end) as (Hl' & Hs' & Hk)
    by (destruct d; done).
  case_split; [|done]. bsimp. injection Hh as <-. unfold deliver. cbn [re_visitors set_budgets set_rvisitors upd].
  rewrite list_lookup_alter_eq, Hv. cbn [fmap option_fmap option_map]. pose proof (Hl (pe_visitor p)) as Hl0. specialize (Hl' (pe_visitor p)) as Hl0'.
  destruct (receiving _).
  - pose proof (ac_channel _ _ Hr _ _ Hv) as [? ?]. pose proof (proj1 (ac_inbound _ _ Hr)). pose proof (proj1 (ac_outbound _ _ Hr)).
    pose proof (proj1 (ac_buffer _ _ Hr)). pose proof (ac_queue _ _ Hr).
    eapply (accounted_upd _ _ _ _ _ _ Hr Hv); [relay_norm; reflexivity|..]; relay_norm; clear Hr Hv; destruct x; rewrite ?Hl', ?Hs', ?Hs, ?Hd;
      account; intros; rewrite ?Hl', ?Hl; done.
  - rewrite give_back_held. apply (accounted_drained _ (pe_visitor p) now) in Hr. eapply (accounted_same _ _ _ Hr);
      pose proof (proj1 (ac_inbound _ _ Hr)); pose proof (proj1 (ac_outbound _ _ Hr)); pose proof (ac_buffer _ _ Hr) as (? & ? & _);
      pose proof (ac_queue _ _ Hr); clear Hr Hv; cbn in *; rewrite ?Hs', ?Hs, ?Hd; try done; intros; rewrite ?Hl', ?Hl; done.
Qed.

Lemma no_wait_shares d : match d with RWait _ _ _ => False | _ => True end -> reader_shared d = 0 /\ forall v, reader_local v d = 0.
Proof. by destruct d. Qed.

Lemma set_reader_id r : set_reader (re_reader r) r = r.
Proof. by destruct r. Qed.

Lemma deliver_reader p now r : re_reader (deliver p now r) = re_reader r.
Proof. unfold deliver. repeat case_match; done. Qed.
Lemma try_hold_reader m v n r r' : try_hold m v n r = Some r' -> re_reader r' = re_reader r.
Proof. unfold try_hold. destruct (_ !! _); cbn; [|done]. case_split; [|done]. by intros [= <-]. Qed.

(** The reader goes on to something else; a new wait is for a visitor that is there. *)
Lemma accounted_reader machine d r : accounted machine r -> match re_reader r with RWait _ _ _ => False | _ => True end ->
  match d with RWait _ shares _ => shares = 0%nat | _ => True end ->
  (forall p, pending_of d = Some p -> is_Some (re_visitors r !! pe_visitor p)) -> accounted machine (set_reader d r).
Proof.
  intros [Hc Hi Ho Hb Hk Hq] Hw Hd Hp. destruct (no_wait_shares _ Hw) as [Hs Hl].
  assert (reader_shared d = 0 /\ forall v, reader_local v d = 0) as [Hs' Hl'].
  { destruct d as [|p sh u| | |]; try done. subst sh. done. }
  rewrite Hs in Hi. constructor; cbn; rewrite ?Hs'; try done.
  - intros v x Hx. rewrite Hl'. specialize (Hc _ _ Hx). by rewrite Hl in Hc.
  - split; [|done]. destruct d; try done. lia.
Qed.

Lemma accounted_data machine frame m now r : accounted machine r -> accounted machine (data frame m now r).
Proof.
  intros Hr. unfold data. destruct (re_reader r) eqn:Er; try done. destruct (decode_data_frame frame) as [[conn payload]|]; [|done].
  destruct (re_channels r !! conn) as [v|]; [|done]. destruct (re_visitors r !! v) as [x|] eqn:Hv; [|done]. cbv zeta.
  set (p := mkPending conn v payload (vi_budget x =? CHANNEL_BUDGET)). set (f := fun x => set_received _ _ x).
  assert (accounted machine (upd v f r)) as H1 by by apply accounted_frugal.
  pose proof (accounted_starts_waiting _ p now _ H1) as H2.
  assert (re_reader (starts_waiting p now (upd v f r)) = RNext) as Er' by (unfold starts_waiting; by case_split).
  destruct (try_hold m v (blen payload) _) as [r'|] eqn:Eh.
  - pose proof (try_hold_reader _ _ _ _ _ Eh) as Er2. rewrite Er' in Er2. rewrite <- (set_reader_id (deliver p now r')), deliver_reader, Er2.
    eapply try_hold_deliver; [exact H2|exact Eh|by rewrite Er'|by rewrite Er'|done].
  - apply accounted_reader; [done|by rewrite Er'|done|]. intros q [= <-]. unfold starts_waiting. cbn. case_split; cbn; rewrite ?alter_lookup_is_Some, Hv; eauto.
Qed.

Lemma accounted_give_back_wait machine p shares until r : accounted machine r -> re_reader r = RWait p shares until ->
  accounted machine (set_reader RNext (give_back_wait p shares r)).
Proof.
  intros Hr Er. pose proof (ac_reader _ _ Hr) as [Hk Hp]. rewrite Er in Hk, Hp. destruct (Hp p eq_refl) as [x Hv].
  destruct shares as [|[|[|]]]; [| | |lia].
  - pose proof (ac_inbound _ _ Hr) as [? _]. pose proof (ac_outbound _ _ Hr) as [? _]. pose proof (ac_buffer _ _ Hr) as (? & ? & _). pose proof (ac_queue _ _ Hr).
    eapply (accounted_same _ _ _ Hr); cbn; rewrite ?Er; done.
  - pose proof (ac_channel _ _ Hr _ _ Hv) as [Hb Hc]. pose proof (ac_inbound _ _ Hr) as [? _]. pose proof (ac_outbound _ _ Hr) as [? _].
    pose proof (ac_buffer _ _ Hr) as (? & ? & _). pose proof (ac_queue _ _ Hr). rewrite Er in Hc. cbn in Hc. rewrite Nat.eqb_refl in Hc. pose proof (blen_nonneg (pe_payload p)).
    eapply (accounted_upd _ _ _ _ _ _ Hr Hv); [relay_norm; reflexivity|..]; relay_norm; rewrite ?Er; clear Hr Hv; destruct x; account.
    intros w Hw. by rewrite (proj2 (Nat.eqb_neq _ _)) by done.
  - pose proof (ac_channel _ _ Hr _ _ Hv) as [Hb Hc]. pose proof (ac_inbound _ _ Hr) as [? _]. pose proof (ac_outbound _ _ Hr) as [? _].
    pose proof (ac_buffer _ _ Hr) as (? & ? & _). pose proof (ac_queue _ _ Hr). rewrite Er in Hc. cbn in Hc. rewrite Nat.eqb_refl in Hc. pose proof (blen_nonneg (pe_payload p)).
    eapply (accounted_upd _ _ _ _ _ _ Hr Hv); [relay_norm; reflexivity|..]; relay_norm; rewrite ?Er; clear Hr Hv; destruct x; account.
    intros w Hw. by rewrite (proj2 (Nat.eqb_neq _ _)) by done.
Qed.

Lemma accounted_acquire machine now r : accounted machine r -> accounted machine (acquire now r).
Proof.
  intros Hr. unfold acquire. destruct (re_reader r) as [|p shares until| | |] eqn:Er; try done. cbv zeta.
  pose proof (ac_reader _ _ Hr) as [Hk Hp]. rewrite Er in Hk, Hp. destruct (Hp p eq_refl) as [x Hv]. rewrite Hv.
  pose proof (ac_channel _ _ Hr _ _ Hv) as [Hb Hc]. rewrite Er in Hc. cbn in Hc. rewrite Nat.eqb_refl in Hc.
  pose proof (ac_inbound _ _ Hr) as [? _]. pose proof (ac_outbound _ _ Hr) as [? _]. pose proof (ac_buffer _ _ Hr) as (? & ? & _).
  pose proof (ac_queue _ _ Hr). pose proof (blen_nonneg (pe_payload p)).
  destruct shares as [|[|[|]]]; [| | |done]; case_split; try done; bsimp.
  - eapply (accounted_upd _ _ _ _ _ _ Hr Hv); [relay_norm; reflexivity|..]; relay_norm; rewrite ?Er; clear Hr Hv; destruct x; account; rewrite ?Nat.eqb_refl; try lia; try (intros q [= <-]; by left).
    intros w Hw. by rewrite (proj2 (Nat.eqb_neq _ _)) by done.
  - eapply (accounted_same _ _ _ Hr); relay_norm; rewrite ?Er; account.
  - unfold deliver. cbn [re_visitors set_budgets]. rewrite Hv. destruct (receiving x).
    + eapply (accounted_upd _ _ _ _ _ _ Hr Hv); [relay_norm; reflexivity|..]; relay_norm; rewrite ?Er; clear Hr Hv; destruct x; account.
      intros w Hw. by rewrite (proj2 (Nat.eqb_neq _ _)) by done.
    + eapply (accounted_upd _ _ _ _ _ _ Hr Hv); [relay_norm; reflexivity|..]; relay_norm; rewrite ?Er; clear Hr Hv; destruct x; account.
      intros w Hw. by rewrite (proj2 (Nat.eqb_neq _ _)) by done.
Qed.

Lemma give_back_wait_visitors p shares r w : is_Some (re_visitors (give_back_wait p shares r) !! w) <-> is_Some (re_visitors r !! w).
Proof. unfold give_back_wait. case_split; case_split; cbn; by rewrite ?alter_lookup_is_Some. Qed.

Lemma accounted_stalled_share machine now order r : accounted machine r -> accounted machine (stalled_share now order r).
Proof.
  intros Hr. unfold stalled_share. destruct (re_reader r) as [|p shares until| | |] eqn:Er; try done. case_split; [|done].
  pose proof (accounted_give_back_wait _ _ _ _ _ Hr Er) as H. pose proof (proj2 (ac_reader _ _ Hr)) as Hp. rewrite Er in Hp.
  assert (forall todo, accounted machine (set_reader (RReset todo (Some p)) (give_back_wait p shares r))) as Ht.
  { intros todo. apply (accounted_reader _ (RReset todo (Some p))) in H; [exact H|done|done|]. intros q [= <-]. cbn. apply give_back_wait_visitors. auto. }
  case_split; apply Ht.
Qed.

Lemma accounted_reset machine conn v todo p r : accounted machine r -> match re_reader r with RWait _ _ _ => False | _ => True end ->
  (forall q, p = Some q -> is_Some (re_visitors r !! pe_visitor q)) -> accounted machine (reset conn v todo p r).
Proof.
  intros Hr Hw Hp. unfold reset. apply accounted_reader; [by apply accounted_finish, accounted_leave|done|done|].
  intros q [= ->]. cbn. apply alter_lookup_is_Some. auto.
Qed.

Lemma accounted_reset_next machine m now r : accounted machine r -> accounted machine (reset_next m now r).
Proof.
  intros Hr. unfold reset_next. pose proof (proj2 (ac_reader _ _ Hr)) as Hp.
  destruct (re_reader r) as [| |[|[conn v] todo] p| |] eqn:Er; try done.
  - destruct p as [p|]; [|done]. destruct (re_channels r !! pe_conn p); [|apply accounted_reader; [done|by rewrite Er|done|done]].
    pose proof (accounted_starts_waiting _ p now _ Hr) as Hs.
    assert (re_reader (starts_waiting p now r) = RReset [] (Some p)) as Er' by (unfold starts_waiting; by case_split).
    destruct (try_hold m _ _ _) as [r'|] eqn:Eh.
    + eapply try_hold_deliver; [exact Hs|exact Eh|by rewrite Er'|by rewrite Er'|done].
    + apply accounted_reset; [done|by rewrite Er|done].
  - apply accounted_reset; [done|by rewrite Er|]. intros q ->. by apply Hp.
Qed.

Lemma accounted_reader_sends machine r : accounted machine r -> accounted machine (reader_sends r).
Proof.
  intros Hr. unfold reader_sends. destruct (re_reader r) as [| | |m h todo p|] eqn:Er; try done. case_split; [|done].
  pose proof (proj2 (ac_reader _ _ Hr)) as Hp. rewrite Er in Hp.
  apply accounted_reader; [by apply accounted_send|by unfold send; destruct (re_open r); cbn; rewrite Er|by destruct todo, p|].
  rewrite visitors_send. intros q Hq. apply Hp. by destruct todo, p.
Qed.

Lemma accounted_keep_alive machine now wall r : accounted machine r -> accounted machine (keep_alive now wall r).
Proof.
  intros Hr. unfold keep_alive. destruct (re_reader r); try done. case_split; [done|]. apply accounted_try_send; [|done]. account_same Hr.
Qed.

Lemma accounted_reader_cancelled machine r : accounted machine r -> accounted machine (reader_cancelled r).
Proof.
  intros Hr. unfold reader_cancelled. case_split; [|done]. destruct (re_reader r) eqn:Er; try done.
  - apply accounted_reader; [done|by rewrite Er|done|done].
  - by eapply accounted_give_back_wait.
Qed.

Lemma accounted_control machine k r : accounted machine r -> accounted machine (control k r).
Proof.
  intros Hr. unfold control. destruct (re_reader r) eqn:Er; try done. destruct k as [ts|conn|conn].
  - apply accounted_reader; [done|by rewrite Er|done|done].
  - destruct (re_channels r !! conn) as [v|]; [|done]. destruct (re_visitors r !! v) as [x|] eqn:Hv; [|by apply (accounted_leave _ conn) in Hr; unfold upd; cbn; rewrite alter_None].
    apply (accounted_leave _ conn) in Hr. cbv zeta. pose proof (proj1 (ac_inbound _ _ Hr)). pose proof (proj1 (ac_outbound _ _ Hr)).
    pose proof (proj1 (ac_buffer _ _ Hr)). pose proof (proj1 (ac_reader _ _ Hr)). pose proof (ac_queue _ _ Hr). destruct (ac_channel _ _ Hr _ _ Hv).
    change (re_reader (leave conn r)) with (re_reader r) in *.
    eapply (accounted_upd _ _ _ _ _ _ Hr Hv); [relay_norm; reflexivity|..]; clear Hr Hv; relay_norm; unfold receiving;
      destruct x as [c inbound budget drained fin ph act received ended written shut rd eof]; unfold receiving in *; visitor_norm; destruct ph as [| |up []|]; account.
  - destruct (re_channels r !! conn) as [v|]; [|done]. by apply accounted_finish, accounted_leave.
Qed.

(** *** The writer's steps *)

Lemma release_messages_sum q r : release_messages q r = set_budgets (re_inbound r) (re_outbound r + queued q) (re_buffer r + queued q) r.
Proof.
  revert r. induction q as [|m q IH]; intros r; cbn [release_messages]; [by destruct r; cbn; rewrite !Z.add_0_r|].
  rewrite IH. destruct m; cbn; fold (queued q); try reflexivity. unfold give_back_out, set_budgets. cbn. f_equal; lia.
Qed.

Lemma accounted_close_queue machine r : accounted machine r -> accounted machine (close_queue r).
Proof.
  intros Hr. unfold close_queue. rewrite release_messages_sum. pose proof (queued_nonneg (re_queue r)). account_same Hr.
Qed.

Lemma accounted_write machine ok now r : accounted machine r -> accounted machine (write ok now r).
Proof.
  intros Hr. unfold write. destruct (re_open r) eqn:Eo; [|done]. destruct (re_queue r) as [|m q] eqn:Eq; [done|].
  pose proof (queued_nonneg q). destruct ok.
  - assert (accounted machine (release_message m (set_writer q true (re_socket r ++ [m]) r))) as H'.
    { unfold release_message. destruct m; account_same Hr; rewrite ?Eq; cbn; fold (queued q); lia. }
    destruct m; try (by apply accounted_close_queue); account_same H'.
  - apply accounted_close_queue.
    assert (accounted machine (release_message m (set_rqueue q r))) as H'.
    { unfold release_message. destruct m; account_same Hr; rewrite ?Eq; cbn; fold (queued q); try lia; congruence. }
    account_same H'.
Qed.

Lemma accounted_opened machine forwarded conn initial start now r :
  accounted machine r -> accounted machine (opened forwarded conn initial start now r).
Proof.
  intros [Hc [Hi0 Hi] [Ho0 Ho] (Hb0 & Hn & Hb) [Hk Hp] Hq]. unfold opened. destruct (re_channels r !! conn); [done|].
  set (x := mkVisitor _ _ _ _ _ _ _ _ _ _ _ _ _).
  assert (held x = 0 /\ forall min, up_shares min x = 0) as [Hh Hu] by (unfold x; by destruct forwarded).
  constructor; cbn [re_visitors re_inbound re_outbound re_buffer re_others re_reader re_queue re_open set_rchannels set_rvisitors];
    rewrite ?total_app; cbn [total foldr]; rewrite ?Hh, ?Hu; try (split_and?; lia); try done.
  - intros v y [Hy|[Hge Hy]]%lookup_app_Some; [by apply Hc|]. destruct (v - length (re_visitors r))%nat eqn:Ev; [|done]. injection Hy as <-.
    rewrite Hh. replace (reader_local v (re_reader r)) with 0; [done|]. unfold reader_local. destruct (re_reader r) as [|p sh u| | |]; try done.
    destruct (Hp p eq_refl) as [z Hz%lookup_lt_Some]. rewrite (proj2 (Nat.eqb_neq _ _)) by lia. by rewrite andb_false_r.
  - split; [done|]. intros p [z Hz]%Hp. exists z. by apply lookup_app_l_Some.
Qed.

Lemma accounted_init machine start : 0 <= machine -> accounted machine (init machine start).
Proof. intros Hm. constructor; cbn; try done; lia. Qed.

(** The tasks' steps keep the accounts. *)
Create HintDb relay.
#[local] Hint Resolve accounted_data accounted_acquire accounted_stalled_share accounted_reset_next accounted_reader_sends accounted_keep_alive
  accounted_reader_cancelled accounted_control accounted_write accounted_close_queue accounted_opened accounted_accepted accounted_open_next
  accounted_read_chunk accounted_read_end accounted_read_failed accounted_hold_outbound accounted_upload_sends accounted_upload_aborted
  accounted_receive accounted_write_some accounted_write_failed accounted_check_progress accounted_download_aborted accounted_done
  accounted_idle accounted_finish_all accounted_others : relay.

Lemma accounted_step machine t r e : accounted machine r -> accounted machine (step t r e).
Proof.
  intros Hr. destruct e as [e now]. unfold step. cbn [fst snd]. destruct e; auto with relay.
  - destruct m; try done; by apply accounted_try_send.
  - unfold writer_cancelled. case_split; auto with relay.
  - account_same Hr.
Qed.

Lemma accounted_run machine start t events : 0 <= machine -> accounted machine (run t machine start events).
Proof.
  intros Hm. unfold run. pose proof (accounted_init machine start Hm) as H. revert H. generalize (init machine start) as r.
  induction events as [|e events IH]; intros r Hr; cbn; [done|]. by apply IH, accounted_step.
Qed.

(** C6: whatever visitors and the client do, and however the tasks take turns, the bytes that wait in memory stay within the
    budgets: those of one connection for its visitor, those of all of the bridge's for theirs, the visitors' for the socket,
    and all of them with other bridges' within the machine's. No share is lost: once nothing waits, every budget is whole. *)
Theorem memory_bounded machine start t events :
  0 <= machine ->
  let r := run t machine start events in
  (forall v x, re_visitors r !! v = Some x -> held x <= CHANNEL_BUDGET) /\
  total held (re_visitors r) <= BRIDGE_BUDGET /\
  queued (re_queue r) + total (up_shares 1) (re_visitors r) <= OUTBOUND_BUDGET /\
  re_others r + total held (re_visitors r) + queued (re_queue r) + total (up_shares 2) (re_visitors r) <= machine /\
  (pending_of (re_reader r) = None -> queued (re_queue r) = 0 -> total held (re_visitors r) = 0 -> total (up_shares 1) (re_visitors r) = 0 ->
     total (up_shares 2) (re_visitors r) = 0 ->
     re_inbound r = BRIDGE_BUDGET /\ re_outbound r = OUTBOUND_BUDGET /\ re_buffer r + re_others r = machine /\
     forall v x, re_visitors r !! v = Some x -> vi_budget x = CHANNEL_BUDGET).
Proof.
  intros Hm r. destruct (accounted_run machine start t events Hm) as [Hc [Hi0 Hi] [Ho0 Ho] (Hb0 & Hn & Hb) [Hk Hp] Hq]. fold r in Hc, Hi0, Hi, Ho0, Ho, Hb0, Hn, Hb, Hk, Hp, Hq.
  assert (0 <= reader_shared (re_reader r) /\ forall v, 0 <= reader_local v (re_reader r)) as [Hs Hl].
  { split; [|intros v]; unfold reader_shared, reader_local; repeat case_match; auto using blen_nonneg with lia. }
  split_and!; try lia.
  - intros v x Hx. destruct (Hc _ _ Hx). specialize (Hl v). lia.
  - intros Hpe Hqz Hh Hu1 Hu2. assert (reader_shared (re_reader r) = 0 /\ forall v, reader_local v (re_reader r) = 0) as [Hs0 Hl0].
    { apply no_wait_shares. by destruct (re_reader r). }
    split_and!; try lia. intros v x Hx. destruct (Hc _ _ Hx) as [_ Hcx]. rewrite Hl0 in Hcx. pose proof (total_member held _ _ _ held_nonneg Hx).
    pose proof (held_nonneg x). lia.
Qed.
