(* ===== verification/RelayStreams.v ===== *)
(** * RelayStreams: what visitors and the client get through [Relay]

    Connection numbers are told apart by the server for 2^32 connections of a tunnel; the theorems here are for as many. *)

From Stdlib Require Import ZArith Lia Ascii String List.
From stdpp Require Import base list strings gmap sets.
From S2P Require Import Prelude Text Addr Frames Mesh Bridges Relay.

(** ** Numbers and handles *)

Definition conns (r : Relay) : list Z := map vi_conn (re_visitors r).

(** The connections the reader has handles of. *)
Definition of_pending (p : option Pending) : list (Z * nat) := match p with Some p => [(pe_conn p, pe_visitor p)] | None => [] end.
Definition refs (d : Reader) : list (Z * nat) :=
  match d with RWait p _ _ => of_pending (Some p) | RReset todo p | RSend _ _ todo p => todo ++ of_pending p | _ => [] end.

(** The connection a message for the client is about. *)
Definition about (m : Outbound) : option Z :=
  match m with MBinary c _ | MData c _ | MText (ScOpen c _ _ _) | MText (ScEnd c) => Some c | _ => None end.

(** Numbers name one visitor each, for the bridge, its reader and its messages. *)
Record wired (r : Relay) : Prop := mkWired {
  wi_conns : NoDup (conns r);
  wi_channels : forall c v, re_channels r !! c = Some v -> conns r !! v = Some c;
  wi_refs : forall c v, (c, v) ∈ refs (re_reader r) -> conns r !! v = Some c;
  wi_messages : forall m c, m ∈ re_socket r ++ re_queue r -> about m = Some c -> c ∈ conns r;
}.

Definition is_open (e : Event) : bool := match e with EvOpened _ _ _ _ => true | _ => false end.

(** *** What steps do to numbers *)

Lemma conns_upd v f r : (forall x, vi_conn (f x) = vi_conn x) -> conns (upd v f r) = conns r.
Proof.
  intros Hf. unfold conns, upd. cbn. generalize (re_visitors r) as l. intros l. revert v. induction l as [|x l IH]; intros [|v]; cbn; [done|done| |].
  - by rewrite Hf.
  - f_equal. apply IH.
Qed.
Lemma conns_visitors r r' : re_visitors r' = re_visitors r -> conns r' = conns r.
Proof. unfold conns. by intros ->. Qed.
Lemma conns_drop_down v now r : conns (drop_down v now r) = conns r.
Proof. unfold drop_down. destruct (_ !! _); [|done]. rewrite conns_upd by done. case_split; [|done]. unfold give_back. by rewrite conns_upd. Qed.
Lemma conns_deliver p now r : conns (deliver p now r) = conns r.
Proof. unfold deliver. destruct (_ !! _); [|done]. case_split; [by rewrite conns_upd|]. unfold give_back. by rewrite conns_upd. Qed.
Lemma conns_try_hold m v n r r' : try_hold m v n r = Some r' -> conns r' = conns r.
Proof. unfold try_hold. destruct (_ !! _); cbn; [|done]. case_split; [|done]. intros [= <-]. by rewrite conns_upd. Qed.
Lemma conns_starts_waiting p now r : conns (starts_waiting p now r) = conns r.
Proof. unfold starts_waiting. case_split; [by rewrite conns_upd|done]. Qed.
Lemma conns_drop_up v r : conns (drop_up v r) = conns r.
Proof. unfold drop_up, with_visitor. repeat case_match; done. Qed.
Lemma conns_try_send m r : conns (try_send m r) = conns r.
Proof. apply conns_visitors, visitors_try_send. Qed.
Lemma conns_send m r : conns (send m r) = conns r.
Proof. apply conns_visitors, visitors_send. Qed.
Lemma conns_set_reader d r : conns (set_reader d r) = conns r.
Proof. done. Qed.
Lemma conns_leave c r : conns (leave c r) = conns r.
Proof. done. Qed.
Lemma conns_give_back_out k n r : conns (give_back_out k n r) = conns r.
Proof. done. Qed.
Lemma conns_set_budgets i o b r : conns (set_budgets i o b r) = conns r.
Proof. done. Qed.
Lemma conns_give_back_wait p k r : conns (give_back_wait p k r) = conns r.
Proof. unfold give_back_wait. destruct (1 <=? k)%nat, (2 <=? k)%nat; rewrite ?conns_set_budgets, ?conns_upd by done; done. Qed.
Lemma conns_set_rqueue q r : conns (set_rqueue q r) = conns r.
Proof. done. Qed.
Lemma conns_close_queue r : conns (close_queue r) = conns r.
Proof. unfold close_queue. rewrite release_messages_sum. done. Qed.
Lemma conns_release_message m r : conns (release_message m r) = conns r.
Proof. by destruct m. Qed.
Create Rewrite HintDb relay_conns.
Hint Rewrite conns_drop_down conns_deliver conns_starts_waiting conns_give_back_wait conns_drop_up conns_try_send conns_send conns_set_reader
  conns_leave conns_give_back_out conns_set_budgets conns_set_rqueue conns_close_queue conns_release_message : relay_conns.

Ltac conns_solve :=
  repeat first
    [ progress autorewrite with relay_conns
    | rewrite conns_upd by (intros; repeat case_match; done)
    | match goal with H : try_hold _ _ _ _ = Some _ |- _ => apply conns_try_hold in H; rewrite H; clear H end
    | case_match | done | congruence ].

Lemma conns_set_writer q o k r : conns (set_writer q o k r) = conns r.
Proof. done. Qed.
Lemma conns_set_sent_at n r : conns (set_sent_at n r) = conns r.
Proof. done. Qed.
Lemma conns_set_cancelled r : conns (set_cancelled r) = conns r.
Proof. done. Qed.
Lemma conns_finish_all outcome r : conns (finish_all outcome r) = conns r.
Proof.
  unfold finish_all. generalize (map_to_list (re_channels r)) as l. intros l. transitivity (conns (foldr (fun cv => upd cv.2 (finish_visitor outcome true)) r l)); [done|].
  induction l as [|cv l IH]; cbn [foldr]; [done|]. by rewrite conns_upd.
Qed.
Hint Rewrite conns_set_writer conns_set_sent_at conns_set_cancelled conns_finish_all : relay_conns.

(** Every event, as the operations it is made of. *)
Ltac open_step :=
  unfold step; cbn [fst snd];
  unfold data, acquire, stalled_share, reset_next, reset, reader_sends, keep_alive, reader_cancelled, control, write, writer_cancelled, accepted, open_next,
    read_chunk, read_end, read_failed, hold_outbound, upload_sends, upload_aborted, receive, write_some, write_failed, check_progress,
    download_aborted, done, idle, others, with_visitor, to_phase, give_back; cbv zeta.

Lemma conns_step t r e : is_open e.1 = false -> conns (step t r e) = conns r.
Proof. destruct e as [e now]. cbn [fst]. intros He. destruct e; try done; open_step; try done; conns_solve. Qed.

(** Operations that change visitors and budgets only. *)
Definition reshaped (r r' : Relay) : Prop := exists i o b vs, r' = set_rvisitors vs (set_budgets i o b r).

Lemma reshaped_refl r : reshaped r r.
Proof. exists (re_inbound r), (re_outbound r), (re_buffer r), (re_visitors r). by destruct r. Qed.
Lemma reshaped_upd v f r r' : reshaped r r' -> reshaped r (upd v f r').
Proof. intros (i & o & b & vs & ->). by exists i, o, b, (alter f v vs). Qed.
Lemma reshaped_budgets i o b r r' : reshaped r r' -> reshaped r (set_budgets i o b r').
Proof. intros (i' & o' & b' & vs & ->). by exists i, o, b, vs. Qed.
Hint Resolve reshaped_refl reshaped_upd reshaped_budgets : relay.

Lemma reshaped_drop_down v now r : reshaped r (drop_down v now r).
Proof. unfold drop_down, give_back. repeat case_match; auto with relay. Qed.
Lemma reshaped_deliver p now r : reshaped r (deliver p now r).
Proof. unfold deliver, give_back. repeat case_match; auto with relay. Qed.
Lemma reshaped_starts_waiting p now r : reshaped r (starts_waiting p now r).
Proof. unfold starts_waiting. case_match; auto with relay. Qed.
Lemma reshaped_give_back_wait p k r : reshaped r (give_back_wait p k r).
Proof. unfold give_back_wait. repeat case_match; auto with relay. Qed.
Lemma reshaped_drop_up v r : reshaped r (drop_up v r).
Proof. unfold drop_up, with_visitor, give_back_out. repeat case_match; auto with relay. Qed.
Lemma reshaped_try_hold m v n r r' : try_hold m v n r = Some r' -> reshaped r r'.
Proof. unfold try_hold. destruct (_ !! _); cbn; [|done]. case_split; [|done]. intros [= <-]. auto with relay. Qed.
Lemma reshaped_release m r : reshaped r (release_message m r).
Proof. unfold release_message, give_back_out. case_match; auto with relay. Qed.

Hint Resolve reshaped_drop_down reshaped_deliver reshaped_starts_waiting reshaped_give_back_wait reshaped_drop_up reshaped_release
  reshaped_try_hold : relay.

(** The rest of the bridge, seen through them. *)
Lemma channels_reshaped r r' : reshaped r r' -> re_channels r' = re_channels r.
Proof. by intros (i & o & b & vs & ->). Qed.
Lemma reader_reshaped r r' : reshaped r r' -> re_reader r' = re_reader r.
Proof. by intros (i & o & b & vs & ->). Qed.
Lemma queue_reshaped r r' : reshaped r r' -> re_queue r' = re_queue r.
Proof. by intros (i & o & b & vs & ->). Qed.
Lemma open_reshaped r r' : reshaped r r' -> re_open r' = re_open r.
Proof. by intros (i & o & b & vs & ->). Qed.
Lemma socket_reshaped r r' : reshaped r r' -> re_socket r' = re_socket r.
Proof. by intros (i & o & b & vs & ->). Qed.
Lemma cancelled_reshaped r r' : reshaped r r' -> re_cancelled r' = re_cancelled r.
Proof. by intros (i & o & b & vs & ->). Qed.

Ltac see_through f L :=
  match goal with
  | |- context [f (drop_down ?v ?n ?r)] => rewrite (L r (drop_down v n r)) by auto with relay
  | |- context [f (deliver ?p ?n ?r)] => rewrite (L r (deliver p n r)) by auto with relay
  | |- context [f (starts_waiting ?p ?n ?r)] => rewrite (L r (starts_waiting p n r)) by auto with relay
  | |- context [f (give_back_wait ?p ?k ?r)] => rewrite (L r (give_back_wait p k r)) by auto with relay
  | |- context [f (drop_up ?v ?r)] => rewrite (L r (drop_up v r)) by auto with relay
  | |- context [f (release_message ?m ?r)] => rewrite (L r (release_message m r)) by auto with relay
  | H : try_hold _ _ _ ?r = Some ?r' |- context [f ?r'] => rewrite (L r r') by eauto with relay
  end.
Ltac project :=
  cbn [upd leave set_budgets set_rqueue set_rchannels set_rvisitors set_reader set_sent_at set_cancelled set_writer give_back_out
    re_inbound re_outbound re_buffer re_others re_queue re_open re_socket re_channels re_visitors re_reader re_sent_at re_cancelled].

Create Rewrite HintDb relay_channels.
Lemma channels_finish_all outcome r : re_channels (finish_all outcome r) = ∅.
Proof. done. Qed.
Lemma channels_send m r : re_channels (send m r) = re_channels r.
Proof. unfold send. by case_split. Qed.
Lemma channels_try_send m r : re_channels (try_send m r) = re_channels r.
Proof. unfold try_send. by case_split. Qed.
Lemma channels_close_queue r : re_channels (close_queue r) = re_channels r.
Proof. unfold close_queue. by rewrite release_messages_sum. Qed.

Hint Rewrite channels_send channels_try_send channels_close_queue : relay_channels.

Lemma channels_step t r e c v : is_open e.1 = false -> re_channels (step t r e) !! c = Some v -> re_channels r !! c = Some v.
Proof.
  destruct e as [e now]. cbn [fst]. intros He. destruct e; try done; open_step; try done; try (rewrite channels_finish_all; by rewrite lookup_empty).
  all: repeat case_match; repeat first [progress project | see_through re_channels channels_reshaped | progress autorewrite with relay_channels];
    rewrite ?lookup_delete_Some; try done; by intros [_ ?].
Qed.

Create Rewrite HintDb relay_reader.
Lemma reader_send m r : re_reader (send m r) = re_reader r.
Proof. unfold send. by case_split. Qed.
Lemma reader_try_send m r : re_reader (try_send m r) = re_reader r.
Proof. unfold try_send. by case_split. Qed.
Lemma reader_close_queue r : re_reader (close_queue r) = re_reader r.
Proof. unfold close_queue. by rewrite release_messages_sum. Qed.
Lemma reader_finish_all outcome r : re_reader (finish_all outcome r) = re_reader r.
Proof. unfold finish_all. cbn. generalize (map_to_list (re_channels r)) as l. by induction l as [|cv l IH]. Qed.
Hint Rewrite reader_send reader_try_send reader_close_queue reader_finish_all : relay_reader.

Lemma stalled_channels now r c v : (c, v) ∈ stalled now r -> re_channels r !! c = Some v.
Proof. unfold stalled. intros [_ H]%list_elem_of_filter. by apply elem_of_map_to_list in H. Qed.

Lemma refs_resets todo p : refs (resets todo p) = todo ++ of_pending p.
Proof. by destruct todo, p. Qed.

Lemma refs_stalled_share now order r c v : (c, v) ∈ refs (re_reader (stalled_share now order r)) -> (c, v) ∈ refs (re_reader r) \/ re_channels r !! c = Some v.
Proof.
  unfold stalled_share. destruct (re_reader r) as [|p k u| | |] eqn:Er; try (rewrite Er; by left). case_split; [|rewrite Er; by left].
  assert (forall now, (c, v) ∈ stalled now (give_back_wait p k r) -> re_channels r !! c = Some v) as Hs.
  { intros n. destruct (reshaped_give_back_wait p k r) as (i & o & b & vs & ->). intros Hs%stalled_channels. exact Hs. }
  destruct (bool_decide (order ≡ₚ stalled now (give_back_wait p k r))) eqn:Eo; project; cbn [refs]; intros [Hin|Hin]%elem_of_app; auto; right; eauto.
  apply bool_decide_eq_true in Eo. rewrite Eo in Hin. eauto.
Qed.

Lemma refs_step (Q : Z * nat -> Prop) t r e :
  Forall Q (refs (re_reader r)) -> (forall c v, re_channels r !! c = Some v -> Q (c, v)) -> Forall Q (refs (re_reader (step t r e))).
Proof.
  intros HQ HC. destruct e as [e now]. destruct (match e with EvGiveUp _ => true | _ => false end) eqn:Eg.
  { destruct e; try done. cbn [step fst snd]. apply Forall_forall. intros [c v] [Hin|Hin]%refs_stalled_share; [|by apply HC]. rewrite Forall_forall in HQ. by apply HQ. }
  destruct e; try done; open_step; try done; clear Eg.
  all: repeat case_match; repeat first [progress project | see_through re_reader reader_reshaped | progress autorewrite with relay_reader]; rewrite ?refs_resets; try done; try congruence.
  - constructor; [by apply HC|done].
  - by apply Forall_cons in HQ as [_ HQ].
  - unfold opened. by case_match.
Qed.

(** The messages that were queued or written, and those that a visitor's tasks add. *)
Definition sent (r : Relay) : list Outbound := re_socket r ++ re_queue r.

Lemma sent_send m r : sent (send m r) = sent r ++ (if re_open r then [m] else []).
Proof. unfold send, sent. case_split; cbn; [by rewrite app_assoc|by rewrite app_nil_r]. Qed.
Lemma sent_try_send m r : sent (try_send m r) = sent r \/ sent (try_send m r) = sent r ++ [m].
Proof. unfold try_send, sent. case_split; cbn; [right; by rewrite app_assoc|by left]. Qed.
Lemma sent_close_queue r : sent (close_queue r) = re_socket r.
Proof. unfold close_queue, sent. rewrite release_messages_sum. cbn. by rewrite app_nil_r. Qed.
Lemma sent_reshaped r r' : reshaped r r' -> sent r' = sent r.
Proof. by intros (i & o & b & vs & ->). Qed.
Lemma sent_upd v f r : sent (upd v f r) = sent r.
Proof. done. Qed.
Lemma sent_leave c r : sent (leave c r) = sent r.
Proof. done. Qed.
Lemma sent_set_reader d r : sent (set_reader d r) = sent r.
Proof. done. Qed.
Lemma sent_set_budgets i o b r : sent (set_budgets i o b r) = sent r.
Proof. done. Qed.
Lemma sent_give_back_out k n r : sent (give_back_out k n r) = sent r.
Proof. done. Qed.
Lemma sent_set_sent_at n r : sent (set_sent_at n r) = sent r.
Proof. done. Qed.
Lemma sent_finish_all outcome r : sent (finish_all outcome r) = sent r.
Proof.
  unfold finish_all. generalize (map_to_list (re_channels r)) as l. intros l. transitivity (sent (foldr (fun cv => upd cv.2 (finish_visitor outcome true)) r l)); [done|].
  by induction l as [|cv l IH].
Qed.
Lemma sent_written m q r : re_queue r = m :: q -> sent (set_writer q true (re_socket r ++ [m]) r) = sent r.
Proof. unfold sent. intros ->. cbn. by rewrite <- app_assoc. Qed.
Create Rewrite HintDb relay_sent.
Hint Rewrite sent_upd sent_leave sent_set_reader sent_set_budgets sent_give_back_out sent_set_sent_at sent_finish_all sent_send sent_close_queue : relay_sent.

Lemma Forall_try_send (M : Outbound -> Prop) m r : Forall M (sent r) -> M m -> Forall M (sent (try_send m r)).
Proof. intros Hr Hm. destruct (sent_try_send m r) as [-> | ->]; [done|]. apply Forall_app_2; [done|by constructor]. Qed.

Lemma write_sent ok now r : exists k, sent (write ok now r) = take k (sent r) /\ (re_open (write ok now r) = true -> sent (write ok now r) = sent r).
Proof.
  unfold write. destruct (re_open r) eqn:Eo; [|exists (length (sent r)); by rewrite take_ge]. destruct (re_queue r) as [|m q] eqn:Eq; [exists (length (sent r)); by rewrite take_ge|].
  assert (forall r', re_open (close_queue r') = false) as Hc.
  { intros r'. unfold close_queue. by rewrite release_messages_sum. }
  destruct ok.
  - assert (sent (release_message m (set_writer q true (re_socket r ++ [m]) r)) = sent r) as Hs.
    { rewrite (sent_reshaped (set_writer q true (re_socket r ++ [m]) r)) by auto with relay. by apply sent_written. }
    destruct m; try (exists (length (sent r)); rewrite sent_set_sent_at, Hs, take_ge by done; done).
    exists (length (re_socket r) + 1)%nat. rewrite Hc. split; [|done]. rewrite sent_close_queue, (socket_reshaped (set_writer q true (re_socket r ++ [MClose code reason]) r)) by auto with relay.
    unfold sent. rewrite Eq. cbn. rewrite take_app_ge by lia. by replace (length (re_socket r) + 1 - length (re_socket r))%nat with 1%nat by lia.
  - exists (length (re_socket r)). rewrite Hc. split; [|done]. rewrite sent_close_queue. cbn. rewrite (socket_reshaped (set_rqueue q r)) by auto with relay.
    unfold sent. by rewrite take_app_length.
Qed.

Lemma sent_step (M : Outbound -> Prop) t r e : is_open e.1 = false -> Forall M (sent r) -> (forall m, about m = None -> M m) ->
  (forall v x m, re_visitors r !! v = Some x -> about m = Some (vi_conn x) -> M m) -> Forall M (sent (step t r e)).
Proof.
  intros He HM HN HV. destruct e as [e now]. cbn [fst] in He. destruct (match e with EvWrite _ => true | _ => false end) eqn:Ew.
  { destruct e; try done. cbn [step fst snd]. destruct (write_sent ok now r) as (k & -> & _). by apply Forall_take. }
  destruct e; try done; open_step; try done; clear Ew.
  all: repeat case_match; repeat first [progress autorewrite with relay_sent | see_through sent sent_reshaped | apply Forall_try_send]; rewrite ?app_nil_r; try done;
    try (apply Forall_app; split; [done|]); try (constructor; [|done]); eauto; try (by apply HN).
  - destruct (re_open r); [|done]. constructor; [|done]. apply HN. by destruct m.
  - by apply Forall_app in HM as [? _].
  - destruct (re_open r); [|done]. constructor; [|done]. by eapply HV.
  - destruct (re_open r); [|done]. constructor; [|done]. by eapply HV.
  - unfold sent. cbn. rewrite app_assoc. apply Forall_app. split; [done|]. constructor; [by eapply HV|done].
  - destruct (re_open r); [|done]. constructor; [|done]. by eapply HV.
Qed.

(** *** Numbers stay told apart *)

Lemma conns_lookup r v x : re_visitors r !! v = Some x -> conns r !! v = Some (vi_conn x).
Proof. intros Hv. unfold conns. by rewrite list_lookup_fmap, Hv. Qed.

Lemma wired_step t r e : is_open e.1 = false -> wired r -> wired (step t r e).
Proof.
  intros He [Hd Hc Hr Hm]. pose proof (conns_step t r e He) as Ec. constructor; rewrite ?Ec; [done| | |].
  - intros c v Hv%channels_step; auto.
  - intros c v. assert (Forall (fun cv => conns r !! cv.2 = Some cv.1) (refs (re_reader (step t r e)))) as H.
    { apply refs_step; [|done]. apply Forall_forall. intros [c' v'] Hin. by apply Hr. }
    rewrite Forall_forall in H. intros Hin. exact (H _ Hin).
  - assert (Forall (fun m => forall c, about m = Some c -> c ∈ conns r) (sent (step t r e))) as H.
    { apply sent_step; [done| | |].
      - apply Forall_forall. intros m Hin c Hc'. by eapply Hm.
      - intros m -> c [=].
      - intros v x m Hv%conns_lookup -> c [= <-]. by eapply list_elem_of_lookup_2. }
    rewrite Forall_forall in H. intros m c Hin. by apply H.
Qed.

Lemma wired_opened forwarded conn initial start now r : conn ∉ conns r -> wired r -> wired (opened forwarded conn initial start now r).
Proof.
  intros Hf [Hd Hc Hr Hm]. unfold opened. destruct (re_channels r !! conn); [done|]. set (x := mkVisitor _ _ _ _ _ _ _ _ _ _ _ _ _).
  assert (conns (set_rchannels (<[conn := length (re_visitors r)]> (re_channels r)) (set_rvisitors (re_visitors r ++ [x]) r)) = conns r ++ [conn]) as Ec.
  { unfold conns. cbn. by rewrite map_app. }
  constructor; rewrite ?Ec.
  - apply NoDup_app. split_and!; [done| |apply NoDup_singleton]. intros c Hin ->%list_elem_of_singleton. done.
  - intros c v. cbn. destruct (decide (c = conn)) as [->|Hne].
    + rewrite lookup_insert_eq. intros [= <-]. unfold conns. rewrite lookup_app_r by (by rewrite length_map). rewrite length_map, Nat.sub_diag. done.
    + rewrite lookup_insert_ne by done. intros Hv%Hc. by apply lookup_app_l_Some.
  - intros c v Hv%Hr. by apply lookup_app_l_Some.
  - intros m c Hin Ha. apply elem_of_app. left. by eapply Hm.
Qed.

(** Runs in which the server gives every connection a number of its own. *)
Definition opened_conn (e : Event * Z) : option Z := match e.1 with EvOpened _ conn _ _ => Some conn | _ => None end.
Definition numbered (events : list (Event * Z)) : Prop := NoDup (omap opened_conn events).

(** An invariant of such runs, kept by every step of a wired bridge. *)
Lemma run_invariant (I : Relay -> Prop) t machine start events :
  I (init machine start) ->
  (forall r e, wired r -> (forall c, opened_conn e = Some c -> c ∉ conns r) -> I r -> I (step t r e)) ->
  numbered events -> I (run t machine start events) /\ wired (run t machine start events).
Proof.
  intros H0 Hstep Hn. unfold run. assert (wired (init machine start)) as Hw.
  { constructor; cbn; [constructor|done|by intros ? ? ?%not_elem_of_nil|by intros ? ? ?%not_elem_of_nil]. }
  assert (forall c, c ∈ conns (init machine start) -> c ∈ omap opened_conn events -> False) as Hdis by by intros c ?%not_elem_of_nil.
  revert H0 Hw Hdis. unfold numbered in Hn. generalize (init machine start) as r. induction events as [|e events IH]; intros r Hi Hw Hdis; [done|].
  cbn [fold_left]. assert (forall c, opened_conn e = Some c -> c ∉ conns r) as Hf.
  { intros c Hc Hin. eapply Hdis; [exact Hin|]. cbn. rewrite Hc. by left. }
  cbn [omap list_omap] in Hn, Hdis. destruct (opened_conn e) as [c|] eqn:Ee.
  - apply NoDup_cons in Hn as [Hc Hn]. destruct e as [[] now]; try done. injection Ee as ->. cbn [step fst snd] in *. apply IH; [done|exact (Hstep r (EvOpened _ _ _ _, now) Hw Hf Hi)|by apply wired_opened; [apply Hf|]|].
    intros c' Hin Hin'. unfold opened in Hin. destruct (re_channels r !! c); [eapply Hdis; [exact Hin|by right]|].
    unfold conns in Hin. cbn in Hin. rewrite map_app in Hin. apply elem_of_app in Hin as [Hin|Hin%list_elem_of_singleton]; [eapply Hdis; [exact Hin|by right]|].
    cbn in Hin. by subst.
  - assert (is_open e.1 = false) as Ho by by destruct e as [[] ?]. apply IH; [done|apply Hstep; [done|by rewrite Ee|done]|by apply wired_step|].
    rewrite conns_step by done. done.
Qed.


(** ** From visitors to the client *)

(** A connection as its upload sees it: what was read, and what of it is still to be queued. *)
Inductive UpPhase := UpStart (chunks : list bytes) | UpReading | UpHolding (chunk : bytes) | UpEnding | UpGone.
Record UpSide := mkUpSide { us_conn : Z; us_read : bytes; us_eof : bool; us_phase : UpPhase }.
Definition up_phase (p : Phase) : UpPhase :=
  match p with
  | Accepting _ todo | Opening _ todo => UpStart todo
  | Relaying UReading _ => UpReading
  | Relaying (UHolding chunk _) _ => UpHolding chunk
  | Relaying UEnding _ => UpEnding
  | Relaying UDone _ | Over => UpGone
  end.
Definition up_side (x : Visitor) : UpSide := mkUpSide (vi_conn x) (vi_read x) (vi_eof x) (up_phase (vi_phase x)).
Definition at_phase (p : UpPhase) (u : UpSide) : UpSide := mkUpSide (us_conn u) (us_read u) (us_eof u) p.
Definition ups (r : Relay) : list UpSide := map up_side (re_visitors r).

(** The uploads, the messages queued or written, and whether there is a writer: what may happen to them. *)
Abbreviation Ups := (list UpSide * list Outbound * bool)%type.
Inductive umove : Ups -> Ups -> Prop :=
| um_phase us S o v u p : us !! v = Some u ->
    p = UpGone \/ (us_phase u = UpStart [] /\ p = UpReading) \/
    (o = false /\ ((exists c cs, us_phase u = UpStart (c :: cs) /\ p = UpStart cs) \/ us_phase u = UpEnding /\ p = UpGone)) ->
    umove (us, S, o) (alter (at_phase p) v us, S, o)
| um_start us S v u c cs : us !! v = Some u -> us_phase u = UpStart (c :: cs) ->
    umove (us, S, true) (alter (at_phase (UpStart cs)) v us, S ++ [MBinary (us_conn u) c], true)
| um_read us S o v u chunk : us !! v = Some u -> us_phase u = UpReading ->
    umove (us, S, o) (alter (fun u => mkUpSide (us_conn u) (us_read u ++ chunk) (us_eof u) (UpHolding chunk)) v us, S, o)
| um_eof us S o v u : us !! v = Some u -> us_phase u = UpReading ->
    umove (us, S, o) (alter (fun u => mkUpSide (us_conn u) (us_read u) true UpEnding) v us, S, o)
| um_queue us S v u chunk : us !! v = Some u -> us_phase u = UpHolding chunk ->
    umove (us, S, true) (alter (at_phase UpReading) v us, S ++ [MData (us_conn u) chunk], true)
| um_end us S v u : us !! v = Some u -> us_phase u = UpEnding ->
    umove (us, S, true) (alter (at_phase UpGone) v us, S ++ [MText (ScEnd (us_conn u))], true)
| um_other us S o m : match m with MBinary _ _ | MData _ _ | MText (ScEnd _) => False | _ => True end -> umove (us, S, o) (us, S ++ [m], o)
| um_cut us S o k : umove (us, S, o) (us, take k S, false)
| um_new us S o conn initial : (forall m, m ∈ S -> about m <> Some conn) -> conn ∉ map us_conn us ->
    umove (us, S, o) (us ++ [mkUpSide conn initial false (UpStart (chunks (length initial) initial))], S, o).

(** What the client gets for a connection: its bytes, and [None] at their end. *)
Definition item (c : Z) (m : Outbound) : list (option Z) :=
  match m with
  | MBinary c' p | MData c' p => if c' =? c then map Some p else []
  | MText (ScEnd c') => if c' =? c then [None] else []
  | _ => []
  end.
Definition view (c : Z) (l : list Outbound) : list (option Z) := concat (map (item c) l).
Definition given (u : UpSide) : list (option Z) := map Some (us_read u) ++ (if us_eof u then [None] else []).
Definition to_queue (p : UpPhase) : list (option Z) :=
  match p with UpStart cs => map Some (concat cs) | UpHolding chunk => map Some chunk | UpEnding => [None] | _ => [] end.

Definition up_ok (S : list Outbound) (o : bool) (u : UpSide) : Prop :=
  (if o then match us_phase u with UpGone => view (us_conn u) S `prefix_of` given u | p => view (us_conn u) S ++ to_queue p = given u end
   else view (us_conn u) S `prefix_of` given u) /\
  match us_phase u with UpStart _ | UpReading | UpHolding _ => us_eof u = false | _ => True end.
Definition ups_ok (s : Ups) : Prop := Forall (up_ok s.1.2 s.2) s.1.1 /\ NoDup (map us_conn s.1.1).

Lemma view_app c l1 l2 : view c (l1 ++ l2) = view c l1 ++ view c l2.
Proof. unfold view. by rewrite map_app, concat_app. Qed.
Lemma view_none c l : (forall m, m ∈ l -> about m <> Some c) -> view c l = [].
Proof.
  induction l as [|m l IH]; intros Hl; [done|]. change (view c (m :: l)) with (item c m ++ view c l). rewrite IH by (intros m' Hm; apply Hl; by right).
  specialize (Hl m ltac:(by left)). rewrite app_nil_r. destruct m as [[]| | | |]; cbn in *; try done; rewrite (proj2 (Z.eqb_neq _ _)); congruence.
Qed.
Lemma view_take c k l : view c (take k l) `prefix_of` view c l.
Proof. exists (view c (drop k l)). rewrite <- view_app. by rewrite take_drop. Qed.
Lemma concat_chunks fuel l : (length l <= fuel)%nat -> concat (chunks fuel l) = l.
Proof.
  revert l. induction fuel as [|fuel IH]; intros [|b l] Hl; try done; cbn [length] in Hl; [lia|]. cbn [chunks concat]. rewrite IH; [apply take_drop|].
  rewrite length_drop. cbn [length]. unfold MAX_PAYLOAD, MAX_PAYLOAD_SIZE. lia.
Qed.

Lemma up_ok_other S o u m : up_ok S o u -> item (us_conn u) m = [] -> up_ok (S ++ [m]) o u.
Proof.
  unfold up_ok. intros Hu Hm. replace (view (us_conn u) (S ++ [m])) with (view (us_conn u) S); [done|]. rewrite view_app.
  change (view (us_conn u) [m]) with (item (us_conn u) m ++ []). by rewrite Hm, app_nil_r.
Qed.

(** One upload goes on and says something about its connection. *)
Lemma ups_ok_one us S o v u f m :
  ups_ok (us, S, o) -> us !! v = Some u -> us_conn (f u) = us_conn u -> (forall c, c <> us_conn u -> item c m = []) ->
  up_ok (S ++ [m]) o (f u) -> ups_ok (alter f v us, S ++ [m], o).
Proof.
  intros [Hok Hd] Hv Hc Hm Hf. cbn in *. split; cbn.
  - rewrite Forall_lookup in *. intros w y Hy. destruct (decide (v = w)) as [<-|Hne]; [rewrite list_lookup_alter_eq, Hv in Hy; by injection Hy as <-|].
    rewrite list_lookup_alter_ne in Hy by done. apply up_ok_other; [by eapply Hok|]. apply Hm. intros Heq. apply Hne.
    eapply NoDup_lookup; [exact Hd|by rewrite list_lookup_fmap, Hv|by rewrite list_lookup_fmap, Hy; cbn; rewrite Heq].
  - replace (map us_conn (alter f v us)) with (map us_conn us); [done|]. apply list_eq. intros w.
    destruct (decide (v = w)) as [<-|Hne]; rewrite !list_lookup_fmap; [rewrite list_lookup_alter_eq, Hv; cbn; by rewrite Hc|by rewrite list_lookup_alter_ne].
Qed.

Lemma ups_ok_quiet us S o v u f :
  ups_ok (us, S, o) -> us !! v = Some u -> us_conn (f u) = us_conn u -> up_ok S o (f u) -> ups_ok (alter f v us, S, o).
Proof.
  intros [Hok Hd] Hv Hc Hf. split; cbn in *.
  - apply Forall_alter; [done|]. intros y Hy _. rewrite Hv in Hy. by injection Hy as <-.
  - replace (map us_conn (alter f v us)) with (map us_conn us); [done|]. apply list_eq. intros w.
    destruct (decide (v = w)) as [<-|Hne]; rewrite !list_lookup_fmap; [rewrite list_lookup_alter_eq, Hv; cbn; by rewrite Hc|by rewrite list_lookup_alter_ne].
Qed.

Lemma prefix_of_app_eq {A} (l1 l2 l3 : list A) : l1 ++ l2 = l3 -> l1 `prefix_of` l3.
Proof. intros <-. by exists l2. Qed.

Lemma item_data_ne c c' m : about m = Some c' -> c <> c' -> item c m = [].
Proof. destruct m as [[]| | | |]; cbn; try done; intros [= ->] Hne; by rewrite (proj2 (Z.eqb_neq _ _)). Qed.

Lemma umove_ok s s' : umove s s' -> ups_ok s -> ups_ok s'.
Proof.
  intros Hmove Hok. destruct Hmove as [us S o v u p Hv Hp|us S v u c cs Hv Hp|us S o v u chunk Hv Hp|us S o v u Hv Hp|us S v u chunk Hv Hp|us S v u Hv Hp|us S o m Hm|us S o k|us S o conn initial Hfresh Hnew].
  - apply (ups_ok_quiet _ _ _ _ _ _ Hok Hv); [done|]. pose proof (Forall_lookup_1 _ _ _ _ (proj1 Hok) Hv) as [Hu He]. cbn [fst snd] in Hu, He. unfold up_ok. cbn. destruct Hp as [->|[[Hs ->]|[-> [(c & cs & Hs & ->)|[Hs ->]]]]].
    + split; [|done]. destruct o; [|done]. destruct (us_phase u); eauto using prefix_of_app_eq.
    + rewrite Hs in Hu, He. by destruct o.
    + rewrite Hs in He. done.
    + done.
  - apply (ups_ok_one _ _ _ _ _ _ _ Hok Hv); [done|intros c' Hc'; by eapply item_data_ne|].
    pose proof (Forall_lookup_1 _ _ _ _ (proj1 Hok) Hv) as [Hu He]. cbn [fst snd] in Hu, He. rewrite Hp in Hu, He. split; [|done]. cbn. rewrite view_app. cbn. rewrite Z.eqb_refl, app_nil_r, <- app_assoc.
    etransitivity; [|exact Hu]. cbn. by rewrite map_app.
  - apply (ups_ok_quiet _ _ _ _ _ _ Hok Hv); [done|]. pose proof (Forall_lookup_1 _ _ _ _ (proj1 Hok) Hv) as [Hu He]. cbn [fst snd] in Hu, He. rewrite Hp in Hu, He. split; [|done].
    unfold given in *. cbn [us_phase us_conn us_read us_eof to_queue] in *. rewrite He in *. rewrite !app_nil_r in *. rewrite map_app. destruct o; [by rewrite Hu|]. by apply prefix_app_r.
  - apply (ups_ok_quiet _ _ _ _ _ _ Hok Hv); [done|]. pose proof (Forall_lookup_1 _ _ _ _ (proj1 Hok) Hv) as [Hu He]. cbn [fst snd] in Hu, He. rewrite Hp in Hu, He. split; [|done].
    unfold given in *. cbn [us_phase us_conn us_read us_eof to_queue] in *. rewrite He in *. rewrite !app_nil_r in *. destruct o; [by rewrite Hu|]. by apply prefix_app_r.
  - apply (ups_ok_one _ _ _ _ _ _ _ Hok Hv); [done|intros c' Hc'; by eapply item_data_ne|].
    pose proof (Forall_lookup_1 _ _ _ _ (proj1 Hok) Hv) as [Hu He]. cbn [fst snd] in Hu, He. rewrite Hp in Hu, He. split; [|done]. cbn. rewrite view_app. cbn. by rewrite Z.eqb_refl, !app_nil_r.
  - apply (ups_ok_one _ _ _ _ _ _ _ Hok Hv); [done|intros c' Hc'; by eapply item_data_ne|].
    pose proof (Forall_lookup_1 _ _ _ _ (proj1 Hok) Hv) as [Hu He]. cbn [fst snd] in Hu, He. rewrite Hp in Hu. split; [|done]. cbn. rewrite view_app. cbn. rewrite Z.eqb_refl. cbn.
    unfold given in *. cbn. rewrite <- Hu. done.
  - destruct Hok as [Hok Hd]. split; [|done]. cbn in *. eapply Forall_impl; [exact Hok|]. intros u Hu. apply up_ok_other; [done|]. by destruct m as [[]| | | |].
  - destruct Hok as [Hok Hd]. split; [|done]. cbn in *. eapply Forall_impl; [exact Hok|]. intros u [Hu He]. split; [|done].
    etransitivity; [apply view_take|]. destruct o; [|done]. destruct (us_phase u); eauto using prefix_of_app_eq.
  - destruct Hok as [Hok Hd]. split; cbn in *.
    + apply Forall_app. split; [done|]. constructor; [|done]. split; [|done]. cbn. unfold given. cbn. rewrite view_none, concat_chunks by done. rewrite app_nil_r.
      destruct o; [done|]. apply prefix_nil.
    + rewrite map_app. apply NoDup_app. split_and!; [done| |apply NoDup_singleton]. intros c Hin ->%list_elem_of_singleton. done.
Qed.

(** *** Every step is one of these *)

Definition up_abs (r : Relay) : Ups := (ups r, sent r, re_open r).

Lemma alter_map {A B} (h : A -> B) (f : A -> A) (g : B -> B) (v : nat) (l : list A) : (forall x, h (f x) = g (h x)) -> map h (alter f v l) = alter g v (map h l).
Proof. intros Hf. apply (list_fmap_alter h f g). rewrite Forall_forall. auto. Qed.
Lemma alter_same {A} (g : A -> A) (v : nat) (l : list A) u : l !! v = Some u -> g u = u -> alter g v l = l.
Proof.
  intros Hv Hg. apply list_eq. intros w. destruct (decide (v = w)) as [<-|]; [rewrite list_lookup_alter_eq, Hv; cbn; by rewrite Hg|by rewrite list_lookup_alter_ne].
Qed.

Lemma ups_upd v f r : (forall x, up_side (f x) = up_side x) -> ups (upd v f r) = ups r.
Proof. intros Hf. unfold ups. cbn. rewrite (alter_map up_side f id) by done. apply list_alter_id. done. Qed.
Lemma ups_to_phase v p r : ups (upd v (set_phase p) r) = alter (at_phase (up_phase p)) v (ups r).
Proof. unfold ups. cbn. by apply alter_map. Qed.
Lemma ups_lookup v x r : re_visitors r !! v = Some x -> ups r !! v = Some (up_side x).
Proof. intros Hv. unfold ups. by rewrite list_lookup_fmap, Hv. Qed.
Lemma ups_visitors r r' : re_visitors r' = re_visitors r -> ups r' = ups r.
Proof. unfold ups. by intros ->. Qed.
Lemma ups_set_budgets i o b r : ups (set_budgets i o b r) = ups r.
Proof. done. Qed.
Lemma ups_drop_down v now r : ups (drop_down v now r) = ups r.
Proof. unfold drop_down, give_back. repeat case_match; rewrite ?ups_upd by done; done. Qed.
Lemma ups_deliver p now r : ups (deliver p now r) = ups r.
Proof. unfold deliver, give_back. repeat case_match; rewrite ?ups_upd by done; done. Qed.
Lemma ups_starts_waiting p now r : ups (starts_waiting p now r) = ups r.
Proof. unfold starts_waiting. case_match; [by apply ups_upd|done]. Qed.
Lemma ups_give_back_wait p k r : ups (give_back_wait p k r) = ups r.
Proof. unfold give_back_wait. destruct (1 <=? k)%nat, (2 <=? k)%nat; rewrite ?ups_set_budgets, ?ups_upd by done; done. Qed.
Lemma ups_drop_up v r : ups (drop_up v r) = ups r.
Proof. unfold drop_up, with_visitor. repeat case_match; done. Qed.
Lemma ups_try_hold m v n r r' : try_hold m v n r = Some r' -> ups r' = ups r.
Proof. unfold try_hold. destruct (_ !! _); cbn; [|done]. case_split; [|done]. intros [= <-]. by rewrite ups_upd. Qed.
Lemma ups_finish_all outcome r : ups (finish_all outcome r) = ups r.
Proof.
  unfold finish_all. generalize (map_to_list (re_channels r)) as l. intros l. transitivity (ups (foldr (fun cv => upd cv.2 (finish_visitor outcome true)) r l)); [done|].
  induction l as [|cv l IH]; cbn [foldr]; [done|]. by rewrite ups_upd.
Qed.
Lemma ups_send m r : ups (send m r) = ups r.
Proof. apply ups_visitors, visitors_send. Qed.
Lemma ups_try_send m r : ups (try_send m r) = ups r.
Proof. apply ups_visitors, visitors_try_send. Qed.
Lemma ups_set_reader d r : ups (set_reader d r) = ups r.
Proof. done. Qed.
Lemma ups_leave c r : ups (leave c r) = ups r.
Proof. done. Qed.
Lemma ups_give_back_out k n r : ups (give_back_out k n r) = ups r.
Proof. done. Qed.
Lemma ups_set_rqueue q r : ups (set_rqueue q r) = ups r.
Proof. done. Qed.
Create Rewrite HintDb relay_ups.
Hint Rewrite ups_set_budgets ups_drop_down ups_deliver ups_starts_waiting ups_give_back_wait ups_drop_up ups_finish_all ups_send ups_try_send ups_set_reader
  ups_leave ups_give_back_out ups_set_rqueue ups_to_phase : relay_ups.

Lemma open_send m r : re_open (send m r) = re_open r.
Proof. unfold send. by case_split. Qed.
Lemma open_try_send m r : re_open (try_send m r) = re_open r.
Proof. unfold try_send. by case_split. Qed.
Lemma open_finish_all outcome r : re_open (finish_all outcome r) = re_open r.
Proof. unfold finish_all. cbn. generalize (map_to_list (re_channels r)) as l. by induction l as [|cv l IH]. Qed.
Create Rewrite HintDb relay_open.
Hint Rewrite open_send open_try_send open_finish_all : relay_open.

(** An upload's state is left as it is. *)
Definition up_same (r r' : Relay) : Prop := ups r' = ups r /\ re_open r' = re_open r /\
  (sent r' = sent r \/ exists m, match m with MBinary _ _ | MData _ _ | MText (ScEnd _) => False | _ => True end /\ sent r' = sent r ++ [m]).
Lemma up_same_moves r r' : up_same r r' -> rtc umove (up_abs r) (up_abs r').
Proof.
  intros (Eu & Eo & [Es|(m & Hm & Es)]); unfold up_abs; rewrite Eu, Eo, Es; [done|]. apply rtc_once. by constructor.
Qed.

Ltac ups_norm :=
  repeat first
    [ progress autorewrite with relay_ups
    | rewrite ups_upd by (intros; repeat case_match; done)
    | match goal with H : try_hold _ _ _ _ = Some _ |- context [ups _] => apply ups_try_hold in H; rewrite H; clear H end ].
Ltac sent_norm := repeat first [progress autorewrite with relay_sent | see_through sent sent_reshaped]; rewrite ?app_nil_r.
Ltac open_norm := repeat first [progress project | see_through re_open open_reshaped | progress autorewrite with relay_open].

Lemma up_same_data frame m now r : up_same r (data frame m now r).
Proof.
  unfold data. cbv zeta. repeat case_match; (split_and!; [by ups_norm|by open_norm|left; by sent_norm]).
Qed.

Ltac ups_kept :=
  ups_norm; try done;
  match goal with
  | Hv : re_visitors ?r !! ?v = Some ?x |- alter _ ?v (ups ?r) = ups ?r =>
      apply (alter_same _ _ _ _ (ups_lookup _ _ _ Hv)); unfold at_phase, up_side; cbn;
      repeat match goal with H : vi_phase x = _ |- _ => rewrite H end; done
  end.
Ltac sent_cases :=
  sent_norm; try (by left);
  match goal with |- context [sent (try_send ?m ?q)] => destruct (sent_try_send m q) as [-> | ->]; sent_norm; [by left|right; exists m; done] end.

Definition up_event (e : Event) : bool :=
  match e with
  | EvWrite _ | EvWriterCancelled | EvOpened _ _ _ _ | EvAccepted _ _ | EvOpenNext _ | EvRead _ _ | EvReadEnd _ | EvReadFailed _ | EvUploadSends _
  | EvUploadAborted _ | EvDone _ | EvIdle _ => true
  | _ => false
  end.

Lemma up_same_step t r e : up_event e.1 = false -> up_same r (step t r e).
Proof.
  destruct e as [e now]. cbn [fst]. intros He. destruct e; try done; try (apply up_same_data); clear He.
  all: unfold up_same; open_step; repeat case_match; try (split_and!; [by ups_kept|by open_norm|by sent_cases]).
  split_and!; [by ups_kept|by open_norm|]. sent_norm. destruct (re_open r); rewrite ?app_nil_r; [right; eexists; split; [|done]; by destruct m|by left].
Qed.

(** A connection's upload ends, maybe with another message. *)
Lemma up_gone_moves r r' v x : re_visitors r !! v = Some x -> ups r' = alter (at_phase UpGone) v (ups r) -> re_open r' = re_open r ->
  (sent r' = sent r \/ exists m, match m with MBinary _ _ | MData _ _ | MText (ScEnd _) => False | _ => True end /\ sent r' = sent r ++ [m]) ->
  rtc umove (up_abs r) (up_abs r').
Proof.
  intros Hv%ups_lookup Eu Eo Es. eapply (rtc_l _ _ (alter (at_phase UpGone) v (ups r), sent r, re_open r)).
  - eapply um_phase; [exact Hv|by left].
  - unfold up_abs. rewrite Eu, Eo. destruct Es as [->|(m & Hm & ->)]; [done|]. apply rtc_once. by constructor.
Qed.

Lemma up_same_refl r : up_same r r.
Proof. split_and!; [done|done|by left]. Qed.

Lemma ups_upd_with v f g r : (forall x, up_side (f x) = g (up_side x)) -> ups (upd v f r) = alter g v (ups r).
Proof. intros Hf. unfold ups. cbn. by apply alter_map. Qed.

Lemma visitors_release m r : re_visitors (release_message m r) = re_visitors r.
Proof. by destruct m. Qed.
Lemma visitors_close_queue r : re_visitors (close_queue r) = re_visitors r.
Proof. unfold close_queue. by rewrite release_messages_sum. Qed.
Lemma visitors_write ok now r : re_visitors (write ok now r) = re_visitors r.
Proof. unfold write. repeat case_match; rewrite ?visitors_close_queue; cbn; rewrite ?visitors_release; done. Qed.

Lemma up_step_moves t r e : wired r -> (forall c, opened_conn e = Some c -> c ∉ conns r) -> rtc umove (up_abs r) (up_abs (step t r e)).
Proof.
  intros Hw Hf. destruct (up_event e.1) eqn:Ee; [|by apply up_same_moves, up_same_step]. destruct e as [e now]. cbn [fst] in Ee. destruct e; try done; clear Ee; cbn [step fst snd].
  - (* write *) destruct (write_sent ok now r) as (k & Es & Eo). unfold up_abs. replace (ups (write ok now r)) with (ups r).
    2: { symmetry. apply ups_visitors, visitors_write. }
    destruct (re_open (write ok now r)) eqn:E.
    + rewrite Eo by done. assert (re_open r = true) as -> by (destruct (re_open r) eqn:E1; [done|]; unfold write in E; rewrite E1 in E; congruence). done.
    + rewrite Es. apply rtc_once. apply um_cut.
  - (* writer cancelled *) unfold writer_cancelled. case_split; [|done]. unfold up_abs. rewrite sent_close_queue. unfold close_queue. rewrite release_messages_sum. cbn.
    apply rtc_once. unfold sent. rewrite <- (take_app_length (re_socket r) (re_queue r)) at 2. apply um_cut.
  - (* opened *) unfold opened. destruct (re_channels r !! conn); [done|]. apply rtc_once. unfold up_abs, ups. cbn. rewrite map_app. cbn.
    assert (forall m, m ∈ sent r -> about m <> Some conn) as H1 by (intros m Hm Ha; apply (Hf conn eq_refl); by eapply (wi_messages _ Hw)).
    assert (conn ∉ map us_conn (ups r)) as H2 by (unfold ups; rewrite map_map; apply (Hf conn eq_refl)).
    destruct forwarded; by apply um_new.
  - (* accepted *) unfold accepted, with_visitor. destruct (re_visitors r !! v) as [x|] eqn:Hv; [|done]. destruct (vi_phase x) as [s todo| | |] eqn:Hp; try done. destruct ok.
    + apply up_same_moves. split_and!; [unfold to_phase; ups_kept|by open_norm|by left].
    + eapply up_gone_moves; [exact Hv|unfold to_phase; by ups_norm|unfold to_phase; by open_norm|left; unfold to_phase; by sent_norm].
  - (* open_next *) unfold open_next, with_visitor. destruct (re_visitors r !! v) as [x|] eqn:Hv; [|done].
    destruct (vi_phase x) as [|[s|] [|chunk todo]|up down|] eqn:Hp; try done; try (destruct (can_send r); [|done]); unfold to_phase.
    + apply up_same_moves. split_and!; [ups_kept|by open_norm|]. sent_norm. destruct (re_open r); rewrite ?app_nil_r; [right; eexists; split; [|done]; done|by left].
    + apply up_same_moves. split_and!; [ups_kept|by open_norm|]. sent_norm. destruct (re_open r); rewrite ?app_nil_r; [right; eexists; split; [|done]; done|by left].
    + apply rtc_once. unfold up_abs. ups_norm. sent_norm. open_norm. eapply um_phase; [by eapply ups_lookup|]. right. left. cbn. by rewrite Hp.
    + apply rtc_once. unfold up_abs. ups_norm. sent_norm. open_norm. cbn [up_phase]. destruct (re_open r).
      * replace (vi_conn x) with (us_conn (up_side x)) by done. eapply um_start; [by apply ups_lookup|]. cbn. by rewrite Hp.
      * rewrite app_nil_r. eapply um_phase; [by apply ups_lookup|]. right. right. split; [done|]. left. exists chunk, todo. cbn. by rewrite Hp.
  - (* read_chunk *) unfold read_chunk, with_visitor. destruct (re_visitors r !! v) as [x|] eqn:Hv; [|done]. destruct (vi_phase x) as [| |[] down|] eqn:Hp; try done.
    case_split; [|done]. apply rtc_once. unfold up_abs, to_phase. rewrite ups_to_phase.
    rewrite (ups_upd_with _ _ (fun u => mkUpSide (us_conn u) (us_read u ++ chunk) (us_eof u) (us_phase u))), list_alter_alter_eq by done. sent_norm. open_norm.
    eapply um_read; [by apply ups_lookup|]. cbn. by rewrite Hp.
  - (* read_end *) unfold read_end, with_visitor. destruct (re_visitors r !! v) as [x|] eqn:Hv; [|done]. destruct (vi_phase x) as [| |[] down|] eqn:Hp; try done.
    apply rtc_once. unfold up_abs, to_phase. rewrite ups_to_phase.
    rewrite (ups_upd_with _ _ (fun u => mkUpSide (us_conn u) (us_read u) true (us_phase u))), list_alter_alter_eq by done. sent_norm. open_norm.
    eapply um_eof; [by apply ups_lookup|]. cbn. by rewrite Hp.
  - (* read_failed *) unfold read_failed, with_visitor. destruct (re_visitors r !! v) as [x|] eqn:Hv; [|done]. destruct (vi_phase x) as [| |[] down|] eqn:Hp; try done.
    cbv zeta. unfold to_phase. eapply up_gone_moves; [exact Hv|by ups_norm|by open_norm|by sent_cases].
  - (* upload_sends *) unfold upload_sends, with_visitor. destruct (re_visitors r !! v) as [x|] eqn:Hv; [|done]. unfold to_phase.
    destruct (vi_phase x) as [| |[|chunk [|[|[|]]]| |] down|] eqn:Hp; try done.
    + destruct (re_open r) eqn:Eo.
      * destruct (room r); [|done]. apply rtc_once. unfold up_abs. ups_norm. sent_norm. open_norm. rewrite Eo. unfold sent at 2. cbn [set_rqueue re_socket re_queue]. rewrite app_assoc.
        change (vi_conn x) with (us_conn (up_side x)). eapply um_queue; [by apply ups_lookup|]. cbn. by rewrite Hp.
      * eapply up_gone_moves; [exact Hv|by ups_norm|by open_norm|left; by sent_norm].
    + destruct (can_send r); [|done]. destruct (re_open r) eqn:Eo.
      * apply rtc_once. unfold up_abs. ups_norm. sent_norm. open_norm. rewrite Eo. change (vi_conn x) with (us_conn (up_side x)). eapply um_end; [by apply ups_lookup|]. cbn. by rewrite Hp.
      * eapply up_gone_moves; [exact Hv|by ups_norm|by open_norm|left; sent_norm; by rewrite Eo, app_nil_r].
  - (* upload_aborted *) unfold upload_aborted, with_visitor. destruct (re_visitors r !! v) as [x|] eqn:Hv; [|done]. case_split; [|done]. unfold to_phase.
    destruct (vi_phase x) as [| |[|chunk k| |] down|] eqn:Hp; try done; (eapply up_gone_moves; [exact Hv|by ups_norm|by open_norm|left; by sent_norm]).
  - (* done *) unfold done, with_visitor. destruct (re_visitors r !! v) as [x|] eqn:Hv; [|done]. unfold to_phase.
    destruct (vi_phase x) as [| |[] []|] eqn:Hp; try done. eapply up_gone_moves; [exact Hv|by ups_norm|by open_norm|left; by sent_norm].
  - (* idle *) unfold idle, with_visitor. destruct (re_visitors r !! v) as [x|] eqn:Hv; [|done]. destruct (vi_phase x) as [| |up down|] eqn:Hp; try done. case_split; [|done].
    cbv zeta. unfold to_phase. eapply up_gone_moves; [exact Hv| |by open_norm|by sent_cases]. ups_norm. rewrite list_alter_alter_eq. done.
Qed.

Lemma ups_run t machine start events : numbered events -> ups_ok (up_abs (run t machine start events)).
Proof.
  intros Hn. apply (run_invariant (fun r => ups_ok (up_abs r)) t machine start events); [split; constructor| |done].
  intros r e Hw Hf Hi. pose proof (up_step_moves t r e Hw Hf) as Hm. revert Hi. induction Hm; eauto using umove_ok.
Qed.

(** C9: what the client is sent for a connection is what its visitor sent: at every moment the frames written to the bridge's
    socket hold a prefix of the bytes read from the visitor, the ClientHello first, in order and without those of others;
    the end is written only once the visitor ended and all its bytes were. *)
Theorem upload_in_order t machine start events v x :
  numbered events -> re_visitors (run t machine start events) !! v = Some x ->
  let got := view (vi_conn x) (re_socket (run t machine start events)) in
  got `prefix_of` map Some (vi_read x) ++ (if vi_eof x then [None] else []) /\
  (None ∈ got -> vi_eof x = true /\ got = map Some (vi_read x) ++ [None]).
Proof.
  intros Hn Hv. cbv zeta. set (r := run t machine start events) in *. destruct (ups_run t machine start events Hn) as [Hok _]. fold r in Hok.
  pose proof (Forall_lookup_1 _ _ _ _ Hok (ups_lookup _ _ _ Hv)) as [Hu _]. cbn [fst snd up_abs us_conn us_phase up_side] in Hu.
  assert (view (vi_conn x) (re_socket r) `prefix_of` map Some (vi_read x) ++ (if vi_eof x then [None] else [])) as Hp.
  { transitivity (view (vi_conn x) (sent r)); [exists (view (vi_conn x) (re_queue r)); unfold sent; by rewrite view_app|].
    destruct (re_open r); [|exact Hu]. destruct (up_phase (vi_phase x)); eauto using prefix_of_app_eq. }
  split; [done|]. intros Hin. destruct Hp as [rest Hp]. assert (None ∉ map Some (vi_read x)) as Hn'.
  { intros (b & [=] & _)%list_elem_of_fmap. }
  destruct (vi_eof x); [|rewrite app_nil_r in Hp; exfalso; apply Hn'; rewrite Hp; apply elem_of_app; by left]. split; [done|].
  destruct rest as [|a rest _] using rev_ind; [by rewrite app_nil_r in Hp|]. exfalso. rewrite app_assoc in Hp. apply app_inj_tail in Hp as [Hp _].
  apply Hn'. rewrite Hp. apply elem_of_app. by left.
Qed.

(** ** From the client to visitors *)

(** A connection as its download sees it. *)
Inductive DownPhase := DpWaiting | DpWriting (payload : bytes) (written : nat) | DpGone.
Record DownSide := mkDownSide {
  ds_conn : Z;
  ds_inbound : list Inbound;
  ds_finish : Finish;
  ds_phase : DownPhase;
  ds_received : bytes;
  ds_ended : bool;
  ds_written : bytes;
  ds_shut : bool;
}.
Definition down_phase (p : Phase) : DownPhase :=
  match p with
  | Accepting _ _ | Opening _ _ | Relaying _ DReceiving => DpWaiting
  | Relaying _ (DWriting p w _ _) => DpWriting p w
  | Relaying _ DDone | Over => DpGone
  end.
Definition down_side (x : Visitor) : DownSide :=
  mkDownSide (vi_conn x) (vi_inbound x) (vi_finish x) (down_phase (vi_phase x)) (vi_received x) (vi_ended x) (vi_written x) (vi_shut x).
Definition downs (r : Relay) : list DownSide := map down_side (re_visitors r).

(** The downloads, the connections in the bridge, and the data its reader has not delivered yet. *)
Abbreviation Downs := (list DownSide * gmap Z nat * option (nat * bytes))%type.
Definition undelivered (pe : option (nat * bytes)) (v : nat) : option bytes := match pe with Some (w, p) => if (w =? v)%nat then Some p else None | None => None end.
Definition extra_bytes (e : option bytes) : bytes := match e with Some p => p | None => [] end.
Definition d_finish (outcome : Outcome) (abort : bool) (d : DownSide) : DownSide :=
  mkDownSide (ds_conn d) (ds_inbound d) (finish outcome abort (ds_finish d)) (ds_phase d) (ds_received d) (ds_ended d) (ds_written d) (ds_shut d).
Definition d_queue (l : list Inbound) (d : DownSide) : DownSide :=
  mkDownSide (ds_conn d) l (ds_finish d) (ds_phase d) (ds_received d) (ds_ended d) (ds_written d) (ds_shut d).
Definition d_phase (p : DownPhase) (d : DownSide) : DownSide :=
  mkDownSide (ds_conn d) (ds_inbound d) (ds_finish d) p (ds_received d) (ds_ended d) (ds_written d) (ds_shut d).
Definition d_received (b : bytes) (e : bool) (d : DownSide) : DownSide :=
  mkDownSide (ds_conn d) (ds_inbound d) (ds_finish d) (ds_phase d) b e (ds_written d) (ds_shut d).
Definition d_written (b : bytes) (s : bool) (d : DownSide) : DownSide :=
  mkDownSide (ds_conn d) (ds_inbound d) (ds_finish d) (ds_phase d) (ds_received d) (ds_ended d) b s.
Definition gone (d : DownSide) : bool := match ds_phase d with DpGone => true | _ => false end.

Inductive dmove : Downs -> Downs -> Prop :=
| dm_data ds ch v d payload : ds !! v = Some d -> ch !! ds_conn d = Some v ->
    dmove (ds, ch, None) (alter (d_received (ds_received d ++ payload) (ds_ended d)) v ds, ch, Some (v, payload))
| dm_deliver ds ch v d p : ds !! v = Some d ->
    dmove (ds, ch, Some (v, p)) (alter (fun d => if gone d then d else d_queue (ds_inbound d ++ [IData p]) d) v ds, ch, None)
| dm_drop ds ch v d p : ds !! v = Some d -> ch !! ds_conn d = None -> dmove (ds, ch, Some (v, p)) (ds, ch, None)
| dm_end ds ch v d : ds !! v = Some d -> ch !! ds_conn d = Some v ->
    dmove (ds, ch, None) (alter (fun d => let d := d_finish Closed false (d_received (ds_received d) true d) in
      if gone d then d else d_queue (ds_inbound d ++ [IEnd]) d) v ds, delete (ds_conn d) ch, None)
| dm_abort ds ch pe v d outcome : ds !! v = Some d -> dmove (ds, ch, pe) (alter (d_finish outcome true) v ds, delete (ds_conn d) ch, pe)
| dm_disconnect ds ch pe v d outcome : ds !! v = Some d -> dmove (ds, ch, pe) (alter (d_finish outcome true) v ds, ch, pe)
| dm_receive ds ch pe v d p l : ds !! v = Some d -> ds_phase d = DpWaiting -> ds_inbound d = IData p :: l ->
    dmove (ds, ch, pe) (alter (fun d => d_phase (DpWriting p 0) (d_queue l d)) v ds, ch, pe)
| dm_write ds ch pe v d p w taken p' : ds !! v = Some d -> ds_phase d = DpWriting p w -> taken `prefix_of` drop w p ->
    (p' = DpWriting p (w + length taken) \/ p' = DpWaiting /\ taken = drop w p) ->
    dmove (ds, ch, pe) (alter (fun d => d_phase p' (d_written (ds_written d ++ taken) (ds_shut d) d)) v ds, ch, pe)
| dm_shut ds ch pe v d : ds !! v = Some d -> ds_phase d = DpWaiting ->
    (exists l, ds_inbound d = IEnd :: l) \/ (ds_inbound d = [] /\ ch !! ds_conn d <> Some v /\ undelivered pe v = None) ->
    dmove (ds, ch, pe) (alter (fun d => d_phase DpGone (d_queue [] (d_written (ds_written d) true d))) v ds, ch, pe)
| dm_gone ds ch pe v d : ds !! v = Some d -> dmove (ds, ch, pe) (alter (fun d => d_phase DpGone (d_queue [] d)) v ds, ch, pe)
| dm_leave ds ch pe v d outcome : ds !! v = Some d -> gone d = true ->
    dmove (ds, ch, pe) (alter (d_finish outcome false) v ds, delete (ds_conn d) ch, pe)
| dm_forget ds ch pe v d : ds !! v = Some d -> gone d = true -> dmove (ds, ch, pe) (ds, delete (ds_conn d) ch, pe)
| dm_open ds ch pe conn : conn ∉ map ds_conn ds -> (forall v p, pe = Some (v, p) -> v <> length ds) ->
    dmove (ds, ch, pe) (ds ++ [mkDownSide conn [] (mkFinish None false) DpWaiting [] false [] false], <[conn := length ds]> ch, pe).

(** What is still to be written to the visitor. *)
Definition to_write (d : DownSide) : bytes := (match ds_phase d with DpWriting p w => drop w p | _ => [] end) ++ concat (map payload_of (ds_inbound d)).
Definition d_aborted (d : DownSide) : bool := fi_abort (ds_finish d).

(** [inside]: the bridge has the connection; [extra]: its data the reader has not delivered. *)
Record down_ok (inside : bool) (extra : option bytes) (d : DownSide) : Prop := mkDownOk {
  do_gone : gone d = true -> ds_written d `prefix_of` ds_received d;
  do_all : gone d = false -> inside = true \/ d_aborted d = false -> ds_received d = ds_written d ++ to_write d ++ extra_bytes extra;
  do_some : gone d = false -> ds_written d ++ to_write d ++ extra_bytes extra `prefix_of` ds_received d;
  do_open : gone d = false -> ds_shut d = false;
  do_queue : gone d = false -> if ds_ended d then (exists l, ds_inbound d = map IData l ++ [IEnd]) /\ extra = None else exists l, ds_inbound d = map IData l;
  do_ended : gone d = false -> inside = false -> d_aborted d = false -> ds_ended d = true;
  do_inside : inside = true -> ds_ended d = false /\ (fi_outcome (ds_finish d) = None \/ d_aborted d = true);
  do_shut : ds_shut d = true -> d_aborted d = false -> ds_ended d = true /\ ds_written d = ds_received d;
}.
Record downs_ok (s : Downs) : Prop := mkDownsOk {
  dn_each : forall v d, s.1.1 !! v = Some d -> down_ok (bool_decide (s.1.2 !! ds_conn d = Some v)) (undelivered s.2 v) d;
  dn_conns : NoDup (map ds_conn s.1.1);
  dn_inside : forall c v, s.1.2 !! c = Some v -> exists d, s.1.1 !! v = Some d /\ ds_conn d = c;
}.

Lemma downs_ok_one ds ch pe v d f ch' pe' :
  downs_ok (ds, ch, pe) -> ds !! v = Some d -> ds_conn (f d) = ds_conn d -> ch' = ch \/ ch' = delete (ds_conn d) ch ->
  (forall w, w <> v -> undelivered pe' w = undelivered pe w) ->
  down_ok (bool_decide (ch' !! ds_conn d = Some v)) (undelivered pe' v) (f d) -> downs_ok (alter f v ds, ch', pe').
Proof.
  intros [He Hd Hi] Hv Hc Hch Hpe Hf. cbn [fst snd] in *.
  assert (forall w y, w <> v -> ds !! w = Some y -> ds_conn y <> ds_conn d) as Hne.
  { intros w y Hw Hy Heq. apply Hw. eapply NoDup_lookup; [exact Hd|by rewrite list_lookup_fmap, Hy|by rewrite list_lookup_fmap, Hv; cbn; rewrite Heq]. }
  assert (map ds_conn (alter f v ds) = map ds_conn ds) as Ec.
  { apply list_eq. intros w. destruct (decide (v = w)) as [<-|]; rewrite !list_lookup_fmap; [rewrite list_lookup_alter_eq, Hv; cbn; by rewrite Hc|by rewrite list_lookup_alter_ne]. }
  constructor; cbn [fst snd].
  - intros w y Hy. destruct (decide (v = w)) as [<-|Hw]; [rewrite list_lookup_alter_eq, Hv in Hy; injection Hy as <-; by rewrite Hc|].
    rewrite list_lookup_alter_ne in Hy by done. rewrite Hpe by done. replace (ch' !! ds_conn y) with (ch !! ds_conn y); [by apply He|].
    destruct Hch as [-> | ->]; [done|]. by rewrite lookup_delete_ne by (apply not_eq_sym; eapply Hne; [exact (not_eq_sym Hw)|done]).
  - by rewrite Ec.
  - intros c w Hw. assert (ch !! c = Some w) as Hw' by (destruct Hch as [-> | ->]; [done|by apply lookup_delete_Some in Hw as [_ ?]]).
    destruct (Hi _ _ Hw') as (y & Hy & <-). destruct (decide (v = w)) as [<-|]; [exists (f d); rewrite list_lookup_alter_eq, Hv; cbn; by rewrite Hc; simplify_eq|].
    exists y. by rewrite list_lookup_alter_ne.
Qed.

Lemma finish_abort o f : fi_outcome f = None \/ fi_abort f = true -> fi_abort (finish o true f) = true.
Proof. unfold finish. destruct (fi_outcome f) eqn:E; intros [H|H]; done. Qed.
Lemma finish_keeps o a f : fi_abort (finish o a f) = false -> fi_abort f = false.
Proof. unfold finish. destruct (fi_outcome f), a; cbn; done. Qed.

(** The connection is torn down: whatever was not written is not owed any more. *)
Lemma down_ok_abort inside inside' extra o d :
  (inside' = true -> inside = true) -> down_ok inside extra d -> down_ok inside' extra (d_finish o true d).
Proof.
  intros Hin [Hg Ha Hs Ho Hq He Hi Hsh]. assert (inside = true -> d_aborted (d_finish o true d) = true) as Hab.
  { intros E. apply finish_abort. by apply Hi. }
  assert (d_aborted (d_finish o true d) = false -> d_aborted d = false) as Hk by apply finish_keeps.
  constructor; cbn; auto.
  - intros Hgn Hor. apply Ha; [done|]. destruct Hor as [?|?]; auto.
  - intros Hgn Hout Hna. apply He; auto. destruct inside; [|done]. by rewrite Hab in Hna.
  - intros E. specialize (Hin E). split; [by apply Hi|]. right. by apply Hab.
Qed.

(** It stops receiving. *)
Lemma down_ok_gone inside extra d : down_ok inside extra d -> down_ok inside extra (d_phase DpGone (d_queue [] d)).
Proof.
  intros [Hg Ha Hs Ho Hq He Hi Hsh]. constructor; cbn; try done. intros _. destruct (gone d) eqn:Eg; [auto|]. etransitivity; [|by apply Hs]. by eexists.
Qed.

Lemma ended_queue d l : ds_inbound d = IEnd :: l -> (exists k, ds_inbound d = map IData k ++ [IEnd]) -> l = [].
Proof. intros -> ([|p k] & E); [by injection E|done]. Qed.
Lemma data_queue p l k : IData p :: l = map IData k ++ [IEnd] -> exists k', l = map IData k' ++ [IEnd].
Proof. destruct k as [|q k]; [done|]. intros [= _ ->]. eauto. Qed.

Lemma down_ok_data payload d : down_ok true None d -> down_ok true (Some payload) (d_received (ds_received d ++ payload) (ds_ended d) d).
Proof.
  intros [Hg Ha Hs Ho Hq He Hi Hsh]. destruct (Hi eq_refl) as [Hend _]. cbn [extra_bytes] in *. rewrite app_nil_r in Ha.
  assert (to_write (d_received (ds_received d ++ payload) (ds_ended d) d) = to_write d) as Ew by done.
  constructor; rewrite ?Ew; cbn [d_received ds_received ds_written ds_shut ds_ended ds_inbound ds_finish extra_bytes] in *; try done.
  - intros Hgn. apply prefix_app_r. auto.
  - intros Hgn _. rewrite Ha by auto. by rewrite <- !app_assoc.
  - intros Hgn. rewrite Ha by auto. by rewrite <- !app_assoc.
  - intros Hgn. specialize (Hq Hgn). by rewrite Hend in *.
  - intros Hsh1 Hab. destruct (Hsh Hsh1 Hab). congruence.
Qed.

Lemma down_ok_deliver inside p d : down_ok inside (Some p) d -> down_ok inside None (if gone d then d else d_queue (ds_inbound d ++ [IData p]) d).
Proof.
  intros [Hg Ha Hs Ho Hq He Hi Hsh]. cbn [extra_bytes] in *. destruct (gone d) eqn:Eg; [constructor; rewrite ?Eg; done|].
  assert (to_write (d_queue (ds_inbound d ++ [IData p]) d) ++ [] = to_write d ++ p) as Ew.
  { unfold to_write. cbn. rewrite map_app, concat_app. cbn. by rewrite !app_nil_r, !app_assoc. }
  set (d' := d_queue _ _) in *. assert (gone d' = false) as Eg' by exact Eg.
  constructor; cbn [extra_bytes]; rewrite ?Ew, ?Eg'; try done; try (intros _; by auto).
  intros _. specialize (Hq eq_refl). cbn. destruct (ds_ended d); [by destruct Hq|]. destruct Hq as [l Hl]. exists (l ++ [p]). by rewrite map_app, Hl.
Qed.

Lemma down_ok_drop p d : down_ok false (Some p) d -> down_ok false None d.
Proof.
  intros [Hg Ha Hs Ho Hq He Hi Hsh]. cbn [extra_bytes] in *. constructor; cbn [extra_bytes]; try done.
  - intros Hgn [?|Hab]; [done|]. specialize (He Hgn eq_refl Hab). specialize (Hq Hgn). rewrite He in Hq. by destruct Hq.
  - intros Hgn. rewrite app_nil_r. etransitivity; [|by apply Hs]. rewrite app_assoc. by eexists.
  - intros Hgn. specialize (Hq Hgn). destruct (ds_ended d); [by destruct Hq|done].
Qed.

Lemma down_ok_end d : down_ok true None d -> down_ok false None (let d := d_finish Closed false (d_received (ds_received d) true d) in
  if gone d then d else d_queue (ds_inbound d ++ [IEnd]) d).
Proof.
  intros [Hg Ha Hs Ho Hq He Hi Hsh]. destruct (Hi eq_refl) as [Hend Hfin]. cbn [extra_bytes] in *. rewrite app_nil_r in *. cbv zeta.
  change (gone (d_finish Closed false (d_received (ds_received d) true d))) with (gone d).
  assert (forall f, d_aborted (d_finish Closed false f) = d_aborted f) as Hab.
  { intros f. unfold d_aborted, d_finish, finish. cbn. by destruct (fi_outcome (ds_finish f)). }
  destruct (gone d) eqn:Eg.
  - set (d' := d_finish _ _ _). assert (gone d' = true) as Eg' by exact Eg. constructor; rewrite ?Eg'; try done.
    intros Hs1 Hn. unfold d' in Hn. rewrite Hab in Hn. destruct (Hsh Hs1 Hn). congruence.
  - set (d' := d_queue _ _). assert (to_write d' = to_write d) as Ew.
    { unfold d', to_write. cbn. rewrite map_app, concat_app. cbn. by rewrite !app_nil_r. }
    assert (gone d' = false) as Eg' by exact Eg. specialize (Hq eq_refl). rewrite Hend in Hq. destruct Hq as [l Hl].
    constructor; cbn [extra_bytes]; rewrite ?Ew, ?app_nil_r, ?Eg'; try done.
    + intros _ _. by apply Ha; auto.
    + intros _. unfold d'. cbn. split; [|done]. exists l. by rewrite Hl.
    + intros Hs1. change (ds_shut d = true) in Hs1. by rewrite Ho in Hs1.
Qed.

Lemma down_ok_receive inside extra d p l : ds_phase d = DpWaiting -> ds_inbound d = IData p :: l -> down_ok inside extra d ->
  down_ok inside extra (d_phase (DpWriting p 0) (d_queue l d)).
Proof.
  intros Hp Hl [Hg Ha Hs Ho Hq He Hi Hsh]. assert (gone d = false) as Eg by (unfold gone; by rewrite Hp).
  assert (to_write (d_phase (DpWriting p 0) (d_queue l d)) = to_write d) as Ew by (unfold to_write; by rewrite Hp, Hl).
  constructor; rewrite ?Ew; try done; try (intros; by auto).
  intros _. specialize (Hq Eg). cbn. rewrite Hl in Hq. destruct (ds_ended d).
  - destruct Hq as [(k & Hk) ->]. split; [by eapply data_queue|done].
  - destruct Hq as [[|q k] Hk]; [done|]. injection Hk as _ ->. eauto.
Qed.

Lemma down_ok_write inside extra d p w taken p' : ds_phase d = DpWriting p w -> taken `prefix_of` drop w p ->
  (p' = DpWriting p (w + length taken) \/ p' = DpWaiting /\ taken = drop w p) -> down_ok inside extra d ->
  down_ok inside extra (d_phase p' (d_written (ds_written d ++ taken) (ds_shut d) d)).
Proof.
  intros Hp [rest Ht] Hp' [Hg Ha Hs Ho Hq He Hi Hsh]. assert (gone d = false) as Eg by (unfold gone; by rewrite Hp).
  set (d' := d_phase _ _). assert (gone d' = false) as Eg' by (unfold gone, d'; by destruct Hp' as [-> |[-> _]]).
  assert (ds_written d' ++ to_write d' = ds_written d ++ to_write d) as Ew.
  { unfold d', to_write. cbn. rewrite Hp, <- app_assoc. f_equal. rewrite app_assoc. f_equal. destruct Hp' as [-> |[-> ->]]; cbn; [|by rewrite app_nil_r].
    rewrite <- (drop_drop p), Ht. by rewrite drop_app_length. }
  rewrite app_assoc in Hs. rewrite app_assoc in Ha. constructor; rewrite ?Eg', ?app_assoc, ?Ew; try done; try (intros; by auto).
  - intros _. exact (Hq Eg).
  - intros Hs1. change (ds_shut d = true) in Hs1. by rewrite Ho in Hs1.
Qed.

Lemma down_ok_shut inside extra d : ds_phase d = DpWaiting -> down_ok inside extra d ->
  (exists l, ds_inbound d = IEnd :: l) \/ (ds_inbound d = [] /\ inside = false /\ extra = None) ->
  down_ok inside extra (d_phase DpGone (d_queue [] (d_written (ds_written d) true d))).
Proof.
  intros Hp [Hg Ha Hs Ho Hq He Hi Hsh] Hl. assert (gone d = false) as Eg by (unfold gone; by rewrite Hp).
  constructor; try done.
  - intros _. cbn. etransitivity; [|by apply Hs]. by eexists.
  - intros _ Hn. cbn. change (d_aborted d = false) in Hn. destruct Hl as [[l Hl]|(Hl & -> & ->)].
    + specialize (Hq Eg). destruct (ds_ended d) eqn:Ee; [|destruct Hq as [[|] Hk]; by rewrite Hl in Hk]. destruct Hq as [Hk ->]. split; [done|].
      pose proof (ended_queue _ _ Hl Hk) as ->. rewrite (Ha Eg) by auto. unfold to_write. rewrite Hp, Hl. cbn. by rewrite app_nil_r.
    + specialize (He Eg eq_refl Hn). specialize (Hq Eg). rewrite He in Hq. destruct Hq as [(k & Hk) _]. rewrite Hl in Hk. by destruct k.
Qed.

Lemma down_ok_leave inside extra o d : gone d = true -> down_ok inside extra d -> down_ok false extra (d_finish o false d).
Proof.
  intros Eg [Hg Ha Hs Ho Hq He Hi Hsh]. assert (gone (d_finish o false d) = true) as Eg' by done. constructor; rewrite ?Eg'; try done; [auto|].
  intros Hs1 Hn. apply Hsh; [done|]. by apply (finish_keeps o false).
Qed.

Lemma downs_ok_open ds ch pe conn : conn ∉ map ds_conn ds -> (forall v p, pe = Some (v, p) -> v <> length ds) -> downs_ok (ds, ch, pe) ->
  downs_ok (ds ++ [mkDownSide conn [] (mkFinish None false) DpWaiting [] false [] false], <[conn := length ds]> ch, pe).
Proof.
  intros Hnew Hpe [He Hd Hi]. cbn [fst snd] in *. constructor; cbn [fst snd].
  - intros v d [Hv|[Hge Hv]]%lookup_app_Some.
    + rewrite lookup_insert_ne; [by apply He|]. intros ->. apply Hnew. apply list_elem_of_fmap. exists d. split; [done|]. by eapply list_elem_of_lookup_2.
    + destruct (v - length ds)%nat eqn:Ev; [|done]. injection Hv as <-. cbn. assert (v = length ds) as -> by lia. rewrite lookup_insert_eq, bool_decide_true by done.
      assert (undelivered pe (length ds) = None) as ->.
      { destruct pe as [[w p]|]; [|done]. cbn. by rewrite (proj2 (Nat.eqb_neq _ _)) by (by eapply Hpe). }
      constructor; cbn; try done; auto. intros _. by exists [].
  - rewrite map_app. apply NoDup_app. split_and!; [done| |apply NoDup_singleton]. intros c Hin ->%list_elem_of_singleton. done.
  - intros c v. destruct (decide (c = conn)) as [->|Hne].
    + rewrite lookup_insert_eq. intros [= <-]. eexists. split; [by apply list_lookup_middle|done].
    + rewrite lookup_insert_ne by done. intros (d & Hv & <-)%Hi. exists d. split; [by apply lookup_app_l_Some|done].
Qed.

Lemma dmove_ok s s' : dmove s s' -> downs_ok s -> downs_ok s'.
Proof.
  intros Hmove Hok. destruct Hmove as [ds ch v d payload Hv Hin|ds ch v d p Hv|ds ch v d p Hv Hin|ds ch v d Hv Hin|ds ch pe v d o Hv|ds ch pe v d o Hv
    |ds ch pe v d p l Hv Hp Hl|ds ch pe v d p w taken p' Hv Hp Ht Hp'|ds ch pe v d Hv Hp Hl|ds ch pe v d Hv|ds ch pe v d o Hv Hg|ds ch pe v d Hv Hg|ds ch pe conn Hnew Hpe].
  - apply (downs_ok_one _ _ _ _ _ _ _ _ Hok Hv); [done|by left|intros w Hw; cbn; by rewrite (proj2 (Nat.eqb_neq _ _)) by done|].
    pose proof (dn_each _ Hok _ _ Hv) as H. cbn [fst snd undelivered] in *. rewrite Hin, bool_decide_true in * by done. rewrite Nat.eqb_refl. by apply down_ok_data.
  - apply (downs_ok_one _ _ _ _ _ _ _ _ Hok Hv); [by destruct (gone d)|by left|intros w Hw; cbn; by rewrite (proj2 (Nat.eqb_neq _ _)) by done|].
    pose proof (dn_each _ Hok _ _ Hv) as H. cbn [fst snd undelivered] in *. rewrite Nat.eqb_refl in H. by apply down_ok_deliver.
  - pose proof (dn_each _ Hok _ _ Hv) as H. cbn [fst snd undelivered] in *. rewrite Nat.eqb_refl, bool_decide_false in H by (by rewrite Hin).
    rewrite <- (list_alter_id id ds v) by done. apply (downs_ok_one _ _ _ _ _ _ _ _ Hok Hv); [done|by left|intros w Hw; cbn; by rewrite (proj2 (Nat.eqb_neq _ _)) by done|].
    cbn [undelivered]. rewrite bool_decide_false by (by rewrite Hin). by eapply down_ok_drop.
  - apply (downs_ok_one _ _ _ _ _ _ _ _ Hok Hv); [by cbn; case_split|by right|done|].
    pose proof (dn_each _ Hok _ _ Hv) as H. cbn [fst snd undelivered] in *. rewrite Hin, bool_decide_true in H by done.
    rewrite bool_decide_false by (by rewrite lookup_delete_eq). by apply down_ok_end.
  - apply (downs_ok_one _ _ _ _ _ _ _ _ Hok Hv); [done|by right|done|]. pose proof (dn_each _ Hok _ _ Hv) as H. cbn [fst snd] in *.
    eapply down_ok_abort; [|exact H]. rewrite bool_decide_false by (by rewrite lookup_delete_eq). done.
  - apply (downs_ok_one _ _ _ _ _ _ _ _ Hok Hv); [done|by left|done|]. pose proof (dn_each _ Hok _ _ Hv) as H. cbn [fst snd] in H. by eapply down_ok_abort; [|exact H].
  - apply (downs_ok_one _ _ _ _ _ _ _ _ Hok Hv); [done|by left|done|]. pose proof (dn_each _ Hok _ _ Hv) as H. by apply down_ok_receive.
  - apply (downs_ok_one _ _ _ _ _ _ _ _ Hok Hv); [done|by left|done|]. pose proof (dn_each _ Hok _ _ Hv) as H. by eapply down_ok_write.
  - apply (downs_ok_one _ _ _ _ _ _ _ _ Hok Hv); [done|by left|done|]. pose proof (dn_each _ Hok _ _ Hv) as H. cbn [fst snd] in H. apply down_ok_shut; [done|done|].
    destruct Hl as [?|(? & ? & ?)]; [by left|right]. by rewrite bool_decide_false.
  - apply (downs_ok_one _ _ _ _ _ _ _ _ Hok Hv); [done|by left|done|]. pose proof (dn_each _ Hok _ _ Hv) as H. by apply down_ok_gone.
  - apply (downs_ok_one _ _ _ _ _ _ _ _ Hok Hv); [done|by right|done|]. pose proof (dn_each _ Hok _ _ Hv) as H. rewrite bool_decide_false by (by rewrite lookup_delete_eq).
    by eapply down_ok_leave.
  - rewrite <- (list_alter_id id ds v) by done. apply (downs_ok_one _ _ _ _ _ _ _ _ Hok Hv); [done|by right|done|]. pose proof (dn_each _ Hok _ _ Hv) as H. rewrite bool_decide_false by (by rewrite lookup_delete_eq).
    destruct H as [H1 H2 H3 H4 H5 H6 H7 H8]. constructor; cbn [id] in *; try done; rewrite Hg; done.
  - by apply downs_ok_open.
Qed.

(** *** Every step of a bridge that is not cancelled is made of these *)

Definition undelivered_of (d : Reader) : option (nat * bytes) := (fun p => (pe_visitor p, pe_payload p)) <$> pending_of d.
Definition down_abs (r : Relay) : Downs := (downs r, re_channels r, undelivered_of (re_reader r)).

Lemma downs_upd v f r : (forall x, down_side (f x) = down_side x) -> downs (upd v f r) = downs r.
Proof. intros Hf. unfold downs. cbn. rewrite (alter_map down_side f id) by done. apply list_alter_id. done. Qed.
Lemma downs_upd_with v f g r : (forall x, down_side (f x) = g (down_side x)) -> downs (upd v f r) = alter g v (downs r).
Proof. intros Hf. unfold downs. cbn. by apply alter_map. Qed.
Lemma downs_to_phase v p r : downs (upd v (set_phase p) r) = alter (d_phase (down_phase p)) v (downs r).
Proof. by apply downs_upd_with. Qed.
Lemma downs_finish v o a r : downs (upd v (finish_visitor o a) r) = alter (d_finish o a) v (downs r).
Proof. by apply downs_upd_with. Qed.
Lemma downs_lookup v x r : re_visitors r !! v = Some x -> downs r !! v = Some (down_side x).
Proof. intros Hv. unfold downs. by rewrite list_lookup_fmap, Hv. Qed.
Lemma downs_none v r : re_visitors r !! v = None -> downs r !! v = None.
Proof. intros Hv. unfold downs. by rewrite list_lookup_fmap, Hv. Qed.
Lemma downs_visitors r r' : re_visitors r' = re_visitors r -> downs r' = downs r.
Proof. unfold downs. by intros ->. Qed.
Lemma downs_set_budgets i o b r : downs (set_budgets i o b r) = downs r.
Proof. done. Qed.
Lemma downs_drop_down v now r : downs (drop_down v now r) = alter (d_queue []) v (downs r).
Proof.
  unfold drop_down. destruct (re_visitors r !! v) as [x|] eqn:Hv; [|by rewrite alter_None by by apply downs_none].
  rewrite (downs_upd_with _ _ (d_queue [])) by done. f_equal. case_split; [|done]. unfold give_back. by rewrite downs_upd.
Qed.
Lemma receiving_gone x : receiving x = negb (gone (down_side x)).
Proof. unfold receiving, gone. cbn. by destruct (vi_phase x) as [| |up []|]. Qed.
Definition d_deliver (payload : bytes) (d : DownSide) : DownSide := if gone d then d else d_queue (ds_inbound d ++ [IData payload]) d.
Lemma downs_deliver p now r : downs (deliver p now r) = alter (d_deliver (pe_payload p)) (pe_visitor p) (downs r).
Proof.
  unfold deliver. destruct (re_visitors r !! pe_visitor p) as [x|] eqn:Hv; [|by rewrite alter_None by by apply downs_none].
  pose proof (downs_lookup _ _ _ Hv) as Hd. rewrite receiving_gone. destruct (gone (down_side x)) eqn:Eg; cbn [negb].
  - unfold give_back. rewrite downs_upd by done. symmetry. apply (alter_same _ _ _ _ Hd). unfold d_deliver. by rewrite Eg.
  - rewrite (downs_upd_with _ _ (fun d => d_queue (ds_inbound d ++ [IData (pe_payload p)]) d)) by done. apply list_eq. intros w.
    destruct (decide (pe_visitor p = w)) as [<-|]; [|by rewrite !list_lookup_alter_ne]. rewrite !list_lookup_alter_eq, Hd. cbn. unfold d_deliver. by rewrite Eg.
Qed.
Lemma downs_starts_waiting p now r : downs (starts_waiting p now r) = downs r.
Proof. unfold starts_waiting. case_match; [by apply downs_upd|done]. Qed.
Lemma downs_give_back_wait p k r : downs (give_back_wait p k r) = downs r.
Proof. unfold give_back_wait. destruct (1 <=? k)%nat, (2 <=? k)%nat; rewrite ?downs_set_budgets, ?downs_upd by done; done. Qed.
Lemma downs_drop_up v r : downs (drop_up v r) = downs r.
Proof. unfold drop_up, with_visitor. repeat case_match; done. Qed.
Lemma downs_try_hold m v n r r' : try_hold m v n r = Some r' -> downs r' = downs r.
Proof. unfold try_hold. destruct (_ !! _); cbn; [|done]. case_split; [|done]. intros [= <-]. by rewrite downs_upd. Qed.
Lemma downs_send m r : downs (send m r) = downs r.
Proof. apply downs_visitors, visitors_send. Qed.
Lemma downs_try_send m r : downs (try_send m r) = downs r.
Proof. apply downs_visitors, visitors_try_send. Qed.
Lemma downs_set_reader d r : downs (set_reader d r) = downs r.
Proof. done. Qed.
Lemma downs_leave c r : downs (leave c r) = downs r.
Proof. done. Qed.
Lemma downs_give_back_out k n r : downs (give_back_out k n r) = downs r.
Proof. done. Qed.
Lemma downs_set_rqueue q r : downs (set_rqueue q r) = downs r.
Proof. done. Qed.
Lemma downs_close_queue r : downs (close_queue r) = downs r.
Proof. apply downs_visitors, visitors_close_queue. Qed.
Create Rewrite HintDb relay_downs.
Hint Rewrite downs_set_budgets downs_drop_down downs_deliver downs_starts_waiting downs_give_back_wait downs_drop_up downs_send downs_try_send downs_set_reader
  downs_leave downs_give_back_out downs_set_rqueue downs_to_phase downs_finish downs_close_queue : relay_downs.

Ltac downs_norm :=
  repeat first
    [ progress autorewrite with relay_downs
    | rewrite downs_upd by (intros; repeat case_match; done)
    | match goal with H : try_hold _ _ _ _ = Some ?r' |- context [downs ?r'] => rewrite (downs_try_hold _ _ _ _ _ H) end ].
Ltac channels_norm := repeat first [progress project | see_through re_channels channels_reshaped | progress autorewrite with relay_channels].
Ltac reader_norm := repeat first [progress project | see_through re_reader reader_reshaped | progress autorewrite with relay_reader].
Ltac downs_kept :=
  downs_norm; try done;
  match goal with
  | Hv : re_visitors ?r !! ?v = Some ?x |- alter _ ?v (downs ?r) = downs ?r =>
      apply (alter_same _ _ _ _ (downs_lookup _ _ _ Hv)); unfold d_phase, down_side; cbn;
      repeat match goal with H : vi_phase x = _ |- _ => rewrite H end; done
  end.

Lemma down_abs_eq r r' : downs r' = downs r -> re_channels r' = re_channels r -> undelivered_of (re_reader r') = undelivered_of (re_reader r) ->
  rtc dmove (down_abs r) (down_abs r').
Proof. unfold down_abs. by intros -> -> ->. Qed.

Definition down_event (e : Event) : bool :=
  match e with
  | EvData _ _ | EvAcquire | EvResetNext _ | EvReaderCancelled | EvControl _ | EvOpened _ _ _ _ | EvAccepted _ false | EvReadFailed _ | EvUploadSends _
  | EvReceive _ | EvWriteSome _ _ | EvWriteFailed _ | EvDownloadAborted _ | EvDone _ | EvIdle _ | EvFinishAll _ => true
  | _ => false
  end.

Lemma undelivered_resets todo p : undelivered_of (resets todo p) = (fun p => (pe_visitor p, pe_payload p)) <$> p.
Proof. by destruct todo, p. Qed.

Lemma down_same_step t r e : down_event e.1 = false -> rtc dmove (down_abs r) (down_abs (step t r e)).
Proof.
  destruct e as [e now]. cbn [fst]. intros He. destruct (match e with EvWrite _ => true | _ => false end) eqn:Ew.
  { destruct e; try done. apply down_abs_eq; [apply downs_visitors, visitors_write|..]; open_step; repeat case_match; (by channels_norm) || (by reader_norm). }
  destruct e; try done; open_step; repeat case_match; try done.
  all: apply down_abs_eq; [by downs_kept|by channels_norm|reader_norm; rewrite ?undelivered_resets; (done || (repeat match goal with H : re_reader _ = _ |- _ => rewrite H end; done))].
Qed.

Lemma conns_visitor r c v : conns r !! v = Some c -> exists x, re_visitors r !! v = Some x /\ vi_conn x = c.
Proof. unfold conns. rewrite list_lookup_fmap. destruct (re_visitors r !! v) as [x|]; [|done]. intros [= <-]. eauto. Qed.
Lemma wired_channel r c v : wired r -> re_channels r !! c = Some v -> exists x, re_visitors r !! v = Some x /\ vi_conn x = c.
Proof. intros Hw Hc. by apply conns_visitor, (wi_channels _ Hw). Qed.
Lemma wired_pending r p : wired r -> pending_of (re_reader r) = Some p -> exists x, re_visitors r !! pe_visitor p = Some x /\ vi_conn x = pe_conn p.
Proof.
  intros Hw Hp. apply conns_visitor, (wi_refs _ Hw). destruct (re_reader r) as [|q k u|todo q|m v todo q|]; cbn in *; simplify_eq; cbn; [by left|apply elem_of_app; right; by left..].
Qed.

Lemma gone_then_abort r r' v x outcome : re_visitors r !! v = Some x ->
  downs r' = alter (d_finish outcome true) v (alter (fun d => d_phase DpGone (d_queue [] d)) v (downs r)) ->
  re_channels r' = delete (vi_conn x) (re_channels r) -> undelivered_of (re_reader r') = undelivered_of (re_reader r) ->
  rtc dmove (down_abs r) (down_abs r').
Proof.
  intros Hv Ed Ec Eu. unfold down_abs. rewrite Ed, Ec, Eu. eapply rtc_l; [eapply dm_gone; by apply downs_lookup|].
  apply rtc_once. eapply (dm_abort _ _ _ _ (d_phase DpGone (d_queue [] (down_side x)))). by rewrite list_lookup_alter_eq, (downs_lookup _ _ _ Hv).
Qed.

(** The reader: data, the end or a reset of a connection, and the resets of those that stalled. *)
Lemma down_data frame m now r : wired r -> rtc dmove (down_abs r) (down_abs (data frame m now r)).
Proof.
  intros Hw. unfold data. destruct (re_reader r) eqn:Er; try done. destruct (decode_data_frame frame) as [[conn payload]|]; [|done].
  destruct (re_channels r !! conn) as [v|] eqn:Hc; [|done]. destruct (wired_channel _ _ _ Hw Hc) as (x & Hv & Hconn). rewrite Hv. cbv zeta.
  eapply rtc_l.
  { unfold down_abs. rewrite Er. apply (dm_data _ _ v (down_side x) payload); [by apply downs_lookup|]. by rewrite <- Hconn in Hc. }
  set (r1 := starts_waiting _ _ _). assert (downs r1 = alter (d_received (ds_received (down_side x) ++ payload) (ds_ended (down_side x))) v (downs r)) as Ed.
  { unfold r1. rewrite downs_starts_waiting, (downs_upd_with _ _ (fun d => d_received (ds_received d ++ payload) (ds_ended d) d)) by done.
    apply list_eq. intros w. destruct (decide (v = w)) as [<-|]; [|by rewrite !list_lookup_alter_ne]. by rewrite !list_lookup_alter_eq, (downs_lookup _ _ _ Hv). }
  rewrite <- Ed. destruct (try_hold m v (blen payload) r1) as [r2|] eqn:Eh.
  - apply rtc_once. unfold down_abs. downs_norm. channels_norm. reader_norm. unfold r1. channels_norm. reader_norm. rewrite Er.
    eapply dm_deliver. fold r1. rewrite Ed, list_lookup_alter_eq, (downs_lookup _ _ _ Hv). done.
  - unfold down_abs. downs_norm. channels_norm. unfold r1 at 3. channels_norm. done.
Qed.

Lemma down_acquire now r : wired r -> rtc dmove (down_abs r) (down_abs (acquire now r)).
Proof.
  intros Hw. unfold acquire. destruct (re_reader r) as [|p k u| | |] eqn:Er; try done. destruct (wired_pending r p Hw) as (x & Hv & Hc); [by rewrite Er|]. rewrite Hv.
  destruct k as [|[|[|]]]; try done; (case_split; [|done]); try (apply down_abs_eq; [by downs_norm|by channels_norm|reader_norm; by rewrite Er]).
  apply rtc_once. unfold down_abs. downs_norm. channels_norm. reader_norm. rewrite Er. eapply dm_deliver. by apply downs_lookup.
Qed.

Lemma down_reset conn v todo p x r : re_visitors r !! v = Some x -> vi_conn x = conn -> pending_of (re_reader r) = p ->
  rtc dmove (down_abs r) (down_abs (reset conn v todo p r)).
Proof.
  intros Hv <- Hp. apply rtc_once. unfold down_abs, reset. downs_norm. channels_norm. reader_norm. unfold undelivered_of at 2. cbn [pending_of]. rewrite <- Hp.
  eapply (dm_abort _ _ _ _ (down_side x)). by apply downs_lookup.
Qed.

Lemma down_reset_next m now r : wired r -> rtc dmove (down_abs r) (down_abs (reset_next m now r)).
Proof.
  intros Hw. unfold reset_next. destruct (re_reader r) as [| |[|[conn v] todo] [p|]| |] eqn:Er; try done.
  - destruct (wired_pending r p Hw) as (x & Hv & Hc); [by rewrite Er|]. destruct (re_channels r !! pe_conn p) as [w|] eqn:Hch.
    + destruct (try_hold m (pe_visitor p) (blen (pe_payload p)) (starts_waiting p now r)) as [r2|] eqn:Eh.
      * apply rtc_once. unfold down_abs. downs_norm. channels_norm. reader_norm. rewrite Er. eapply dm_deliver. by apply downs_lookup.
      * eapply rtc_r; [eapply (rtc_l _ _ (alter (d_finish Backpressure true) (pe_visitor p) (downs r), delete (vi_conn x) (re_channels r), undelivered_of (re_reader r)));
          [unfold down_abs; eapply (dm_abort _ _ _ _ (down_side x)); by apply downs_lookup|done]|].
        unfold down_abs, reset. downs_norm. channels_norm. reader_norm. rewrite Er, Hc.
        eapply (dm_drop _ _ _ (d_finish Backpressure true (down_side x))); [by rewrite list_lookup_alter_eq, (downs_lookup _ _ _ Hv)|]. cbn. by rewrite Hc, lookup_delete_eq.
    + apply rtc_once. unfold down_abs. downs_norm. channels_norm. reader_norm. rewrite Er. eapply dm_drop; [by apply downs_lookup|]. cbn. by rewrite Hc.
  - destruct (conns_visitor r conn v) as (x & Hv & Hc); [apply (wi_refs _ Hw); rewrite Er; by left|]. eapply down_reset; [exact Hv|done|by rewrite Er].
  - destruct (conns_visitor r conn v) as (x & Hv & Hc); [apply (wi_refs _ Hw); rewrite Er; by left|]. eapply down_reset; [exact Hv|done|by rewrite Er].
Qed.

Lemma down_control k r : wired r -> rtc dmove (down_abs r) (down_abs (control k r)).
Proof.
  intros Hw. unfold control. destruct (re_reader r) eqn:Er; try done. destruct k as [t|conn|conn]; [by apply down_abs_eq; [downs_norm|channels_norm|reader_norm; rewrite Er]| |].
  all: destruct (re_channels r !! conn) as [v|] eqn:Hc; [|done]; destruct (wired_channel _ _ _ Hw Hc) as (x & Hv & <-); apply rtc_once; unfold down_abs.
  - rewrite (downs_upd_with _ _ (fun d => let d := d_finish Closed false (d_received (ds_received d) true d) in if gone d then d else d_queue (ds_inbound d ++ [IEnd]) d)).
    + downs_norm. channels_norm. reader_norm. rewrite Er. eapply (dm_end _ _ _ (down_side x)); [by apply downs_lookup|done].
    + intros y. rewrite receiving_gone. cbn zeta. change (gone (down_side (set_received (vi_received y) true (finish_visitor Closed false y)))) with (gone (down_side y)).
      change (gone (d_finish Closed false (d_received (ds_received (down_side y)) true (down_side y)))) with (gone (down_side y)). by destruct (gone (down_side y)).
  - downs_norm. channels_norm. reader_norm. rewrite Er. eapply (dm_abort _ _ _ _ (down_side x)). by apply downs_lookup.
Qed.

(** The tasks of a connection. *)
Lemma sender_dead v r : sender_lives v r = false ->
  (forall c, re_channels r !! c <> Some v) /\ undelivered (undelivered_of (re_reader r)) v = None.
Proof.
  unfold sender_lives. intros [He Hr]%orb_false_iff. split.
  - intros c Hc. apply not_true_iff_false in He. apply He, existsb_exists. exists (c, v). split; [|by apply Nat.eqb_eq]. by apply list_elem_of_In, elem_of_map_to_list.
  - destruct (re_reader r) as [|p k u|todo [p|]|m w todo [p|]|]; try done; cbn in *; rewrite ?orb_false_iff in Hr; by (rewrite Hr || (destruct Hr as [_ Hr]; rewrite Hr)).
Qed.

Lemma down_receive v now r : rtc dmove (down_abs r) (down_abs (receive v now r)).
Proof.
  unfold receive, with_visitor. destruct (re_visitors r !! v) as [x|] eqn:Hv; [|done]. cbv zeta. pose proof (downs_lookup _ _ _ Hv) as Hd.
  destruct (vi_phase x) as [| |up [| |]|] eqn:Hp; try done. unfold to_phase.
  set (over := upd v (set_phase (Relaying up DDone)) _). assert ((exists l, vi_inbound x = IEnd :: l) \/ (vi_inbound x = [] /\ sender_lives v r = false) ->
    rtc dmove (down_abs r) (down_abs over)) as Hover.
  { intros Hl. apply rtc_once. unfold over, down_abs. downs_norm. rewrite (downs_upd_with _ _ (fun d => d_written (ds_written d) true d)), !list_alter_alter_eq by done. channels_norm. reader_norm.
    eapply (dm_shut _ _ _ _ (down_side x)); [done|cbn; by rewrite Hp|]. destruct Hl as [Hl|[Hl [Hc Hu]%sender_dead]]; [by left|right]. split_and!; [done|apply Hc|done]. }
  destruct (vi_inbound x) as [|[p|] l] eqn:Hi; [destruct (sender_lives v r) eqn:Es; [done|apply Hover; by right]| |apply Hover; left; eauto].
  apply rtc_once. unfold down_abs. downs_norm. rewrite (downs_upd_with _ _ (d_queue l)), list_alter_alter_eq by done. channels_norm. reader_norm.
  eapply (dm_receive _ _ _ _ (down_side x)); [done|cbn; by rewrite Hp|done].
Qed.

Lemma down_write_some v n now r : rtc dmove (down_abs r) (down_abs (write_some v n now r)).
Proof.
  unfold write_some, with_visitor. destruct (re_visitors r !! v) as [x|] eqn:Hv; [|done]. destruct (vi_phase x) as [| |up [|p w q a|]|] eqn:Hp; try done. cbv zeta. unfold to_phase, give_back.
  set (taken := take n (drop w p)). assert (taken `prefix_of` drop w p) as Ht by apply prefix_take.
  destruct (length p <=? w + length taken)%nat eqn:Hall; apply rtc_once; unfold down_abs; downs_norm; rewrite (downs_upd_with _ _ (fun d => d_written (ds_written d ++ taken) (ds_shut d) d)), list_alter_alter_eq by done;
    channels_norm; reader_norm; (eapply (dm_write _ _ _ _ (down_side x)); [by apply downs_lookup|cbn; by rewrite Hp|done|]).
  - right. split; [done|]. apply Nat.leb_le in Hall. destruct Ht as [rest Ht]. assert (length (drop w p) = length taken + length rest)%nat as Hl by (rewrite Ht; apply length_app).
    rewrite length_drop in Hl. destruct rest; [by rewrite Ht, app_nil_r|cbn in Hl; lia].
  - by left.
Qed.

Lemma down_opened forwarded conn initial start now r : wired r -> conn ∉ conns r -> rtc dmove (down_abs r) (down_abs (opened forwarded conn initial start now r)).
Proof.
  intros Hw Hf. unfold opened. destruct (re_channels r !! conn); [done|]. apply rtc_once. unfold down_abs, downs. cbn. rewrite map_app. cbn.
  replace (length (re_visitors r)) with (length (map down_side (re_visitors r))) by apply length_map.
  assert (forall v p, undelivered_of (re_reader r) = Some (v, p) -> v <> length (map down_side (re_visitors r))) as Hpe.
  { intros v p Hp ->. unfold undelivered_of in Hp. destruct (pending_of (re_reader r)) as [q|] eqn:Eq; [|done]. injection Hp as Hp <-.
    destruct (wired_pending _ _ Hw Eq) as (x & Hx & _). rewrite Hp in Hx. apply lookup_lt_Some in Hx. rewrite length_map in Hx. lia. }
  destruct forwarded; (apply dm_open; [by rewrite map_map|exact Hpe]).
Qed.

Lemma down_finish_all outcome r : wired r -> rtc dmove (down_abs r) (down_abs (finish_all outcome r)).
Proof.
  intros Hw. assert (forall l, (forall c v, (c, v) ∈ l -> re_channels r !! c = Some v) ->
    rtc dmove (down_abs r) (downs (foldr (fun cv => upd cv.2 (finish_visitor outcome true)) r l), foldr (fun cv => delete cv.1) (re_channels r) l, undelivered_of (re_reader r)) /\
    conns (foldr (fun cv => upd cv.2 (finish_visitor outcome true)) r l) = conns r) as H.
  { induction l as [|[c v] l IH]; intros Hl; [done|]. destruct IH as [IH Ec]; [intros; apply Hl; by right|]. cbn [foldr fst snd]. split; [|by rewrite conns_upd].
    eapply rtc_r; [exact IH|]. rewrite downs_finish. specialize (Hl c v ltac:(by left)). apply (wi_channels _ Hw) in Hl. rewrite <- Ec in Hl.
    destruct (conns_visitor _ _ _ Hl) as (x & Hx & <-). eapply (dm_abort _ _ _ _ (down_side x)). by apply downs_lookup. }
  destruct (H (map_to_list (re_channels r))) as [Hm _]; [intros c v; by rewrite elem_of_map_to_list|]. unfold down_abs at 2. rewrite reader_finish_all.
  replace (re_channels (finish_all outcome r)) with (foldr (fun cv => delete cv.1) (re_channels r) (map_to_list (re_channels r))); [exact Hm|]. cbn.
  apply map_eq. intros c. rewrite lookup_empty. destruct (re_channels r !! c) as [v|] eqn:Hc.
  - apply elem_of_map_to_list in Hc. revert Hc. generalize (map_to_list (re_channels r)) as l. induction l as [|[c' v'] l IH]; intros Hin; [by apply not_elem_of_nil in Hin|]. cbn.
    apply elem_of_cons in Hin as [[= <- <-]|Hin]; [by rewrite lookup_delete_eq|]. destruct (decide (c = c')) as [->|]; [by rewrite lookup_delete_eq|]. rewrite lookup_delete_ne by done. by apply IH.
  - generalize (map_to_list (re_channels r)) as l. induction l as [|[c' v'] l IH]; cbn; [done|]. destruct (decide (c = c')) as [->|]; [by rewrite lookup_delete_eq|]. by rewrite lookup_delete_ne.
Qed.

Lemma down_step_moves t r e : wired r -> (forall c, opened_conn e = Some c -> c ∉ conns r) -> re_cancelled r = false -> rtc dmove (down_abs r) (down_abs (step t r e)).
Proof.
  intros Hw Hf Hnc. destruct (down_event e.1) eqn:Ee; [|by apply down_same_step]. destruct e as [e now].
  destruct e as [frame m| | |m| | | |k| | | | |forwarded conn initial start|v [|]| | | |v| |v| |v|v n|v| |v|v|v|outcome|]; try done; clear Ee; cbn [step fst snd].
  - by apply down_data.
  - by apply down_acquire.
  - by apply down_reset_next.
  - unfold reader_cancelled. by rewrite Hnc.
  - by apply down_control.
  - apply down_opened; [done|by apply Hf].
  - (* accepted *) unfold accepted, with_visitor. destruct (re_visitors r !! v) as [x|] eqn:Hv; [|done]. destruct (vi_phase x); try done. unfold to_phase, down_abs.
    eapply rtc_l; [eapply dm_gone; by apply downs_lookup|]. apply rtc_once. downs_norm. rewrite list_alter_alter_eq. channels_norm. reader_norm.
    eapply (dm_forget _ _ _ _ (d_phase DpGone (d_queue [] (down_side x)))); [by rewrite list_lookup_alter_eq, (downs_lookup _ _ _ Hv)|done].
  - (* read_failed *) unfold read_failed, with_visitor. destruct (re_visitors r !! v) as [x|] eqn:Hv; [|done]. destruct (vi_phase x) as [| |[] down|] eqn:Hp; try done. cbv zeta. unfold to_phase.
    apply rtc_once. unfold down_abs. downs_norm. rewrite (alter_same (d_phase _) _ _ (down_side x)); [|by apply downs_lookup|unfold d_phase, down_side; cbn; by rewrite Hp].
    channels_norm. reader_norm. eapply (dm_abort _ _ _ _ (down_side x)). by apply downs_lookup.
  - (* upload_sends *) unfold upload_sends, with_visitor. destruct (re_visitors r !! v) as [x|] eqn:Hv; [|done]. unfold to_phase.
    destruct (vi_phase x) as [| |[|chunk [|[|[|]]]| |] down|] eqn:Hp; try done; [|destruct (can_send r); [|done]; apply down_abs_eq; [by downs_kept|by channels_norm|by reader_norm]].
    destruct (re_open r); [destruct (room r); [|done]; apply down_abs_eq; [by downs_kept|by channels_norm|by reader_norm]|].
    apply rtc_once. unfold down_abs. downs_norm. rewrite list_alter_alter_eq. channels_norm. reader_norm.
    replace (alter _ v (downs r)) with (alter (d_finish BridgeDisconnected true) v (downs r)); [eapply dm_disconnect; by apply downs_lookup|].
    apply list_eq. intros w. destruct (decide (v = w)) as [<-|]; [|by rewrite !list_lookup_alter_ne]. rewrite !list_lookup_alter_eq, (downs_lookup _ _ _ Hv). cbn. f_equal.
    unfold d_phase, d_finish, down_side. cbn. by rewrite Hp.
  - by apply down_receive.
  - by apply down_write_some.
  - (* write_failed *) unfold write_failed, with_visitor. destruct (re_visitors r !! v) as [x|] eqn:Hv; [|done]. destruct (vi_phase x) as [| |up []|]; try done. cbv zeta. unfold to_phase.
    eapply gone_then_abort; [exact Hv|downs_norm; by rewrite !list_alter_alter_eq|by channels_norm|by reader_norm].
  - (* download_aborted *) unfold download_aborted, with_visitor. destruct (re_visitors r !! v) as [x|] eqn:Hv; [|done]. case_split; [|done].
    destruct (vi_phase x) as [| |up []|]; try done; unfold to_phase, down_abs; downs_norm; rewrite list_alter_alter_eq; channels_norm; reader_norm;
      apply rtc_once; eapply dm_gone; by apply downs_lookup.
  - (* done *) unfold done, with_visitor. destruct (re_visitors r !! v) as [x|] eqn:Hv; [|done]. destruct (vi_phase x) as [| |[] []|] eqn:Hp; try done. unfold to_phase.
    apply rtc_once. unfold down_abs. downs_norm. rewrite (alter_same (d_phase _) _ _ (down_side x)); [|by apply downs_lookup|unfold d_phase, down_side; cbn; by rewrite Hp].
    channels_norm. reader_norm. eapply (dm_leave _ _ _ _ (down_side x)); [by apply downs_lookup|unfold gone; cbn; by rewrite Hp].
  - (* idle *) unfold idle, with_visitor. destruct (re_visitors r !! v) as [x|] eqn:Hv; [|done]. destruct (vi_phase x) as [| |up down|] eqn:Hp; try done. case_split; [|done]. cbv zeta. unfold to_phase.
    eapply gone_then_abort; [exact Hv|downs_norm|by channels_norm|by reader_norm]. by rewrite !list_alter_alter_eq.
  - by apply down_finish_all.
Qed.

Lemma cancelled_send m r : re_cancelled (send m r) = re_cancelled r.
Proof. unfold send. by case_split. Qed.
Lemma cancelled_try_send m r : re_cancelled (try_send m r) = re_cancelled r.
Proof. unfold try_send. by case_split. Qed.
Lemma cancelled_close_queue r : re_cancelled (close_queue r) = re_cancelled r.
Proof. unfold close_queue. by rewrite release_messages_sum. Qed.
Lemma cancelled_finish_all outcome r : re_cancelled (finish_all outcome r) = re_cancelled r.
Proof. unfold finish_all. cbn. generalize (map_to_list (re_channels r)) as l. by induction l as [|cv l IH]. Qed.
Create Rewrite HintDb relay_cancelled.
Hint Rewrite cancelled_send cancelled_try_send cancelled_close_queue cancelled_finish_all : relay_cancelled.

Lemma cancelled_stays t r e : re_cancelled (step t r e) = false -> re_cancelled r = false.
Proof.
  destruct (re_cancelled r) eqn:Ec; [|done]. assert (re_cancelled (step t r e) = true) as ->; [|done]. destruct e as [e now]. destruct e; open_step.
  all: unfold opened; repeat case_match; repeat first [progress project | see_through re_cancelled cancelled_reshaped | progress autorewrite with relay_cancelled]; done.
Qed.

Lemma downs_run t machine start events : numbered events -> re_cancelled (run t machine start events) = false -> downs_ok (down_abs (run t machine start events)).
Proof.
  intros Hn. apply (run_invariant (fun r => re_cancelled r = false -> downs_ok (down_abs r)) t machine start events); [|clear machine start events Hn|done].
  - intros _. constructor; cbn; [done|constructor|]. intros c v. by rewrite lookup_empty.
  - intros r e Hw Hf Hi Hc. pose proof (cancelled_stays _ _ _ Hc) as Hc0. pose proof (down_step_moves t r e Hw Hf Hc0) as Hm.
    specialize (Hi Hc0). revert Hi. induction Hm; eauto using dmove_ok.
Qed.

(** C8: what a visitor gets is what the client sent it, while the bridge is not cancelled: at every moment the bytes its socket took
    are a prefix of those of the client's data frames for its connection, in order, whatever had to wait for memory and was tried
    again; a connection that was shut down without being reset got all of them, and the client had ended it. *)
Theorem download_in_order t machine start events v x :
  numbered events -> re_cancelled (run t machine start events) = false -> re_visitors (run t machine start events) !! v = Some x ->
  vi_written x `prefix_of` vi_received x /\
  (vi_shut x = true -> aborted x = false -> vi_ended x = true /\ vi_written x = vi_received x).
Proof.
  intros Hn Hc Hv. pose proof (dn_each _ (downs_run t machine start events Hn Hc) _ _ (downs_lookup _ _ _ Hv)) as [Hg _ Hs _ _ _ _ Hsh].
  split; [|exact Hsh]. destruct (gone (down_side x)) eqn:Eg; [by apply Hg|]. etransitivity; [|by apply Hs]. by eexists.
Qed.

(** ** Runs *)

Module RelayDemo.

(** A visitor sends its hello and a request, the client answers while others hold all but two bytes of the machine's memory;
    the answer waits until they give it back. *)
Definition start : Start := mkStart "192.0.2.1:5000" "www.example.com" "h2".
Definition at_start (l : list Event) : list (Event * Z) := map (fun e => (e, 1000)) l.
Definition opening : list Event := [EvOpened false 7 [22; 3; 1] start; EvOpenNext 0; EvOpenNext 0; EvOpenNext 0].
Definition request : list Event := [EvRead 0 [71; 69; 84]; EvHold 0; EvHold 0; EvUploadSends 0; EvReadEnd 0; EvUploadSends 0; EvWrite true; EvWrite true; EvWrite true; EvWrite true].
Definition answer : list Event :=
  [EvOthers 1022; EvData (encode_data_frame 7 [72; 84; 84; 80]) true; EvAcquire; EvAcquire; EvOthers (-1000); EvAcquire; EvControl (KEnd 7);
   EvReceive 0; EvWriteSome 0 3; EvWriteSome 0 3; EvReceive 0; EvDone 0].
Definition visit : list (Event * Z) := at_start (opening ++ request ++ answer).

Example visited : exists x, re_visitors (run default_timeouts 1024 0 visit) !! 0%nat = Some x /\ vi_phase x = Over /\ vi_written x = [72; 84; 84; 80] /\ vi_shut x = true /\
  view 7 (re_socket (run default_timeouts 1024 0 visit)) = [Some 22; Some 3; Some 1; Some 71; Some 69; Some 84; None].
Proof. eexists. split_and!; vm_compute; reflexivity. Qed.

Lemma visit_numbered : numbered visit.
Proof. unfold numbered. replace (omap opened_conn visit) with [7] by (vm_compute; reflexivity). apply NoDup_singleton. Qed.
Lemma memory_bounded_witness : let r := run default_timeouts 1024 0 visit in
  re_inbound r = BRIDGE_BUDGET /\ re_outbound r = OUTBOUND_BUDGET /\ re_buffer r + re_others r = 1024.
Proof.
  destruct (memory_bounded 1024 0 default_timeouts visit ltac:(lia)) as (_ & _ & _ & _ & H).
  destruct H as (H1 & H2 & H3 & _); [vm_compute; reflexivity..|]. cbv zeta. auto.
Defined.

Lemma upload_in_order_witness : exists x, re_visitors (run default_timeouts 1024 0 visit) !! 0%nat = Some x /\ vi_eof x = true /\
  view (vi_conn x) (re_socket (run default_timeouts 1024 0 visit)) = map Some (vi_read x) ++ [None].
Proof.
  eexists. split; [vm_compute; reflexivity|]. eapply (upload_in_order _ _ _ _ 0); [exact visit_numbered|vm_compute; reflexivity|].
  eapply (list_elem_of_lookup_2 _ 6). vm_compute. reflexivity.
Defined.

Lemma download_in_order_witness : exists x, re_visitors (run default_timeouts 1024 0 visit) !! 0%nat = Some x /\ vi_ended x = true /\ vi_written x = vi_received x.
Proof.
  eexists. split; [vm_compute; reflexivity|].
  eapply (download_in_order default_timeouts 1024 0 visit 0); [exact visit_numbered|vm_compute; reflexivity|vm_compute; reflexivity|vm_compute; reflexivity|vm_compute; reflexivity].
Defined.

(** The client's answer in two frames: the first finds no memory, then the socket cannot be written, which cancels the bridge. *)
Definition cut : list Event :=
  [EvOthers 1022; EvData (encode_data_frame 7 [72; 84; 84; 80]) true; EvWrite false; EvReaderCancelled;
   EvData (encode_data_frame 7 [49]) true; EvReceive 0; EvWriteSome 0 1].
Definition cut_visit : list (Event * Z) := at_start (opening ++ cut).

End RelayDemo.

(** C40: a reader that waits for memory when the bridge is cancelled drops its data and does not reset the connection: the session may
    read one more message before it sees that it is over, and the visitor gets bytes with those before them missing. *)
Theorem cancelled_reader_skips :
  exists events x, numbered events /\ re_visitors (run default_timeouts 1024 0 events) !! 0%nat = Some x /\ aborted x = false /\
    vi_received x = [72; 84; 84; 80; 49] /\ vi_written x = [49].
Proof.
  exists RelayDemo.cut_visit. eexists. split_and!; [|vm_compute; reflexivity..].
  unfold numbered. replace (omap opened_conn RelayDemo.cut_visit) with [7] by (vm_compute; reflexivity). apply NoDup_singleton.
Qed.
