(* ===== verification/Splice.v ===== *)
(** * Splice: copying between two sockets and the end of quiet connections, [net.rs]

    A visitor that another machine carries is copied between its socket and that machine's, both directions at once, until
    both ended, one failed or nothing moved for too long. Each event is what one of the two copies does between two points
    where it waits. The loop of [Activity::expired] is run against any history of the connection. *)

From Stdlib Require Import ZArith Lia List.
From stdpp Require Import base list.
From S2P Require Import Prelude Relay.

(** ** [expired] *)

(** The loop, from [now] on: [history] is what the connection's activity is at each time. *)
Fixpoint expired (fuel : nat) (t : Timeouts) (history : Z -> Activity) (now : Z) : option Z :=
  match fuel with
  | O => None
  | S fuel => match expired_turn t (history now) now with None => Some now | Some wake => expired fuel t history wake end
  end.

(** ** [copy] and [splice] *)

Definition COPY_BUFFER : nat := Z.to_nat (32 * 1024).

(** A direction reads, writes a chunk it read, or shuts the other side down. *)
Inductive CopyPhase := CReading | CWriting (chunk : bytes) | CShutting | CDone.
Record Copy := mkCopy { cp_phase : CopyPhase; cp_read : bytes; cp_eof : bool; cp_written : bytes }.
Inductive Outcome := SpliceOk | SpliceFailed | SpliceIdle.
Record Spliced := mkSpliced { sp_forward : Copy; sp_backward : Copy; sp_activity : Activity; sp_end : option Outcome }.

Definition start_copy : Copy := mkCopy CReading [] false [].
Definition start_splice (now : Z) : Spliced := mkSpliced start_copy start_copy (mkActivity now false) None.

Definition copy_of (back : bool) (s : Spliced) : Copy := if back then sp_backward s else sp_forward s.
Definition with_copy (back : bool) (c : Copy) (s : Spliced) : Spliced :=
  if back then mkSpliced (sp_forward s) c (sp_activity s) (sp_end s) else mkSpliced c (sp_backward s) (sp_activity s) (sp_end s).
Definition active (f : Activity -> Activity) (s : Spliced) : Spliced := mkSpliced (sp_forward s) (sp_backward s) (f (sp_activity s)) (sp_end s).
Definition finished (s : Spliced) : bool :=
  match cp_phase (sp_forward s), cp_phase (sp_backward s) with CDone, CDone => true | _, _ => false end.
Definition ended (o : Outcome) (s : Spliced) : Spliced := mkSpliced (sp_forward s) (sp_backward s) (sp_activity s) (Some o).

(** What may happen: a read gives a chunk or the end, the socket takes some bytes of a write, the shutdown is done, any of them
    fails, or the connection is looked at for having been quiet. *)
Inductive SpliceEvent := SeRead (chunk : bytes) | SeEof | SeWrite (n : nat) | SeShut | SeFail.

Definition copy_step (back : bool) (e : SpliceEvent) (now : Z) (s : Spliced) : Spliced :=
  let c := copy_of back s in
  match cp_phase c, e with
  | CReading, SeRead chunk =>
      if (0 <? length chunk)%nat && (length chunk <=? COPY_BUFFER)%nat
      then with_copy back (mkCopy (CWriting chunk) (cp_read c ++ chunk) (cp_eof c) (cp_written c)) s else s
  | CReading, SeEof => active (half_close now) (with_copy back (mkCopy CShutting (cp_read c) true (cp_written c)) s)
  | CWriting chunk, SeWrite n =>
      let taken := take n chunk in
      if (length chunk <=? n)%nat
      then active (touch now) (with_copy back (mkCopy CReading (cp_read c) (cp_eof c) (cp_written c ++ taken)) s)
      else with_copy back (mkCopy (CWriting (drop n chunk)) (cp_read c) (cp_eof c) (cp_written c ++ taken)) s
  | CShutting, SeShut =>
      let s := with_copy back (mkCopy CDone (cp_read c) (cp_eof c) (cp_written c)) s in
      if finished s then ended SpliceOk s else s
  | (CReading | CWriting _ | CShutting), SeFail => ended SpliceFailed s
  | _, _ => s
  end.

Definition splice_step (t : Timeouts) (s : Spliced) (e : option (bool * SpliceEvent) * Z) : Spliced :=
  match sp_end s, e with
  | Some _, _ => s
  | None, (Some (back, e), now) => copy_step back e now s
  | None, (None, now) => if quiet t (sp_activity s) now then ended SpliceIdle s else s
  end.
Definition splice (t : Timeouts) (start : Z) (events : list (option (bool * SpliceEvent) * Z)) : Spliced := fold_left (splice_step t) events (start_splice start).

(** ** Both directions are copied in order *)

Definition unwritten (c : Copy) : bytes := match cp_phase c with CWriting chunk => chunk | _ => [] end.
Record copy_ok (c : Copy) : Prop := mkCopyOk {
  co_all : cp_read c = cp_written c ++ unwritten c;
  co_eof : cp_eof c = true <-> (cp_phase c = CShutting \/ cp_phase c = CDone);
}.
Record splice_ok (s : Spliced) : Prop := mkSpliceOk {
  so_forward : copy_ok (sp_forward s);
  so_backward : copy_ok (sp_backward s);
  so_end : sp_end s = Some SpliceOk <-> finished s = true;
}.

Lemma copy_ok_of back s : splice_ok s -> copy_ok (copy_of back s).
Proof. intros [Hf Hb _]. by destruct back. Qed.

Lemma splice_ok_with back c s : splice_ok s -> copy_ok c -> sp_end s = None -> finished (with_copy back c s) = false -> splice_ok (with_copy back c s).
Proof. intros [Hf Hb He] Hc Hn Hd. constructor; [by destruct back..|]. rewrite Hd. destruct back; cbn; rewrite Hn; done. Qed.

Lemma splice_ok_active f s : splice_ok s -> splice_ok (active f s).
Proof. by intros []. Qed.

Lemma not_finished back c s : cp_phase c <> CDone -> finished (with_copy back c s) = false.
Proof. unfold finished. destruct back; cbn; [destruct (cp_phase (sp_forward s))|]; by destruct (cp_phase c). Qed.

Lemma splice_ok_step t s e : splice_ok s -> splice_ok (splice_step t s e).
Proof.
  intros Hs. unfold splice_step. destruct (sp_end s) eqn:En; [done|]. assert (finished s = false) as Hnf.
  { destruct (finished s) eqn:E; [|done]. apply (so_end _ Hs) in E. congruence. }
  assert (forall o, o <> SpliceOk -> splice_ok (ended o s)) as Hend.
  { intros o Ho. destruct Hs as [Hf Hb He]. constructor; [done..|]. cbn. change (finished (ended o s)) with (finished s). rewrite Hnf. split; [by intros [=]|done]. }
  destruct e as [[[back e]|] now]; [|case_split; [by apply Hend|done]]. unfold copy_step. cbv zeta.
  pose proof (copy_ok_of back s Hs) as [Ha He]. destruct (copy_of back s) as [ph rd eof wr]. unfold unwritten in Ha. cbn [cp_phase cp_read cp_eof cp_written] in *.
  destruct ph as [|chunk| |]; destruct e as [new| |n| |]; try done; try (by apply Hend).
  - case_split; [|done]. apply splice_ok_with; [done| |done|by apply not_finished]. constructor; cbn; [by rewrite Ha, app_nil_r|]. rewrite He. naive_solver.
  - apply splice_ok_active, splice_ok_with; [done| |done|by apply not_finished]. constructor; cbn; [by rewrite Ha|naive_solver].
  - destruct (length chunk <=? n)%nat eqn:En'.
    + apply splice_ok_active, splice_ok_with; [done| |done|by apply not_finished]. apply Nat.leb_le in En'. rewrite take_ge by done. constructor; cbn; [by rewrite app_nil_r|naive_solver].
    + apply splice_ok_with; [done| |done|by apply not_finished]. constructor; cbn; [by rewrite <- app_assoc, take_drop|naive_solver].
  - set (c := mkCopy CDone rd eof wr). assert (copy_ok c) as Hc by (constructor; cbn; [done|naive_solver]). destruct (finished (with_copy back c s)) eqn:Ef.
    + destruct Hs as [Hf Hb _]. constructor; [by destruct back..|]. split; [done|]. by destruct back.
    + by apply splice_ok_with.
Qed.

Lemma splice_ok_run t start events : splice_ok (splice t start events).
Proof.
  unfold splice. assert (splice_ok (start_splice start)) as H by (repeat constructor; cbn; naive_solver). revert H. generalize (start_splice start) as s.
  induction events as [|e events IH]; intros s Hs; cbn [fold_left]; [done|]. by apply IH, splice_ok_step.
Qed.

(** A visitor carried by another machine and its bridge there get what the other sent: at every moment each side was written a prefix
    of what was read from the other, in order; the copying ends well exactly when both sides ended and everything was written. *)
Theorem splice_in_order t start events back :
  let s := splice t start events in let c := copy_of back s in
  cp_written c `prefix_of` cp_read c /\
  (sp_end s = Some SpliceOk <-> finished s = true) /\
  (sp_end s = Some SpliceOk -> cp_eof c = true /\ cp_written c = cp_read c).
Proof.
  cbv zeta. pose proof (splice_ok_run t start events) as Hs. set (s := splice t start events) in *. pose proof (copy_ok_of back s Hs) as [Ha He].
  split_and!; [by eexists|apply Hs|]. intros Hok%(so_end _ Hs). assert (cp_phase (copy_of back s) = CDone) as Hp.
  { unfold finished in Hok. destruct (cp_phase (sp_forward s)) eqn:E1, (cp_phase (sp_backward s)) eqn:E2; try done. by destruct back. }
  split; [apply He; by right|]. rewrite Ha. unfold unwritten. by rewrite Hp, app_nil_r.
Qed.

(** ** Quiet connections end in time *)

(** A history of a connection that moved, or was half-closed, at [last] and not since; nothing is said of what was before. *)
Definition settles (history : Z -> Activity) (last : Z) : Prop := forall x, last <= x -> history x = mkActivity last (ac_half_closed (history last)).
Definition limit (t : Timeouts) (half_closed : bool) : Z := if half_closed then to_half_close t else to_idle t.

Lemma deadline_settled t history last now : settles history last -> last <= now -> deadline t (history now) = last + limit t (ac_half_closed (history last)).
Proof. intros Hs Hn. rewrite (Hs now Hn). done. Qed.

Lemma expired_loop t history last fuel now :
  0 < to_half_close t <= to_idle t -> settles history last ->
  now <= last + limit t (ac_half_closed (history last)) ->
  (Z.to_nat (last + limit t (ac_half_closed (history last)) - now) < fuel)%nat ->
  exists T, expired fuel t history now = Some T /\ now <= T <= last + limit t (ac_half_closed (history last)) /\ deadline t (history T) <= T.
Proof.
  intros Ht Hs. revert now. induction fuel as [|fuel IH]; intros now Hle Hf; [lia|]. cbn [expired]. unfold expired_turn.
  destruct (deadline t (history now) <=? now) eqn:Ed; [exists now; split_and!; [done|lia|done|lia]|]. apply Z.leb_gt in Ed.
  set (wake := Z.min _ _). assert (now < wake) as Hw by lia.
  assert (wake <= last + limit t (ac_half_closed (history last))) as Hw'.
  { destruct (Z.le_gt_cases last now) as [H|H]; [unfold wake; rewrite (deadline_settled t history last now Hs H); lia|].
    assert (to_half_close t <= limit t (ac_half_closed (history last))) by (unfold limit; case_match; lia). lia. }
  destruct (IH wake) as (T & HT & Hb & Hq); [lia|lia|]. exists T. split_and!; [done|lia|lia|done].
Qed.

(** however a connection moved before, the watch for quiet ones ends: not before nothing moved for the time allowed, which is the
    shorter one once a side ended, and no later than that time after its last move. *)
Theorem quiet_connections_end t history start last fuel :
  0 < to_half_close t <= to_idle t -> settles history last -> start <= last ->
  (Z.to_nat (last + to_idle t - start) < fuel)%nat ->
  exists T, expired fuel t history start = Some T /\ start <= T /\ deadline t (history T) <= T /\ T <= last + limit t (ac_half_closed (history last)).
Proof.
  intros Ht Hs Hsl Hf. assert (0 < limit t (ac_half_closed (history last)) <= to_idle t) by (unfold limit; case_match; lia).
  destruct (expired_loop t history last fuel start Ht Hs) as (T & HT & Hb & Hq); [lia..|]. exists T. split_and!; [done|lia|done|lia].
Qed.

Module SpliceDemo.
(** The visitor sends a request and ends, the answer comes back in part, then nothing: the copying ends a minute later. *)
Definition t : Timeouts := default_timeouts.
Definition request : list (option (bool * SpliceEvent) * Z) :=
  [(Some (false, SeRead [71; 69; 84]), 10); (Some (false, SeWrite 2), 11); (Some (false, SeWrite 2), 12); (Some (false, SeEof), 20); (Some (false, SeShut), 21);
   (Some (true, SeRead [72; 84]), 30); (Some (true, SeWrite 9), 31)].
Example carried : let s := splice t 0 (request ++ [(None, 60030); (None, 60031)]) in
  sp_end s = Some SpliceIdle /\ cp_written (sp_forward s) = [71; 69; 84] /\ cp_written (sp_backward s) = [72; 84].
Proof. vm_compute. done. Qed.
Example carried_whole : sp_end (splice t 0 (request ++ [(Some (true, SeEof), 40); (Some (true, SeShut), 41)])) = Some SpliceOk.
Proof. vm_compute. done. Qed.

Definition short : Timeouts := mkTimeouts 50 20.
Definition history (x : Z) : Activity := if x <? 10 then mkActivity 0 false else mkActivity 10 true.
Lemma quiet_connections_end_witness : exists T, expired 70 short history 0 = Some T /\ 0 <= T /\ deadline short (history T) <= T /\ T <= 10 + limit short true.
Proof.
  apply (quiet_connections_end short history 0 10 70); [cbn; lia| |lia|cbn; lia].
  intros x Hx. unfold history. rewrite (proj2 (Z.ltb_ge x 10)) by lia. reflexivity.
Defined.
Example expired_at : expired 70 short history 0 = Some 30.
Proof. vm_compute. done. Qed.
End SpliceDemo.
