(* ===== verification/Cluster.v ===== *)
(** * Cluster: a visitor on its way to the machine that has its bridge, [cluster.rs] and [relay.rs]

    A visitor's connection is read until its ClientHello names a tunnel; without a bridge for it here, the machine the mesh
    knows to have one is asked to carry it. What a socket gives is a list of chunks, at whose end, or at an empty one, it ended,
    failed, or the time was over. *)

From Stdlib Require Import ZArith Lia Ascii String List.
From stdpp Require Import base list strings gmap sets.
From S2P Require Import Prelude Text Addr Names ProxyHeader Sni Frames Record Mesh PeerAuth Bridges.

(** ** The start of a connection: [accept_with] *)

Record Accepted := mkAccepted {
  av_peer : SocketAddr;
  av_initial : bytes;
  av_sni : string;
  av_alpn : string;
  av_stream : list bytes;
}.
Inductive AcceptError := BadProxyHeader | NoProxyHeader | BadHello (reason : string) | HelloTooLong | NoHello | Panicked.

Section Start.
(** [str::to_lowercase] on text that is not ASCII. *)
Context (unicode_lower : string -> string).

(** The PROXY header: its length and the visitor it names, what was read and what is still to come. *)
Fixpoint read_proxy_header (buffer : bytes) (chunks : list bytes) : result (nat * option SocketAddr * bytes * list bytes) AcceptError :=
  match Server.parse buffer with
  | None => Err Panicked
  | Some (Server.Complete length source) => Ok (length, source, buffer, chunks)
  | Some Server.Invalid => Err BadProxyHeader
  | Some Server.Incomplete =>
      if (536 <? length buffer)%nat then Err NoProxyHeader
      else match chunks with [] | [] :: _ => Err NoProxyHeader | chunk :: chunks => read_proxy_header (buffer ++ chunk) chunks end
  end.

(** The ClientHello, after [start] bytes. *)
Fixpoint read_hello (p : HelloParser) (start : nat) (buffer : bytes) (chunks : list bytes) : result (bytes * string * string * list bytes) AcceptError :=
  match Sni.parse unicode_lower p (drop start buffer) with
  | None => Err Panicked
  | Some (_, Sni.Complete name alpn) => Ok (drop start buffer, name, alpn, chunks)
  | Some (_, Sni.Invalid reason) => Err (BadHello reason)
  | Some (p, Sni.Incomplete) =>
      if (CLIENT_HELLO_LIMIT <=? length buffer - start)%nat then Err HelloTooLong
      else match chunks with [] | [] :: _ => Err NoHello | chunk :: chunks => read_hello p start (buffer ++ chunk) chunks end
  end.

Definition accept_with (peer : SocketAddr) (proxy_protocol : bool) (buffer : bytes) (chunks : list bytes) : result Accepted AcceptError :=
  match (if proxy_protocol then read_proxy_header buffer chunks else Ok (0%nat, None, buffer, chunks)) with
  | Err e => Err e
  | Ok (start, source, buffer, chunks) =>
      match read_hello default_parser start buffer chunks with
      | Err e => Err e
      | Ok (initial, sni, alpn, chunks) => Ok (mkAccepted (default peer source) initial sni alpn chunks)
      end
  end.

End Start.

(** ** Forwarding: [forward] and [open] *)

Definition FORWARD_ACCEPTED : Z := 49.
Definition FORWARD_REFUSED : Z := 48.

(** What [open] hears: connecting, sending or waiting failed or took too long, or what was read first (nothing when the machine closed). *)
Inductive Answer := NoAnswer | Answered (read : bytes).
Inductive Opened := OpenFailed | OpenRefused | OpenAccepted.
Definition open (a : Answer) : Opened :=
  match a with
  | NoAnswer => OpenFailed
  | Answered [answer] => if answer =? FORWARD_ACCEPTED then OpenAccepted else OpenRefused
  | Answered _ => OpenRefused
  end.

Section Forward.
Context `{HashOrder}.

(** Each attempt with the mesh's table then, and what each machine would answer. The machine that carries the visitor, if any, and those asked. *)
Fixpoint forward_loop (attempts : list (Remote * (Location -> Answer))) (tunnel route : string) (tried : option string) : option Location * list Location :=
  match attempts with
  | [] => (None, [])
  | (table, answer) :: attempts =>
      match locate tunnel route tried table with
      | None => (None, [])
      | Some l =>
          match open (answer l) with
          | OpenAccepted => (Some l, [l])
          | _ => let '(carried, asked) := forward_loop attempts tunnel route (Some (lc_machine_id l)) in (carried, l :: asked)
          end
      end
  end.
Definition forward (first second : Remote * (Location -> Answer)) (tunnel route : string) : option Location * list Location :=
  forward_loop [first; second] tunnel route None.

(** ** Where a visitor goes: [route_tunnel] and [reject] *)

Inductive Origin := Public (cluster : option ((Remote * (Location -> Answer)) * (Remote * (Location -> Answer)))) | Forwarded.
Inductive Visit :=
| NotAHostname
| RouteFailed
| Carried (bridge conn : Z)
| RefusedHere
| ForwardedTo (l : Location)
| RejectedAs (tunnel_exists : bool) (outcome : string).

(** [service.route] of the tunnel's entry; [None] when it could not be read. *)
Definition route_tunnel (domain : string) (limits : BridgeLimits) (now : Z) (entry : string -> option Tunnel) (accepted : Accepted) (origin : Origin)
    : Visit * option (string * Tunnel) :=
  match Hostnames.tunnel_id (av_sni accepted) domain with
  | None => (NotAHostname, None)
  | Some id =>
      match (let* t := entry id in route limits (av_sni accepted) now t) with
      | None => (RouteFailed, None)
      | Some (ToBridge bridge conn, t) => (Carried bridge conn, Some (id, t))
      | Some (Rejected tunnel_exists outcome, t) =>
          (match origin with
           | Forwarded => RefusedHere
           | Public cluster =>
               match cluster, Hostnames.route_name (av_sni accepted) id domain with
               | Some (first, second), Some route =>
                   if String.eqb outcome "no_bridge" && tunnel_exists then
                     match fst (forward first second id route) with
                     | Some l => ForwardedTo l
                     | None => RejectedAs tunnel_exists outcome
                     end
                   else RejectedAs tunnel_exists outcome
               | _, _ => RejectedAs tunnel_exists outcome
               end
           end, Some (id, t))
      end
  end.

(** What the machine that forwarded a visitor hears: one byte, or the connection is closed. *)
Definition answer_of (v : Visit) : Answer :=
  match v with Carried _ _ => Answered [FORWARD_ACCEPTED] | RefusedHere => Answered [FORWARD_REFUSED] | _ => Answered [] end.

(** ** The internal listener: [internal_connection] *)

Section Internal.
Context (unicode_lower : string -> string) (hmac : string -> bytes -> bytes) (token : string).

Inductive Internal :=
| ToMesh (greeting : string) (rest : bytes) (stream : list bytes)
| ToControl (buffer : bytes) (stream : list bytes)
| ToVisitor (accepted : Accepted)
| NoHeader
| NotAuthenticated (e : AuthError)
| BadVisitor
| NotAccepted (e : AcceptError)
| OtherTunnel.

Definition internal_connection (machine_id domain : string) (table : Remote) (seen : gmap string Z) (connection : SocketAddr) (chunks : list bytes) (now : Z)
    : Internal * gmap string Z :=
  match read_header chunks [] with
  | None => (NoHeader, seen)
  | Some (line, rest, stream) =>
      match strip_prefix_l (as_bytes MESH_MAGIC) line with
      | Some greeting => (match from_utf8 greeting with Some greeting => ToMesh greeting rest stream | None => NoHeader end, seen)
      | None =>
          match strip_prefix_l FORWARD_MAGIC line with
          | None => (ToControl (line ++ 10 :: rest) stream, seen)
          | Some _ =>
              let '(r, seen) := receive_forward hmac token machine_id seen chunks now in
              (match r with
               | Err e => NotAuthenticated e
               | Ok f =>
                   match check_sender (fun m => peer_address m table) (fw_sender f) connection with
                   | Err e => NotAuthenticated e
                   | Ok _ =>
                       match parse_socket (fw_visitor f) with
                       | None => BadVisitor
                       | Some visitor =>
                           match accept_with unicode_lower visitor false (fw_rest f) (fw_stream f) with
                           | Err e => NotAccepted e
                           | Ok accepted =>
                               if decide (Hostnames.tunnel_id (av_sni accepted) domain = Some (fw_tunnel f)) then ToVisitor accepted else OtherTunnel
                           end
                       end
                   end
               end, seen)
          end
      end
  end.
End Internal.
End Forward.

(** ** What the two machines read of a visitor *)

Lemma app_prefix_cases {A} (a b c d : list A) : a ++ b = c ++ d -> (length c <= length a)%nat -> exists k, a = c ++ k /\ d = k ++ b.
Proof.
  revert c. induction a as [|x a IH]; intros [|y c] E Hl; cbn in *; [by exists []|lia|by exists (x :: a)|].
  injection E as -> E. destruct (IH c E ltac:(lia)) as (k & -> & ->). by exists k.
Qed.

Lemma read_hello_finds lower data q name alpn more :
  Sni.parse lower default_parser data = Some (q, Sni.Complete name alpn) -> (length data <= CLIENT_HELLO_LIMIT)%nat ->
  forall chunks p buffer, (forall tail, Sni.parse lower p (buffer ++ tail) = Sni.parse lower default_parser (buffer ++ tail)) ->
  buffer ++ concat chunks = data ++ more -> Forall (fun chunk => chunk <> []) chunks ->
  exists initial stream, read_hello lower p 0 buffer chunks = Ok (initial, name, alpn, stream) /\ initial ++ concat stream = data ++ more.
Proof.
  intros Hd Hl. assert (forall tail, Sni.parse lower default_parser (data ++ tail) = Some (q, Sni.Complete name alpn)) as Hfin by (intros tail; by apply parse_final).
  assert (forall buffer tail p' h, buffer ++ tail = data ++ more -> Sni.parse lower default_parser buffer = Some (p', h) -> h = Sni.Incomplete \/ h = Sni.Complete name alpn) as Hsame.
  { intros buffer tail p' h E Eh. destruct (decide (h = Sni.Incomplete)) as [->|Hi]; [by left|right]. pose proof (parse_final lower _ _ tail _ _ Eh Hi) as Hw. rewrite E, Hfin in Hw. by injection Hw. }
  induction chunks as [|chunk chunks IH]; intros p buffer Hp E Hne.
  all: destruct (parse_total lower default_parser buffer) as (p' & h & Eh); pose proof (Hp []) as Hp0; rewrite app_nil_r in Hp0.
  all: pose proof (Hsame _ _ _ _ E Eh) as Hh.
  all: cbn [read_hello]; rewrite drop_0, Hp0, Eh; destruct Hh as [-> | ->]; [|by eexists _, _].
  - exfalso. destruct (app_prefix_cases buffer [] data more) as (k & -> & _); [done|cbn in E; rewrite app_nil_r in E; rewrite E, length_app; lia|]. by rewrite Hfin in Eh.
  - assert (length buffer < length data)%nat as Hlt.
    { destruct (Nat.le_gt_cases (length data) (length buffer)) as [Hge|]; [|done]. exfalso. destruct (app_prefix_cases _ _ _ _ E Hge) as (k & -> & _). by rewrite Hfin in Eh. }
    rewrite (proj2 (Nat.leb_gt _ _)) by lia. apply Forall_cons in Hne as [Hc Hne]. destruct chunk as [|b chunk]; [done|].
    apply IH; [|rewrite <- app_assoc; exact E|done]. intros tail. rewrite <- app_assoc. symmetry. by apply parse_resume.
Qed.

(** A machine that is handed a visitor's first bytes, and reads on from its socket, accepts it as the first machine did. *)
Lemma accept_again lower peer data name alpn more buffer chunks :
  parse_client_hello lower data = Some (Sni.Complete name alpn) -> (length data <= CLIENT_HELLO_LIMIT)%nat ->
  buffer ++ concat chunks = data ++ more -> Forall (fun chunk => chunk <> []) chunks ->
  exists accepted, accept_with lower peer false buffer chunks = Ok accepted /\
    av_peer accepted = peer /\ av_sni accepted = name /\ av_alpn accepted = alpn /\ av_initial accepted ++ concat (av_stream accepted) = data ++ more.
Proof.
  intros Hd Hl E Hne. unfold parse_client_hello in Hd. destruct (Sni.parse lower default_parser data) as [[q h]|] eqn:Eq; [|done]. injection Hd as ->.
  destruct (read_hello_finds lower data q name alpn more Eq Hl chunks default_parser buffer) as (initial & stream & Er & Ei); [done|done|done|].
  unfold accept_with. rewrite Er. eexists. split; [done|]. by split_and!.
Qed.

(** ** Asking other machines *)

Section Asking.
Context `{HashOrder}.

Lemma locate_claims table tunnel route except l : Mesh.reachable table -> locate tunnel route except table = Some l ->
  Some (lc_machine_id l) <> except /\ exists p e, l = location p /\ claims table tunnel route (lc_machine_id l) p e.
Proof.
  intros Hr Hl. pose proof (locate_newest table tunnel route except Hr) as H0. rewrite Hl in H0. destruct H0 as (m & p & e & -> & <- & Hne & Hc & _). eauto.
Qed.

(** Whatever the mesh knows and the machines answer, a visitor is offered to at most two machines, never twice to the same, each
    known to have a live bridge for its route; it is carried by the one that accepted it, and no other is asked after that; it is
    given back only when those asked did not accept it and, if fewer than two were asked, no other is known. *)
Theorem forward_careful first second tunnel route :
  Mesh.reachable first.1 -> Mesh.reachable second.1 ->
  let '(carried, asked) := forward first second tunnel route in
  (length asked <= 2)%nat /\ NoDup (map lc_machine_id asked) /\
  (forall i l, asked !! i = Some l -> exists table answer p e, [first; second] !! i = Some (table, answer) /\ claims table tunnel route (lc_machine_id l) p e /\
     (open (answer l) = OpenAccepted <-> carried = Some l /\ i = (length asked - 1)%nat)) /\
  (forall l, carried = Some l -> list.last asked = Some l) /\
  (carried = None -> forall table answer, [first; second] !! length asked = Some (table, answer) ->
     forall m p e, Some m <> (lc_machine_id <$> list.last asked) -> ~ claims table tunnel route m p e).
Proof.
  intros H1 H2. destruct first as [t1 a1], second as [t2 a2]. cbn [fst] in H1, H2. unfold forward. cbn [forward_loop].
  destruct (locate tunnel route None t1) as [l1|] eqn:E1.
  2: { pose proof (locate_newest t1 tunnel route None H1) as Hn. rewrite E1 in Hn. split_and!; [cbn; lia|constructor|done|done|].
       intros _ table answer [= <- <-] m p e Hm. by apply Hn. }
  destruct (locate_claims _ _ _ _ _ H1 E1) as (_ & p1 & e1 & _ & Hc1).
  destruct (open (a1 l1)) eqn:O1; [| |split_and!; [cbn; lia|apply NoDup_singleton| |by intros l [= <-]|done];
    intros [|i] l; [intros [= <-]|done]; exists t1, a1, p1, e1; split_and!; [done|done|by rewrite O1]].
  all: destruct (locate tunnel route (Some (lc_machine_id l1)) t2) as [l2|] eqn:E2;
    [|pose proof (locate_newest t2 tunnel route (Some (lc_machine_id l1)) H2) as Hn; rewrite E2 in Hn; split_and!; [cbn; lia|apply NoDup_singleton| |done|];
      [intros [|i] l; [intros [= <-]|done]; exists t1, a1, p1, e1; split_and!; [done|done|rewrite O1; split; [done|by intros [[=] _]]]
      |intros _ table answer [= <- <-] m p e Hm; by apply Hn]].
  all: destruct (locate_claims _ _ _ _ _ H2 E2) as (Hne & p2 & e2 & _ & Hc2).
  all: assert (NoDup (map lc_machine_id [l1; l2])) as Hnd by
    (cbn; apply NoDup_cons; split; [intros Hin%list_elem_of_singleton; by rewrite Hin in Hne|apply NoDup_singleton]).
  all: assert (forall k (Q : nat -> Location -> Prop), k = 2%nat -> Q 0%nat l1 -> Q 1%nat l2 -> forall i l, [l1; l2] !! i = Some l -> Q i l) as Hcase by
    (intros k Q _ Q1 Q2 [|[|i]] l; [by intros [= <-]|by intros [= <-]|done]).
  all: destruct (open (a2 l2)) eqn:O2; (split_and!; [cbn; lia|exact Hnd| |try done; by intros l [= <-]|try done]).
  all: apply (Hcase 2%nat); [done|exists t1, a1, p1, e1|exists t2, a2, p2, e2]; (split_and!; [done|done|]); rewrite ?O1, ?O2; split; try done; by intros [? ?].
Qed.
End Asking.

(** ** A visitor reaches its bridge on another machine *)

Section Carried.
Context `{HashOrder}.
Context (unicode_lower : string -> string) (hmac : string -> bytes -> bytes) (token domain : string).
Context (hmac_32 : forall key m, length (hmac key m) = 32%nat /\ bytes_ok (hmac key m)).

(** What a machine answers to what it reads of a forwarded visitor. *)
Definition serve_forward (machine_id : string) (table : Remote) (seen : gmap string Z) (connection : SocketAddr) (limits : BridgeLimits)
    (entry : string -> option Tunnel) (chunks : list bytes) (now : Z) : Answer :=
  match fst (internal_connection unicode_lower hmac token machine_id domain table seen connection chunks now) with
  | ToVisitor accepted => answer_of (fst (route_tunnel domain limits now entry accepted Forwarded))
  | _ => Answered []
  end.

Lemma addr_string_plain a : addr_ok a -> plain (addr_string a).
Proof.
  intros [Hip Hp]. unfold plain. rewrite as_bytes_addr_string by lia.
  assert (Forall (fun b => 33 <= b < 127) (to_dec (port a))) as Hd by (eapply Forall_impl; [apply to_dec_digits; lia|]; cbn; lia).
  assert (Forall (fun b => 33 <= b < 127) (ip_bytes (ip a))) as Hi by (eapply Forall_impl; [apply ip_bytes_chars|]; unfold ip_char; cbn; lia).
  destruct (ip a); cbn [ip_bytes] in Hi; rewrite !Forall_app, ?Forall_cons; split_and!; try done; lia.
Qed.

Lemma forward_not_mesh line : strip_prefix_l (as_bytes MESH_MAGIC) (FORWARD_MAGIC ++ line) = None.
Proof. reflexivity. Qed.

(** The receiving machine reads the visitor the sender accepted. *)
Lemma forwarded_read a_id b_id id r accepted sent nonce header table seen connection now chunks more :
  Forall plain [a_id; b_id; id; r; nonce] -> 0 <= sent <= U64_MAX -> fresh sent now = true -> pruned seen now !! nonce = None ->
  addr_ok (av_peer accepted) -> Hostnames.tunnel_id (av_sni accepted) domain = Some id ->
  parse_client_hello unicode_lower (av_initial accepted) = Some (Sni.Complete (av_sni accepted) (av_alpn accepted)) ->
  (length (av_initial accepted) <= CLIENT_HELLO_LIMIT)%nat ->
  forward_header hmac token a_id b_id id r (addr_string (av_peer accepted)) (av_initial accepted) sent nonce = Some header ->
  (length header - length (av_initial accepted) <= MAX_HEADER)%nat ->
  check_sender (fun m => peer_address m table) a_id connection = Ok tt ->
  concat chunks = header ++ more -> Forall (fun chunk => chunk <> []) chunks ->
  exists accepted', internal_connection unicode_lower hmac token b_id domain table seen connection chunks now = (ToVisitor accepted', <[nonce := sent]> (pruned seen now)) /\
    av_peer accepted' = av_peer accepted /\ av_sni accepted' = av_sni accepted /\ av_alpn accepted' = av_alpn accepted /\
    av_initial accepted' ++ concat (av_stream accepted') = av_initial accepted ++ more.
Proof.
  intros Hplain Hsent Hfresh Hnonce Haddr Hid Hhello Hlen Hheader Hmax Hsender Hchunks Hne. pose proof (addr_string_plain _ Haddr) as Hv.
  rewrite !Forall_cons in Hplain. destruct Hplain as (Pa & Pb & Pi & Pr & Pn & _).
  destruct (forward_received hmac hmac_32 token a_id b_id id r (addr_string (av_peer accepted)) (av_initial accepted) sent nonce seen now chunks header more)
    as (rest & stream & Er & Erest & Hs); [repeat (constructor; [done|]); constructor|done|done|done|done|done|done|done|].
  destruct (accept_again unicode_lower (av_peer accepted) (av_initial accepted) (av_sni accepted) (av_alpn accepted) more rest stream) as (accepted' & Ea & Ep & Es & Eal & Ei); [done|done|done|done|].
  exists accepted'. split; [|done]. unfold internal_connection. destruct (read_header chunks []) as [[[line rest'] stream']|] eqn:Eh; [|by unfold receive_forward in Er; rewrite Eh in Er].
  destruct (strip_prefix_l FORWARD_MAGIC line) as [tail|] eqn:Ef; [|by unfold receive_forward in Er; rewrite Eh, Ef in Er]. apply strip_prefix_l_Some in Ef as ->.
  rewrite forward_not_mesh. rewrite Er. cbn [fw_sender fw_visitor fw_rest fw_stream fw_tunnel]. rewrite Hsender, parse_socket_string by done. rewrite Ea, Es.
  by rewrite decide_True.
Qed.

(** C14: a visitor that lands on a machine without a bridge for its route reaches the bridge another machine has: the mesh's entry leads
    the first machine there, the other reads from the private network, however it cuts what it carries, the visitor the first accepted, its address,
    name, protocol and every byte it sent, checks that a linked machine sent it, gives the connection a number on the bridge that claims
    the route, and its answer makes the first machine carry the connection. *)
Theorem visitor_reaches_other_machine a_id b_id id r accepted sent nonce header limits_a now_a entry_a t_a t_a' table_a second p e
    table_b seen connection now chunks more limits hash_token s entry_b record b :
  (* the visitor *)
  addr_ok (av_peer accepted) -> Hostnames.tunnel_id (av_sni accepted) domain = Some id -> Hostnames.route_name (av_sni accepted) id domain = Some r ->
  parse_client_hello unicode_lower (av_initial accepted) = Some (Sni.Complete (av_sni accepted) (av_alpn accepted)) ->
  (length (av_initial accepted) <= CLIENT_HELLO_LIMIT)%nat ->
  (* where it lands *)
  entry_a id = Some t_a -> route limits_a (av_sni accepted) now_a t_a = Some (Rejected true "no_bridge", t_a') ->
  Mesh.reachable table_a -> claims table_a id r b_id p e -> (forall m p e, claims table_a id r m p e -> m = b_id) ->
  (* the way *)
  Forall plain [a_id; b_id; id; r; nonce] -> 0 <= sent <= U64_MAX -> fresh sent now = true -> pruned seen now !! nonce = None ->
  forward_header hmac token a_id b_id id r (addr_string (av_peer accepted)) (av_initial accepted) sent nonce = Some header ->
  (length header - length (av_initial accepted) <= MAX_HEADER)%nat -> check_sender (fun m => peer_address m table_b) a_id connection = Ok tt ->
  concat chunks = header ++ more -> Forall (fun chunk => chunk <> []) chunks ->
  (* where its bridge is *)
  1 <= conns_per_bridge limits -> 0 <= conns_per_tunnel limits <= 2 ^ 32 - 2 -> Bridges.reachable limits hash_token (fun _ => True) s ->
  entry_b id = Some (sy_tunnel s) -> live_record (sy_tunnel s) = Some record -> certificate_ready record = true ->
  route_of (av_sni accepted) (st_hostname record) = Some r -> str_contains r "." = false ->
  b ∈ tn_bridges (sy_tunnel s) -> claims_route b r = true -> stale_bridge now b = false ->
  br_visitors b < conn_limit (conns_per_bridge limits) b -> tunnel_conns (sy_tunnel s) < conns_per_tunnel limits ->
  let answer l := if String.eqb (lc_machine_id l) b_id then serve_forward b_id table_b seen connection limits entry_b chunks now else NoAnswer in
  exists accepted' conn t',
    fst (internal_connection unicode_lower hmac token b_id domain table_b seen connection chunks now) = ToVisitor accepted' /\
    av_peer accepted' = av_peer accepted /\ av_sni accepted' = av_sni accepted /\ av_alpn accepted' = av_alpn accepted /\
    av_initial accepted' ++ concat (av_stream accepted') = av_initial accepted ++ more /\
    route_tunnel domain limits now entry_b accepted' Forwarded = (Carried (br_id b) conn, Some (id, t')) /\ 0 < conn < 2 ^ 32 /\
    route_tunnel domain limits_a now_a entry_a accepted (Public (Some ((table_a, answer), second))) = (ForwardedTo (location p), Some (id, t_a')).
Proof.
  intros Haddr Hid Hr Hhello Hlen Ha Hra Hreach Hc Huniq Hplain Hsent Hfresh Hnonce Hheader Hmax Hsender Hchunks Hne H1 H2 Hs Hb Hrec Hready Hro Hdot Hin Hcl Hst Hv Ht answer.
  destruct (forwarded_read a_id b_id id r accepted sent nonce header table_b seen connection now chunks more) as (accepted' & Ei & Ep & Es & Eal & Ebytes); try done.
  destruct (route_finds limits hash_token s (av_sni accepted) now record r b H1 H2 Hs Hrec Hready Hro Hdot Hin Hcl Hst Hv Ht) as (conn & t' & Ert & Hconn & _).
  assert (route_tunnel domain limits now entry_b accepted' Forwarded = (Carried (br_id b) conn, Some (id, t'))) as Eb.
  { unfold route_tunnel. rewrite Es, Hid, Hb. cbn [mbind option_bind]. by rewrite Ert. }
  exists accepted', conn, t'. split_and!; [by rewrite Ei|done|done|done|done|done|lia|lia|].
  unfold route_tunnel. rewrite Hid, Ha. cbn [mbind option_bind]. rewrite Hra, Hr. cbn [String.eqb Ascii.eqb Bool.eqb andb].
  pose proof (locate_newest table_a id r None Hreach) as Hl. unfold forward. cbn [forward_loop]. destruct (locate id r None table_a) as [l|]; [|by destruct (Hl b_id p e)].
  destruct Hl as (m & p' & e' & -> & Em & _ & Hc' & _). pose proof (Huniq _ _ _ Hc') as ->. assert (p' = p) as -> by (destruct Hc as [? _], Hc' as [? _]; congruence).
  assert (answer (location p) = Answered [FORWARD_ACCEPTED]) as ->; [|done]. unfold answer. rewrite Em, String.eqb_refl. unfold serve_forward. rewrite Ei. cbn [fst]. by rewrite Eb.
Qed.
End Carried.

(** ** Routes that other machines hold: [held_elsewhere] and [control] *)

Definition CONTROL_LABEL : string := "opentunnel control/2".

Section Control.
Context (hmac : string -> bytes -> bytes) (token : string).

(** The answer to a request: its status, and the routes held. *)
Definition control (machine_id : string) (table : Remote) (seen : gmap string Z) (connection : SocketAddr) (entry : string -> Tunnel)
    (method path : string) (auth : option string) (now : Z) : Z * option (list string) * gmap string Z :=
  let '(authorized, seen) :=
    match str_split " " <$> auth with
    | Some [sender; receiver; timestamp; nonce; proof] =>
        let '(r, seen) := verify hmac token machine_id CONTROL_LABEL seen (mkSigned sender receiver timestamp nonce proof) [method; path] now in
        (match r with
         | Ok _ => match check_sender (fun m => peer_address m table) sender connection with Ok _ => true | Err _ => false end
         | Err _ => false
         end, seen)
    | _ => (false, seen)
    end in
  if negb authorized then (401, None, seen)
  else match (let* rest := str_strip_prefix "/internal/tunnel/" path in str_split_once "/" rest) with
       | None => (404, None, seen)
       | Some (tunnel, action) =>
           if String.eqb method "GET" && String.eqb action "routes" then (200, Some (fst (held_routes now (entry tunnel))), seen) else (404, None, seen)
       end.

Definition routes_path (tunnel : string) : string := "/internal/tunnel/" +:+ tunnel +:+ "/routes".

(** [held_elsewhere]: [ask] is what a machine answers, [None] when it cannot be asked or does not answer with routes. *)
Fixpoint held_loop (locations : list Location) (ask : Location -> option (list string)) (routes : list string) : bool :=
  match locations with
  | [] => false
  | l :: locations =>
      match ask l with
      | Some held => if existsb (fun route => str_in route routes) held then true else held_loop locations ask routes
      | None => held_loop locations ask routes
      end
  end.
Definition held_elsewhere `{HashOrder} (tunnel : string) (routes : list string) (table : Remote) (ask : Location -> option (list string)) : bool :=
  held_loop (holders tunnel routes table) ask routes.

(** The request for it, and what of its answer counts. *)
Definition ask_routes (machine_id receiver tunnel : string) (now : Z) (nonce : string) : string :=
  sign hmac token machine_id CONTROL_LABEL receiver ["GET"; routes_path tunnel] now nonce.
Definition routes_answer (answer : Z * option (list string) * gmap string Z) : option (list string) :=
  match answer with (200, routes, _) => routes | _ => None end.

(** *** A bridge elsewhere keeps its routes *)

Context (hmac_32 : forall key m, length (hmac key m) = 32%nat /\ bytes_ok (hmac key m)).

Lemma sign_split machine_id receiver fields sent nonce :
  plain machine_id -> plain receiver -> plain nonce -> 0 <= sent ->
  str_split " " (sign hmac token machine_id CONTROL_LABEL receiver fields sent nonce)
  = [machine_id; receiver; dec_string sent; nonce; sign_parts hmac token (CONTROL_LABEL :: machine_id :: receiver :: dec_string sent :: nonce :: fields)].
Proof.
  intros Hm Hr Hn Hs. set (proof := sign_parts hmac token _). unfold str_split, sign. fold proof. pose proof (dec_plain sent Hs) as [Pd _].
  assert (as_bytes (machine_id +:+ " " +:+ receiver +:+ " " +:+ dec_string sent +:+ " " +:+ nonce +:+ " " +:+ proof)
    = join_space (map as_bytes [machine_id; receiver; dec_string sent; nonce; proof])) as ->.
  { cbn [map join_space]. rewrite !as_bytes_app. done. }
  change (byte_of_ascii " ") with 32. rewrite split_join_space; [cbn [map]; by rewrite !of_as_bytes|done|].
  cbn [map]. repeat constructor; try (by apply plain_no_sep). apply proof_chars. done.
Qed.

Lemma routes_path_read tunnel : byte_of_ascii "/" ∉ as_bytes tunnel ->
  (let* rest := str_strip_prefix "/internal/tunnel/" (routes_path tunnel) in str_split_once "/" rest) = Some (tunnel, "routes").
Proof. intros Hs. unfold routes_path. rewrite (proj2 (str_strip_prefix_Some _ _ (tunnel +:+ "/routes"))) by done. by apply str_split_once_Some. Qed.

(** A machine that is asked by one it is linked with answers with the routes its live bridges hold. *)
Lemma control_answers a_id b_id tunnel table seen connection entry sent nonce now :
  Forall plain [a_id; b_id; nonce] -> byte_of_ascii "/" ∉ as_bytes tunnel -> 0 <= sent <= U64_MAX -> fresh sent now = true -> pruned seen now !! nonce = None ->
  check_sender (fun m => peer_address m table) a_id connection = Ok tt ->
  routes_answer (control b_id table seen connection entry "GET" (routes_path tunnel) (Some (ask_routes a_id b_id tunnel sent nonce)) now) = Some (fst (held_routes now (entry tunnel))).
Proof.
  intros Hp Ht Hs Hf Hn Hc. rewrite !Forall_cons in Hp. destruct Hp as (Pa & Pb & Pn & _). unfold control, ask_routes. cbn [fmap option_fmap option_map].
  rewrite sign_split by (done || lia). rewrite verify_sign by done. rewrite Hc. cbn [negb]. rewrite routes_path_read by done. done.
Qed.
End Control.

Section Held.
Context `{HashOrder}.

Lemma holders_loop_found routes table mbs found l : l ∈ found -> l ∈ holders_loop routes table mbs found.
Proof.
  revert found. induction mbs as [|[m b] mbs IH]; intros found Hl; cbn; [done|]. destruct (entry_of table (m, b)) as [[p e]|]; [|by apply IH].
  case_split; apply IH; [done|]. apply elem_of_app. by left.
Qed.

(** Every machine known to claim one of the routes is asked. *)
Lemma holders_asked table tunnel route routes m p e : Mesh.reachable table -> claims table tunnel route m p e -> In route routes ->
  exists l, l ∈ holders tunnel routes table /\ lc_machine_id l = m.
Proof.
  intros Hreach (Hp & He & Ht & Hr & Hd) Hin. pose proof (reachable_table_ok _ Hreach) as Hok. unfold holders.
  assert ((m, en_bridge e) ∈ holders_of tunnel table) as Hh by (apply holders_of_spec, (tk_index _ Hok); exists p, e; done).
  assert (entry_of table (m, en_bridge e) = Some (p, e)) as Ee by (unfold entry_of; cbn; rewrite Hp; cbn; by rewrite He).
  assert (match routes with [] => true | _ => existsb (fun route => str_in route routes) (en_routes e) end = true) as Hcl.
  { destruct routes; [done|]. apply existsb_exists. exists route. split; [done|]. by apply str_in_true. }
  pose proof (tk_machine _ Hok _ _ Hp) as Hm. revert Hh. generalize (holders_of tunnel table) as mbs. generalize (@nil Location) as found.
  intros found mbs. revert found. induction mbs as [|[m' b'] mbs IH]; intros found Hh; [by apply not_elem_of_nil in Hh|]. cbn [holders_loop].
  apply elem_of_cons in Hh as [Hh|Hh].
  - injection Hh as <- <-. rewrite Ee. cbv zeta. rewrite Hcl, Hd. cbn [negb orb]. destruct (existsb _ found) eqn:Ef.
    + apply existsb_exists in Ef as (l & Hl & El). apply String.eqb_eq in El. exists l. split; [apply holders_loop_found; by apply list_elem_of_In|done].
    + exists (location p). split; [apply holders_loop_found, elem_of_app; right; by left|done].
  - destruct (entry_of table (m', b')) as [[p' e']|]; [|by apply IH]. case_split; by apply IH.
Qed.

Lemma held_loop_true locations ask routes l held route :
  l ∈ locations -> ask l = Some held -> In route held -> In route routes -> held_loop locations ask routes = true.
Proof.
  intros Hl Ha Hh Hr. induction locations as [|l' locations IH]; [by apply not_elem_of_nil in Hl|]. cbn. apply elem_of_cons in Hl as [<-|Hl].
  - rewrite Ha. assert (existsb (fun route => str_in route routes) held = true) as ->; [|done]. apply existsb_exists. exists route. split; [done|]. by apply str_in_true.
  - destruct (ask l') as [held'|]; [case_split; [done|]|]; by apply IH.
Qed.
End Held.

Lemma held_routes_live limits hash_token s now b route :
  1 <= conns_per_bridge limits -> 0 <= conns_per_tunnel limits -> Bridges.reachable limits hash_token (fun _ => True) s ->
  b ∈ tn_bridges (sy_tunnel s) -> claims_route b route = true -> is_closing b = false -> stale_bridge now b = false ->
  In route (fst (held_routes now (sy_tunnel s))).
Proof.
  intros H1 H2 Hs Hb Hcl Hclosing Hst. destruct (reachable_inv _ _ _ _ H1 H2 Hs) as [Hok _]. pose proof (retire_stale_kept now _ b (ok_ids _ _ _ _ Hok) Hb Hst) as Hb'.
  unfold claims_route in Hcl. apply andb_true_iff in Hcl as [Ha Hr]. unfold held_routes. destruct (tn_bridges (sy_tunnel s)) as [|b0 bs] eqn:Eb; [by apply not_elem_of_nil in Hb|].
  cbn [fst]. apply in_concat. exists (bs_routes (br_state b)). split; [|by apply str_in_true]. apply in_map_iff. exists b. split; [done|]. apply list_elem_of_In, list_elem_of_filter. done.
Qed.

Section Kept.
Context `{HashOrder} (hmac : string -> bytes -> bytes) (token : string).
Context (hmac_32 : forall key m, length (hmac key m) = 32%nat /\ bytes_ok (hmac key m)).

(** C17: a route that a live bridge on another machine holds, and the mesh knows of, is not taken from it: a client that asks for it
    here is refused, since the other machine is asked, with a request it accepts, and answers with the routes its bridges hold. *)
Theorem other_machines_routes_kept a_id b_id tunnel route routes table_a p e
    table_b seen connection entry_b sent nonce now limits hash_token s b id client_token max_conns session now_a t others :
  Mesh.reachable table_a -> claims table_a tunnel route b_id p e -> In route routes ->
  Forall plain [a_id; b_id; nonce] -> byte_of_ascii "/" ∉ as_bytes tunnel -> 0 <= sent <= U64_MAX -> fresh sent now = true -> pruned seen now !! nonce = None ->
  check_sender (fun m => peer_address m table_b) a_id connection = Ok tt ->
  1 <= conns_per_bridge limits -> 0 <= conns_per_tunnel limits -> Bridges.reachable limits hash_token (fun _ => True) s ->
  entry_b tunnel = sy_tunnel s -> b ∈ tn_bridges (sy_tunnel s) -> claims_route b route = true -> is_closing b = false -> stale_bridge now b = false ->
  tn_mesh t <> None ->
  let ask l := if String.eqb (lc_machine_id l) b_id
    then routes_answer (control hmac token b_id table_b seen connection entry_b "GET" (routes_path tunnel) (Some (ask_routes hmac token a_id b_id tunnel sent nonce)) now)
    else others l in
  exists err, fst (attach hash_token id client_token routes max_conns (held_elsewhere tunnel routes table_a ask) session now_a t) = Err err.
Proof.
  intros Hreach Hc Hin Hplain Htn Hs Hf Hn Hsender H1 H2 Hr Hb Hbin Hcl Hclosing Hst Hm ask.
  assert (held_elsewhere tunnel routes table_a ask = true) as ->.
  { destruct (holders_asked table_a tunnel route routes b_id p e Hreach Hc Hin) as (l & Hl & El). eapply held_loop_true; [exact Hl| |by eapply held_routes_live|done].
    unfold ask. rewrite El, String.eqb_refl, control_answers by done. by rewrite Hb. }
  destruct (retire_stale_facts now_a t) as (_ & _ & _ & _ & Hmesh). unfold attach. destruct (live_record t) as [record|]; [|eauto].
  do 3 (case_split; [eauto|]). cbv zeta. destruct (tn_mesh (retire_stale now_a t)) as [m|]; [|by destruct Hm; apply Hmesh]. do 2 (case_split; [by eexists|]). by eexists.
Qed.
End Kept.

Module ClusterDemo.
Definition hmac (_ : string) (_ : bytes) : bytes := repeat 7 32.
Lemma hmac_32 key m : length (hmac key m) = 32%nat /\ bytes_ok (hmac key m).
Proof. split; [done|]. repeat constructor; lia. Qed.

(** A visitor's hello for [api.t1.example], in one record. *)
Definition hello : bytes :=
  encode_record (encode_handshake (mkClientHello [3; 3] (repeat 7 32) [] [19; 1] [0] [ServerName (as_bytes "api.t1.example"); Alpn (as_bytes "h2") []])).
Definition visitor : Accepted := mkAccepted (mkSocketAddr (V4 3221225985) 5000) hello "api.t1.example" "h2" [].

(** The machine it lands on knows of the bridge of machine [m]; that machine is linked with it. *)
Definition table_a : Remote :=
  match apply "m" 4 (FAttached 1 95 (mkEntry "t1" 7 ["@"; "api"] 1000)) 100 sample_linked with Ok (r, _) => r | Err _ => sample_linked end.
Lemma table_a_reachable : Mesh.reachable table_a.
Proof.
  apply (reach_apply sample_linked "m" 4 (FAttached 1 95 (mkEntry "t1" 7 ["@"; "api"] 1000)) 100 table_a []); [|done|vm_compute; reflexivity].
  by apply (reach_register empty_remote ∅ Mesh.sample_hello 4 "a:1" 0 true None sample_linked reach_empty).
Qed.
Definition table_b : Remote := snd (register ∅ (mkHello 1 "a" "fra" "[::1]:4443" 7 100 false) 4 "a:1" 0 empty_remote).
Definition connection : SocketAddr := mkSocketAddr (V6 1) 50000.
Definition entry_a (id : string) : option Tunnel := if String.eqb id "t1" then Some (sy_tunnel demo_loaded) else None.
Definition entry_b (id : string) : option Tunnel := if String.eqb id "t1" then Some (sy_tunnel demo_attached) else None.
Definition header : bytes := default [] (forward_header hmac "token" "a" "m" "t1" "api" (addr_string (av_peer visitor)) hello 2000 "aa").
Definition chunks : list bytes := [take 100 header; take 60 (drop 100 header); drop 160 header ++ [23; 3; 3]].

Lemma table_a_claims : exists p e, claims table_a "t1" "api" "m" p e /\ forall m p e, claims table_a "t1" "api" m p e -> m = "m".
Proof.
  eexists _, (mkEntry "t1" 7 ["@"; "api"] 1000). split.
  - split_and!; [vm_compute; reflexivity|vm_compute; reflexivity|reflexivity|cbn; auto|reflexivity].
  - intros m p e [Hp _]. apply elem_of_map_to_list in Hp. assert (map fst (map_to_list (peers table_a)) = ["m"]) as E by (vm_compute; reflexivity).
    apply list_elem_of_singleton. rewrite <- E. by apply (list_elem_of_fmap_2 fst) in Hp.
Qed.

Lemma forward_careful_witness : let answer l := if String.eqb (lc_machine_id l) "m" then Answered [FORWARD_REFUSED] else NoAnswer in
  let '(carried, asked) := forward (table_a, answer) (table_a, answer) "t1" "api" in carried = None /\ map lc_machine_id asked = ["m"] /\ NoDup (map lc_machine_id asked).
Proof.
  intros answer. pose proof (forward_careful (table_a, answer) (table_a, answer) "t1" "api" table_a_reachable table_a_reachable) as H.
  assert (forward (table_a, answer) (table_a, answer) "t1" "api" = (None, [mkLocation "m" "fra" "[::1]:4443"])) as E by (vm_compute; reflexivity).
  rewrite E in *. destruct H as (_ & Hn & _). split; [reflexivity|]. split; [reflexivity|exact Hn].
Defined.

Lemma visitor_reaches_other_machine_witness : exists l t conn t' accepted',
  route_tunnel "example" default_limits 1500 entry_a visitor
    (Public (Some ((table_a, fun l => if String.eqb (lc_machine_id l) "m" then serve_forward id hmac "token" "example" "m" table_b ∅ connection default_limits entry_b chunks 2000 else NoAnswer), (table_a, fun _ => NoAnswer))))
  = (ForwardedTo l, Some ("t1", t)) /\ route_tunnel "example" default_limits 2000 entry_b accepted' Forwarded = (Carried 7 conn, Some ("t1", t')).
Proof.
  destruct table_a_claims as (p & e & Hc & Hu).
  destruct (visitor_reaches_other_machine id hmac "token" "example" hmac_32 "a" "m" "t1" "api" visitor 2000 "aa" header default_limits 1500 entry_a (sy_tunnel demo_loaded) (sy_tunnel demo_loaded)
    table_a (table_a, fun _ => NoAnswer) p e table_b ∅ connection 2000 chunks [23; 3; 3] default_limits demo_hash demo_attached entry_b demo_record demo_bridge)
    as (accepted' & conn & t' & _ & _ & _ & _ & _ & Hb & _ & Ha).
  - split; cbn; lia.
  - vm_compute. reflexivity.
  - vm_compute. reflexivity.
  - vm_compute. reflexivity.
  - apply Nat.leb_le. vm_compute. reflexivity.
  - reflexivity.
  - vm_compute. reflexivity.
  - exact table_a_reachable.
  - exact Hc.
  - exact Hu.
  - apply (bool_decide_unpack _). vm_compute. exact I.
  - unfold U64_MAX. lia.
  - reflexivity.
  - vm_compute. reflexivity.
  - vm_compute. reflexivity.
  - apply Nat.leb_le. vm_compute. reflexivity.
  - vm_compute. reflexivity.
  - vm_compute. reflexivity.
  - repeat constructor; vm_compute; discriminate.
  - cbn. lia.
  - cbn. lia.
  - apply demo_reaches.
  - reflexivity.
  - reflexivity.
  - reflexivity.
  - reflexivity.
  - reflexivity.
  - demo_elem.
  - reflexivity.
  - reflexivity.
  - reflexivity.
  - reflexivity.
  - exists (location p), (sy_tunnel demo_loaded), conn, t', accepted'. split; [exact Ha|exact Hb].
Defined.

Lemma other_machines_routes_kept_witness : exists err,
  fst (attach demo_hash 9 "secret" ["www"; "api"] None (held_elsewhere "t1" ["www"; "api"] table_a (fun l => if String.eqb (lc_machine_id l) "m"
    then routes_answer (control hmac "token" "m" table_b ∅ connection (fun _ => sy_tunnel demo_attached) "GET" (routes_path "t1") (Some (ask_routes hmac "token" "a" "m" "t1" 2000 "aa")) 2000)
    else None)) "sess" 2000 (sy_tunnel demo_loaded)) = Err err.
Proof.
  destruct table_a_claims as (p & e & Hc & _).
  apply (other_machines_routes_kept hmac "token" hmac_32 "a" "m" "t1" "api" ["www"; "api"] table_a p e table_b ∅ connection (fun _ => sy_tunnel demo_attached) 2000 "aa" 2000
    default_limits demo_hash demo_attached demo_bridge).
  - exact table_a_reachable.
  - exact Hc.
  - cbn. auto.
  - apply (bool_decide_unpack _). vm_compute. exact I.
  - vm_compute. intros Hin. repeat (apply elem_of_cons in Hin as [Hin|Hin]; [discriminate Hin|]). by apply not_elem_of_nil in Hin.
  - unfold U64_MAX. lia.
  - reflexivity.
  - vm_compute. reflexivity.
  - vm_compute. reflexivity.
  - cbn. lia.
  - cbn. lia.
  - apply demo_reaches.
  - reflexivity.
  - demo_elem.
  - reflexivity.
  - reflexivity.
  - reflexivity.
  - discriminate.
Defined.
End ClusterDemo.
