(* ===== verification/Session.v ===== *)
(** * Session: one bridge's WebSocket on the server, [run], [read] and [attach] of [bridge.rs]

    What the session does with each message, with its deadlines and with closes of the server, until it returns a close code. The
    events come in any order and at any times; what the service answers to an attach comes with the message. What the session has
    done is kept in order. *)

From Stdlib Require Import ZArith Lia Ascii String List.
From stdpp Require Import base list strings gmap sets.
From S2P Require Import Prelude Text Frames WebSocket Record Mesh Bridges Relay.

Definition ATTACH_TIMEOUT : Z := 10000.
Definition CLOSE_GRACE : Z := 5000.
Definition MAX_MESSAGE : nat := Z.to_nat (64 * 1024).
Definition MAX_FRAME : nat := CONN_ID_SIZE + MAX_PAYLOAD_SIZE.

(** What [service.attach] answers. *)
Inductive AttachResult := AtAttached (session : string) (routes : list string) | AtRefused (code reason : string) | AtFailed.

(** What the session does, in order: it attaches, hands on data and control messages, and asks for messages to be queued. *)
Inductive Act :=
| ActAttach (token : string) (routes : list string) (max_conns : option Z) (res : AttachResult)
| ActData (frame : bytes)
| ActControl (control : Json)
| ActSend (m : Outbound)
| ActClose (code : Z) (reason : string).

Record Session := mkSession {
  ss_start : Z;
  ss_attached : bool;
  ss_expired : bool;
  ss_server_close : option Z;
  ss_grace : option Z;
  ss_cancelled : option Z;
  ss_limit : nat;
  ss_seen_at : Z;
  ss_log : list Act;
  ss_end : option (Z * bool);
}.

Definition start_session (now : Z) : Session := mkSession now false false None None None MAX_MESSAGE now [] None.
Definition act (a : Act) (s : Session) : Session := mkSession (ss_start s) (ss_attached s) (ss_expired s) (ss_server_close s) (ss_grace s) (ss_cancelled s)
  (ss_limit s) (ss_seen_at s) (ss_log s ++ [a]) (ss_end s).
Definition set_attached (s : Session) : Session := mkSession (ss_start s) true (ss_expired s) (ss_server_close s) (ss_grace s) (ss_cancelled s)
  MAX_FRAME (ss_seen_at s) (ss_log s) (ss_end s).
Definition set_expired (s : Session) : Session := mkSession (ss_start s) (ss_attached s) true (ss_server_close s) (ss_grace s) (ss_cancelled s)
  (ss_limit s) (ss_seen_at s) (ss_log s) (ss_end s).
Definition heard (now : Z) (s : Session) : Session := mkSession (ss_start s) (ss_attached s) (ss_expired s) (ss_server_close s) (ss_grace s) (ss_cancelled s)
  (ss_limit s) now (ss_log s) (ss_end s).
Definition cancel (now : Z) (s : Session) : Session := mkSession (ss_start s) (ss_attached s) (ss_expired s) (ss_server_close s) (ss_grace s)
  (match ss_cancelled s with Some t => Some t | None => Some now end) (ss_limit s) (ss_seen_at s) (ss_log s) (ss_end s).
Definition over (code : Z) (clean : bool) (s : Session) : Session := mkSession (ss_start s) (ss_attached s) (ss_expired s) (ss_server_close s) (ss_grace s) (ss_cancelled s)
  (ss_limit s) (ss_seen_at s) (ss_log s) (Some (code, clean)).

(** [Bridge::close]: the first of them ends the session after its grace period. *)
Definition close_session (code : Z) (reason : string) (now : Z) (s : Session) : Session :=
  act (ActClose code reason) (mkSession (ss_start s) (ss_attached s) (ss_expired s) (Some code)
    (match ss_grace s with Some g => Some g | None => Some (now + CLOSE_GRACE) end) (ss_cancelled s) (ss_limit s) (ss_seen_at s) (ss_log s) (ss_end s)).
Definition closing (s : Session) : bool := match ss_server_close s with Some _ => true | None => false end.
Definition end_code (s : Session) : Z := default 1006 (ss_server_close s).

(** [attach]: what a control message asks for. *)
Definition json_str (v : option Json) : option string := let* v := v in de_string v.
Definition route_values (v : option Json) : option (list (option string)) := match v with Some (JArr l) => Some (map de_string l) | _ => None end.
Definition attach_message (control : Json) (service : string -> list string -> option Z -> AttachResult) (now : Z) (s : Session) : Session :=
  match json_str (get control "type"), json_str (get control "token") with
  | Some kind, Some token =>
      if negb (String.eqb kind "attach") then close_session 1008 "attach required" now s
      else match requested_routes (route_values (get control "routes")) with
      | None => close_session 1008 "too many routes" now (act (ActSend (MText (ScAttachError "too_many_routes"))) s)
      | Some routes =>
          let max_conns := let* client := get control "client" in let* n := get client "max_conns" in de_uint U64_MAX n in
          let res := service token routes max_conns in
          let s := act (ActAttach token routes max_conns res) s in
          match res with
          | AtAttached session routes => act (ActSend (MText (ScAttached session routes HEARTBEAT_MS IDLE_TIMEOUT_MS))) (set_attached s)
          | AtRefused code reason => close_session 1008 reason now (act (ActSend (MText (ScAttachError code))) s)
          | AtFailed => close_session 1011 "internal error" now s
          end
      end
  | _, _ => close_session 1008 "attach required" now s
  end.

(** [handle_control]: what a control message tells the relay. *)
Definition control_of (control : Json) : option Control :=
  let* kind := json_str (get control "type") in
  if String.eqb kind "ping"
  then match get control "time_sent" with Some (JInt n) => Some (KPing (JInt n)) | Some (JFloat x) => Some (KPing (JFloat x)) | _ => None end
  else if String.eqb kind "end" then KEnd <$> (let* conn := get control "conn" in de_uint U32_MAX conn)
  else if String.eqb kind "reset" then KReset <$> (let* conn := get control "conn" in de_uint U32_MAX conn)
  else None.

Section Read.
(** [serde_json::from_str] into a value. *)
Context (from_str : string -> option Json).

Definition control_value (text : string) : option Json :=
  let* v := from_str text in
  match v, get v "type" with JObj _, Some (JStr _) => Some v | _, _ => None end.

(** [read]: one message. *)
Definition message (m : Message) (service : string -> list string -> option Z -> AttachResult) (now : Z) (s : Session) : Session :=
  match m with
  | WebSocket.MClose code => over code true s
  | _ =>
      if closing s then s
      else match m with
           | WebSocket.MPing data => act (ActSend (Relay.MPong data)) s
           | WebSocket.MPong _ => heard now s
           | WebSocket.MBinary frame =>
               let s := heard now s in
               if ss_attached s then act (ActData frame) s else close_session 1008 "attach required" now s
           | WebSocket.MText text =>
               let s := heard now s in
               match control_value text with
               | None => close_session 1008 "invalid control" now s
               | Some control => if ss_attached s then act (ActControl control) s else attach_message control service now s
               end
           | WebSocket.MClose code => s
           end
  end.

(** What may happen: a message, a message that is too large, a read error, the end of the socket, one of the timers, the bridge's cancellation (by its
    writer, or noticed), or a close by the service. *)
Inductive SessionEvent :=
| SvMessage (m : Message) (service : string -> list string -> option Z -> AttachResult)
| SvTooLarge
| SvReadFailed
| SvEof
| SvAttachDeadline
| SvGrace
| SvCancel
| SvCancelled
| SvServerClose (code : Z) (reason : string).

Definition session_step (s : Session) (e : SessionEvent * Z) : Session :=
  let now := e.2 in
  match ss_end s with
  | Some _ => s
  | None =>
      match e.1 with
      | SvMessage m service => message m service now s
      | SvTooLarge => over 1009 false (close_session 1009 "message too big" now s)
      | SvReadFailed => over 1006 false s
      | SvEof => over (end_code s) false s
      | SvAttachDeadline =>
          if negb (ss_attached s) && negb (ss_expired s) && (ss_start s + ATTACH_TIMEOUT <=? now) then close_session 1008 "attach timeout" now (set_expired s) else s
      | SvGrace => match ss_grace s with Some g => if g <=? now then cancel now s else s | None => s end
      | SvCancel => cancel now s
      | SvCancelled => match ss_cancelled s with Some _ => over (end_code s) false s | None => s end
      | SvServerClose code reason => close_session code reason now s
      end
  end.
Definition run_session (start : Z) (events : list (SessionEvent * Z)) : Session := fold_left session_step events (start_session start).

(** ** Nothing before the attach, nothing after a close *)

Fixpoint orderly (attached closed : bool) (log : list Act) : bool :=
  match log with
  | [] => true
  | ActAttach _ routes _ res :: log =>
      negb attached && negb closed && (length routes <=? MAX_ROUTES)%nat && bool_decide (NoDup routes)
      && orderly (match res with AtAttached _ _ => true | _ => false end) closed log
  | (ActData _ | ActControl _) :: log => attached && negb closed && orderly attached closed log
  | ActSend (Relay.MPong _) :: log => negb closed && orderly attached closed log
  | ActSend _ :: log => orderly attached closed log
  | ActClose _ _ :: log => orderly attached true log
  end.

(** The state a log leaves. *)
Definition log_attached (log : list Act) : bool := existsb (fun a => match a with ActAttach _ _ _ (AtAttached _ _) => true | _ => false end) log.
Definition log_closed (log : list Act) : bool := existsb (fun a => match a with ActClose _ _ => true | _ => false end) log.

Lemma orderly_snoc a c l x : orderly a c l = true -> orderly a c (l ++ [x]) = orderly (a || log_attached l) (c || log_closed l) [x].
Proof.
  revert a c. induction l as [|y l IH]; intros a c Hl; [cbn [app]; unfold log_attached, log_closed; cbn [existsb]; by rewrite !orb_false_r|].
  destruct y as [token routes mc res|frame|control|m|code reason]; cbn [app orderly] in *; unfold log_attached, log_closed; cbn [existsb]; fold (log_attached l) (log_closed l).
  - bsimp. rewrite IH by done. assert (a = false) as -> by done. assert (c = false) as -> by done. cbn [negb andb orb]. rewrite (proj2 (Nat.leb_le _ _)) by done.
    rewrite bool_decide_true by done. cbn [andb]. by destruct res.
  - bsimp. rewrite IH by done. assert (a = true) as -> by done. assert (c = false) as -> by done. done.
  - bsimp. rewrite IH by done. assert (a = true) as -> by done. assert (c = false) as -> by done. done.
  - destruct m; bsimp; rewrite IH by done; try done. assert (c = false) as -> by done. done.
  - rewrite IH by done. by rewrite !orb_true_r.
Qed.

Record session_ok (s : Session) : Prop := mkSessionOk {
  sk_log : orderly false false (ss_log s) = true;
  sk_attached : ss_attached s = log_attached (ss_log s);
  sk_closed : closing s = log_closed (ss_log s);
}.

Lemma log_attached_snoc l x : log_attached (l ++ [x]) = log_attached l || log_attached [x].
Proof. apply existsb_app. Qed.
Lemma log_closed_snoc l x : log_closed (l ++ [x]) = log_closed l || log_closed [x].
Proof. apply existsb_app. Qed.

(** A session with one more act. *)
Lemma session_ok_act a s s' : session_ok s -> ss_log s' = ss_log s ++ [a] -> ss_attached s' = ss_attached s || log_attached [a] -> closing s' = closing s || log_closed [a] ->
  orderly (ss_attached s) (closing s) [a] = true -> session_ok s'.
Proof.
  intros [Hl Ha Hc] El Ea Ec Ho. constructor; rewrite El.
  - rewrite orderly_snoc by done. cbn [orb]. by rewrite <- Ha, <- Hc.
  - by rewrite log_attached_snoc, Ea, Ha.
  - by rewrite log_closed_snoc, Ec, Hc.
Qed.
Lemma session_ok_same s s' : session_ok s -> ss_log s' = ss_log s -> ss_attached s' = ss_attached s -> ss_server_close s' = ss_server_close s -> session_ok s'.
Proof. intros [Hl Ha Hc] El Ea Ec. constructor; rewrite El; [done|by rewrite Ea|]. unfold closing. by rewrite Ec. Qed.
Lemma session_ok_close code reason now s : session_ok s -> session_ok (close_session code reason now s).
Proof. intros Hs. eapply (session_ok_act (ActClose code reason) s); [done|done|cbn; by rewrite orb_false_r|cbn; by rewrite orb_true_r|done]. Qed.
Lemma session_ok_send m s : session_ok s -> match m with Relay.MPong _ => closing s = false | _ => True end -> session_ok (act (ActSend m) s).
Proof. intros Hs Hm. eapply (session_ok_act (ActSend m) s); [done|done|cbn; by rewrite orb_false_r|cbn; by rewrite orb_false_r|]. cbn. destruct m; try done. by rewrite Hm. Qed.

Lemma session_ok_attach control service now s : session_ok s -> ss_attached s = false -> closing s = false -> session_ok (attach_message control service now s).
Proof.
  intros Hs Ha Hc. unfold attach_message. assert (session_ok (close_session 1008 "attach required" now s)) as Hreq by by apply session_ok_close.
  destruct (json_str (get control "type")) as [kind|]; [|done]. destruct (json_str (get control "token")) as [token|]; [|done]. case_split; [done|]. destruct (requested_routes (route_values (get control "routes"))) as [routes|] eqn:Er.
  2: { apply session_ok_close, session_ok_send; done. }
  cbv zeta. set (mc := let* client := get control "client" in _). assert ((length routes <= MAX_ROUTES)%nat /\ NoDup routes) as [Hlen Hnd].
  { destruct (route_values (get control "routes")) as [values|]; [by destruct (requested_routes_spec _ _ Er) as (? & ? & _)|]. injection Er as <-. split; [unfold MAX_ROUTES; cbn; lia|apply NoDup_singleton]. }
  assert (forall res, session_ok (match res with AtAttached _ _ => set_attached (act (ActAttach token routes mc res) s) | _ => act (ActAttach token routes mc res) s end)) as Hact.
  { intros res. eapply (session_ok_act (ActAttach token routes mc res) s); [done| | | |].
    - by destruct res.
    - rewrite Ha. by destruct res.
    - destruct res; cbn; by rewrite orb_false_r.
    - cbn [orderly]. rewrite Ha, Hc, (proj2 (Nat.leb_le _ _)), bool_decide_true by done. done. }
  specialize (Hact (service token routes mc)). destruct (service token routes mc) as [session routes'|code reason|].
  - by apply session_ok_send.
  - apply session_ok_close. by apply session_ok_send.
  - by apply session_ok_close.
Qed.

Lemma session_ok_step s e : session_ok s -> session_ok (session_step s e).
Proof.
  intros Hs. unfold session_step. destruct (ss_end s); [done|]. destruct e as [e now]. cbn [fst snd].
  destruct e as [m service| | | | | | | |code reason]; try (by eapply session_ok_same; [exact Hs|..]).
  - unfold message. destruct (closing s) eqn:Ec; [destruct m; try done; by eapply session_ok_same; [exact Hs|..]|].
    assert (session_ok (heard now s)) as Hh by by eapply session_ok_same; [exact Hs|..]. destruct m as [text|frame|data|data|code].
    + cbv zeta. destruct (control_value text) as [control|]; [|by apply session_ok_close]. destruct (ss_attached (heard now s)) eqn:Ea; [|by apply session_ok_attach].
      eapply (session_ok_act (ActControl control)); [exact Hh|done|cbn; by rewrite orb_false_r|cbn; by rewrite orb_false_r|]. cbn [orderly]. rewrite Ea. change (closing (heard now s)) with (closing s). by rewrite Ec.
    + cbv zeta. destruct (ss_attached (heard now s)) eqn:Ea; [|by apply session_ok_close].
      eapply (session_ok_act (ActData frame)); [exact Hh|done|cbn; by rewrite orb_false_r|cbn; by rewrite orb_false_r|]. cbn [orderly]. rewrite Ea. change (closing (heard now s)) with (closing s). by rewrite Ec.
    + by apply session_ok_send.
    + done.
    + by eapply session_ok_same; [exact Hs|..].
  - eapply session_ok_same; [by apply (session_ok_close 1009 "message too big" now)|done..].
  - case_split; [|done]. apply session_ok_close. by eapply session_ok_same; [exact Hs|..].
  - destruct (ss_grace s); [case_split|]; try done. by eapply session_ok_same; [exact Hs|..].
  - destruct (ss_cancelled s); [|done]. by eapply session_ok_same; [exact Hs|..].
  - by apply session_ok_close.
Qed.

Lemma session_ok_run start events : session_ok (run_session start events).
Proof.
  unfold run_session. assert (session_ok (start_session start)) as H by done. revert H. generalize (start_session start) as s.
  induction events as [|e events IH]; intros s Hs; cbn [fold_left]; [done|]. by apply IH, session_ok_step.
Qed.

Definition handled (a : Act) : bool := match a with ActData _ | ActControl _ => true | _ => false end.
Definition accepted_attach (a : Act) : bool := match a with ActAttach _ _ _ (AtAttached _ _) => true | _ => false end.
Definition is_close (a : Act) : bool := match a with ActClose _ _ => true | _ => false end.

(** What an orderly log says of one of its acts. *)
Lemma orderly_prefix a c l1 x l2 : orderly a c (l1 ++ x :: l2) = true -> orderly (a || log_attached l1) (c || log_closed l1) [x] = true.
Proof.
  replace (l1 ++ x :: l2) with ((l1 ++ [x]) ++ l2) by by rewrite <- app_assoc. intros Ho.
  assert (forall l m a c, orderly a c (l ++ m) = true -> orderly a c l = true) as Hpre.
  { clear. induction l as [|y l IH]; intros m a c; [done|]. destruct y as [? ? ? res| | |mm|]; cbn [app orderly]; try destruct mm; intros H; bsimp; rewrite ?(IH m) by done; try done.
    all: rewrite ?andb_true_r; repeat (apply andb_true_intro; split); try (by apply negb_true_iff); try done; try (by apply Nat.leb_le); by apply bool_decide_eq_true. }
  apply Hpre in Ho. rewrite <- orderly_snoc; [done|]. by apply Hpre in Ho.
Qed.

(** C25: on a bridge's session nothing of the client is acted on before the service accepted its attach, which asks for at most 128
    routes, each once, and is accepted once; and nothing after the server sent its close. *)
Theorem attach_comes_first start events l1 a l2 :
  ss_log (run_session start events) = l1 ++ a :: l2 ->
  (handled a = true -> existsb accepted_attach l1 = true /\ existsb is_close l1 = false) /\
  (forall token routes max_conns res, a = ActAttach token routes max_conns res ->
     (length routes <= MAX_ROUTES)%nat /\ NoDup routes /\ existsb accepted_attach l1 = false /\ existsb is_close l1 = false).
Proof.
  intros El. pose proof (sk_log _ (session_ok_run start events)) as Ho. rewrite El in Ho. apply orderly_prefix in Ho. cbn [orb] in Ho.
  change (log_attached l1) with (existsb accepted_attach l1) in Ho. change (log_closed l1) with (existsb is_close l1) in Ho. split.
  - destruct a; try done; intros _; cbn in Ho; bsimp; done.
  - intros token routes mc res ->. cbn in Ho. bsimp. done.
Qed.

(** ** Sessions end *)

(** No timer is due before the next event, which is when the service has answered: the runtime fires them, and a cancelled session notices. *)
Definition overdue (s : Session) (now : Z) : bool :=
  match ss_end s with
  | Some _ => false
  | None =>
      (negb (ss_attached s) && negb (ss_expired s) && (ss_start s + ATTACH_TIMEOUT <? now))
      || match ss_cancelled s with Some t => t <? now | None => match ss_grace s with Some g => g <? now | None => false end end
  end.
Fixpoint timely (s : Session) (now : Z) (events : list (SessionEvent * Z)) : Prop :=
  match events with
  | [] => True
  | e :: events => now <= e.2 /\ overdue s e.2 = false /\ timely (session_step s e) e.2 events
  end.

(** What an event may do to the timers. *)
Record effects (now : Z) (s s' : Session) : Prop := mkEffects {
  ef_start : ss_start s' = ss_start s;
  ef_attached : ss_attached s = true -> ss_attached s' = true;
  ef_expired : ss_expired s = true -> ss_expired s' = true;
  ef_grace : ss_grace s' = ss_grace s \/ (ss_grace s = None /\ ss_grace s' = Some (now + CLOSE_GRACE));
  ef_closing : closing s' = true -> closing s = true \/ ss_grace s' <> None;
  ef_cancelled : ss_cancelled s' = ss_cancelled s \/ (ss_cancelled s = None /\ ss_cancelled s' = Some now);
}.

Lemma effects_refl now s : effects now s s.
Proof. constructor; auto. Qed.
Lemma effects_same now s s' s'' : effects now s s' ->
  ss_start s'' = ss_start s' -> ss_attached s'' = ss_attached s' \/ ss_attached s'' = true -> ss_expired s'' = ss_expired s' \/ ss_expired s'' = true -> ss_grace s'' = ss_grace s' ->
  ss_server_close s'' = ss_server_close s' -> ss_cancelled s'' = ss_cancelled s' -> effects now s s''.
Proof.
  intros [H1 H2 H3 H4 H5 H6] E1 E2 E3 E4 E5 E6. constructor; rewrite ?E1, ?E4, ?E6; auto.
  - intros Ha. destruct E2 as [-> | ->]; auto.
  - intros Ha. destruct E3 as [-> | ->]; auto.
  - unfold closing in *. rewrite E5. done.
Qed.
Lemma effects_act now s s' a : effects now s s' -> effects now s (act a s').
Proof. intros H. by eapply effects_same; [exact H|..]; auto. Qed.
Lemma effects_close now s s' code reason : effects now s s' -> effects now s (close_session code reason now s').
Proof.
  intros [H1 H2 H3 H4 H5 H6]. constructor; cbn; try done.
  - destruct H4 as [E|[E1 E2]]; [rewrite E; destruct (ss_grace s) eqn:Eg; auto|]. rewrite E2. auto.
  - intros _. right. by destruct (ss_grace s').
Qed.
Create HintDb session.
Hint Resolve effects_refl effects_act effects_close : session.

Lemma step_effects s e : effects e.2 s (session_step s e) /\ (ss_end (session_step s e) = None -> ss_end s = None) /\
  (ss_expired (session_step s e) = true -> ss_expired s = true \/ (ss_attached s = false /\ ss_start s + ATTACH_TIMEOUT <= e.2 /\ ss_grace (session_step s e) <> None)).
Proof.
  unfold session_step. destruct (ss_end s) eqn:En; [split_and!; [auto with session|by rewrite En|auto]|]. destruct e as [e now]. cbn [fst snd].
  assert (forall s', effects now s s' -> ss_expired s' = ss_expired s -> effects now s s' /\ (ss_end s' = None -> None = None :> option (Z * bool)) /\
    (ss_expired s' = true -> ss_expired s = true \/ (ss_attached s = false /\ ss_start s + ATTACH_TIMEOUT <= now /\ ss_grace s' <> None))) as Hsame.
  { intros s' He Ex. split_and!; [done|done|]. rewrite Ex. auto. }
  assert (effects now s (heard now s)) as Hh by (by eapply effects_same; [apply effects_refl|..]; auto).
  assert (forall code clean s', effects now s s' -> effects now s (over code clean s')) as Hover by (intros code clean s' H; by eapply effects_same; [exact H|..]; auto).
  assert (effects now s (cancel now s)) as Hcancel by (constructor; cbn; auto; destruct (ss_cancelled s); auto).
  destruct e as [m service| | | | | | | |code reason]; try (apply Hsame; [eauto with session|done]).
  - apply Hsame.
    + unfold message. destruct (closing s); [destruct m; eauto with session|]. destruct m as [text|frame|data|data|code]; cbv zeta; eauto with session.
      * destruct (control_value text) as [control|]; [|eauto with session]. case_split; [eauto with session|]. unfold attach_message.
        repeat case_match; eauto with session. apply effects_act. eapply effects_same; [exact Hh|..]; auto.
      * case_split; eauto with session.
    + unfold message, attach_message. repeat case_match; done.
  - destruct (negb (ss_attached s) && negb (ss_expired s) && (ss_start s + ATTACH_TIMEOUT <=? now)) eqn:Ed; [|by apply Hsame; auto with session].
    bsimp. split_and!; [apply effects_close; by eapply effects_same; [apply effects_refl|..]; auto|done|]. intros _. right. split_and!; [done|done|]. cbn. by destruct (ss_grace s).
  - destruct (ss_grace s) as [g|]; [case_split|]; by apply Hsame; auto with session.
  - destruct (ss_cancelled s); by apply Hsame; auto with session.
Qed.

(** What timely runs keep, with the time of the last event. *)
Record in_time (s : Session) (now : Z) : Prop := mkInTime {
  it_grace : forall g, ss_grace s = Some g -> now <= g <= now + CLOSE_GRACE;
  it_closing : closing s = true -> ss_grace s <> None;
  it_cancelled : forall t, ss_cancelled s = Some t -> t <= now;
  it_waiting : ss_attached s = false -> ss_expired s = false -> now <= ss_start s + ATTACH_TIMEOUT;
  it_expired : ss_expired s = true -> exists g, ss_grace s = Some g /\ g <= ss_start s + ATTACH_TIMEOUT + CLOSE_GRACE;
}.

Lemma in_time_step s now e : now <= e.2 -> overdue s e.2 = false -> ss_end (session_step s e) = None -> in_time s now -> in_time (session_step s e) e.2.
Proof.
  intros Hnow Hdue Hend [Hg Hcl Hc Hw Hx]. destruct (step_effects s e) as ([E1 E2 E3 E4 E5 E6] & Eend & Eex). specialize (Eend Hend). set (s' := session_step s e) in *. set (n := e.2) in *.
  unfold overdue in Hdue. rewrite Eend in Hdue. apply orb_false_iff in Hdue as [Hd1 Hd2].
  assert (forall g, ss_grace s = Some g -> n <= g) as Hng.
  { intros g Eg. rewrite Eg in Hd2. destruct (ss_cancelled s) as [t|] eqn:Et; [|by apply Z.ltb_ge in Hd2]. apply Z.ltb_ge in Hd2. specialize (Hc _ eq_refl). specialize (Hg _ Eg). lia. }
  assert (forall g, ss_grace s' = Some g -> n <= g <= n + CLOSE_GRACE) as Hg'.
  { intros g Eg'. destruct E4 as [E|[_ E]]; rewrite Eg' in E; [symmetry in E; specialize (Hg _ E); specialize (Hng _ E); lia|]. injection E as ->. unfold CLOSE_GRACE. lia. }
  constructor; [done| | | |].
  - intros Hcl'. destruct (E5 Hcl') as [Hcl0|?]; [|done]. specialize (Hcl Hcl0). destruct E4 as [E|[_ E]]; rewrite E; done.
  - intros t Et. destruct E6 as [E|[_ E]]; rewrite Et in E; [symmetry in E; specialize (Hc _ E); lia|]. injection E as ->. lia.
  - intros Ha He. rewrite E1. assert (ss_attached s = false) as Ha0 by (destruct (ss_attached s); [by rewrite E2 in Ha|done]).
    assert (ss_expired s = false) as He0 by (destruct (ss_expired s); [by rewrite E3 in He|done]). rewrite Ha0, He0 in Hd1. cbn in Hd1. by apply Z.ltb_ge in Hd1.
  - intros He. rewrite E1. destruct (ss_expired s) eqn:Ex.
    + destruct (Hx eq_refl) as (g & Eg & Hle). exists g. split; [|done]. destruct E4 as [E|[E _]]; congruence.
    + destruct (Eex He) as [?|(Ha & Hle & Hne)]; [done|]. rewrite Ha in Hd1. cbn in Hd1. apply Z.ltb_ge in Hd1. destruct (ss_grace s') as [g|] eqn:Eg; [|done].
      exists g. split; [done|]. destruct (Hg' g eq_refl). lia.
Qed.

Lemma end_stays l s : ss_end (fold_left session_step l s) = None -> ss_end s = None.
Proof. revert s. induction l as [|x l IH]; intros s; cbn; [done|]. intros H%IH. by apply (step_effects s x) in H. Qed.

Lemma in_time_run events e s now :
  timely s now (events ++ [e]) -> ss_end (fold_left session_step (events ++ [e]) s) = None -> in_time s now ->
  in_time (fold_left session_step (events ++ [e]) s) e.2 /\ ss_start (fold_left session_step (events ++ [e]) s) = ss_start s.
Proof.
  revert s now. induction events as [|e' events IH]; intros s now Ht He Hi; cbn [app fold_left] in *.
  - destruct Ht as (Hn & Hd & _). split; [by apply (in_time_step s now e)|]. by destruct (step_effects s e) as ([E1 _ _ _ _ _] & _).
  - destruct Ht as (Hn & Hd & Ht). destruct (step_effects s e') as ([E1 _ _ _ _ _] & _). rewrite <- E1. apply (IH _ e'.2); [done|done|].
    apply (in_time_step s now e'); [done|done| |done]. by apply end_stays in He.
Qed.

(** a session does not stay: while the service answers and the runtime fires its timers in time, one that has not attached is over fifteen seconds after it began,
    and one the server closed is over when the grace period of its first close is, at the latest five seconds later. *)
Theorem session_ends_in_time start events e :
  timely (start_session start) start (events ++ [e]) -> ss_end (run_session start (events ++ [e])) = None ->
  let s := run_session start (events ++ [e]) in
  (ss_attached s = false -> e.2 <= start + 15000) /\ (closing s = true -> exists g, ss_grace s = Some g /\ e.2 <= g <= e.2 + 5000).
Proof.
  intros Ht He. cbv zeta. assert (in_time (run_session start (events ++ [e])) e.2 /\ ss_start (run_session start (events ++ [e])) = start) as [[Hg Hcl _ Hw Hx] Hst].
  { apply (in_time_run events e (start_session start) start Ht He). constructor; cbn; try done; unfold ATTACH_TIMEOUT; lia. }
  rewrite Hst in *. split.
  - intros Ha. specialize (Hw Ha). destruct (ss_expired _) eqn:Ex; [|specialize (Hw eq_refl); unfold ATTACH_TIMEOUT in *; lia].
    destruct (Hx eq_refl) as (g & Eg & Hle). destruct (Hg _ Eg). unfold ATTACH_TIMEOUT, CLOSE_GRACE in *. lia.
  - intros Hc. specialize (Hcl Hc). destruct (ss_grace _) as [g|] eqn:Eg; [|done]. exists g. split; [done|]. specialize (Hg g eq_refl). unfold CLOSE_GRACE in *. lia.
Qed.
End Read.

(** ** The client and the server understand each other *)

(** What a control message of the server says, as the client names it. *)
Definition said (c : ServerControl) : option ServerMessage :=
  match c with
  | ScAttached session routes heartbeat_ms idle_timeout_ms => Some (SAttached session routes heartbeat_ms idle_timeout_ms)
  | ScAttachError code => Some (SAttachError code)
  | ScOpen conn peer sni alpn => Some (SOpen conn peer sni alpn)
  | ScPing time_sent => Some (SPing time_sent)
  | ScPong (JInt time_sent) => Some (SPong time_sent)
  | ScPong _ => None
  | ScEnd conn => Some (SEnd conn)
  | ScReset conn code => Some (SReset conn code)
  end.

Lemma omap_some {A} (l : list A) : omap id (map Some l) = l.
Proof. induction l as [|x l IH]; cbn; [done|]. by f_equal. Qed.

(** each side reads what the other writes: the client every control message of the server as what it says, with its numbers in
    their ranges, and the server every message of the client: an attach with its token, its routes each once and its limit, pings, ends and resets with
    their connection; and both the connection and the bytes of a data frame. *)
Theorem protocol_agrees :
  (forall c m, said c = Some m -> server_ok m -> de_server (control_json c) = Some m) /\
  (forall token routes info service now s, (length routes <= MAX_ROUTES)%nat -> 0 <= max_conns info <= U32_MAX ->
     exists log, ss_log (attach_message (ser_client (CAttach token Ws routes info)) service now s)
       = ss_log s ++ ActAttach token (first_seen [] routes) (Some (max_conns info)) (service token (first_seen [] routes) (Some (max_conns info))) :: log) /\
  (forall conn code, 0 <= conn <= U32_MAX -> control_of (ser_client (CEnd conn)) = Some (KEnd conn) /\ control_of (ser_client (CReset conn code)) = Some (KReset conn)) /\
  (forall t, control_of (ser_client (CPing t)) = Some (KPing (JInt t))) /\
  (forall conn payload, 0 <= conn <= U32_MAX -> decode_data_frame (encode_data_frame conn payload) = Some (conn, payload)).
Proof.
  split_and!.
  - intros c m Hc Hm. replace (control_json c) with (ser_server m); [by apply de_server_ser|]. destruct c as [| | | |[]| |]; cbn in Hc; try done; by injection Hc as <-.
  - intros token routes [ver mc] service now s Hl Hmc. unfold attach_message. cbn [ser_client tagged get lookup_field String.eqb Ascii.eqb Bool.eqb json_str mbind option_bind de_string negb].
    assert (route_values (Some (ser_strings routes)) = Some (map Some routes)) as -> by (unfold ser_strings; cbn; by rewrite map_map).
    unfold requested_routes. rewrite length_map, (proj2 (Nat.ltb_ge _ _)) by done. rewrite omap_some. cbn [get lookup_field String.eqb Ascii.eqb Bool.eqb Frames.max_conns] in *.
    rewrite de_uint_int by (unfold U32_MAX, U64_MAX in *; lia). cbv zeta. destruct (service _ _ _); cbn; rewrite <- ?app_assoc; cbn; by eexists.
  - intros conn code Hc. unfold control_of. cbn -[de_uint]. by rewrite de_uint_int.
  - done.
  - intros conn payload Hc. by apply (data_frame_roundtrip conn payload []).
Qed.

Module SessionDemo.
Definition from_str (text : string) : option Json :=
  if String.eqb text "attach" then Some (ser_client (CAttach "secret" Ws ["@"; "api"; "@"] (mkClientInfo "1.0" 8)))
  else if String.eqb text "end" then Some (ser_client (CEnd 7)) else None.
Definition service (token : string) (routes : list string) (_ : option Z) : AttachResult :=
  if String.eqb token "secret" then AtAttached "sess" routes else AtRefused "bad_token" "bad token".
Definition events : list (SessionEvent * Z) :=
  [(SvMessage (WebSocket.MText "attach") service, 100); (SvMessage (WebSocket.MBinary (encode_data_frame 7 [1])) service, 200);
   (SvMessage (WebSocket.MText "end") service, 300); (SvMessage (WebSocket.MText "?") service, 400); (SvMessage (WebSocket.MText "end") service, 500)].

Example session_log : ss_log (run_session from_str 0 events) =
  [ActAttach "secret" ["@"; "api"] (Some 8) (AtAttached "sess" ["@"; "api"]); ActSend (MText (ScAttached "sess" ["@"; "api"] 15000 45000));
   ActData (encode_data_frame 7 [1]); ActControl (ser_client (CEnd 7)); ActClose 1008 "invalid control"].
Proof. vm_compute. reflexivity. Qed.

Lemma attach_comes_first_witness : exists l1 a l2, ss_log (run_session from_str 0 events) = l1 ++ a :: l2 /\ handled a = true /\ existsb accepted_attach l1 = true.
Proof.
  exists (take 2 (ss_log (run_session from_str 0 events))), (ActData (encode_data_frame 7 [1])), (drop 3 (ss_log (run_session from_str 0 events))).
  split; [vm_compute; reflexivity|]. split; [reflexivity|].
  apply (attach_comes_first from_str 0 events _ (ActData (encode_data_frame 7 [1])) (drop 3 (ss_log (run_session from_str 0 events)))); [vm_compute; reflexivity|reflexivity].
Defined.

Lemma protocol_agrees_witness : de_server (control_json (ScOpen 7 "192.0.2.1:5000" "www.example" "h2")) = Some (SOpen 7 "192.0.2.1:5000" "www.example" "h2") /\
  control_of (ser_client (CReset 7 "io")) = Some (KReset 7).
Proof.
  split; [apply protocol_agrees; [reflexivity|cbn; unfold U32_MAX; lia]|]. apply protocol_agrees. unfold U32_MAX. lia.
Defined.

(** A client that never attaches, at the end of its time. *)
Definition silent : list (SessionEvent * Z) := [(SvMessage (WebSocket.MPing []) service, 500); (SvAttachDeadline, 10000)].
Lemma session_ends_in_time_witness : ss_end (run_session from_str 0 (silent ++ [(SvMessage (WebSocket.MPong []) service, 15000)])) = None /\ 15000 <= 0 + 15000.
Proof.
  split; [vm_compute; reflexivity|].
  apply (session_ends_in_time from_str 0 silent (SvMessage (WebSocket.MPong []) service, 15000)); [|vm_compute; reflexivity|vm_compute; reflexivity].
  cbn. repeat split; lia.
Defined.
Example silent_ends : ss_end (run_session from_str 0 (silent ++ [(SvGrace, 15000); (SvCancelled, 15000)])) = Some (1008, false).
Proof. vm_compute. reflexivity. Qed.
End SessionDemo.
