(* ===== verification/CliConfig.v ===== *)
(** * CliConfig: the route configuration of a profile, [config.rs] of the command line

    The file is TOML with one line per route. TOML's reader and its text of a string are parameters; what the code does with the
    values it reads, what it writes, and how [route add] chooses a name and a change are written out here. *)

From Stdlib Require Import ZArith Lia Ascii String List.
From stdpp Require Import base list strings sets.
From S2P Require Import Prelude Text Addr Names ProxyHeader Frames PeerAuth ClientTunnel ClientStore.

(** ** Routes: a [BTreeMap<String, Route>], its entries in the order of the names' bytes *)

Fixpoint bytes_ltb (a b : bytes) : bool :=
  match a, b with
  | _, [] => false
  | [], _ :: _ => true
  | x :: a', y :: b' => (x <? y) || ((x =? y) && bytes_ltb a' b')
  end.
Definition name_ltb (a b : string) : bool := bytes_ltb (as_bytes a) (as_bytes b).

Fixpoint routes_insert (name : string) (r : Route) (routes : Routes) : Routes :=
  match routes with
  | [] => [(name, r)]
  | (n, old) :: routes' =>
      if String.eqb n name then (name, r) :: routes'
      else if name_ltb name n then (name, r) :: routes
      else (n, old) :: routes_insert name r routes'
  end.

Fixpoint routes_remove (name : string) (routes : Routes) : option Routes :=
  match routes with
  | [] => None
  | (n, r) :: routes' => if String.eqb n name then Some routes' else (cons (n, r)) <$> routes_remove name routes'
  end.

#[export] Instance proxy_version_eq_dec : EqDecision Client.ProxyProtocol.
Proof. solve_decision. Defined.
#[export] Instance route_eq_dec : EqDecision Route.
Proof. solve_decision. Defined.

(** ** Errors *)

Inductive ConfigError :=
| CReading
| CToml
| CRoutesType
| CRoute (e : RouteDeError)
| CBail (message : string).

(** The file as it is found. *)
Inductive ConfigFile := Absent | Present (content : string) | Unreadable.

Definition quote_mark : string := String (ascii_of_nat 34) "".

(** ** Names and targets *)

Definition normalize_target (target : string) : string :=
  if negb (str_is_empty target) && forallb is_ascii_digit (as_bytes target) then "127.0.0.1:" +:+ target else target.

Definition validate (name target : string) : result unit ConfigError :=
  if negb (Protocol.is_valid_route name) then
    Err (CBail ("invalid route name '" +:+ name +:+ "': use '@' or one lowercase DNS label"))
  else if bool_decide (Protocol.parse_target target = None) then
    Err (CBail ("invalid target '" +:+ target +:+ "': use a port or host:port, for example 3000 or 127.0.0.1:3000"))
  else Ok tt.

Definition RANDOM_ROUTE_LENGTH : nat := 16.

(** [fill]: attempt [i] of the generator, [None] where it fails; its answer is as long as the buffer. *)
Fixpoint random_attempts (fill : nat -> option bytes) (attempts i : nat) (routes : Routes) : result string ConfigError :=
  match attempts with
  | O => Err (CBail "could not generate an unused route name")
  | S attempts' =>
      match fill i with
      | None => Err (CBail "the system random number generator failed")
      | Some b =>
          let name := hex b in
          match route_at routes name with
          | None => Ok name
          | Some _ => random_attempts fill attempts' (S i) routes
          end
      end
  end.
Definition random_route_name (fill : nat -> option bytes) (routes : Routes) : result string ConfigError := random_attempts fill 8 0 routes.

(** ** What [route add] writes *)

Inductive Change := Added | Unchanged | Updated (previous : Route).

Definition change_of (routes : Routes) (name : string) (r : Route) : Change :=
  match route_at routes name with
  | None => Added
  | Some existing => if decide (existing = r) then Unchanged else Updated existing
  end.

Definition choose_route (fill : nat -> option bytes) (routes : Routes) (r : Route) (name : option string) : result (string * Change) ConfigError :=
  let? name :=
    match name with
    | Some name => let? _ := validate name (target r) in Ok name
    | None =>
        let? _ := validate Protocol.ROOT_ROUTE (target r) in
        match List.find (fun e => String.eqb (target (snd e)) (target r)) routes with
        | Some (existing, _) => Ok existing
        | None => random_route_name fill routes
        end
    end in
  Ok (name, change_of routes name r).

(** [routes.insert] unless nothing changes. *)
Definition written_routes (routes : Routes) (name : string) (r : Route) (change : Change) : Routes :=
  match change with Unchanged => routes | _ => routes_insert name r routes end.

Definition public_hostname (route hostname : string) : string :=
  if decide (route = Protocol.ROOT_ROUTE) then hostname else route +:+ "." +:+ hostname.

(** ** The file *)

Definition bare_byte (b : Z) : bool := is_ascii_alphanumeric b || (b =? 45) || (b =? 95).
Definition is_bare (name : string) : bool := negb (str_is_empty name) && forallb bare_byte (as_bytes name).

Section Toml.
(** [toml::from_str] into a table, and the text of a [toml::Value::String]. *)
Context (toml_table : string -> option (list (string * Json))) (toml_string : string -> string).

Definition render_line (e : string * Route) : string :=
  let key := if is_bare (fst e) then fst e else toml_string (fst e) in
  let text := toml_string (target (snd e)) in
  let value :=
    match proxy_protocol (snd e) with
    | None => text
    | Some version => "{ target = " +:+ text +:+ ", proxy_protocol = " +:+ quote_mark +:+ Client.as_str version +:+ quote_mark +:+ " }"
    end in
  key +:+ " = " +:+ value +:+ newline.
Fixpoint render_lines (routes : Routes) : string :=
  match routes with [] => "" | e :: routes' => render_line e +:+ render_lines routes' end.
Definition render (routes : Routes) : string := "[routes]" +:+ newline +:+ render_lines routes.

(** The derived reader of [Config]: [routes] may be missing, other tables are left aside. *)
Fixpoint de_routes (entries : list (string * Json)) (routes : Routes) : result Routes ConfigError :=
  match entries with
  | [] => Ok routes
  | (name, value) :: entries' =>
      let? r := result_map_err CRoute (de_route value) in
      de_routes entries' (routes_insert name r routes)
  end.
Definition de_config (table : list (string * Json)) : result Routes ConfigError :=
  match lookup_field "routes" table with
  | None => Ok []
  | Some (JObj entries) => de_routes entries []
  | Some _ => Err CRoutesType
  end.

Fixpoint validate_all (routes : Routes) : result unit ConfigError :=
  match routes with
  | [] => Ok tt
  | (name, r) :: routes' => let? _ := validate name (target r) in validate_all routes'
  end.

Definition parse (content : string) : result Routes ConfigError :=
  let? table := ok_or (toml_table content) CToml in
  let? routes := de_config table in
  let? _ := validate_all routes in
  Ok routes.

Definition load_config (file : ConfigFile) : result Routes ConfigError :=
  match file with
  | Absent => Ok []
  | Present content => parse content
  | Unreadable => Err CReading
  end.
End Toml.

(** ** The order of the names *)

Lemma bytes_ltb_trans a b c : bytes_ltb a b = true -> bytes_ltb b c = true -> bytes_ltb a c = true.
Proof.
  revert b c; induction a as [|x a IH]; intros [|y b] [|z c]; simpl; try done.
  intros [H1|[H1 H2]%andb_prop]%orb_prop [H3|[H3 H4]%andb_prop]%orb_prop; bsimp; apply orb_true_intro.
  1-3: left; apply Z.ltb_lt; lia.
  right. apply andb_true_intro. split; [apply Z.eqb_eq; lia|eauto].
Qed.

Lemma bytes_ltb_irrefl a : bytes_ltb a a = false.
Proof. induction a as [|x a IH]; [done|]. simpl. by rewrite Z.ltb_irrefl, Z.eqb_refl, IH. Qed.

Lemma bytes_ltb_total a b : a <> b -> bytes_ltb a b = false -> bytes_ltb b a = true.
Proof.
  revert b; induction a as [|x a IH]; intros [|y b] Hne; simpl; try done.
  intros [H1 H2]%orb_false_elim. bsimp. apply orb_true_intro.
  destruct (Z.eqb_spec x y) as [->|Hxy]; [|left; apply Z.ltb_lt; lia].
  right. rewrite Z.eqb_refl. simpl in *. apply IH; [congruence|done].
Qed.

Lemma name_ltb_trans a b c : name_ltb a b = true -> name_ltb b c = true -> name_ltb a c = true.
Proof. apply bytes_ltb_trans. Qed.
Lemma name_ltb_ne a b : name_ltb a b = true -> a <> b.
Proof. intros H ->. unfold name_ltb in H. by rewrite bytes_ltb_irrefl in H. Qed.
Lemma name_ltb_total a b : a <> b -> name_ltb a b = false -> name_ltb b a = true.
Proof. intros Hne. apply bytes_ltb_total. by intros ?%as_bytes_inj. Qed.

(** The entries are in order, each name once. *)
Fixpoint in_order (routes : Routes) : Prop :=
  match routes with
  | [] => True
  | (n, _) :: routes' => Forall (fun e => name_ltb n (fst e) = true) routes' /\ in_order routes'
  end.

Lemma route_at_above n routes : Forall (fun e => name_ltb n (fst e) = true) routes -> route_at routes n = None.
Proof.
  induction 1 as [|[m r] routes Hm _ IH]; [done|]. simpl in *. destruct (String.eqb_spec m n) as [->|]; [|done].
  by apply name_ltb_ne in Hm.
Qed.

Lemma route_at_elem routes n r : route_at routes n = Some r -> (n, r) ∈ routes.
Proof.
  induction routes as [|[m r'] routes IH]; [done|]. simpl. destruct (String.eqb_spec m n) as [->|]; [|set_solver].
  intros [= ->]. set_solver.
Qed.

Lemma elem_route_at routes n r : in_order routes -> (n, r) ∈ routes -> route_at routes n = Some r.
Proof.
  induction routes as [|[m r'] routes IH]; [set_solver|]. intros [Hm Ho] [[= <- <-]|Hin]%elem_of_cons; simpl.
  { by rewrite String.eqb_refl. }
  destruct (String.eqb_spec m n) as [->|]; [|eauto].
  rewrite Forall_forall in Hm. apply Hm, name_ltb_ne in Hin. done.
Qed.

Lemma routes_insert_elem name r routes e : e ∈ routes_insert name r routes -> e = (name, r) \/ e ∈ routes.
Proof. induction routes as [|[n old] routes IH]; simpl; [set_solver|]. repeat case_split; set_solver. Qed.

Lemma routes_insert_in_order name r routes : in_order routes -> in_order (routes_insert name r routes).
Proof.
  induction routes as [|[n old] routes IH]; [done|]. intros [Hn Ho]. simpl.
  destruct (String.eqb_spec n name) as [->|Hne]; [done|]. destruct (name_ltb name n) eqn:E.
  - split; [|done]. constructor; [done|]. eapply Forall_impl; [exact Hn|]. intros e He. cbn beta in *. by eapply name_ltb_trans.
  - split; [|auto]. apply Forall_forall. intros e [->|He]%routes_insert_elem; [by apply name_ltb_total|].
    rewrite Forall_forall in Hn. auto.
Qed.

Lemma route_at_insert name r routes n : in_order routes ->
  route_at (routes_insert name r routes) n = if String.eqb name n then Some r else route_at routes n.
Proof.
  induction routes as [|[m old] routes IH]; [done|]. intros [Hm Ho]. simpl.
  destruct (String.eqb_spec m name) as [->|Hne]; [simpl; by destruct (String.eqb name n)|].
  destruct (name_ltb name m) eqn:E; [done|]. simpl. rewrite IH by done.
  destruct (String.eqb_spec m n) as [->|], (String.eqb_spec name n) as [->|]; done.
Qed.

Lemma routes_insert_last name r routes : Forall (fun e => name_ltb (fst e) name = true) routes -> routes_insert name r routes = routes ++ [(name, r)].
Proof.
  induction 1 as [|[n old] routes Hn _ IH]; [done|]. simpl in *.
  destruct (String.eqb_spec n name) as [->|]; [by apply name_ltb_ne in Hn|].
  destruct (name_ltb name n) eqn:E; [|by rewrite IH]. by pose proof (name_ltb_ne _ _ (name_ltb_trans _ _ _ Hn E)).
Qed.

(** [remove] takes the entry of the name and nothing else. *)
Lemma routes_remove_spec name routes :
  match routes_remove name routes with
  | None => route_at routes name = None
  | Some routes' => is_Some (route_at routes name) /\ (in_order routes ->
      in_order routes' /\ forall n, route_at routes' n = if String.eqb name n then None else route_at routes n) /\
      forall e, e ∈ routes' -> e ∈ routes
  end.
Proof.
  induction routes as [|[m r] routes IH]; [done|]. simpl. destruct (String.eqb_spec m name) as [->|Hne].
  { split; [done|]. split; [|set_solver]. intros [Hm Ho]. split; [done|]. intros n.
    destruct (String.eqb_spec name n) as [->|]; [by apply route_at_above|done]. }
  destruct (routes_remove name routes) as [routes'|]; [|done]. simpl. destruct IH as (Hs & IH & Hsub).
  split; [done|]. split; [|set_solver]. intros [Hm Ho]. destruct (IH Ho) as [Ho' IH']. split.
  { split; [|done]. apply Forall_forall. intros e He. rewrite Forall_forall in Hm. auto. }
  intros n. simpl. rewrite IH'. destruct (String.eqb_spec m n) as [->|], (String.eqb_spec name n) as [->|]; done.
Qed.

(** ** Random names *)

Lemma hex_digit_valid d : 0 <= d < 16 -> Protocol.valid_char (hex_digit d) = true.
Proof.
  intros Hd. unfold Protocol.valid_char, is_ascii_lowercase, is_ascii_digit, hex_digit.
  destruct (d <? 10) eqn:E; bsimp; apply orb_true_iff; [right|left]; apply andb_true_iff; split; apply Z.leb_le; lia.
Qed.

Lemma hex_bytes_valid b : bytes_ok b -> Forall (fun x => Protocol.valid_char x = true) (hex_bytes b).
Proof.
  unfold hex_bytes. induction 1 as [|x b Hx _ IH]; [constructor|]. unfold byte_ok in Hx. cbn [map concat app].
  constructor; [|constructor; [|done]]; apply hex_digit_valid; [|apply Z.mod_pos_bound; lia].
  split; [apply Z.div_pos; lia|apply Z.div_lt_upper_bound; lia].
Qed.

Lemma valid_chars_label v : (2 <= length (as_bytes v) <= 63)%nat -> Forall (fun b => Protocol.valid_char b = true) (as_bytes v) -> Protocol.is_label v = true.
Proof.
  unfold Protocol.is_label. destruct (as_bytes v) as [|x [|y l]] eqn:E; simpl length; [lia..|]. intros Hlen Hv.
  apply List.Forall_cons_iff in Hv as [Hx Hv]. rewrite !andb_true_iff. split_and!; [apply Nat.leb_le; simpl; lia|done| |].
  - rewrite Forall_forall in Hv. apply Hv. apply list_elem_of_In. destruct (exists_last (l := y :: l)) as (l' & z & ->); [done|].
    rewrite List.last_last. apply in_or_app. simpl. auto.
  - apply forallb_forall. intros z Hz. rewrite Forall_forall in Hv. rewrite Hv; [done|].
    apply list_elem_of_In. destruct (exists_last (l := y :: l)) as (l' & w & E'); [done|]. rewrite E' in Hz |- *.
    rewrite removelast_last in Hz. apply in_or_app. auto.
Qed.

Definition fills (fill : nat -> option bytes) : Prop := forall i b, fill i = Some b -> bytes_ok b /\ length b = (RANDOM_ROUTE_LENGTH / 2)%nat.

Lemma random_attempts_spec fill attempts : fills fill -> forall i routes name,
  random_attempts fill attempts i routes = Ok name ->
  Protocol.is_label name = true /\ str_len name = RANDOM_ROUTE_LENGTH /\ route_at routes name = None.
Proof.
  intros Hf. induction attempts as [|attempts IH]; intros i routes name; simpl; [done|].
  destruct (fill i) as [b|] eqn:E; [|done]. destruct (route_at routes (hex b)) eqn:Er; [apply IH|].
  intros [= <-]. apply Hf in E as [Hb Hlen]. pose proof (as_bytes_hex b Hb) as Ea. pose proof (length_hex_bytes b) as Hl.
  rewrite Hlen in Hl. split_and!; [|unfold str_len; by rewrite Ea, Hl|done].
  apply valid_chars_label; rewrite Ea; [rewrite Hl; unfold RANDOM_ROUTE_LENGTH; simpl; lia|by apply hex_bytes_valid].
Qed.

(** ** Adding a route *)

Definition entry_ok (e : string * Route) : Prop := validate (fst e) (target (snd e)) = Ok tt.
Definition config_ok (routes : Routes) : Prop := in_order routes /\ Forall entry_ok routes.

Lemma validate_spec name t : validate name t = Ok tt <-> Protocol.is_valid_route name = true /\ is_Some (Protocol.parse_target t).
Proof.
  unfold validate. destruct (Protocol.is_valid_route name); simpl; [|naive_solver].
  rewrite is_Some_alt. case_bool_decide as E; [rewrite E; naive_solver|]. destruct (Protocol.parse_target t); naive_solver.
Qed.

Lemma written_routes_spec routes name r : config_ok routes -> validate name (target r) = Ok tt ->
  let routes' := written_routes routes name r (change_of routes name r) in
  config_ok routes' /\ forall n, route_at routes' n = if String.eqb name n then Some r else route_at routes n.
Proof.
  intros [Ho Hv] Hname. unfold written_routes, change_of.
  assert (config_ok (routes_insert name r routes) /\ forall n, route_at (routes_insert name r routes) n = if String.eqb name n then Some r else route_at routes n) as Hins.
  { split; [|intros n; by apply route_at_insert]. split; [by apply routes_insert_in_order|].
    apply Forall_forall. intros e [->|He]%routes_insert_elem; [done|]. rewrite Forall_forall in Hv. auto. }
  destruct (route_at routes name) as [existing|] eqn:E; [|done]. case_decide as Hr; [|done]. subst.
  split; [done|]. intros n. by destruct (String.eqb_spec name n) as [<-|].
Qed.

(** The first route of a target keeps being the first when it is rewritten with the same target. *)
Lemma find_insert t name r routes (p := fun e : string * Route => String.eqb (target (snd e)) t) :
  in_order routes -> target r = t ->
  match List.find p routes with Some e => fst e = name | None => route_at routes name = None end ->
  List.find p (routes_insert name r routes) = Some (name, r).
Proof.
  subst p. induction routes as [|[n old] routes IH]; intros Ho Ht Hf; simpl in *; [by rewrite Ht, String.eqb_refl|].
  destruct Ho as [Hn Ho]. destruct (String.eqb_spec (target old) t) as [Et|Et]; simpl in Hf.
  { subst n. rewrite String.eqb_refl. simpl. by rewrite Ht, String.eqb_refl. }
  destruct (String.eqb_spec n name) as [->|Hne]; [simpl; by rewrite Ht, String.eqb_refl|].
  destruct (name_ltb name n) eqn:E; simpl; [by rewrite Ht, String.eqb_refl|].
  rewrite (proj2 (String.eqb_neq _ _) Et). auto.
Qed.

Lemma change_of_same routes name r : route_at routes name = Some r -> change_of routes name r = Unchanged.
Proof. intros E. unfold change_of. rewrite E. by rewrite decide_True. Qed.

Lemma choose_route_name fill routes r name n change : config_ok routes -> fills fill ->
  choose_route fill routes r name = Ok (n, change) ->
  validate n (target r) = Ok tt /\ change = change_of routes n r /\
  match name with
  | Some name => n = name
  | None => match List.find (fun e => String.eqb (target (snd e)) (target r)) routes with
            | Some e => n = fst e
            | None => str_len n = RANDOM_ROUTE_LENGTH /\ route_at routes n = None
            end
  end.
Proof.
  intros [Ho Hv] Hf. unfold choose_route. destruct name as [name|].
  { destruct (validate name (target r)) as [[]|] eqn:E; simpl; [|done]. by intros [= <- <-]. }
  destruct (validate Protocol.ROOT_ROUTE (target r)) as [[]|] eqn:E; simpl; [|done]. apply validate_spec in E as [_ Ht].
  destruct (List.find _ routes) as [[existing old]|] eqn:Ef; simpl.
  - intros [= <- <-]. split; [|done]. apply find_some in Ef as [Hin _]. apply list_elem_of_In in Hin.
    rewrite Forall_forall in Hv. apply Hv, validate_spec in Hin as [Hin _]. by apply validate_spec.
  - destruct (random_route_name fill routes) as [x|] eqn:Er; simpl; [|done]. intros [= <- <-].
    apply random_attempts_spec in Er as (Hl & Hlen & Hr); [|done]. split_and!; try done. apply validate_spec. split; [|done].
    unfold Protocol.is_valid_route. rewrite Hl. apply orb_true_r.
Qed.

(** [route add] writes the route under the name it was given, the name the target already has, or a fresh random name of
    sixteen characters; the file stays valid, no other route changes, and repeating the command finds the route under the same
    name and changes nothing. *)
Theorem route_add_repeats fill fill' routes r name n change :
  config_ok routes -> fills fill -> choose_route fill routes r name = Ok (n, change) ->
  let routes' := written_routes routes n r change in
  config_ok routes' /\ route_at routes' n = Some r /\ (forall m, m <> n -> route_at routes' m = route_at routes m) /\
  match name with
  | Some name => n = name
  | None => match List.find (fun e => String.eqb (target (snd e)) (target r)) routes with
            | Some e => n = fst e
            | None => str_len n = RANDOM_ROUTE_LENGTH /\ route_at routes n = None
            end
  end /\
  choose_route fill' routes' r name = Ok (n, Unchanged).
Proof.
  intros Hc Hf Hch routes'. destruct (choose_route_name fill routes r name n change) as (Hv & -> & Hn); [done..|].
  destruct (written_routes_spec routes n r Hc Hv) as [Hc' Hat]. fold routes' in Hc', Hat.
  assert (route_at routes' n = Some r) as Hr by (rewrite Hat; by rewrite String.eqb_refl).
  split_and!; [done..| |done|].
  { intros m Hm. rewrite Hat. by rewrite (proj2 (String.eqb_neq n m)) by done. }
  unfold choose_route. destruct name as [name|].
  { subst name. rewrite Hv. simpl. by rewrite (change_of_same _ _ _ Hr). }
  assert (validate Protocol.ROOT_ROUTE (target r) = Ok tt) as -> by (apply validate_spec in Hv as [_ Hv]; by apply validate_spec).
  simpl. assert (List.find (fun e => String.eqb (target (snd e)) (target r)) routes' = Some (n, r)) as ->.
  { subst routes'. unfold written_routes, change_of in *. destruct (route_at routes n) as [existing|] eqn:E.
    - destruct (List.find _ routes) as [[n' old]|] eqn:Ef; [|by destruct Hn]. simpl in Hn. subst n'.
      case_decide as He; [|apply find_insert; [apply Hc|done|by rewrite Ef]]. subst existing. rewrite Ef. f_equal. f_equal.
      apply find_some in Ef as [Hin _]. apply list_elem_of_In in Hin. apply elem_route_at in Hin; [|apply Hc]. congruence.
    - apply find_insert; [apply Hc|done|]. destruct (List.find _ routes) as [e|]; [done|]. by destruct Hn. }
  simpl. by rewrite (change_of_same _ _ _ Hr).
Qed.

(** ** Writing and reading back *)

(** Lines of a TOML document: a bare or a quoted key, a string or an inline table of strings. *)
Inductive TomlKey := BareKey (name : string) | QuotedKey (name : string).
Inductive TomlValue := TomlString (s : string) | TomlInline (fields : list (string * string)).
Definition key_name (k : TomlKey) : string := match k with BareKey name | QuotedKey name => name end.
Definition toml_line_ok (e : TomlKey * TomlValue) : Prop :=
  match fst e with BareKey name => is_bare name = true | QuotedKey _ => True end /\
  match snd e with TomlInline fields => fields <> [] /\ Forall (fun f => is_bare (fst f) = true) fields /\ NoDup (map fst fields) | TomlString _ => True end.
Definition toml_value (v : TomlValue) : Json :=
  match v with TomlString s => JStr s | TomlInline fields => JObj (map (fun f => (fst f, JStr (snd f))) fields) end.

Section TomlText.
Context (toml_string : string -> string).
Fixpoint fields_text (fields : list (string * string)) : string :=
  match fields with
  | [] => ""
  | [(k, s)] => k +:+ " = " +:+ toml_string s
  | (k, s) :: fields' => k +:+ " = " +:+ toml_string s +:+ ", " +:+ fields_text fields'
  end.
Definition line_text (e : TomlKey * TomlValue) : string :=
  match fst e with BareKey name => name | QuotedKey name => toml_string name end +:+ " = " +:+
  match snd e with TomlString s => toml_string s | TomlInline fields => "{ " +:+ fields_text fields +:+ " }" end +:+ newline.
Definition document_text (lines : list (TomlKey * TomlValue)) : string :=
  "[routes]" +:+ newline +:+ fold_right (fun e text => line_text e +:+ text) "" lines.
End TomlText.

(** What TOML says of such a document: a table [routes] with an entry per line; and the text of a plain word is the word in
    quotation marks. *)
Record toml_reads (toml_table : string -> option (list (string * Json))) (toml_string : string -> string) (lines : list (TomlKey * TomlValue)) : Prop := mkTomlReads {
  tr_document : Forall toml_line_ok lines -> NoDup (map (fun e => key_name (fst e)) lines) ->
    toml_table (document_text toml_string lines) = Some [("routes", JObj (map (fun e => (key_name (fst e), toml_value (snd e))) lines))];
  tr_word : forall s, is_bare s = true -> toml_string s = quote_mark +:+ s +:+ quote_mark;
}.

Definition toml_entry (e : string * Route) : TomlKey * TomlValue :=
  (if is_bare (fst e) then BareKey (fst e) else QuotedKey (fst e),
   match proxy_protocol (snd e) with
   | None => TomlString (target (snd e))
   | Some version => TomlInline [("target", target (snd e)); ("proxy_protocol", Client.as_str version)]
   end).

Lemma render_document toml_string routes : (forall s, is_bare s = true -> toml_string s = quote_mark +:+ s +:+ quote_mark) ->
  render toml_string routes = document_text toml_string (map toml_entry routes).
Proof.
  intros Hw. unfold render, document_text. f_equal. f_equal. induction routes as [|[name r] routes IH]; [done|].
  cbn [map fold_right render_lines]. rewrite IH. f_equal. unfold render_line, line_text, toml_entry. cbn [fst snd].
  destruct (proxy_protocol r) as [version|]; cbn [fields_text].
  - rewrite (Hw (Client.as_str version)) by (by destruct version). rewrite <- !string_app_assoc. by destruct (is_bare name).
  - by destruct (is_bare name).
Qed.

Lemma toml_entry_ok e : toml_line_ok (toml_entry e).
Proof.
  destruct e as [name r]. unfold toml_line_ok, toml_entry. cbn [fst snd]. split; [by destruct (is_bare name) eqn:E|].
  destruct (proxy_protocol r); [|done]. split_and!; [done|repeat constructor|]. simpl. apply NoDup_cons; split; [set_solver|apply NoDup_singleton].
Qed.

Lemma toml_entry_key e : key_name (fst (toml_entry e)) = fst e.
Proof. unfold toml_entry. simpl. by destruct (is_bare (fst e)). Qed.

Lemma de_toml_entry e : de_route (toml_value (snd (toml_entry e))) = Ok (snd e).
Proof. destruct e as [name [t [[]|]]]; reflexivity. Qed.

Lemma in_order_NoDup routes : in_order routes -> NoDup (map fst routes).
Proof.
  induction routes as [|[n r] routes IH]; [constructor|]. intros [Hn Ho]. simpl. constructor; [|auto].
  intros Hin. apply list_elem_of_In, in_map_iff in Hin as ([m r'] & Em & Hin). simpl in Em. subst m.
  apply list_elem_of_In in Hin. rewrite Forall_forall in Hn. by apply Hn, name_ltb_ne in Hin.
Qed.

Lemma de_routes_sorted routes : forall before, in_order (before ++ routes) ->
  de_routes (map (fun e => (key_name (fst (toml_entry e)), toml_value (snd (toml_entry e)))) routes) before = Ok (before ++ routes).
Proof.
  induction routes as [|[n r] routes IH]; intros before Ho; simpl; [by rewrite app_nil_r|].
  pose proof (de_toml_entry (n, r)) as Hd. pose proof (toml_entry_key (n, r)) as Hk. simpl in Hd, Hk. rewrite Hd, Hk. simpl.
  assert (routes_insert n r before = before ++ [(n, r)]) as ->.
  { apply routes_insert_last. clear -Ho. induction before as [|[m r'] before IH]; [constructor|]. destruct Ho as [Hm Ho].
    constructor; [|auto]. simpl. rewrite Forall_app in Hm. destruct Hm as [_ Hm]. by inversion Hm. }
  rewrite IH; rewrite <- app_assoc; done.
Qed.

Lemma validate_all_ok routes : validate_all routes = Ok tt <-> Forall entry_ok routes.
Proof.
  induction routes as [|[n r] routes IH]; simpl; [by split|]. rewrite List.Forall_cons_iff, <- IH. unfold entry_ok. simpl.
  destruct (validate n (target r)) as [[]|]; simpl; naive_solver.
Qed.

Lemma render_read toml_table toml_string routes : toml_reads toml_table toml_string (map toml_entry routes) -> config_ok routes ->
  parse toml_table (render toml_string routes) = Ok routes.
Proof.
  intros [Hdoc Hw] [Ho Hv]. unfold parse. rewrite render_document by done. rewrite Hdoc.
  - rewrite map_map. cbn [ok_or result_bind]. unfold de_config. cbn [lookup_field String.eqb Ascii.eqb Bool.eqb].
    rewrite (de_routes_sorted routes []) by done. simpl. by rewrite (proj2 (validate_all_ok routes) Hv).
  - apply Forall_map, Forall_forall. intros e _. apply toml_entry_ok.
  - rewrite map_map, (map_ext _ fst) by apply toml_entry_key. by apply in_order_NoDup.
Qed.

(** What is read is valid and in order. *)
Lemma de_routes_in_order entries : forall routes routes', de_routes entries routes = Ok routes' -> in_order routes -> in_order routes'.
Proof.
  induction entries as [|[n v] entries IH]; intros routes routes'; simpl; [by intros [= ->]|].
  destruct (result_map_err CRoute (de_route v)); simpl; [|done]. intros H Ho. by eapply IH, routes_insert_in_order.
Qed.

Lemma load_config_ok toml_table file routes : load_config toml_table file = Ok routes -> config_ok routes.
Proof.
  destruct file as [|content|]; simpl; [intros [= <-]; repeat constructor| |done]. unfold parse.
  destruct (toml_table content) as [table|]; simpl; [|done]. destruct (de_config table) as [routes'|] eqn:E; simpl; [|done].
  destruct (validate_all routes') as [[]|] eqn:Ev; simpl; [|done]. intros [= <-]. split; [|by apply validate_all_ok].
  unfold de_config in E. destruct (lookup_field "routes" table) as [[]|]; try done; [|by injection E as <-].
  by eapply de_routes_in_order.
Qed.

(** ** A concrete file *)

Module ConfigDemo.
Definition demo_routes : Routes := [("api", mkRoute "127.0.0.1:3000" None)].
Definition demo_fill (i : nat) : option bytes := Some [0; 1; 2; 3; 4; 5; 6; 255].

Lemma demo_config_ok : config_ok demo_routes.
Proof. split; [repeat constructor|]. constructor; [reflexivity|constructor]. Qed.
Lemma demo_fills : fills demo_fill.
Proof. intros i b [= <-]. split; [|reflexivity]. repeat constructor; unfold byte_ok; lia. Qed.

Lemma route_add_repeats_witness :
  choose_route demo_fill demo_routes (mkRoute "127.0.0.1:4000" None) None = Ok ("00010203040506ff", Added) /\
  choose_route (fun _ => None) (written_routes demo_routes "00010203040506ff" (mkRoute "127.0.0.1:4000" None) Added)
    (mkRoute "127.0.0.1:4000" None) None = Ok ("00010203040506ff", Unchanged).
Proof.
  assert (choose_route demo_fill demo_routes (mkRoute "127.0.0.1:4000" None) None = Ok ("00010203040506ff", Added)) as E by (vm_compute; reflexivity).
  split; [exact E|].
  exact (proj2 (proj2 (proj2 (proj2 (route_add_repeats demo_fill (fun _ => None) demo_routes (mkRoute "127.0.0.1:4000" None) None
    "00010203040506ff" Added demo_config_ok demo_fills E))))).
Defined.
End ConfigDemo.
