(* ===== verification/Daemon.v ===== *)
(** * Daemon: the background service of a profile and the commands that talk to it

    [daemon.rs], [service.rs], [control.rs] and the commands of [main.rs] of the command line. The service runs one tunnel for
    its profile, with the routes of the config file and the identity of the profile's directory. The machine around it changes
    at any moment: the file is edited, the identity is saved or removed, the tunnel's task reports, a provisioning task ends. A
    schedule says what happens before each of the service's looks at the machine. *)

From Stdlib Require Import ZArith Lia Ascii String List.
From stdpp Require Import base list strings gmap.
From S2P Require Import Prelude Text Names Frames ClientTunnel ClientStore CliConfig.

(** ** The machine *)

(** A tunnel's task: what it was started with, the routes last sent to it, its status, and whether its handle was dropped. *)
Record Proc := mkProc { pr_identity : Identity; pr_routes : Routes; pr_status : Status; pr_shutdown : bool }.
Inductive TaskState := Working | Finished | Aborted.

Record Host := mkHost {
  ho_files : Files;
  ho_config : ConfigFile;
  ho_modified : option Z;
  ho_tunnels : gmap nat Proc;
  ho_next : nat;
  ho_tasks : gmap nat TaskState;
  ho_error : option string;
  ho_records : list string;
}.
Definition set_config (file : ConfigFile) (modified : option Z) (h : Host) : Host :=
  mkHost (ho_files h) file modified (ho_tunnels h) (ho_next h) (ho_tasks h) (ho_error h) (ho_records h).
Definition set_files (fs : Files) (h : Host) : Host :=
  mkHost fs (ho_config h) (ho_modified h) (ho_tunnels h) (ho_next h) (ho_tasks h) (ho_error h) (ho_records h).
Definition set_tunnels (ts : gmap nat Proc) (h : Host) : Host :=
  mkHost (ho_files h) (ho_config h) (ho_modified h) ts (ho_next h) (ho_tasks h) (ho_error h) (ho_records h).
Definition set_tasks (ts : gmap nat TaskState) (h : Host) : Host :=
  mkHost (ho_files h) (ho_config h) (ho_modified h) (ho_tunnels h) (ho_next h) ts (ho_error h) (ho_records h).
Definition set_error (e : option string) (h : Host) : Host :=
  mkHost (ho_files h) (ho_config h) (ho_modified h) (ho_tunnels h) (ho_next h) (ho_tasks h) e (ho_records h).
Definition set_next (n : nat) (h : Host) : Host :=
  mkHost (ho_files h) (ho_config h) (ho_modified h) (ho_tunnels h) n (ho_tasks h) (ho_error h) (ho_records h).
Definition add_record (m : string) (h : Host) : Host :=
  mkHost (ho_files h) (ho_config h) (ho_modified h) (ho_tunnels h) (ho_next h) (ho_tasks h) (ho_error h) (ho_records h ++ [m]).

(** What happens on it: an edit of the config file, a change of the profile's files, a report of a tunnel's task, which ends
    with [Stopped], and the error and the end of a provisioning task. *)
Inductive HostEvent :=
| HEdit (file : ConfigFile) (modified : option Z)
| HFiles (fs : Files)
| HStatus (tunnel : nat) (status : Status)
| HProvisionError (task : nat) (error : string)
| HProvisionEnd (task : nat).

Definition host_step (h : Host) (e : HostEvent) : Host :=
  match e with
  | HEdit file modified => set_config file modified h
  | HFiles fs => set_files fs h
  | HStatus t status =>
      match ho_tunnels h !! t with
      | Some p =>
          match su_state (pr_status p) with
          | StStopped => h
          | _ => set_tunnels (<[t := mkProc (pr_identity p) (pr_routes p) status (pr_shutdown p)]> (ho_tunnels h)) h
          end
      | None => h
      end
  | HProvisionError task error => match ho_tasks h !! task with Some Working => set_error (Some error) h | _ => h end
  | HProvisionEnd task => match ho_tasks h !! task with Some Working => set_tasks (<[task := Finished]> (ho_tasks h)) h | _ => h end
  end.

(** ** The service *)

Record Daemon := mkDaemon {
  da_running : option (Identity * nat);
  da_provisioning : option nat;
  da_stopped : bool;
  da_last_error : option string;
  da_config_modified : option Z;
}.
Definition new_daemon : Daemon := mkDaemon None None false None None.
Definition set_running (x : option (Identity * nat)) (d : Daemon) : Daemon :=
  mkDaemon x (da_provisioning d) (da_stopped d) (da_last_error d) (da_config_modified d).
Definition set_provisioning (x : option nat) (d : Daemon) : Daemon :=
  mkDaemon (da_running d) x (da_stopped d) (da_last_error d) (da_config_modified d).
Definition set_stopped (x : bool) (d : Daemon) : Daemon :=
  mkDaemon (da_running d) (da_provisioning d) x (da_last_error d) (da_config_modified d).
Definition set_last_error (x : option string) (d : Daemon) : Daemon :=
  mkDaemon (da_running d) (da_provisioning d) (da_stopped d) x (da_config_modified d).
Definition set_config_modified (x : option Z) (d : Daemon) : Daemon :=
  mkDaemon (da_running d) (da_provisioning d) (da_stopped d) (da_last_error d) x.

(** The service at work: its state, the machine, and what will happen before its next looks. *)
Record Dm := mkDm { dm_daemon : Daemon; dm_host : Host; dm_schedule : list (list HostEvent) }.
Definition on_daemon (f : Daemon -> Daemon) (s : Dm) : Dm := mkDm (f (dm_daemon s)) (dm_host s) (dm_schedule s).
Definition on_host (f : Host -> Host) (s : Dm) : Dm := mkDm (dm_daemon s) (f (dm_host s)) (dm_schedule s).
Definition look (s : Dm) : Dm :=
  match dm_schedule s with
  | [] => s
  | events :: rest => mkDm (dm_daemon s) (fold_left host_step events (dm_host s)) rest
  end.

Inductive DaemonError :=
| DeStore (e : StoreFailure)
| DeConfig (e : ConfigError)
| DeRoutes (e : RouteError)
| DeNoTunnel
| DeCrypto.

Inductive Phase := NoTunnel | Provisioning | Running | Stopped.
Record DaemonStatus := mkDaemonStatus { ds_phase : Phase; ds_tunnel : option Status; ds_last_error : option string }.

Inductive Command := CmdStatus | CmdReload | CmdStop.
Record Response := mkResponse { rs_ok : bool; rs_status : option DaemonStatus; rs_error : option string }.

Section Daemon.
(** The profile and its files' JSON, the config's TOML, rustls' verdict on a key and its certificates, and the text of an error. *)
Context `{Metadata} (profile : string) (toml_table : string -> option (list (string * Json))) (acceptor_ok : Identity -> bool)
  (daemon_error_text : DaemonError -> string).

(** [client.get] and [client.pending]. *)
Definition client_get (h : Host) : result (option Identity) DaemonError := result_map_err DeStore (load profile (ho_files h)).
Definition client_pending (h : Host) : result (option PendingIdentity) DaemonError := result_map_err DeStore (load_pending profile (ho_files h)).

(** The handle of the running tunnel is dropped, its logger aborted: the task is told to stop. *)
Definition drop_tunnel (t : nat) (h : Host) : Host :=
  set_tunnels (alter (fun p => mkProc (pr_identity p) (pr_routes p) (pr_status p) true) t (ho_tunnels h)) h.
Definition take_running (s : Dm) : Dm :=
  match da_running (dm_daemon s) with
  | Some (_, t) => on_daemon (set_running None) (on_host (drop_tunnel t) s)
  | None => s
  end.

(** [Tunnel::set_routes] and [Tunnel::start]. *)
Definition set_routes (t : nat) (routes : Routes) (h : Host) : result Host DaemonError :=
  let? _ := result_map_err DeRoutes (validate_routes routes) in
  Ok (set_tunnels (alter (fun p => mkProc (pr_identity p) routes (pr_status p) (pr_shutdown p)) t (ho_tunnels h)) h).
Definition start (i : Identity) (routes : Routes) (h : Host) : result (nat * Host) DaemonError :=
  let? _ := result_map_err DeRoutes (validate_routes routes) in
  if acceptor_ok i then
    let p := mkProc i routes (mkStatus StConnecting routes None 0 None None) false in
    Ok (ho_next h, set_next (S (ho_next h)) (set_tunnels (<[ho_next h := p]> (ho_tunnels h)) h))
  else Err DeCrypto.
Definition connect (routes : Routes) (h : Host) : result (nat * Host) DaemonError :=
  let? found := client_get h in
  let? i := ok_or found DeNoTunnel in
  start i routes h.

Definition start_provisioning (s : Dm) : Dm :=
  let task := ho_next (dm_host s) in
  on_daemon (set_provisioning (Some task)) (on_host (fun h => set_next (S task) (set_tasks (<[task := Working]> (ho_tasks h)) h)) s).

Definition without_identity (s : Dm) : Dm * result unit DaemonError :=
  let s := take_running s in
  match da_provisioning (dm_daemon s) with
  | Some _ => (s, Ok tt)
  | None =>
      let s := look s in
      match client_pending (dm_host s) with
      | Err e => (s, Err e)
      | Ok None => (s, Ok tt)
      | Ok (Some _) => (start_provisioning s, Ok tt)
      end
  end.

Definition start_tunnel (i : Identity) (routes : Routes) (s : Dm) : Dm * result unit DaemonError :=
  let s := look (take_running s) in
  match connect routes (dm_host s) with
  | Err e => (s, Err e)
  | Ok (t, h) => (on_daemon (fun d => set_running (Some (i, t)) (set_stopped false d)) (on_host (fun _ => h) s), Ok tt)
  end.

Definition with_identity (i : Identity) (routes : Routes) (s : Dm) : Dm * result unit DaemonError :=
  match da_running (dm_daemon s) with
  | Some (ri, t) =>
      if String.eqb (id_id ri) (id_id i) && String.eqb (id_token ri) (id_token i) then
        match set_routes t routes (dm_host s) with
        | Err e => (s, Err e)
        | Ok h => (on_host (fun _ => h) s, Ok tt)
        end
      else start_tunnel i routes s
  | None => start_tunnel i routes s
  end.

Definition try_reconcile (s : Dm) : Dm * result unit DaemonError :=
  let s := look s in
  let s := on_daemon (set_config_modified (ho_modified (dm_host s))) s in
  let s := look s in
  match client_get (dm_host s) with
  | Err e => (s, Err e)
  | Ok None => without_identity s
  | Ok (Some i) =>
      let s := look s in
      match load_config toml_table (ho_config (dm_host s)) with
      | Err e => (s, Err (DeConfig e))
      | Ok routes => with_identity i routes s
      end
  end.

Definition record_error (message : string) (s : Dm) : Dm := on_daemon (set_last_error (Some message)) (on_host (add_record message) s).

Definition reconcile (s : Dm) : Dm :=
  match try_reconcile s with
  | (s, Ok _) => s
  | (s, Err e) => record_error (daemon_error_text e) s
  end.

(** [tunnel.status()], of a handle the service holds. *)
Definition tunnel_status (t : nat) (h : Host) : option Status := pr_status <$> ho_tunnels h !! t.
Definition is_stopped (u : option Status) : bool := match u with Some u => match su_state u with StStopped => true | _ => false end | None => false end.

(** The parts of [check]: the error of a provisioning, its end, a tunnel that stopped, an edit. *)
Definition check_error (s : Dm) : Dm :=
  let s := look s in
  match ho_error (dm_host s) with
  | Some error => record_error error (on_host (set_error None) s)
  | None => s
  end.
Definition check_provisioning (s : Dm) : Dm :=
  let s := look s in
  match da_provisioning (dm_daemon s) with
  | Some task =>
      match ho_tasks (dm_host s) !! task with
      | Some Finished => reconcile (on_daemon (set_provisioning None) s)
      | _ => s
      end
  | None => s
  end.
Definition check_stopped (s : Dm) : Dm * bool :=
  let s := look s in
  match da_running (dm_daemon s) with
  | Some (_, t) =>
      let status := tunnel_status t (dm_host s) in
      if is_stopped status then
        let s := on_daemon (set_stopped true) (take_running s) in
        let error := match status with Some u => default "tunnel stopped" (su_last_error u) | None => "tunnel stopped" end in
        (record_error error s, true)
      else (s, false)
  | None => (s, false)
  end.
Definition check_config (s : Dm) : Dm :=
  if da_stopped (dm_daemon s) then s
  else
    let s := look s in
    if bool_decide (ho_modified (dm_host s) = da_config_modified (dm_daemon s)) then s else reconcile s.
Definition check (s : Dm) : Dm :=
  let s := check_provisioning (check_error s) in
  match check_stopped s with
  | (s, true) => s
  | (s, false) => check_config s
  end.

Definition status (s : Dm) : DaemonStatus :=
  let d := dm_daemon s in
  let tunnel := match da_running d with Some (_, t) => tunnel_status t (dm_host s) | None => None end in
  let phase :=
    match da_running d, da_provisioning d with
    | Some _, _ => if is_stopped tunnel then Stopped else Running
    | None, Some _ => Provisioning
    | None, None => if da_stopped d then Stopped else NoTunnel
    end in
  mkDaemonStatus phase tunnel (da_last_error d).

(** ** The loop of [serve] *)

Inductive DaemonInput := DCommand (c : Command) | DTerminate | DHangup | DTick.

(** One turn: the response of a command, and whether the loop goes on. *)
Definition serve_turn (i : DaemonInput) (s : Dm) : Dm * option Response * bool :=
  match i with
  | DCommand CmdStatus => let s := look s in (s, Some (mkResponse true (Some (status s)) None), true)
  | DCommand CmdReload =>
      let s := look (reconcile (on_daemon (set_stopped false) s)) in
      (s, Some (mkResponse true (Some (status s)) None), true)
  | DCommand CmdStop => (s, Some (mkResponse true None None), false)
  | DTerminate => (s, None, false)
  | DHangup => (reconcile s, None, true)
  | DTick => (check s, None, true)
  end.

(** After the loop: the tunnel is closed and the provisioning aborted. *)
Definition serve_end (s : Dm) : Host :=
  let s := take_running s in
  match da_provisioning (dm_daemon s) with
  | Some task => set_tasks (alter (fun st => match st with Working => Aborted | st => st end) task (ho_tasks (dm_host s))) (dm_host s)
  | None => dm_host s
  end.

(** A service's life: it begins with a reconcile, and each turn has its own schedule. *)
Definition serve_start (h : Host) (schedule : list (list HostEvent)) : Dm := reconcile (mkDm new_daemon h schedule).
Fixpoint serve (inputs : list (DaemonInput * list (list HostEvent))) (s : Dm) : Dm * bool :=
  match inputs with
  | [] => (s, true)
  | (i, schedule) :: inputs' =>
      match serve_turn i (mkDm (dm_daemon s) (dm_host s) schedule) with
      | (s, _, true) => serve inputs' s
      | (s, _, false) => (s, false)
      end
  end.
End Daemon.

(** ** One tunnel at a time *)

(** Every task that was not told to stop is the one the service holds, and it holds one that was not; tasks are numbered. *)
Record one_tunnel (s : Dm) : Prop := mkOneTunnel {
  ot_held : forall i t, da_running (dm_daemon s) = Some (i, t) -> exists p, ho_tunnels (dm_host s) !! t = Some p /\ pr_shutdown p = false;
  ot_only : forall t p, ho_tunnels (dm_host s) !! t = Some p -> pr_shutdown p = false -> exists i, da_running (dm_daemon s) = Some (i, t);
  ot_task : forall k, ho_tasks (dm_host s) !! k = Some Working -> da_provisioning (dm_daemon s) = Some k;
  ot_fresh : forall t, is_Some (ho_tunnels (dm_host s) !! t) -> (t < ho_next (dm_host s))%nat;
}.

(** What happens on the machine leaves the handles and the routes sent, and the tasks that work are among those that did. *)
Definition kept_proc (a b : option Proc) : Prop :=
  match a, b with
  | None, None => True
  | Some p, Some q => pr_shutdown q = pr_shutdown p /\ pr_routes q = pr_routes p /\ pr_identity q = pr_identity p
  | _, _ => False
  end.
Record host_kept (h h' : Host) : Prop := mkHostKept {
  hk_tunnels : forall t, kept_proc (ho_tunnels h !! t) (ho_tunnels h' !! t);
  hk_next : ho_next h' = ho_next h;
  hk_tasks : forall k, ho_tasks h' !! k = Some Working -> ho_tasks h !! k = Some Working;
}.

Lemma kept_proc_refl a : kept_proc a a.
Proof. by destruct a. Qed.

Lemma host_kept_same h h' : ho_tunnels h' = ho_tunnels h -> ho_next h' = ho_next h ->
  (forall k, ho_tasks h' !! k = Some Working -> ho_tasks h !! k = Some Working) -> host_kept h h'.
Proof. intros Et En Hk. split; [|done..]. intros t. rewrite Et. apply kept_proc_refl. Qed.

Lemma host_kept_trans h1 h2 h3 : host_kept h1 h2 -> host_kept h2 h3 -> host_kept h1 h3.
Proof.
  intros [A1 A2 A3] [B1 B2 B3]. split; [|congruence|auto]. intros t. specialize (A1 t). specialize (B1 t). unfold kept_proc in *.
  destruct (ho_tunnels h1 !! t), (ho_tunnels h2 !! t), (ho_tunnels h3 !! t); try done. intuition congruence.
Qed.

Lemma host_step_kept h e : host_kept h (host_step h e).
Proof.
  destruct e as [file m|fs|t' u|k x|k]; simpl; [by apply host_kept_same..| | |].
  - destruct (ho_tunnels h !! t') as [p|] eqn:E; [|by apply host_kept_same].
    destruct (su_state (pr_status p)); try (by apply host_kept_same);
      (split; [|done..]; intros t; simpl; destruct (decide (t = t')) as [->|Ht];
       [by rewrite lookup_insert_eq, E|rewrite lookup_insert_ne by done; apply kept_proc_refl]).
  - destruct (ho_tasks h !! k) as [[]|]; by apply host_kept_same.
  - destruct (ho_tasks h !! k) as [[]|]; apply host_kept_same; try done. simpl. intros k'.
    destruct (decide (k = k')) as [->|Hk]; [by rewrite lookup_insert_eq|by rewrite lookup_insert_ne].
Qed.

Lemma look_kept s : host_kept (dm_host s) (dm_host (look s)) /\ dm_daemon (look s) = dm_daemon s.
Proof.
  unfold look. destruct (dm_schedule s) as [|events rest]; [by split; [apply host_kept_same|]|]. split; [|done]. simpl.
  generalize (dm_host s). induction events as [|e events IH]; intros h; simpl; [by apply host_kept_same|].
  eapply host_kept_trans; [apply host_step_kept|apply IH].
Qed.

Lemma one_tunnel_kept s s' : one_tunnel s -> host_kept (dm_host s) (dm_host s') ->
  da_running (dm_daemon s') = da_running (dm_daemon s) -> da_provisioning (dm_daemon s') = da_provisioning (dm_daemon s) -> one_tunnel s'.
Proof.
  intros [H1 H2 H3 H4] [K1 K2 K3] Er Ep. split; intros *; rewrite ?Er, ?Ep, ?K2.
  - intros (p & Et & Hs)%H1. specialize (K1 t). rewrite Et in K1. destruct (ho_tunnels (dm_host s') !! t) as [q|]; [|done].
    exists q. destruct K1 as [-> _]. done.
  - intros Et Hs. specialize (K1 t). rewrite Et in K1. destruct (ho_tunnels (dm_host s) !! t) as [q|] eqn:Eq; [|done].
    apply (H2 t q); [done|]. by destruct K1 as [<- _].
  - auto.
  - intros [p Et]. specialize (K1 t). rewrite Et in K1. apply H4. by destruct (ho_tunnels (dm_host s) !! t).
Qed.

Lemma one_tunnel_look s : one_tunnel s -> one_tunnel (look s).
Proof. intros Hs. destruct (look_kept s) as [Hk Hd]. eapply one_tunnel_kept; [done..| |]; by rewrite Hd. Qed.

Lemma one_tunnel_take s : one_tunnel s -> one_tunnel (take_running s) /\ da_running (dm_daemon (take_running s)) = None.
Proof.
  intros Hs. unfold take_running. destruct (da_running (dm_daemon s)) as [[i t]|] eqn:Er; [|by split].
  destruct Hs as [H1 H2 H3 H4]. split; [|done]. split; simpl; [done| |done|].
  - intros t' p. destruct (decide (t' = t)) as [->|Ht].
    + rewrite lookup_alter_eq. intros (q & _ & ->)%fmap_Some. done.
    + rewrite lookup_alter_ne by done. intros Et Hs. destruct (H2 _ _ Et Hs) as [j E]. congruence.
  - intros t' [p Ep]. apply H4. destruct (decide (t' = t)) as [->|Ht]; [|by rewrite lookup_alter_ne in Ep].
    rewrite lookup_alter_eq in Ep. by apply fmap_Some in Ep as (q & -> & _).
Qed.

Lemma one_tunnel_record m s : one_tunnel s -> one_tunnel (record_error m s).
Proof. intros Hs. eapply one_tunnel_kept; [done|by apply host_kept_same|done..]. Qed.
#[local] Hint Resolve one_tunnel_look one_tunnel_record : ot.

(** A machine on which the service does not run. *)
Record idle (h : Host) : Prop := mkIdle {
  il_tunnels : forall t p, ho_tunnels h !! t = Some p -> pr_shutdown p = true /\ (t < ho_next h)%nat;
  il_tasks : forall k, ho_tasks h !! k <> Some Working;
}.

Lemma idle_one_tunnel h schedule : idle h -> one_tunnel (mkDm new_daemon h schedule).
Proof.
  intros [Ht Hk]. split; simpl; [done| | |].
  - intros t p Et Hp. apply Ht in Et as [? _]. congruence.
  - intros k Ek. by apply Hk in Ek.
  - intros t [p Et]. apply Ht in Et as [_ Hlt]. exact Hlt.
Qed.

Lemma serve_end_idle s : one_tunnel s -> idle (serve_end s).
Proof.
  intros Hs. destruct (one_tunnel_take s Hs) as [[B1 B2 B3 B4] Hn].
  assert (ho_tunnels (serve_end s) = ho_tunnels (dm_host (take_running s)) /\ ho_next (serve_end s) = ho_next (dm_host (take_running s))) as [E1 E2]
    by (unfold serve_end; by case_split).
  split; rewrite ?E1, ?E2.
  - intros t p Et. split; [|by apply B4]. destruct (pr_shutdown p) eqn:Ep; [done|]. destruct (B2 _ _ Et Ep) as [i Ei]. congruence.
  - unfold serve_end. destruct (da_provisioning (dm_daemon (take_running s))) as [k0|] eqn:Ek0; simpl.
    + intros k. destruct (decide (k = k0)) as [->|Hne].
      * rewrite lookup_alter_eq. intros (st & _ & Est)%fmap_Some. by destruct st.
      * rewrite lookup_alter_ne by done. intros ?%B3. congruence.
    + intros k ?%B3. congruence.
Qed.

Section OneTunnel.
Context `{Metadata} (profile : string) (toml_table : string -> option (list (string * Json))) (acceptor_ok : Identity -> bool)
  (daemon_error_text : DaemonError -> string).

Lemma one_tunnel_start i routes s s' r : one_tunnel s -> start_tunnel profile acceptor_ok i routes s = (s', r) -> one_tunnel s'.
Proof.
  intros Hs. unfold start_tunnel. destruct (one_tunnel_take s Hs) as [Ht Hn]. set (s1 := look (take_running s)).
  assert (one_tunnel s1) as H1 by (by apply one_tunnel_look).
  assert (da_running (dm_daemon s1) = None) as E1 by (unfold s1; by rewrite (proj2 (look_kept _))).
  clearbody s1. clear Ht Hn. destruct (connect _ _ _ _) as [[t h]|e] eqn:Ec; [|by intros [= <- _]]. intros [= <- _].
  unfold connect, start in Ec. destruct (client_get profile (dm_host s1)) as [found|]; simpl in Ec; [|done].
  destruct (ok_or found DeNoTunnel) as [j|]; simpl in Ec; [|done].
  destruct (result_map_err DeRoutes (validate_routes routes)); simpl in Ec; [|done].
  destruct (acceptor_ok j); [|done]. injection Ec as <- <-. destruct H1 as [A1 A2 A3 A4]. split; simpl.
  - intros ? ? [= <- <-]. eexists. by rewrite lookup_insert_eq.
  - intros t p. destruct (decide (t = ho_next (dm_host s1))) as [->|Hne]; [eauto|]. rewrite lookup_insert_ne by done.
    intros Et Hp. destruct (A2 _ _ Et Hp) as [? ?]. congruence.
  - done.
  - intros t. destruct (decide (t = ho_next (dm_host s1))) as [->|Hne]; [lia|]. rewrite lookup_insert_ne by done. intros ?%A4. lia.
Qed.

Lemma one_tunnel_without s s' r : one_tunnel s -> without_identity profile s = (s', r) -> one_tunnel s'.
Proof.
  intros Hs. unfold without_identity. destruct (one_tunnel_take s Hs) as [Ht Hn].
  destruct (da_provisioning (dm_daemon (take_running s))) as [k|] eqn:Ep; [by intros [= <- _]|].
  destruct (client_pending _ _) as [[pending|]|]; intros [= <- _]; [|by apply one_tunnel_look..].
  apply one_tunnel_look in Ht. set (s1 := look (take_running s)) in *.
  assert (da_provisioning (dm_daemon s1) = None) as Ep1 by (unfold s1; by rewrite (proj2 (look_kept _))).
  destruct Ht as [A1 A2 A3 A4]. split; simpl; [done|done| |].
  - intros k. destruct (decide (k = ho_next (dm_host s1))) as [->|Hne]; [done|]. rewrite lookup_insert_ne by done. intros ?%A3. congruence.
  - intros t ?%A4. lia.
Qed.

Lemma one_tunnel_set_routes t routes s h : one_tunnel s -> set_routes t routes (dm_host s) = Ok h -> one_tunnel (on_host (fun _ => h) s).
Proof.
  intros [H1 H2 H3 H4]. unfold set_routes. destruct (result_map_err DeRoutes (validate_routes routes)); simpl; [|done]. intros [= <-].
  assert (forall t' q, alter (fun p => mkProc (pr_identity p) routes (pr_status p) (pr_shutdown p)) t (ho_tunnels (dm_host s)) !! t' = Some q ->
    exists p, ho_tunnels (dm_host s) !! t' = Some p /\ pr_shutdown p = pr_shutdown q) as Hback.
  { intros t' q. destruct (decide (t' = t)) as [->|Ht]; [|rewrite lookup_alter_ne by done; eauto].
    rewrite lookup_alter_eq. intros (p & -> & ->)%fmap_Some. eauto. }
  split; simpl; [| |done|].
  - intros i t' (p & Et & Hp)%H1. destruct (decide (t' = t)) as [->|Ht]; [|rewrite lookup_alter_ne by done; eauto].
    rewrite lookup_alter_eq, Et. simpl. eauto.
  - intros t' q (p & Et & Hp)%Hback Hq. apply (H2 t' p); congruence.
  - intros t' [q (p & Et & _)%Hback]. apply H4. eauto.
Qed.

Lemma one_tunnel_with i routes s s' r : one_tunnel s -> with_identity profile acceptor_ok i routes s = (s', r) -> one_tunnel s'.
Proof.
  intros Hs. unfold with_identity. destruct (da_running (dm_daemon s)) as [[ri t]|] eqn:Er; [|by apply one_tunnel_start].
  destruct (_ && _); [|by apply one_tunnel_start].
  destruct (set_routes t routes (dm_host s)) as [h|] eqn:E; intros [= <- _]; [by eapply one_tunnel_set_routes|done].
Qed.

Lemma one_tunnel_reconcile s : one_tunnel s -> one_tunnel (reconcile profile toml_table acceptor_ok daemon_error_text s).
Proof.
  intros Hs. unfold reconcile. destruct (try_reconcile _ _ _ s) as [s' r] eqn:E.
  enough (one_tunnel s') by (destruct r; auto with ot).
  unfold try_reconcile in E. set (s1 := on_daemon _ (look s)) in E.
  assert (one_tunnel s1) as H1 by (eapply one_tunnel_kept; [by apply one_tunnel_look|by apply host_kept_same|done..]). clearbody s1.
  apply one_tunnel_look in H1. set (s2 := look s1) in *. clearbody s2.
  destruct (client_get profile (dm_host s2)) as [[i|]|]; [|by eapply one_tunnel_without|by injection E as <- _].
  destruct (load_config _ _); [by eapply one_tunnel_with, E; apply one_tunnel_look|]. injection E as <- _. by apply one_tunnel_look.
Qed.

Lemma one_tunnel_finished k s : one_tunnel s -> da_provisioning (dm_daemon s) = Some k -> ho_tasks (dm_host s) !! k = Some Finished ->
  one_tunnel (on_daemon (set_provisioning None) s).
Proof. intros [A1 A2 A3 A4] Ep Ek. split; simpl; [done..| |done]. intros k' Hk'. pose proof (A3 _ Hk'). congruence. Qed.

Lemma one_tunnel_check s : one_tunnel s -> one_tunnel (check profile toml_table acceptor_ok daemon_error_text s).
Proof.
  intros Hs. unfold check.
  assert (one_tunnel (check_error s)) as H1.
  { unfold check_error. case_split; auto with ot. apply one_tunnel_record. eapply one_tunnel_kept; [by apply one_tunnel_look|by apply host_kept_same|done..]. }
  assert (one_tunnel (check_provisioning profile toml_table acceptor_ok daemon_error_text (check_error s))) as H2.
  { set (s0 := check_error s) in *. clearbody s0. unfold check_provisioning. apply one_tunnel_look in H1.
    destruct (da_provisioning (dm_daemon (look s0))) as [k|] eqn:Ep; [|done].
    destruct (ho_tasks (dm_host (look s0)) !! k) as [[]|] eqn:Ek; try done.
    by eapply one_tunnel_reconcile, one_tunnel_finished. }
  set (s1 := check_provisioning _ _ _ _ _) in *. clearbody s1.
  assert (one_tunnel (fst (check_stopped s1))) as H3.
  { unfold check_stopped. apply one_tunnel_look in H2. destruct (da_running (dm_daemon (look s1))) as [[i t]|]; [|done].
    case_split; [|done]. apply one_tunnel_record. eapply one_tunnel_kept; [by apply one_tunnel_take, H2|by apply host_kept_same|done..]. }
  destruct (check_stopped s1) as [s2 []]; [done|]. unfold check_config. simpl in H3. case_split; [done|].
  case_split; [by apply one_tunnel_look|by apply one_tunnel_reconcile, one_tunnel_look].
Qed.

Lemma one_tunnel_turn i s s' r goes : one_tunnel s -> serve_turn profile toml_table acceptor_ok daemon_error_text i s = (s', r, goes) -> one_tunnel s'.
Proof.
  intros Hs. destruct i as [[]| | |]; simpl; intros [= <- _ _]; auto using one_tunnel_look, one_tunnel_reconcile, one_tunnel_check.
  apply one_tunnel_look, one_tunnel_reconcile. eapply one_tunnel_kept; [done|by apply host_kept_same|done..].
Qed.

Lemma one_tunnel_serve inputs : forall s s' goes, one_tunnel s -> serve profile toml_table acceptor_ok daemon_error_text inputs s = (s', goes) -> one_tunnel s'.
Proof.
  induction inputs as [|[i schedule] inputs IH]; intros s s' goes Hs; simpl; [by intros [= <- _]|].
  destruct (serve_turn _ _ _ _ _ _) as [[s1 r] g] eqn:E. apply one_tunnel_turn in E;
    [|eapply one_tunnel_kept; [exact Hs|by apply host_kept_same|done..]].
  destruct g; [eauto|by intros [= <- _]].
Qed.

(** while the service runs, under any interleaving of edits, saved identities and ends of tasks, at most one tunnel has not
    been told to stop, the one it holds, and at most one provisioning works; when it ends, every tunnel was told to stop and no
    provisioning works. *)
Theorem one_tunnel_at_a_time h schedule inputs s goes :
  idle h ->
  serve profile toml_table acceptor_ok daemon_error_text inputs (serve_start profile toml_table acceptor_ok daemon_error_text h schedule) = (s, goes) ->
  (forall t t' p p', ho_tunnels (dm_host s) !! t = Some p -> ho_tunnels (dm_host s) !! t' = Some p' ->
    pr_shutdown p = false -> pr_shutdown p' = false -> t = t' /\ exists i, da_running (dm_daemon s) = Some (i, t)) /\
  (forall i t, da_running (dm_daemon s) = Some (i, t) -> exists p, ho_tunnels (dm_host s) !! t = Some p /\ pr_shutdown p = false) /\
  (forall k k', ho_tasks (dm_host s) !! k = Some Working -> ho_tasks (dm_host s) !! k' = Some Working -> k = k') /\
  (forall t p, ho_tunnels (serve_end s) !! t = Some p -> pr_shutdown p = true) /\
  (forall k, ho_tasks (serve_end s) !! k <> Some Working).
Proof.
  intros Hi E. assert (one_tunnel s) as Hs by (by eapply one_tunnel_serve, E; apply one_tunnel_reconcile, idle_one_tunnel).
  destruct (serve_end_idle s Hs) as [B1 B2]. destruct Hs as [A1 A2 A3 A4]. split_and!; [|done| | |done].
  - intros t t' p p' Et Et' Hp Hp'. destruct (A2 _ _ Et Hp) as [i Ei], (A2 _ _ Et' Hp') as [i' Ei']. split; [congruence|eauto].
  - intros k k' ?%A3 ?%A3. congruence.
  - intros t p Et. apply B1 in Et as [Hx _]. exact Hx.
Qed.
End OneTunnel.

(** ** Edits reach the tunnel *)

(** Times of the file: [None] before it exists. Every edit leaves a later time than the one before. *)
Definition later (a b : option Z) : Prop :=
  match a, b with
  | None, Some _ => True
  | Some x, Some y => x < y
  | _, None => False
  end.
Fixpoint growing (m : option Z) (events : list HostEvent) : Prop :=
  match events with
  | [] => True
  | HEdit _ m' :: events' => later m m' /\ growing m' events'
  | _ :: events' => growing m events'
  end.

Lemma later_trans a b c : later a b -> later b c -> later a c.
Proof. destruct a, b, c; simpl; intros; try done; lia. Qed.
Lemma later_irrefl a : ~ later a a.
Proof. destruct a; simpl; [lia|auto]. Qed.
Lemma growing_earlier a b events : later a b -> growing b events -> growing a events.
Proof.
  revert a b; induction events as [|[] events IH]; intros a b Hab; simpl; eauto.
  intros [Hb Hg]. split; [by eapply later_trans|done].
Qed.
Lemma growing_drop m l l' : growing m (l ++ l') -> growing m l'.
Proof.
  revert m; induction l as [|[] l IH]; intros m; simpl; eauto. intros [Hm Hg]. eapply growing_earlier; eauto.
Qed.

(** Between two moments the file is as it was or has a later time. *)
Definition edited (h h' : Host) : Prop :=
  (ho_modified h' = ho_modified h /\ ho_config h' = ho_config h) \/ later (ho_modified h) (ho_modified h').
Lemma edited_same h h' : ho_modified h' = ho_modified h -> ho_config h' = ho_config h -> edited h h'.
Proof. by left. Qed.
Lemma edited_trans h1 h2 h3 : edited h1 h2 -> edited h2 h3 -> edited h1 h3.
Proof.
  intros [[A1 A2]|A] [[B1 B2]|B]; [left; split; congruence|right|right|right; by eapply later_trans].
  - by rewrite <- A1.
  - by rewrite B1.
Qed.
Lemma edited_since h h' : edited h h' -> ho_modified h' = ho_modified h -> ho_config h' = ho_config h.
Proof. intros [[_ E]|Hl] Em; [done|]. rewrite Em in Hl. by apply later_irrefl in Hl. Qed.

Lemma host_step_edited h e rest : growing (ho_modified h) (e :: rest) -> edited h (host_step h e) /\ growing (ho_modified (host_step h e)) rest.
Proof.
  destruct e as [file m|fs|t u|k x|k]; simpl.
  - intros [Hm Hg]. split; [by right|done].
  - intros Hg. split; [by left|done].
  - intros Hg. destruct (ho_tunnels h !! t) as [p|]; [|by split; [left|]]. destruct (su_state (pr_status p)); by split; [left|].
  - intros Hg. destruct (ho_tasks h !! k) as [[]|]; by split; [left|].
  - intros Hg. destruct (ho_tasks h !! k) as [[]|]; by split; [left|].
Qed.

Definition events_left (s : Dm) (rest : list HostEvent) : list HostEvent := concat (dm_schedule s) ++ rest.

Lemma look_edited s rest : growing (ho_modified (dm_host s)) (events_left s rest) ->
  edited (dm_host s) (dm_host (look s)) /\ growing (ho_modified (dm_host (look s))) (events_left (look s) rest).
Proof.
  unfold look, events_left. destruct (dm_schedule s) as [|events later] eqn:E; [intros; rewrite E; by split; [left|]|].
  simpl. rewrite <- app_assoc. clear E.
  generalize (dm_host s). induction events as [|e events IH]; intros h Hg; simpl; [by split; [left|]|].
  apply host_step_edited in Hg as [He Hg]. destruct (IH _ Hg) as [He' Hg']. split; [by eapply edited_trans|done].
Qed.

(** The service's state, with the events that are left: the time it noted is not later than the file's; and when they are the
    same and it recorded no error, the tunnel has the file's routes. *)
Section Edits.
Context `{Metadata} (profile : string) (toml_table : string -> option (list (string * Json))) (acceptor_ok : Identity -> bool)
  (daemon_error_text : DaemonError -> string).

Definition routes_current (s : Dm) : Prop := forall i t, da_running (dm_daemon s) = Some (i, t) ->
  exists p, ho_tunnels (dm_host s) !! t = Some p /\ load_config toml_table (ho_config (dm_host s)) = Ok (pr_routes p).
Record tracked (rest : list HostEvent) (s : Dm) : Prop := mkTracked {
  tk_one : one_tunnel s;
  tk_grow : growing (ho_modified (dm_host s)) (events_left s rest);
  tk_noted : da_config_modified (dm_daemon s) = ho_modified (dm_host s) \/ later (da_config_modified (dm_daemon s)) (ho_modified (dm_host s));
  tk_routes : da_last_error (dm_daemon s) = None -> da_config_modified (dm_daemon s) = ho_modified (dm_host s) -> routes_current s;
}.

Lemma tracked_step rest s s' : tracked rest s -> host_kept (dm_host s) (dm_host s') -> edited (dm_host s) (dm_host s') ->
  growing (ho_modified (dm_host s')) (events_left s' rest) -> one_tunnel s' ->
  da_running (dm_daemon s') = da_running (dm_daemon s) -> da_config_modified (dm_daemon s') = da_config_modified (dm_daemon s) ->
  (da_last_error (dm_daemon s') = None -> da_last_error (dm_daemon s) = None) -> tracked rest s'.
Proof.
  intros [H1 H2 H3 H4] Hk He Hg Ho Er Ec Hl. split; [done|done| |].
  - rewrite Ec. destruct He as [[E1 E2]|He]; [rewrite E1; done|]. right. destruct H3 as [->|H3]; [done|by eapply later_trans].
  - intros El Em. rewrite Ec in Em. destruct He as [[E1 E2]|He].
    + intros i t. rewrite Er. intros (p & Ep & Hp)%H4; [|by auto|congruence]. destruct Hk as [Hk _ _]. specialize (Hk t). rewrite Ep in Hk.
      destruct (ho_tunnels (dm_host s') !! t) as [q|]; [|done]. exists q. destruct Hk as (_ & -> & _). by rewrite E2.
    + exfalso. destruct H3 as [H3|H3]; [rewrite <- H3 in He|]; rewrite <- Em in *; [by apply later_irrefl in He|].
      by apply (later_irrefl (da_config_modified (dm_daemon s))), (later_trans _ _ _ H3).
Qed.

Lemma tracked_look rest s : tracked rest s -> tracked rest (look s).
Proof.
  intros Hs. destruct (look_kept s) as [Hk Hd], (look_edited s rest) as [He Hg]; [apply Hs|].
  eapply tracked_step; [done..|apply one_tunnel_look, Hs| | |]; by rewrite Hd.
Qed.

(** A state with an error or without a tunnel, wherever it comes from. *)
Lemma tracked_vacuous rest s : one_tunnel s -> growing (ho_modified (dm_host s)) (events_left s rest) ->
  (da_config_modified (dm_daemon s) = ho_modified (dm_host s) \/ later (da_config_modified (dm_daemon s)) (ho_modified (dm_host s))) ->
  (da_last_error (dm_daemon s) <> None \/ da_running (dm_daemon s) = None) -> tracked rest s.
Proof. intros Ho Hg Hn Hv. split; [done..|]. intros El _ i t Er. destruct Hv; congruence. Qed.

(** A reconcile under way: it noted the time of the file at [h1]. *)
Record since (h1 : Host) (rest : list HostEvent) (s : Dm) : Prop := mkSince {
  si_one : one_tunnel s;
  si_grow : growing (ho_modified (dm_host s)) (events_left s rest);
  si_edited : edited h1 (dm_host s);
  si_noted : da_config_modified (dm_daemon s) = ho_modified h1;
}.

Lemma since_noted h1 rest s : since h1 rest s ->
  da_config_modified (dm_daemon s) = ho_modified (dm_host s) \/ later (da_config_modified (dm_daemon s)) (ho_modified (dm_host s)).
Proof. intros [_ _ [[E _]|He] ->]; [by left|by right]. Qed.

Lemma since_look h1 rest s : since h1 rest s -> since h1 rest (look s).
Proof.
  intros [A1 A2 A3 A4]. destruct (look_kept s) as [_ Hd], (look_edited s rest A2) as [He Hg].
  split; [by apply one_tunnel_look|done|by eapply edited_trans|by rewrite Hd].
Qed.

Lemma since_same h1 rest s s' : since h1 rest s -> one_tunnel s' -> dm_schedule s' = dm_schedule s ->
  ho_modified (dm_host s') = ho_modified (dm_host s) -> ho_config (dm_host s') = ho_config (dm_host s) ->
  da_config_modified (dm_daemon s') = da_config_modified (dm_daemon s) -> since h1 rest s'.
Proof.
  intros [A1 A2 A3 A4] Ho Es Em Ec Ed. split; [done| | |congruence].
  - unfold events_left in *. congruence.
  - eapply edited_trans; [exact A3|by apply edited_same].
Qed.

Lemma since_take h1 rest s : since h1 rest s -> since h1 rest (take_running s) /\ da_running (dm_daemon (take_running s)) = None.
Proof.
  intros Hs. destruct (one_tunnel_take s (si_one _ _ _ Hs)) as [Ho Hn]. split; [|done].
  eapply since_same; [exact Hs|exact Ho|..]; unfold take_running; by destruct (da_running (dm_daemon s)) as [[]|].
Qed.

(** The routes it read before are the file's, if the file has still the time it noted. *)
Lemma since_tracked h1 rest h s routes : since h1 rest s -> edited h1 h -> edited h (dm_host s) -> load_config toml_table (ho_config h) = Ok routes ->
  (forall i t, da_running (dm_daemon s) = Some (i, t) -> exists p, ho_tunnels (dm_host s) !! t = Some p /\ pr_routes p = routes) -> tracked rest s.
Proof.
  intros Hs H1 H2 Hl Hr. split; [apply Hs|apply Hs|by eapply since_noted|]. intros _ Em i t (p & Ep & <-)%Hr. exists p. split; [done|].
  rewrite (si_noted _ _ _ Hs) in Em. rewrite <- Hl. f_equal.
  destruct H1 as [[E1 C1]|H1], H2 as [[E2 C2]|H2]; [congruence|..]; exfalso.
  - rewrite E1, <- Em in H2. by apply later_irrefl in H2.
  - rewrite <- E2, <- Em in H1. by apply later_irrefl in H1.
  - rewrite Em in H1. by apply (later_irrefl (ho_modified (dm_host s))), (later_trans _ _ _ H1).
Qed.

(** A failed step: the error is recorded. *)
Lemma since_failed h1 rest s m : since h1 rest s -> tracked rest (record_error m s).
Proof.
  intros Hs. apply tracked_vacuous; [apply one_tunnel_record, Hs|apply Hs|exact (since_noted h1 rest s Hs)|by left].
Qed.

Lemma since_start h1 rest h i routes s s' r : since h1 rest s -> edited h1 h -> edited h (dm_host s) -> load_config toml_table (ho_config h) = Ok routes ->
  start_tunnel profile acceptor_ok i routes s = (s', r) -> since h1 rest s' /\ (r = Ok tt -> tracked rest s').
Proof.
  intros Hs H1 H2 Hl E. pose proof (one_tunnel_start profile acceptor_ok i routes s s' r (si_one _ _ _ Hs) E) as Ho'. revert E.
  unfold start_tunnel. destruct (since_take h1 rest s Hs) as [Ht Hn].
  assert (edited h (dm_host (look (take_running s)))) as He.
  { eapply edited_trans; [exact H2|]. eapply edited_trans; [|eapply look_edited, Ht].
    unfold take_running. destruct (da_running (dm_daemon s)) as [[]|]; by apply edited_same. }
  apply since_look in Ht. set (s1 := look (take_running s)) in *. clearbody s1.
  destruct (connect profile acceptor_ok routes (dm_host s1)) as [[t h']|e] eqn:Ec; intros [= <- <-]; [|by split].
  unfold connect, start in Ec. destruct (client_get profile (dm_host s1)) as [found|]; simpl in Ec; [|done].
  destruct (ok_or found DeNoTunnel) as [j|]; simpl in Ec; [|done].
  destruct (result_map_err DeRoutes (validate_routes routes)); simpl in Ec; [|done].
  destruct (acceptor_ok j); [|done]. injection Ec as <- <-.
  match goal with |- since _ _ ?x /\ _ => assert (since h1 rest x) as Hx by (eapply since_same; [exact Ht|done..]) end.
  split; [done|]. intros _. apply (since_tracked h1 rest h _ routes); [done|done| |done|].
  - eapply edited_trans; [exact He|by apply edited_same].
  - simpl. intros ? ? [= <- <-]. eexists. rewrite lookup_insert_eq. done.
Qed.

Lemma tracked_reconcile rest s : one_tunnel s -> growing (ho_modified (dm_host s)) (events_left s rest) ->
  tracked rest (reconcile profile toml_table acceptor_ok daemon_error_text s).
Proof.
  intros Ho Hg. unfold reconcile. destruct (try_reconcile profile toml_table acceptor_ok s) as [s' r] eqn:E.
  enough (exists h1, since h1 rest s' /\ (r = Ok tt -> tracked rest s')) as (h1 & Hs & Ht).
  { destruct r as [[]|e]; [by apply Ht|by eapply since_failed]. }
  unfold try_reconcile in E. set (s1 := on_daemon _ (look s)) in E. exists (dm_host s1).
  assert (since (dm_host s1) rest s1) as H1.
  { split; [eapply one_tunnel_kept; [by apply one_tunnel_look|by apply host_kept_same|done..]|by apply look_edited|by left|done]. }
  set (h1 := dm_host s1) in *. clearbody h1 s1. apply since_look in H1. set (s2 := look s1) in *. clearbody s2.
  destruct (client_get profile (dm_host s2)) as [[i|]|]; [| |by injection E as <- <-].
  - apply since_look in H1. set (s3 := look s2) in *. clearbody s3.
    destruct (load_config toml_table (ho_config (dm_host s3))) as [routes|e] eqn:El; [|by injection E as <- <-].
    unfold with_identity in E. destruct (da_running (dm_daemon s3)) as [[ri t]|] eqn:Er;
      [|eapply since_start; [done|apply H1|by apply edited_same|done|exact E]].
    destruct (_ && _); [|eapply since_start; [done|apply H1|by apply edited_same|done|exact E]].
    destruct (set_routes t routes (dm_host s3)) as [h|] eqn:Es; injection E as <- <-; [|by split].
    pose proof (one_tunnel_set_routes t routes s3 h (si_one _ _ _ H1) Es) as Ho'. unfold set_routes in Es.
    destruct (result_map_err DeRoutes (validate_routes routes)); simpl in Es; [|done]. injection Es as <-.
    match goal with |- since _ _ ?x /\ _ => assert (since h1 rest x) as Hx by (eapply since_same; [exact H1|done..]) end.
    split; [done|]. intros _. apply (since_tracked h1 rest (dm_host s3) _ routes); [done|apply H1|by apply edited_same|done|].
    simpl. rewrite Er. intros ? ? [= <- <-]. destruct (ot_held _ (si_one _ _ _ H1) ri t Er) as (p & Ep & _).
    rewrite lookup_alter_eq, Ep. eexists. done.
  - pose proof (one_tunnel_without profile s2 s' r (si_one _ _ _ H1) E) as Ho'. revert E. unfold without_identity.
    destruct (since_take h1 rest s2 H1) as [Ht Hn].
    assert (forall x, since h1 rest x -> da_running (dm_daemon x) = None -> tracked rest x) as Hv.
    { intros x Hx Hxn. apply tracked_vacuous; [apply Hx|apply Hx|by eapply since_noted|by right]. }
    destruct (da_provisioning (dm_daemon (take_running s2))) as [k|]; [intros [= <- <-]; by auto|].
    pose proof (proj2 (look_kept (take_running s2))) as Hd. apply since_look in Ht.
    assert (da_running (dm_daemon (look (take_running s2))) = None) as Hn' by (by rewrite Hd).
    destruct (client_pending profile _) as [[pending|]|]; intros [= <- <-]; [|by auto|by split].
    assert (since h1 rest (start_provisioning (look (take_running s2)))) as Hx by (eapply since_same; [exact Ht|done..]). auto.
Qed.

Lemma tracked_check rest s : tracked rest s -> tracked rest (check profile toml_table acceptor_ok daemon_error_text s).
Proof.
  intros Hs. unfold check.
  assert (tracked rest (check_error s)) as H1.
  { unfold check_error. apply tracked_look in Hs. case_split; [|done].
    eapply tracked_step; [exact Hs|by apply host_kept_same|by apply edited_same|apply Hs| |done..].
    apply one_tunnel_record. eapply one_tunnel_kept; [apply Hs|by apply host_kept_same|done..]. }
  set (s0 := check_error s) in *. clearbody s0. clear Hs.
  assert (tracked rest (check_provisioning profile toml_table acceptor_ok daemon_error_text s0)) as H2.
  { unfold check_provisioning. apply tracked_look in H1.
    destruct (da_provisioning (dm_daemon (look s0))) as [k|] eqn:Ep; [|done].
    destruct (ho_tasks (dm_host (look s0)) !! k) as [[]|] eqn:Ek; try done.
    apply tracked_reconcile; [eapply one_tunnel_finished; [apply H1|done..]|apply H1]. }
  set (s1 := check_provisioning _ _ _ _ _) in *. clearbody s1. clear H1.
  assert (tracked rest (fst (check_stopped s1))) as H3.
  { unfold check_stopped. apply tracked_look in H2. destruct (da_running (dm_daemon (look s1))) as [[i t]|] eqn:Er; [|done].
    case_split; [|done]. simpl. unfold take_running. rewrite Er. apply tracked_vacuous; [|apply H2..|by left].
    apply one_tunnel_record. pose proof (proj1 (one_tunnel_take _ (tk_one _ _ H2))) as Ho. unfold take_running in Ho. rewrite Er in Ho.
    eapply one_tunnel_kept; [exact Ho|by apply host_kept_same|done..]. }
  destruct (check_stopped s1) as [s2 []]; [done|]. simpl in H3. unfold check_config. case_split; [done|].
  apply tracked_look in H3. case_split; [done|]. apply tracked_reconcile; apply H3.
Qed.

Lemma tracked_turn rest i s s' r goes : tracked rest s -> serve_turn profile toml_table acceptor_ok daemon_error_text i s = (s', r, goes) -> tracked rest s'.
Proof.
  intros Hs. destruct i as [[]| | |]; simpl; intros [= <- _ _]; auto using tracked_look, tracked_check.
  - apply tracked_look, tracked_reconcile; [eapply one_tunnel_kept; [apply Hs|by apply host_kept_same|done..]|apply Hs].
  - apply tracked_reconcile; apply Hs.
Qed.

(** What is left of a turn's schedule does not happen. *)
Lemma tracked_next rest s schedule : tracked (concat schedule ++ rest) s -> tracked rest (mkDm (dm_daemon s) (dm_host s) schedule).
Proof.
  intros [A1 A2 A3 A4]. split; [|by apply growing_drop in A2|done..].
  eapply one_tunnel_kept; [exact A1|by apply host_kept_same|done..].
Qed.

Definition all_events (inputs : list (DaemonInput * list (list HostEvent))) : list HostEvent := concat (map (fun i => concat (snd i)) inputs).

Lemma tracked_serve inputs : forall s s' goes, tracked (all_events inputs) s ->
  serve profile toml_table acceptor_ok daemon_error_text inputs s = (s', goes) -> exists rest, tracked rest s'.
Proof.
  induction inputs as [|[i schedule] inputs IH]; intros s s' goes Hs; simpl; [intros [= <- _]; eauto|].
  destruct (serve_turn _ _ _ _ _ _) as [[s1 r] g] eqn:E. apply (tracked_turn (all_events inputs)) in E; [|by apply tracked_next].
  destruct g; [eauto|intros [= <- _]; eauto].
Qed.

(** A reconcile during which nothing happens notes the file's time. *)
Definition quiet (s s' : Dm) : Prop :=
  dm_schedule s' = [] /\ ho_modified (dm_host s') = ho_modified (dm_host s) /\ da_config_modified (dm_daemon s') = da_config_modified (dm_daemon s).
Lemma look_quiet s : dm_schedule s = [] -> look s = s.
Proof. unfold look. by intros ->. Qed.
Lemma take_quiet s : dm_schedule s = [] -> quiet s (take_running s).
Proof. intros Es. unfold take_running, quiet. by destruct (da_running (dm_daemon s)) as [[]|]. Qed.

Lemma start_quiet i routes s : dm_schedule s = [] -> quiet s (fst (start_tunnel profile acceptor_ok i routes s)).
Proof.
  intros Es. unfold start_tunnel. pose proof (take_quiet s Es) as Hq. rewrite look_quiet by apply Hq.
  destruct (connect profile acceptor_ok routes _) as [[t h]|] eqn:Ec; [|done]. unfold connect, start in Ec.
  destruct (client_get profile _) as [found|]; simpl in Ec; [|done]. destruct (ok_or found DeNoTunnel); simpl in Ec; [|done].
  destruct (result_map_err DeRoutes _); simpl in Ec; [|done]. destruct (acceptor_ok _); [|done]. by injection Ec as <- <-.
Qed.

Lemma without_quiet s : dm_schedule s = [] -> quiet s (fst (without_identity profile s)).
Proof.
  intros Es. unfold without_identity. pose proof (take_quiet s Es) as Hq. rewrite look_quiet by apply Hq.
  repeat case_split; done.
Qed.

Lemma reconcile_quiet s (s' := reconcile profile toml_table acceptor_ok daemon_error_text s) : dm_schedule s = [] ->
  da_config_modified (dm_daemon s') = ho_modified (dm_host s') /\ dm_schedule s' = [].
Proof.
  intros Es. subst s'. unfold reconcile. destruct (try_reconcile profile toml_table acceptor_ok s) as [s' r] eqn:E.
  enough (da_config_modified (dm_daemon s') = ho_modified (dm_host s') /\ dm_schedule s' = []) by (by destruct r).
  unfold try_reconcile in E. rewrite (look_quiet s Es) in E. set (s1 := on_daemon _ s) in E. rewrite !(look_quiet s1 Es) in E.
  enough (quiet s1 s') as (-> & -> & ->) by done.
  destruct (client_get profile (dm_host s1)) as [[i|]|].
  - destruct (load_config toml_table (ho_config (dm_host s1))) as [routes|]; [|by injection E as <- _].
    replace s' with (fst (with_identity profile acceptor_ok i routes s1)) by (by rewrite E). unfold with_identity.
    destruct (da_running (dm_daemon s1)) as [[ri t]|]; [|by apply start_quiet]. destruct (_ && _); [|by apply start_quiet].
    unfold set_routes. by destruct (result_map_err DeRoutes (validate_routes routes)).
  - replace s' with (fst (without_identity profile s1)) by (by rewrite E). by apply without_quiet.
  - by injection E as <- _.
Qed.

(** The service is stopped only with an error recorded. *)
Definition stop_recorded (s : Dm) : Prop := da_stopped (dm_daemon s) = true -> da_last_error (dm_daemon s) <> None.
Definition flags_kept (s s' : Dm) : Prop :=
  (da_stopped (dm_daemon s') = true -> da_stopped (dm_daemon s) = true) /\ (da_last_error (dm_daemon s') = None -> da_last_error (dm_daemon s) = None).
Lemma flags_kept_trans s1 s2 s3 : flags_kept s1 s2 -> flags_kept s2 s3 -> flags_kept s1 s3.
Proof. intros [A1 A2] [B1 B2]. split; auto. Qed.
Lemma flags_kept_recorded s s' : flags_kept s s' -> stop_recorded s -> stop_recorded s'.
Proof. intros [A1 A2] Hs E1 E2. apply Hs; auto. Qed.
Lemma look_flags s : flags_kept s (look s).
Proof. unfold flags_kept. by rewrite (proj2 (look_kept s)). Qed.
Lemma take_flags s : flags_kept s (take_running s).
Proof. unfold flags_kept, take_running. by destruct (da_running (dm_daemon s)) as [[]|]. Qed.

Lemma start_flags i routes s : flags_kept s (fst (start_tunnel profile acceptor_ok i routes s)).
Proof.
  unfold start_tunnel. assert (flags_kept s (look (take_running s))) as Hf by (eapply flags_kept_trans; [apply take_flags|apply look_flags]).
  destruct (connect profile acceptor_ok routes _) as [[t h]|]; [|done]. eapply flags_kept_trans; [exact Hf|]. by split.
Qed.

Lemma reconcile_flags s : flags_kept s (reconcile profile toml_table acceptor_ok daemon_error_text s).
Proof.
  unfold reconcile. destruct (try_reconcile profile toml_table acceptor_ok s) as [s' r] eqn:E.
  enough (flags_kept s s') as Hf by (destruct r; [done|]; eapply flags_kept_trans; [exact Hf|by split]).
  unfold try_reconcile in E. set (s1 := on_daemon _ (look s)) in E.
  assert (flags_kept s (look s1)) as H1.
  { apply (flags_kept_trans _ (look s)); [apply look_flags|]. apply (flags_kept_trans _ s1); [by split|apply look_flags]. }
  set (s2 := look s1) in *. clearbody s2. destruct (client_get profile (dm_host s2)) as [[i|]|].
  - apply (flags_kept_trans _ _ (look s2)) in H1; [|apply look_flags]. set (s3 := look s2) in *. clearbody s3.
    destruct (load_config toml_table (ho_config (dm_host s3))) as [routes|]; [|by injection E as <- _].
    replace s' with (fst (with_identity profile acceptor_ok i routes s3)) by (by rewrite E). unfold with_identity.
    assert (flags_kept s (fst (start_tunnel profile acceptor_ok i routes s3))) as Hst by (eapply flags_kept_trans; [exact H1|apply start_flags]).
    destruct (da_running (dm_daemon s3)) as [[ri t]|]; [|done]. destruct (_ && _); [|done].
    unfold set_routes. by destruct (result_map_err DeRoutes (validate_routes routes)).
  - replace s' with (fst (without_identity profile s2)) by (by rewrite E). eapply flags_kept_trans; [exact H1|]. unfold without_identity.
    pose proof (take_flags s2) as Ht. pose proof (flags_kept_trans _ _ _ Ht (look_flags _)) as Htl.
    destruct (da_provisioning (dm_daemon (take_running s2))); [done|]. destruct (client_pending profile _) as [[]|]; done.
  - by injection E as <- _.
Qed.

Lemma check_stopped_recorded s : stop_recorded s -> stop_recorded (fst (check_stopped s)).
Proof.
  intros Hs. unfold check_stopped. apply (flags_kept_recorded _ _ (look_flags s)) in Hs. repeat case_split; try done.
Qed.

(** The parts of a check before the tunnel is looked at. *)
Lemma check_begin_flags s : flags_kept s (check_provisioning profile toml_table acceptor_ok daemon_error_text (check_error s)).
Proof.
  apply (flags_kept_trans _ (check_error s)).
  - unfold check_error. case_split; [|apply look_flags]. eapply flags_kept_trans; [apply look_flags|by split].
  - unfold check_provisioning. assert (flags_kept (check_error s) (look (check_error s))) as Hl by apply look_flags.
    repeat case_split; try done. eapply flags_kept_trans; [exact Hl|]. eapply flags_kept_trans; [|apply reconcile_flags]. by split.
Qed.

Lemma check_recorded s : stop_recorded s -> stop_recorded (check profile toml_table acceptor_ok daemon_error_text s).
Proof.
  intros Hs. unfold check. apply (flags_kept_recorded _ _ (check_begin_flags s)), check_stopped_recorded in Hs.
  destruct (check_stopped _) as [s2 []]; [done|]. simpl in Hs. unfold check_config. case_split; [done|].
  apply (flags_kept_recorded _ _ (look_flags s2)) in Hs. case_split; [done|]. by apply (flags_kept_recorded _ _ (reconcile_flags _)).
Qed.

(** After a check during which nothing happens the file's time is noted, or an error recorded. *)
Lemma check_noted s (s' := check profile toml_table acceptor_ok daemon_error_text s) : dm_schedule s = [] -> stop_recorded s ->
  da_last_error (dm_daemon s') <> None \/ da_config_modified (dm_daemon s') = ho_modified (dm_host s').
Proof.
  intros Es Hs. subst s'. unfold check. apply (flags_kept_recorded _ _ (check_begin_flags s)) in Hs.
  assert (dm_schedule (check_provisioning profile toml_table acceptor_ok daemon_error_text (check_error s)) = []) as E1.
  { assert (dm_schedule (check_error s) = []) as E0 by (unfold check_error; rewrite look_quiet by done; by case_split).
    unfold check_provisioning. rewrite look_quiet by done. repeat case_split; try done. by apply reconcile_quiet. }
  set (s1 := check_provisioning _ _ _ _ _) in *. clearbody s1. pose proof (check_stopped_recorded s1 Hs) as H2.
  assert (dm_schedule (fst (check_stopped s1)) = [] /\ (snd (check_stopped s1) = true -> da_last_error (dm_daemon (fst (check_stopped s1))) <> None)) as [E2 Hl].
  { unfold check_stopped. rewrite look_quiet by done. repeat case_split; try done. simpl. split; [by apply take_quiet|done]. }
  destruct (check_stopped s1) as [s2 []]; simpl in *; [left; auto|]. unfold check_config. case_split; [left; auto|].
  rewrite look_quiet by done. case_split; [bsimp; by right|right; by apply reconcile_quiet].
Qed.

Lemma serve_recorded inputs : forall s s' goes, stop_recorded s ->
  serve profile toml_table acceptor_ok daemon_error_text inputs s = (s', goes) -> stop_recorded s'.
Proof.
  induction inputs as [|[i schedule] inputs IH]; intros s s' goes Hs; simpl; [by intros [= <- _]|].
  destruct (serve_turn _ _ _ _ _ _) as [[s1 r] g] eqn:E. set (s0 := mkDm _ _ schedule) in E.
  assert (stop_recorded s0) as H0 by exact Hs. assert (stop_recorded s1) as H1; [|destruct g; [eauto|by intros [= <- _]]].
  destruct i as [[]| | |]; simpl in E; injection E as <- _ _; try done; [by apply (flags_kept_recorded _ _ (look_flags s0))| | |by apply check_recorded].
  - apply (flags_kept_recorded _ _ (look_flags _)), (flags_kept_recorded _ _ (reconcile_flags _)). done.
  - by apply (flags_kept_recorded _ _ (reconcile_flags _)).
Qed.

(** C27: as long as the service records no error, a check of it brings the tunnel it runs to the routes of the file, whatever
    happened before and during its reads of the file, if every edit leaves a later time on the file: an edit between its look at
    the time and its read of the file is noticed by the next check. *)
Theorem edits_reach_tunnel h schedule inputs s goes i t :
  idle h ->
  growing (ho_modified h) (concat schedule ++ all_events inputs) ->
  serve profile toml_table acceptor_ok daemon_error_text inputs (serve_start profile toml_table acceptor_ok daemon_error_text h schedule) = (s, goes) ->
  let s' := check profile toml_table acceptor_ok daemon_error_text (mkDm (dm_daemon s) (dm_host s) []) in
  da_last_error (dm_daemon s') = None -> da_running (dm_daemon s') = Some (i, t) ->
  exists p, ho_tunnels (dm_host s') !! t = Some p /\ pr_shutdown p = false /\ load_config toml_table (ho_config (dm_host s')) = Ok (pr_routes p).
Proof.
  intros Hi Hg E s' El Er.
  assert (exists rest, tracked rest s) as [rest Hs].
  { eapply tracked_serve, E. apply tracked_reconcile; [by apply idle_one_tunnel|done]. }
  assert (stop_recorded s) as Hst.
  { eapply serve_recorded, E. apply (flags_kept_recorded _ _ (reconcile_flags _)). done. }
  assert (tracked [] s') as Hs'.
  { apply tracked_check. destruct Hs as [A1 A2 A3 A4]. split; try done. eapply one_tunnel_kept; [exact A1|by apply host_kept_same|done..]. }
  destruct (check_noted (mkDm (dm_daemon s) (dm_host s) [])) as [Hl|Hm]; [done|done|by destruct (Hl El)|].
  destruct (tk_routes _ _ Hs' El Hm i t Er) as (p & Ep & Hp). destruct (ot_held _ (tk_one _ _ Hs') i t Er) as (q & Eq & Hq).
  exists p. split_and!; [done| |done]. congruence.
Qed.
End Edits.

(** ** A reload after the tunnel stopped *)

(** Computes with the fields of concrete states and leaves the functions of the service. *)
Ltac dcbn :=
  cbn [look on_daemon on_host dm_daemon dm_host dm_schedule set_config_modified set_stopped set_running set_provisioning set_last_error
    da_running da_provisioning da_stopped da_last_error da_config_modified result_bind result_map_err ok_or andb fmap option_fmap option_map
    is_stopped serve_turn ho_tunnels set_tunnels].

Section Reload.
Context `{Metadata} (profile : string) (toml_table : string -> option (list (string * Json))) (acceptor_ok : Identity -> bool)
  (daemon_error_text : DaemonError -> string).

(** What a reload finds: an identity that rustls takes, and routes that can be used. *)
Record connectable (h : Host) (i : Identity) (routes : Routes) : Prop := mkConnectable {
  cn_identity : load profile (ho_files h) = Ok (Some i);
  cn_config : load_config toml_table (ho_config h) = Ok routes;
  cn_valid : validate_routes routes = Ok tt;
  cn_acceptor : acceptor_ok i = true;
}.

(** A reload that finds the tunnel of its identity hands it the routes. *)
Lemma reconcile_same d h i routes ri t : connectable h i routes -> da_running d = Some (ri, t) -> id_id ri = id_id i -> id_token ri = id_token i ->
  reconcile profile toml_table acceptor_ok daemon_error_text (mkDm d h []) =
  mkDm (set_config_modified (ho_modified h) d)
    (set_tunnels (alter (fun p => mkProc (pr_identity p) routes (pr_status p) (pr_shutdown p)) t (ho_tunnels h)) h) [].
Proof.
  intros [Hi Hc Hv Ha] Hr E1 E2. destruct d as [running pv st le cm]. cbn in Hr. subst running. unfold reconcile, try_reconcile. dcbn.
  unfold client_get. rewrite Hi. dcbn. rewrite Hc. unfold with_identity. dcbn.
  rewrite E1, E2, !String.eqb_refl. dcbn. unfold set_routes. by rewrite Hv.
Qed.

(** A check that finds the tunnel stopped gives it up. *)
Lemma check_notices d h ri t p : da_provisioning d = None -> ho_error h = None -> da_running d = Some (ri, t) ->
  ho_tunnels h !! t = Some p -> su_state (pr_status p) = StStopped ->
  let s := check profile toml_table acceptor_ok daemon_error_text (mkDm d h []) in
  da_running (dm_daemon s) = None /\ da_stopped (dm_daemon s) = true.
Proof.
  intros Hp He Hr Et Es. destruct d as [running pv st le cm]. cbn in Hp, Hr. subst running pv.
  unfold check, check_provisioning, check_error. dcbn. rewrite He.
  dcbn. unfold check_stopped. dcbn. unfold tunnel_status.
  rewrite Et. dcbn. by rewrite Es.
Qed.

(** a reload restarts a tunnel that stopped, once the service noticed: it runs a new tunnel with the file's routes. Before
    its next check notices, the reload is lost: it is answered with success, the routes go to the stopped tunnel, and the check
    gives the tunnel up all the same. *)
Theorem reload_after_stop d h i routes :
  connectable h i routes -> da_provisioning d = None -> ho_error h = None ->
  (da_running d = None ->
    let '(s, response, goes) := serve_turn profile toml_table acceptor_ok daemon_error_text (DCommand CmdReload) (mkDm d h []) in
    rs_ok <$> response = Some true /\ goes = true /\ da_stopped (dm_daemon s) = false /\
    exists t p, da_running (dm_daemon s) = Some (i, t) /\ ho_tunnels (dm_host s) !! t = Some p /\ pr_shutdown p = false /\
      pr_identity p = i /\ pr_routes p = routes) /\
  (forall ri t p, da_running d = Some (ri, t) -> id_id ri = id_id i -> id_token ri = id_token i ->
    ho_tunnels h !! t = Some p -> su_state (pr_status p) = StStopped ->
    let '(s, response, _) := serve_turn profile toml_table acceptor_ok daemon_error_text (DCommand CmdReload) (mkDm d h []) in
    let s' := check profile toml_table acceptor_ok daemon_error_text s in
    rs_ok <$> response = Some true /\ da_stopped (dm_daemon s) = false /\
    da_running (dm_daemon s') = None /\ da_stopped (dm_daemon s') = true).
Proof.
  intros Hcn Hp He. split.
  - intros Hr. destruct Hcn as [Hi Hc Hv Ha]. destruct d as [running pv st le cm]. cbn in Hp, Hr. subst running pv.
    assert (client_get profile h = Ok (Some i)) as Hg by (unfold client_get; by rewrite Hi).
    dcbn. unfold reconcile, try_reconcile. dcbn. rewrite Hg, Hc.
    unfold with_identity, start_tunnel, take_running. dcbn.
    unfold connect. rewrite Hg. dcbn. unfold start. rewrite Hv, Ha. cbn.
    split_and!; [done..|]. eexists _, _. rewrite lookup_insert_eq. done.
  - intros ri t p Hr E1 E2 Et Es. dcbn. change (on_daemon (set_stopped false) (mkDm d h [])) with (mkDm (set_stopped false d) h []).
    rewrite (reconcile_same _ h i routes ri t) by done. dcbn.
    split; [done|]. split; [done|]. eapply check_notices; [done|done|exact Hr|by cbn; rewrite lookup_alter_eq, Et|exact Es].
Qed.
End Reload.

(** ** Settling: the service runs the saved identity's tunnel with the file's routes *)

(** Nobody edits the file or the profile. *)
Definition calm_event (e : HostEvent) : bool := match e with HEdit _ _ | HFiles _ => false | _ => true end.
Definition calm (schedule : list (list HostEvent)) : Prop := Forall (Forall (fun e => calm_event e = true)) schedule.

Section Settled.
Context `{Metadata} (profile : string) (toml_table : string -> option (list (string * Json))) (acceptor_ok : Identity -> bool)
  (daemon_error_text : DaemonError -> string).

Definition settled (s : Dm) : Prop := exists ri t p i,
  da_running (dm_daemon s) = Some (ri, t) /\ ho_tunnels (dm_host s) !! t = Some p /\ pr_shutdown p = false /\
  load profile (ho_files (dm_host s)) = Ok (Some i) /\ id_id ri = id_id i /\ id_token ri = id_token i /\
  load_config toml_table (ho_config (dm_host s)) = Ok (pr_routes p).

(** From one moment to another the file and the profile are the same, and errors were recorded after the ones before. *)
Record undisturbed (s s' : Dm) : Prop := mkUndisturbed {
  ud_files : ho_files (dm_host s') = ho_files (dm_host s);
  ud_config : ho_config (dm_host s') = ho_config (dm_host s);
  ud_calm : calm (dm_schedule s) -> calm (dm_schedule s');
  ud_records : exists l, ho_records (dm_host s') = ho_records (dm_host s) ++ l;
}.

Lemma undisturbed_same s s' : ho_files (dm_host s') = ho_files (dm_host s) -> ho_config (dm_host s') = ho_config (dm_host s) ->
  dm_schedule s' = dm_schedule s -> ho_records (dm_host s') = ho_records (dm_host s) -> undisturbed s s'.
Proof. intros E1 E2 E3 E4. split; [done|done|by rewrite E3|exists []; by rewrite app_nil_r]. Qed.

Lemma undisturbed_trans s1 s2 s3 : undisturbed s1 s2 -> undisturbed s2 s3 -> undisturbed s1 s3.
Proof.
  intros [A1 A2 A3 [l A4]] [B1 B2 B3 [l' B4]]. split; [congruence|congruence|auto|]. exists (l ++ l'). by rewrite B4, A4, app_assoc.
Qed.

(** When no error was recorded from the first to the last of three moments, none was in between. *)
Lemma undisturbed_silent s1 s2 s3 : undisturbed s1 s2 -> undisturbed s2 s3 -> ho_records (dm_host s3) = ho_records (dm_host s1) ->
  ho_records (dm_host s2) = ho_records (dm_host s1) /\ ho_records (dm_host s3) = ho_records (dm_host s2).
Proof.
  intros [_ _ _ [l A]] [_ _ _ [l' B]] E. rewrite B, A, <- app_assoc in E.
  assert (l = [] /\ l' = []) as [-> ->].
  { apply app_eq_nil. apply (app_inv_head (ho_records (dm_host s1))). by rewrite app_nil_r. }
  rewrite !app_nil_r in *. split; congruence.
Qed.

Lemma look_undisturbed s : calm (dm_schedule s) -> undisturbed s (look s).
Proof.
  intros Hc. unfold look. destruct (dm_schedule s) as [|events rest] eqn:E; [by apply undisturbed_same|].
  inversion Hc as [|? ? He Hr]; subst. enough (forall h, let h' := fold_left host_step events h in
    ho_files h' = ho_files h /\ ho_config h' = ho_config h /\ ho_records h' = ho_records h) as Hf.
  { destruct (Hf (dm_host s)) as (E1 & E2 & E3). split; [done|done|done|]. exists []. by rewrite app_nil_r. }
  clear -He. induction He as [|e events Hx _ IH]; intros h; [done|]. simpl. destruct (IH (host_step h e)) as (E1 & E2 & E3).
  rewrite E1, E2, E3. destruct e; try done; simpl; repeat case_split; done.
Qed.

Lemma look_settled s : calm (dm_schedule s) -> settled s -> settled (look s).
Proof.
  intros Hc (ri & t & p & i & Hr & Et & Hp & Hl & E1 & E2 & Hcf). destruct (look_undisturbed s Hc) as [U1 U2 _ _], (look_kept s) as [[K _ _] Hd].
  specialize (K t). rewrite Et in K. destruct (ho_tunnels (dm_host (look s)) !! t) as [q|] eqn:Eq; [|done]. destruct K as (K1 & K2 & _).
  exists ri, t, q, i. rewrite Hd, U1, U2, K2. split_and!; congruence.
Qed.

Lemma take_undisturbed s : undisturbed s (take_running s).
Proof. unfold take_running. destruct (da_running (dm_daemon s)) as [[]|]; by apply undisturbed_same. Qed.

(** Starting a tunnel, for an identity that is saved. *)
Lemma start_settles i routes s s' r : calm (dm_schedule s) -> load profile (ho_files (dm_host s)) = Ok (Some i) ->
  load_config toml_table (ho_config (dm_host s)) = Ok routes -> start_tunnel profile acceptor_ok i routes s = (s', r) ->
  undisturbed s s' /\ (r = Ok tt -> settled s').
Proof.
  intros Hc Hl Hcf. unfold start_tunnel. assert (undisturbed s (look (take_running s))) as Hu.
  { eapply undisturbed_trans; [apply take_undisturbed|]. by apply look_undisturbed, (ud_calm _ _ (take_undisturbed s)). }
  set (s1 := look (take_running s)) in *. clearbody s1. unfold connect, client_get. rewrite (ud_files _ _ Hu), Hl. simpl. unfold start.
  destruct (validate_routes routes); simpl; [|by intros [= <- <-]]. destruct (acceptor_ok i); intros [= <- <-]; [|done].
  split; [eapply undisturbed_trans; [exact Hu|by apply undisturbed_same]|]. intros _. eexists i, _, _, i. simpl.
  rewrite lookup_insert_eq, (ud_files _ _ Hu), (ud_config _ _ Hu). done.
Qed.

(** A reconcile settles the service or records an error. *)
Lemma reconcile_settles s i (s' := reconcile profile toml_table acceptor_ok daemon_error_text s) : one_tunnel s -> calm (dm_schedule s) ->
  load profile (ho_files (dm_host s)) = Ok (Some i) -> undisturbed s s' /\ (ho_records (dm_host s') = ho_records (dm_host s) -> settled s').
Proof.
  intros Ho Hc Hl. subst s'. unfold reconcile. destruct (try_reconcile profile toml_table acceptor_ok s) as [s' r] eqn:E.
  enough (undisturbed s s' /\ (r = Ok tt -> settled s')) as [Hu Hs].
  { destruct r as [[]|e]; [by auto|]. split.
    - eapply undisturbed_trans; [exact Hu|]. split; [done..|by eexists].
    - intros Er. exfalso. destruct Hu as [_ _ _ [l El]]. simpl in Er. rewrite El, <- app_assoc in Er.
      apply (f_equal length) in Er. rewrite !length_app in Er. simpl in Er. lia. }
  unfold try_reconcile in E. set (s1 := on_daemon _ (look s)) in E.
  assert (undisturbed s s1 /\ one_tunnel s1) as [U1 O1].
  { split; [eapply undisturbed_trans; [by apply look_undisturbed|by apply undisturbed_same]|].
    eapply one_tunnel_kept; [by apply one_tunnel_look|by apply host_kept_same|done..]. }
  clearbody s1. assert (undisturbed s (look (look s1)) /\ undisturbed s (look s1) /\ one_tunnel (look (look s1))) as (U3 & U2 & O3).
  { pose proof (look_undisturbed s1 (ud_calm _ _ U1 Hc)) as Hx. assert (undisturbed s (look s1)) as U2 by (by eapply undisturbed_trans).
    pose proof (look_undisturbed (look s1) (ud_calm _ _ U2 Hc)) as Hy. split_and!; [by eapply undisturbed_trans|done|by apply one_tunnel_look, one_tunnel_look]. }
  unfold client_get in E at 1. rewrite (ud_files _ _ U2), Hl in E. simpl in E. set (s3 := look (look s1)) in *. clearbody s3.
  destruct (load_config toml_table (ho_config (dm_host s3))) as [routes|e] eqn:El; [|by injection E as <- <-].
  assert (forall s' r, start_tunnel profile acceptor_ok i routes s3 = (s', r) -> undisturbed s s' /\ (r = Ok tt -> settled s')) as Hst.
  { intros x rx Ex. apply start_settles in Ex as [Hu Hs]; [split; [exact (undisturbed_trans _ _ _ U3 Hu)|done]|by apply (ud_calm _ _ U3)| |done].
    by rewrite (ud_files _ _ U3). }
  unfold with_identity in E. destruct (da_running (dm_daemon s3)) as [[ri t]|] eqn:Er; [|by apply Hst].
  destruct (String.eqb_spec (id_id ri) (id_id i)) as [E1|]; [|by apply Hst].
  destruct (String.eqb_spec (id_token ri) (id_token i)) as [E2|]; [|by apply Hst]. simpl in E. unfold set_routes in E.
  destruct (validate_routes routes); simpl in E; injection E as <- <-; [|done].
  split; [eapply undisturbed_trans; [exact U3|by apply undisturbed_same]|]. intros _.
  destruct (ot_held _ O3 ri t Er) as (p & Ep & Hp). eexists ri, t, _, i. simpl. rewrite lookup_alter_eq, Ep. simpl.
  rewrite (ud_files _ _ U3). done.
Qed.

(** A step that keeps the service settled, unless it records an error. *)
Record keeps_settled (s s' : Dm) : Prop := mkKeepsSettled {
  ks_undisturbed : undisturbed s s';
  ks_one : one_tunnel s';
  ks_settled : settled s -> ho_records (dm_host s') = ho_records (dm_host s) -> settled s';
}.
Lemma keeps_settled_trans s1 s2 s3 : keeps_settled s1 s2 -> keeps_settled s2 s3 -> keeps_settled s1 s3.
Proof.
  intros [A1 A2 A3] [B1 B2 B3]. split; [by eapply undisturbed_trans|done|]. intros Hs Hr.
  destruct (undisturbed_silent s1 s2 s3 A1 B1 Hr) as [Hr1 Hr2]. auto.
Qed.

(** Going on to a state whose look came first. *)
Lemma keeps_settled_look s : one_tunnel s -> calm (dm_schedule s) -> keeps_settled s (look s).
Proof. intros Ho Hc. split; [by apply look_undisturbed|by apply one_tunnel_look|intros Hs _; by apply look_settled]. Qed.

Lemma keeps_settled_record s s' m : undisturbed s s' -> one_tunnel s' -> keeps_settled s (record_error m s').
Proof.
  intros Hu Ho. split; [|by apply one_tunnel_record|].
  - eapply undisturbed_trans; [exact Hu|]. split; [done..|by eexists].
  - intros _ Er. exfalso. destruct Hu as [_ _ _ [l El]]. simpl in Er. rewrite El, <- app_assoc in Er.
    apply (f_equal length) in Er. rewrite !length_app in Er. simpl in Er. lia.
Qed.

Lemma keeps_settled_reconcile s i : one_tunnel s -> calm (dm_schedule s) -> load profile (ho_files (dm_host s)) = Ok (Some i) ->
  keeps_settled s (reconcile profile toml_table acceptor_ok daemon_error_text s).
Proof. intros Ho Hc Hl. destruct (reconcile_settles s i Ho Hc Hl) as [Hu Hs]. split; [done|by apply one_tunnel_reconcile|auto]. Qed.

Lemma check_parts_settled s i : one_tunnel s -> calm (dm_schedule s) -> load profile (ho_files (dm_host s)) = Ok (Some i) ->
  keeps_settled s (check_error s) /\
  keeps_settled s (check_provisioning profile toml_table acceptor_ok daemon_error_text s) /\
  keeps_settled s (fst (check_stopped s)) /\
  keeps_settled s (check_config profile toml_table acceptor_ok daemon_error_text s).
Proof.
  intros Ho Hc Hl. pose proof (keeps_settled_look s Ho Hc) as HL. pose proof (ks_undisturbed _ _ HL) as HU. pose proof (ks_one _ _ HL) as HO.
  assert (load profile (ho_files (dm_host (look s))) = Ok (Some i)) as HI by (by rewrite (ud_files _ _ HU)). split_and!.
  - unfold check_error. case_split; [|done]. eapply keeps_settled_trans; [exact HL|]. apply keeps_settled_record; [by apply undisturbed_same|].
    eapply one_tunnel_kept; [exact HO|by apply host_kept_same|done..].
  - unfold check_provisioning. destruct (da_provisioning (dm_daemon (look s))) as [k|] eqn:Ep; [|done].
    destruct (ho_tasks (dm_host (look s)) !! k) as [[]|] eqn:Ek; try done.
    eapply keeps_settled_trans; [exact HL|]. eapply keeps_settled_trans; [|eapply keeps_settled_reconcile; [by eapply one_tunnel_finished|by apply HU|done]].
    split; [by apply undisturbed_same|by eapply one_tunnel_finished|done].
  - unfold check_stopped. destruct (da_running (dm_daemon (look s))) as [[ri t]|]; [|done]. case_split; [|done]. simpl.
    eapply keeps_settled_trans; [exact HL|]. apply keeps_settled_record.
    + eapply undisturbed_trans; [apply take_undisturbed|by apply undisturbed_same].
    + eapply one_tunnel_kept; [apply one_tunnel_take, HO|by apply host_kept_same|done..].
  - unfold check_config. case_split; [by split; [apply undisturbed_same| |]|]. case_split; [done|].
    eapply keeps_settled_trans; [exact HL|]. eapply keeps_settled_reconcile; [done|by apply HU|done].
Qed.

Lemma keeps_settled_check s i : one_tunnel s -> calm (dm_schedule s) -> load profile (ho_files (dm_host s)) = Ok (Some i) ->
  keeps_settled s (check profile toml_table acceptor_ok daemon_error_text s).
Proof.
  intros Ho Hc Hl. assert (forall x, keeps_settled s x -> one_tunnel x /\ calm (dm_schedule x) /\ load profile (ho_files (dm_host x)) = Ok (Some i)) as Hx.
  { intros x [[U1 U2 U3 U4] Ox _]. split_and!; [done|by apply U3|by rewrite U1]. }
  unfold check. pose proof (proj1 (check_parts_settled s i Ho Hc Hl)) as H1. set (s1 := check_error s) in *. clearbody s1.
  destruct (Hx s1 H1) as (O1 & C1 & L1). pose proof (keeps_settled_trans _ _ _ H1 (proj1 (proj2 (check_parts_settled s1 i O1 C1 L1)))) as H2.
  set (s2 := check_provisioning _ _ _ _ s1) in *. clearbody s2.
  destruct (Hx s2 H2) as (O2 & C2 & L2). pose proof (keeps_settled_trans _ _ _ H2 (proj1 (proj2 (proj2 (check_parts_settled s2 i O2 C2 L2))))) as H3.
  destruct (check_stopped s2) as [s3 []]; simpl in H3; [done|]. destruct (Hx s3 H3) as (O3 & C3 & L3).
  eapply keeps_settled_trans; [exact H3|]. by apply (check_parts_settled s3 i).
Qed.

(** A turn of the loop; a reload settles the service. *)
Lemma turn_settles input s i s' r goes : one_tunnel s -> calm (dm_schedule s) -> load profile (ho_files (dm_host s)) = Ok (Some i) ->
  serve_turn profile toml_table acceptor_ok daemon_error_text input s = (s', r, goes) ->
  keeps_settled s s' /\ (input = DCommand CmdReload -> ho_records (dm_host s') = ho_records (dm_host s) -> settled s').
Proof.
  intros Ho Hc Hl. assert (keeps_settled s s) as Hr by (by split; [apply undisturbed_same| |]).
  destruct input as [[]| | |]; simpl; intros [= <- _ _]; (split; [|try done]); try done.
  - by apply keeps_settled_look.
  - set (s0 := on_daemon _ s). assert (one_tunnel s0) as O0 by (eapply one_tunnel_kept; [exact Ho|by apply host_kept_same|done..]).
    apply (keeps_settled_trans _ s0); [by split; [apply undisturbed_same| |]|].
    pose proof (keeps_settled_reconcile s0 i O0 Hc Hl) as HR. eapply keeps_settled_trans; [exact HR|].
    apply keeps_settled_look; [apply HR|]. by apply (ud_calm _ _ (ks_undisturbed _ _ HR)).
  - intros _. set (s0 := on_daemon _ s). assert (one_tunnel s0) as O0 by (eapply one_tunnel_kept; [exact Ho|by apply host_kept_same|done..]).
    destruct (reconcile_settles s0 i O0 Hc Hl) as [Hu Hs]. intros Er.
    assert (calm (dm_schedule (reconcile profile toml_table acceptor_ok daemon_error_text s0))) as Hcr by (by apply (ud_calm _ _ Hu)).
    destruct (undisturbed_silent s0 _ _ Hu (look_undisturbed _ Hcr) Er) as [Er' _]. apply look_settled; [done|auto].
  - by eapply keeps_settled_reconcile.
  - by eapply keeps_settled_check.
Qed.
End Settled.

(** ** A concrete service *)

Module DaemonDemo.
Import StoreDemo.
(** Three files: without routes, with one, with another. *)
Definition demo_table (content : string) : option (list (string * Json)) :=
  if String.eqb content "" then Some []
  else if String.eqb content "1" then Some [("routes", JObj [("api", JStr "127.0.0.1:1")])]
  else if String.eqb content "2" then Some [("routes", JObj [("api", JStr "127.0.0.1:2")])]
  else None.
Definition demo_host : Host := mkHost demo_identity_files (Present "") (Some 1) ∅ 0 ∅ None [].
Definition demo_text (e : DaemonError) : string := "error".

Lemma demo_idle : idle demo_host.
Proof. split; intros t; cbn; rewrite ?lookup_empty; done. Qed.

(** An edit is noticed; another one comes between the look at the time and the read. *)
Definition demo_inputs : list (DaemonInput * list (list HostEvent)) :=
  [(DTick, [[HEdit (Present "1") (Some 2)]; []; []; []; []; [HEdit (Present "2") (Some 3)]])].
Definition demo_served := serve "p" demo_table (fun _ => true) demo_text demo_inputs (serve_start "p" demo_table (fun _ => true) demo_text demo_host []).
Definition demo_checked := check "p" demo_table (fun _ => true) demo_text (mkDm (dm_daemon demo_served.1) (dm_host demo_served.1) []).

Lemma one_tunnel_at_a_time_witness : exists p, ho_tunnels (dm_host demo_served.1) !! 0%nat = Some p /\ pr_shutdown p = false.
Proof.
  refine (proj1 (proj2 (one_tunnel_at_a_time "p" demo_table (fun _ => true) demo_text demo_host [] demo_inputs demo_served.1 demo_served.2
    demo_idle _)) demo_identity 0%nat _).
  - unfold demo_served. apply surjective_pairing.
  - vm_compute. reflexivity.
Defined.

Lemma edits_reach_tunnel_witness : exists p, ho_tunnels (dm_host demo_checked) !! 0%nat = Some p /\ pr_shutdown p = false /\
  load_config demo_table (ho_config (dm_host demo_checked)) = Ok (pr_routes p) /\ pr_routes p = [("api", mkRoute "127.0.0.1:2" None)].
Proof.
  destruct (edits_reach_tunnel "p" demo_table (fun _ => true) demo_text demo_host [] demo_inputs demo_served.1 demo_served.2 demo_identity 0%nat
    demo_idle) as (p & H1 & H2 & H3).
  - vm_compute. auto.
  - unfold demo_served. apply surjective_pairing.
  - vm_compute. reflexivity.
  - vm_compute. reflexivity.
  - exists p. split; [exact H1|]. split; [exact H2|]. split; [exact H3|].
    assert (load_config demo_table (ho_config (dm_host demo_checked)) = Ok [("api", mkRoute "127.0.0.1:2" None)]) as H4 by (vm_compute; reflexivity).
    assert (Ok (E := ConfigError) [("api", mkRoute "127.0.0.1:2" None)] = Ok (pr_routes p)) as [= <-] by exact (eq_trans (eq_sym H4) H3). reflexivity.
Defined.

(** The tunnel stopped and nobody noticed yet. *)
Definition demo_proc : Proc := mkProc demo_identity [] (mkStatus StStopped [] None 0 (Some "bad_token") None) false.
Definition demo_stopped : Host := set_tunnels {[ 0%nat := demo_proc ]} demo_host.
Definition demo_daemon : Daemon := mkDaemon (Some (demo_identity, 0%nat)) None false None (Some 1).

Lemma reload_after_stop_witness :
  da_running (dm_daemon (check "p" demo_table (fun _ => true) demo_text
    (serve_turn "p" demo_table (fun _ => true) demo_text (DCommand CmdReload) (mkDm demo_daemon demo_stopped [])).1.1)) = None.
Proof.
  assert (connectable "p" demo_table (fun _ => true) demo_stopped demo_identity []) as Hc by (split; vm_compute; reflexivity).
  refine (proj1 (proj2 (proj2 (proj2 (reload_after_stop "p" demo_table (fun _ => true) demo_text demo_daemon demo_stopped demo_identity [] Hc _ _)
    demo_identity 0%nat demo_proc _ _ _ _ _)))); reflexivity.
Defined.
End DaemonDemo.
