(* ===== verification/Cli.v ===== *)
(** * Cli: the commands, [main.rs] and [service.rs] of the command line, and the service they talk to

    A command and the service of its profile share the machine. Between any two steps of a command the service takes turns, the
    machine changes and processes come and go; an oracle says what, and whether the service answers a request in time. *)

From Stdlib Require Import ZArith Lia Ascii String List.
From stdpp Require Import base list strings gmap.
From S2P Require Import Prelude Text Names ProxyHeader Record Frames ClientApi ClientTunnel ClientStore CliConfig Daemon.

(** ** The directory of the control sockets *)

Record DirMeta := mkDirMeta { dm_is_dir : bool; dm_uid : Z; dm_mode : Z }.
Definition check_runtime_dir (meta : option DirMeta) (uid : Z) : bool :=
  match meta with
  | None => false
  | Some m => dm_is_dir m && (dm_uid m =? uid) && (Z.land (dm_mode m) 63 =? 0)
  end.

(** ** The machine, the service's process, and what happens *)

(** A process that was started and has not taken the lock; a service that the manager starts by itself. *)
Record Sys := mkSys { sy_host : Host; sy_daemon : option Daemon; sy_starting : bool; sy_registered : bool }.
Inductive SysEvent :=
| SHost (e : HostEvent)
| STurn (i : DaemonInput) (schedule : list (list HostEvent))
| SStart (schedule : list (list HostEvent))
| SKilled.

Record Cli := mkCli { cl_sys : Sys; cl_oracle : list (list SysEvent * option (list (list HostEvent))) }.

Inductive CliError :=
| CeRuntimeDir
| CeRequest
| CeDidNotStart
| CeDidNotStop
| CeSpawn
| CePlatform
| CeConfig (e : ConfigError)
| CeSaving
| CeClient (e : StoreFailure)
| CeDied
| CeBail (message : string).

(** How the write of a file ends: it cannot be opened, it was emptied and not written, or it was written. *)
Inductive Written := WOpenFailed | WWriteFailed | WDone.

Section Cli.
Context `{Metadata} (profile : string) (toml_table : string -> option (list (string * Json))) (toml_string : string -> string)
  (acceptor_ok : Identity -> bool) (daemon_error_text : DaemonError -> string).
(** The machine's answers during a command: the runtime directory and the user, whether the log opens, a process starts and the
    service manager does as it is told, the times of writes and how they end, and the generator of random names. *)
Context (runtime : option DirMeta) (uid : Z) (log_opens spawns : bool) (supported manager_works : bool)
  (write_time : Host -> option Z) (writing : Written) (fill : nat -> option bytes).
(** The API's answers to [ClientStore.create] and [ClientStore.remove]. *)
Context (created : list Deed -> result (string * string * string) StoreFailure) (generated : list Deed -> result (string * string) StoreFailure)
  (bound : list Deed -> result unit StoreFailure) (certificate_state : list Deed -> result CertificateState StoreFailure)
  (deleted : list Deed -> result unit StoreFailure) (dies : list Deed -> bool) (polls : nat) (listing : Files -> list string).

Definition set_host (h : Host) (y : Sys) : Sys := mkSys h (sy_daemon y) (sy_starting y) (sy_registered y).

(** The process of the service: a turn of its loop, and the start, which takes the lock or finds it taken. *)
Definition daemon_turn (d : Daemon) (i : DaemonInput) (schedule : list (list HostEvent)) (y : Sys) : Sys * option Response :=
  match serve_turn profile toml_table acceptor_ok daemon_error_text i (mkDm d (sy_host y) schedule) with
  | (s, r, true) => (mkSys (dm_host s) (Some (dm_daemon s)) (sy_starting y) (sy_registered y), r)
  | (s, r, false) => (mkSys (serve_end s) None (sy_starting y) (sy_registered y), r)
  end.
Definition daemon_start (schedule : list (list HostEvent)) (y : Sys) : Sys :=
  match sy_daemon y with
  | Some d => mkSys (sy_host y) (Some d) false (sy_registered y)
  | None =>
      if sy_starting y || sy_registered y then
        let s := serve_start profile toml_table acceptor_ok daemon_error_text (sy_host y) schedule in
        mkSys (dm_host s) (Some (dm_daemon s)) false (sy_registered y)
      else y
  end.
Definition sys_step (y : Sys) (e : SysEvent) : Sys :=
  match e with
  | SHost e => set_host (host_step (sy_host y) e) y
  | STurn i schedule => match sy_daemon y with Some d => fst (daemon_turn d i schedule y) | None => y end
  | SStart schedule => daemon_start schedule y
  | SKilled =>
      match sy_daemon y with
      | Some d => mkSys (serve_end (mkDm d (sy_host y) [])) None (sy_starting y) (sy_registered y)
      | None => y
      end
  end.

(** The next step of the command: what happened before it, and the schedule of an answer. *)
Definition access (c : Cli) : Cli * option (list (list HostEvent)) :=
  match cl_oracle c with
  | [] => (c, Some [])
  | (events, answer) :: rest => (mkCli (fold_left sys_step events (cl_sys c)) rest, answer)
  end.
Definition with_sys (f : Sys -> Sys) (c : Cli) : Cli := mkCli (f (cl_sys c)) (cl_oracle c).

(** ** Requests *)

Definition request (command : Command) (c : Cli) : Cli * result Response CliError :=
  if negb (check_runtime_dir runtime uid) then (c, Err CeRuntimeDir)
  else
    let '(c, answer) := access c in
    match sy_daemon (cl_sys c), answer with
    | Some d, Some schedule =>
        let '(y, r) := daemon_turn d (DCommand command) schedule (cl_sys c) in
        (mkCli y (cl_oracle c), match r with Some r => if rs_ok r then Ok r else Err CeRequest | None => Err CeRequest end)
    | _, _ => (c, Err CeRequest)
    end.

Definition status (c : Cli) : Cli * option DaemonStatus :=
  match request CmdStatus c with
  | (c, Ok r) => (c, rs_status r)
  | (c, Err _) => (c, None)
  end.

Fixpoint wait_polls (polls : nat) (c : Cli) : Cli * result unit CliError :=
  match polls with
  | O => (c, Err CeDidNotStart)
  | S polls' =>
      match status c with
      | (c, Some _) => (c, Ok tt)
      | (c, None) => wait_polls polls' c
      end
  end.
Definition wait_until_running (c : Cli) : Cli * result unit CliError := wait_polls 50 c.

Definition ensure_running (c : Cli) : Cli * result bool CliError :=
  match status c with
  | (c, Some _) => (c, Ok false)
  | (c, None) =>
      if log_opens && spawns then
        let c := with_sys (fun y => mkSys (sy_host y) (sy_daemon y) true (sy_registered y)) c in
        match wait_until_running c with
        | (c, Ok _) => (c, Ok true)
        | (c, Err e) => (c, Err e)
        end
      else (c, Err CeSpawn)
  end.

Fixpoint stop_polls (polls : nat) (c : Cli) : Cli * result bool CliError :=
  match polls with
  | O => (c, Err CeDidNotStop)
  | S polls' =>
      match status c with
      | (c, None) => (c, Ok true)
      | (c, Some _) => stop_polls polls' c
      end
  end.
Definition stop (c : Cli) : Cli * result bool CliError :=
  match status c with
  | (c, None) => (c, Ok false)
  | (c, Some _) =>
      match request CmdStop c with
      | (c, Err e) => (c, Err e)
      | (c, Ok _) => stop_polls 150 c
      end
  end.

(** The unit or agent is written; then the manager takes it and starts the service. *)
Definition install (c : Cli) : Cli * result unit CliError :=
  if negb log_opens then (c, Err CePlatform)
  else
    let c := with_sys (fun y => mkSys (sy_host y) (sy_daemon y) (sy_starting y) true) c in
    if manager_works then (with_sys (fun y => mkSys (sy_host y) (sy_daemon y) true true) c, Ok tt) else (c, Err CePlatform).
(** The manager is told to stop the service, which ends in its own time, and its registration is removed. *)
Definition uninstall (c : Cli) : Cli * result bool CliError :=
  let '(c, _) := access c in
  if negb (sy_registered (cl_sys c)) then (c, Ok false)
  else
    let c := with_sys (fun y => mkSys (sy_host y) (sy_daemon y) (sy_starting y) false) c in
    if manager_works then (c, Ok true) else (c, Err CePlatform).

Definition reload (c : Cli) : Cli * result unit CliError :=
  match request CmdReload c with (c, Ok _) => (c, Ok tt) | (c, Err e) => (c, Err e) end.

(** [installed(profile) && status(profile).await.is_some()]. *)
Definition installed_and_running (c : Cli) : Cli * bool :=
  let '(c, _) := access c in
  if sy_registered (cl_sys c) then match status c with (c, Some _) => (c, true) | (c, None) => (c, false) end else (c, false).

Definition service_up (c : Cli) : Cli * result unit CliError :=
  if negb (check_runtime_dir runtime uid) then (c, Err CeRuntimeDir)
  else if negb supported then
    match ensure_running c with
    | (c, Err e) => (c, Err e)
    | (c, Ok true) => (c, Ok tt)
    | (c, Ok false) => reload c
    end
  else
    match installed_and_running c with
    | (c, true) => reload c
    | (c, false) =>
        match stop c with
        | (c, Err e) => (c, Err e)
        | (c, Ok _) =>
            match install c with
            | (c, Err e) => (c, Err e)
            | (c, Ok _) => wait_until_running c
            end
        end
    end.

Definition service_down (c : Cli) : Cli * result bool CliError :=
  match uninstall c with
  | (c, Err e) => (c, Err e)
  | (c, Ok registered) =>
      match stop c with
      | (c, Err e) => (c, Err e)
      | (c, Ok stopped) => (c, Ok (registered || stopped))
      end
  end.

Definition reload_if_running (c : Cli) : Cli * result unit CliError :=
  match status c with
  | (c, Some _) => reload c
  | (c, None) => (c, Ok tt)
  end.

(** ** Commands *)

(** An operation of the client on the profile's directory. *)
Definition with_client {A} (m : CM A) (c : Cli) : Cli * result A CliError :=
  let '(c, _) := access c in
  let '(r, w) := m (mkWorld (ho_files (sy_host (cl_sys c))) []) in
  (with_sys (fun y => set_host (set_files (wo_files w) (sy_host y)) y) c,
   match r with Ok a => Ok a | Err (OpFailed e) => Err (CeClient e) | Err Died => Err CeDied end).

Definition get (c : Cli) : Cli * result (option Identity) CliError :=
  let '(c, _) := access c in (c, result_map_err CeClient (load profile (ho_files (sy_host (cl_sys c))))).

Definition up (c : Cli) : Cli * result string CliError :=
  let '(c, found) := get c in
  let '(c, own) :=
    match found with
    | Err e => (c, Err e)
    | Ok (Some i) => (c, Ok i)
    | Ok None => with_client (create profile created generated bound certificate_state dies polls) c
    end in
  match own with
  | Err e => (c, Err e)
  | Ok i => match service_up c with (c, Ok _) => (c, Ok (id_hostname i)) | (c, Err e) => (c, Err e) end
  end.

Definition load_routes (c : Cli) : Cli * result Routes CliError :=
  let '(c, _) := access c in (c, result_map_err CeConfig (load_config toml_table (ho_config (sy_host (cl_sys c))))).

(** [config::save] with [private::write]: the file is emptied, then written. *)
Definition save_routes (routes : Routes) (c : Cli) : Cli * result unit CliError :=
  let '(c, _) := access c in
  match writing with
  | WOpenFailed => (c, Err CeSaving)
  | WWriteFailed => (with_sys (fun y => set_host (set_config (Present "") (write_time (sy_host y)) (sy_host y)) y) c, Err CeSaving)
  | WDone =>
      let c := with_sys (fun y => set_host (set_config (Present "") (write_time (sy_host y)) (sy_host y)) y) c in
      let '(c, _) := access c in
      (with_sys (fun y => set_host (set_config (Present (render toml_string routes)) (write_time (sy_host y)) (sy_host y)) y) c, Ok tt)
  end.

(** [route add] after its arguments: the name it wrote, what it changed, the route and the public name it printed. *)
Definition add_route (given : string) (name : option string) (version : option Client.ProxyProtocol) (c : Cli)
  : Cli * result (string * Change * Route * string) CliError :=
  let r := mkRoute (normalize_target given) version in
  let '(c, routes) := load_routes c in
  match routes with
  | Err e => (c, Err e)
  | Ok routes =>
      match choose_route fill routes r name with
      | Err e => (c, Err (CeConfig e))
      | Ok (name, change) =>
          let '(c, saved) := match change with Unchanged => (c, Ok tt) | _ => save_routes (routes_insert name r routes) c end in
          match saved with
          | Err e => (c, Err e)
          | Ok _ =>
              match up c with
              | (c, Err e) => (c, Err e)
              | (c, Ok hostname) => (c, Ok (name, change, r, public_hostname name hostname))
              end
          end
      end
  end.
Definition route_add (given : string) (name : option string) (version : option Client.ProxyProtocol) (legacy_target : option string) (c : Cli)
  : Cli * result (string * Change * Route * string) CliError :=
  let '(c, found) := get c in
  match found, legacy_target, name with
  | Err e, _, _ => (c, Err e)
  | Ok _, Some _, Some _ => (c, Err (CeBail "give the route name either with --name or before the target, not both"))
  | Ok _, Some legacy, None => add_route legacy (Some given) version c
  | Ok _, None, name => add_route given name version c
  end.

(** [route remove]. *)
Definition route_remove (name : string) (c : Cli) : Cli * result unit CliError :=
  let '(c, found) := get c in
  match found with
  | Err e => (c, Err e)
  | Ok _ =>
      let '(c, routes) := load_routes c in
      match routes with
      | Err e => (c, Err e)
      | Ok routes =>
          match routes_remove name routes with
          | None => (c, Err (CeBail ("no route named '" +:+ name +:+ "' in profile " +:+ profile)))
          | Some routes' =>
              match save_routes routes' c with
              | (c, Err e) => (c, Err e)
              | (c, Ok _) => reload_if_running c
              end
          end
      end
  end.

(** [delete]: the service is stopped, then the tunnel removed. *)
Definition delete_command (yes : bool) (c : Cli) : Cli * result unit CliError :=
  if negb yes then (c, Err (CeBail "this deletes the tunnel and its hostname; rerun with --yes to confirm"))
  else
    match service_down c with
    | (c, Err e) => (c, Err e)
    | (c, Ok _) => with_client (remove profile deleted dies listing) c
    end.

(** [up]: after it, whether there is no route yet. *)
Definition up_command (c : Cli) : Cli * result (string * bool) CliError :=
  match up c with
  | (c, Err e) => (c, Err e)
  | (c, Ok hostname) =>
      let '(c, routes) := load_routes c in
      (c, match routes with Ok routes => Ok (hostname, match routes with [] => true | _ => false end) | Err e => Err e end)
  end.
End Cli.

(** ** A command and the service *)

Definition sys_ok (y : Sys) : Prop :=
  match sy_daemon y with Some d => one_tunnel (mkDm d (sy_host y) []) | None => idle (sy_host y) end.

(** Nobody else edits the file or the profile, and the service answers in time. *)
Definition calm_sys (e : SysEvent) : Prop :=
  match e with
  | SHost e => calm_event e = true
  | STurn _ schedule | SStart schedule => calm schedule
  | SKilled => True
  end.
Definition calm_oracle (o : list (list SysEvent * option (list (list HostEvent)))) : Prop :=
  Forall (fun x => Forall calm_sys (fst x) /\ exists schedule, snd x = Some schedule /\ calm schedule) o.

Lemma one_tunnel_schedule d h schedule schedule' : one_tunnel (mkDm d h schedule) -> one_tunnel (mkDm d h schedule').
Proof. intros Ho. eapply one_tunnel_kept; [exact Ho|by apply host_kept_same|done..]. Qed.

Lemma one_tunnel_reset s : one_tunnel s -> one_tunnel (mkDm (dm_daemon s) (dm_host s) []).
Proof. destruct s. apply one_tunnel_schedule. Qed.

Lemma serve_end_host s : ho_files (serve_end s) = ho_files (dm_host s) /\ ho_config (serve_end s) = ho_config (dm_host s) /\
  ho_records (serve_end s) = ho_records (dm_host s).
Proof. unfold serve_end, take_running. by destruct (da_running (dm_daemon s)) as [[]|]; simpl; case_split. Qed.

Lemma idle_step h e : idle h -> idle (host_step h e).
Proof.
  intros [A1 A2]. destruct (host_step_kept h e) as [K1 K2 K3]. split; [|intros k Hk%K3; by apply A2 in Hk].
  intros t p Et. specialize (K1 t). rewrite Et in K1. destruct (ho_tunnels h !! t) as [q|] eqn:Eq; [|done]. rewrite K2.
  destruct K1 as [-> _]. by apply A1.
Qed.

Section Commands.
Context `{Metadata} (profile : string) (toml_table : string -> option (list (string * Json))) (toml_string : string -> string)
  (acceptor_ok : Identity -> bool) (daemon_error_text : DaemonError -> string).
Context (runtime : option DirMeta) (uid : Z) (log_opens spawns : bool) (supported manager_works : bool)
  (write_time : Host -> option Z) (writing : Written) (fill : nat -> option bytes).
Context (created : list Deed -> result (string * string * string) StoreFailure) (generated : list Deed -> result (string * string) StoreFailure)
  (bound : list Deed -> result unit StoreFailure) (certificate_state : list Deed -> result CertificateState StoreFailure)
  (deleted : list Deed -> result unit StoreFailure) (dies : list Deed -> bool) (polls : nat) (listing : Files -> list string).
(** The identity of the profile. *)
Context (i : Identity).

(** A command under way: the file and the profile are as they are, errors were recorded after [before]. *)
Record under_way (config : ConfigFile) (before : list string) (y : Sys) : Prop := mkUnderWay {
  uw_ok : sys_ok y;
  uw_identity : load profile (ho_files (sy_host y)) = Ok (Some i);
  uw_config : ho_config (sy_host y) = config;
  uw_records : exists l, ho_records (sy_host y) = before ++ l;
}.

(** If no error was recorded, the service, if it runs, is settled. *)
Definition settled_if (before : list string) (y : Sys) : Prop := ho_records (sy_host y) = before ->
  forall d, sy_daemon y = Some d -> settled profile toml_table (mkDm d (sy_host y) []).

Lemma extended_silent (before l l' : list string) : (before ++ l) ++ l' = before -> l = [] /\ l' = [].
Proof. intros E. apply app_eq_nil. apply (app_inv_head before). by rewrite app_assoc, app_nil_r. Qed.

Lemma settled_schedule s d h schedule : settled profile toml_table s -> dm_daemon s = d -> dm_host s = h -> settled profile toml_table (mkDm d h schedule).
Proof. intros (ri & t & p & j & Hs) <- <-. by exists ri, t, p, j. Qed.

(** A turn of the service. *)
Lemma daemon_turn_under_way config before d input schedule y y' r : under_way config before y -> sy_daemon y = Some d -> calm schedule ->
  daemon_turn profile toml_table acceptor_ok daemon_error_text d input schedule y = (y', r) ->
  under_way config before y' /\ (settled_if before y -> settled_if before y') /\ (input = DCommand CmdReload -> settled_if before y').
Proof.
  intros [Hok Hl Hcf [l Hr]] Hd Hc. unfold daemon_turn. unfold sys_ok in Hok. rewrite Hd in Hok.
  set (s := mkDm d (sy_host y) schedule). assert (one_tunnel s) as Ho by (by eapply one_tunnel_schedule).
  destruct (serve_turn _ _ _ _ input s) as [[s' r'] goes] eqn:Et. destruct (turn_settles profile toml_table acceptor_ok daemon_error_text input s i s' r' goes Ho Hc Hl Et) as [[[U1 U2 U3 [l' U4]] Ho' Hs] Hrl].
  simpl in U1, U2, U4. assert (ho_records (dm_host s') = before -> ho_records (dm_host s') = ho_records (dm_host s) /\ ho_records (sy_host y) = before) as Hsil.
  { rewrite U4, Hr. intros [-> ->]%extended_silent. simpl. by rewrite Hr, !app_nil_r. }
  destruct goes; intros [= <- <-].
  - split_and!.
    + split; simpl; [by apply one_tunnel_reset|congruence|congruence|]. exists (l ++ l'). rewrite U4, Hr. by rewrite app_assoc.
    + intros Hsi Er d' [= <-]. destruct (Hsil Er) as [E1 E2]. eapply settled_schedule; [|done..]. apply Hs; [|done].
      eapply settled_schedule; [by apply Hsi|done..].
    + intros Hin Er d' [= <-]. destruct (Hsil Er) as [E1 E2]. eapply settled_schedule; [|done..]. by apply Hrl.
  - destruct (serve_end_host s') as (E1 & E2 & E3). split_and!; [|by intros _ _ d'|by intros _ _ d'].
    split; simpl; [by apply serve_end_idle|congruence|congruence|]. exists (l ++ l'). rewrite E3, U4, Hr. by rewrite app_assoc.
Qed.

Lemma step_under_way config before y e : under_way config before y -> calm_sys e ->
  let y' := sys_step profile toml_table acceptor_ok daemon_error_text y e in
  under_way config before y' /\ (settled_if before y -> settled_if before y').
Proof.
  intros Hu He. pose proof Hu as [Hok Hl Hcf [l Hr]]. destruct e as [e|input schedule|schedule|]; simpl.
  - simpl in He. set (s := mkDm new_daemon (sy_host y) [[e]]).
    assert (calm (dm_schedule s)) as Hc by (repeat constructor; done).
    destruct (look_undisturbed s Hc) as [U1 U2 _ [l' U4]]. simpl in U1, U2, U4. split.
    + split; simpl; [|congruence|congruence|exists (l ++ l'); rewrite U4, Hr; by rewrite app_assoc].
      unfold sys_ok in *. simpl. destruct (sy_daemon y) as [d|]; [|by apply idle_step].
      eapply one_tunnel_kept; [exact Hok|apply host_step_kept|done..].
    + intros Hs Er d Hd. simpl in *. assert (ho_records (sy_host y) = before) as Eb.
      { rewrite U4, Hr in Er. apply extended_silent in Er as [-> ->]. by rewrite Hr, app_nil_r. }
      eapply settled_schedule; [apply (look_settled profile toml_table (mkDm d (sy_host y) [[e]])); [done|]|done..].
      eapply settled_schedule; [by apply Hs|done..].
  - destruct (sy_daemon y) as [d|] eqn:Hd; [|done]. destruct (daemon_turn _ _ _ _ d input schedule y) as [y' r] eqn:Et.
    by destruct (daemon_turn_under_way config before d input schedule y y' r Hu Hd He Et) as (? & ? & _).
  - unfold daemon_start. destruct (sy_daemon y) as [d|] eqn:Hd.
    + split; [split; simpl; [unfold sys_ok in *; by rewrite Hd in *|done..|by eexists]|]. intros Hs Er d' [= <-]. by apply Hs.
    + destruct (_ || _); [|done]. unfold sys_ok in Hok. rewrite Hd in Hok. pose proof (idle_one_tunnel _ schedule Hok) as Ho. unfold serve_start.
      destruct (reconcile_settles profile toml_table acceptor_ok daemon_error_text _ i Ho He Hl) as [[U1 U2 U3 [l' U4]] Hs]. simpl in U1, U2, U4, Hs.
      pose proof (one_tunnel_reconcile profile toml_table acceptor_ok daemon_error_text _ Ho) as Ho'. split.
      * split; simpl; [by apply one_tunnel_reset|congruence|congruence|].
        exists (l ++ l'). rewrite U4, Hr. by rewrite app_assoc.
      * intros _ Er d' [= <-]. simpl in Er. eapply settled_schedule; [|done..]. apply Hs. rewrite U4, Hr in *.
        apply extended_silent in Er as [-> ->]. by rewrite !app_nil_r.
  - destruct (sy_daemon y) as [d|] eqn:Hd; [|done]. destruct (serve_end_host (mkDm d (sy_host y) [])) as (E1 & E2 & E3). simpl in E1, E2, E3.
    unfold sys_ok in Hok. rewrite Hd in Hok. split; [|by intros _ _ d'].
    split; simpl; [by apply serve_end_idle|congruence|congruence|exists l; congruence].
Qed.

(** ** Requests under way *)

Definition going (config : ConfigFile) (before : list string) (c : Cli) : Prop := under_way config before (cl_sys c) /\ calm_oracle (cl_oracle c).
(** A step of a command keeps it going, and the service settled. *)
Definition goes (config : ConfigFile) (before : list string) (c c' : Cli) : Prop :=
  going config before c' /\ (settled_if before (cl_sys c) -> settled_if before (cl_sys c')).
Lemma goes_trans config before c1 c2 c3 : goes config before c1 c2 -> goes config before c2 c3 -> goes config before c1 c3.
Proof. intros [A1 A2] [B1 B2]. split; auto. Qed.

Lemma access_goes config before c c' a : going config before c -> access profile toml_table acceptor_ok daemon_error_text c = (c', a) ->
  goes config before c c' /\ exists schedule, a = Some schedule /\ calm schedule.
Proof.
  intros [Hu Hc]. unfold access. destruct (cl_oracle c) as [|[events answer] rest] eqn:E.
  - intros [= <- <-]. split; [|by exists []; split; [|constructor]]. split; [|done]. split; [done|]. by rewrite E.
  - intros [= <- <-]. inversion Hc as [|? ? [He Ha] Hrest]; subst. simpl in He, Ha. split; [|done].
    unfold goes, going. simpl. clear E Ha Hc. revert Hu He. generalize (cl_sys c). induction events as [|e events IH]; intros y Hu He; [by split|].
    inversion He as [|? ? He1 He2]; subst. destruct (step_under_way config before y e Hu He1) as [Hu' Hs']. simpl.
    destruct (IH _ Hu' He2) as [A1 A2]. split; auto.
Qed.

Lemma request_goes config before command c c' r : check_runtime_dir runtime uid = true -> going config before c ->
  request profile toml_table acceptor_ok daemon_error_text runtime uid command c = (c', r) ->
  goes config before c c' /\ (command = CmdReload -> settled_if before (cl_sys c')) /\
  match r with
  | Ok _ => command <> CmdStop -> is_Some (sy_daemon (cl_sys c'))
  | Err _ => sy_daemon (cl_sys c') = None
  end.
Proof.
  intros Hrt Hg. unfold request. rewrite Hrt. simpl. destruct (access _ _ _ _ c) as [c1 a] eqn:Ea.
  destruct (access_goes config before c c1 a Hg Ea) as [[[Hu Hc] Hs] (schedule & -> & Hsch)].
  destruct (sy_daemon (cl_sys c1)) as [d|] eqn:Hd; [|intros [= <- <-]; split_and!; [by split|intros _ _ d' Hd'; congruence|done]].
  destruct (daemon_turn _ _ _ _ d (DCommand command) schedule (cl_sys c1)) as [y r'] eqn:Et.
  destruct (daemon_turn_under_way config before d (DCommand command) schedule (cl_sys c1) y r' Hu Hd Hsch Et) as (Hu' & Hs' & Hrl).
  intros [= <- <-]. split_and!; [|intros ->; simpl; auto|].
  - split; [by split|simpl; auto].
  - unfold daemon_turn in Et. destruct command; simpl in Et; injection Et as <- <-; simpl; done.
Qed.

Lemma status_goes config before c c' o : check_runtime_dir runtime uid = true -> going config before c ->
  status profile toml_table acceptor_ok daemon_error_text runtime uid c = (c', o) ->
  goes config before c c' /\ (is_Some o -> is_Some (sy_daemon (cl_sys c'))) /\ (o = None -> sy_daemon (cl_sys c') = None).
Proof.
  intros Hrt Hg. unfold status. destruct (request _ _ _ _ _ _ CmdStatus c) as [c1 r] eqn:E.
  destruct (request_goes config before CmdStatus c c1 r Hrt Hg E) as (H1 & _ & H2). destruct r as [r|e]; intros [= <- <-].
  - split_and!; [done|intros _; by apply H2|]. intros En. exfalso. unfold request in E. rewrite Hrt in E. simpl in E.
    destruct (access _ _ _ _ c) as [c2 a]. destruct (sy_daemon (cl_sys c2)), a; try done. unfold daemon_turn in E. simpl in E.
    injection E as _ <-. done.
  - split_and!; [done|by intros []|done].
Qed.

(** When the service does not run, what is not there is settled. *)
Lemma settled_gone before y : sy_daemon y = None -> settled_if before y.
Proof. intros Hd _ d E. congruence. Qed.

Lemma wait_polls_goes config before n : forall c c' r, check_runtime_dir runtime uid = true -> going config before c ->
  wait_polls profile toml_table acceptor_ok daemon_error_text runtime uid n c = (c', r) ->
  goes config before c c' /\ (r = Ok tt -> is_Some (sy_daemon (cl_sys c'))).
Proof.
  induction n as [|n IH]; intros c c' r Hrt Hg; simpl; [by intros [= <- <-]|].
  destruct (status _ _ _ _ _ _ c) as [c1 o] eqn:E. destruct (status_goes config before c c1 o Hrt Hg E) as (H1 & H2 & _).
  destruct o; [intros [= <- <-]; split; [done|intros _; by apply H2]|]. intros Hw. destruct (IH c1 c' r Hrt (proj1 H1) Hw) as [A1 A2].
  split; [by eapply goes_trans|done].
Qed.

Lemma stop_polls_goes config before n : forall c c' r, check_runtime_dir runtime uid = true -> going config before c ->
  stop_polls profile toml_table acceptor_ok daemon_error_text runtime uid n c = (c', r) ->
  going config before c' /\ (is_Some (result_ok r) -> sy_daemon (cl_sys c') = None).
Proof.
  induction n as [|n IH]; intros c c' r Hrt Hg; simpl; [intros [= <- <-]; by split; [|intros []]|].
  destruct (status _ _ _ _ _ _ c) as [c1 o] eqn:E. destruct (status_goes config before c c1 o Hrt Hg E) as (H1 & _ & H2).
  destruct o; [apply IH; [done|apply H1]|]. intros [= <- <-]. split; [apply H1|auto].
Qed.

Lemma stop_goes config before c c' r : check_runtime_dir runtime uid = true -> going config before c ->
  stop profile toml_table acceptor_ok daemon_error_text runtime uid c = (c', r) ->
  going config before c' /\ (is_Some (result_ok r) -> sy_daemon (cl_sys c') = None).
Proof.
  intros Hrt Hg. unfold stop. destruct (status _ _ _ _ _ _ c) as [c1 o] eqn:E.
  destruct (status_goes config before c c1 o Hrt Hg E) as (H1 & _ & H2). destruct o; [|intros [= <- <-]; split; [apply H1|auto]].
  destruct (request _ _ _ _ _ _ CmdStop c1) as [c2 r2] eqn:E2. destruct (request_goes config before CmdStop c1 c2 r2 Hrt (proj1 H1) E2) as [H3 _].
  destruct r2; [apply stop_polls_goes; [done|apply H3]|]. intros [= <- <-]. split; [apply H3|by intros []].
Qed.

(** The flags of processes do not matter to what is under way. *)
Lemma going_flags config before c f : going config before c -> (forall y, sy_host (f y) = sy_host y /\ sy_daemon (f y) = sy_daemon y) ->
  going config before (with_sys f c) /\ (settled_if before (cl_sys c) -> settled_if before (cl_sys (with_sys f c))).
Proof.
  intros [[A1 A2 A3 A4] Hc] Hf. destruct (Hf (cl_sys c)) as [E1 E2]. unfold going, with_sys, settled_if. simpl. rewrite E1, E2. split; [|done].
  split; [|done]. split; rewrite ?E1; try done. unfold sys_ok in *. by rewrite E1, E2.
Qed.

(** [up] of the service brings it to the file's routes, or an error was recorded. *)
Lemma reload_settles config before c c' r : check_runtime_dir runtime uid = true -> going config before c ->
  reload profile toml_table acceptor_ok daemon_error_text runtime uid c = (c', r) ->
  going config before c' /\ settled_if before (cl_sys c') /\ (r = Ok tt -> is_Some (sy_daemon (cl_sys c'))).
Proof.
  intros Hrt Hg. unfold reload. destruct (request _ _ _ _ _ _ CmdReload c) as [c1 r1] eqn:E.
  destruct (request_goes config before CmdReload c c1 r1 Hrt Hg E) as (H1 & H2 & H3). destruct r1; intros [= <- <-]; (split_and!; [apply H1|by apply H2|]); [|done].
  intros _. by apply H3.
Qed.

Lemma service_up_settles config before c c' : going config before c ->
  service_up profile toml_table acceptor_ok daemon_error_text runtime uid log_opens spawns supported manager_works c = (c', Ok tt) ->
  going config before c' /\ settled_if before (cl_sys c') /\ is_Some (sy_daemon (cl_sys c')).
Proof.
  intros Hg. unfold service_up. destruct (check_runtime_dir runtime uid) eqn:Hrt; simpl; [|done].
  assert (forall c r, going config before c -> reload profile toml_table acceptor_ok daemon_error_text runtime uid c = (c', r) -> r = Ok tt ->
    going config before c' /\ settled_if before (cl_sys c') /\ is_Some (sy_daemon (cl_sys c'))) as Hrl.
  { intros x r Hx Er ->. destruct (reload_settles config before x c' (Ok tt) Hrt Hx Er) as (? & ? & Hd). split_and!; auto. }
  assert (forall x (f : Sys -> Sys), going config before x -> sy_daemon (cl_sys x) = None -> (forall y, sy_host (f y) = sy_host y /\ sy_daemon (f y) = sy_daemon y) ->
    forall c' r, wait_until_running profile toml_table acceptor_ok daemon_error_text runtime uid (with_sys f x) = (c', r) -> r = Ok tt ->
    going config before c' /\ settled_if before (cl_sys c') /\ is_Some (sy_daemon (cl_sys c'))) as Hw.
  { intros x f Hx Hd Hf x' r Ew ->. destruct (going_flags config before x f Hx Hf) as [Hx' Hs'].
    destruct (wait_polls_goes config before 50 _ _ _ Hrt Hx' Ew) as [[A1 A2] A3]. split_and!; [done| |by apply A3]. by apply A2, Hs', settled_gone. }
  destruct supported; simpl.
  - unfold installed_and_running. destruct (access _ _ _ _ c) as [c1 a] eqn:Ea. destruct (access_goes config before c c1 a Hg Ea) as [[H1 _] _].
    assert (forall x, going config before x ->
      match stop profile toml_table acceptor_ok daemon_error_text runtime uid x with
      | (c, Err e) => (c, Err e)
      | (c, Ok _) => match install log_opens manager_works c with
          | (c, Err e) => (c, Err e)
          | (c, Ok _) => wait_until_running profile toml_table acceptor_ok daemon_error_text runtime uid c end
      end = (c', Ok tt) -> going config before c' /\ settled_if before (cl_sys c') /\ is_Some (sy_daemon (cl_sys c'))) as Hst.
    { intros x Hx. destruct (stop _ _ _ _ _ _ x) as [c2 r2] eqn:E2. destruct (stop_goes config before x c2 r2 Hrt Hx E2) as [H3 H4].
      destruct r2; [|done]. unfold install. destruct log_opens; simpl; [|done]. destruct manager_works; [|done].
      intros Ew. eapply (Hw c2 (fun y => mkSys (sy_host y) (sy_daemon y) true true)); [done|by apply H4|done|exact Ew|done]. }
    destruct (sy_registered (cl_sys c1)); [|by apply Hst]. destruct (status _ _ _ _ _ _ c1) as [c2 o] eqn:E2.
    destruct (status_goes config before c1 c2 o Hrt H1 E2) as [[H2 _] _]. destruct o; [intros Er; by eapply Hrl|by apply Hst].
  - unfold ensure_running. destruct (status _ _ _ _ _ _ c) as [c1 o] eqn:E1. destruct (status_goes config before c c1 o Hrt Hg E1) as ([H1 _] & _ & H2).
    destruct o; [intros Er; by eapply Hrl|]. destruct (log_opens && spawns); [|done].
    destruct (wait_until_running _ _ _ _ _ _ _) as [c2 r2] eqn:Ew. destruct r2 as [[]|]; [|done]. intros [= <-].
    eapply (Hw c1); [done|by apply H2| |exact Ew|done]. done.
Qed.

(** The command [up], for a profile that has its identity. *)
Lemma up_settles config before c c' hostname : going config before c ->
  up profile toml_table acceptor_ok daemon_error_text runtime uid log_opens spawns supported manager_works
    created generated bound certificate_state dies polls c = (c', Ok hostname) ->
  going config before c' /\ settled_if before (cl_sys c') /\ is_Some (sy_daemon (cl_sys c')) /\ hostname = id_hostname i.
Proof.
  intros Hg. unfold up, get. destruct (access _ _ _ _ c) as [c1 a] eqn:Ea. destruct (access_goes config before c c1 a Hg Ea) as [[H1 _] _].
  rewrite (uw_identity _ _ _ (proj1 H1)). simpl. destruct (service_up _ _ _ _ _ _ _ _ _ _ c1) as [c2 [[]|]] eqn:E2; [|done].
  intros [= <- <-]. by destruct (service_up_settles config before c1 c2 H1 E2) as (? & ? & ?).
Qed.

(** Writing the file: what was under way goes on with the new file. *)
Lemma going_config config before c config' modified : going config before c ->
  going config' before (with_sys (fun y => set_host (set_config config' (modified (sy_host y)) (sy_host y)) y) c).
Proof.
  intros [[A1 A2 A3 A4] Hc]. split; [|done]. split; try done. unfold sys_ok in *. simpl. destruct (sy_daemon (cl_sys c)).
  - eapply one_tunnel_kept; [exact A1|by apply host_kept_same|done..].
  - destruct A1 as [B1 B2]. by split.
Qed.

Lemma save_goes config before routes c c' : going config before c ->
  save_routes profile toml_table toml_string acceptor_ok daemon_error_text write_time writing routes c = (c', Ok tt) ->
  going (Present (render toml_string routes)) before c'.
Proof.
  intros Hg. unfold save_routes. destruct (access _ _ _ _ c) as [c1 a] eqn:Ea. destruct (access_goes config before c c1 a Hg Ea) as [[H1 _] _].
  destruct writing; try done. apply (going_config _ _ _ (Present "") write_time) in H1.
  destruct (access _ _ _ _ (with_sys _ c1)) as [c2 a2] eqn:Ea2. destruct (access_goes _ before _ c2 a2 H1 Ea2) as [[H2 _] _].
  intros [= <-]. by eapply going_config.
Qed.

(** [route add] after its arguments. *)
Lemma add_route_settles config before given name version c c' n change r public routes : going config before c ->
  load_config toml_table config = Ok routes -> fills fill -> toml_reads toml_table toml_string (map toml_entry (written_routes routes n r change)) ->
  add_route profile toml_table toml_string acceptor_ok daemon_error_text runtime uid log_opens spawns supported manager_works write_time writing fill
    created generated bound certificate_state dies polls given name version c = (c', Ok (n, change, r, public)) ->
  exists routes', going (ho_config (sy_host (cl_sys c'))) before c' /\ settled_if before (cl_sys c') /\ is_Some (sy_daemon (cl_sys c')) /\
    load_config toml_table (ho_config (sy_host (cl_sys c'))) = Ok routes' /\ public = public_hostname n (id_hostname i) /\
    forall m, route_at routes' m = if String.eqb n m then Some r else route_at routes m.
Proof.
  intros Hg Hcf Hf Ht. pose proof (load_config_ok _ _ _ Hcf) as Hco. unfold add_route, load_routes. destruct (access _ _ _ _ c) as [c2 a] eqn:Ea.
  destruct (access_goes config before c c2 a Hg Ea) as [[H2 _] _]. rewrite (uw_config _ _ _ (proj1 H2)), Hcf.
  cbn [result_map_err]. destruct (choose_route fill routes _ name) as [[n' change']|] eqn:Ech; [|done].
  destruct (choose_route_name fill routes _ name n' change' Hco Hf Ech) as (Hv & -> & _).
  destruct (written_routes_spec routes n' _ Hco Hv) as [Hco' Hat].
  set (r' := mkRoute _ version) in *. set (ch := change_of routes n' r') in *.
  destruct (match ch with Unchanged => (c2, Ok tt) | _ => _ end) as [c3 saved] eqn:Es. destruct saved as [[]|]; [|done].
  destruct (up _ _ _ _ _ _ _ _ _ _ _ _ _ _ _ _ c3) as [c4 [hostname|]] eqn:Eu; [|done]. intros [= <- <- <- <- <-].
  assert (exists config', going config' before c3 /\ load_config toml_table config' = Ok (written_routes routes n' r' ch)) as (config' & H3 & Hcf').
  { unfold written_routes in *. destruct ch; [|injection Es as <-; by exists config|];
      (eexists; split; [by eapply save_goes|simpl; by apply render_read]). }
  destruct (up_settles config' before c3 c4 hostname H3 Eu) as (H4 & Hs & Hd & ->). exists (written_routes routes n' r' ch).
  rewrite (uw_config _ _ _ (proj1 H4)). by split_and!.
Qed.

(** C26: when [route add] succeeds, the service runs, and unless it recorded an error meanwhile its tunnel has the new route and
    every other route of the file as it was, whatever state the service was in, whether it ran or had to be started, and
    whatever it did while the file was written; the public name printed is the route's name before the tunnel's hostname. *)
Theorem added_route_served given name version legacy c c' n change r public routes :
  sys_ok (cl_sys c) -> calm_oracle (cl_oracle c) -> load profile (ho_files (sy_host (cl_sys c))) = Ok (Some i) ->
  load_config toml_table (ho_config (sy_host (cl_sys c))) = Ok routes -> fills fill ->
  toml_reads toml_table toml_string (map toml_entry (written_routes routes n r change)) ->
  route_add profile toml_table toml_string acceptor_ok daemon_error_text runtime uid log_opens spawns supported manager_works write_time writing fill
    created generated bound certificate_state dies polls given name version legacy c = (c', Ok (n, change, r, public)) ->
  exists d, sy_daemon (cl_sys c') = Some d /\ public = public_hostname n (id_hostname i) /\
  (ho_records (sy_host (cl_sys c')) = ho_records (sy_host (cl_sys c)) ->
   exists ri t p, da_running d = Some (ri, t) /\ id_id ri = id_id i /\ ho_tunnels (sy_host (cl_sys c')) !! t = Some p /\ pr_shutdown p = false /\
     route_at (pr_routes p) n = Some r /\ forall m, m <> n -> route_at (pr_routes p) m = route_at routes m).
Proof.
  intros Hok Hc Hl Hcf Hf Ht. set (config := ho_config (sy_host (cl_sys c))). set (before := ho_records (sy_host (cl_sys c))).
  assert (going config before c) as Hg by (split; [split; try done; exists []; by rewrite app_nil_r|done]).
  unfold route_add, get. destruct (access _ _ _ _ c) as [c1 a] eqn:Ea. destruct (access_goes config before c c1 a Hg Ea) as [[H1 _] _].
  rewrite (uw_identity _ _ _ (proj1 H1)). cbn [result_map_err]. intros E.
  assert (exists g nm, add_route profile toml_table toml_string acceptor_ok daemon_error_text runtime uid log_opens spawns supported manager_works write_time writing fill
    created generated bound certificate_state dies polls g nm version c1 = (c', Ok (n, change, r, public))) as (g & nm & E').
  { destruct legacy, name; try done; eauto. }
  destruct (add_route_settles config before g nm version c1 c' n change r public routes H1 Hcf Hf Ht E') as (routes' & Hg' & Hs & [d Hd] & Hcf' & -> & Hat).
  exists d. split_and!; [done..|]. intros Er. destruct (Hs Er d Hd) as (ri & t & p & j & A1 & A2 & A3 & A4 & A5 & A6 & A7). simpl in A1, A2, A4, A7.
  rewrite (uw_identity _ _ _ (proj1 Hg')) in A4. injection A4 as <-. rewrite Hcf' in A7. injection A7 as ->.
  exists ri, t, p. split_and!; try done; [rewrite Hat; by rewrite String.eqb_refl|]. intros m Hm. rewrite Hat.
  by rewrite (proj2 (String.eqb_neq n m)) by done.
Qed.

(** [route remove]: the file keeps the other routes, and a service that runs serves them and no longer the removed one. *)
Theorem removed_route_gone name c c' routes routes' :
  sys_ok (cl_sys c) -> calm_oracle (cl_oracle c) -> load profile (ho_files (sy_host (cl_sys c))) = Ok (Some i) ->
  check_runtime_dir runtime uid = true ->
  load_config toml_table (ho_config (sy_host (cl_sys c))) = Ok routes -> routes_remove name routes = Some routes' ->
  toml_reads toml_table toml_string (map toml_entry routes') ->
  route_remove profile toml_table toml_string acceptor_ok daemon_error_text runtime uid write_time writing name c = (c', Ok tt) ->
  load_config toml_table (ho_config (sy_host (cl_sys c'))) = Ok routes' /\
  (forall m, route_at routes' m = if String.eqb name m then None else route_at routes m) /\
  (ho_records (sy_host (cl_sys c')) = ho_records (sy_host (cl_sys c)) -> forall d, sy_daemon (cl_sys c') = Some d ->
   exists ri t p, da_running d = Some (ri, t) /\ ho_tunnels (sy_host (cl_sys c')) !! t = Some p /\ pr_shutdown p = false /\ pr_routes p = routes').
Proof.
  intros Hok Hc Hl Hrt Hcf Hrm Ht. set (config := ho_config (sy_host (cl_sys c))) in *. set (before := ho_records (sy_host (cl_sys c))).
  assert (going config before c) as Hg by (split; [split; try done; exists []; by rewrite app_nil_r|done]).
  destruct (load_config_ok _ _ _ Hcf) as [Ho Hv]. pose proof (routes_remove_spec name routes) as Hsp. rewrite Hrm in Hsp.
  destruct Hsp as (_ & Hsp & Hsub). destruct (Hsp Ho) as [Ho' Hat].
  assert (config_ok routes') as Hco by (split; [done|]; apply Forall_forall; intros e He; rewrite Forall_forall in Hv; auto).
  unfold route_remove, get, load_routes. destruct (access _ _ _ _ c) as [c1 a] eqn:Ea. destruct (access_goes config before c c1 a Hg Ea) as [[H1 _] _].
  rewrite (uw_identity _ _ _ (proj1 H1)). cbn [result_map_err]. destruct (access _ _ _ _ c1) as [c2 a2] eqn:Ea2.
  destruct (access_goes config before c1 c2 a2 H1 Ea2) as [[H2 _] _]. rewrite (uw_config _ _ _ (proj1 H2)), Hcf. cbn [result_map_err]. rewrite Hrm.
  destruct (save_routes _ _ _ _ _ _ _ routes' c2) as [c3 [[]|]] eqn:Es; [|done]. apply (save_goes config before) in Es; [|done].
  set (config' := Present (render toml_string routes')) in *.
  assert (load_config toml_table config' = Ok routes') as Hcf' by (by apply render_read).
  unfold reload_if_running. destruct (status _ _ _ _ _ _ c3) as [c4 o] eqn:E4. destruct (status_goes config' before c3 c4 o Hrt Es E4) as ([H4 _] & _ & H5).
  intros E. assert (going config' before c' /\ settled_if before (cl_sys c')) as [Hg' Hs'].
  { destruct o; [|injection E as <-; split; [done|by apply settled_gone, H5]].
    by destruct (reload_settles config' before c4 c' _ Hrt H4 E) as (? & ? & _). }
  rewrite (uw_config _ _ _ (proj1 Hg')). split_and!; [done..|]. intros Er d Hd.
  destruct (Hs' Er d Hd) as (ri & t & p & j & A1 & A2 & A3 & A4 & A5 & A6 & A7). simpl in A1, A2, A7.
  rewrite (uw_config _ _ _ (proj1 Hg')), Hcf' in A7. injection A7 as ->. by exists ri, t, p.
Qed.

(** [down]: the service is gone and every tunnel it had was told to stop. *)
Theorem down_disconnects c c' done_ :
  sys_ok (cl_sys c) -> calm_oracle (cl_oracle c) -> load profile (ho_files (sy_host (cl_sys c))) = Ok (Some i) ->
  check_runtime_dir runtime uid = true ->
  service_down profile toml_table acceptor_ok daemon_error_text runtime uid manager_works c = (c', Ok done_) ->
  sy_daemon (cl_sys c') = None /\ idle (sy_host (cl_sys c')).
Proof.
  intros Hok Hc Hl Hrt. set (config := ho_config (sy_host (cl_sys c))). set (before := ho_records (sy_host (cl_sys c))).
  assert (going config before c) as Hg by (split; [split; try done; exists []; by rewrite app_nil_r|done]).
  unfold service_down, uninstall. destruct (access _ _ _ _ c) as [c1 a] eqn:Ea. destruct (access_goes config before c c1 a Hg Ea) as [[H1 _] _].
  assert (forall x r, going config before x -> stop profile toml_table acceptor_ok daemon_error_text runtime uid x = (c', Ok r) ->
    sy_daemon (cl_sys c') = None /\ idle (sy_host (cl_sys c'))) as Hst.
  { intros x r Hx Ex. destruct (stop_goes config before x c' (Ok r) Hrt Hx Ex) as [[Hu _] Hd]. specialize (Hd (mk_is_Some _ _ eq_refl)).
    split; [done|]. pose proof (uw_ok _ _ _ Hu) as Hy. unfold sys_ok in Hy. by rewrite Hd in Hy. }
  destruct (sy_registered (cl_sys c1)); simpl.
  - destruct manager_works; [|done]. destruct (stop _ _ _ _ _ _ _) as [c2 [r|]] eqn:E2; [|done]. intros [= <- _].
    eapply Hst, E2. by apply going_flags.
  - destruct (stop _ _ _ _ _ _ _) as [c2 [r|]] eqn:E2; [|done]. intros [= <- _]. by eapply Hst.
Qed.
End Commands.

(** ** A concrete command: a route is added while the service does not run *)

Module CliDemo.
Import StoreDemo DaemonDemo.
Definition demo_string (s : string) : string := quote_mark +:+ s +:+ quote_mark.
Definition demo_new : Routes := [("web", mkRoute "127.0.0.1:3000" None)].
Definition demo_toml (content : string) : option (list (string * Json)) :=
  if String.eqb content "" then Some []
  else if String.eqb content (render demo_string demo_new) then Some [("routes", JObj [("web", JStr "127.0.0.1:3000")])]
  else None.
Definition demo_cli : Cli :=
  mkCli (mkSys demo_host None false false) [([], Some []); ([], Some []); ([], Some []); ([], Some []); ([], Some []); ([], Some []); ([SStart []], Some [])].
Definition demo_add := route_add "p" demo_toml demo_string (fun _ => true) demo_text (Some (mkDirMeta true 1000 448)) 1000 true true false false
  (fun _ => Some 2) WDone (fun _ => None) demo_created demo_generated (fun _ => Ok tt) demo_ready (fun _ => false) 5 "3000" (Some "web") None None demo_cli.

Lemma demo_toml_reads : toml_reads demo_toml demo_string (map toml_entry (written_routes [] "web" (mkRoute "127.0.0.1:3000" None) Added)).
Proof. split; [intros _ _; vm_compute; reflexivity|done]. Qed.

Lemma added_route_served_witness : exists d p, sy_daemon (cl_sys demo_add.1) = Some d /\ is_Some (da_running d) /\
  ho_tunnels (sy_host (cl_sys demo_add.1)) !! 0%nat = Some p /\ route_at (pr_routes p) "web" = Some (mkRoute "127.0.0.1:3000" None).
Proof.
  destruct (added_route_served "p" demo_toml demo_string (fun _ => true) demo_text (Some (mkDirMeta true 1000 448)) 1000 true true false false
    (fun _ => Some 2) WDone (fun _ => None) demo_created demo_generated (fun _ => Ok tt) demo_ready (fun _ => false) 5 demo_identity
    "3000" (Some "web") None None demo_cli demo_add.1 "web" Added (mkRoute "127.0.0.1:3000" None) "web.a.t" [])
    as (d & Hd & _ & Hr).
  - exact demo_idle.
  - repeat constructor; try (exists []; split; [reflexivity|constructor]).
  - vm_compute. reflexivity.
  - reflexivity.
  - done.
  - exact demo_toml_reads.
  - vm_compute. reflexivity.
  - destruct Hr as (ri & t & p & H1 & _ & H3 & _ & H5 & _); [vm_compute; reflexivity|]. exists d, p.
    split; [exact Hd|]. split; [by rewrite H1|]. split; [|exact H5].
    vm_compute in Hd. injection Hd as <-. injection H1 as <- <-. exact H3.
Defined.
End CliDemo.
