(* ===== verification/CliFiles.v ===== *)
(** * CliFiles: private files, paths and the service's unit files, [private.rs], [control.rs], [service.rs] of the CLI and [paths.rs]

    A path is its components, as it resolves; the process may die, and a call may fail, after any of its calls. Other users of the
    machine see what the modes let them see. *)

From Stdlib Require Import ZArith Lia Ascii String List.
From stdpp Require Import base list strings gmap.
From S2P Require Import Prelude Text Names.

Abbreviation path := (list string).

(** ** The directories: [paths.rs], [config::path] and [control::paths] *)

Section Paths.
(** The environment ([Some []] is a variable that is set and empty), the temporary directory and the user. *)
Context (env : string -> option path) (temp_dir : path) (user_id : string).

Definition home : path := match env "HOME" with Some p => p | None => temp_dir end.
Definition set_var (variable : string) : option path := let* p := env variable in if bool_decide (p = []) then None else Some p.
Definition xdg (variable : string) (fallback : list string) : path :=
  match set_var variable with Some value => value | None => home ++ fallback end.
Definition data_dir : path := xdg "XDG_DATA_HOME" [".local"; "share"] ++ ["opentunnel"].
Definition config_dir : path := xdg "XDG_CONFIG_HOME" [".config"] ++ ["opentunnel"].
Definition state_dir : path := xdg "XDG_STATE_HOME" [".local"; "state"] ++ ["opentunnel"].
Definition runtime_path : path :=
  match set_var "XDG_RUNTIME_DIR" with Some value => value ++ ["opentunnel"] | None => temp_dir ++ ["opentunnel-" +:+ user_id] end.

Definition config_path (profile : string) : path := config_dir ++ [profile +:+ ".toml"].

Record Paths := mkPaths { pa_socket : path; pa_lock : path; pa_log : path; pa_last_error : path }.
Definition paths (profile : string) : Paths :=
  let state := state_dir ++ [profile] in
  mkPaths (runtime_path ++ [profile +:+ ".sock"]) (runtime_path ++ [profile +:+ ".lock"]) (state ++ ["daemon.log"]) (state ++ ["last-error.json"]).

(** systemd's and launchd's files: [unit_path] and [plist_path]. *)
Definition unit_name (profile : string) : string := "opentunnel-" +:+ profile +:+ ".service".
Definition unit_path (profile : string) : path :=
  match env "XDG_CONFIG_HOME" with Some p => p | None => default [] (env "HOME") ++ [".config"] end ++ ["systemd"; "user"; unit_name profile].
Definition plist_label (profile : string) : string := "xyz.opentunnel." +:+ profile.
Definition plist_path (profile : string) : path := default [] (env "HOME") ++ ["Library"; "LaunchAgents"; plist_label profile +:+ ".plist"].
End Paths.

(** ** The file system *)

Inductive Kind := KFile (content : bytes) | KDir | KOther.
Record Node := mkNode { no_owner : Z; no_mode : Z; no_kind : Kind }.
Abbreviation Fs := (gmap path Node).

(** Modes; no access for the group and others. *)
Definition O700 : Z := 448.
Definition O600 : Z := 384.
Definition O077 : Z := 63.
Definition is_private (mode : Z) : bool := Z.land mode O077 =? 0.

Section Private.
Context (uid umask : Z).

(** A call: [None] is a failure. *)
Definition Call : Type := Fs -> option Fs.
Fixpoint run_calls (l : list Call) (fs : Fs) : option Fs :=
  match l with [] => Some fs | f :: l' => match f fs with Some fs' => run_calls l' fs' | None => None end end.
(** What is there when the process stops, after these calls or at one that fails. *)
Fixpoint after (l : list Call) (fs : Fs) : Fs :=
  match l with [] => fs | f :: l' => match f fs with Some fs' => after l' fs' | None => fs end end.

Definition created (mode : Z) (k : Kind) : Node := mkNode uid (Z.land mode (Z.lnot umask)) k.

(** [DirBuilder::create] of one directory, and with [recursive] of those missing on the way. *)
Definition ensure_dir (mode : Z) (p : path) : Call := fun fs =>
  match fs !! p with
  | Some n => match no_kind n with KDir => Some fs | _ => None end
  | None => Some (<[p := created mode KDir]> fs)
  end.
Definition create_all (mode : Z) (p : path) : list Call := map (fun n => ensure_dir mode (take n p)) (seq 1 (length p)).

(** [set_permissions], for the owner only, and [restrict]. *)
Definition chmod (mode : Z) (p : path) : Call := fun fs =>
  match fs !! p with
  | Some n => if no_owner n =? uid then Some (<[p := mkNode (no_owner n) mode (no_kind n)]> fs) else None
  | None => None
  end.
Definition restrict (p : path) (mode : Z) : Call := fun fs =>
  match fs !! p with
  | Some n => if negb (is_private (no_mode n)) then chmod mode p fs else Some fs
  | None => Some fs
  end.
Definition create_dir (dir : path) : list Call := create_all O700 dir ++ [fun fs => restrict dir O700 fs].

(** [OpenOptions] with [create], and with [truncate]; a piece of [write_all]. *)
Definition open_create (truncate : bool) (p : path) : Call := fun fs =>
  match fs !! p with
  | Some n => match no_kind n with KFile c => Some (<[p := mkNode (no_owner n) (no_mode n) (KFile (if truncate then [] else c))]> fs) | _ => None end
  | None => Some (<[p := created O600 (KFile [])]> fs)
  end.
Definition append_piece (p : path) (piece : bytes) : Call := fun fs =>
  match fs !! p with
  | Some n => match no_kind n with KFile c => Some (<[p := mkNode (no_owner n) (no_mode n) (KFile (c ++ piece))]> fs) | _ => None end
  | None => None
  end.

(** [write], which may write its content in pieces, and [open_append]. *)
Definition write (p : path) (pieces : list bytes) : list Call := open_create true p :: chmod O600 p :: map (append_piece p) pieces.
Definition open_append (p : path) : list Call := [open_create false p; chmod O600 p].

(** [config::save] and [open_log]: the directory, then the file. *)
Definition save (dir : path) (name : string) (pieces : list bytes) : list Call := create_dir dir ++ write (dir ++ [name]) pieces.
Definition open_log (dir : path) (name : string) : list Call := create_dir dir ++ open_append (dir ++ [name]).

(** [tighten]: best effort. *)
Definition tighten (directories files : list path) (fs : Fs) : Fs :=
  let try_ mode fs p := default fs (restrict p mode fs) in
  fold_left (try_ O600) files (fold_left (try_ O700) directories fs).

(** ** [control::runtime_dir] *)

Inductive Insecure := NotADirectory | OwnedByAnother | Accessible.
Inductive RuntimeError := CannotCreate | CannotInspect | Refused (why : Insecure).

Definition check_runtime_dir (dir : path) (fs : Fs) : result unit RuntimeError :=
  match fs !! dir with
  | None => Err CannotInspect
  | Some n =>
      match no_kind n with
      | KDir => if negb (no_owner n =? uid) then Err (Refused OwnedByAnother) else if negb (is_private (no_mode n)) then Err (Refused Accessible) else Ok tt
      | _ => Err (Refused NotADirectory)
      end
  end.

(** [others] is what other users do before each of the three steps. *)
Definition runtime_dir (dir : path) (others : nat -> Fs -> Fs) (fs : Fs) : result unit RuntimeError * Fs :=
  let fs := others 0%nat fs in
  match run_calls (create_all O700 (removelast dir)) fs with
  | None => (Err CannotCreate, after (create_all O700 (removelast dir)) fs)
  | Some fs =>
      let fs := others 1%nat fs in
      let fs := match fs !! dir with None => <[dir := created O700 KDir]> fs | Some _ => fs end in
      let fs := others 2%nat fs in
      (check_runtime_dir dir fs, fs)
  end.
End Private.

(** ** Unit files *)

(** [quote] of systemd's [ExecStart], and [escape] of a property list. *)
Definition plain_char (b : Z) : bool := is_ascii_alphanumeric b || (b =? 47) || (b =? 45) || (b =? 95) || (b =? 46) || (b =? 58).
Definition quote (argument : bytes) : bytes :=
  if forallb plain_char argument then argument
  else 34 :: concat (map (fun b => if b =? 92 then [92; 92] else if b =? 34 then [92; 34] else [b]) argument) ++ [34].
Fixpoint join_space (l : list bytes) : bytes :=
  match l with [] => [] | x :: l' => match l' with [] => x | _ => x ++ 32 :: join_space l' end end.
Definition exec_start (arguments : list bytes) : bytes := join_space (map quote arguments).

Definition escape (value : bytes) : bytes :=
  concat (map (fun b => if b =? 38 then as_bytes "&amp;" else if b =? 60 then as_bytes "&lt;" else if b =? 62 then as_bytes "&gt;" else [b]) value).

(** How the service managers read them back: a quoted word up to the next quote that is not escaped, words between spaces; a specifier
    or a variable, which systemd would replace, is not read. *)
Fixpoint read_quoted (l : bytes) : option (bytes * bytes) :=
  match l with
  | [] => None
  | b :: l' =>
      if b =? 34 then Some ([], l')
      else if (b =? 37) || (b =? 36) then None
      else if b =? 92 then
        match l' with
        | c :: l'' => if (c =? 92) || (c =? 34) then match read_quoted l'' with Some (w, rest) => Some (c :: w, rest) | None => None end else None
        | [] => None
        end
      else match read_quoted l' with Some (w, rest) => Some (b :: w, rest) | None => None end
  end.
Fixpoint read_plain (l : bytes) : bytes * bytes :=
  match l with b :: l' => if plain_char b then let '(w, rest) := read_plain l' in (b :: w, rest) else ([], l) | [] => ([], []) end.
Definition read_word (l : bytes) : option (bytes * bytes) :=
  match l with b :: l' => if b =? 34 then read_quoted l' else Some (read_plain l) | [] => None end.
Fixpoint read_words (fuel : nat) (l : bytes) : option (list bytes) :=
  match fuel with
  | O => None
  | S fuel =>
      match read_word l with
      | Some (w, []) => Some [w]
      | Some (w, b :: rest) => if b =? 32 then match read_words fuel rest with Some ws => Some (w :: ws) | None => None end else None
      | None => None
      end
  end.

Definition ENTITIES : list (bytes * Z) := [(as_bytes "amp;", 38); (as_bytes "lt;", 60); (as_bytes "gt;", 62)].
Fixpoint read_xml (fuel : nat) (l : bytes) : option bytes :=
  match fuel with
  | O => None
  | S fuel =>
      match l with
      | [] => Some []
      | b :: l' =>
          if b =? 60 then None
          else if b =? 38 then
            match omap (fun e : bytes * Z => match strip_prefix_l e.1 l' with Some rest => Some (e.2, rest) | None => None end) ENTITIES with
            | (c, rest) :: _ => match read_xml fuel rest with Some w => Some (c :: w) | None => None end
            | [] => None
            end
          else match read_xml fuel l' with Some w => Some (b :: w) | None => None end
      end
  end.

(** ** Properties of the unit files *)

Definition readable (argument : bytes) : Prop := argument <> [] /\ Forall (fun b => b <> 37 /\ b <> 36) argument.

Lemma read_quoted_escaped a rest :
  Forall (fun b => b <> 37 /\ b <> 36) a ->
  read_quoted (concat (map (fun b => if b =? 92 then [92; 92] else if b =? 34 then [92; 34] else [b]) a) ++ 34 :: rest) = Some (a, rest).
Proof.
  induction a as [|b a IH]; intros Ha; [done|]. apply Forall_cons in Ha as [[H1 H2] Ha]. cbn [map concat]. rewrite <- app_assoc.
  destruct (b =? 92) eqn:E; bsimp; [subst; cbn; by rewrite IH|]. destruct (b =? 34) eqn:E'; bsimp; [subst; cbn; by rewrite IH|].
  cbn. rewrite !(proj2 (Z.eqb_neq _ _)) by done. cbn. by rewrite IH.
Qed.

Lemma read_plain_word a rest : forallb plain_char a = true -> match rest with [] => True | b :: _ => b = 32 end -> read_plain (a ++ rest) = (a, rest).
Proof.
  intros Ha Hr. induction a as [|b a IH]; cbn in *.
  - destruct rest as [|b rest]; [done|]. by subst.
  - apply andb_true_iff in Ha as [-> Ha]. by rewrite IH.
Qed.

Lemma read_word_quote a rest : readable a -> match rest with [] => True | b :: _ => b = 32 end -> read_word (quote a ++ rest) = Some (a, rest).
Proof.
  intros [Hne Ha] Hr. unfold quote. destruct (forallb plain_char a) eqn:E.
  - destruct a as [|b a]; [done|]. cbn [app read_word]. destruct (b =? 34) eqn:Eb; bsimp; [subst; by cbn in E|].
    change (b :: a ++ rest) with ((b :: a) ++ rest). by rewrite read_plain_word.
  - cbn [app read_word]. rewrite <- app_assoc. by apply read_quoted_escaped.
Qed.

(** The service manager starts the CLI with the arguments it was given, whatever they are called: no argument ends early or runs into the
    next, unless it is empty or has a percent or dollar sign. *)
Theorem exec_start_read_back arguments :
  arguments <> [] -> Forall readable arguments -> read_words (length arguments) (exec_start arguments) = Some arguments.
Proof.
  unfold exec_start. induction arguments as [|a l IH]; intros Hne Hall; [done|]. apply Forall_cons in Hall as [Ha Hl]. destruct l as [|b l].
  - cbn. rewrite <- (app_nil_r (quote a)). by rewrite read_word_quote.
  - change (join_space (map quote (a :: b :: l))) with (quote a ++ 32 :: join_space (map quote (b :: l))).
    change (length (a :: b :: l)) with (S (length (b :: l))). cbn [read_words]. rewrite read_word_quote by done. cbn [Z.eqb Pos.eqb]. by rewrite IH.
Qed.

(** A percent sign in the path of the executable is left as it is, and read as a specifier. *)
Theorem percent_not_quoted : quote (as_bytes "/home/50%/opentunnel") = 34 :: as_bytes "/home/50%/opentunnel" ++ [34].
Proof. reflexivity. Qed.

Lemma read_xml_entity fuel l :
  read_xml (S fuel) (as_bytes "&amp;" ++ l) = (cons 38 <$> read_xml fuel l) /\ read_xml (S fuel) (as_bytes "&lt;" ++ l) = (cons 60 <$> read_xml fuel l) /\
  read_xml (S fuel) (as_bytes "&gt;" ++ l) = (cons 62 <$> read_xml fuel l).
Proof. split_and!; reflexivity. Qed.

Lemma read_xml_escape v : forall fuel, (length v < fuel)%nat -> read_xml fuel (escape v) = Some v.
Proof.
  induction v as [|b v IH]; intros [|fuel] Hf; cbn [length] in Hf; try lia; [done|]. specialize (IH fuel ltac:(lia)).
  destruct (read_xml_entity fuel (escape v)) as (Ea & El & Eg). rewrite IH in Ea, El, Eg.
  change (escape (b :: v)) with ((if b =? 38 then as_bytes "&amp;" else if b =? 60 then as_bytes "&lt;" else if b =? 62 then as_bytes "&gt;" else [b]) ++ escape v).
  destruct (b =? 38) eqn:E1; bsimp; [by subst|]. destruct (b =? 60) eqn:E2; bsimp; [by subst|]. destruct (b =? 62) eqn:E3; bsimp; [by subst|].
  cbn [app read_xml]. rewrite !(proj2 (Z.eqb_neq _ _)) by done. by rewrite IH.
Qed.

(** A value of a property list is read back, and cannot open an element. *)
Theorem escape_read_back v : read_xml (S (length v)) (escape v) = Some v /\ Forall (fun b => b <> 60) (escape v).
Proof.
  split; [apply read_xml_escape; lia|]. induction v as [|b v IH]; [constructor|]. unfold escape. cbn [map concat]. fold (escape v). apply Forall_app. split; [|done].
  destruct (b =? 38) eqn:E1; [by repeat constructor|]. destruct (b =? 60) eqn:E2; [by repeat constructor|]. destruct (b =? 62); [by repeat constructor|].
  bsimp. by repeat constructor.
Qed.

(** ** Properties of the paths *)

(** Profiles have different files, whatever the environment; and no two of one profile's files are the same. *)
Theorem profiles_apart env temp_dir user_id p q :
  p <> q ->
  config_path env temp_dir p <> config_path env temp_dir q /\ pa_socket (paths env temp_dir user_id p) <> pa_socket (paths env temp_dir user_id q) /\
  pa_lock (paths env temp_dir user_id p) <> pa_lock (paths env temp_dir user_id q) /\ pa_log (paths env temp_dir user_id p) <> pa_log (paths env temp_dir user_id q) /\
  pa_last_error (paths env temp_dir user_id p) <> pa_last_error (paths env temp_dir user_id q) /\ unit_path env p <> unit_path env q.
Proof.
  intros Hne. unfold config_path, paths, unit_path, unit_name. cbn.
  split_and!; intros E; apply Hne.
  - apply app_inj_2 in E as [_ [= E]]; [|done]. by apply string_app_inj_r in E.
  - apply app_inj_2 in E as [_ [= E]]; [|done]. by apply string_app_inj_r in E.
  - apply app_inj_2 in E as [_ [= E]]; [|done]. by apply string_app_inj_r in E.
  - apply app_inj_2 in E as [E _]; [|done]. by apply app_inj_2 in E as [_ [= E]].
  - apply app_inj_2 in E as [E _]; [|done]. by apply app_inj_2 in E as [_ [= E]].
  - apply app_inj_2 in E as [_ [= E]]; [|done]. change (p +:+ ".service" = q +:+ ".service") in E. by apply string_app_inj_r in E.
Qed.

(** A variable that is set and empty counts as not set for the CLI's own directories; for systemd's unit it does not: the unit is then
    written below the working directory. *)
Theorem empty_variable_unit env temp_dir profile :
  env "XDG_CONFIG_HOME" = Some [] -> config_dir env temp_dir = home env temp_dir ++ [".config"; "opentunnel"] /\ unit_path env profile = ["systemd"; "user"; unit_name profile].
Proof. intros E. unfold config_dir, xdg, set_var, unit_path. rewrite E. cbn. by rewrite <- app_assoc. Qed.

(** ** Properties of the files *)

Section Files.
Context (uid umask : Z).

Lemma created_private mode k : is_private mode = true -> is_private (no_mode (created uid umask mode k)) = true.
Proof.
  unfold is_private, created. cbn. intros H%Z.eqb_eq. apply Z.eqb_eq. rewrite <- Z.land_assoc, (Z.land_comm _ O077), Z.land_assoc, H. apply Z.land_0_l.
Qed.

(** Every state on the way satisfies what the calls preserve. *)
Lemma after_preserves (P : Fs -> Prop) l : forall fs, P fs -> Forall (fun f => forall fs fs', P fs -> f fs = Some fs' -> P fs') l -> P (after l fs).
Proof.
  induction l as [|f l IH]; intros fs HP Hl; [done|]. apply Forall_cons in Hl as [Hf Hl]. cbn. destruct (f fs) as [fs'|] eqn:E; [|done]. apply IH; [by eapply Hf|done].
Qed.

(** The calls of [write], those before the modes are set and those after. *)
Definition hidden (p : path) (old : option Node) (fs : Fs) : Prop :=
  fs !! p = old \/ (exists n, fs !! p = Some n /\ (no_kind n = KFile [] \/ is_private (no_mode n) = true)).

Lemma open_create_hidden p old fs fs' : fs !! p = old -> open_create uid umask true p fs = Some fs' -> hidden p old fs'.
Proof.
  unfold open_create. intros <-. destruct (fs !! p) as [[o m [c| |]]|] eqn:E; cbn; intros [= <-]; right; eexists; (split; [apply lookup_insert_eq|]); by left.
Qed.
Lemma chmod_private p fs fs' : chmod uid O600 p fs = Some fs' -> exists n, fs' !! p = Some n /\ no_mode n = O600.
Proof. unfold chmod. destruct (fs !! p) as [n|]; [|done]. destruct (no_owner n =? uid); [|done]. intros [= <-]. eexists. split; [apply lookup_insert_eq|done]. Qed.

(** Calls on one path leave the others alone. *)
Definition local (p : path) (f : Call) : Prop := forall fs fs' q, f fs = Some fs' -> q <> p -> fs' !! q = fs !! q.
Lemma write_local p pieces : Forall (local p) (write uid umask p pieces).
Proof.
  unfold write. apply Forall_cons; split; [|apply Forall_cons; split].
  - intros fs fs' q. unfold open_create. destruct (fs !! p) as [[o m [c| |]]|]; intros [= <-] Hq; by rewrite lookup_insert_ne.
  - intros fs fs' q. unfold chmod. destruct (fs !! p) as [n|]; [|done]. destruct (no_owner n =? uid); [|done]. intros [= <-] Hq. by rewrite lookup_insert_ne.
  - apply Forall_fmap, Forall_forall. intros piece _ fs fs' q. unfold append_piece. destruct (fs !! p) as [[o m [c| |]]|]; intros [= <-] Hq; by rewrite lookup_insert_ne.
Qed.
Lemma after_local p l : Forall (local p) l -> forall fs q, q <> p -> after l fs !! q = fs !! q.
Proof.
  induction 1 as [|f l Hf _ IH]; intros fs q Hq; [done|]. cbn. destruct (f fs) as [fs'|] eqn:E; [|done]. rewrite IH by done. by eapply Hf.
Qed.

Lemma append_pieces p pieces : forall fs fs' o m c,
  run_calls (map (append_piece p) pieces) fs = Some fs' -> fs !! p = Some (mkNode o m (KFile c)) -> fs' !! p = Some (mkNode o m (KFile (c ++ concat pieces))).
Proof.
  induction pieces as [|x pieces IH]; intros fs fs' o m c; cbn [map run_calls concat]; [intros [= <-] ->; by rewrite app_nil_r|].
  unfold append_piece at 1. intros Hr Hl. rewrite Hl in Hr. cbn in Hr. rewrite app_assoc. eapply IH; [exact Hr|]. by rewrite lookup_insert_eq.
Qed.

(** Wherever a write stops, what it wrote is only in a file that nobody else may read: until the mode is set the file is as it was or empty.
    A write that succeeds leaves the content, and touches nothing else. *)
Theorem private_write p pieces n fs :
  (let fs' := after (take n (write uid umask p pieces)) fs in
   (forall q, q <> p -> fs' !! q = fs !! q) /\
   (fs' !! p = fs !! p \/ exists node, fs' !! p = Some node /\ (no_kind node = KFile [] \/ is_private (no_mode node) = true))) /\
  (forall fs', run_calls (write uid umask p pieces) fs = Some fs' -> exists o, fs' !! p = Some (mkNode o O600 (KFile (concat pieces)))).
Proof.
  split; [split|].
  - intros q Hq. apply (after_local p); [|done]. apply Forall_take, write_local.
  - destruct n as [|[|n]]; cbn [take write after].
    + by left.
    + destruct (open_create uid umask true p fs) as [fs1|] eqn:E; [|by left]. by apply (open_create_hidden p (fs !! p) fs fs1).
    + destruct (open_create uid umask true p fs) as [fs1|] eqn:E; [|by left]. destruct (chmod uid O600 p fs1) as [fs2|] eqn:E2; [|by apply (open_create_hidden p (fs !! p) fs fs1)].
      right. destruct (chmod_private _ _ _ E2) as (node & Hn & Hm).
      assert (exists node, after (take n (map (append_piece p) pieces)) fs2 !! p = Some node /\ is_private (no_mode node) = true) as (node' & ? & ?).
      { apply (after_preserves (fun fs => exists node, fs !! p = Some node /\ is_private (no_mode node) = true)); [exists node; split; [done|by rewrite Hm]|]. apply Forall_take, Forall_fmap, Forall_forall. intros piece _ fs3 fs3' (m & Hl & Hp).
        unfold append_piece. rewrite Hl. destruct m as [o md [c| |]]; intros [= <-]. eexists. split; [apply lookup_insert_eq|done]. }
      exists node'. split; [done|by right].
  - intros fs'. cbn [write run_calls]. destruct (open_create uid umask true p fs) as [fs1|] eqn:E; [|done].
    assert (exists o m, fs1 !! p = Some (mkNode o m (KFile []))) as (o & m & H1).
    { unfold open_create in E. destruct (fs !! p) as [[o m [c| |]]|]; try discriminate E; injection E as <-; eexists _, _; apply lookup_insert_eq. }
    unfold chmod. rewrite H1. cbn. destruct (o =? uid); [|done]. intros Hr. exists o. change (concat pieces) with ([] ++ concat pieces).
    apply (append_pieces _ _ _ _ _ _ _ Hr). by rewrite lookup_insert_eq.
Qed.

(** *** Directories *)

(** What creating a directory may do: nodes that were there stay, new ones are private directories of the user. *)
Definition only_dirs (fs fs' : Fs) : Prop :=
  forall q, match fs !! q with
            | Some n => fs' !! q = Some n
            | None => fs' !! q = None \/ exists m, fs' !! q = Some (mkNode uid m KDir) /\ is_private m = true
            end.
Lemma only_dirs_refl fs : only_dirs fs fs.
Proof. intros q. destruct (fs !! q); [done|by left]. Qed.
Lemma ensure_dir_only p fs0 fs fs' : only_dirs fs0 fs -> ensure_dir uid umask O700 p fs = Some fs' -> only_dirs fs0 fs'.
Proof.
  unfold ensure_dir. intros H0. destruct (fs !! p) as [[o m []]|] eqn:E; intros [= <-]; try done. intros q. specialize (H0 q). destruct (decide (q = p)) as [->|Hq].
  - rewrite E in H0. destruct (fs0 !! p); [done|]. right. rewrite lookup_insert_eq. eexists. split; [done|]. by apply (created_private O700 KDir).
  - by rewrite lookup_insert_ne.
Qed.
Lemma create_all_only p fs : only_dirs fs (after (create_all uid umask O700 p) fs).
Proof.
  apply (after_preserves (only_dirs fs)); [apply only_dirs_refl|]. apply Forall_fmap, Forall_forall. intros n _ fs1 fs2 H1 H2. by eapply ensure_dir_only.
Qed.
Lemma run_after l : forall fs fs', run_calls l fs = Some fs' -> after l fs = fs'.
Proof. induction l as [|f l IH]; intros fs fs'; cbn; [by intros [= ->]|]. destruct (f fs); [apply IH|done]. Qed.
Lemma run_calls_app l1 l2 : forall fs, run_calls (l1 ++ l2) fs = match run_calls l1 fs with Some fs' => run_calls l2 fs' | None => None end.
Proof. induction l1 as [|f l1 IH]; intros fs; [done|]. cbn. destruct (f fs); [apply IH|done]. Qed.

Lemma create_all_there p fs fs' : p <> [] -> run_calls (create_all uid umask O700 p) fs = Some fs' -> exists n, fs' !! p = Some n /\ no_kind n = KDir.
Proof.
  intros Hne. unfold create_all. destruct (length p) as [|k] eqn:El; [by destruct p|]. rewrite seq_S, map_app, run_calls_app. destruct (run_calls _ fs) as [fs1|]; [|done].
  cbn [map run_calls]. rewrite firstn_all2 by lia. unfold ensure_dir. destruct (fs1 !! p) as [[o m []]|] eqn:E; cbn; try done; intros [= <-]; [by eexists|].
  eexists. split; [apply lookup_insert_eq|done].
Qed.

(** A directory that was created is the user's alone from the start, also those on the way to it; one that existed is closed to others, and
    what else there is stays as it was. *)
Theorem create_dir_private dir fs fs' :
  dir <> [] -> run_calls (create_dir uid umask dir) fs = Some fs' ->
  (exists n, fs' !! dir = Some n /\ no_kind n = KDir /\ is_private (no_mode n) = true) /\ forall q, q <> dir -> match fs !! q with
            | Some n => fs' !! q = Some n
            | None => fs' !! q = None \/ exists m, fs' !! q = Some (mkNode uid m KDir) /\ is_private m = true
            end.
Proof.
  intros Hne. unfold create_dir. rewrite run_calls_app. destruct (run_calls (create_all uid umask O700 dir) fs) as [fs1|] eqn:E; [|done]. cbn [run_calls].
  destruct (create_all_there _ _ _ Hne E) as (n & Hn & Hk). pose proof (create_all_only dir fs) as Ho. rewrite (run_after _ _ _ E) in Ho.
  unfold restrict. rewrite Hn. destruct (is_private (no_mode n)) eqn:Ep; cbn.
  - intros [= <-]. split; [by eexists|]. intros q _. apply Ho.
  - unfold chmod. rewrite Hn. destruct (no_owner n =? uid); [|done]. intros [= <-]. split; [eexists; split; [apply lookup_insert_eq|done]|].
    intros q Hq. rewrite lookup_insert_ne by done. apply Ho.
Qed.

Lemma after_app l1 l2 : forall fs, after (l1 ++ l2) fs = match run_calls l1 fs with Some fs' => after l2 fs' | None => after l1 fs end.
Proof. induction l1 as [|f l1 IH]; intros fs; [done|]. cbn. destruct (f fs); [apply IH|done]. Qed.

Lemma create_dir_other dir p n fs : (length dir < length p)%nat -> after (take n (create_dir uid umask dir)) fs !! p = fs !! p.
Proof.
  intros Hl. apply (after_preserves (fun fs1 => fs1 !! p = fs !! p)); [done|]. apply Forall_take, Forall_app. split.
  - apply Forall_fmap, Forall_forall. intros k _ fs1 fs2 H1. unfold ensure_dir. destruct (fs1 !! take k dir) as [[o m []]|]; intros [= <-]; try done.
    rewrite lookup_insert_ne; [done|]. intros <-. rewrite length_take in Hl. lia.
  - apply Forall_singleton. intros fs1 fs2 H1. unfold restrict, chmod. destruct (fs1 !! dir) as [n0|]; [|by intros [= <-]]. destruct (negb _); [|by intros [= <-]].
    destruct (no_owner n0 =? uid); [|done]. intros [= <-]. rewrite lookup_insert_ne; [done|]. intros <-. lia.
Qed.

(** Saving the configuration or an error: wherever it stops, what it wrote is only in a file that nobody else may read. *)
Theorem saved_privately dir name pieces n fs :
  hidden (dir ++ [name]) (fs !! (dir ++ [name])) (after (take n (save uid umask dir name pieces)) fs).
Proof.
  assert (length dir < length (dir ++ [name]))%nat as Hl by (rewrite length_app; cbn; lia). set (p := dir ++ [name]) in *. unfold save. fold p. rewrite take_app, after_app.
  destruct (run_calls (take n (create_dir uid umask dir)) fs) as [fs1|] eqn:E; [|left; by apply create_dir_other].
  pose proof (create_dir_other dir p n fs Hl) as Ho. rewrite (run_after _ _ _ E) in Ho.
  destruct (private_write p pieces (n - length (create_dir uid umask dir)) fs1) as [[_ H] _]. rewrite Ho in H. exact H.
Qed.

(** *** [tighten] *)

(** The same node, or closed to others. *)
Definition closer (a b : option Node) : Prop :=
  match a, b with
  | Some n, Some n' => no_owner n' = no_owner n /\ no_kind n' = no_kind n /\ (n' = n \/ is_private (no_mode n') = true)
  | None, None => True
  | _, _ => False
  end.
Lemma closer_refl n : closer n n.
Proof. destruct n; cbn; [|done]. split_and!; try done. by left. Qed.
Lemma closer_trans a b c : closer a b -> closer b c -> closer a c.
Proof.
  destruct a as [n|], b as [n'|], c as [n''|]; cbn; try done. intros (E1 & E2 & E3) (E4 & E5 & E6). split_and!; [congruence..|].
  destruct E6 as [->|]; [done|by right].
Qed.
Lemma restrict_closer p mode fs q : is_private mode = true -> closer (fs !! q) (default fs (restrict uid p mode fs) !! q).
Proof.
  intros Hm. unfold restrict, chmod. destruct (fs !! p) as [n|] eqn:E; [|apply closer_refl]. destruct (is_private (no_mode n)); cbn; [apply closer_refl|].
  rewrite ?E. destruct (no_owner n =? uid); cbn; [|apply closer_refl]. destruct (decide (q = p)) as [->|Hq]; [|rewrite lookup_insert_ne by done; apply closer_refl].
  rewrite E, lookup_insert_eq. cbn. split_and!; [done|done|by right].
Qed.
Lemma tighten_list_closer mode l : is_private mode = true -> forall fs q,
  closer (fs !! q) (fold_left (fun fs p => default fs (restrict uid p mode fs)) l fs !! q) /\
  (q ∈ l -> forall n, fold_left (fun fs p => default fs (restrict uid p mode fs)) l fs !! q = Some n -> no_owner n = uid -> is_private (no_mode n) = true).
Proof.
  intros Hm. induction l as [|p l IH]; intros fs q; [split; [apply closer_refl|by intros ?%elem_of_nil]|].
  cbn [fold_left]. destruct (IH (default fs (restrict uid p mode fs)) q) as [Hc Hl]. pose proof (restrict_closer p mode fs q Hm) as Hr. split; [by eapply closer_trans|].
  intros [->|Hq]%elem_of_cons n Hn Ho; [|by eapply Hl]. rewrite Hn in Hc. destruct (default fs (restrict uid p mode fs) !! p) as [n1|] eqn:E1; [|done].
  destruct Hc as (Eo & _ & [->|?]); [|done]. unfold restrict, chmod in E1. destruct (fs !! p) as [n0|] eqn:E0; cbn in E1; [|congruence].
  destruct (is_private (no_mode n0)) eqn:Ep; cbn in E1; [congruence|]. rewrite ?E0 in E1. destruct (no_owner n0 =? uid) eqn:Eu; cbn in E1.
  - rewrite lookup_insert_eq in E1. by simplify_eq.
  - bsimp. congruence.
Qed.

(** After [tighten] none of the profile's own files and directories is open to others, no content changed and nothing was opened up. *)
Theorem tighten_private directories files fs q :
  closer (fs !! q) (tighten uid directories files fs !! q) /\
  (q ∈ directories ++ files -> forall n, tighten uid directories files fs !! q = Some n -> no_owner n = uid -> is_private (no_mode n) = true).
Proof.
  unfold tighten. destruct (tighten_list_closer O700 directories eq_refl fs q) as [H1 H2].
  destruct (tighten_list_closer O600 files eq_refl (fold_left (fun fs p => default fs (restrict uid p O700 fs)) directories fs) q) as [H3 H4].
  split; [by eapply closer_trans|]. intros [Hq|Hq]%elem_of_app n Hn Ho; [|by eapply H4]. rewrite Hn in H3.
  destruct (fold_left _ directories fs !! q) as [n1|] eqn:E1; [|done]. destruct H3 as (Eo & _ & [->|?]); [|done]. by eapply H2.
Qed.

(** The directory of the control socket is a directory of the user that nobody else may enter, whatever other users did before each step;
    otherwise it is refused. *)
Theorem runtime_dir_ours dir others fs fs' :
  runtime_dir uid umask dir others fs = (Ok tt, fs') -> exists m, fs' !! dir = Some (mkNode uid m KDir) /\ is_private m = true.
Proof.
  unfold runtime_dir. destruct (run_calls _ _) as [fs1|]; [|done]. intros [= Hc E]. rewrite E in Hc. unfold check_runtime_dir in Hc.
  destruct (fs' !! dir) as [[o m []]|]; cbn in Hc; try done. destruct (o =? uid) eqn:Eo; cbn in Hc; [|done].
  destruct (is_private m) eqn:Ep; [|done]. bsimp. subst. by eexists.
Qed.
End Files.
