(* ===== verification/HttpProxy.v ===== *)
(** * HttpProxy: the bridge's connection through an HTTP proxy, [http_proxy.rs] of the client

    Which proxy serves a destination is the matcher's answer, a parameter. Connecting, TLS and writing are outcomes; what a proxy
    sends is a stream of bytes, read one at a time until the end of the response's head. *)

From Stdlib Require Import ZArith Lia Ascii String List.
From stdpp Require Import base list strings.
From S2P Require Import Prelude Text.

Definition MAX_RESPONSE_HEAD : nat := 16 * 1024.

(** ** Destinations *)

Definition authority (host : string) (port : Z) : string :=
  if str_contains host ":" then "[" +:+ host +:+ "]:" +:+ dec_string port else host +:+ ":" +:+ dec_string port.

(** The parts of a [Uri] the code looks at, and a proxy the matcher names. *)
Record Uri := mkUri { ur_scheme : option string; ur_host : option string; ur_port : option Z }.
Record Intercept := mkIntercept { ic_uri : Uri; ic_basic_auth : option string }.

(** [trim_start_matches] and [trim_end_matches] of one character. *)
Fixpoint trim_start_l (b : Z) (l : bytes) : bytes :=
  match l with [] => [] | x :: l' => if x =? b then trim_start_l b l' else l end.
Definition unbracketed (host : string) : string := of_bytes (rev (trim_start_l 93 (rev (trim_start_l 91 (as_bytes host))))).

(** ** The response *)

Definition CRLF : string := String (ascii_of_nat 13) (String (ascii_of_nat 10) "").
Definition HEAD_END : bytes := [13; 10; 13; 10].
Definition ends_with (l suffix : bytes) : bool := match strip_suffix_l suffix l with Some _ => true | None => false end.

Inductive ReadFailure := HeadTooLong | UnexpectedEof | InvalidResponse.

(** [split_whitespace] *)
Fixpoint split_words (fuel : nat) (l word : bytes) : list bytes :=
  match fuel with
  | O => []
  | S fuel' =>
      match l with
      | [] => match word with [] => [] | _ => [word] end
      | b :: l' =>
          match strip_any WHITESPACE l with
          | Some l'' => match word with [] => split_words fuel' l'' [] | _ => word :: split_words fuel' l'' [] end
          | None => split_words fuel' l' (word ++ [b])
          end
      end
  end.
Definition split_whitespace (s : string) : list bytes := split_words (S (str_len s)) (as_bytes s) [].

(** The loop: the head so far, and the bytes that are left to read. *)
Fixpoint read_head (fuel : nat) (head stream : bytes) : result (bytes * bytes) ReadFailure :=
  if ends_with head HEAD_END then Ok (head, stream)
  else if (MAX_RESPONSE_HEAD <=? length head)%nat then Err HeadTooLong
  else
    match fuel, stream with
    | S fuel', b :: stream' => read_head fuel' (head ++ [b]) stream'
    | _, _ => Err UnexpectedEof
    end.

Definition status_of (head : bytes) : result Z ReadFailure :=
  let line := match split_l 10 head with line :: _ => line | [] => [] end in
  let status :=
    let* word := split_whitespace (from_utf8_lossy line) !! 1%nat in
    let* status := parse_uint U16_MAX word in
    match strip_prefix_l (as_bytes "HTTP/1.") line with Some _ => Some status | None => None end in
  ok_or status InvalidResponse.

(** [read_status]: the status and what is left of the stream. Every turn takes a byte. *)
Definition read_status (stream : bytes) : result (Z * bytes) ReadFailure :=
  let? (head, rest) := read_head (length stream) [] stream in
  let? status := status_of head in
  Ok (status, rest).

(** ** Connecting *)

Inductive ProxyError :=
| PeNoHost
| PeScheme (scheme : string)
| PeProxyHost
| PeInvalidName (host : string)
| PeConnect (address : string)
| PeRead (address : string) (e : ReadFailure)
| PeAuthentication (address : string)
| PeRefused (address target : string) (status : Z).

(** A connection made: where the TCP connection goes, whether TLS with the proxy is on it, what was written, what is left to read. *)
Record Opened := mkOpened { op_address : string * Z; op_tls : option string; op_written : string; op_stream : bytes }.

Section Proxy.
(** The matcher's answer for a URL that parses; whether a TCP connection, a server name and TLS with a proxy work; and what the
    other end of a connection sends. *)
Context (parses : string -> bool) (matcher : string -> option Intercept).
Context (connects : string * Z -> bool) (server_name : string -> bool) (tls_connects : string -> bool) (sends : string * Z -> string -> bytes).

Definition intercept (host : string) (port : Z) (secure : bool) : option Intercept :=
  let url := (if secure then "https" else "http") +:+ "://" +:+ authority host port +:+ "/" in
  if parses url then matcher url else None.

Definition connect_request (target : string) (credentials : option string) : string :=
  "CONNECT " +:+ target +:+ " HTTP/1.1" +:+ CRLF +:+ "Host: " +:+ target +:+ CRLF +:+
  match credentials with Some value => "Proxy-Authorization: " +:+ value +:+ CRLF | None => "" end +:+ CRLF.

Definition tunnel (proxy : Intercept) (host : string) (port : Z) : result Opened ProxyError :=
  let uri := ic_uri proxy in
  let? secure :=
    match ur_scheme uri with
    | Some "http" => Ok false
    | Some "https" => Ok true
    | scheme => Err (PeScheme (default "" scheme))
    end in
  let? proxy_host := ok_or (unbracketed <$> ur_host uri) PeProxyHost in
  let proxy_port := default (if secure then 443 else 80) (ur_port uri) in
  let address := authority proxy_host proxy_port in
  if negb (connects (proxy_host, proxy_port)) then Err (PeConnect address)
  else if secure && negb (server_name proxy_host) then Err (PeInvalidName proxy_host)
  else if secure && negb (tls_connects proxy_host) then Err (PeConnect address)
  else
    let target := authority host port in
    let request := connect_request target (ic_basic_auth proxy) in
    match read_status (sends (proxy_host, proxy_port) request) with
    | Err e => Err (PeRead address e)
    | Ok (status, rest) =>
        if (200 <=? status) && (status <=? 299) then
          Ok (mkOpened (proxy_host, proxy_port) (if secure then Some proxy_host else None) request rest)
        else if status =? 407 then Err (PeAuthentication address)
        else Err (PeRefused address target status)
    end.

Definition open (uri : Uri) : result Opened ProxyError :=
  let secure := bool_decide (ur_scheme uri = Some "wss") in
  let? host := ok_or (unbracketed <$> ur_host uri) PeNoHost in
  let port := default (if secure then 443 else 80) (ur_port uri) in
  match intercept host port secure with
  | None => if connects (host, port) then Ok (mkOpened (host, port) None "" (sends (host, port) "")) else Err (PeConnect (authority host port))
  | Some proxy => tunnel proxy host port
  end.
End Proxy.

(** ** What is read *)

(** The head ends where the first empty line does, and nothing after it is read. *)
Definition first_head (head : bytes) : Prop :=
  ends_with head HEAD_END = true /\ forall a b, head = a ++ b -> b <> [] -> ends_with a HEAD_END = false.

Lemma read_head_spec fuel : forall head stream, (length stream <= fuel)%nat ->
  (forall a b, head = a ++ b -> b <> [] -> ends_with a HEAD_END = false) -> (length head <= MAX_RESPONSE_HEAD)%nat ->
  match read_head fuel head stream with
  | Ok (head', rest) => head ++ stream = head' ++ rest /\ first_head head' /\ (length head' <= MAX_RESPONSE_HEAD)%nat
  | Err HeadTooLong => (MAX_RESPONSE_HEAD <= length (head ++ stream))%nat /\ forall a b, take MAX_RESPONSE_HEAD (head ++ stream) = a ++ b -> ends_with a HEAD_END = false
  | Err UnexpectedEof => (length (head ++ stream) < MAX_RESPONSE_HEAD)%nat /\ forall a b, head ++ stream = a ++ b -> ends_with a HEAD_END = false
  | Err InvalidResponse => False
  end.
Proof.
  assert (forall head, (forall a b, head = a ++ b -> b <> [] -> ends_with a HEAD_END = false) -> ends_with head HEAD_END = false ->
    forall a b, head = a ++ b -> ends_with a HEAD_END = false) as Hall.
  { intros head Hb He a b E. destruct b as [|x b]; [rewrite app_nil_r in E; by subst|by eapply Hb]. }
  induction fuel as [|fuel IH]; intros head stream Hf Hb Hl; cbn [read_head]; destruct (ends_with head HEAD_END) eqn:Ee; try done.
  - destruct stream; [|simpl in Hf; lia]. destruct (_ <=? _)%nat eqn:El; bsimp; rewrite app_nil_r; [rewrite take_ge by lia|]; (split; [lia|]); by apply Hall.
  - destruct (_ <=? _)%nat eqn:El; bsimp.
    + split; [rewrite length_app; lia|]. intros a b. rewrite take_app_le, take_ge by lia. by apply Hall.
    + destruct stream as [|x stream]; [rewrite app_nil_r; split; [lia|by apply Hall]|].
      specialize (IH (head ++ [x]) stream). rewrite <- app_assoc in IH. apply IH; [simpl in Hf; lia| |rewrite length_app; simpl; lia].
      intros a b E Hne. destruct (exists_last Hne) as (b' & y & ->). rewrite app_assoc in E. apply app_inj_tail in E as [E _]. by eapply Hall.
Qed.

(** What is left after the head is untouched, for the WebSocket to read; the head is the bytes up to the first empty line, at most
    16 KiB; a stream without one fails, also one that never ends. *)
Theorem read_status_exact stream :
  match read_status stream with
  | Ok (status, rest) => 0 <= status <= U16_MAX /\
      exists head, stream = head ++ rest /\ first_head head /\ (length head <= MAX_RESPONSE_HEAD)%nat /\ status_of head = Ok status
  | Err HeadTooLong => (MAX_RESPONSE_HEAD <= length stream)%nat /\ forall a b, take MAX_RESPONSE_HEAD stream = a ++ b -> ends_with a HEAD_END = false
  | Err UnexpectedEof => (length stream < MAX_RESPONSE_HEAD)%nat /\ forall a b, stream = a ++ b -> ends_with a HEAD_END = false
  | Err InvalidResponse => exists head rest, stream = head ++ rest /\ first_head head /\ status_of head = Err InvalidResponse
  end.
Proof.
  unfold read_status. pose proof (read_head_spec (length stream) [] stream (le_n _)) as H. simpl in H.
  specialize (H (fun a b E Hne => ltac:(symmetry in E; apply app_eq_nil in E as [_ ->]; done)) ltac:(lia)).
  destruct (read_head (length stream) [] stream) as [[head rest]|e]; simpl; [|by destruct e].
  destruct H as (E & Hh & Hl). destruct (status_of head) as [status|e] eqn:Es; simpl.
  - split; [|by exists head]. unfold status_of in Es.
    destruct (split_whitespace _ !! 1%nat) as [word|]; simpl in Es; [|done]. destruct (parse_uint U16_MAX word) as [n|] eqn:Ep; simpl in Es; [|done].
    case_split; [|done]. injection Es as <-. split; [by eapply parse_uint_nonneg|by eapply parse_uint_range].
  - assert (e = InvalidResponse) as -> by (unfold status_of in Es; match type of Es with ok_or ?o _ = _ => destruct o end; [done|by injection Es]).
    by exists head, rest.
Qed.

Section Opening.
Context (parses : string -> bool) (matcher : string -> option Intercept).
Context (connects : string * Z -> bool) (server_name : string -> bool) (tls_connects : string -> bool) (sends : string * Z -> string -> bytes).

(** A connection through a proxy was asked for by name, was granted with a 2xx, and its stream begins right after the head of
    the proxy's answer; without a proxy nothing was written and the stream is the server's. *)
Theorem open_stream uri o :
  open parses matcher connects server_name tls_connects sends uri = Ok o ->
  exists host, unbracketed <$> ur_host uri = Some host /\
  let secure := bool_decide (ur_scheme uri = Some "wss") in
  let port := default (if secure then 443 else 80) (ur_port uri) in
  match intercept parses matcher host port secure with
  | None => o = mkOpened (host, port) None "" (sends (host, port) "")
  | Some proxy =>
      op_written o = connect_request (authority host port) (ic_basic_auth proxy) /\
      (is_Some (op_tls o) <-> ur_scheme (ic_uri proxy) = Some "https") /\
      exists head status, sends (op_address o) (op_written o) = head ++ op_stream o /\ first_head head /\ status_of head = Ok status /\ 200 <= status <= 299
  end.
Proof.
  unfold open. destruct (unbracketed <$> ur_host uri) as [host|]; simpl; [|done]. intros E. exists host. split; [done|].
  destruct (intercept parses matcher host _ _) as [proxy|]; [|destruct (connects _); [by injection E as <-|done]]. unfold tunnel in E.
  assert (exists secure, (match ur_scheme (ic_uri proxy) with Some "http" => Ok false | Some "https" => Ok true
      | scheme => Err (PeScheme (default "" scheme)) end) = Ok secure /\ (secure = true <-> ur_scheme (ic_uri proxy) = Some "https")) as (secure & Es & Hs).
  { destruct (match ur_scheme (ic_uri proxy) with Some "http" => Ok false | Some "https" => Ok true
      | scheme => Err (PeScheme (default "" scheme)) end) as [secure|] eqn:Es; [|done]. exists secure. split; [done|].
    repeat case_match; simplify_eq; split; congruence. }
  rewrite Es in E. simpl in E. destruct (unbracketed <$> ur_host (ic_uri proxy)) as [proxy_host|]; simpl in E; [|done].
  destruct (negb _); [done|]. destruct (secure && _); [done|]. destruct (secure && _); [done|].
  match goal with H : context [read_status ?st] |- _ => pose proof (read_status_exact st) as Hr; destruct (read_status st) as [[status rest]|] end; [|done].
  destruct (_ && _) eqn:Ers; [|by destruct (status =? 407)]. bsimp. injection E as <-. simpl. destruct Hr as (_ & head & E & Hh & _ & Hst).
  split_and!; [done| |by exists head, status]. rewrite <- Hs. destruct secure; [done|]. split; [by intros []|done].
Qed.
End Opening.

(** A proxy that says yes, and bytes of the server that come with its answer. *)
Example read_status_example :
  read_status (as_bytes ("HTTP/1.1 200 Connection established" +:+ CRLF +:+ CRLF +:+ "rest")) = Ok (200, as_bytes "rest") /\
  read_status (as_bytes ("HTTP/2 200" +:+ CRLF +:+ CRLF)) = Err InvalidResponse /\
  read_status (as_bytes ("HTTP/1.1 200" +:+ CRLF)) = Err UnexpectedEof.
Proof. vm_compute. auto. Qed.
