(* ===== verification/MeshLinks.v ===== *)
(** * MeshLinks: the links of the mesh and the machines it dials, the rest of [mesh.rs]

    [Links]: the frames on the wire, and a link from its handshake to its end: the hello, the check of the address, the table
    ([Mesh.v]), the queue and the notices. [Members]: the addresses found in DNS, and a dialer for each. Links, dialers and
    lookups run at once; their steps come in any order. *)

From Stdlib Require Import ZArith Lia Ascii String List.
From stdpp Require Import base list strings gmap sets.
From S2P Require Import Prelude Text Addr Record Store Limits Mesh.

(** ** Frames on the wire *)

Definition VERSION : Z := 1.
Definition MAX_FRAME : Z := Z.shiftl 16 20.
Definition MAX_HELLO : Z := Z.shiftl 4 10.
Definition SNAPSHOT_CHUNK : Z := Z.shiftl 4 20.

(** serde_json's text of a frame, read back. *)
Class FrameJson := {
  frame_json : Frame -> bytes;
  frame_of_json : bytes -> option Frame;
  frame_json_bytes : forall f, bytes_ok (frame_json f);
  frame_read : forall f, frame_of_json (frame_json f) = Some f;
}.

Inductive FrameError := FrameTooLong (length : Z) | FrameBroken.

Section Wire.
Context `{FrameJson}.

(** The length is a [u32]. *)
Definition encode (frame : Frame) : bytes :=
  let json := frame_json frame in be_bytes 4 (Z.of_nat (length json) mod 2 ^ 32) ++ json.

(** [read_frame], on what has arrived: [None] while bytes are missing. *)
Definition read_frame (max : Z) (stream : bytes) : option (result (Frame * bytes) FrameError) :=
  if (length stream <? 4)%nat then None
  else
    let len := be_value (take 4 stream) in
    if max <? len then Some (Err (FrameTooLong len))
    else
      let rest := drop 4 stream in
      if Z.of_nat (length rest) <? len then None
      else
        match frame_of_json (take (Z.to_nat len) rest) with
        | Some frame => Some (Ok (frame, drop (Z.to_nat len) rest))
        | None => Some (Err FrameBroken)
        end.

(** The frames of a stream, until one is missing bytes. *)
Fixpoint read_frames (fuel : nat) (max : Z) (stream : bytes) : list Frame * bytes * option FrameError :=
  match fuel with
  | O => ([], stream, None)
  | S fuel' =>
      match read_frame max stream with
      | None => ([], stream, None)
      | Some (Err e) => ([], stream, Some e)
      | Some (Ok (frame, rest)) => let '(frames, rest, e) := read_frames fuel' max rest in (frame :: frames, rest, e)
      end
  end.

Definition fits (max : Z) (f : Frame) : Prop := Z.of_nat (length (frame_json f)) <= max.

Lemma read_frame_encode max f rest : max < 2 ^ 32 -> fits max f -> read_frame max (encode f ++ rest) = Some (Ok (f, rest)).
Proof.
  intros Hm Hf. unfold fits in Hf. unfold read_frame, encode. rewrite Z.mod_small by lia. set (json := frame_json f) in *.
  set (n := Z.of_nat (length json)). assert (length (be_bytes 4 n) = 4%nat) as Hl by apply length_be_bytes.
  rewrite <- app_assoc. rewrite (proj2 (Nat.ltb_ge _ _)) by (rewrite length_app; lia).
  rewrite take_app_le, take_ge by lia. rewrite drop_app_ge by lia. rewrite Hl. cbn [Nat.sub].
  rewrite be_value_bytes_id by (change (256 ^ Z.of_nat 4) with (2 ^ 32); subst n; lia).
  rewrite (proj2 (Z.ltb_ge _ _)) by (subst n; lia). change (drop 0 (json ++ rest)) with (json ++ rest).
  rewrite (proj2 (Z.ltb_ge _ _)) by (rewrite length_app; subst n; lia). subst n. rewrite Nat2Z.id, take_app_length, drop_app_length.
  subst json. by rewrite frame_read.
Qed.

(** Frames that fit are read as they were written, however the bytes arrive. *)
Theorem frames_read_back max frames rest fuel : max < 2 ^ 32 -> Forall (fits max) frames -> (length frames < fuel)%nat ->
  read_frame max rest = None -> read_frames fuel max (concat (map encode frames) ++ rest) = (frames, rest, None).
Proof.
  intros Hm Hf. revert fuel. induction Hf as [|f frames Hx _ IH]; intros [|fuel] Hl Hr; cbn [map concat app read_frames length] in *; try lia; [by rewrite Hr|].
  rewrite <- app_assoc, read_frame_encode by done. by rewrite IH by (lia || done).
Qed.
End Wire.

(** ** Links *)

Record MeshConfig := mkMeshConfig { mc_machine_dns : option string; mc_verify_address : bool; mc_snapshot_chunk : Z }.

(** A link: whether this side dialed, the machine that proved itself and where its connection comes from; then what it has come
    to. *)
Inductive LinkPhase := Greeting | Running | Over (ok : bool).
Record Link := mkLink { li_dialed : bool; li_machine : string; li_remote : IpAddr; li_phase : LinkPhase; li_written : list Frame }.

Record MeshState := mkMeshState {
  ms_local : Local;
  ms_remote : Remote;
  ms_links : gmap Z Link;
  ms_next_link : Z;
  ms_cancelled : gset Z;
  ms_notices : list Notice;
  ms_draining : bool;
}.

Section Links.
Context `{HashOrder} (json_length : Entry -> Z) (config : MeshConfig).
(** This machine, its address and its life, and the answers of DNS for a name: [None] when it cannot be resolved in time. *)
Context (machine_id region address : string) (epoch started_at : Z) (lookup : string -> option (list IpAddr)) (partitioned : gset string).

Definition hello (s : MeshState) : Hello := mkHello VERSION machine_id region address epoch started_at (ms_draining s).

Definition set_remote (r : Remote) (s : MeshState) : MeshState :=
  mkMeshState (ms_local s) r (ms_links s) (ms_next_link s) (ms_cancelled s) (ms_notices s) (ms_draining s).
Definition set_local (l : Local) (s : MeshState) : MeshState :=
  mkMeshState l (ms_remote s) (ms_links s) (ms_next_link s) (ms_cancelled s) (ms_notices s) (ms_draining s).
Definition set_link (link : Z) (li : Link) (s : MeshState) : MeshState :=
  mkMeshState (ms_local s) (ms_remote s) (<[link := li]> (ms_links s)) (ms_next_link s) (ms_cancelled s) (ms_notices s) (ms_draining s).
Definition cancel (link : Z) (s : MeshState) : MeshState :=
  mkMeshState (ms_local s) (ms_remote s) (ms_links s) (ms_next_link s) ({[ link ]} ∪ ms_cancelled s) (ms_notices s) (ms_draining s).
Definition notify (n : list Notice) (s : MeshState) : MeshState :=
  mkMeshState (ms_local s) (ms_remote s) (ms_links s) (ms_next_link s) (ms_cancelled s) (ms_notices s ++ n) (ms_draining s).
Definition set_phase (ph : LinkPhase) (li : Link) : Link := mkLink (li_dialed li) (li_machine li) (li_remote li) ph (li_written li).

(** [template.replace("{}", id)] *)
Fixpoint replace_braces (l id : bytes) : bytes :=
  match l with
  | 123 :: 125 :: l' => id ++ replace_braces l' id
  | b :: l' => b :: replace_braces l' id
  | [] => []
  end.

Definition check_address (h : Hello) (remote : IpAddr) : bool :=
  match parse_socket (he_address h) with
  | None => false
  | Some a =>
      if mc_verify_address config && negb (bool_decide (canonical (ip a) = canonical remote)) then false
      else
        match mc_machine_dns config with
        | None => true
        | Some template =>
            match lookup (of_bytes (replace_braces (as_bytes template) (as_bytes (he_machine_id h)))) with
            | Some (found :: more) => existsb (fun c => bool_decide (canonical c = canonical (ip a))) (found :: more)
            | _ => true
            end
        end
  end.

(** [link]: the queue is there before the hello goes out. *)
Definition link_begins (dialed : bool) (machine : string) (remote : IpAddr) (now : Z) (s : MeshState) : MeshState :=
  let link := ms_next_link s in
  let s := mkMeshState (subscribe json_length (mc_snapshot_chunk config) link epoch now (ms_local s)) (ms_remote s) (ms_links s) (link + 1)
    (ms_cancelled s) (ms_notices s) (ms_draining s) in
  set_link link (mkLink dialed machine remote Greeting [FHello (hello s)]) s.

(** The end of a link: it leaves the table if it ran, and its queue is dropped. *)
Definition link_ends (link : Z) (li : Link) (ok : bool) (s : MeshState) : MeshState :=
  let s := match li_phase li with Running => set_remote (link_down (li_machine li) link (ms_remote s)) s | _ => s end in
  set_link link (set_phase (Over ok) li) (set_local (unsubscribe link (ms_local s)) s).

(** The peer's hello: who it proved to be, where it says it is, and whether it is the link to keep. *)
Definition link_greeted (link : Z) (li : Link) (frame : Frame) (now : Z) (s : MeshState) : MeshState :=
  match frame with
  | FHello peer =>
      if String.eqb (he_machine_id peer) machine_id then link_ends link li false s
      else if negb (String.eqb (li_machine li) (he_machine_id peer)) then link_ends link li false s
      else if negb (check_address peer (li_remote li)) then link_ends link li false s
      else
        let dialer := if li_dialed li then address else he_address peer in
        match register partitioned peer link dialer now (ms_remote s) with
        | (false, _, _) => link_ends link li true s
        | (true, replaced, r) =>
            let s := match replaced with Some old => cancel old s | None => s end in
            notify [LinkUp] (set_link link (set_phase Running li) (set_remote r s))
        end
  | _ => link_ends link li false s
  end.

Inductive LinkInput :=
| LFrame (frame : Frame)
| LBroken
| LCancelled
| LWrites
| LPings.

Definition link_step (link : Z) (i : LinkInput) (now : Z) (s : MeshState) : MeshState :=
  match ms_links s !! link with
  | None => s
  | Some li =>
      match li_phase li, i with
      | Over _, _ => s
      | _, LBroken => link_ends link li false s
      | Greeting, LFrame frame => link_greeted link li frame now s
      | Greeting, (LCancelled | LWrites | LPings) => s
      | Running, LCancelled => if bool_decide (link ∈ ms_cancelled s) then link_ends link li true s else s
      | Running, LFrame frame =>
          match apply (li_machine li) link frame now (ms_remote s) with
          | Err _ => link_ends link li false s
          | Ok (r, notices) => notify notices (set_remote r s)
          end
      | Running, LWrites =>
          match take_frame link (ms_local s) with
          | Some (frame, l) => set_link link (mkLink (li_dialed li) (li_machine li) (li_remote li) Running (li_written li ++ [frame])) (set_local l s)
          | None => s
          end
      | Running, LPings => set_link link (mkLink (li_dialed li) (li_machine li) (li_remote li) Running (li_written li ++ [FPing now])) s
      end
  end.

(** This machine's own announcements; a link whose queue is full is cancelled. *)
Definition announces (f : Local -> Local) (s : MeshState) : MeshState :=
  let l := f (ms_local s) in
  let gone := dom (lo_links (ms_local s)) ∖ dom (lo_links l) in
  mkMeshState l (ms_remote s) (ms_links s) (ms_next_link s) (gone ∪ ms_cancelled s) (ms_notices s) (ms_draining s).
Definition leave (now : Z) (s : MeshState) : MeshState :=
  announces (publish Leaving now) (mkMeshState (ms_local s) (ms_remote s) (ms_links s) (ms_next_link s) (ms_cancelled s) (ms_notices s) true).

Inductive MeshInput :=
| MLink (dialed : bool) (machine : string) (remote : IpAddr)
| MStep (link : Z) (i : LinkInput)
| MAttached (tunnel : string) (bridge : Z) (routes : list string) (attached_at : Z)
| MDetached (tunnel : string) (bridge : Z)
| MPublish (event : Event)
| MLeave.

Definition mesh_step (s : MeshState) (x : Z * MeshInput) : MeshState :=
  let '(now, i) := x in
  match i with
  | MLink dialed machine remote => link_begins dialed machine remote now s
  | MStep link i => link_step link i now s
  | MAttached tunnel bridge routes attached_at => announces (attached tunnel bridge routes attached_at now) s
  | MDetached tunnel bridge => announces (detached tunnel bridge now) s
  | MPublish event => announces (publish event now) s
  | MLeave => leave now s
  end.

Definition mesh_start : MeshState := mkMeshState empty_local empty_remote ∅ 1 ∅ [] false.
End Links.

(** ** What a link changes in the table *)

Lemma clear_peers machine r m : m <> machine -> peers (clear machine r) !! m = peers r !! m.
Proof. intros Hm. unfold clear. destruct (peers r !! machine); [|done]. simpl. by rewrite lookup_insert_ne. Qed.

Lemma register_peers partitioned h link dialer now r replaced r' : register partitioned h link dialer now r = (true, replaced, r') ->
  (exists p, peers r' !! he_machine_id h = Some p /\ pe_link p = link /\ pe_hello p = h) /\
  (forall m, m <> he_machine_id h -> peers r' !! m = peers r !! m) /\
  replaced = pe_link <$> peers r !! he_machine_id h.
Proof.
  unfold register. case_decide; [done|]. destruct (peers r !! he_machine_id h) as [existing|] eqn:E.
  - case_split; [done|]. case_split; [done|]. case_split; intros [= <- <-]; simpl.
    + split_and!; [|intros m Hm; by rewrite lookup_insert_ne|done]. eexists. by rewrite lookup_insert_eq.
    + split_and!; [|intros m Hm; rewrite lookup_insert_ne by done; by apply clear_peers|done]. eexists. by rewrite lookup_insert_eq.
  - intros [= <- <-]. simpl. split_and!; [|intros m Hm; by rewrite lookup_insert_ne|done]. eexists. by rewrite lookup_insert_eq.
Qed.

(** The hello of a peer but for its draining. *)
Definition same_peer (p p' : Peer) : Prop :=
  pe_link p' = pe_link p /\ he_machine_id (pe_hello p') = he_machine_id (pe_hello p) /\ he_address (pe_hello p') = he_address (pe_hello p).

Lemma apply_peers machine link frame now r r' notices : apply machine link frame now r = Ok (r', notices) ->
  exists p p', peers r !! machine = Some p /\ pe_link p = link /\ peers r' !! machine = Some p' /\ same_peer p p' /\
  forall m, m <> machine -> peers r' !! m = peers r !! m.
Proof.
  unfold apply. destruct (peers r !! machine) as [p|] eqn:E; [|done]. case_split; [done|]. bsimp. intros Ha. exists p.
  assert (exists p', peers r' !! machine = Some p' /\ same_peer p p' /\ forall m, m <> machine -> peers r' !! m = peers r !! m) as (p' & H1 & H2 & H3); [|by exists p'].
  assert (forall q idx, same_peer p q -> exists p', peers (mkRemote (<[machine := q]> (peers r)) idx) !! machine = Some p' /\ same_peer p p' /\
    forall m, m <> machine -> peers (mkRemote (<[machine := q]> (peers r)) idx) !! m = peers r !! m) as Hk.
  { intros q idx Hq. exists q. simpl. rewrite lookup_insert_eq. split_and!; [done..|]. intros m Hm. by rewrite lookup_insert_ne. }
  assert (exists p', peers r !! machine = Some p' /\ same_peer p p' /\ forall m, m <> machine -> peers r !! m = peers r !! m) as Hr by (by exists p).
  destruct frame as [| | | | |? []| |]; repeat case_split; simplify_eq; try done; try (by apply Hk).
Qed.

Lemma link_down_peers machine link r m : peers (link_down machine link r) !! m =
  match peers r !! m with
  | Some p => if decide (m = machine /\ pe_link p = link) then None else Some p
  | None => None
  end.
Proof.
  unfold link_down. destruct (peers r !! machine) as [p|] eqn:E.
  - destruct (Z.eqb_spec (pe_link p) link) as [El|El].
    + simpl. destruct (decide (m = machine)) as [->|Hm].
      * rewrite lookup_delete_eq, E. by rewrite decide_True.
      * rewrite lookup_delete_ne, clear_peers by done. destruct (peers r !! m); [|done]. by rewrite decide_False by (intros []; congruence).
    + destruct (decide (m = machine)) as [->|Hm]; [rewrite E; by rewrite decide_False by (intros []; congruence)|].
      destruct (peers r !! m); [|done]. by rewrite decide_False by (intros []; congruence).
  - destruct (decide (m = machine)) as [->|Hm]; [by rewrite E|]. destruct (peers r !! m); [|done]. by rewrite decide_False by (intros []; congruence).
Qed.

(** ** Every machine in the table proved itself on its live link *)

Section Verified.
Context `{HashOrder} (json_length : Entry -> Z) (config : MeshConfig).
Context (machine_id region address : string) (epoch started_at : Z) (lookup : string -> option (list IpAddr)) (partitioned : gset string).

(** A machine of the table, the link that is recorded for it, and what the link established. *)
Definition verified (s : MeshState) (m : string) (p : Peer) : Prop := exists li,
  ms_links s !! pe_link p = Some li /\ li_phase li = Running /\ li_machine li = m /\ he_machine_id (pe_hello p) = m /\ m <> machine_id /\
  check_address config lookup (pe_hello p) (li_remote li) = true.
Record links_ok (s : MeshState) : Prop := mkLinksOk {
  lk_peers : forall m p, peers (ms_remote s) !! m = Some p -> verified s m p;
  lk_live : forall link li, ms_links s !! link = Some li -> li_phase li = Running ->
    (exists p, peers (ms_remote s) !! li_machine li = Some p /\ pe_link p = link) \/ link ∈ ms_cancelled s;
  lk_fresh : forall link, is_Some (ms_links s !! link) -> link < ms_next_link s;
}.

Lemma check_address_same p p' remote : same_peer p p' ->
  check_address config lookup (pe_hello p') remote = check_address config lookup (pe_hello p) remote.
Proof. intros (_ & E1 & E2). unfold check_address. by rewrite E1, E2. Qed.

(** Steps that leave the links and the table. *)
Lemma links_ok_same s s' : links_ok s -> ms_links s' = ms_links s -> ms_remote s' = ms_remote s -> ms_next_link s' = ms_next_link s ->
  ms_cancelled s ⊆ ms_cancelled s' -> links_ok s'.
Proof.
  intros [H1 H2 H3] E1 E2 E3 Hc. split; unfold verified in *; rewrite ?E1, ?E2, ?E3; [done| |done].
  intros link li El Hr. destruct (H2 link li El Hr) as [Hp|Hp]; [by left|right; set_solver].
Qed.

Lemma links_ok_begins dialed machine remote now s : links_ok s ->
  links_ok (link_begins json_length config machine_id region address epoch started_at dialed machine remote now s).
Proof.
  intros [H1 H2 H3]. split; simpl.
  - intros m p Hp. destruct (H1 m p Hp) as (li & El & Hli). exists li. split; [|done]. simpl. rewrite lookup_insert_ne; [done|].
    intros E. assert (pe_link p < ms_next_link s) by (apply H3; by rewrite El). lia.
  - intros link li. destruct (decide (link = ms_next_link s)) as [->|Hl]; [rewrite lookup_insert_eq; intros [= <-]; done|].
    rewrite lookup_insert_ne by done. apply H2.
  - intros link. destruct (decide (link = ms_next_link s)) as [->|Hl]; [lia|]. rewrite lookup_insert_ne by done. intros Hx%H3. lia.
Qed.

Lemma links_ok_ends link li ok s : links_ok s -> ms_links s !! link = Some li -> links_ok (link_ends link li ok s).
Proof.
  intros [H1 H2 H3] El.
  set (r := match li_phase li with Running => link_down (li_machine li) link (ms_remote s) | _ => ms_remote s end).
  assert (ms_remote (link_ends link li ok s) = r) as Er by (unfold link_ends, r; by destruct (li_phase li)).
  assert (ms_links (link_ends link li ok s) = <[link := set_phase (Over ok) li]> (ms_links s)) as Elk by (unfold link_ends; by destruct (li_phase li)).
  assert (ms_next_link (link_ends link li ok s) = ms_next_link s /\ ms_cancelled (link_ends link li ok s) = ms_cancelled s) as [En Ec]
    by (unfold link_ends; by destruct (li_phase li)).
  (* the machines that stay are those of other links *)
  assert (forall m p, peers r !! m = Some p -> peers (ms_remote s) !! m = Some p /\ pe_link p <> link) as Hback.
  { intros m p Hp. unfold r in Hp. destruct (li_phase li) eqn:Eph.
    - split; [done|]. intros E. destruct (H1 m p Hp) as (li' & El' & Hr & _). congruence.
    - rewrite link_down_peers in Hp. destruct (peers (ms_remote s) !! m) as [q|] eqn:Eq; [|done]. case_decide as Hd; [done|]. injection Hp as <-.
      split; [done|]. intros E. destruct (H1 m q Eq) as (li' & El' & _ & Hm & _). apply Hd. split; [congruence|done].
    - split; [done|]. intros E. destruct (H1 m p Hp) as (li' & El' & Hr & _). congruence. }
  split; unfold verified; rewrite ?Er, ?Elk, ?En, ?Ec.
  - intros m p [Hp Hl]%Hback. destruct (H1 m p Hp) as (li' & El' & Hli). exists li'. by rewrite lookup_insert_ne.
  - intros l' li'. destruct (decide (l' = link)) as [->|Hl]; [rewrite lookup_insert_eq; by intros [= <-]|]. rewrite lookup_insert_ne by done.
    intros El' Hr. destruct (H2 l' li' El' Hr) as [(p & Hp & Hpl)|Hp]; [left|by right]. exists p. split; [|done].
    unfold r. destruct (li_phase li); try done. rewrite link_down_peers, Hp. rewrite decide_False; [done|]. intros [_ ?]. congruence.
  - intros l'. destruct (decide (l' = link)) as [->|Hl]; [intros _; apply H3; by rewrite El|]. rewrite lookup_insert_ne by done. apply H3.
Qed.

Lemma links_ok_greeted link li frame now s : links_ok s -> ms_links s !! link = Some li -> li_phase li = Greeting ->
  links_ok (link_greeted config machine_id address lookup partitioned link li frame now s).
Proof.
  intros Hs El Hph. unfold link_greeted. destruct frame as [h| | | | | | |]; try (by apply links_ok_ends).
  destruct (String.eqb_spec (he_machine_id h) machine_id) as [|Hown]; [by apply links_ok_ends|].
  destruct (String.eqb_spec (li_machine li) (he_machine_id h)) as [Em|]; [|by apply links_ok_ends]. simpl.
  destruct (check_address config lookup h (li_remote li)) eqn:Ea; [|by apply links_ok_ends]. simpl.
  destruct (register partitioned h link _ now (ms_remote s)) as [[kept replaced] r] eqn:Er. destruct kept; [|by apply links_ok_ends].
  apply register_peers in Er as ((p & Hp & Hpl & Hph') & Ho & Hrep). destruct Hs as [H1 H2 H3].
  set (s' := notify _ _). assert (ms_remote s' = r /\ ms_links s' = <[link := set_phase Running li]> (ms_links s) /\ ms_next_link s' = ms_next_link s /\
    ms_cancelled s ⊆ ms_cancelled s' /\ forall old, replaced = Some old -> old ∈ ms_cancelled s') as (E1 & E2 & E3 & E4 & E5).
  { unfold s'. destruct replaced as [old|]; simpl; split_and!; try done; [set_solver|intros ? [= ->]; set_solver]. }
  clearbody s'. split; unfold verified; rewrite ?E1, ?E2, ?E3.
  - intros m q Hq. destruct (decide (m = he_machine_id h)) as [->|Hm].
    + rewrite Hp in Hq. injection Hq as <-. exists (set_phase Running li). rewrite Hpl, lookup_insert_eq. simpl. rewrite Hph'. by split_and!.
    + rewrite Ho in Hq by done. destruct (H1 m q Hq) as (li' & El' & Hli). exists li'. rewrite lookup_insert_ne; [done|].
      intros E. assert (li' = li) as -> by congruence. destruct Hli as [Hrun _]. congruence.
  - intros l' li'. destruct (decide (l' = link)) as [->|Hl].
    + rewrite lookup_insert_eq. intros [= <-] _. left. exists p. simpl. by rewrite Em.
    + rewrite lookup_insert_ne by done. intros El' Hr. destruct (H2 l' li' El' Hr) as [(q & Hq & Hql)|Hq]; [|right; set_solver].
      destruct (decide (li_machine li' = he_machine_id h)) as [Eq|Hm]; [|left; exists q; by rewrite Ho].
      right. apply E5. rewrite Hrep, <- Eq, Hq. simpl. by rewrite Hql.
  - intros l'. destruct (decide (l' = link)) as [->|Hl]; [intros _; apply H3; by rewrite El|]. rewrite lookup_insert_ne by done. apply H3.
Qed.

(** A link's record changes, but for its other side and its phase. *)
Lemma links_ok_written link li w s s' : links_ok s -> ms_links s !! link = Some li -> ms_remote s' = ms_remote s ->
  ms_links s' = <[link := mkLink (li_dialed li) (li_machine li) (li_remote li) (li_phase li) w]> (ms_links s) ->
  ms_next_link s' = ms_next_link s -> ms_cancelled s' = ms_cancelled s -> links_ok s'.
Proof.
  intros [H1 H2 H3] El E1 E2 E3 E4. split; unfold verified; rewrite ?E1, ?E2, ?E3, ?E4.
  - intros m p Hp. destruct (H1 m p Hp) as (li' & El' & Hli). destruct (decide (pe_link p = link)) as [Epl|Hl].
    + rewrite Epl in *. assert (li' = li) as -> by congruence. rewrite lookup_insert_eq. eexists. split; [done|]. by simpl.
    + rewrite lookup_insert_ne by done. by exists li'.
  - intros l' li'. destruct (decide (l' = link)) as [->|Hl]; [|rewrite lookup_insert_ne by done; apply H2].
    rewrite lookup_insert_eq. intros [= <-] Hr. by apply (H2 link li).
  - intros l'. destruct (decide (l' = link)) as [->|Hl]; [intros _; apply H3; by rewrite El|]. rewrite lookup_insert_ne by done. apply H3.
Qed.

Lemma links_ok_applied link li frame now s r notices : links_ok s -> ms_links s !! link = Some li -> li_phase li = Running ->
  apply (li_machine li) link frame now (ms_remote s) = Ok (r, notices) -> links_ok (notify notices (set_remote r s)).
Proof.
  intros [H1 H2 H3] El Hph Ha. apply apply_peers in Ha as (p & p' & Hp & Hpl & Hp' & Hsame & Ho). split; simpl; [| |done].
  - intros m q Hq. unfold verified. simpl. destruct (decide (m = li_machine li)) as [->|Hm].
    + rewrite Hp' in Hq. injection Hq as <-. destruct (H1 _ _ Hp) as (li' & El' & A1 & A2 & A3 & A4 & A5). exists li'.
      pose proof (check_address_same p p' (li_remote li') Hsame) as Hc. destruct Hsame as (S1 & S2 & S3). rewrite S1, S2, Hc. by split_and!.
    + rewrite Ho in Hq by done. by apply H1.
  - intros l' li' El' Hr. destruct (H2 l' li' El' Hr) as [(q & Hq & Hql)|Hq]; [left|by right].
    destruct (decide (li_machine li' = li_machine li)) as [Em|Hm]; [|exists q; by rewrite Ho].
    exists p'. rewrite Em in *. split; [done|]. destruct Hsame as [-> _]. congruence.
Qed.

Lemma links_ok_step s x : links_ok s ->
  links_ok (mesh_step json_length config machine_id region address epoch started_at lookup partitioned s x).
Proof.
  intros Hs. destruct x as [now [dialed machine remote|link i|tunnel bridge routes at_|tunnel bridge|event|]]; simpl; [by apply links_ok_begins| | | | |].
  - unfold link_step. destruct (ms_links s !! link) as [li|] eqn:El; [|done].
    assert (forall ok, links_ok (link_ends link li ok s)) as He by (intros ok; by apply links_ok_ends).
    destruct (li_phase li) eqn:Eph; [| |done]; destruct i; try done; try (by case_split).
    + by apply links_ok_greeted.
    + destruct (apply _ _ _ _ _) as [[r notices]|] eqn:Ea; [by eapply links_ok_applied|done].
    + destruct (take_frame link (ms_local s)) as [[f l]|]; [|done]. eapply links_ok_written; [exact Hs|exact El|done| |done..]. simpl. by rewrite Eph.
    + eapply links_ok_written; [exact Hs|exact El|done| |done..]. simpl. by rewrite Eph.
  - eapply links_ok_same; [exact Hs|done..|simpl; set_solver].
  - eapply links_ok_same; [exact Hs|done..|simpl; set_solver].
  - eapply links_ok_same; [exact Hs|done..|simpl; set_solver].
  - eapply links_ok_same; [exact Hs|done..|simpl; set_solver].
Qed.

Definition mesh_run (inputs : list (Z * MeshInput)) : MeshState :=
  fold_left (mesh_step json_length config machine_id region address epoch started_at lookup partitioned) inputs mesh_start.

Lemma links_ok_run inputs : links_ok (mesh_run inputs).
Proof.
  unfold mesh_run. assert (links_ok mesh_start) as Hs by (split; simpl; [done|intros ? ?; by rewrite lookup_empty|intros ? [? ?]; by rewrite lookup_empty in *]).
  revert Hs. generalize mesh_start. induction inputs as [|x inputs IH]; intros s Hs; [done|]. by apply IH, links_ok_step.
Qed.

(** What [locate] names is a machine of the table. *)
Lemma locate_peer tunnel route except r l : locate tunnel route except r = Some l -> exists m p, peers r !! m = Some p /\ l = location p.
Proof.
  unfold locate. match goal with |- context [max_by_key fst ?x] => pose proof (max_by_key_spec fst x) as Hm; destruct (max_by_key fst x) as [[at_ p]|] end; [|done].
  simpl. intros [= <-]. destruct Hm as [Hin _]. apply list_elem_of_omap in Hin as ([m b] & _ & Hf). simpl in Hf. case_decide; [done|].
  unfold entry_of in Hf. simpl in Hf. destruct (peers r !! m) as [q|] eqn:Eq; simpl in Hf; [|done]. destruct (pe_entries q !! b); simpl in Hf; [|done].
  case_split; [|done]. injection Hf as _ <-. by exists m, q.
Qed.

(** C16: whatever links come up, break and replace each other and whatever peers send, a visitor is only forwarded to a machine
    with a live link, on which that very machine proved it knows the secret; the address it is forwarded to is the one the link
    comes from (or was dialed at), where that is to be verified; and no machine stays in the table without a link that runs. *)
Theorem forwards_verified inputs tunnel route except l :
  locate tunnel route except (ms_remote (mesh_run inputs)) = Some l ->
  exists link li a, ms_links (mesh_run inputs) !! link = Some li /\ li_phase li = Running /\ li_machine li = lc_machine_id l /\
    lc_machine_id l <> machine_id /\ parse_socket (lc_address l) = Some a /\
    (mc_verify_address config = true -> canonical (ip a) = canonical (li_remote li)).
Proof.
  intros (m & p & Hp & ->)%locate_peer. destruct (lk_peers _ (links_ok_run inputs) m p Hp) as (li & El & Hr & Hm & Hh & Hown & Hc).
  unfold check_address in Hc. destruct (parse_socket (he_address (pe_hello p))) as [a|] eqn:Ea; [|done].
  exists (pe_link p), li, a. simpl. rewrite Hh. split_and!; try done. intros Hv. rewrite Hv in Hc. simpl in Hc.
  destruct (bool_decide (canonical (ip a) = canonical (li_remote li))) eqn:Eb; [by apply bool_decide_eq_true in Eb|done].
Qed.

(** A frame of one machine's link, its hello included, leaves what other machines announced. *)
Theorem links_isolated link li frame now s m : links_ok s -> ms_links s !! link = Some li -> m <> li_machine li ->
  peers (ms_remote (link_step config machine_id address lookup partitioned link (LFrame frame) now s)) !! m = peers (ms_remote s) !! m.
Proof.
  intros Hs El Hm. unfold link_step. rewrite El.
  assert (forall ok, peers (ms_remote (link_ends link li ok s)) !! m = peers (ms_remote s) !! m) as He.
  { intros ok. unfold link_ends. destruct (li_phase li); simpl; try done. rewrite link_down_peers. destruct (peers (ms_remote s) !! m); [|done].
    by rewrite decide_False by (intros []; congruence). }
  destruct (li_phase li) eqn:Eph; [| |done].
  - unfold link_greeted. destruct frame as [h| | | | | | |]; try apply He. case_split; [apply He|].
    destruct (String.eqb_spec (li_machine li) (he_machine_id h)) as [Em|]; [|apply He]. simpl. case_split; [apply He|].
    destruct (register partitioned h link _ now (ms_remote s)) as [[[] replaced] r] eqn:Er; [|apply He].
    apply register_peers in Er as (_ & Ho & _). assert (forall x, ms_remote (notify [LinkUp] (set_link link x (set_remote r match replaced with Some old => cancel old s | None => s end))) = r) as -> by (by destruct replaced).
    apply Ho. congruence.
  - destruct (apply (li_machine li) link frame now (ms_remote s)) as [[r notices]|] eqn:Ea; [|apply He]. simpl.
    apply apply_peers in Ea as (? & ? & _ & _ & _ & _ & Ho). by apply Ho.
Qed.
End Verified.

(** ** Members: the addresses to dial, and a dialer for each *)

Definition FIRST_BACKOFF : Z := 200.
Definition MAX_BACKOFF : Z := 5000.
Definition HIGHER_DIAL_DELAY : Z := 2000.
Definition FORGET_AFTER : Z := 30000.

#[export] Instance ipaddr_countable : Countable IpAddr.
Proof.
  refine (inj_countable' (fun a => match a with V4 n => inl n | V6 n => inr n end) (fun x => match x with inl n => V4 n | inr n => V6 n end) _).
  by intros [].
Defined.
#[export] Instance socketaddr_countable : Countable SocketAddr.
Proof. refine (inj_countable' (fun a => (ip a, port a)) (fun x => mkSocketAddr x.1 x.2) _). by intros []. Defined.

(** [SocketAddr]'s order: IPv4 before IPv6, then the address, then the port. *)
Definition ip_rank (a : IpAddr) : Z * Z := match a with V4 n => (4, n) | V6 n => (6, n) end.
Definition addr_gtb (a b : SocketAddr) : bool :=
  let '(k, n) := ip_rank (ip a) in
  let '(k', n') := ip_rank (ip b) in
  (k' <? k) || ((k =? k') && ((n' <? n) || ((n =? n') && (port b <? port a)))).

Inductive AddressState := Connecting | Up | Unreachable.
Record Address := mkAddress { ad_state : AddressState; ad_current : bool; ad_static : bool; ad_seen : Z }.
Inductive DialPhase := Waiting (until : Z) | Dialing.
Record Dialer := mkDialer { dl_address : SocketAddr; dl_phase : DialPhase; dl_backoff : Z }.
Record Members := mkMembers { mb_addresses : gmap SocketAddr Address; mb_dialers : gmap nat Dialer; mb_next : nat }.

(** [dial_loop] begins: the higher address of a pair waits. *)
Definition spawn (own : option SocketAddr) (now : Z) (s : Members) (a : SocketAddr) : Members :=
  let higher := match own with Some own => addr_gtb own a | None => false end in
  let d := mkDialer a (Waiting (if higher then now + HIGHER_DIAL_DELAY else now)) FIRST_BACKOFF in
  mkMembers (mb_addresses s) (<[mb_next s := d]> (mb_dialers s)) (S (mb_next s)).

(** One address of an answer: known before, or new and to be dialed. *)
Definition found_address (own : option SocketAddr) (now : Z) (x : gmap SocketAddr Address * list SocketAddr) (f : SocketAddr * bool)
  : gmap SocketAddr Address * list SocketAddr :=
  let '(addresses, spawned) := x in
  let '(a, is_static) := f in
  if bool_decide (Some a = own) then x
  else
    match addresses !! a with
    | Some known => (<[a := mkAddress (ad_state known) true (ad_static known || is_static) now]> addresses, spawned)
    | None => (<[a := mkAddress Connecting true is_static now]> addresses, spawned ++ [a])
    end.

Definition discover (own : option SocketAddr) (found : list (SocketAddr * bool)) (resolved : bool) (now : Z) (s : Members) : Members :=
  let addresses :=
    if resolved then (fun k => mkAddress (ad_state k) (ad_static k) (ad_static k) (ad_seen k)) <$> mb_addresses s else mb_addresses s in
  let '(addresses, spawned) := fold_left (found_address own now) found (addresses, []) in
  fold_left (spawn own now) spawned (mkMembers addresses (mb_dialers s) (mb_next s)).

Definition set_state (a : SocketAddr) (st : AddressState) (s : Members) : Members :=
  mkMembers (alter (fun k => mkAddress st (ad_current k) (ad_static k) (ad_seen k)) a (mb_addresses s)) (mb_dialers s) (mb_next s).
Definition set_dialer (k : nat) (d : Dialer) (s : Members) : Members :=
  mkMembers (mb_addresses s) (<[k := d]> (mb_dialers s)) (mb_next s).

Definition wanted (known : option Address) (now : Z) : bool :=
  match known with Some k => ad_static k || ad_current k || (now - ad_seen k <? FORGET_AFTER) | None => false end.

(** A turn of [dial_loop] up to the dial, which lasts as long as the link does; and from the end of a dial to the next wait. *)
Definition dialer_wakes (k : nat) (now : Z) (r : Remote) (s : Members) : Members :=
  match mb_dialers s !! k with
  | Some (mkDialer a (Waiting until) backoff) =>
      if now <? until then s
      else if negb (wanted (mb_addresses s !! a) now) then mkMembers (delete a (mb_addresses s)) (delete k (mb_dialers s)) (mb_next s)
      else if linked a r then set_dialer k (mkDialer a (Waiting (now + 500)) FIRST_BACKOFF) (set_state a Up s)
      else set_dialer k (mkDialer a Dialing backoff) s
  | _ => s
  end.
Definition dial_ends (k : nat) (ok : bool) (now : Z) (r : Remote) (s : Members) : Members :=
  match mb_dialers s !! k with
  | Some (mkDialer a Dialing backoff) =>
      if ok then
        if linked a r then set_dialer k (mkDialer a (Waiting now) FIRST_BACKOFF) s
        else set_dialer k (mkDialer a (Waiting (now + FIRST_BACKOFF)) FIRST_BACKOFF) (set_state a Connecting s)
      else
        let s := if linked a r then s else set_state a Unreachable s in
        set_dialer k (mkDialer a (Waiting (now + backoff)) (Z.min (backoff * 2) MAX_BACKOFF)) s
  | _ => s
  end.

(** [address_states] and the gauges of [update_gauges]. *)
Definition address_state (a : SocketAddr) (k : Address) (r : Remote) : AddressState :=
  match linked a r, ad_state k with
  | true, _ => Up
  | false, Up => Connecting
  | false, st => st
  end.
Definition address_states (r : Remote) (s : Members) : list (SocketAddr * AddressState) :=
  map (fun ak => (ak.1, address_state ak.1 ak.2 r)) (filter (fun ak => ad_current ak.2 = true) (map_to_list (mb_addresses s))).
Definition current_addresses (s : Members) : list SocketAddr := map fst (filter (fun ak => ad_current ak.2 = true) (map_to_list (mb_addresses s))).

Inductive MemberInput :=
| DDiscover (found : list (SocketAddr * bool)) (resolved : bool)
| DWakes (k : nat) (r : Remote)
| DDialed (k : nat) (ok : bool) (r : Remote).
Definition member_step (own : option SocketAddr) (s : Members) (x : Z * MemberInput) : Members :=
  match x.2 with
  | DDiscover found resolved => discover own found resolved x.1 s
  | DWakes k r => dialer_wakes k x.1 r s
  | DDialed k ok r => dial_ends k ok x.1 r s
  end.

(** One dialer per known address, but for those that are about to get theirs; never one's own; waits are bounded. *)
Record members_ok (own : option SocketAddr) (now : Z) (pending : list SocketAddr) (s : Members) : Prop := mkMembersOk {
  mo_known : forall k d, mb_dialers s !! k = Some d -> is_Some (mb_addresses s !! dl_address d);
  mo_dialed : forall a, is_Some (mb_addresses s !! a) -> a ∈ pending \/ exists k d, mb_dialers s !! k = Some d /\ dl_address d = a;
  mo_once : forall k k' d d', mb_dialers s !! k = Some d -> mb_dialers s !! k' = Some d' -> dl_address d = dl_address d' -> k = k';
  mo_pending : NoDup pending /\ forall a, a ∈ pending -> is_Some (mb_addresses s !! a) /\ forall k d, mb_dialers s !! k = Some d -> dl_address d <> a;
  mo_own : forall a, own = Some a -> mb_addresses s !! a = None;
  mo_bounds : forall k d, mb_dialers s !! k = Some d -> FIRST_BACKOFF <= dl_backoff d <= MAX_BACKOFF /\
    match dl_phase d with Waiting until => until <= now + MAX_BACKOFF | Dialing => True end;
  mo_next : forall k, is_Some (mb_dialers s !! k) -> (k < mb_next s)%nat;
}.

(** Only the values of known addresses change. *)
Lemma members_ok_addresses own now pending s addresses : members_ok own now pending s ->
  (forall a, is_Some (addresses !! a) <-> is_Some (mb_addresses s !! a)) -> members_ok own now pending (mkMembers addresses (mb_dialers s) (mb_next s)).
Proof.
  intros [H1 H2 H3 [H4 H4'] H5 H6 H7] Ha. split; simpl; [intros k d ?%H1; by apply Ha|intros a ?%Ha; auto|done| | |done|done].
  - split; [done|]. intros a [Hx Hy]%H4'. split; [by apply Ha|done].
  - intros a E. apply H5 in E. apply eq_None_not_Some. rewrite Ha, E. by intros [? ?].
Qed.

Lemma members_ok_later own now now' pending s : now <= now' -> members_ok own now pending s -> members_ok own now' pending s.
Proof. intros Hn [H1 H2 H3 H4 H5 H6 H7]. split; try done. intros k d Hk. destruct (H6 k d Hk) as [A B]. split; [done|]. destruct (dl_phase d); [lia|done]. Qed.

Lemma found_ok own now s addresses pending f x : members_ok own now pending (mkMembers addresses (mb_dialers s) (mb_next s)) ->
  found_address own now (addresses, pending) f = x -> members_ok own now x.2 (mkMembers x.1 (mb_dialers s) (mb_next s)).
Proof.
  intros Hs <-. unfold found_address. destruct f as [a st]. case_bool_decide as Hown; [done|]. destruct (addresses !! a) as [known|] eqn:E; simpl.
  - apply (members_ok_addresses _ _ _ _ _ Hs). intros b. simpl. destruct (decide (a = b)) as [->|Hb]; [rewrite lookup_insert_eq, E|by rewrite lookup_insert_ne].
    split; intros _; by eexists.
  - destruct Hs as [H1 H2 H3 [H4 H4'] H5 H6 H7]. split; simpl in *; try done.
    + intros k d Hk. destruct (decide (a = dl_address d)) as [<-|Hb]; [by rewrite lookup_insert_eq|rewrite lookup_insert_ne by done; eauto].
    + intros b. destruct (decide (a = b)) as [->|Hb]; [intros _; left; set_solver|]. rewrite lookup_insert_ne by done.
      intros [Hp|Hk]%H2; [left; set_solver|by right].
    + split.
      * apply NoDup_app. split_and!; [done| |apply NoDup_singleton]. intros b Hb. apply H4' in Hb as [[v Hv] _]. intros ->%list_elem_of_singleton. congruence.
      * intros b [Hb|Hb]%elem_of_app.
        -- apply H4' in Hb as [Hv Hd]. split; [|done]. destruct (decide (a = b)) as [->|Hab]; [by rewrite lookup_insert_eq|by rewrite lookup_insert_ne].
        -- apply list_elem_of_singleton in Hb as ->. rewrite lookup_insert_eq. split; [done|]. intros k d Hk <-. destruct (H1 k d Hk). congruence.
    + intros b Eb. rewrite lookup_insert_ne by congruence. auto.
Qed.

Lemma spawn_ok own now s a pending : 0 <= now -> members_ok own now (a :: pending) s -> members_ok own now pending (spawn own now s a).
Proof.
  intros Hn [H1 H2 H3 [H4 H4'] H5 H6 H7]. apply NoDup_cons in H4 as [Ha H4]. destruct (H4' a) as [[v Hv] Hd]; [set_solver|].
  assert (mb_dialers s !! mb_next s = None) as Hnext.
  { apply eq_None_not_Some. intros Hx%H7. lia. }
  split; simpl.
  - intros k d. destruct (decide (k = mb_next s)) as [->|Hk]; [rewrite lookup_insert_eq; intros [= <-]; simpl; by rewrite Hv|rewrite lookup_insert_ne by done; eauto].
  - intros b [[->|Hb]%elem_of_cons|(k & d & Hk & Hb)]%H2.
    + right. eexists (mb_next s), _. rewrite lookup_insert_eq. done.
    + by left.
    + right. exists k, d. rewrite lookup_insert_ne; [done|]. intros E. congruence.
  - intros k k' d d'. destruct (decide (k = mb_next s)) as [->|Hk], (decide (k' = mb_next s)) as [->|Hk']; rewrite ?lookup_insert_eq, ?lookup_insert_ne by done; try done.
    + intros [= <-] Hk2 E. by apply Hd in Hk2.
    + intros Hk1 [= <-] E. by apply Hd in Hk1.
    + apply H3.
  - split; [done|]. intros b Hb. destruct (H4' b) as [Hs Hnb]; [set_solver|]. split; [done|]. intros k d.
    destruct (decide (k = mb_next s)) as [->|Hk]; [rewrite lookup_insert_eq; intros [= <-]; simpl; by intros ->|rewrite lookup_insert_ne by done; apply Hnb].
  - done.
  - intros k d. destruct (decide (k = mb_next s)) as [->|Hk]; [|rewrite lookup_insert_ne by done; apply H6].
    rewrite lookup_insert_eq. intros [= <-]. simpl. unfold FIRST_BACKOFF, MAX_BACKOFF, HIGHER_DIAL_DELAY.
    split; [lia|]. destruct (match own with Some own => _ | None => false end); lia.
  - intros k. destruct (decide (k = mb_next s)) as [->|Hk]; [intros _; lia|rewrite lookup_insert_ne by done]. intros Hx%H7. lia.
Qed.

Lemma discover_ok own found resolved now s : 0 <= now -> members_ok own now [] s -> members_ok own now [] (discover own found resolved now s).
Proof.
  intros Hn Hs. unfold discover. set (addresses := if resolved then _ else _).
  assert (members_ok own now [] (mkMembers addresses (mb_dialers s) (mb_next s))) as H1.
  { apply members_ok_addresses; [done|]. intros a. unfold addresses. destruct resolved; [|done]. rewrite lookup_fmap. by rewrite fmap_is_Some. }
  clearbody addresses. destruct (fold_left (found_address own now) found (addresses, [])) as [addresses' spawned] eqn:E.
  assert (members_ok own now spawned (mkMembers addresses' (mb_dialers s) (mb_next s))) as H2.
  { revert H1 E. generalize (@nil SocketAddr). revert addresses. induction found as [|f found IH]; intros addresses pending H1; cbn [fold_left]; [by intros [= <- <-]|].
    destruct (found_address own now (addresses, pending) f) as [a' p'] eqn:Ef. apply IH.
    exact (found_ok own now s addresses pending f (a', p') H1 Ef). }
  revert H2. generalize (mkMembers addresses' (mb_dialers s) (mb_next s)). clear -Hn. induction spawned as [|a spawned IH]; intros s Hs; simpl; [done|].
  by apply IH, spawn_ok.
Qed.

Lemma set_dialer_ok own now s k d d' : members_ok own now [] s -> mb_dialers s !! k = Some d -> dl_address d' = dl_address d ->
  FIRST_BACKOFF <= dl_backoff d' <= MAX_BACKOFF -> match dl_phase d' with Waiting until => until <= now + MAX_BACKOFF | Dialing => True end ->
  members_ok own now [] (set_dialer k d' s).
Proof.
  intros [H1 H2 H3 H4 H5 H6 H7] Hk Ea Hb Hp. split; simpl; try done.
  - intros j x. destruct (decide (j = k)) as [->|Hj]; [rewrite lookup_insert_eq; intros [= <-]; rewrite Ea; eauto|rewrite lookup_insert_ne by done; eauto].
  - intros a [Hx|(j & x & Hj & Hx)]%H2; [by left|right]. destruct (decide (j = k)) as [->|Hjk].
    + exists k, d'. rewrite lookup_insert_eq. split; [done|]. congruence.
    + exists j, x. by rewrite lookup_insert_ne.
  - intros j j' x x'. destruct (decide (j = k)) as [->|Hj], (decide (j' = k)) as [->|Hj']; rewrite ?lookup_insert_eq, ?lookup_insert_ne by done; try done.
    + intros [= <-] Hx E. eapply H3; [done..|congruence].
    + intros Hx [= <-] E. eapply H3; [done..|congruence].
    + apply H3.
  - split; [constructor|]. by intros a ?%not_elem_of_nil.
  - intros j x. destruct (decide (j = k)) as [->|Hj]; [rewrite lookup_insert_eq; by intros [= <-]|rewrite lookup_insert_ne by done; eauto].
  - intros j. destruct (decide (j = k)) as [->|Hj]; [intros _; apply H7; by rewrite Hk|rewrite lookup_insert_ne by done; apply H7].
Qed.

Lemma set_state_ok own now pending a st s : members_ok own now pending s -> members_ok own now pending (set_state a st s).
Proof.
  intros Hs. apply members_ok_addresses; [done|]. intros b. destruct (decide (b = a)) as [->|Hb].
  - rewrite lookup_alter_eq. by rewrite fmap_is_Some.
  - by rewrite lookup_alter_ne.
Qed.

Lemma wakes_ok own now k r s : 0 <= now -> members_ok own now [] s -> members_ok own now [] (dialer_wakes k now r s).
Proof.
  intros Hn Hs. unfold dialer_wakes. destruct (mb_dialers s !! k) as [[a [until|] backoff]|] eqn:Ek; try done. case_split; [done|].
  destruct (mo_bounds _ _ _ _ Hs k _ Ek) as [Hb _]. simpl in Hb. case_split; [|case_split].
  - destruct Hs as [H1 H2 H3 H4 H5 H6 H7]. split; simpl.
    + intros j d. destruct (decide (j = k)) as [->|Hj]; [by rewrite lookup_delete_eq|]. rewrite lookup_delete_ne by done. intros Hd.
      rewrite lookup_delete_ne; [eauto|]. intros Ead. apply Hj. eapply H3; [done|exact Ek|done].
    + intros b. destruct (decide (b = a)) as [->|Hb']; [rewrite lookup_delete_eq; by intros []|]. rewrite lookup_delete_ne by done.
      intros [Hx|(j & d & Hd & Eb)]%H2; [by left|right]. exists j, d. rewrite lookup_delete_ne; [done|]. intros <-. rewrite Ek in Hd. injection Hd as <-. simpl in Eb. congruence.
    + intros j j' d d'. rewrite !lookup_delete_Some. intros [_ Hd] [_ Hd']. by eapply H3.
    + split; [constructor|]. by intros b ?%not_elem_of_nil.
    + intros b Eb. destruct (decide (b = a)) as [->|Hb']; [by rewrite lookup_delete_eq|]. rewrite lookup_delete_ne by done. auto.
    + intros j d. rewrite lookup_delete_Some. intros [_ Hd]. eauto.
    + intros j [d Hd]. apply lookup_delete_Some in Hd as [_ Hd]. apply H7. by rewrite Hd.
  - apply (set_dialer_ok own now _ k (mkDialer a (Waiting until) backoff)); [by apply set_state_ok|done|done|..]; cbn; unfold FIRST_BACKOFF, MAX_BACKOFF; lia.
  - by apply (set_dialer_ok own now _ k (mkDialer a (Waiting until) backoff)).
Qed.

Lemma dial_ends_ok own now k ok r s : 0 <= now -> members_ok own now [] s -> members_ok own now [] (dial_ends k ok now r s).
Proof.
  intros Hn Hs. unfold dial_ends. destruct (mb_dialers s !! k) as [[a [until|] backoff]|] eqn:Ek; try done.
  destruct (mo_bounds _ _ _ _ Hs k _ Ek) as [Hb _]. simpl in Hb. unfold FIRST_BACKOFF, MAX_BACKOFF in *. destruct ok; [destruct (linked a r)|].
  - apply (set_dialer_ok own now _ k (mkDialer a Dialing backoff)); [done..| |]; cbn; unfold FIRST_BACKOFF, MAX_BACKOFF; lia.
  - apply (set_dialer_ok own now _ k (mkDialer a Dialing backoff)); [by apply set_state_ok|done|done|..]; cbn; unfold FIRST_BACKOFF, MAX_BACKOFF; lia.
  - apply (set_dialer_ok own now _ k (mkDialer a Dialing backoff)); [destruct (linked a r); [done|by apply set_state_ok]|by destruct (linked a r)|done|..];
      cbn; unfold FIRST_BACKOFF, MAX_BACKOFF; lia.
Qed.

(** Inputs in the order of time, from [t] to the last. *)
Fixpoint in_time (t : Z) (inputs : list (Z * MemberInput)) : Prop :=
  match inputs with [] => True | x :: inputs' => t <= x.1 /\ in_time x.1 inputs' end.
Fixpoint last_time (t : Z) (inputs : list (Z * MemberInput)) : Z := match inputs with [] => t | x :: inputs' => last_time x.1 inputs' end.
Definition members_run (own : option SocketAddr) (inputs : list (Z * MemberInput)) : Members := fold_left (member_step own) inputs (mkMembers ∅ ∅ 0).

Lemma members_run_ok own inputs : forall t s, 0 <= t -> in_time t inputs -> members_ok own t [] s ->
  members_ok own (last_time t inputs) [] (fold_left (member_step own) inputs s).
Proof.
  induction inputs as [|[now i] inputs IH]; intros t s Ht Hin Hs; [done|]. destruct Hin as [Hn Hin]. simpl in Hn. cbn [fold_left last_time fst].
  apply IH; [lia|done|]. apply (members_ok_later own t now) in Hs; [|done]. unfold member_step. cbn [fst snd].
  destruct i; [apply discover_ok|apply wakes_ok|apply dial_ends_ok]; (done || lia).
Qed.

(** *** What a lookup finds stays known *)

(** The answer of a lookup that is over has the address. *)
Definition answers_with (a : SocketAddr) (x : Z * MemberInput) : Prop :=
  match x.2 with DDiscover found true => a ∈ map fst found | _ => True end.

(** In the table with at least these marks: configured, in the latest answer, seen at [t] or later. *)
Definition marked (a : SocketAddr) (static current : Prop) (t : Z) (addresses : gmap SocketAddr Address) : Prop :=
  exists known, addresses !! a = Some known /\ (static -> ad_static known = true) /\ (current -> ad_current known = true) /\ t <= ad_seen known.

Section Found.
Context (own : option SocketAddr) (a : SocketAddr) (static : Prop) (t : Z).
Hypothesis not_own : own <> Some a.

Lemma found_marked current now addresses pending f :
  t <= now -> marked a static current t addresses -> marked a static current t (found_address own now (addresses, pending) f).1.
Proof.
  intros Hn (known & Ha & Hs & Hc & Ht). unfold found_address. destruct f as [b st]. case_bool_decide; [by exists known|].
  destruct (decide (b = a)) as [->|Hb].
  - rewrite Ha. cbn. eexists. rewrite lookup_insert_eq. split; [done|]. cbn. split_and!; [intros ->%Hs|..]; done.
  - exists known. destruct (addresses !! b); cbn; by rewrite lookup_insert_ne.
Qed.

Lemma founds_marked current now found : forall x, t <= now -> marked a static current t x.1 -> marked a static current t (fold_left (found_address own now) found x).1.
Proof. induction found as [|f found IH]; intros [addresses pending] Hn Hx; [done|]. by apply IH; [|apply found_marked]. Qed.

(** One that is in the answer is current from then on, and keeps that it is configured. *)
Lemma founds_found current now found is_static : forall x, (a, is_static) ∈ found -> (static -> is_static = true) \/ marked a static False t x.1 -> t <= now ->
  marked a static current t (fold_left (found_address own now) found x).1.
Proof using not_own.
  induction found as [|[b st] found IH]; intros [addresses pending] Hin Hst Hn; [by apply elem_of_nil in Hin|]. cbn [fold_left].
  apply elem_of_cons in Hin as [[= <- <-]|Hin]; [|apply IH; [done| |done]; destruct Hst; [by left|right; by apply found_marked]]. apply founds_marked; [done|].
  unfold found_address. rewrite bool_decide_false by congruence. destruct Hst as [Hst|(known & Ha & Hs & _)].
  - destruct (addresses !! a) as [known|]; cbn; eexists; rewrite lookup_insert_eq; (split; [done|]); cbn; split_and!; try done. intros ->%Hst. apply orb_true_r.
  - cbn [fst] in Ha. rewrite Ha. cbn. eexists. rewrite lookup_insert_eq. split; [done|]. cbn. split_and!; try done. by intros ->%Hs.
Qed.

Lemma spawns_addresses now l : forall s, mb_addresses (fold_left (spawn own now) l s) = mb_addresses s.
Proof. induction l as [|b l IH]; intros s; [done|]. cbn [fold_left]. by rewrite IH. Qed.

Lemma discover_addresses found resolved now s :
  mb_addresses (discover own found resolved now s) = (fold_left (found_address own now) found
    (if resolved then (fun k => mkAddress (ad_state k) (ad_static k) (ad_static k) (ad_seen k)) <$> mb_addresses s else mb_addresses s, [])).1.
Proof. unfold discover. destruct (fold_left _ _ _) as [addresses spawned]. by rewrite spawns_addresses. Qed.

Lemma set_state_marked current b st s : marked a static current t (mb_addresses s) -> marked a static current t (mb_addresses (set_state b st s)).
Proof.
  intros (known & Ha & H). cbn. destruct (decide (b = a)) as [->|Hb]; [|exists known; by rewrite lookup_alter_ne].
  eexists. rewrite lookup_alter_eq, Ha. split; [done|exact H].
Qed.

Lemma discover_marked (current : Prop) found resolved now s :
  t <= now -> (current -> answers_with a (now, DDiscover found resolved)) -> marked a static current t (mb_addresses s) ->
  marked a static current t (mb_addresses (discover own found resolved now s)).
Proof using not_own.
  intros Hn Hcur Hm. rewrite discover_addresses. destruct resolved; [|by apply founds_marked]. destruct Hm as (known & Ha & Hs & Hc & Ht).
  set (reset := _ <$> _). assert (forall c : Prop, (c -> False) -> marked a static c t reset) as Hr.
  { intros c Hf. eexists. unfold reset. rewrite lookup_fmap, Ha. split; [done|]. cbn. split_and!; [done|by intros ?%Hf|done]. }
  destruct (decide (a ∈ map fst found)) as [Hin|Hno].
  - apply list_elem_of_fmap in Hin as ([b st] & E & Hin). cbn in E. subst b. eapply founds_found; [exact Hin| |done]. right. by apply Hr.
  - apply founds_marked; [done|]. apply Hr. intros ?%Hcur. done.
Qed.

(** Every step keeps the marks, as long as they keep the address from being given up. *)
Lemma member_step_marked (current : Prop) x s :
  t <= x.1 -> static \/ x.1 < t + FORGET_AFTER \/ current -> (current -> answers_with a x) ->
  marked a static current t (mb_addresses s) -> marked a static current t (mb_addresses (member_step own s x)).
Proof using not_own.
  destruct x as [now i]. cbn [fst]. intros Hn Hkeep Hcur Hm. unfold member_step. cbn [fst snd]. destruct i as [found resolved|k r|k ok r].
  - by apply discover_marked.
  - unfold dialer_wakes. destruct (mb_dialers s !! k) as [[b [until|] backoff]|]; [|done..]. case_split; [done|]. case_split.
    + cbn. destruct (decide (b = a)) as [->|Hb]; [|destruct Hm as (known & Ha & H); exists known; by rewrite lookup_delete_ne].
      exfalso. destruct Hm as (known & Ha & Hs & Hc & Ht). rewrite Ha in *. unfold wanted in *.
      match goal with E : negb _ = true |- _ => apply negb_true_iff, orb_false_iff in E as [[Es Ec]%orb_false_iff El%Z.ltb_ge] end.
      destruct Hkeep as [H|[H|H]]; [apply Hs in H; congruence|lia|apply Hc in H; congruence].
    + case_split; [by apply set_state_marked|done].
  - unfold dial_ends. destruct (mb_dialers s !! k) as [[b [until|] backoff]|]; [done|..|done]. destruct ok; destruct (linked b r); try done; by apply set_state_marked.
Qed.

Lemma members_run_marked (current : Prop) inputs : forall from s,
  t <= from -> in_time from inputs -> static \/ last_time from inputs < t + FORGET_AFTER \/ current -> (current -> Forall (answers_with a) inputs) ->
  marked a static current t (mb_addresses s) -> marked a static current t (mb_addresses (fold_left (member_step own) inputs s)).
Proof using not_own.
  induction inputs as [|x inputs IH]; intros from s Hf Hin Hkeep Hcur Hm; [done|]. destruct Hin as [Hx Hin]. cbn [fold_left last_time] in *.
  assert (forall l u, in_time u l -> u <= last_time u l) as Hlast.
  { induction l as [|y l IHl]; intros u; cbn; [lia|]. intros [? ?%IHl]. lia. }
  specialize (Hlast _ _ Hin). apply (IH x.1); [lia|done|done|by intros [? ?]%Hcur%Forall_cons|].
  apply member_step_marked; [lia| |by intros [? ?]%Hcur%Forall_cons|done]. destruct Hkeep as [?|[?|?]]; [by left|right; left; lia|auto].
Qed.
End Found.

Lemma last_time_app l l' : forall t, last_time t (l ++ l') = last_time (last_time t l) l'.
Proof. induction l as [|x l IH]; intros t; cbn; auto. Qed.
Lemma in_time_app l l' : forall t, in_time t (l ++ l') -> in_time t l /\ in_time (last_time t l) l'.
Proof. induction l as [|x l IH]; intros t; cbn; [done|]. intros [? [? ?]%IH]. done. Qed.

Lemma members_start_ok own now : members_ok own now [] (mkMembers ∅ ∅ 0).
Proof.
  split; simpl; [intros k d; by rewrite lookup_empty|intros b []; by rewrite lookup_empty in *
      |intros k k' d d'; by rewrite lookup_empty| |done|intros k d; by rewrite lookup_empty|intros k []; by rewrite lookup_empty in *].
  split; [constructor|]. by intros b ?%not_elem_of_nil.
Qed.

(** C24: every address a lookup finds, but for this machine's own, is kept dialed while it is configured, was found within the last
    thirty seconds, or is in every answer since: it has exactly one dialer, which is at a dial or wakes within five seconds, and
    when it wakes it dials unless the machine is linked, or gives the address up if it is not configured and was in no answer for
    thirty seconds. This machine's own address has no dialer. *)
Theorem peers_kept_dialed own before t found resolved after a is_static :
  let inputs := before ++ (t, DDiscover found resolved) :: after in
  in_time 0 inputs -> (a, is_static) ∈ found -> own <> Some a ->
  is_static = true \/ last_time t after < t + 30000 \/ Forall (answers_with a) after ->
  let s := members_run own inputs in
  (forall o k d, own = Some o -> mb_dialers s !! k = Some d -> dl_address d <> o) /\
  exists known k d, mb_addresses s !! a = Some known /\
  (is_static = true -> ad_static known = true) /\ (Forall (answers_with a) after -> ad_current known = true) /\ t <= ad_seen known /\
  mb_dialers s !! k = Some d /\ dl_address d = a /\
  (forall k' d', mb_dialers s !! k' = Some d' -> dl_address d' = a -> k' = k) /\
  match dl_phase d with
  | Dialing => True
  | Waiting until => until <= last_time 0 inputs + 5000 /\ forall now r, until <= now ->
      let s' := dialer_wakes k now r s in
      if ad_static known || ad_current known || (now - ad_seen known <? 30000)
      then dl_phase <$> mb_dialers s' !! k = Some (if linked a r then Waiting (now + 500) else Dialing)
      else mb_addresses s' !! a = None /\ mb_dialers s' !! k = None
  end.
Proof.
  intros inputs Hin Hfound Hown Hkeep s.
  assert (members_ok own (last_time 0 inputs) [] s) as Hs by (apply members_run_ok; [lia|done|apply members_start_ok]).
  assert (marked a (is_static = true) (Forall (answers_with a) after) t (mb_addresses s)) as (known & Ha & Hst & Hc & Ht).
  { unfold s, members_run, inputs. rewrite fold_left_app. cbn [fold_left]. apply in_time_app in Hin as [_ [_ Hin]].
    apply (members_run_marked own a _ t Hown _ after t); [done|done|done|done|]. unfold member_step. cbn [fst snd]. rewrite discover_addresses. by eapply founds_found; [|exact Hfound|left|]. }
  split. { intros o k d Eo Hk Ed. destruct (mo_known _ _ _ _ Hs k d Hk) as [v Hv]. rewrite Ed, (mo_own _ _ _ _ Hs _ Eo) in Hv. done. }
  destruct (mo_dialed _ _ _ _ Hs a) as [Hx|(k & d & Hk & Ea)]; [by rewrite Ha|by apply not_elem_of_nil in Hx|].
  exists known, k, d. split_and!; [done..|intros k' d' Hk' Ea'; eapply (mo_once _ _ _ _ Hs); [done..|congruence]|].
  destruct (mo_bounds _ _ _ _ Hs k d Hk) as [_ Hw]. destruct d as [a' [until|] backoff]; simpl in *; [|done]. subst a'. split; [exact Hw|].
  intros now r Hn. unfold dialer_wakes. rewrite Hk. rewrite (proj2 (Z.ltb_ge now until)) by done. rewrite Ha. unfold wanted, FORGET_AFTER.
  destruct (_ || _ || _); simpl; [|by rewrite !lookup_delete_eq]. destruct (linked a r); simpl; by rewrite lookup_insert_eq.
Qed.

(** ** A concrete mesh: this machine dials another one, which says hello and announces a bridge *)

Module MeshDemo.
Definition demo_config : MeshConfig := mkMeshConfig None true SNAPSHOT_CHUNK.
Definition demo_ip : IpAddr := V4 (10 * 2 ^ 24 + 2).
Definition demo_hello : Hello := mkHello 1 "b" "fra" "10.0.0.2:4443" 7 1 false.
Definition demo_inputs : list (Z * MeshInput) :=
  [(1, MLink true "b" demo_ip); (2, MStep 1 (LFrame (FHello demo_hello))); (3, MStep 1 (LFrame (FSnapshot 7 0 1 [mkEntry "t" 1 ["app"] 1] false)))].
Definition demo_mesh : MeshState := mesh_run (fun _ => 50) demo_config "a" "ams" "10.0.0.1:4443" 5 1 (fun _ => None) ∅ demo_inputs.

Lemma forwards_verified_witness : exists link li a, ms_links demo_mesh !! link = Some li /\ li_machine li = "b" /\
  parse_socket "10.0.0.2:4443" = Some a /\ canonical (ip a) = canonical (li_remote li).
Proof.
  destruct (forwards_verified (fun _ => 50) demo_config "a" "ams" "10.0.0.1:4443" 5 1 (fun _ => None) ∅ demo_inputs "t" "app" None
    (mkLocation "b" "fra" "10.0.0.2:4443")) as (link & li & a & H1 & _ & H3 & _ & H5 & H6); [vm_compute; reflexivity|].
  exists link, li, a. split; [exact H1|]. split; [exact H3|]. split; [exact H5|]. apply H6. reflexivity.
Defined.

Definition demo_address : SocketAddr := mkSocketAddr demo_ip 4443.
Definition other_address : SocketAddr := mkSocketAddr (V4 (10 * 2 ^ 24 + 3)) 4443.
(** A lookup that finds two addresses; a dial of the second fails; the next lookup is not answered. *)
Definition demo_found : list (SocketAddr * bool) := [(demo_address, false); (other_address, false)].
Definition demo_after : list (Z * MemberInput) := [(0, DWakes 1 empty_remote); (3000, DDialed 1 false empty_remote); (3100, DDiscover [] false)].
Definition demo_members : Members := members_run None ([] ++ (0, DDiscover demo_found true) :: demo_after).

Lemma peers_kept_dialed_witness : exists k d, mb_dialers demo_members !! k = Some d /\ dl_address d = other_address /\
  dl_phase <$> mb_dialers (dialer_wakes k 40000 empty_remote demo_members) !! k = Some Dialing.
Proof.
  destruct (peers_kept_dialed None [] 0 demo_found true demo_after other_address false) as (_ & known & k & d & Ha & _ & Hc & _ & H1 & H2 & H3 & H4).
  - cbn. lia.
  - right. left.
  - discriminate.
  - right. left. cbn. lia.
  - exists k, d. split; [exact H1|]. split; [exact H2|]. rewrite Hc in H4 by (by repeat constructor).
    assert (mb_dialers demo_members !! 1%nat = Some (mkDialer other_address (Waiting 3200) 400)) as H0 by (vm_compute; reflexivity).
    pose proof (H3 _ _ H0 eq_refl) as <-. unfold demo_members in H0. rewrite H0 in H1. injection H1 as <-.
    pose proof (proj2 H4 40000 empty_remote ltac:(lia)) as H. rewrite orb_true_r in H. exact H.
Defined.
End MeshDemo.
