(* ===== verification/MeshView.v ===== *)
(** * MeshView: what a machine tells of the mesh, [view] and [table_sizes] of [mesh.rs], for the statistics of the admin endpoint
    The JSON it answers with is a record; objects whose keys are made up as it counts are maps. *)

From Stdlib Require Import ZArith Lia Ascii String List.
From stdpp Require Import base list strings gmap sorting.
From S2P Require Import Prelude Text Addr Mesh MeshLinks.

Record MachineView := mkMachineView {
  mv_machine_id : string; mv_region : string; mv_address : string;
  mv_bridges : Z; mv_tunnels : Z; mv_routes : Z;
  mv_link : string; mv_draining : bool; mv_epoch : string; mv_started_at : Z; mv_seq : Z;
  mv_connected_at : option Z;
}.

Record View := mkView {
  vw_bridges : Z;
  vw_regions : gmap string Z;
  vw_machines : list MachineView;
  vw_peers : gmap string Z;
  vw_addresses : list (string * string);
  vw_complete : bool;
}.

Definition as_str (state : AddressState) : string :=
  match state with Connecting => "connecting" | Up => "up" | Unreachable => "unreachable" end.

(** [sort_by], which is stable. *)
Fixpoint insert_le {A} (le : A -> A -> bool) (x : A) (l : list A) : list A :=
  match l with
  | [] => [x]
  | y :: l' => if le x y then x :: l else y :: insert_le le x l'
  end.
Definition sort_le {A} (le : A -> A -> bool) (l : list A) : list A := fold_right (insert_le le) [] l.

(** The order of pairs of strings. *)
Definition pair_leb (a b : string * string) : bool :=
  match String.compare a.1 b.1 with Lt => true | Gt => false | Eq => String.leb a.2 b.2 end.

(** One more of what is counted, or [n] more. *)
Definition count (m : gmap string Z) (x : string * Z) : gmap string Z := <[x.1 := default 0 (m !! x.1) + x.2]> m.

Definition zsum (l : list Z) : Z := fold_right Z.add 0 l.

(** [view]'s own [summary]. *)
Definition summary (entries : gmap Z Entry) : Z * Z * Z :=
  let es := map snd (map_to_list entries) in
  (Z.of_nat (size entries), Z.of_nat (size (list_to_set (C := gset string) (map en_tunnel es))),
   zsum (map (fun e => Z.of_nat (length (en_routes e))) es)).

Section View.
Context `{HashOrder} (machine_id region address : string) (epoch started_at : Z).

(** [peers] and [table_sizes]. *)
Definition peer_ids (r : Remote) : list string := order (map fst (map_to_list (peers r))).
Definition table_sizes (l : Local) (r : Remote) : list (string * nat) :=
  (machine_id, size (lo_entries l)) :: map (fun p => (he_machine_id (pe_hello p), size (pe_entries p))) (order (map snd (map_to_list (peers r)))).

Definition own_machine (draining : bool) (l : Local) : MachineView :=
  let '(bridges, tunnels, routes) := summary (lo_entries l) in
  mkMachineView machine_id region address bridges tunnels routes "self" draining (dec_string epoch) started_at (lo_seq l) None.

Definition peer_machine (p : Peer) : MachineView :=
  let '(bridges, tunnels, routes) := summary (pe_entries p) in
  let h := pe_hello p in
  mkMachineView (he_machine_id h) (he_region h) (he_address h) bridges tunnels routes "up" (he_draining h) (dec_string (he_epoch h))
    (he_started_at h) (pe_seq p) (Some (pe_connected_at p)).

Definition machine_leb (a b : MachineView) : bool := pair_leb (mv_region a, mv_machine_id a) (mv_region b, mv_machine_id b).

Definition view (s : MeshState) (members : Members) : View :=
  let machines := sort_le machine_leb
    (own_machine (ms_draining s) (ms_local s) :: map peer_machine (order (map snd (map_to_list (peers (ms_remote s)))))) in
  let regions := fold_left (fun m v => count m (mv_region v, mv_bridges v)) machines ∅ in
  let total := fold_left (fun t v => t + mv_bridges v) machines 0 in
  let states := order (address_states (ms_remote s) members) in
  mkView total regions machines
    (fold_left (fun m (st : SocketAddr * AddressState) => count m (as_str st.2, 1)) states ∅)
    (sort_le (fun a b => String.leb a.1 b.1) (map (fun st : SocketAddr * AddressState => (addr_string st.1, as_str st.2)) states))
    (complete (current_addresses members) (ms_remote s)).
End View.

(** ** Sorting and counting *)

Lemma sort_le_perm {A} (le : A -> A -> bool) l : sort_le le l ≡ₚ l.
Proof.
  assert (forall x k, insert_le le x k ≡ₚ x :: k) as Hi.
  { intros x k. induction k as [|y k IH]; cbn; [done|]. destruct (le x y); [done|]. rewrite IH. apply Permutation_swap. }
  induction l as [|x l IH]; cbn; [done|]. by rewrite Hi, IH.
Qed.

Lemma sort_le_sorted {A} (le : A -> A -> bool) l :
  (forall a b, le a b = true \/ le b a = true) -> Sorted (fun a b => le a b = true) (sort_le le l).
Proof.
  intros Ht. induction l as [|x l IH]; [constructor|]. change (sort_le le (x :: l)) with (insert_le le x (sort_le le l)). revert IH.
  induction (sort_le le l) as [|y k IHk]; intros Hs; cbn; [repeat constructor|]. destruct (le x y) eqn:E; [constructor; [exact Hs|by constructor]|].
  assert (le y x = true) as Hyx by (destruct (Ht x y); congruence). inversion Hs as [|? ? Hk Hd]; subst. constructor; [by apply IHk|].
  destruct k as [|z k]; cbn; [by constructor|]. destruct (le x z); constructor; [done|by inversion Hd].
Qed.

Lemma pair_leb_total a b : pair_leb a b = true \/ pair_leb b a = true.
Proof.
  unfold pair_leb. rewrite (String.compare_antisym a.1 b.1). destruct (String.compare b.1 a.1); cbn; [apply String.leb_total|by right|by left].
Qed.

Lemma zsum_perm l k : l ≡ₚ k -> zsum l = zsum k.
Proof. unfold zsum. induction 1; cbn in *; lia. Qed.

(** What a map of counts holds: a key's sum, of what was counted under it. *)
Lemma count_lookup {A} (f : A -> string) (n : A -> Z) l k :
  fold_left (fun m v => count m (f v, n v)) l ∅ !! k =
  if bool_decide (k ∈ map f l) then Some (zsum (map n (filter (fun v => f v = k) l))) else None.
Proof.
  induction l as [|v l IH] using rev_ind; [apply lookup_empty|]. rewrite fold_left_app. cbn [fold_left]. unfold count at 1. cbn [fst snd].
  assert (forall a b, zsum (a ++ b) = zsum a + zsum b) as Hz by (intros a b; unfold zsum; induction a; cbn in *; lia).
  rewrite map_app, filter_app, map_app, Hz, (filter_cons _ v), filter_nil. change (map f [v]) with [f v]. destruct (decide (f v = k)) as [Hk|Hk].
  - rewrite Hk, lookup_insert_eq, IH, (bool_decide_true (k ∈ map f l ++ [k])) by (apply elem_of_app; right; constructor). cbn. f_equal.
    case_bool_decide as Hin; cbn; [lia|]. enough (filter (fun v => f v = k) l = []) as -> by (cbn; lia).
    destruct (filter _ l) as [|w t] eqn:E; [done|]. exfalso. apply Hin. assert (w ∈ filter (fun v => f v = k) l) as Hw by (rewrite E; constructor).
    apply list_elem_of_filter in Hw as [<- Hw]. by apply list_elem_of_fmap_2.
  - rewrite lookup_insert_ne, IH by done. cbn. rewrite Z.add_0_r.
    rewrite (bool_decide_ext (k ∈ map f l) (k ∈ map f l ++ [f v])); [done|]. rewrite elem_of_app, list_elem_of_singleton. naive_solver.
Qed.

(** ** What the view says *)

Section ViewOk.
Context `{HashOrder} (machine_id region address : string) (epoch started_at : Z).

Lemma view_machines s members :
  vw_machines (view machine_id region address epoch started_at s members) ≡ₚ
  own_machine machine_id region address epoch started_at (ms_draining s) (ms_local s) :: map peer_machine (map snd (map_to_list (peers (ms_remote s)))).
Proof. unfold view. cbn [vw_machines]. rewrite sort_le_perm. constructor. by rewrite order_perm. Qed.

Lemma fold_sum {A} (n : A -> Z) l t : fold_left (fun t v => t + n v) l t = t + zsum (map n l).
Proof. revert t. induction l as [|x l IH]; intros t; cbn; [lia|]. rewrite IH. unfold zsum. cbn. lia. Qed.

(** The figures add up: the total is the number of bridges in all tables of [table_sizes], each region's is that of its machines and a
    region without a machine is not listed; the machines are sorted by region and name. *)
Theorem view_adds_up s members :
  let v := view machine_id region address epoch started_at s members in
  vw_bridges v = zsum (map (fun x => Z.of_nat x.2) (table_sizes machine_id (ms_local s) (ms_remote s))) /\
  (forall g, vw_regions v !! g =
    if bool_decide (g ∈ map mv_region (vw_machines v)) then Some (zsum (map mv_bridges (filter (fun m => mv_region m = g) (vw_machines v)))) else None) /\
  Sorted (fun a b => machine_leb a b = true) (vw_machines v).
Proof.
  split_and!.
  - transitivity (zsum (map mv_bridges (vw_machines (view machine_id region address epoch started_at s members)))); [unfold view; cbn [vw_bridges vw_machines]; by rewrite fold_sum|].
    erewrite zsum_perm by (apply Permutation_map, view_machines). unfold table_sizes. cbn [map zsum fold_right fst snd]. f_equal. apply zsum_perm.
    rewrite order_perm, !map_map. done.
  - intros g. apply (count_lookup mv_region mv_bridges).
  - apply sort_le_sorted. intros a b. apply pair_leb_total.
Qed.

(** Every linked machine is listed, by its own name and once, beside this one. *)
Theorem view_lists_links s members : reachable (ms_remote s) ->
  map mv_machine_id (vw_machines (view machine_id region address epoch started_at s members)) ≡ₚ machine_id :: peer_ids (ms_remote s) /\
  NoDup (peer_ids (ms_remote s)).
Proof.
  intros Hr%reachable_table_ok. unfold peer_ids. rewrite order_perm. split; [|apply NoDup_fst_map_to_list]. rewrite view_machines. cbn [map]. constructor.
  rewrite !map_map. apply reflexive_eq. apply map_ext_in. intros [m p] Hin. cbn. apply list_elem_of_In, elem_of_map_to_list in Hin.
  exact (tk_machine _ Hr m p Hin).
Qed.

(** The view calls itself complete exactly when it counts no address in any state but [up]. *)
Theorem view_complete s members :
  let v := view machine_id region address epoch started_at s members in
  vw_complete v = true <-> forall name, is_Some (vw_peers v !! name) -> name = "up".
Proof.
  cbn zeta. unfold view. cbn [vw_complete vw_peers]. unfold complete. rewrite forallb_forall.
  assert (forall a k, as_str (address_state a k (ms_remote s)) = "up" <-> linked a (ms_remote s) = true) as Hst.
  { intros a k. unfold address_state. destruct (linked a (ms_remote s)), (ad_state k); cbn; split; congruence. }
  assert (forall name, is_Some (fold_left (fun m (st : SocketAddr * AddressState) => count m (as_str st.2, 1)) (order (address_states (ms_remote s) members)) ∅ !! name) <->
    name ∈ map (fun st : SocketAddr * AddressState => as_str st.2) (address_states (ms_remote s) members)) as Hk.
  { intros name. rewrite (count_lookup (fun st : SocketAddr * AddressState => as_str st.2) (fun _ => 1)).
    transitivity (name ∈ map (fun st : SocketAddr * AddressState => as_str st.2) (order (address_states (ms_remote s) members)));
      [|by rewrite order_perm]. case_bool_decide; split; [done|by eexists|by intros []|done]. }
  setoid_rewrite Hk. unfold address_states, current_addresses. split.
  - intros Ha name Hin. rewrite map_map in Hin. apply list_elem_of_fmap_1 in Hin as ([a k] & -> & Hin). cbn. apply Hst, Ha.
    apply list_elem_of_In. apply list_elem_of_fmap. by exists (a, k).
  - intros Hn a Hin. apply list_elem_of_In, list_elem_of_fmap in Hin as ([a' k] & -> & Hin). cbn. apply (Hst a' k), Hn. rewrite map_map.
    apply list_elem_of_fmap. by exists (a', k).
Qed.
End ViewOk.
