(* ===== verification/Server.v ===== *)
(** * Server: limits on public connections, handshakes, accept errors and the shutdown, [server.rs], [net.rs] and [http.rs]

    The listeners and their tasks as steps over what arrives and the time: how many public connections are handled, which of them
    may do a TLS handshake, how HTTP connections end, and in which order a server shuts down. *)

From Stdlib Require Import ZArith Lia Ascii String List.
From stdpp Require Import base list strings gmap sorting.
From S2P Require Import Prelude Text Addr Names Bridges.

(** ** The connection limit *)

Definition CONNECTION_MEMORY : Z := 64 * 1024.
Definition MAX_CONNECTIONS : Z := 60000.

Definition lines_of (l : bytes) : list bytes := split_l 10 l.

(** [find_map(strip_prefix)] over the lines, and [trim_end_matches(" kB")]. *)
Fixpoint find_line (p : bytes) (ls : list bytes) : option bytes :=
  match ls with [] => None | l :: ls' => match strip_prefix_l p l with Some rest => Some rest | None => find_line p ls' end end.
Fixpoint trim_kb (fuel : nat) (l : bytes) : bytes :=
  match fuel with O => l | S fuel => match strip_suffix_l (as_bytes " kB") l with Some l' => trim_kb fuel l' | None => l end end.

(** [memory_limit], of the two files; the product wraps at 64 bits. *)
Definition memory_limit (meminfo cgroup : option string) : option Z :=
  let* text := meminfo in
  let* line := find_line (as_bytes "MemTotal:") (lines_of (as_bytes text)) in
  let trimmed := trim_bytes line in
  let* kb := parse_uint U64_MAX (trim_kb (length trimmed) trimmed) in
  let total := (kb * 1024) mod 2 ^ 64 in
  let cgroup := let* text := cgroup in parse_uint U64_MAX (trim_bytes (as_bytes text)) in
  Some match cgroup with Some cgroup => Z.min cgroup total | None => total end.

Definition max_connections (memory : option Z) : Z :=
  let memory := match memory with Some m => m | None => Z.shiftl 2 30 end in
  Z.min (Z.max (memory / 4 * 3 / CONNECTION_MEMORY) 1000) MAX_CONNECTIONS.

(** ** [AcceptErrors] *)

Record AcceptErrors := mkAcceptErrors { ae_logged_at : option Z; ae_suppressed : Z }.
Definition new_errors : AcceptErrors := mkAcceptErrors None 0.

(** [failed], at a time: the state, what is logged (how many were not), and the pause. *)
Definition failed (now : Z) (exhausted : bool) (s : AcceptErrors) : AcceptErrors * option Z * Z :=
  let pause := if exhausted then 500 else 50 in
  if match ae_logged_at s with None => true | Some at_ => 10000 <=? now - at_ end
  then (mkAcceptErrors (Some now) 0, Some (ae_suppressed s), pause)
  else (mkAcceptErrors (ae_logged_at s) (ae_suppressed s + 1), None, pause).

(** The accept loop's failures in a row: the times something was logged, with what. *)
Fixpoint failures (events : list (Z * bool)) (s : AcceptErrors) : list (Z * Z) * AcceptErrors :=
  match events with
  | [] => ([], s)
  | (now, exhausted) :: events' =>
      let '(s', logged, _) := failed now exhausted s in
      let '(logs, s'') := failures events' s' in
      (match logged with Some n => (now, n) :: logs | None => logs end, s'')
  end.

(** ** Public connections: [serve_tls] and [connection] *)

Definition MAX_HANDSHAKES : nat := 256.
Definition HANDSHAKE_QUEUE_TIMEOUT : Z := 1000.
Definition HANDSHAKE_SLOT_HOLD : Z := 1000.
Definition HANDSHAKE_TIMEOUT : Z := 10000.

(** A TLS handshake with the API: since when, and whether it still holds its slot. *)
Record Shaking := mkShaking { sh_id : nat; sh_since : Z; sh_holds : bool }.

Record Public := mkPublic {
  pb_hello : list nat;
  pb_queue : list (nat * Z);
  pb_shaking : list Shaking;
  pb_serving : list nat;
  pb_relayed : list nat;
  pb_shed : list (nat * string);
}.
Definition no_public : Public := mkPublic [] [] [] [] [] [].

Definition open_connections (s : Public) : nat :=
  length (pb_hello s) + length (pb_queue s) + length (pb_shaking s) + length (pb_serving s) + length (pb_relayed s).
Definition holding (s : Public) : nat := length (List.filter sh_holds (pb_shaking s)).

Definition without (id : nat) (l : list nat) : list nat := List.filter (fun x => negb (x =? id)%nat) l.

(** The semaphore gives its free slots to those who wait, in their order. *)
Definition grant (now : Z) (s : Public) : Public :=
  let free := (MAX_HANDSHAKES - holding s)%nat in
  mkPublic (pb_hello s) (drop free (pb_queue s)) (pb_shaking s ++ map (fun q => mkShaking q.1 now true) (take free (pb_queue s)))
    (pb_serving s) (pb_relayed s) (pb_shed s).

(** The timers due at [now]: a handshake gives its slot up, or ends; then the slots are given; who still waits too long is closed. *)
Definition timers (now : Z) (s : Public) : Public :=
  let shaking := List.filter (fun h => now <? sh_since h + HANDSHAKE_TIMEOUT) (pb_shaking s) in
  let shaking := map (fun h => mkShaking (sh_id h) (sh_since h) (sh_holds h && (now <? sh_since h + HANDSHAKE_SLOT_HOLD))) shaking in
  let s := grant now (mkPublic (pb_hello s) (pb_queue s) shaking (pb_serving s) (pb_relayed s) (pb_shed s)) in
  let late := List.filter (fun q : nat * Z => q.2 + HANDSHAKE_QUEUE_TIMEOUT <=? now) (pb_queue s) in
  mkPublic (pb_hello s) (List.filter (fun q : nat * Z => now <? q.2 + HANDSHAKE_QUEUE_TIMEOUT) (pb_queue s)) (pb_shaking s) (pb_serving s) (pb_relayed s)
    (pb_shed s ++ map (fun q : nat * Z => (q.1, "handshakes")) late).

(** What a ClientHello asks for. *)
Inductive Hello := HelloDomain | HelloTunnel | HelloFailed.

Inductive PublicEvent :=
| EvAccepted (id : nat)
| EvHello (id : nat) (hello : Hello)
| EvHandshake (id : nat) (ok : bool)
| EvEnded (id : nat)
| EvTimer.

Definition public_step (limit : nat) (s : Public) (e : PublicEvent * Z) : Public :=
  let now := e.2 in
  let s := timers now s in
  match e.1 with
  | EvAccepted id =>
      if (open_connections s <? limit)%nat
      then mkPublic (id :: pb_hello s) (pb_queue s) (pb_shaking s) (pb_serving s) (pb_relayed s) (pb_shed s)
      else mkPublic (pb_hello s) (pb_queue s) (pb_shaking s) (pb_serving s) (pb_relayed s) (pb_shed s ++ [(id, "connections")])
  | EvHello id hello =>
      if existsb (Nat.eqb id) (pb_hello s) then
        let rest := without id (pb_hello s) in
        match hello with
        | HelloDomain => grant now (mkPublic rest (pb_queue s ++ [(id, now)]) (pb_shaking s) (pb_serving s) (pb_relayed s) (pb_shed s))
        | HelloTunnel => mkPublic rest (pb_queue s) (pb_shaking s) (pb_serving s) (id :: pb_relayed s) (pb_shed s)
        | HelloFailed => mkPublic rest (pb_queue s) (pb_shaking s) (pb_serving s) (pb_relayed s) (pb_shed s)
        end
      else s
  | EvHandshake id ok =>
      if existsb (fun h => sh_id h =? id)%nat (pb_shaking s) then
        let shaking := List.filter (fun h => negb (sh_id h =? id)%nat) (pb_shaking s) in
        grant now (mkPublic (pb_hello s) (pb_queue s) shaking (if ok then id :: pb_serving s else pb_serving s) (pb_relayed s) (pb_shed s))
      else s
  | EvEnded id => mkPublic (pb_hello s) (pb_queue s) (pb_shaking s) (without id (pb_serving s)) (without id (pb_relayed s)) (pb_shed s)
  | EvTimer => s
  end.

Definition run_public (limit : nat) (events : list (PublicEvent * Z)) : Public := fold_left (public_step limit) events no_public.

(** ** HTTP connections: [Shutdown] and [serve_connection]

    Asked to shut down, hyper lets the requests in progress finish and takes no more; a connection without any ends at once. *)

Record HttpConn := mkHttpConn { hc_id : nat; hc_http1 : bool; hc_late : bool; hc_asked : bool; hc_active : nat; hc_answered : nat }.

Record Shutdown := mkShutdown { sd_draining : bool; sd_closing : bool; sd_connections : list HttpConn }.
Definition no_shutdown : Shutdown := mkShutdown false false [].

Definition SWITCHING_PROTOCOLS : Z := 101.

(** A connection that was asked and has no request left is over. *)
Definition settle (l : list HttpConn) : list HttpConn := List.filter (fun c => negb (hc_asked c && (hc_active c =? 0)%nat)) l.

Definition ask (c : HttpConn) : HttpConn := mkHttpConn (hc_id c) (hc_http1 c) (hc_late c) true (hc_active c) (hc_answered c).

(** [Shutdown::drain] and the cancellations of [Shutdown::close]; a late connection listens only to the second. *)
Definition drain (s : Shutdown) : Shutdown :=
  mkShutdown true (sd_closing s) (settle (map (fun c => if hc_late c then c else ask c) (sd_connections s))).
Definition close (s : Shutdown) : Shutdown := mkShutdown true true (settle (map ask (sd_connections s))).

Inductive HttpEvent :=
| EvOpen (id : nat) (http1 : bool)
| EvRequest (id : nat)
| EvResponse (id : nat) (status : Z)
| EvGone (id : nat)
| EvDrain
| EvClose.

(** The end of a request: while draining, a response on HTTP/1.1 that is no upgrade says that the connection closes; an upgraded
    connection is no longer HTTP. *)
Definition respond (draining : bool) (status : Z) (c : HttpConn) : option HttpConn :=
  if status =? SWITCHING_PROTOCOLS then None
  else Some (mkHttpConn (hc_id c) (hc_http1 c) (hc_late c) (hc_asked c || (hc_http1 c && draining)) (hc_active c - 1) (S (hc_answered c))).

Definition on_conn (id : nat) (f : HttpConn -> option HttpConn) (l : list HttpConn) : list HttpConn :=
  omap (fun c => if (hc_id c =? id)%nat then f c else Some c) l.

Definition http_step (s : Shutdown) (e : HttpEvent) : Shutdown :=
  match e with
  | EvOpen id http1 => mkShutdown (sd_draining s) (sd_closing s) (settle (mkHttpConn id http1 (sd_draining s) (sd_closing s) 0 0 :: sd_connections s))
  | EvRequest id =>
      mkShutdown (sd_draining s) (sd_closing s)
        (on_conn id (fun c => Some (if hc_asked c || (hc_http1 c && (0 <? hc_active c)%nat) then c
                                    else mkHttpConn (hc_id c) (hc_http1 c) (hc_late c) (hc_asked c) (S (hc_active c)) (hc_answered c))) (sd_connections s))
  | EvResponse id status =>
      mkShutdown (sd_draining s) (sd_closing s)
        (settle (on_conn id (fun c => if (hc_active c =? 0)%nat then Some c else respond (sd_draining s) status c) (sd_connections s)))
  | EvGone id => mkShutdown (sd_draining s) (sd_closing s) (on_conn id (fun _ => None) (sd_connections s))
  | EvDrain => drain s
  | EvClose => close s
  end.
Definition run_http (events : list HttpEvent) : Shutdown := fold_left http_step events no_shutdown.

(** ** The shutdown: [Service::drain] and the end of [run] *)

Definition DRAIN_RATE : Z := 5000.
Definition DRAIN_SPREAD : Z := 5000.
Definition DRAIN_STEP : Z := 100.
Definition CLOSE_TIMEOUT : Z := 10000.

Definition RELEASE_WAIT : Z := 15000.
Definition div_ceil (a b : Z) : Z := (a + b - 1) / b.

(** [slice::chunks] *)
Fixpoint chunks {A} (fuel n : nat) (l : list A) : list (list A) :=
  match fuel, l with
  | S fuel, _ :: _ => take n l :: chunks fuel n (drop n l)
  | _, _ => []
  end.

Definition per_step (count : Z) : Z :=
  let steps := DRAIN_SPREAD / DRAIN_STEP in
  Z.max (Z.max (DRAIN_RATE * DRAIN_STEP / 1000) (div_ceil count (Z.max steps 1))) 1.

(** [Service::drain]: which bridges are told, and when after its start. *)
Definition drain_plan {A} (bridges : list A) : list (Z * list A) :=
  imap (fun i chunk => (Z.of_nat i * DRAIN_STEP, chunk)) (chunks (length bridges) (Z.to_nat (per_step (Z.of_nat (length bridges)))) bridges).

Inductive Action (A : Type) :=
| StopJobs | LeaveMesh | DrainHttp | TellBridges (bridges : list A)
| CloseTls | CloseHttp | CloseConnections | ReleaseLeases | CloseInternal | HaltMesh.
Arguments StopJobs {A}.
Arguments LeaveMesh {A}.
Arguments DrainHttp {A}.
Arguments TellBridges {A} bridges.
Arguments CloseTls {A}.
Arguments CloseHttp {A}.
Arguments CloseConnections {A}.
Arguments ReleaseLeases {A}.
Arguments CloseInternal {A}.
Arguments HaltMesh {A}.

(** How a server is set up and what happens while it shuts down: when a second signal comes, how long the HTTP connections take, and how long the
    attempts of jobs that run when their leases are to be released. *)
Record Ending := mkEnding { en_drain : Z; en_cluster : bool; en_http : bool; en_internal : bool; en_second : option Z; en_close : Z; en_attempts : Z }.

Definition listeners_close (e : Ending) : Z := match en_second e with Some at_ => Z.min at_ (en_drain e) | None => en_drain e end.
Definition connections_closed (e : Ending) : Z := listeners_close e + Z.min (en_close e) CLOSE_TIMEOUT.
(** [Jobs::release] looks every 100 ms whether the attempts ended, until its deadline. *)
Definition release_wait (attempts : Z) : Z := div_ceil (Z.max 0 (Z.min attempts RELEASE_WAIT)) 100 * 100.
Definition exits (e : Ending) : Z := connections_closed e + release_wait (en_attempts e).

(** The end of [run], from the signal to the exit: the main task's actions with their times, and the drain's, which its task does meanwhile
    until the process exits. *)
Definition shutdown {A} (e : Ending) (bridges : list A) : list (Z * Action A) :=
  [(0, StopJobs)] ++ (if en_cluster e then [(0, LeaveMesh)] else []) ++ [(0, DrainHttp)]
  ++ map (fun p => (p.1, TellBridges p.2)) (List.filter (fun p : Z * list A => p.1 <? exits e) (drain_plan bridges))
  ++ [(listeners_close e, CloseTls)] ++ (if en_http e then [(listeners_close e, CloseHttp)] else []) ++ [(listeners_close e, CloseConnections)]
  ++ [(exits e, ReleaseLeases)] ++ (if en_internal e then [(exits e, CloseInternal)] else []) ++ (if en_cluster e then [(exits e, HaltMesh)] else []).

(** ** [bind_internal]: the address other machines are told *)

Definition is_unspecified (a : IpAddr) : bool := match a with V4 n | V6 n => n =? 0 end.
Definition loopback_of (a : IpAddr) : IpAddr := match a with V4 _ => V4 2130706433 | V6 _ => V6 1 end.

(** The address that is bound, of the one resolved, and the one advertised, of the one the socket has. *)
Definition bind_address (private_ip : option IpAddr) (resolved : SocketAddr) : SocketAddr :=
  match private_ip with
  | Some private => if is_unspecified (ip resolved) then mkSocketAddr private (port resolved) else resolved
  | None => resolved
  end.
Definition advertised_address (configured : option string) (bound : SocketAddr) : string :=
  match configured with
  | Some a => if str_is_empty a then if is_unspecified (ip bound) then addr_string (mkSocketAddr (loopback_of (ip bound)) (port bound)) else addr_string bound else a
  | None => if is_unspecified (ip bound) then addr_string (mkSocketAddr (loopback_of (ip bound)) (port bound)) else addr_string bound
  end.

(** ** Properties of the limits *)

(** Whatever the machine, there is room for a thousand connections and at most for sixty thousand; above the smallest machines they fit in
    three quarters of the memory. *)
Theorem connection_limit memory :
  0 <= memory -> 1000 <= max_connections (Some memory) <= MAX_CONNECTIONS /\
  (1000 * CONNECTION_MEMORY <= memory / 4 * 3 -> max_connections (Some memory) * CONNECTION_MEMORY <= memory * 3 / 4).
Proof.
  intros Hm. unfold max_connections, MAX_CONNECTIONS, CONNECTION_MEMORY. split; [lia|]. intros Hbig.
  assert (memory / 4 * 3 / (64 * 1024) * (64 * 1024) <= memory / 4 * 3) by (rewrite Z.mul_comm; apply Z.mul_div_le; lia).
  assert (memory / 4 * 3 <= memory * 3 / 4) by (apply Z.div_le_lower_bound; [lia|]; pose proof (Z.mul_div_le memory 4); lia).
  assert (1000 <= memory / 4 * 3 / (64 * 1024)) by (apply Z.div_le_lower_bound; lia). lia.
Qed.

Lemma failures_logged events : forall s, exists logs s', failures events s = (logs, s') /\
  Z.of_nat (length events) + ae_suppressed s = Z.of_nat (length logs) + fold_right Z.add 0 (map snd logs) + ae_suppressed s' /\
  match logs with [] => True | (at_, _) :: _ => match ae_logged_at s with Some last => last + 10000 <= at_ | None => True end end /\
  Sorted (fun a b => a.1 + 10000 <= b.1) logs.
Proof.
  induction events as [|[now exhausted] events IH]; intros s; cbn [failures]; [eexists _, _; split_and!; [done|cbn; lia|done|constructor]|].
  unfold failed. destruct (match ae_logged_at s with None => true | Some at_ => 10000 <=? now - at_ end) eqn:E.
  - destruct (IH (mkAcceptErrors (Some now) 0)) as (logs & s' & -> & Hn & Hf & Hs). cbn in *. eexists _, _. split_and!; [done|cbn; lia| |].
    + destruct (ae_logged_at s); [bsimp; lia|done].
    + constructor; [done|]. destruct logs as [|[at_ n] logs]; constructor. done.
  - destruct (IH (mkAcceptErrors (ae_logged_at s) (ae_suppressed s + 1))) as (logs & s' & -> & Hn & Hf & Hs). cbn in *. eexists _, _. split_and!; [done|lia|done|done].
Qed.

(** Failed accepts are logged at most every ten seconds, and every one that is not is counted in a later line. *)
Theorem accept_errors_counted events :
  let '(logs, s) := failures events new_errors in
  Z.of_nat (length events) = Z.of_nat (length logs) + fold_right Z.add 0 (map snd logs) + ae_suppressed s /\ Sorted (fun a b => a.1 + 10000 <= b.1) logs.
Proof. destruct (failures_logged events new_errors) as (logs & s & -> & Hn & _ & Hs). cbn in Hn. split; [lia|done]. Qed.

(** *** Slots *)

Definition slots_ok (limit : nat) (s : Public) : Prop :=
  (open_connections s <= limit)%nat /\ (holding s <= MAX_HANDSHAKES)%nat /\ ((holding s < MAX_HANDSHAKES)%nat -> pb_queue s = []).

(** Nobody waits or holds a slot for longer than the code allows. *)
Definition fresh (now : Z) (s : Public) : Prop :=
  Forall (fun q : nat * Z => now < q.2 + HANDSHAKE_QUEUE_TIMEOUT) (pb_queue s) /\
  Forall (fun h => now < sh_since h + HANDSHAKE_TIMEOUT /\ (sh_holds h = true -> now < sh_since h + HANDSHAKE_SLOT_HOLD)) (pb_shaking s).

Lemma filter_length_le {A} (f : A -> bool) l : (length (List.filter f l) <= length l)%nat.
Proof. induction l as [|x l IH]; cbn; [lia|]. destruct (f x); cbn; lia. Qed.

Lemma filter_Forall {A} (P : A -> Prop) f l : Forall P l -> Forall P (List.filter f l).
Proof. induction 1 as [|x l Hx Hl IH]; cbn; [done|]. destruct (f x); [by constructor|done]. Qed.

Lemma without_length id l : existsb (Nat.eqb id) l = true -> (S (length (without id l)) <= length l)%nat.
Proof.
  induction l as [|x l IH]; cbn; [done|]. destruct (id =? x)%nat eqn:E; cbn.
  - bsimp. subst. rewrite Nat.eqb_refl. cbn. pose proof (filter_length_le (fun y => negb (y =? x)%nat) l). unfold without. lia.
  - intros H. apply IH in H. rewrite Nat.eqb_sym, E. cbn. unfold without in *. lia.
Qed.

Lemma filter_all {A} (f : A -> bool) l : Forall (fun x => f x = true) l -> List.filter f l = l.
Proof. induction 1 as [|x l Hx Hl IH]; cbn; [done|]. by rewrite Hx, IH. Qed.

Lemma grant_ok now limit s :
  (open_connections s <= limit)%nat -> (holding s <= MAX_HANDSHAKES)%nat -> slots_ok limit (grant now s) /\ open_connections (grant now s) = open_connections s.
Proof.
  intros Ho Hh. assert (open_connections (grant now s) = open_connections s) as Eo.
  { unfold open_connections, grant. cbn [pb_hello pb_queue pb_shaking pb_serving pb_relayed]. rewrite length_drop, length_app, length_map, length_take. lia. }
  assert (holding (grant now s) = holding s + Nat.min (MAX_HANDSHAKES - holding s) (length (pb_queue s)))%nat as Eh.
  { unfold holding at 1, grant. cbn [pb_shaking]. rewrite List.filter_app, length_app. fold (holding s). f_equal.
    rewrite filter_all by (apply Forall_forall; by intros h (q & -> & _)%list_elem_of_fmap). by rewrite length_map, length_take. }
  split; [|done]. split_and!; [lia|lia|]. rewrite Eh. intros Hlt. cbn [grant pb_queue]. apply drop_ge. lia.
Qed.

Lemma grant_fresh now s : fresh now s -> fresh now (grant now s).
Proof.
  intros [Hq Hs]. split; cbn [grant pb_queue pb_shaking]; [by apply Forall_drop|]. apply Forall_app. split; [done|].
  apply Forall_forall. intros h (q & -> & _)%list_elem_of_fmap. cbn. unfold HANDSHAKE_TIMEOUT, HANDSHAKE_SLOT_HOLD. lia.
Qed.

Lemma timers_ok now limit s : slots_ok limit s -> slots_ok limit (timers now s) /\ fresh now (timers now s).
Proof.
  intros (Ho & Hh & _). unfold timers. set (shaking := map _ _).
  assert (length shaking <= length (pb_shaking s))%nat as Hl by (unfold shaking; rewrite length_map; apply filter_length_le).
  assert (length (List.filter sh_holds shaking) <= holding s)%nat as Hhold.
  { unfold shaking, holding. generalize (pb_shaking s). intros l. induction l as [|h l IH]; cbn [List.filter map length]; [lia|].
    destruct (now <? sh_since h + HANDSHAKE_TIMEOUT); cbn [map List.filter sh_holds]; destruct (sh_holds h); cbn [andb]; try destruct (now <? sh_since h + HANDSHAKE_SLOT_HOLD); cbn [length]; lia. }
  set (s1 := mkPublic (pb_hello s) (pb_queue s) shaking (pb_serving s) (pb_relayed s) (pb_shed s)).
  destruct (grant_ok now limit s1) as [(Go & Gh & Gq) _]; [unfold open_connections in *; cbn; lia|unfold holding at 1; cbn; lia|].
  split; [split_and!|split]; cbn [pb_queue].
  - etransitivity; [|exact Go]. unfold open_connections. cbn [pb_hello pb_queue pb_shaking pb_serving pb_relayed].
    pose proof (filter_length_le (fun q : nat * Z => now <? q.2 + HANDSHAKE_QUEUE_TIMEOUT) (pb_queue (grant now s1))). lia.
  - exact Gh.
  - intros Hlt. by rewrite Gq.
  - apply Forall_forall. intros q Hq%list_elem_of_In%filter_In. destruct Hq as [_ Hq]. by bsimp.
  - cbn [grant pb_shaking]. apply Forall_app. split.
    + unfold s1. cbn [pb_shaking]. unfold shaking. apply Forall_forall. intros h' (h & -> & Hin%list_elem_of_In%filter_In)%list_elem_of_fmap. cbn. destruct Hin as [_ Hin]. bsimp. split; [done|]. intros H. by bsimp.
    + apply Forall_forall. intros h (q & -> & _)%list_elem_of_fmap. cbn. unfold HANDSHAKE_TIMEOUT, HANDSHAKE_SLOT_HOLD. lia.
Qed.

Lemma public_step_ok limit s e : slots_ok limit s -> slots_ok limit (public_step limit s e) /\ fresh e.2 (public_step limit s e).
Proof.
  intros Hs. destruct e as [e now]. unfold public_step. cbn [fst snd]. destruct (timers_ok now limit s Hs) as [Ht Hf]. clear Hs. set (s1 := timers now s) in *. clearbody s1.
  destruct Ht as (Ho & Hh & Hq). unfold open_connections in Ho.
  destruct e as [id|id hello|id ok|id|]; [| | | |split; [by split_and!|done]].
  - destruct (open_connections s1 <? limit)%nat eqn:E; bsimp; (split; [split_and!|]; try done).
  - destruct (existsb _ _) eqn:E; [|split; [by split_and!|done]]. pose proof (without_length _ _ E) as Hw. destruct hello.
    + match goal with |- slots_ok _ (grant _ ?x) /\ _ => destruct (grant_ok now limit x) as [Hg _] end; [unfold open_connections; cbn; rewrite length_app; cbn; lia|done|]. split; [done|].
      apply grant_fresh. destruct Hf as [H1 H2]. split; [|done]. cbn. apply Forall_app. split; [done|]. repeat constructor. cbn. unfold HANDSHAKE_QUEUE_TIMEOUT. lia.
    + split; [split_and!; try done|done]. unfold open_connections. cbn. lia.
    + split; [split_and!; try done|done]. unfold open_connections. cbn. lia.
  - destruct (existsb _ _) eqn:E; [|split; [by split_and!|done]].
    assert (S (length (List.filter (fun h => negb (sh_id h =? id)%nat) (pb_shaking s1))) <= length (pb_shaking s1))%nat as Hl.
    { clear -E. induction (pb_shaking s1) as [|h l IH]; cbn in *; [done|]. destruct (sh_id h =? id)%nat; cbn in *; [pose proof (filter_length_le (fun h => negb (sh_id h =? id)%nat) l); lia|]. apply IH in E. lia. }
    assert (length (List.filter sh_holds (List.filter (fun h => negb (sh_id h =? id)%nat) (pb_shaking s1))) <= holding s1)%nat as Hl2.
    { unfold holding. generalize (pb_shaking s1). intros l. induction l as [|h l IH]; cbn [List.filter]; [cbn; lia|]. destruct (negb (sh_id h =? id)%nat); cbn [List.filter]; destruct (sh_holds h); cbn [length]; lia. }
    match goal with |- slots_ok _ (grant _ ?x) /\ _ => destruct (grant_ok now limit x) as [Hg _] end; [unfold open_connections; cbn; destruct ok; cbn; lia|unfold holding at 1; cbn; lia|].
    split; [done|]. apply grant_fresh. destruct Hf as [H1 H2]. split; [done|]. cbn. by apply filter_Forall.
  - split; [split_and!; try done|done]. unfold open_connections. cbn. unfold without.
    pose proof (filter_length_le (fun x => negb (x =? id)%nat) (pb_serving s1)). pose proof (filter_length_le (fun x => negb (x =? id)%nat) (pb_relayed s1)). lia.
Qed.

Lemma run_public_ok limit events : slots_ok limit (run_public limit events).
Proof.
  unfold run_public. assert (slots_ok limit no_public) as H0 by (split_and!; cbn; try lia; done). revert H0. generalize no_public.
  induction events as [|e events IH]; intros s Hs; [done|]. cbn [fold_left]. apply IH. by apply public_step_ok.
Qed.

(** *** HTTP connections at a shutdown *)

Definition conn_ok (draining closing : bool) (c : HttpConn) : Prop :=
  (hc_asked c = true -> (0 < hc_active c)%nat /\ draining = true) /\ (closing = true -> hc_asked c = true) /\
  (draining = true -> hc_late c = false -> hc_asked c = true) /\ (hc_late c = true -> closing = false -> hc_answered c = 0%nat -> hc_asked c = false).
Definition shutdown_ok (s : Shutdown) : Prop :=
  (sd_closing s = true -> sd_draining s = true) /\ Forall (conn_ok (sd_draining s) (sd_closing s)) (sd_connections s).

Lemma settle_Forall (P : HttpConn -> Prop) l : Forall (fun c => (hc_asked c = true -> (0 < hc_active c)%nat) -> P c) l -> Forall P (settle l).
Proof.
  induction 1 as [|c l Hc Hl IH]; cbn; [done|]. destruct (hc_asked c && (hc_active c =? 0)%nat) eqn:E; cbn; [done|]. constructor; [|done]. apply Hc.
  intros Ha. rewrite Ha in E. cbn in E. bsimp. lia.
Qed.

Lemma on_conn_Forall (P Q : HttpConn -> Prop) id f l :
  Forall P l -> (forall c, P c -> Q c) -> (forall c c', P c -> f c = Some c' -> Q c') -> Forall Q (on_conn id f l).
Proof.
  intros Hl HPQ Hf. unfold on_conn. induction Hl as [|c l Hc Hl IH]; cbn; [constructor|]. destruct (hc_id c =? id)%nat; [|constructor; auto].
  destruct (f c) as [c'|] eqn:E; [|done]. constructor; eauto.
Qed.

Lemma http_step_ok s e : shutdown_ok s -> shutdown_ok (http_step s e).
Proof.
  intros [Hcd Hl]. destruct e as [id http1|id|id status|id| |]; (split; [try done; exact Hcd|]); cbn [http_step drain close sd_draining sd_closing sd_connections].
  - apply settle_Forall. constructor.
    + cbn. intros Ha. unfold conn_ok. cbn. destruct (sd_closing s); [exfalso; specialize (Ha eq_refl); lia|]. destruct (sd_draining s); naive_solver.
    + eapply Forall_impl; [exact Hl|]. done.
  - eapply on_conn_Forall; [exact Hl|done|]. intros c c' Hc [= <-]. destruct (hc_asked c) eqn:Ea; cbn; [done|].
    case_split; [done|]. destruct Hc as (H1 & H2 & H3 & H4). unfold conn_ok. cbn. rewrite Ea in *. split_and!; [done|auto..].
  - apply settle_Forall. eapply on_conn_Forall; [exact Hl|done|]. intros c c' Hc Hf. destruct (hc_active c =? 0)%nat eqn:E0; [injection Hf as <-; done|].
    unfold respond in Hf. destruct (status =? SWITCHING_PROTOCOLS); [done|]. injection Hf as <-. destruct Hc as (H1 & H2 & H3 & H4). cbn. intros Ha. unfold conn_ok. cbn. split_and!.
    + intros Hasked. split; [by apply Ha|]. apply orb_true_iff in Hasked as [?|?]; [by apply H1|by bsimp].
    + intros Hc. by rewrite H2.
    + intros Hd Hlate. by rewrite H3.
    + done.
  - eapply on_conn_Forall; [exact Hl|done|done].
  - apply settle_Forall. clear -Hl Hcd. induction Hl as [|c l (H1 & H2 & H3 & H4) Hl IH]; cbn; [constructor|]. constructor; [|done]. destruct (hc_late c) eqn:El; intros Ha; unfold conn_ok; cbn in *.
    + split_and!; [by intros Hk; split; [apply Ha|]|done|by rewrite El|by intros _; apply H4].
    + split_and!; [by intros _; split; [apply Ha|]|done|done|by rewrite El].
  - apply settle_Forall. clear. induction (sd_connections s) as [|c l IH]; cbn; [constructor|]. constructor; [|done]. intros Ha. unfold conn_ok. cbn in *. split_and!; [by intros _; split; [apply Ha|]|done|done|done].
Qed.

Lemma run_http_ok events : shutdown_ok (run_http events).
Proof.
  unfold run_http. assert (shutdown_ok no_shutdown) as H0 by (split; [done|constructor]). revert H0. generalize no_shutdown.
  induction events as [|e events IH]; intros s Hs; [done|]. cbn [fold_left]. apply IH. by apply http_step_ok.
Qed.

(** However connections, requests and the steps of a shutdown come: while draining, a connection from before is only open for a request in
    progress; one accepted since keeps open for its first request until the end; once closing, every connection left is in the
    middle of a request, so the wait ends when those are answered. *)
Theorem requests_finish events c :
  let s := run_http events in
  c ∈ sd_connections s ->
  (sd_closing s = true -> (0 < hc_active c)%nat) /\
  (sd_draining s = true -> hc_late c = false -> (0 < hc_active c)%nat) /\
  (sd_closing s = false -> hc_late c = true -> hc_answered c = 0%nat -> hc_asked c = false).
Proof.
  intros s Hc. destruct (run_http_ok events) as [_ Hl]. rewrite Forall_forall in Hl. destruct (Hl _ Hc) as (H1 & H2 & H3 & H4).
  split_and!; [intros; by apply H1, H2|intros; by apply H1, H3|intros; by apply H4].
Qed.

(** *** Telling bridges *)

Lemma chunks_concat {A} n fuel : forall l : list A, (0 < n)%nat -> (length l <= fuel)%nat -> concat (chunks fuel n l) = l.
Proof.
  induction fuel as [|fuel IH]; intros [|x l] Hn Hf; try done; [cbn in Hf; lia|]. cbn [chunks concat]. rewrite IH, take_drop; [done|done|].
  rewrite length_drop. cbn in *. lia.
Qed.

Lemma chunks_bound {A} n fuel : forall l : list A, Forall (fun c => (length c <= n)%nat) (chunks fuel n l).
Proof. induction fuel as [|fuel IH]; intros [|x l]; try by constructor. cbn [chunks]. constructor; [rewrite length_take; lia|apply IH]. Qed.

Lemma chunks_length {A} n fuel : forall l : list A, (0 < n)%nat -> (length (chunks fuel n l) * n < length l + n)%nat.
Proof.
  induction fuel as [|fuel IH]; intros [|x l] Hn; cbn [chunks length]; try lia. specialize (IH (drop n (x :: l)) Hn). rewrite length_drop in IH. cbn [length] in *.
  destruct (Nat.le_gt_cases n (S (length l))); [lia|]. replace (S (length l) - n)%nat with 0%nat in IH by lia.
  rewrite drop_ge in IH |- * by (cbn; lia). destruct fuel; cbn in *; lia.
Qed.

Lemma per_step_pos n : 500 <= per_step n.
Proof. unfold per_step, DRAIN_RATE, DRAIN_STEP, DRAIN_SPREAD. change (5000 * 100 / 1000) with 500. lia. Qed.

Lemma elem_of_drain_plan {A} (bridges : list A) p : p ∈ drain_plan bridges ->
  0 <= p.1 < DRAIN_SPREAD /\ Z.of_nat (length p.2) <= per_step (Z.of_nat (length bridges)).
Proof.
  unfold drain_plan. set (n := Z.to_nat (per_step (Z.of_nat (length bridges)))). pose proof (per_step_pos (Z.of_nat (length bridges))) as Hp.
  intros (i & c & -> & Hc)%elem_of_lookup_imap. cbn [fst snd]. split.
  - apply lookup_lt_Some in Hc. pose proof (chunks_length n (length bridges) bridges) as Hl. unfold DRAIN_STEP, DRAIN_SPREAD.
    assert (Z.of_nat (length bridges) <= 50 * per_step (Z.of_nat (length bridges))) as Hn.
    { unfold per_step, div_ceil, DRAIN_SPREAD, DRAIN_STEP. change (Z.max (5000 / 100) 1) with 50.
      pose proof (Z.div_mod (Z.of_nat (length bridges) + 50 - 1) 50 ltac:(lia)). pose proof (Z.mod_pos_bound (Z.of_nat (length bridges) + 50 - 1) 50 ltac:(lia)). lia. }
    assert (length (chunks (length bridges) n bridges) < 51)%nat; [|lia].
    apply Nat2Z.inj_lt. specialize (Hl ltac:(unfold n; lia)). apply Nat2Z.inj_lt in Hl. rewrite Nat2Z.inj_mul, Nat2Z.inj_add in Hl. unfold n in Hl at 2 3. rewrite Z2Nat.id in Hl by lia. nia.
  - pose proof (chunks_bound n (length bridges) bridges) as Hb. rewrite Forall_forall in Hb. specialize (Hb c (list_elem_of_lookup_2 _ _ _ Hc)). unfold n in Hb. lia.
Qed.

Lemma drain_plan_concat {A} (bridges : list A) : concat (map snd (drain_plan bridges)) = bridges.
Proof.
  unfold drain_plan. pose proof (per_step_pos (Z.of_nat (length bridges))) as Hp.
  set (l := chunks _ _ _). assert (map snd (imap (fun i chunk => (Z.of_nat i * DRAIN_STEP, chunk)) l) = l) as ->.
  { transitivity (imap (fun _ c => c) l); [exact (fmap_imap (fun i chunk => (Z.of_nat i * DRAIN_STEP, chunk)) snd l)|]. transitivity (id <$> l); [exact (imap_const id l)|apply list_fmap_id]. }
  apply chunks_concat; lia.
Qed.

Lemma release_wait_bounds attempts : 0 <= release_wait attempts <= RELEASE_WAIT.
Proof. unfold release_wait, div_ceil, RELEASE_WAIT. Z.div_mod_to_equations. lia. Qed.

(** ** Claims *)

(** C21: whatever connections arrive and however their clients behave: no more public connections are handled than the limit, no more than 256
    TLS handshakes with the API hold a slot, and nobody waits while one is free. At any moment no connection has waited for a
    slot for a second, none has held one for a second, and no handshake has run for ten. *)
Theorem handshake_slots limit events e now :
  let s := run_public limit (events ++ [(e, now)]) in
  (open_connections s <= limit)%nat /\ (holding s <= MAX_HANDSHAKES)%nat /\ ((holding s < MAX_HANDSHAKES)%nat -> pb_queue s = []) /\
  Forall (fun q : nat * Z => now < q.2 + HANDSHAKE_QUEUE_TIMEOUT) (pb_queue s) /\
  Forall (fun h => now < sh_since h + HANDSHAKE_TIMEOUT /\ (sh_holds h = true -> now < sh_since h + HANDSHAKE_SLOT_HOLD)) (pb_shaking s).
Proof.
  intros s. unfold s, run_public. rewrite fold_left_app. cbn [fold_left]. destruct (public_step_ok limit _ (e, now) (run_public_ok limit events)) as [(H1 & H2 & H3) [H4 H5]]. done.
Qed.

(** a shutdown moves the bridges before it closes the door. Unless a second signal comes, with five seconds to drain every bridge is told
    to reconnect exactly once, while the public listeners still accept, after the other machines were told to stop forwarding
    here; at most as many at a time as fifty steps need, but no fewer than five hundred; and leases are released and the mesh is left only after the listeners closed. *)
Theorem shutdown_order {A} (e : Ending) (bridges : list A) :
  en_second e = None -> DRAIN_SPREAD <= en_drain e -> 0 <= en_close e ->
  concat (omap (fun a => match a.2 with TellBridges l => Some l | _ => None end) (shutdown e bridges)) = bridges /\
  Forall (fun a => match a.2 with
                   | TellBridges l => 0 <= a.1 < en_drain e /\ Z.of_nat (length l) <= Z.max 500 (div_ceil (Z.of_nat (length bridges)) 50)
                   | CloseTls | CloseHttp | CloseConnections => a.1 = en_drain e
                   | ReleaseLeases | CloseInternal | HaltMesh => en_drain e <= a.1 <= en_drain e + CLOSE_TIMEOUT + RELEASE_WAIT
                   | StopJobs | LeaveMesh | DrainHttp => a.1 = 0
                   end) (shutdown e bridges) /\
  (en_cluster e = true -> exists l1 l2, shutdown e bridges = l1 ++ (0, LeaveMesh) :: l2 /\ Forall (fun a => match a.2 with TellBridges _ => False | _ => True end) l1).
Proof.
  intros Hs Hd Hc. assert (listeners_close e = en_drain e) as El by (unfold listeners_close; by rewrite Hs).
  assert (List.filter (fun p : Z * list A => p.1 <? exits e) (drain_plan bridges) = drain_plan bridges) as Ef.
  { apply filter_all, Forall_forall. intros p [Hp _]%elem_of_drain_plan. apply Z.ltb_lt. pose proof (release_wait_bounds (en_attempts e)). unfold exits, connections_closed. rewrite El. unfold CLOSE_TIMEOUT. lia. }
  assert (forall l : list (Z * list A), omap (fun a : Z * Action A => match a.2 with TellBridges l => Some l | _ => None end) (map (fun p => (p.1, TellBridges p.2)) l) = map snd l) as Eo.
  { induction l as [|p l IH]; [done|]. cbn. by rewrite <- IH. }
  pose proof (release_wait_bounds (en_attempts e)).
  assert (en_drain e <= exits e <= en_drain e + CLOSE_TIMEOUT + RELEASE_WAIT) as Hex by (unfold exits, connections_closed; rewrite El; unfold CLOSE_TIMEOUT; lia).
  split_and!.
  - unfold shutdown. rewrite Ef, !omap_app, !concat_app, Eo, drain_plan_concat. destruct (en_cluster e), (en_http e), (en_internal e); cbn; by rewrite app_nil_r.
  - unfold shutdown. rewrite Ef, El. repeat (apply Forall_app; split); try (apply Forall_singleton; cbn; done || lia);
      try (match goal with |- Forall _ (if ?b then _ else _) => destruct b end; [apply Forall_singleton; cbn; done || lia|constructor]).
    apply Forall_forall. intros a (p & -> & Hp)%list_elem_of_fmap. apply elem_of_drain_plan in Hp as [Ht Hl]. cbn. split; [lia|].
    unfold per_step, DRAIN_RATE, DRAIN_SPREAD, DRAIN_STEP in Hl. change (5000 * 100 / 1000) with 500 in Hl. change (Z.max (5000 / 100) 1) with 50 in Hl. lia.
  - intros Hcl. unfold shutdown. rewrite Hcl. eexists [(0, StopJobs)], _. split; [reflexivity|]. by repeat constructor.
Qed.

Lemma shutdown_order_witness : concat (omap (fun a => match a.2 with TellBridges l => Some l | _ => None end) (shutdown (mkEnding 10000 true true true None 20 30) (seq 0 1200))) = seq 0 1200.
Proof. apply (shutdown_order (mkEnding 10000 true true true None 20 30) (seq 0 1200)); [reflexivity|unfold DRAIN_SPREAD; cbn; lia|cbn; lia]. Defined.

(** The address other machines are told is never the unspecified one, and on a private network the one bound is that network's. *)
Theorem advertised_reachable private_ip resolved bound :
  (is_unspecified (ip resolved) = true -> forall private, private_ip = Some private -> ip (bind_address private_ip resolved) = private) /\
  exists a, advertised_address None bound = addr_string a /\ is_unspecified (ip a) = false /\ port a = port bound.
Proof.
  split; [intros Hu private ->; cbn; by rewrite Hu|]. cbn. destruct (is_unspecified (ip bound)) eqn:E; [|by exists bound].
  eexists. split; [done|]. cbn. by destruct (ip bound).
Qed.
