(* ===== verification/Notices.v ===== *)
(** * Notices: what a machine does about what other machines tell it, [cluster.rs], [service.rs] and [store.rs]

    Every notice of the mesh starts tasks that take their steps between each other's, the machine's own operations on its entries
    and the writes of every server. The statements every server ran are kept as a history. *)

From Stdlib Require Import ZArith Lia Ascii String List.
From stdpp Require Import base list strings gmap.
From S2P Require Import Prelude Text Names Record Mesh Store Bridges Service Server.

(** [mesh::Notice] *)
Inductive Notice := NEvent (event : Event) | NLinkUp.

(** A spawned task: where it is. *)
Inductive Task :=
| TExpire (tunnel : string)
| TConfirm (tunnel : string)
| TClose (tunnel : string)
| TSleep (until : Z)
| TAwake
| TGather (rest live : list string)
| TAsk (rest : list (list string)) (deleted : list string)
| TCloseAll (ids : list string).

Record Machine := mkMachine {
  ma_entries : gmap string Cache;
  ma_generation : Z;
  ma_jobs_notified : nat;
  ma_reconcile_queued : bool;
  ma_tasks : list Task;
  ma_log : list Stmt;
  ma_db : Db;
}.

Definition new_machine (entries : gmap string Cache) (d : Db) : Machine := mkMachine entries 0 0 false [] [] d.

Definition spawn (t : Task) (s : Machine) : Machine :=
  mkMachine (ma_entries s) (ma_generation s) (ma_jobs_notified s) (ma_reconcile_queued s) (ma_tasks s ++ [t]) (ma_log s) (ma_db s).
Definition set_queued (q : bool) (s : Machine) : Machine :=
  mkMachine (ma_entries s) (ma_generation s) (ma_jobs_notified s) q (ma_tasks s) (ma_log s) (ma_db s).
Definition set_entries (m : gmap string Cache) (s : Machine) : Machine :=
  mkMachine m (ma_generation s) (ma_jobs_notified s) (ma_reconcile_queued s) (ma_tasks s) (ma_log s) (ma_db s).
Definition set_tasks (l : list Task) (s : Machine) : Machine :=
  mkMachine (ma_entries s) (ma_generation s) (ma_jobs_notified s) (ma_reconcile_queued s) l (ma_log s) (ma_db s).

(** [forget_cached_answers] and [jobs.notify_one]. *)
Definition forget_cached_answers (s : Machine) : Machine :=
  mkMachine (ma_entries s) ((ma_generation s + 1) mod 2 ^ 64) (ma_jobs_notified s) (ma_reconcile_queued s) (ma_tasks s) (ma_log s) (ma_db s).
Definition notify_jobs (s : Machine) : Machine :=
  mkMachine (ma_entries s) (ma_generation s) (S (ma_jobs_notified s)) (ma_reconcile_queued s) (ma_tasks s) (ma_log s) (ma_db s).

(** [close_deleted] of one entry, if the tunnel has one here. *)
Definition close_deleted (c : Cache) : Cache := with_loaded false (with_record None 0 (with_tunnel (Bridges.close_deleted (ca_tunnel c)).2 c)).
Definition close_entry (id : string) (s : Machine) : Machine :=
  match ma_entries s !! id with
  | None => s
  | Some c =>
      mkMachine (<[id := close_deleted c]> (ma_entries s)) (ma_generation s) (ma_jobs_notified s) (ma_reconcile_queued s) (ma_tasks s)
        (ma_log s) (ma_db s)
  end.

Definition RECONCILE_DELAY : Z := 500.
Definition DELETED_CHUNK : nat := 500.

(** What a row says, and whether an entry has an attached bridge. *)
Definition deleted_in (d : Db) (id : string) : bool := bool_decide (t_deleted <$> tunnels d !! id = Some true).
Definition attached_in (entries : gmap string Cache) (id : string) : bool :=
  match entries !! id with Some c => negb (bool_decide (attached_bridges (ca_tunnel c) = [])) | None => false end.

(** One notice of [run_notices]. *)
Definition on_notice (now : Z) (n : Notice) (s : Machine) : Machine :=
  match n with
  | NEvent (TunnelCreated tunnel) | NEvent (CertificateChanged tunnel) => spawn (TExpire tunnel) s
  | NEvent (TunnelDeleted tunnel) => spawn (TConfirm tunnel) s
  | NEvent JobEnqueued => notify_jobs s
  | NEvent Leaving | NEvent UnknownEvent => s
  | NLinkUp =>
      let s := forget_cached_answers s in
      if ma_reconcile_queued s then s else spawn (TSleep (now + RECONCILE_DELAY)) (set_queued true s)
  end.

(** The next step of a task at a time; [ok] says whether its statement is answered. [None]: the task is over. *)
Definition task_step (now : Z) (ok : bool) (t : Task) (s : Machine) : option Task * Machine :=
  match t with
  | TExpire id => (None, set_entries (alter expired id (ma_entries s)) s)
  | TConfirm id => (if ok && deleted_in (ma_db s) id then Some (TClose id) else None, s)
  | TClose id => (None, close_entry id s)
  | TSleep until => if now <? until then (Some t, s) else (Some TAwake, set_queued false s)
  | TAwake => (Some (TGather (map fst (map_to_list (ma_entries s))) []), s)
  | TGather [] live => (if bool_decide (live = []) then None else Some (TAsk (chunks (length live) DELETED_CHUNK live) []), s)
  | TGather (id :: rest) live => (Some (TGather rest (if attached_in (ma_entries s) id then live ++ [id] else live)), s)
  | TAsk [] deleted => (Some (TCloseAll deleted), s)
  | TAsk (chunk :: rest) deleted => (if ok then Some (TAsk rest (deleted ++ List.filter (deleted_in (ma_db s)) chunk)) else None, s)
  | TCloseAll [] => (None, s)
  | TCloseAll (id :: ids) => (Some (TCloseAll ids), close_entry id s)
  end.

Definition put_task (i : nat) (t : option Task) (s : Machine) : Machine :=
  set_tasks (match t with Some t => <[i := t]> (ma_tasks s) | None => delete i (ma_tasks s) end) s.

Inductive NoticeEvent :=
| EvNotice (now : Z) (n : Notice)
| EvTask (i : nat) (now : Z) (ok : bool)
| EvStmt (stmt : Stmt)
| EvEntry (id : string) (c : Cache).

Definition notice_step (s : Machine) (e : NoticeEvent) : Machine :=
  match e with
  | EvNotice now n => on_notice now n s
  | EvTask i now ok =>
      match ma_tasks s !! i with
      | None => s
      | Some t => let '(t', s') := task_step now ok t s in put_task i t' s'
      end
  | EvStmt stmt =>
      mkMachine (ma_entries s) (ma_generation s) (ma_jobs_notified s) (ma_reconcile_queued s) (ma_tasks s) (ma_log s ++ [stmt]) (fst (exec stmt (ma_db s)))
  | EvEntry id c => set_entries (<[id := c]> (ma_entries s)) s
  end.

Definition run_notices (events : list NoticeEvent) (s : Machine) : Machine := fold_left notice_step events s.

(** ** The invariant *)

Definition is_sleep (t : Task) : bool := match t with TSleep _ => true | _ => false end.

Section Invariant.
Context (d0 : Db).

(** The row said so at some moment of the history. *)
Definition was_deleted (log : list Stmt) (id : string) : Prop := exists k, (k <= length log)%nat /\ deleted_in (run (take k log) d0) id = true.

Definition task_ok (log : list Stmt) (t : Task) : Prop :=
  match t with
  | TClose id => was_deleted log id
  | TAsk _ l | TCloseAll l => Forall (was_deleted log) l
  | _ => True
  end.

Record machine_ok (s : Machine) : Prop := mkMachineOk {
  mk_db : ma_db s = run (ma_log s) d0;
  mk_tasks : Forall (task_ok (ma_log s)) (ma_tasks s);
  mk_queued : length (List.filter is_sleep (ma_tasks s)) = if ma_reconcile_queued s then 1%nat else 0%nat;
}.

Lemma was_deleted_mono log more id : was_deleted log id -> was_deleted (log ++ more) id.
Proof. intros (k & Hk & Hd). exists k. rewrite length_app, take_app_le by done. split; [lia|done]. Qed.
Lemma task_ok_mono log more t : task_ok log t -> task_ok (log ++ more) t.
Proof. destruct t; cbn; try done; [apply was_deleted_mono|..]; intros H; eapply Forall_impl; try done; intros; by apply was_deleted_mono. Qed.
Lemma deleted_now s id : machine_ok s -> deleted_in (ma_db s) id = true -> was_deleted (ma_log s) id.
Proof. intros [Hdb _ _] Hd. exists (length (ma_log s)). split; [done|]. by rewrite firstn_all, <- Hdb. Qed.

Lemma close_entry_ok id s : machine_ok s -> machine_ok (close_entry id s).
Proof. intros [Hdb Ht Hq]. unfold close_entry. destruct (ma_entries s !! id); by constructor. Qed.
Lemma close_entry_same id s : ma_tasks (close_entry id s) = ma_tasks s /\ ma_log (close_entry id s) = ma_log s /\ ma_reconcile_queued (close_entry id s) = ma_reconcile_queued s.
Proof. unfold close_entry. by destruct (ma_entries s !! id). Qed.

Lemma on_notice_ok now n s : machine_ok s -> machine_ok (on_notice now n s).
Proof.
  intros [Hdb Ht Hq].
  destruct n as [[]|]; cbn; try (constructor; cbn; try done; [apply Forall_app; by repeat constructor|by rewrite List.filter_app, length_app, Hq; cbn; lia]).
  - by constructor.
  - by constructor.
  - by constructor.
  - destruct (ma_reconcile_queued s) eqn:Eq.
    + constructor; cbn; try done. by rewrite Eq.
    + constructor; cbn; try done; [apply Forall_app; by repeat constructor|]. by rewrite List.filter_app, length_app, Hq.
Qed.

(** A task that takes the place of another, or none. *)
Lemma put_task_ok i t t' s s' :
  ma_tasks s !! i = Some t -> machine_ok s' -> ma_tasks s' = ma_tasks s ->
  (match t' with Some u => task_ok (ma_log s') u | None => True end) -> (match t' with Some u => is_sleep u | None => false end = is_sleep t) -> machine_ok (put_task i t' s').
Proof.
  intros Hi [Hdb Ht Hq] E Hok Hs. rewrite E in *. destruct (lookup_split _ _ _ Hi) as (l1 & l2 & El & Hins & Hdel).
  unfold put_task. rewrite E. rewrite El in Ht, Hq. apply Forall_app in Ht as [H1 [H2 H3]%Forall_cons].
  rewrite List.filter_app, length_app in Hq. cbn [List.filter] in Hq.
  constructor; cbn; try done.
  - destruct t' as [u|]; [rewrite Hins|rewrite Hdel]; apply Forall_app; split; try done. by constructor.
  - rewrite <- Hq. destruct t' as [u|]; [rewrite Hins|rewrite Hdel]; rewrite List.filter_app, length_app; cbn [List.filter]; [rewrite Hs; by destruct (is_sleep t)|by rewrite <- Hs].
Qed.

Lemma task_step_ok i now ok t s : machine_ok s -> ma_tasks s !! i = Some t -> machine_ok (notice_step s (EvTask i now ok)).
Proof.
  intros Hs Hi. cbn. rewrite Hi. pose proof (Forall_lookup_1 _ _ _ _ (mk_tasks s Hs) Hi) as Ht.
  destruct t as [id|id|id|until| |[|id rest] live|[|chunk rest] deleted|[|id ids]]; cbn [task_step].
  - eapply put_task_ok; [done|destruct Hs; by constructor|done..].
  - destruct ok; cbn [andb]; [destruct (deleted_in (ma_db s) id) eqn:Ed|]; eapply put_task_ok; try done. by eapply deleted_now.
  - destruct (close_entry_same id s) as (? & ? & ?). eapply put_task_ok; [done|by apply close_entry_ok|done..].
  - destruct (now <? until); [by eapply put_task_ok|]. destruct (lookup_split _ _ _ Hi) as (l1 & l2 & El & Hins & _). destruct Hs as [Hdb Hts Hq].
    unfold put_task. cbn. rewrite Hins. rewrite El, List.filter_app, length_app in Hq. cbn in Hq. rewrite El in Hts. apply Forall_app in Hts as [? [? ?]%Forall_cons].
    constructor; cbn; try done; [apply Forall_app; split; [done|by constructor]|]. rewrite List.filter_app, length_app. cbn. destruct (ma_reconcile_queued s); lia.
  - by eapply put_task_ok.
  - destruct (bool_decide (live = [])); eapply put_task_ok; try done. constructor.
  - by eapply put_task_ok.
  - by eapply put_task_ok.
  - destruct ok; eapply put_task_ok; try done. cbn in *. apply Forall_app. split; [done|]. apply List.Forall_forall.
    intros id [_ Hd]%filter_In. by eapply deleted_now.
  - by eapply put_task_ok.
  - apply Forall_cons in Ht as [Hid Ht]. destruct (close_entry_same id s) as (? & El & ?). eapply put_task_ok; [done|by apply close_entry_ok|done| |done].
    rewrite El. exact Ht.
Qed.

Lemma notice_step_ok s e : machine_ok s -> machine_ok (notice_step s e).
Proof.
  intros Hs. destruct e as [now n|i now ok|stmt|id c].
  - by apply on_notice_ok.
  - destruct (ma_tasks s !! i) as [t|] eqn:Ei; [by eapply task_step_ok|]. cbn. by rewrite Ei.
  - destruct Hs as [Hdb Ht Hq]. constructor; cbn; try done.
    + unfold run. rewrite fold_left_app. cbn. by rewrite Hdb.
    + eapply Forall_impl; [done|]. intros. by apply task_ok_mono.
  - destruct Hs. by constructor.
Qed.

Lemma run_notices_ok events : forall s, machine_ok s -> machine_ok (run_notices events s).
Proof. induction events as [|e events IH]; intros s Hs; [done|]. by apply IH, notice_step_ok. Qed.
End Invariant.

(** ** A check covers what it has still to look at *)

(** The task will still close the tunnel's bridges, if its row says deleted and it has a live bridge here when looked at. *)
Definition covers (id : string) (t : Task) : Prop :=
  match t with
  | TSleep _ | TAwake => True
  | TGather rest live => id ∈ rest \/ id ∈ live
  | TAsk rest deleted => id ∈ concat rest \/ id ∈ deleted
  | TCloseAll ids => id ∈ ids
  | _ => False
  end.

Definition covered (id : string) (s : Machine) : Prop := exists t, t ∈ ma_tasks s /\ covers id t.

(** What a deletion does to a bridge: the server's close is on it and in its queue if there is room, and every connection ended as
    deleted. *)
Record bridge_deleted (b b' : Bridge) : Prop := mkBridgeDeleted {
  bd_id : br_id b' = br_id b;
  bd_close : bs_server_close (br_state b') = Some 1000;
  bd_told : (length (br_queue b) < OUTBOUND_QUEUE)%nat -> OClose 1000 "deleted" ∈ br_queue b';
  bd_channels : br_channels b' = ∅;
  bd_finished : forall conn f, br_channels b !! conn = Some f -> (conn, finish Deleted true f) ∈ br_finished b';
}.

(** Between two states of the machine every bridge of the tunnel was closed, and its record forgotten. *)
Definition closed_as_deleted (id : string) (s s' : Machine) : Prop :=
  exists c c', ma_entries s !! id = Some c /\ ma_entries s' !! id = Some c' /\
    Forall2 bridge_deleted (tn_bridges (ca_tunnel c)) (tn_bridges (ca_tunnel c')) /\ tn_record (ca_tunnel c') = None /\ ca_loaded c' = false.

Lemma close_deleted_bridge b : bridge_deleted b (Bridges.close 1000 "deleted" (finish_channels Deleted b)).
Proof.
  assert (forall conn f, br_channels b !! conn = Some f -> (conn, finish Deleted true f) ∈ br_finished (finish_channels Deleted b)) as Hf.
  { intros conn f Hf. cbn. apply elem_of_app. right. apply list_elem_of_fmap. exists (conn, f). split; [done|]. by apply elem_of_map_to_list. }
  unfold Bridges.close, try_send. cbn [br_queue set_bstate finish_channels set_channels].
  destruct (length (br_queue b) <? OUTBOUND_QUEUE)%nat eqn:E; bsimp; constructor; cbn; try done; try lia.
  intros _. apply elem_of_app. right. by apply list_elem_of_singleton.
Qed.

Lemma close_entry_closes id s : attached_in (ma_entries s) id = true -> closed_as_deleted id s (close_entry id s).
Proof.
  unfold attached_in, closed_as_deleted, close_entry. destruct (ma_entries s !! id) as [c|] eqn:E; [|done]. intros _. exists c, (close_deleted c). cbn.
  rewrite lookup_insert_eq. split_and!; try done. induction (tn_bridges (ca_tunnel c)); constructor; [apply close_deleted_bridge|done].
Qed.

(** A step of the task that covers a tunnel closes it, or a task still covers it. *)
Lemma task_step_covers now t s t' s' id :
  task_step now true t s = (t', s') -> attached_in (ma_entries s) id = true -> deleted_in (ma_db s) id = true ->
  covers id t -> closed_as_deleted id s s' \/ exists u, t' = Some u /\ covers id u.
Proof.
  intros Ht Ha Hd Hc. destruct t as [x|x|x|until| |[|x rest] live|[|chunk rest] deleted|[|x ids]]; cbn [task_step] in Ht; try done.
  - destruct (now <? until); injection Ht as <- <-; right; by eexists.
  - injection Ht as <- <-. right. eexists. split; [done|]. left. unfold attached_in in Ha. destruct (ma_entries s !! id) as [c|] eqn:E; [|done].
    apply list_elem_of_fmap. exists (id, c). split; [done|]. by apply elem_of_map_to_list.
  - destruct Hc as [Hc|Hc]; [by apply elem_of_nil in Hc|]. case_bool_decide as E; injection Ht as <- <-; [subst; by apply elem_of_nil in Hc|].
    right. eexists. split; [done|]. left. rewrite chunks_concat; [done|unfold DELETED_CHUNK; lia|done].
  - injection Ht as <- <-. right. eexists. split; [done|]. cbn. destruct Hc as [[->|Hc]%elem_of_cons|Hc]; [|by left|].
    + right. rewrite Ha. apply elem_of_app. right. by apply list_elem_of_singleton.
    + right. destruct (attached_in (ma_entries s) x); [|done]. apply elem_of_app. by left.
  - injection Ht as <- <-. right. eexists. split; [done|]. destruct Hc as [Hc|Hc]; [by apply elem_of_nil in Hc|done].
  - injection Ht as <- <-. right. eexists. split; [done|]. cbn in Hc |- *. destruct Hc as [[Hc|Hc]%elem_of_app|Hc]; [|by left|].
    + right. apply elem_of_app. right. apply list_elem_of_In, filter_In. split; [by apply list_elem_of_In|done].
    + right. apply elem_of_app. by left.
  - by apply elem_of_nil in Hc.
  - injection Ht as <- <-. apply elem_of_cons in Hc as [->|Hc]; [left; by apply close_entry_closes|right; by eexists].
Qed.

Lemma task_step_tasks now ok t s t' s' : task_step now ok t s = (t', s') -> ma_tasks s' = ma_tasks s.
Proof.
  assert (forall x, ma_tasks (close_entry x s) = ma_tasks s) as Hx by (intros x; apply close_entry_same).
  destruct t as [x|x|x|until| |[|x rest] live|[|chunk rest] deleted|[|x ids]]; cbn [task_step]; try (by intros [= <- <-]).
  destruct (now <? until); by intros [= <- <-].
Qed.

Lemma put_task_tasks i t t' s s' :
  ma_tasks s !! i = Some t -> ma_tasks s' = ma_tasks s ->
  exists l1 l2, ma_tasks s = l1 ++ t :: l2 /\ ma_tasks (put_task i t' s') = l1 ++ match t' with Some u => [u] | None => [] end ++ l2.
Proof.
  intros Hi E. destruct (lookup_split _ _ _ Hi) as (l1 & l2 & El & Hins & Hdel). exists l1, l2. split; [done|].
  unfold put_task. cbn. rewrite E. destruct t'; cbn; [apply Hins|apply Hdel].
Qed.

Lemma notice_step_covered s e id :
  attached_in (ma_entries s) id = true -> deleted_in (ma_db s) id = true -> (match e with EvTask _ _ ok => ok = true | _ => True end) ->
  covered id s -> closed_as_deleted id s (notice_step s e) \/ covered id (notice_step s e).
Proof.
  intros Ha Hd He Hp. destruct e as [now m|i now ok|stmt|x c].
  - right. assert (exists l, ma_tasks (on_notice now m s) = ma_tasks s ++ l) as (l & El).
    { destruct m as [[]|]; cbn; try (by eexists); try (exists []; by rewrite app_nil_r).
      destruct (ma_reconcile_queued s); [exists []; by rewrite app_nil_r|by eexists]. }
    unfold covered. cbn [notice_step]. rewrite El. destruct Hp as (t & Ht & Hc). exists t. split; [|done]. apply elem_of_app. by left.
  - cbn [notice_step]. subst ok. destruct (ma_tasks s !! i) as [t|] eqn:Ei; [|by right].
    destruct (task_step now true t s) as [t' s'] eqn:Et. pose proof (task_step_tasks _ _ _ _ _ _ Et) as E.
    destruct (put_task_tasks _ _ t' _ _ Ei E) as (l1 & l2 & El & Etasks).
    unfold covered. rewrite Etasks. destruct Hp as (u & Hu & Hc). rewrite El in Hu. apply elem_of_app in Hu as [Hu|[->|Hu]%elem_of_cons].
    + right. exists u. split; [|done]. apply elem_of_app. by left.
    + destruct (task_step_covers _ _ _ _ _ _ Et Ha Hd Hc) as [H|(w & -> & Hw)]; [by left|]. right. exists w. split; [|done].
      apply elem_of_app. right. apply elem_of_cons. by left.
    + right. exists u. split; [|done]. apply elem_of_app. right. apply elem_of_app. by right.
  - by right.
  - by right.
Qed.

(** From a moment a task covers the tunnel: it has no live bridge at some moment, is closed at some step, or is still covered. *)
Lemma run_covered id more : forall s,
  (forall n, (n <= length more)%nat -> deleted_in (ma_db (run_notices (take n more) s)) id = true) ->
  Forall (fun e => match e with EvTask _ _ ok => ok = true | _ => True end) more -> covered id s ->
  (exists n, (n < length more)%nat /\ (attached_in (ma_entries (run_notices (take n more) s)) id = false \/
     closed_as_deleted id (run_notices (take n more) s) (run_notices (take (S n) more) s))) \/ covered id (run_notices more s).
Proof.
  induction more as [|e more IH]; intros s Hd Hok Hc; [by right|]. apply Forall_cons in Hok as [He Hok].
  destruct (attached_in (ma_entries s) id) eqn:Ha; [|left; exists 0%nat; split; [cbn; lia|by left]].
  destruct (notice_step_covered s e id Ha (Hd 0%nat ltac:(lia)) He Hc) as [H|H]; [left; exists 0%nat; split; [cbn; lia|by right]|].
  destruct (IH (notice_step s e)) as [(n & Hn & Hcl)|Hcov]; [|done..| |by right].
  - intros n Hn. apply (Hd (S n)). cbn. lia.
  - left. exists (S n). split; [cbn; lia|]. exact Hcl.
Qed.

(** A tunnel has no live bridge here. *)
Definition no_live_bridge (id : string) (s : Machine) : Prop :=
  forall c b, ma_entries s !! id = Some c -> b ∈ tn_bridges (ca_tunnel c) -> is_attached b = false.

Lemma attached_in_false id s : attached_in (ma_entries s) id = false -> no_live_bridge id s.
Proof.
  unfold attached_in, no_live_bridge. intros H c b Hc Hb. rewrite Hc in H. apply negb_false_iff, bool_decide_eq_true in H.
  apply not_true_is_false. intros Ha. assert (b ∈ attached_bridges (ca_tunnel c)) as Hin by (by apply list_elem_of_filter). rewrite H in Hin. by apply elem_of_nil in Hin.
Qed.

Lemma new_machine_ok entries d : machine_ok d (new_machine entries d).
Proof. by constructor; cbn. Qed.

Definition bridges_of (s : Machine) (id : string) : option (list Bridge) := (fun c => tn_bridges (ca_tunnel c)) <$> ma_entries s !! id.

(** Only a close changes the bridges of an entry, of a tunnel whose row said deleted. *)
Lemma task_step_bridges d now ok t s t' s' id :
  task_ok d (ma_log s) t -> task_step now ok t s = (t', s') -> bridges_of s' id <> bridges_of s id -> was_deleted d (ma_log s') id.
Proof.
  assert (forall x, was_deleted d (ma_log s) x -> bridges_of (close_entry x s) id <> bridges_of s id -> was_deleted d (ma_log (close_entry x s)) id) as Hx.
  { intros x Hd. destruct (close_entry_same x s) as (_ & -> & _). unfold bridges_of, close_entry. destruct (ma_entries s !! x) as [c|] eqn:E; [|done]. cbn.
    intros Hne. destruct (decide (id = x)) as [->|Hn]; [done|]. destruct Hne. by rewrite lookup_insert_ne. }
  intros Hok Ht Hb. destruct t as [x|x|x|until| |[|x rest] live|[|chunk rest] deleted|[|x ids]]; cbn [task_step] in Ht; try (injection Ht as <- <-; by auto).
  - injection Ht as <- <-. destruct Hb. unfold bridges_of. cbn. destruct (decide (id = x)) as [->|Hn]; [|by rewrite lookup_alter_ne].
    rewrite lookup_alter_eq. by destruct (ma_entries s !! x).
  - destruct (now <? until); injection Ht as <- <-; done.
  - injection Ht as <- <-. apply Forall_cons in Hok as [Hd _]. by apply Hx.
Qed.

(** The steps a task may still take, with [n] entries on the machine. *)
Definition task_left (n : nat) (t : Task) : nat :=
  match t with
  | TExpire _ | TClose _ => 1
  | TConfirm _ => 2
  | TSleep _ => 5 + 3 * n
  | TAwake => 4 + 3 * n
  | TGather rest live => 3 + 3 * length rest + 2 * length live
  | TAsk rest deleted => 2 + length rest + length (concat rest) + length deleted
  | TCloseAll ids => 1 + length ids
  end.

Lemma chunks_len {A} n fuel : forall l : list A, (0 < n)%nat -> (length (chunks fuel n l) <= length l)%nat.
Proof.
  induction fuel as [|fuel IH]; intros [|x l] Hn; cbn [chunks length]; try lia. specialize (IH (drop n (x :: l)) Hn). rewrite length_drop in IH. cbn [length] in IH. lia.
Qed.

Lemma close_entry_size id s : size (ma_entries (close_entry id s)) = size (ma_entries s).
Proof.
  unfold close_entry. destruct (ma_entries s !! id) as [c|] eqn:E; [|done]. cbn. by rewrite map_size_insert_Some.
Qed.

Lemma task_step_left now ok t s t' s' :
  task_step now ok t s = (t', s') -> (match t with TSleep until => until <= now | _ => True end) ->
  size (ma_entries s') = size (ma_entries s) /\ (match t' with Some u => task_left (size (ma_entries s)) u | None => 0 end < task_left (size (ma_entries s)) t)%nat.
Proof.
  intros Ht Hw. destruct t as [x|x|x|until| |[|x rest] live|[|chunk rest] deleted|[|x ids]]; cbn [task_step] in Ht.
  - injection Ht as <- <-. cbn. split; [|lia]. rewrite <- !size_dom. by rewrite dom_alter_L.
  - injection Ht as <- <-. split; [done|]. destruct (ok && deleted_in (ma_db s) x); cbn; lia.
  - injection Ht as <- <-. rewrite close_entry_size. cbn. split; [done|lia].
  - destruct (now <? until) eqn:E; bsimp; [lia|]. injection Ht as <- <-. cbn. split; [done|lia].
  - injection Ht as <- <-. split; [done|]. cbn. rewrite length_map, length_map_to_list. lia.
  - injection Ht as <- <-. split; [done|]. case_bool_decide; cbn; [lia|].
    pose proof (chunks_len DELETED_CHUNK (length live) live). unfold DELETED_CHUNK in *. rewrite chunks_concat; [lia|lia|done].
  - injection Ht as <- <-. split; [done|]. cbn. destruct (attached_in _ _); rewrite ?length_app; cbn; lia.
  - injection Ht as <- <-. split; [done|]. cbn. lia.
  - injection Ht as <- <-. split; [done|]. destruct ok; cbn; [|lia]. rewrite !length_app. pose proof (filter_length_le (deleted_in (ma_db s)) chunk). lia.
  - injection Ht as <- <-. cbn. split; [done|lia].
  - injection Ht as <- <-. rewrite close_entry_size. cbn. split; [done|lia].
Qed.

(** Steps of the tasks alone: each is of a task there is, a sleeping one's once its time has come. *)
Fixpoint run_tasks (steps : list (nat * Z * bool)) (s : Machine) : option Machine :=
  match steps with
  | [] => Some s
  | (i, now, ok) :: steps' =>
      match ma_tasks s !! i with
      | Some t =>
          if match t with TSleep until => until <=? now | _ => true end then run_tasks steps' (notice_step s (EvTask i now ok)) else None
      | None => None
      end
  end.
Definition work (s : Machine) : nat := list_sum (map (task_left (size (ma_entries s))) (ma_tasks s)).

(** ** Claims *)

(** Every task ends: however they are scheduled and whatever is answered, the tasks of a machine have at most [work] steps left. *)
Theorem tasks_end steps : forall s s', run_tasks steps s = Some s' -> (length steps + work s' <= work s)%nat.
Proof.
  induction steps as [|[[i now] ok] steps IH]; intros s s'; cbn [run_tasks]; [intros [= <-]; cbn; lia|].
  destruct (ma_tasks s !! i) as [t|] eqn:Ei; [|done]. destruct (match t with TSleep until => until <=? now | _ => true end) eqn:Ew; [|done].
  intros H%IH. cbn [length]. enough (work (notice_step s (EvTask i now ok)) < work s)%nat by lia. cbn [notice_step]. rewrite Ei.
  destruct (task_step now ok t s) as [t' s1] eqn:Et. pose proof (task_step_tasks _ _ _ _ _ _ Et) as E.
  destruct (task_step_left _ _ _ _ _ _ Et) as [Hsize Hlt]; [destruct t; bsimp; lia || done|].
  destruct (put_task_tasks _ _ t' _ _ Ei E) as (l1 & l2 & El & Etasks). unfold work. rewrite Etasks, El. change (ma_entries (put_task i t' s1)) with (ma_entries s1).
  rewrite Hsize. clear -Hlt. set (f := task_left (size (ma_entries s))) in *. destruct t' as [u|]; rewrite !map_app, !list_sum_app; unfold list_sum; cbn [map fold_right]; lia.
Qed.

(** a machine's word closes no bridges. Whatever other machines announce and whichever links come and go, what a machine does about it
    changes the bridges of one of its tunnels only if the tunnel's row in the database said, at some moment before, that it is
    deleted; and however many links come up at once, at most one check for deleted tunnels waits. *)
Theorem deletions_confirmed entries d events e id :
  let s := run_notices events (new_machine entries d) in
  let s' := notice_step s e in
  (length (List.filter is_sleep (ma_tasks s')) <= 1)%nat /\
  ((match e with EvEntry _ _ => False | _ => True end) -> bridges_of s' id <> bridges_of s id ->
   exists k, (k <= length (ma_log s'))%nat /\ deleted_in (run (take k (ma_log s')) d) id = true).
Proof.
  intros s s'. assert (machine_ok d s) as Hs by apply run_notices_ok, new_machine_ok. pose proof (notice_step_ok d s e Hs) as Hs'. fold s' in Hs'. split.
  - rewrite (mk_queued d s' Hs'). destruct (ma_reconcile_queued s'); lia.
  - intros He Hb. change (was_deleted d (ma_log s') id). subst s'. destruct e as [now n|i now ok|stmt|]; [|..|done]; cbn [notice_step] in Hb |- *.
    + destruct Hb. destruct n as [[]|]; try done. cbn. by destruct (ma_reconcile_queued s).
    + destruct (ma_tasks s !! i) as [t|] eqn:Ei; [|done]. destruct (task_step now ok t s) as [t' s1] eqn:Et.
      exact (task_step_bridges d _ _ _ _ _ _ _ (Forall_lookup_1 _ _ _ _ (mk_tasks d s Hs) Ei) Et Hb).
    + done.
Qed.

(** C23: no deletion is missed for good. A tunnel whose row says deleted from when a link to another machine comes up has, by the
    time no check is left and if the database answers, had no live bridge here at some moment, or a step at which every bridge its
    entry had was closed: the server's close is on each, every connection of it ended as deleted, and the cached record is
    forgotten. This holds also when the link came up while an earlier check still waited. *)
Theorem missed_deletions_closed entries d events now more id :
  let s := run_notices (events ++ [EvNotice now NLinkUp]) (new_machine entries d) in
  (forall n, (n <= length more)%nat -> t_deleted <$> tunnels (ma_db (run_notices (take n more) s)) !! id = Some true) ->
  Forall (fun e => match e with EvTask _ _ ok => ok = true | _ => True end) more ->
  Forall (fun t => match t with TExpire _ | TConfirm _ | TClose _ => True | _ => False end) (ma_tasks (run_notices more s)) ->
  exists n, (n < length more)%nat /\
    (no_live_bridge id (run_notices (take n more) s) \/
     closed_as_deleted id (run_notices (take n more) s) (run_notices (take (S n) more) s)).
Proof.
  intros s Hkeep Hok Hdone.
  destruct (run_covered id more s) as [(n & Hn & H)|(t & Ht & Hc)]; [by intros n Hn; apply bool_decide_eq_true, Hkeep|done| |exists n; split; [done|]; destruct H; [left; by apply attached_in_false|by right]|].
  - unfold s, run_notices. rewrite fold_left_app. cbn [fold_left notice_step on_notice]. fold (run_notices events (new_machine entries d)).
    pose proof (run_notices_ok d events _ (new_machine_ok entries d)) as [_ _ Hq]. set (s0 := run_notices events (new_machine entries d)) in *.
    change (ma_reconcile_queued (forget_cached_answers s0)) with (ma_reconcile_queued s0). destruct (ma_reconcile_queued s0).
    + destruct (List.filter is_sleep (ma_tasks s0)) as [|t l] eqn:E; [done|]. assert (In t (List.filter is_sleep (ma_tasks s0))) as Hin by (rewrite E; by left).
      apply filter_In in Hin as [Hin Hs]. exists t. split; [by apply list_elem_of_In|]. by destruct t.
    + eexists. split; [cbn; apply elem_of_app; right; by apply list_elem_of_singleton|done].
  - rewrite Forall_forall in Hdone. specialize (Hdone _ Ht). by destruct t.
Qed.

(** ** A sample: a tunnel deleted on another machine, with two links that come up *)

Module NoticesDemo.
Definition db : Db := mkDb {[ "a" := mkTunnelRow sample_record 3 true false None 0 None true ]} ∅ ∅ ∅ ∅.
Definition bridge : Bridge := mkBridge 1 0 (mkBridgeState true false None ["@"] None 0 0 None) ∅ [] 0 [].
Definition entries : gmap string Cache := {[ "a" := with_tunnel (mkTunnel "a" (Some sample_record) [bridge] 0 None) (new_entry "a") ]}.
Definition first : list NoticeEvent := [EvNotice 0 NLinkUp].
Definition steps : list NoticeEvent := EvTask 0 500 true :: replicate 8 (EvTask 0 501 true).
Definition linked : Machine := run_notices (first ++ [EvNotice 100 NLinkUp]) (new_machine entries db).

Lemma stays n : (n <= length steps)%nat -> t_deleted <$> tunnels (ma_db (run_notices (take n steps) linked)) !! "a" = Some true.
Proof. intros Hn. cbn in Hn. do 10 (destruct n as [|n]; [by vm_compute|]). lia. Qed.

Lemma attached n : (n < length steps)%nat -> exists c b, ma_entries (run_notices (take n steps) linked) !! "a" = Some c /\ b ∈ tn_bridges (ca_tunnel c) /\ is_attached b = true.
Proof.
  intros Hn. cbn in Hn. do 9 (destruct n as [|n]; [eexists _, _; split_and!; [vm_compute; reflexivity|apply elem_of_cons; left; reflexivity|vm_compute; reflexivity]|]). lia.
Qed.
End NoticesDemo.

(** The bridge stays attached, so it is closed. *)
Lemma missed_deletions_closed_witness :
  exists n, (n < 9)%nat /\ closed_as_deleted "a" (run_notices (take n NoticesDemo.steps) NoticesDemo.linked) (run_notices (take (S n) NoticesDemo.steps) NoticesDemo.linked).
Proof.
  destruct (missed_deletions_closed NoticesDemo.entries NoticesDemo.db NoticesDemo.first 100 NoticesDemo.steps "a") as (n & Hn & [H|H]).
  - exact NoticesDemo.stays.
  - by repeat constructor.
  - vm_compute. constructor.
  - exfalso. destruct (NoticesDemo.attached n Hn) as (c & b & Hc & Hb & Ha). rewrite (H c b Hc Hb) in Ha. discriminate.
  - exists n. split; [exact Hn|exact H].
Defined.
