(* ===== verification/Crypto.v ===== *)
(** * Crypto: identifiers and tokens, [crypto.rs], certificates as text, [acme.rs], and replayed bytes, [tls.rs]

    Random bytes are given; base64, X.509 and the PEM reader are parameters. *)

From Stdlib Require Import ZArith Lia Ascii String List.
From stdpp Require Import base list strings gmap.
From S2P Require Import Prelude Text Addr Names PeerAuth Server.

(** ** [crypto.rs] *)

Definition SLUG_ALPHABET : bytes := as_bytes "abcdefghijklmnopqrstuvwxyz234567".

Definition slug (random : bytes) : string := of_bytes (map (fun b => nth (Z.to_nat (Z.land b 31)) SLUG_ALPHABET 0) random).

(** [hex]: two lower-case digits a byte. *)
Definition hex_byte (b : Z) : bytes := [hex_digit (b / 16); hex_digit (b mod 16)].
Definition hex (data : bytes) : bytes := concat (map hex_byte data).

Definition hash_token (sha256 : bytes -> bytes) (token : string) : string := of_bytes (hex (sha256 (as_bytes token))).

Definition token (base64url : bytes -> string) (random : bytes) : string := "rly_" +:+ base64url random.

(** [uuid]: the version and the variant are set. *)
Definition set_byte (i : nat) (f : Z -> Z) (l : bytes) : bytes := match l !! i with Some b => <[i := f b]> l | None => l end.
Definition uuid_bytes (random : bytes) : bytes :=
  set_byte 8 (fun b => Z.lor (Z.land b 63) 128) (set_byte 6 (fun b => Z.lor (Z.land b 15) 64) random).
Definition slice (a b : nat) (l : bytes) : bytes := drop a (take b l).
Definition uuid (random : bytes) : bytes :=
  let h := hex (uuid_bytes random) in
  slice 0 8 h ++ [45] ++ slice 8 12 h ++ [45] ++ slice 12 16 h ++ [45] ++ slice 16 20 h ++ [45] ++ drop 20 h.

(** ** [acme.rs]: certificates as text *)

Fixpoint join_nl (l : list bytes) : bytes := match l with [] => [] | x :: l' => match l' with [] => x | _ => x ++ 10 :: join_nl l' end end.
Definition BEGIN : bytes := as_bytes "-----BEGIN CERTIFICATE-----".
Definition END_ : bytes := as_bytes "-----END CERTIFICATE-----".

Section Pem.
(** Base64 with padding; the PEM reader's certificates of a text; and when a certificate expires. *)
Context (base64 : bytes -> bytes) (pem_iter : bytes -> option (list bytes)) (expiry : bytes -> result string string).

Definition to_pem (der : bytes) : bytes :=
  let body := base64 der in
  BEGIN ++ [10] ++ join_nl (chunks (length body) 64 body) ++ [10] ++ END_.

Record IssuedPem := mkIssuedPem { ip_certificate : bytes; ip_chain : bytes; ip_expiry : string }.
Inductive ChainError := NoCertificate | BadExpiry (reason : string).

Definition chain_from_pem (pem : bytes) : result IssuedPem ChainError :=
  match pem_iter pem with
  | None | Some [] => Err NoCertificate
  | Some (leaf :: rest) =>
      match expiry leaf with
      | Err reason => Err (BadExpiry reason)
      | Ok expiry => Ok (mkIssuedPem (to_pem leaf) (join_nl (map to_pem rest)) expiry)
      end
  end.
End Pem.

(** ** [tls.rs]: [Replay] *)

Record Replay := mkReplay { rp_prefix : bytes; rp_position : nat; rp_inner : bytes }.
Definition replay_new (prefix inner : bytes) : Replay := mkReplay prefix 0 inner.

(** [poll_read] into a buffer with room for [room]: [arrived] is how much the socket gives when it is asked. *)
Definition poll_read (room arrived : nat) (r : Replay) : bytes * Replay :=
  if (rp_position r <? length (rp_prefix r))%nat then
    let remaining := drop (rp_position r) (rp_prefix r) in
    let count := Nat.min (length remaining) room in
    let position := (rp_position r + count)%nat in
    (take count remaining, if (position =? length (rp_prefix r))%nat then mkReplay [] 0 (rp_inner r) else mkReplay (rp_prefix r) position (rp_inner r))
  else
    let count := Nat.min arrived room in
    (take count (rp_inner r), mkReplay (rp_prefix r) (rp_position r) (drop count (rp_inner r))).
Fixpoint read_all (reads : list (nat * nat)) (r : Replay) : bytes * Replay :=
  match reads with
  | [] => ([], r)
  | (room, arrived) :: reads' => let '(got, r) := poll_read room arrived r in let '(more, r) := read_all reads' r in (got ++ more, r)
  end.

(** ** Properties *)

Lemma slug_char_ok i : (i < 32)%nat ->
  let b := nth i SLUG_ALPHABET 0 in byte_ok b /\ (is_ascii_lowercase b || is_ascii_digit b || (b =? 45)) = true /\ (b =? 45) = false.
Proof. intros Hi. cbn zeta. do 32 (destruct i as [|i]; [vm_compute; repeat split; done|]). lia. Qed.

Lemma low_bits b : (Z.to_nat (Z.land b 31) < 32)%nat.
Proof. change 31 with (Z.ones 5). rewrite Z.land_ones by lia. pose proof (Z.mod_pos_bound b (2 ^ 5) ltac:(lia)). lia. Qed.

Lemma last_map {A B} (f : A -> B) l : forall x d d', List.last (map f (x :: l)) d = f (List.last (x :: l) d').
Proof. induction l as [|y l IH]; intros x d d'; [done|]. exact (IH y d d'). Qed.

(** A tunnel's ID is a DNS label, whatever the random bytes: its hostname is one the server, its clients and an import accept. *)
Theorem slug_valid random : length random = 12%nat -> Csr.valid_tunnel_id (slug random) = true /\ str_len (slug random) = 12%nat.
Proof.
  intros Hl. set (f := fun b => nth (Z.to_nat (Z.land b 31)) SLUG_ALPHABET 0).
  assert (forall b, byte_ok (f b) /\ (is_ascii_lowercase (f b) || is_ascii_digit (f b) || (f b =? 45)) = true /\ (f b =? 45) = false) as Hf by (intros b; apply slug_char_ok, low_bits).
  assert (as_bytes (slug random) = map f random) as E by (apply as_of_bytes, Forall_fmap, Forall_forall; intros b _; apply Hf).
  unfold Csr.valid_tunnel_id, str_len. rewrite E, length_map, Hl. split; [|done].
  assert (forallb (fun byte => is_ascii_lowercase byte || is_ascii_digit byte || (byte =? 45)) (map f random) = true) as -> by (apply forallb_forall; intros x (b & <- & _)%in_map_iff; apply Hf).
  destruct random as [|b rest]; [done|]. rewrite bool_decide_false by done. cbn [negb andb hd map].
  rewrite (proj2 (proj2 (Hf b))). cbn [negb andb]. pose proof (last_map f rest b 0 0) as Hc. cbn [map] in Hc. by rewrite Hc, (proj2 (proj2 (Hf _))).
Qed.

Lemma hex_digit_hex d : 0 <= d < 16 -> byte_ok (hex_digit d) /\ is_hexdigit (hex_digit d) = true.
Proof. intros Hd. unfold hex_digit, is_hexdigit, is_ascii_digit, byte_ok. destruct (d <? 10) eqn:E; bsimp; split; try lia; repeat (apply orb_true_iff); lia. Qed.
Lemma hex_digit_inj d e : 0 <= d < 16 -> 0 <= e < 16 -> hex_digit d = hex_digit e -> d = e.
Proof. unfold hex_digit. intros Hd He. destruct (d <? 10) eqn:E1, (e <? 10) eqn:E2; bsimp; lia. Qed.

Lemma hex_spec data : bytes_ok data -> length (hex data) = (2 * length data)%nat /\ bytes_ok (hex data) /\ Forall (fun b => is_hexdigit b = true) (hex data).
Proof.
  induction 1 as [|b data Hb _ (Hl & Ho & Hh)]; [by repeat constructor|]. unfold hex in *. cbn [map concat hex_byte app length] in *.
  assert (0 <= b / 16 < 16 /\ 0 <= b mod 16 < 16) as [H1 H2] by (unfold byte_ok in Hb; Z.div_mod_to_equations; lia).
  destruct (hex_digit_hex _ H1), (hex_digit_hex _ H2). split_and!; [lia|by repeat (apply Forall_cons; split)..].
Qed.

(** Different bytes have different texts. *)
Theorem hex_inj a b : bytes_ok a -> bytes_ok b -> hex a = hex b -> a = b.
Proof.
  intros Ha. revert b. induction Ha as [|x a Hx Ha IH]; intros b Hb; destruct Hb as [|y b Hy Hb]; try done.
  unfold hex. cbn [map concat hex_byte app]. intros [= E1 E2 E3]. unfold byte_ok in *.
  apply hex_digit_inj in E1, E2; try (Z.div_mod_to_equations; lia). f_equal; [Z.div_mod_to_equations; lia|by apply IH].
Qed.

(** A token's stored form is the 64 hexadecimal digits that an import asks for. *)
Theorem hash_token_form sha256 token :
  (forall m, bytes_ok (sha256 m) /\ length (sha256 m) = 32%nat) ->
  str_len (hash_token sha256 token) = 64%nat /\ Forall (fun b => is_hexdigit b = true) (as_bytes (hash_token sha256 token)).
Proof.
  intros H. destruct (H (as_bytes token)) as [Ho Hl]. destruct (hex_spec _ Ho) as (Hlen & Hok & Hh). unfold hash_token. rewrite str_len_of_bytes, as_of_bytes by done.
  split; [lia|done].
Qed.

(** *** UUIDs *)

Lemma version_digit b : Z.lor (Z.land b 15) 64 / 16 = 4.
Proof. rewrite <- (Z.shiftr_div_pow2 _ 4) by lia. rewrite Z.shiftr_lor, Z.shiftr_land. change (Z.shiftr 15 4) with 0. by rewrite Z.land_0_r. Qed.
Lemma variant_digit b : 8 <= Z.lor (Z.land b 63) 128 / 16 < 12.
Proof.
  rewrite <- (Z.shiftr_div_pow2 _ 4) by lia. rewrite Z.shiftr_lor, Z.shiftr_land. change (Z.shiftr 63 4) with (Z.ones 2). change (Z.shiftr 128 4) with 8.
  rewrite Z.land_ones by lia. pose proof (Z.mod_pos_bound (Z.shiftr b 4) (2 ^ 2) ltac:(lia)) as Hx. change (2 ^ 2) with 4 in *. generalize dependent (Z.shiftr b 4 mod 4). intros x Hx.
  assert (x = 0 \/ x = 1 \/ x = 2 \/ x = 3) as [->|[->|[->| ->]]] by lia; done.
Qed.

(** A UUID is 36 characters with hyphens in the four places, says version 4, and has the variant of RFC 4122. *)
Theorem uuid_form random :
  length random = 16%nat ->
  length (uuid random) = 36%nat /\ Forall (fun i => uuid random !! i = Some 45) [8; 13; 18; 23]%nat /\ uuid random !! 14%nat = Some 52 /\
  exists d, 8 <= d < 12 /\ uuid random !! 19%nat = Some (hex_digit d).
Proof.
  intros Hl. do 16 (destruct random as [|? random]; [discriminate Hl|]). destruct random; [|discriminate Hl]. split_and!; [done|by repeat constructor|..].
  - transitivity (Some (hex_digit (Z.lor (Z.land z5 15) 64 / 16))); [reflexivity|]. by rewrite version_digit.
  - eexists. split; [apply (variant_digit z7)|reflexivity].
Qed.

(** *** PEM *)

Lemma chunks_short {A} n fuel : forall l : list A, Forall (fun c => (0 < n)%nat -> (0 < length c <= n)%nat) (chunks fuel n l).
Proof. induction fuel as [|fuel IH]; intros [|x l]; cbn [chunks]; try constructor; [|apply IH]. intros Hn. rewrite length_take. cbn [length]. lia. Qed.

(** The lines of a certificate's text have at most 64 characters, none is empty, and together they are its base64. *)
Theorem pem_lines base64 (der : bytes) :
  let lines := chunks (length (base64 der : bytes)) 64 (base64 der) in
  to_pem base64 der = BEGIN ++ [10] ++ join_nl lines ++ [10] ++ END_ /\ concat lines = base64 der /\ Forall (fun c => (0 < length c <= 64)%nat) lines.
Proof.
  cbn zeta. split_and!; [done|apply chunks_concat; [lia|done]|]. eapply Forall_impl; [apply chunks_short|]. cbn. intros c Hc. apply Hc. lia.
Qed.

(** What is stored and served of an order, the certificate and the chain on the lines after it, is the certificates the CA sent, all of
    them and in their order, the first one's expiry with it. *)
Theorem chain_kept base64 pem_iter expiry pem i :
  chain_from_pem base64 pem_iter expiry pem = Ok i ->
  exists leaf rest, pem_iter pem = Some (leaf :: rest) /\ expiry leaf = Ok (ip_expiry i) /\
    ip_certificate i ++ 10 :: ip_chain i = join_nl (map (to_pem base64) (leaf :: rest)) ++ (match rest with [] => [10] | _ => [] end).
Proof.
  unfold chain_from_pem. destruct (pem_iter pem) as [[|leaf rest]|] eqn:E; try done. destruct (expiry leaf) as [e|] eqn:Ee; [|done]. intros [= <-].
  exists leaf, rest. split_and!; [done|done|]. cbn [ip_certificate ip_chain]. destruct rest as [|x rest]; [done|].
  rewrite app_nil_r. reflexivity.
Qed.

(** *** [Replay] *)

(** TLS reads what came before it and then the socket, each byte once and in order, whatever the sizes of its buffers and of what arrives. *)
Theorem replay_in_order prefix inner reads got r :
  read_all reads (replay_new prefix inner) = (got, r) -> got ++ drop (rp_position r) (rp_prefix r) ++ rp_inner r = prefix ++ inner.
Proof.
  enough (forall reads r0 got r, read_all reads r0 = (got, r) -> got ++ drop (rp_position r) (rp_prefix r) ++ rp_inner r = drop (rp_position r0) (rp_prefix r0) ++ rp_inner r0) as H.
  { intros Hr. by apply H in Hr. }
  clear. induction reads as [|[room arrived] reads IH]; intros r0 got r; cbn [read_all]; [by intros [= <- <-]|].
  destruct (poll_read room arrived r0) as [got1 r1] eqn:E1. destruct (read_all reads r1) as [more r2] eqn:E2. intros [= <- <-]. apply IH in E2. rewrite <- app_assoc, E2. clear IH E2.
  unfold poll_read in E1. destruct (rp_position r0 <? length (rp_prefix r0))%nat eqn:Ep; bsimp; injection E1 as <- <-.
  - destruct (_ =? _)%nat eqn:Ee; bsimp; cbn.
    + rewrite take_ge; [done|]. rewrite length_drop in *. lia.
    + rewrite <- drop_drop, app_assoc. by rewrite take_drop.
  - cbn. rewrite (drop_ge (rp_prefix r0)) by done. cbn. by rewrite take_drop.
Qed.

(** A read that has room gets something while there is something to replay. *)
Theorem replay_progress room arrived r : (0 < room)%nat -> (rp_position r < length (rp_prefix r))%nat -> fst (poll_read room arrived r) <> [].
Proof.
  intros Hr Hp. unfold poll_read. rewrite (proj2 (Nat.ltb_lt _ _)) by done. cbn [fst]. intros E%(f_equal length). rewrite length_take, length_drop in E. cbn in E. lia.
Qed.
