(* ===== verification/ServerConfig.v ===== *)
(** * ServerConfig: the configuration of a server and what it makes of it, [config.rs], [server.rs], [limits.rs] and [cluster.rs]

    Flags and environment variables are read by clap; here are the values they give, their defaults, and how [Server::build] turns them
    into the limits, timeouts, issuer, mesh and admin of a server, or refuses them. *)

From Stdlib Require Import ZArith Lia Ascii String List.
From stdpp Require Import base list strings gmap.
From S2P Require Import Prelude Text Addr Names Record Store StoreOpen Limits Bridges Relay Mesh MeshLinks Server.

Inductive HttpMode := Redirect | Serve.
Inductive IssuerKind := KAcme | KLocal.
Inductive DnsKind := KCloudflare | KExec | KChalltestsrv.
Inductive LogFormat := LogText | LogJson.

Record Config := mkConfig {
  domain : string;
  tls_listen : string;
  http_listen : string;
  http_mode : HttpMode;
  proxy_protocol : bool;
  database_url : option string;
  database_pool_size : Z;
  startup_db_timeout_ms : Z;
  website_dir : string;
  tls_cert_file : option string;
  tls_key_file : option string;
  issuer : IssuerKind;
  local_ca_file : option string;
  local_ca_validity_days : Z;
  acme_url : string;
  acme_email : string;
  acme_eab_kid : option string;
  acme_eab_hmac_key : option string;
  acme_account_key_jwk : option string;
  acme_ca_bundle : option string;
  acme_dns_propagation_timeout_ms : Z;
  acme_poll_interval_ms : Z;
  dns_provider : DnsKind;
  dns_hook : option string;
  cloudflare_zone_id : string;
  cloudflare_api_token : option string;
  cloudflare_api_url : string;
  challtestsrv_url : string;
  issuance_concurrency : Z;
  issuance_retry_delay_ms : Z;
  analytics_url : option string;
  analytics_token : option string;
  admin_token : option string;
  internal_listen : string;
  internal_address : option string;
  internal_token : option string;
  machine_id : option string;
  region : string;
  private_ip : option IpAddr;
  fly_app_name : option string;
  mesh_dns : option string;
  mesh_peers : list string;
  mesh_discovery_ms : Z;
  mesh_ping_ms : Z;
  mesh_dead_ms : Z;
  mesh_verify_address : bool;
  connection_idle_timeout_ms : Z;
  half_close_timeout_ms : Z;
  create_rate_per_hour : Z;
  create_rate_burst : Z;
  issuance_rate_per_day : Z;
  issuance_rate_burst : Z;
  issuance_backlog_limit : Z;
  trusted_proxy_ranges : list string;
  max_conns_per_bridge : Z;
  max_conns_per_tunnel : Z;
  buffered_bytes_limit : Z;
  metrics_listen : string;
  shutdown_drain_ms : Z;
  log_format : LogFormat;
}.

(** The defaults of the flags. *)
Definition default_config : Config := {|
  domain := "opentunnel.xyz"; tls_listen := "0.0.0.0:8443"; http_listen := "0.0.0.0:8080"; http_mode := Redirect; proxy_protocol := false;
  database_url := None; database_pool_size := 50; startup_db_timeout_ms := 120000; website_dir := "/app/website";
  tls_cert_file := None; tls_key_file := None; issuer := KAcme; local_ca_file := None; local_ca_validity_days := 90;
  acme_url := "https://acme.zerossl.com/v2/DV90"; acme_email := "acme@opentunnel.xyz"; acme_eab_kid := None; acme_eab_hmac_key := None;
  acme_account_key_jwk := None; acme_ca_bundle := None; acme_dns_propagation_timeout_ms := 10000; acme_poll_interval_ms := 5000;
  dns_provider := KCloudflare; dns_hook := None; cloudflare_zone_id := "43d8e5cf1c0ccc8c3868125be74a5e68"; cloudflare_api_token := None;
  cloudflare_api_url := "https://api.cloudflare.com/client/v4"; challtestsrv_url := "http://127.0.0.1:8055";
  issuance_concurrency := 4; issuance_retry_delay_ms := 15000; analytics_url := None; analytics_token := None; admin_token := None;
  internal_listen := "off"; internal_address := None; internal_token := None; machine_id := None; region := "local"; private_ip := None;
  fly_app_name := None; mesh_dns := None; mesh_peers := []; mesh_discovery_ms := 5000; mesh_ping_ms := 1000; mesh_dead_ms := 5000;
  mesh_verify_address := true; connection_idle_timeout_ms := 900000; half_close_timeout_ms := 60000;
  create_rate_per_hour := 30; create_rate_burst := 10; issuance_rate_per_day := 5; issuance_rate_burst := 5; issuance_backlog_limit := 200;
  trusted_proxy_ranges := []; max_conns_per_bridge := 256; max_conns_per_tunnel := 1024; buffered_bytes_limit := 256 * 1024 * 1024;
  metrics_listen := "off"; shutdown_drain_ms := 10000; log_format := LogText |}.

(** ** [Config::mesh], [Config::bridge_limits] and [Config::timeouts] *)

Definition non_empty (o : option string) : option string := let* s := o in if str_is_empty s then None else Some s.

(** All of [mesh::MeshConfig]; what links need of it is [MeshLinks.MeshConfig]. *)
Record MeshSettings := mkMeshSettings {
  mt_dns : option string;
  mt_peers : list string;
  mt_discovery : Z;
  mt_ping : Z;
  mt_dead : Z;
  mt_link : MeshConfig;
}.

Definition mesh (c : Config) : MeshSettings :=
  let ms value := Z.max value 1 in
  let dns :=
    match mesh_dns c with
    | Some name => if String.eqb name "" || String.eqb name "off" then None else Some name
    | None => (fun app => app +:+ ".internal") <$> non_empty (fly_app_name c)
    end in
  let machine_dns :=
    match mesh_dns c, fly_app_name c with
    | None, Some app => if negb (str_is_empty app) then Some ("{}.vm." +:+ app +:+ ".internal") else None
    | _, _ => None
    end in
  mkMeshSettings dns (List.filter (fun peer => negb (str_is_empty peer)) (mesh_peers c)) (ms (mesh_discovery_ms c)) (ms (mesh_ping_ms c)) (ms (mesh_dead_ms c))
    (mkMeshConfig machine_dns (mesh_verify_address c) SNAPSHOT_CHUNK).

Definition bridge_limits (c : Config) : BridgeLimits :=
  mkBridgeLimits (Z.max (max_conns_per_bridge c) 1) (Z.max (max_conns_per_tunnel c) 1) (Z.max (buffered_bytes_limit c) (1024 * 1024)).

Definition timeouts (c : Config) : Timeouts := mkTimeouts (Z.max (connection_idle_timeout_ms c) 1) (Z.max (half_close_timeout_ms c) 1).

(** [Limits::from_config] *)
Definition from_config (c : Config) : option Limits :=
  let* proxies := proxies_parse (trusted_proxy_ranges c) in
  Some (mkLimits proxies (rate_new (create_rate_per_hour c) HOUR_MS (create_rate_burst c)) (rate_new (issuance_rate_per_day c) DAY_MS (issuance_rate_burst c))
          (issuance_backlog_limit c) None).

(** ** What [Server::with_store] builds *)

Inductive DnsSetup := DnsCloudflare (api zone_id token : string) | DnsExec (hook : string) | DnsChallTestSrv (url : string).
Record AcmeSetup := mkAcmeSetup {
  am_directory : string;
  am_email : string;
  am_eab_kid : option string;
  am_eab_hmac_key : option string;
  am_account_key_jwk : option string;
  am_propagation_timeout : Z;
  am_authorization_poll : Z;
  am_dns : option DnsSetup;
}.
Inductive IssuerSetup := LocalIssuer (validity_days : Z) | AcmeIssuer (setup : AcmeSetup).

Record ClusterSetup := mkClusterSetup { cs_machine_id : string; cs_region : string; cs_token : string; cs_mesh : MeshSettings }.

Record ServerSetup := mkServerSetup {
  ss_analytics : option (string * option string * string);
  ss_timeouts : Timeouts;
  ss_limits : Limits;
  ss_bridge_limits : BridgeLimits;
  ss_issuer : IssuerSetup;
  ss_concurrency : Z;
  ss_retry_delay : Z;
  ss_certificate_name : string;
  ss_cluster : option ClusterSetup;
  ss_admin : option string;
}.

Inductive SetupError := NoDatabase | BadDatabase (e : OptionsError) | BadProxyRanges | NoDnsHook | BadInternalToken.

(** [trim_end_matches('/')] *)
Fixpoint trim_front (l : bytes) : bytes := match l with b :: l' => if b =? 47 then trim_front l' else l | [] => [] end.
Definition trim_end_slashes (s : string) : string := of_bytes (rev (trim_front (rev (as_bytes s)))).

(** [contains(char::is_whitespace)] *)
Fixpoint has_whitespace (l : bytes) : bool :=
  match l with [] => false | _ :: l' => bool_decide (is_Some (strip_any WHITESPACE l)) || has_whitespace l' end.

Definition dns_setup (c : Config) : result (option DnsSetup) SetupError :=
  match dns_provider c with
  | KCloudflare =>
      Ok (let* token := cloudflare_api_token c in
          if negb (str_is_empty token) && negb (str_is_empty (cloudflare_zone_id c))
          then Some (DnsCloudflare (trim_end_slashes (cloudflare_api_url c)) (cloudflare_zone_id c) token) else None)
  | KExec => let? hook := ok_or (non_empty (dns_hook c)) NoDnsHook in Ok (Some (DnsExec hook))
  | KChalltestsrv => Ok (Some (DnsChallTestSrv (trim_end_slashes (challtestsrv_url c))))
  end.

Definition issuer_setup (c : Config) : result IssuerSetup SetupError :=
  match issuer c with
  | KLocal => Ok (LocalIssuer (local_ca_validity_days c))
  | KAcme =>
      let? dns := dns_setup c in
      Ok (AcmeIssuer (mkAcmeSetup (acme_url c) (acme_email c) (non_empty (acme_eab_kid c)) (non_empty (acme_eab_hmac_key c)) (acme_account_key_jwk c)
                        (acme_dns_propagation_timeout_ms c) (acme_poll_interval_ms c) dns))
  end.

Definition is_off (listen : string) : bool := String.eqb listen "" || String.eqb listen "off".

(** [Cluster::new]'s check of the secret, for a machine of several; [owner] is the random name of one without. *)
Definition cluster_setup (owner : string) (c : Config) : result (option ClusterSetup) SetupError :=
  if is_off (internal_listen c) then Ok None
  else
    let token := match internal_token c with Some t => t | None => "" end in
    if negb (str_is_empty token) && negb (has_whitespace (as_bytes token))
    then Ok (Some (mkClusterSetup (match non_empty (machine_id c) with Some id => id | None => owner end) (region c) token (mesh c)))
    else Err BadInternalToken.

Definition with_store (hash_token : string -> string) (owner : string) (c : Config) : result ServerSetup SetupError :=
  let? limits := ok_or (from_config c) BadProxyRanges in
  let? issuer := issuer_setup c in
  let? cluster := cluster_setup owner c in
  Ok (mkServerSetup ((fun url => (url, analytics_token c, region c)) <$> non_empty (analytics_url c)) (timeouts c) limits (bridge_limits c) issuer
        (issuance_concurrency c) (issuance_retry_delay_ms c) (to_ascii_lowercase (domain c)) cluster (hash_token <$> non_empty (admin_token c))).

(** [Server::build] without what it reads from files; the database's answers are [wait_ready]'s. *)
Definition build (parse_url : string -> option DbUrl) (parse_options : string -> option ConnectOptions) (hash_token : string -> string) (owner : string) (c : Config)
    : result (ConnectOptions * option Z * ServerSetup) SetupError :=
  let? url := ok_or (non_empty (database_url c)) NoDatabase in
  let? options := result_map_err BadDatabase (connect_options parse_url parse_options url) in
  let? setup := with_store hash_token owner c in
  Ok (options, startup_limit (startup_db_timeout_ms c), setup).

(** [Server::run]'s listeners besides TLS, and its end. *)
Definition http_off (c : Config) : bool := is_off (http_listen c).
Definition ending_of (c : Config) (second : option Z) (close_took attempts : Z) : Ending :=
  mkEnding (shutdown_drain_ms c) (negb (is_off (internal_listen c))) (negb (http_off c)) (negb (is_off (internal_listen c))) second close_took attempts.

(** ** Properties *)

Lemma non_empty_Some o s : non_empty o = Some s <-> o = Some s /\ s <> "".
Proof.
  unfold non_empty. destruct o as [t|]; cbn; [|by split; [|intros [? _]]]. unfold str_is_empty. case_bool_decide as E.
  - split; [done|]. by intros [[= ->] ?].
  - split; [by intros [= ->]|]. by intros [[= ->] _].
Qed.

(** Whatever is configured, a server that starts has room for a connection on every bridge and tunnel and a megabyte for data, never treats a
    connection as quiet at once, and its mesh timers run. *)
Theorem configured_limits c :
  1 <= conns_per_bridge (bridge_limits c) /\ 1 <= conns_per_tunnel (bridge_limits c) /\ 1024 * 1024 <= buffered_bytes (bridge_limits c) /\
  0 < to_idle (timeouts c) /\ 0 < to_half_close (timeouts c) /\ 0 < mt_discovery (mesh c) /\ 0 < mt_ping (mesh c) /\ 0 < mt_dead (mesh c).
Proof. unfold bridge_limits, timeouts, mesh. cbn. lia. Qed.

Lemma issuer_refused c : (exists e, issuer_setup c = Err e) <-> issuer c = KAcme /\ dns_provider c = KExec /\ non_empty (dns_hook c) = None.
Proof.
  unfold issuer_setup, dns_setup. destruct (issuer c); cbn; [|by split; [intros [? ?]|intros [? _]]].
  destruct (dns_provider c); cbn; [by split; [intros [? ?]|intros (_ & ? & _)]| |by split; [intros [? ?]|intros (_ & ? & _)]].
  destruct (non_empty (dns_hook c)); cbn; [by split; [intros [? ?]|intros (_ & _ & ?)]|]. split; [done|eauto].
Qed.

Lemma cluster_refused owner c :
  (exists e, cluster_setup owner c = Err e) <->
  is_off (internal_listen c) = false /\ (internal_token c = None \/ exists token, internal_token c = Some token /\ (token = "" \/ has_whitespace (as_bytes token) = true)).
Proof.
  unfold cluster_setup. destruct (is_off (internal_listen c)); [by split; [intros [? ?]|intros [? _]]|].
  destruct (internal_token c) as [token|]; [|by split; [split; [done|left]|eauto]].
  unfold str_is_empty. case_bool_decide as E; [subst; by split; [split; [done|right; eauto]|eauto]|]. cbn [negb andb].
  destruct (has_whitespace (as_bytes token)) eqn:Ew; [by split; [split; [done|right; eauto]|eauto]|].
  split; [by intros [? ?]|]. intros [_ [?|(t & [= <-] & [?|?])]]; congruence.
Qed.

(** Which configurations are refused, and only those: no database, one without TLS, proxies that are no ranges, the DNS hook without a hook,
    and several machines without a secret. *)
Theorem refused_configurations parse_url parse_options hash_token owner c :
  (exists e, build parse_url parse_options hash_token owner c = Err e) <->
  non_empty (database_url c) = None \/
  (exists url e, non_empty (database_url c) = Some url /\ connect_options parse_url parse_options url = Err e) \/
  proxies_parse (trusted_proxy_ranges c) = None \/
  (issuer c = KAcme /\ dns_provider c = KExec /\ non_empty (dns_hook c) = None) \/
  (is_off (internal_listen c) = false /\ (internal_token c = None \/ exists token, internal_token c = Some token /\ (token = "" \/ has_whitespace (as_bytes token) = true))).
Proof.
  pose proof (issuer_refused c) as Hi. pose proof (cluster_refused owner c) as Hc.
  unfold build. destruct (non_empty (database_url c)) as [url|]; cbn; [|by split; [left|eauto]].
  destruct (connect_options parse_url parse_options url) as [o|e] eqn:Eo; cbn; [|by split; [right; left; eauto|eauto]].
  unfold with_store, from_config. destruct (proxies_parse (trusted_proxy_ranges c)) as [ps|]; cbn; [|by split; [do 2 right; left|eauto]].
  destruct (issuer_setup c) as [i|e]; cbn; [|split; [intros _; do 3 right; left; apply Hi; eauto|eauto]].
  destruct (cluster_setup owner c) as [cl|e]; cbn; [|split; [intros _; do 4 right; apply Hc; eauto|eauto]].
  split; [by intros [? ?]|]. intros [?|[(? & ? & [= <-] & ?)|[?|[[e H]%Hi|[e H]%Hc]]]]; congruence.
Qed.

(** Secrets that are set but empty are as good as not set: no admin, no account binding and no mesh with them. *)
Theorem secrets_not_empty hash_token owner c s :
  with_store hash_token owner c = Ok s ->
  (forall h, ss_admin s = Some h -> exists token, admin_token c = Some token /\ token <> "" /\ h = hash_token token) /\
  (forall cl, ss_cluster s = Some cl -> cs_token cl <> "" /\ has_whitespace (as_bytes (cs_token cl)) = false /\ internal_token c = Some (cs_token cl)) /\
  (forall a kid, ss_issuer s = AcmeIssuer a -> am_eab_kid a = Some kid -> kid <> "").
Proof.
  unfold with_store. destruct (from_config c) as [l|]; [|done]. cbn. destruct (issuer_setup c) as [i|] eqn:Ei; [|done]. cbn. destruct (cluster_setup owner c) as [cl|] eqn:Ec; [|done]. cbn.
  intros [= <-]. cbn. split_and!.
  - intros h Hh. destruct (non_empty (admin_token c)) as [token|] eqn:Et; [|done]. cbn in Hh. injection Hh as <-. apply non_empty_Some in Et as [? ?]. eauto.
  - intros cl' ->. unfold cluster_setup in Ec. destruct (is_off (internal_listen c)); [done|]. destruct (negb _ && negb _) eqn:E; [|done]. injection Ec as <-. cbn. bsimp. unfold str_is_empty in *. bsimp.
    destruct (internal_token c); [done|]. done.
  - intros a kid -> Hk. unfold issuer_setup in Ei. destruct (issuer c); [|done]. destruct (dns_setup c); [|done]. cbn in Ei. injection Ei as <-. cbn in Hk. by apply non_empty_Some in Hk as [_ ?].
Qed.

(** With the defaults a server alone starts once it has a database, tells every bridge to reconnect before it closes its listeners, and
    notices a silent machine after more than one missed ping. *)
Theorem defaults_fit :
  DRAIN_SPREAD <= shutdown_drain_ms default_config /\ mt_ping (mesh default_config) * 2 <= mt_dead (mesh default_config) /\
  timeouts default_config = default_timeouts /\ bridge_limits default_config = default_limits /\
  forall hash_token owner, exists s, with_store hash_token owner default_config = Ok s /\ ss_cluster s = None /\ ss_admin s = None.
Proof.
  split_and!; [unfold DRAIN_SPREAD; cbn; lia|cbn; lia|reflexivity|reflexivity|]. intros hash_token owner. unfold with_store.
  assert (exists l, from_config default_config = Some l) as [l ->] by (unfold from_config; eexists; vm_compute; reflexivity). cbn. eauto.
Qed.
