(* ===== verification/Migration.v ===== *)
(** * Migration: exports, imports and the admin endpoints, [migration.rs] and [admin.rs]

    An export reads the tunnels a page at a time while other servers keep writing, and sends the file as it reads it. An import
    checks every record for the names the API demands of its own writes (all but one case, [wildcard_only_refused]). The text of a
    record and the reader of a file are parameters; that the chunks sent are one JSON document whatever the pages is proved, and
    the round trip goes through that text and the import endpoint. *)

From Stdlib Require Import ZArith Lia Ascii String List.
From stdpp Require Import base list strings gmap sorting.
From S2P Require Import Prelude Text Names Record Store PeerAuth Service.

(** ** Alarms in the file: [f64] values

    A finite [f64] is an integer times a power of two; JSON has no others. *)
Record F64 := mkF64 { mant : Z; expo : Z }.

(** [as f64] of a [u64]: 53 bits, to the nearest, ties to even. *)
Definition f64_of_u64 (a : Z) : F64 :=
  let e := Z.log2 a - 52 in
  if e <=? 0 then mkF64 a 0
  else
    let q := Z.shiftr a e in
    let r := a - q * 2 ^ e in
    mkF64 (if (2 ^ (e - 1) <? r) || ((r =? 2 ^ (e - 1)) && Z.odd q) then q + 1 else q) e.

(** [> 0.0], and [as u64]: towards zero, at most the largest. *)
Definition f64_positive (f : F64) : bool := 0 <? mant f.
Definition f64_as_u64 (f : F64) : Z :=
  if f64_positive f then Z.min U64_MAX (if 0 <=? expo f then mant f * 2 ^ expo f else mant f / 2 ^ (- expo f)) else 0.

(** ** The file *)

Record ExportedRecord := mkExportedRecord {
  object_id : option string;
  er_record : option StoredTunnel;
  er_alarm : option F64;
}.

Record ExportFile := mkExportFile {
  ef_version : Z;
  exported_at : option string;
  records : list ExportedRecord;
}.

(** Why an imported record is refused; one constructor per message. *)
Inductive CheckError :=
| NotTunnelId (id : string)
| NotHostname (hostname expected : string)
| NotTokenHash
| NotOwnRequest (e : Csr.NameError).

Record ImportSummary := mkImportSummary {
  inserted : nat;
  updated : nat;
  unchanged : nat;
  kept_local : nat;
  skipped : nat;
  rejected : list (string * CheckError);
  ids : list string;
}.
Definition no_summary : ImportSummary := mkImportSummary 0 0 0 0 0 [] [].

Definition count_outcome (o : ImportOutcome) (s : ImportSummary) : ImportSummary :=
  match o with
  | Inserted => mkImportSummary (S (inserted s)) (updated s) (unchanged s) (kept_local s) (skipped s) (rejected s) (ids s)
  | Updated => mkImportSummary (inserted s) (S (updated s)) (unchanged s) (kept_local s) (skipped s) (rejected s) (ids s)
  | Unchanged => mkImportSummary (inserted s) (updated s) (S (unchanged s)) (kept_local s) (skipped s) (rejected s) (ids s)
  | KeptLocal => mkImportSummary (inserted s) (updated s) (unchanged s) (S (kept_local s)) (skipped s) (rejected s) (ids s)
  end.
Definition count_skipped (s : ImportSummary) : ImportSummary :=
  mkImportSummary (inserted s) (updated s) (unchanged s) (kept_local s) (S (skipped s)) (rejected s) (ids s).
Definition push_rejected (r : string * CheckError) (s : ImportSummary) : ImportSummary :=
  mkImportSummary (inserted s) (updated s) (unchanged s) (kept_local s) (skipped s) (rejected s ++ [r]) (ids s).
Definition push_id (id : string) (s : ImportSummary) : ImportSummary :=
  mkImportSummary (inserted s) (updated s) (unchanged s) (kept_local s) (skipped s) (rejected s) (ids s ++ [id]).

(** ** Imports *)

Section Importing.
Context (parse_x509 : string -> option (list string * list string)).

(** [check]: whether the server could have written the record itself. *)
Definition check (record : StoredTunnel) (domain : string) : result unit CheckError :=
  if negb (Csr.valid_tunnel_id (st_id record)) then Err (NotTunnelId (st_id record))
  else
    let hostname := st_id record +:+ "." +:+ domain in
    if negb (String.eqb (st_hostname record) hostname) then Err (NotHostname (st_hostname record) hostname)
    else
      let hex := (str_len (token_hash record) =? 64)%nat && forallb is_hexdigit (as_bytes (token_hash record)) in
      if negb hex then Err NotTokenHash
      else
        result_map_err NotOwnRequest
          match certificate_csr record, certificate_identifiers record with
          | Some csr, _ => Csr.check_tunnel_request parse_x509 (st_id record) domain (identifiers record) csr
          | None, Some identifiers => Csr.check_tunnel_names (st_id record) domain identifiers
          | None, None => Ok tt
          end.

Context (domain : string) (force : bool) (clock : nat -> Z).

(** One record of the file; [clock] is what the clock reads at each record. *)
Definition import_record (i : nat) (entry : ExportedRecord) (s : ImportSummary) : M ImportSummary :=
  match er_record entry with
  | None => ret (count_skipped s)
  | Some record =>
      match check record domain with
      | Err reason => ret (push_rejected (st_id record, reason) s)
      | Ok _ =>
          let alarm := let* a := er_alarm entry in if f64_positive a then Some (f64_as_u64 a) else None in
          o <-- import_tunnel record alarm force (clock i);;
          ret (push_id (st_id record) (count_outcome o s))
      end
  end.

Fixpoint import_records (i : nat) (l : list ExportedRecord) (s : ImportSummary) : M ImportSummary :=
  match l with
  | [] => ret s
  | entry :: l' => s' <-- import_record i entry s;; import_records (S i) l' s'
  end.

(** [import]: an unsupported version is refused with nothing written. *)
Definition import (file : ExportFile) : M (result ImportSummary Z) :=
  if ef_version file =? 1 then s <-- import_records 0 (records file) no_summary;; ret (Ok s)
  else ret (Err (ef_version file)).
End Importing.

(** ** Exports *)

Definition ExportRow : Type := string * StoredTunnel * option Z.

(** The IDs after [after] in the order of the column, which is that of the bytes ([utf8mb4_bin]). *)
Definition ids_after (after : option string) (d : Db) : list string :=
  merge_sort String.le (filter (fun id => String.leb id (default "" after) = false) (map fst (map_to_list (tunnels d)))).
Definition export_row (d : Db) (id : string) : option ExportRow :=
  (fun row => (id, t_record row, t_alarm_at row)) <$> tunnels d !! id.

(** [Store::export_page] *)
Definition export_page (after : option string) (limit : nat) : M (list ExportRow) :=
  query (fun d => omap (export_row d) (take limit (ids_after after d))).

Definition EXPORT_PAGE : nat := 500.

Inductive ExportError := ReaderWentAway | PageFailed (e : StoreError).
(** How the task ends; the loop has fuel. *)
Inductive Ended := Complete | ExportFailed (e : ExportError) | OutOfFuel.

Section Exporting.
Context (record_json : ExportedRecord -> string) (string_json : string -> string).

Definition nl : string := String "010" "".
Definition exported (row : ExportRow) : ExportedRecord :=
  let '(_, record, alarm) := row in mkExportedRecord None (Some record) (f64_of_u64 <$> alarm).

Definition opening (time : string) : string :=
  let q := String "034" "" in
  "{" +:+ q +:+ "version" +:+ q +:+ ":1," +:+ q +:+ "exportedAt" +:+ q +:+ ":" +:+ string_json time +:+ "," +:+ q +:+ "records" +:+ q +:+ ":[".
Definition closing : string := nl +:+ "]}" +:+ nl.

(** The text of a page; [first] says whether nothing was written before it. *)
Fixpoint page_text (first : bool) (rows : list ExportRow) : string :=
  match rows with
  | [] => ""
  | row :: rows' => (if first then nl else "," +:+ nl) +:+ record_json (exported row) +:+ page_text false rows'
  end.

(** The loop of [export_pages]; [room] is how many chunks the reader takes before it goes away. It gives the chunks sent. *)
Fixpoint pages (fuel : nat) (page : nat) (after : option string) (first : bool) (room : nat) (w : Db * list Turn)
    : list string * list ExportRow * Ended * (Db * list Turn) :=
  match fuel with
  | O => ([], [], OutOfFuel, w)
  | S fuel =>
      match export_page after page w with
      | (Err e, w') => ([], [], ExportFailed (PageFailed e), w')
      | (Ok rows, w') =>
          let close := match room with O => ([], [], ExportFailed ReaderWentAway, w') | S _ => ([closing], [], Complete, w') end in
          match last rows with
          | None => close
          | Some (id, _, _) =>
              match room with
              | O => ([], [], ExportFailed ReaderWentAway, w')
              | S room =>
                  let chunk := page_text first rows in
                  if (length rows =? page)%nat then
                    let '(chunks, more, ended, w'') := pages fuel page (Some id) false room w' in
                    (chunk :: chunks, rows ++ more, ended, w'')
                  else
                    match room with
                    | O => ([chunk], rows, ExportFailed ReaderWentAway, w')
                    | S _ => ([chunk; closing], rows, Complete, w')
                    end
              end
          end
      end
  end.

(** [export_pages]: the chunks sent, the rows in them and how it ended. *)
Definition export_pages (fuel page : nat) (time : string) (room : nat) (w : Db * list Turn)
    : list string * list ExportRow * Ended * (Db * list Turn) :=
  match room with
  | O => ([], [], ExportFailed ReaderWentAway, w)
  | S room =>
      let '(chunks, rows, ended, w') := pages fuel page None true room w in
      (opening time :: chunks, rows, ended, w')
  end.

(** [export]: what the reader receives; a failure comes last. *)
Definition export (fuel page : nat) (time : string) (room : nat) (w : Db * list Turn) : list (result string ExportError) :=
  let '(chunks, _, ended, _) := export_pages fuel (Nat.max page 1) time room w in
  map Ok chunks ++ match ended with ExportFailed (PageFailed e) => if (length chunks <? room)%nat then [Err (PageFailed e)] else [] | _ => [] end.
End Exporting.

(** ** The admin endpoints: [admin.rs] *)

Definition count_tunnels (p : TunnelRow -> bool) (d : Db) : Z := Z.of_nat (length (List.filter (fun kv => p kv.2) (map_to_list (tunnels d)))).
Definition count_jobs (p : JobRow -> bool) (d : Db) : Z := Z.of_nat (length (List.filter (fun kv => p kv.2) (map_to_list (jobs d)))).

(** [Store::counts]: one query per count. *)
Definition COUNTS : list (string * (Db -> Z)) :=
  [("tunnels", count_tunnels (fun row => negb (t_deleted row)));
   ("deleted", count_tunnels t_deleted);
   ("imported_unchanged", count_tunnels (fun row => negb (t_local_update row)));
   ("alarms", count_tunnels (fun row => bool_decide (t_alarm_at row <> None)));
   ("jobs_pending", count_jobs (fun row => bool_decide (j_status row = Pending)));
   ("jobs_failed", count_jobs (fun row => bool_decide (j_status row = JFailed)))].

Fixpoint count_all (queries : list (string * (Db -> Z))) : M (list (string * Z)) :=
  match queries with
  | [] => ret []
  | (name, sql) :: queries' => count <-- query sql;; rest <-- count_all queries';; ret ((name, count) :: rest)
  end.
Definition counts : M (list (string * Z)) := count_all COUNTS.

(** [Store::job_counts]: pending jobs, and those that failed since. *)
Definition job_counts (since : Z) : M (Z * Z) :=
  query (fun d => (count_jobs (fun row => bool_decide (j_status row = Pending)) d,
                   count_jobs (fun row => bool_decide (j_status row = JFailed) && (since <=? j_updated_at row)) d)).

(** An answer, with the rows an import changed whose cached copies are forgotten. *)
Inductive AdminAnswer :=
| AdminBadRequest (error : string)
| AdminImported (summary : ImportSummary)
| AdminExported (page : nat)
| AdminStats (fields : list (string * Z)) (machine : option (list (string * Z)))
| AdminFailed (e : StoreError)
| AdminNotFound.

(** What this machine counts, for the statistics; [mc_machine] holds the counters of a machine of several. *)
Record MachineCounts := mkMachineCounts { mc_bridges : Z; mc_connections : Z; mc_machine : option (list (string * Z)) }.

Section Admin.
Context (hash_token : string -> string) (parse_x509 : string -> option (list string * list string)) (read_file : bytes -> result ExportFile string)
  (version_error : Z -> string) (store_error : StoreError -> string).

Definition authorized (admin_hash token : string) : bool := negb (str_is_empty token) && token_matches hash_token token admin_hash.

(** [handle]; the second component are the tunnels whose cached copy is forgotten, in order. *)
Definition handle (domain : string) (clock : nat -> Z) (machine : MachineCounts) (path : string) (body : bytes)
    (w : Db * list Turn) : AdminAnswer * list string * (Db * list Turn) :=
  let '(path, query) := match str_split_once "?" path with Some pq => pq | None => (path, "") end in
  if String.eqb path "import" then
    match read_file body with
    | Err error => (AdminBadRequest error, [], w)
    | Ok file =>
        let force := existsb (fun pair => String.eqb pair "force=1") (str_split "&" query) in
        match import parse_x509 (to_ascii_lowercase domain) force clock file w with
        | (Ok (Ok summary), w') => (AdminImported summary, ids summary, w')
        | (Ok (Err version), w') => (AdminBadRequest (version_error version), [], w')
        | (Err e, w') => (AdminBadRequest (store_error e), [], w')
        end
    end
  else if String.eqb path "export" then (AdminExported EXPORT_PAGE, [], w)
  else if String.eqb path "stats" then
    match counts w with
    | (Ok fields, w') => (AdminStats (fields ++ [("bridges_attached", mc_bridges machine); ("tunnel_connections", mc_connections machine)]) (mc_machine machine), [], w')
    | (Err e, w') => (AdminFailed e, [], w')
    end
  else (AdminNotFound, [], w).
End Admin.

(** ** The order of IDs *)

Definition id_lt (a b : string) : Prop := String.leb b a = false.

Lemma id_lt_le a b : id_lt a b -> String.le a b.
Proof. unfold id_lt, String.le. intros H. destruct (String.leb_total a b) as [->|E]; [done|]. by rewrite E in H. Qed.

Lemma id_lt_irrefl a : ~ id_lt a a.
Proof. unfold id_lt. intros H. destruct (String.leb_total a a) as [E|E]; by rewrite E in H. Qed.

Lemma id_lt_trans a b c : id_lt a b -> id_lt b c -> id_lt a c.
Proof.
  unfold id_lt. intros Hab%id_lt_le Hbc. destruct (String.leb c a) eqn:E; [|done].
  exfalso. assert (String.le c b) as H by (etrans; [|exact Hab]; unfold String.le; by rewrite E). unfold String.le in H. by rewrite Hbc in H.
Qed.

Lemma id_le_lt_ne a b : String.le a b -> a <> b -> id_lt a b.
Proof.
  intros Hle Hne. unfold id_lt. destruct (String.leb b a) eqn:E; [|done].
  destruct Hne. apply (anti_symm String.le); [done|]. unfold String.le. by rewrite E.
Qed.

Lemma id_lt_empty id : id <> "" -> id_lt "" id.
Proof. by destruct id. Qed.

(** *** The IDs of a page *)

Lemma elem_of_ids_after after d id : id ∈ ids_after after d <-> is_Some (tunnels d !! id) /\ id_lt (default "" after) id.
Proof.
  unfold ids_after. rewrite merge_sort_Permutation, list_elem_of_filter. fold (id_lt (default "" after) id).
  enough (id ∈ map fst (map_to_list (tunnels d)) <-> is_Some (tunnels d !! id)) by tauto. rewrite list_elem_of_In, in_map_iff. split.
  - intros ([id' row] & <- & Hin%list_elem_of_In%elem_of_map_to_list). cbn. eauto.
  - intros [row Hrow]. exists (id, row). split; [done|]. by apply list_elem_of_In, elem_of_map_to_list.
Qed.

Lemma ids_after_NoDup after d : NoDup (ids_after after d).
Proof. unfold ids_after. rewrite merge_sort_Permutation. apply NoDup_filter. apply NoDup_fst_map_to_list. Qed.

Lemma ids_after_sorted after d : StronglySorted id_lt (ids_after after d).
Proof.
  pose proof (ids_after_NoDup after d) as Hnd. unfold ids_after in *.
  assert (StronglySorted String.le (merge_sort String.le (filter (fun id => String.leb id (default "" after) = false) (map fst (map_to_list (tunnels d)))))) as Hs
    by (apply StronglySorted_merge_sort; apply _).
  induction Hs as [|x l Hl IH Hx]; constructor; apply NoDup_cons in Hnd as [Hn Hnd]; [by apply IH|].
  rewrite Forall_forall in *. intros y Hy. apply id_le_lt_ne; [by apply Hx|]. by intros ->.
Qed.

Lemma export_rows_ids d l : Forall (fun id => is_Some (tunnels d !! id)) l -> map (fun row : ExportRow => row.1.1) (omap (export_row d) l) = l.
Proof.
  induction 1 as [|id l [row Hrow] Hl IH]; [done|]. cbn [omap list_omap]. unfold export_row at 1. rewrite Hrow. cbn. by rewrite IH.
Qed.

Lemma elem_of_export_rows d (l : list string) row : row ∈ omap (export_row d) l -> export_row d row.1.1 = Some row.
Proof.
  rewrite list_elem_of_omap. intros (id & _ & E). pose proof E as E'. unfold export_row in E. destruct (tunnels d !! id); [|done].
  cbn in E. assert (row.1.1 = id) as -> by (by injection E as <-). done.
Qed.

(** Rows are never deleted. *)
Lemma run_tunnel_kept ss d id : is_Some (tunnels d !! id) -> is_Some (tunnels (run ss d) !! id).
Proof. intros Hid. apply (run_preserves (fun d => is_Some (tunnels d !! id))); [|done]. intros s d' [row Hrow]. destruct (exec_tunnel s d' id row Hrow) as (? & ? & _). eauto. Qed.

Definition all_others (turns : list Turn) : list Stmt := concat (map others turns).
Abbreviation answered_turns := (Forall (fun t : Turn => fault t = Answered)).
Abbreviation row_ids := (map (fun row : ExportRow => row.1.1)).

Lemma export_page_Ok after limit d turns :
  answered_turns turns ->
  exists d1 turns1, export_page after limit (d, turns) = (Ok (omap (export_row d1) (take limit (ids_after after d1))), (d1, turns1)) /\
    answered_turns turns1 /\ run (all_others turns1) d1 = run (all_others turns) d /\
    (forall id, is_Some (tunnels d !! id) -> is_Some (tunnels d1 !! id)) /\
    (forall k', exists k, run (all_others (take k' turns1)) d1 = run (all_others (take k turns)) d).
Proof.
  intros Ha. unfold export_page, query. destruct turns as [|t turns]; cbn [next_turn].
  - exists d, []. split_and!; [done..|]. intros k'. exists 0%nat. by rewrite take_nil.
  - apply Forall_cons in Ha as [Ht Ha]. rewrite Ht. exists (run (others t) d), turns. split_and!; [done|done| | |].
    + unfold all_others. cbn [map concat]. by rewrite run_app.
    + intros id. apply run_tunnel_kept.
    + intros k'. exists (S k'). unfold all_others. cbn [take map concat]. by rewrite run_app.
Qed.

(** What is left after a full page is less. *)
Lemma ids_after_shrink after d ids l :
  ids <> [] -> last ids = Some l -> StronglySorted id_lt ids -> Forall (fun id => id ∈ ids_after after d) ids ->
  (length (ids_after (Some l) d) < length (ids_after after d))%nat.
Proof.
  intros Hne Hl Hs Hin. rewrite Forall_forall in Hin.
  assert (l ∈ ids) as Hlin by (by apply last_Some_elem_of). pose proof (Hin _ Hlin) as Hl'. apply elem_of_ids_after in Hl' as [Hl1 Hl2].
  assert (submseteq (l :: ids_after (Some l) d) (ids_after after d)) as Hsub.
  { apply NoDup_submseteq.
    - apply NoDup_cons. split; [|apply ids_after_NoDup]. rewrite elem_of_ids_after. cbn. by intros [_ ?%id_lt_irrefl].
    - intros x Hx. apply elem_of_cons in Hx as [->|Hx]; [by apply elem_of_ids_after|].
      apply elem_of_ids_after in Hx as [Hx Hlt]. cbn in Hlt. apply elem_of_ids_after. split; [done|]. by eapply id_lt_trans. }
  apply submseteq_length in Hsub. cbn in Hsub. lia.
Qed.

(** Everything up to the last of a sorted page is in it. *)
Lemma page_prefix after d page l id :
  last (take page (ids_after after d)) = Some l -> id ∈ ids_after after d -> ~ id_lt l id -> id ∈ take page (ids_after after d).
Proof.
  intros Hl Hin Hlt. pose proof (ids_after_sorted after d) as Hs. rewrite <- (take_drop page (ids_after after d)) in Hin, Hs.
  apply elem_of_app in Hin as [Hin|Hin]; [done|]. destruct Hlt.
  eapply StronglySorted_app_1_elem_of; [exact Hs| |done]. by apply last_Some_elem_of.
Qed.

Lemma page_text_app json first rows rows' :
  page_text json first (rows ++ rows') = page_text json first rows +:+ page_text json (first && bool_decide (rows = [])) rows'.
Proof.
  revert first. induction rows as [|row rows IH]; intros first; cbn [app page_text]; [by rewrite bool_decide_true, andb_true_r|].
  rewrite IH. rewrite (bool_decide_false (row :: rows = [])) by done. rewrite andb_false_r. cbn [andb]. by rewrite !string_app_assoc.
Qed.

(** A page, and what the loop does with it. *)
Section Pages.
Context (json : ExportedRecord -> string) (page : nat).
Hypothesis page_pos : (0 < page)%nat.

Definition chunks_text (chunks : list string) : string := String.concat "" chunks.

Lemma chunks_text_cons c chunks : chunks_text (c :: chunks) = c +:+ chunks_text chunks.
Proof. unfold chunks_text. destruct chunks; cbn; [by rewrite str_app_nil|done]. Qed.

(** What a run of the loop from [after] on [(d, turns)] is to give. *)
Definition exports (after : option string) (first : bool) (d : Db) (turns : list Turn) (chunks : list string) (rows : list ExportRow) : Prop :=
  chunks_text chunks = page_text json first rows +:+ closing /\
  StronglySorted id_lt (row_ids rows) /\ Forall (id_lt (default "" after)) (row_ids rows) /\
  (forall id, is_Some (tunnels d !! id) -> id_lt (default "" after) id -> id ∈ row_ids rows) /\
  (forall row, row ∈ rows -> exists k, export_row (run (all_others (take k turns)) d) row.1.1 = Some row).

Lemma page_ids_some d after : Forall (fun id => is_Some (tunnels d !! id)) (take page (ids_after after d)).
Proof. apply Forall_take, Forall_forall. intros id Hid. by apply elem_of_ids_after in Hid as [? ?]. Qed.

Lemma last_row_id (rows : list ExportRow) : last (row_ids rows) = (fun row : ExportRow => row.1.1) <$> last rows.
Proof. apply (fmap_last (fun row : ExportRow => row.1.1)). Qed.

(** The last page: not full, so everything left is in it. *)
Lemma last_page_exports after first d turns d1 k chunks :
  run (all_others (take k turns)) d = d1 -> (forall id, is_Some (tunnels d !! id) -> is_Some (tunnels d1 !! id)) ->
  let rows := omap (export_row d1) (take page (ids_after after d1)) in
  (length rows < page)%nat -> chunks_text chunks = page_text json first rows +:+ closing -> exports after first d turns chunks rows.
Proof.
  intros Hk Hkept rows Hlen Htext. pose proof (export_rows_ids d1 _ (page_ids_some d1 after)) as Hids. fold rows in Hids.
  assert (take page (ids_after after d1) = ids_after after d1) as Hall.
  { apply take_ge. rewrite <- (length_map (fun row : ExportRow => row.1.1)), Hids, length_take in Hlen. lia. }
  rewrite Hall in Hids. split_and!; [done|..].
  - rewrite Hids. apply ids_after_sorted.
  - rewrite Hids. apply Forall_forall. intros id Hid. by apply elem_of_ids_after in Hid as [? ?].
  - intros id Hid Hlt. rewrite Hids. apply elem_of_ids_after. auto.
  - intros row Hrow. exists k. rewrite Hk. by eapply elem_of_export_rows.
Qed.

(** A full page followed by the rest. *)
Lemma full_page_exports after first d turns d1 turns1 k l chunks rest :
  run (all_others (take k turns)) d = d1 -> (forall id, is_Some (tunnels d !! id) -> is_Some (tunnels d1 !! id)) ->
  (forall k', exists k, run (all_others (take k' turns1)) d1 = run (all_others (take k turns)) d) ->
  let rows := omap (export_row d1) (take page (ids_after after d1)) in
  last (row_ids rows) = Some l -> exports (Some l) false d1 turns1 chunks rest ->
  exports after first d turns (page_text json first rows :: chunks) (rows ++ rest).
Proof.
  intros Hk Hkept Hks rows Hl (Ht & Hs & Hf & Hin & Hrows).
  pose proof (export_rows_ids d1 _ (page_ids_some d1 after)) as Hids. fold rows in Hids. rewrite Hids in Hl.
  pose proof (ids_after_sorted after d1) as Hsort. rewrite <- (take_drop page (ids_after after d1)) in Hsort.
  assert (forall id, id ∈ take page (ids_after after d1) -> id ∈ ids_after after d1) as Htk by (intros id Hid; rewrite <- (take_drop page (ids_after after d1)); apply elem_of_app; auto).
  assert (forall id, id ∈ take page (ids_after after d1) -> ~ id_lt l id) as Hlast.
  { intros id Hid Hlt. apply last_Some in Hl as [l' El]. rewrite El in Hid, Hsort. apply StronglySorted_app_1_l in Hsort.
    apply elem_of_app in Hid as [Hid|Hid%list_elem_of_singleton]; [|subst; by apply id_lt_irrefl in Hlt].
    eapply (id_lt_irrefl id), id_lt_trans; [|exact Hlt]. eapply StronglySorted_app_1_elem_of; [exact Hsort|done|by apply list_elem_of_singleton]. }
  assert (id_lt (default "" after) l) as Hal.
  { apply last_Some_elem_of, Htk, elem_of_ids_after in Hl. by destruct Hl. }
  split_and!.
  - rewrite chunks_text_cons, Ht, page_text_app. rewrite string_app_assoc. do 2 f_equal.
    rewrite bool_decide_false, andb_false_r; [done|]. intros E. rewrite E in Hids. cbn in Hids. by rewrite <- Hids in Hl.
  - rewrite map_app. apply StronglySorted_app. split_and!; [|rewrite Hids; by eapply StronglySorted_app_1_l|done].
    intros x1 x2 H1 H2. rewrite Hids in H1. rewrite Forall_forall in Hf. specialize (Hf _ H2). cbn in Hf.
    destruct (decide (x1 = l)) as [->|Hne]; [done|]. eapply id_lt_trans; [|exact Hf].
    apply Hlast in H1. unfold id_lt in H1. apply id_le_lt_ne; [|done]. unfold String.le. destruct (String.leb x1 l); [done|by destruct H1].
  - rewrite map_app. apply Forall_app. split.
    + rewrite Hids. apply Forall_forall. intros id Hid%Htk. by apply elem_of_ids_after in Hid as [? ?].
    + eapply Forall_impl; [exact Hf|]. intros id Hid. by eapply id_lt_trans.
  - intros id Hid Hlt. rewrite map_app, elem_of_app, Hids. destruct (String.leb id l) eqn:E; [left|right].
    + eapply page_prefix; [done|apply elem_of_ids_after; auto|]. unfold id_lt. by rewrite E.
    + by apply Hin; [apply Hkept|].
  - intros row [Hrow|Hrow]%elem_of_app; [exists k; rewrite Hk; by eapply elem_of_export_rows|].
    destruct (Hrows _ Hrow) as [k' Hk']. destruct (Hks k') as [k2 Hk2]. exists k2. by rewrite <- Hk2.
Qed.

Lemma pages_complete fuel : forall after first room d turns,
  answered_turns turns -> (length (ids_after after (run (all_others turns) d)) < fuel < room)%nat ->
  exists chunks rows w', pages json fuel page after first room (d, turns) = (chunks, rows, Complete, w') /\ exports after first d turns chunks rows.
Proof using page_pos.
  induction fuel as [|fuel IH]; intros after first room d turns Ha Hfuel; [lia|]. cbn [pages].
  destruct (export_page_Ok after page d turns Ha) as (d1 & turns1 & -> & Ha1 & Hfin & Hkept & Hks).
  destruct (Hks 0%nat) as [k Hk]. cbn in Hk. destruct room as [|[|room]]; [lia|lia|].
  pose proof (last_page_exports after first d turns d1 k) as Hlastp. pose proof (export_rows_ids d1 _ (page_ids_some d1 after)) as Hids.
  pose proof (full_page_exports after first d turns d1 turns1 k) as Hfullp. cbn zeta in Hlastp, Hfullp.
  set (rows := omap (export_row d1) (take page (ids_after after d1))) in *. symmetry in Hk.
  destruct (last rows) as [[[l lr] la]|] eqn:El.
  - assert (last (row_ids rows) = Some l) as Hl by (by rewrite last_row_id, El).
    destruct (length rows =? page)%nat eqn:Elen; bsimp.
    + destruct (IH (Some l) false (S room) d1 turns1 Ha1) as (chunks & rest & w' & -> & Hexp).
      { split; [|lia]. rewrite Hfin. enough (length (ids_after (Some l) (run (all_others turns) d)) < length (ids_after after (run (all_others turns) d)))%nat by lia.
        rewrite Hids in Hl. eapply (ids_after_shrink after _ (take page (ids_after after d1))); [by intros E; rewrite E in Hl|done| |].
        - pose proof (ids_after_sorted after d1) as Hsort. rewrite <- (take_drop page (ids_after after d1)) in Hsort. by eapply StronglySorted_app_1_l.
        - apply Forall_take, Forall_forall. intros id Hid. apply elem_of_ids_after in Hid as [? ?]. apply elem_of_ids_after. split; [|done].
          rewrite <- Hfin. by apply run_tunnel_kept. }
      eexists _, _, _. split; [done|]. by apply (Hfullp l).
    + eexists _, _, _. split; [done|]. apply Hlastp; [done|done| |].
      * assert (length rows <= page)%nat; [|lia]. rewrite <- (length_map (fun row : ExportRow => row.1.1)), Hids, length_take. lia.
      * rewrite !chunks_text_cons. unfold chunks_text. cbn. done.
  - apply last_None in El. eexists _, _, _. split; [done|]. rewrite El in *. apply Hlastp; [done|done|cbn; lia|]. by rewrite chunks_text_cons.
Qed.
End Pages.

(** ** What an import writes *)

Lemma f64_round_trip a : 0 < a < 2 ^ 53 -> f64_positive (f64_of_u64 a) = true /\ f64_as_u64 (f64_of_u64 a) = a.
Proof.
  intros [H0 H1]. unfold f64_as_u64, f64_of_u64.
  assert (Z.log2 a < 53) by (apply Z.log2_lt_pow2; lia). rewrite (proj2 (Z.leb_le (Z.log2 a - 52) 0)) by lia.
  unfold f64_positive. cbn [mant expo]. rewrite (proj2 (Z.ltb_lt 0 a)) by lia. split; [done|]. cbn. unfold U64_MAX. lia.
Qed.

Section Imports.
Context (parse_x509 : string -> option (list string * list string)) (domain : string).

(** The tunnels of a server of the domain: every row is its record's, and the server could have written the record. *)
Definition own_db (d : Db) : Prop :=
  forall id row, tunnels d !! id = Some row -> st_id (t_record row) = id /\ check parse_x509 (t_record row) domain = Ok tt.

(** Statements that write only such records. *)
Definition writes_own (s : Stmt) : Prop :=
  match s with
  | SInsertTunnel r _ | SUpdateTunnel r _ _ | SImportInsert r _ _ | SImportUpdate r _ _ _ => check parse_x509 r domain = Ok tt
  | _ => True
  end.

Lemma exec_own s d : own_db d -> writes_own s -> own_db (fst (exec s d)).
Proof.
  intros Hd Hs.
  assert (forall d' id r, (forall id row, tunnels d' !! id = Some row -> id <> st_id (t_record r) -> st_id (t_record row) = id /\ check parse_x509 (t_record row) domain = Ok tt) ->
     id = st_id (t_record r) -> check parse_x509 (t_record r) domain = Ok tt -> own_db (set_tunnels (<[id := r]> (tunnels d')) d')) as Hins.
  { intros d' id r Hd' -> Hr id' row. cbn. rewrite lookup_insert_Some. intros [[<- <-]|[Hne Hrow]]; [done|]. apply Hd'; [done|]. congruence. }
  destruct s; cbn [exec writes_own] in *; try (destruct (record_flags record) as [dl iss]); try split_update;
    cbn [fst set_tunnels set_jobs set_rate_limits set_meta_table set_server_certificates tunnels] in *;
    repeat (case_split; cbn [fst set_tunnels set_jobs set_rate_limits set_meta_table set_server_certificates tunnels] in * ); try done;
    try (apply Hins; cbn [t_record]; [by intros; apply Hd|done|done]);
    (match goal with H : tunnels d !! ?i = Some _ |- _ => destruct (Hd _ _ H) as [Hi Hc] end;
     apply Hins; cbn [t_record]; [by intros; apply Hd|by rewrite Hi|done]).
Qed.

Context (force : bool) (clock : nat -> Z).

Lemma import_tunnel_own record alarm now d turns r d' turns' :
  check parse_x509 record domain = Ok tt -> own_db d -> turns_keep writes_own turns ->
  import_tunnel record alarm force now (d, turns) = (r, (d', turns')) -> own_db d' /\ turns_keep writes_own turns'.
Proof.
  intros Hc Hd Ht. unfold import_tunnel, bind. destruct (stmt _ (d, turns)) as [o [d1 turns1]] eqn:E1.
  destruct (stmt_keeps _ _ exec_own (SImportInsert record alarm now) _ _ _ _ _ Hd Ht Hc E1) as [Hd1 Ht1].
  destruct o as [[n| |i]|e]; try (by intros [= <- <- <-]).
  destruct (stmt _ (d1, turns1)) as [o2 [d2 turns2]] eqn:E2.
  destruct (stmt_keeps _ _ exec_own (SImportUpdate record alarm force now) _ _ _ _ _ Hd1 Ht1 Hc E2) as [Hd2 Ht2].
  destruct o2 as [[n2| |i2]|e2]; by intros [= <- <- <-].
Qed.

Lemma import_records_own l : forall i s d turns r d' turns',
  own_db d -> turns_keep writes_own turns ->
  import_records parse_x509 domain force clock i l s (d, turns) = (r, (d', turns')) -> own_db d' /\ turns_keep writes_own turns'.
Proof.
  induction l as [|entry l IH]; intros i s d turns r d' turns' Hd Ht; cbn [import_records]; [by intros [= <- <- <-]|].
  unfold bind at 1. destruct (import_record _ _ _ _ i entry s (d, turns)) as [o [d1 turns1]] eqn:E1.
  assert (own_db d1 /\ turns_keep writes_own turns1) as [Hd1 Ht1].
  { unfold import_record in E1. destruct (er_record entry) as [record|]; [|by injection E1 as <- <- <-].
    destruct (check parse_x509 record domain) as [[]|] eqn:Ec; [|by injection E1 as <- <- <-].
    unfold bind in E1. destruct (import_tunnel _ _ _ _ _) as [o2 [d2 turns2]] eqn:E2.
    destruct (import_tunnel_own _ _ _ _ _ _ _ _ Ec Hd Ht E2) as [? ?]. destruct o2; by injection E1 as <- <- <-. }
  destruct o as [s'|e]; [|by intros [= <- <- <-]]. by apply IH.
Qed.

(** What a record that passes can make the server ask for. *)
Lemma check_sound record :
  check parse_x509 record domain = Ok tt ->
  st_hostname record = st_id record +:+ "." +:+ domain /\ Csr.valid_tunnel_id (st_id record) = true /\
  (certificate_csr record <> None \/ certificate_identifiers record <> None -> own_names (st_id record) domain (identifiers record)) /\
  (forall csr, certificate_csr record = Some csr -> Csr.check_tunnel_request parse_x509 (st_id record) domain (identifiers record) csr = Ok tt).
Proof.
  unfold check. intros H. repeat (case_split; [done|]). bsimp. apply String.eqb_eq in E0. split_and!; [done|done| |].
  - destruct (certificate_csr record) as [csr|].
    + destruct (Csr.check_tunnel_request _ _ _ _ csr) as [[]|] eqn:Ec; [|done]. by apply check_tunnel_request_sound in Ec as (_ & ? & _).
    + unfold identifiers. destruct (certificate_identifiers record) as [names|]; [|by intros [?|?]].
      destruct (Csr.check_tunnel_names _ _ names) as [[]|] eqn:Ec; [|done]. by apply check_tunnel_names_spec in Ec as [_ ?].
  - intros csr Ecsr. rewrite Ecsr in H. by destruct (Csr.check_tunnel_request _ _ _ _ csr) as [[]|] eqn:Ec.
Qed.
End Imports.

(** *** The records a server writes

    [server_record] spells out what [create] and [bind_certificate] leave in a record, without [check]: the tunnel's own
    hostname, a token hash as [hash_token] gives it, and a certificate request for the tunnel's names that is stored with the
    names it asks for. *)
Section ServerRecords.
Context (parse_x509 : string -> option (list string * list string)) (domain : string).

Definition tunnel_names (id : string) (names : list string) : Prop :=
  let hostname := id +:+ "." +:+ domain in
  names = [hostname] \/ names = [hostname; "*." +:+ hostname] \/ names = ["*." +:+ hostname; hostname].

Definition server_record (r : StoredTunnel) : Prop :=
  Csr.valid_tunnel_id (st_id r) = true /\ st_hostname r = st_id r +:+ "." +:+ domain /\
  length (as_bytes (token_hash r)) = 64%nat /\ Forall (fun b => is_hexdigit b = true) (as_bytes (token_hash r)) /\
  (forall names, certificate_identifiers r = Some names -> tunnel_names (st_id r) names) /\
  (forall csr, certificate_csr r = Some csr -> exists request, Csr.parse parse_x509 csr = Some request /\
     Csr.hostname request = st_hostname r /\ Csr.identifiers request = identifiers r).

Definition server_db (d : Db) : Prop := forall id row, tunnels d !! id = Some row -> st_id (t_record row) = id /\ server_record (t_record row).

Lemma tunnel_names_own id names : tunnel_names id names -> own_names id domain names.
Proof. unfold tunnel_names, own_names. by intros [->|[->| ->]]; cbn; auto. Qed.

Lemma server_record_names r : server_record r -> tunnel_names (st_id r) (identifiers r).
Proof. intros (_ & Hh & _ & _ & Hn & _). unfold identifiers. destruct (certificate_identifiers r); [by apply Hn|]. rewrite Hh. by left. Qed.

(** The names a request asks for are found among themselves. *)
Lemma names_found names : forallb (fun name => existsb (fun i => Csr.eq_ignore_ascii_case i name) names) names = true.
Proof.
  apply forallb_forall. intros name Hn. apply existsb_exists. exists name. split; [done|]. by apply eq_ignore_ascii_case_spec.
Qed.

(** [check] takes every record a server writes: nothing of a backup is refused. *)
Lemma server_record_checked r : server_record r -> check parse_x509 r domain = Ok tt.
Proof.
  intros Hr. pose proof (server_record_names _ Hr) as Hnames%tunnel_names_own. destruct Hr as (Hid & Hh & Hl & Hhex & Hn & Hc).
  assert (Csr.check_tunnel_names (st_id r) domain (identifiers r) = Ok tt) as Hok by (by apply check_tunnel_names_spec).
  unfold check. rewrite Hid, Hh, String.eqb_refl. unfold str_len. rewrite Hl.
  assert (forallb is_hexdigit (as_bytes (token_hash r)) = true) as ->.
  { apply forallb_forall. intros b Hb%list_elem_of_In. rewrite Forall_forall in Hhex. by apply Hhex. }
  cbn [negb Nat.eqb andb]. destruct (certificate_csr r) as [csr|].
  - destruct (Hc csr eq_refl) as (request & Hp & Hrh & Hri). unfold Csr.check_tunnel_request. rewrite Hok, Hp. cbn [result_bind ok_or].
    rewrite Hrh, Hh, (proj2 (eq_ignore_ascii_case_spec _ _) eq_refl), Hri, Nat.eqb_refl, names_found. done.
  - unfold identifiers in Hok. destruct (certificate_identifiers r); [by rewrite Hok|done].
Qed.

Lemma server_db_own d : server_db d -> own_db parse_x509 domain d.
Proof. intros Hd id row Hrow. destruct (Hd _ _ Hrow). split; [done|]. by apply server_record_checked. Qed.

(** [parse] keeps no name twice. *)
Lemma parse_names_NoDup csr request : Csr.parse parse_x509 csr = Some request -> NoDup (Csr.identifiers request).
Proof.
  unfold Csr.parse. destruct (parse_x509 csr) as [[cns names]|]; [|done]. intros [= <-]. cbn.
  set (step := fun acc name => if bool_decide (name ∈ acc) then acc else acc ++ [name]).
  assert (forall acc, NoDup acc -> NoDup (fold_left step names acc)) as H.
  { induction names as [|n names IH]; intros acc Hacc; cbn; [done|]. apply IH. unfold step. case_bool_decide; [done|].
    apply NoDup_app. split_and!; [done|by intros x Hx ->%list_elem_of_singleton|apply NoDup_singleton]. }
  case_bool_decide; [apply NoDup_singleton|]. by apply H, NoDup_nil.
Qed.

(** What [bind_certificate] demands of a request's names, with the hostname among them, leaves those [check] asks for. *)
Lemma bound_names id names :
  let hostname := id +:+ "." +:+ domain in
  NoDup names -> Forall (fun i => i = hostname \/ i = "*." +:+ hostname) names -> hostname ∈ names -> tunnel_names id names.
Proof.
  intros hostname Hnd Hall Hin. unfold tunnel_names. fold hostname. destruct names as [|x [|y [|z l]]]; [by apply elem_of_nil in Hin|..].
  - apply list_elem_of_singleton in Hin as <-. by left.
  - apply NoDup_cons in Hnd as [Hx _]. rewrite list_elem_of_singleton in Hx. rewrite !Forall_cons in Hall. destruct Hall as ([->| ->] & [->| ->] & _); try done; auto.
  - exfalso. apply NoDup_cons in Hnd as [Hx Hnd]. apply NoDup_cons in Hnd as [Hy _]. rewrite !not_elem_of_cons in Hx. rewrite not_elem_of_cons in Hy.
    rewrite !Forall_cons in Hall. destruct Hall as ([->| ->] & [->| ->] & [->| ->] & _); tauto.
Qed.

(** The record [create] saves, and the one [bind_certificate] saves of a request it accepts that asks for the hostname. *)
Lemma new_record_server `{TimeText} id now hash :
  Csr.valid_tunnel_id id = true -> length (as_bytes hash) = 64%nat -> Forall (fun b => is_hexdigit b = true) (as_bytes hash) ->
  server_record (new_record id now domain hash).
Proof. intros Hid Hl Hh. by split_and!. Qed.

Lemma bound_server `{TimeText} now certificate_id csr request r :
  server_record r -> Csr.parse parse_x509 csr = Some request -> Csr.hostname request = st_hostname r ->
  existsb (fun i => negb (String.eqb i (st_hostname r)) && negb (String.eqb i ("*." +:+ st_hostname r))) (Csr.identifiers request) = false ->
  st_hostname r ∈ Csr.identifiers request ->
  server_record (bound now certificate_id csr (Csr.identifiers request) r).
Proof.
  intros (Hid & Hh & Hl & Hhex & Hn & Hc) Hp Hrh Hex Hin. split_and!; try done.
  - cbn. intros names [= <-]. apply bound_names; [by eapply parse_names_NoDup| |by rewrite <- Hh].
    apply Forall_forall. intros i Hi%list_elem_of_In. rewrite <- Hh. destruct (String.eqb_spec i (st_hostname r)) as [|E1]; [by left|].
    destruct (String.eqb_spec i ("*." +:+ st_hostname r)) as [|E2]; [by right|]. exfalso.
    enough (existsb (fun i => negb (String.eqb i (st_hostname r)) && negb (String.eqb i ("*." +:+ st_hostname r))) (Csr.identifiers request) = true) by congruence.
    apply existsb_exists. exists i. split; [done|]. apply String.eqb_neq in E1, E2. by rewrite E1, E2.
  - cbn. intros csr' [= <-]. eauto.
Qed.

(** A request whose only alternative name is the tunnel's wildcard passes the guards of [bind_certificate], but [check] refuses
    the record it leaves (and the certificate job its names). *)
Lemma wildcard_only_refused `{TimeText} now certificate_id csr r :
  let wildcard := "*." +:+ st_hostname r in
  server_record r -> Csr.parse parse_x509 csr = Some (Csr.mkRequest (st_hostname r) [wildcard]) ->
  existsb (fun i => negb (String.eqb i (st_hostname r)) && negb (String.eqb i wildcard)) [wildcard] = false /\
  check parse_x509 (bound now certificate_id csr [wildcard] r) domain = Err (NotOwnRequest (Csr.NotRequested (st_hostname r))).
Proof.
  intros wildcard (Hid & Hh & Hl & Hhex & _) Hp. split; [cbn; by rewrite String.eqb_refl, andb_false_r|].
  assert (exists b, b = bound now certificate_id csr [wildcard] r) as [b Hb] by eauto. rewrite <- Hb.
  assert (st_id b = st_id r /\ st_hostname b = st_hostname r /\ token_hash b = token_hash r /\ certificate_csr b = Some csr /\ certificate_identifiers b = Some [wildcard])
    as (E1 & E2 & E3 & E4 & E5) by (by rewrite Hb).
  unfold check, identifiers. rewrite E1, E2, E3, E4, E5, Hid, <- Hh, String.eqb_refl. unfold str_len. rewrite Hl.
  assert (forallb is_hexdigit (as_bytes (token_hash r)) = true) as ->.
  { apply forallb_forall. intros x Hx%list_elem_of_In. rewrite Forall_forall in Hhex. by apply Hhex. }
  cbn [negb Nat.eqb andb]. unfold Csr.check_tunnel_request, Csr.check_tunnel_names. rewrite Hid, <- Hh. fold wildcard. cbn [negb length Nat.eqb Nat.ltb Nat.leb orb Csr.check_each existsb].
  rewrite (proj2 (eq_ignore_ascii_case_spec wildcard wildcard) eq_refl), andb_false_r. cbn [result_bind].
  destruct (Csr.eq_ignore_ascii_case wildcard (st_hostname r)) eqn:E; [|done]. exfalso. apply eq_ignore_ascii_case_spec, (f_equal str_len) in E.
  unfold wildcard in E. rewrite to_ascii_lowercase_app in E. unfold str_len in E. rewrite as_bytes_app, length_app in E. cbn in E. lia.
Qed.
End ServerRecords.

(** *** The text of a file *)

(** The document: its records separated by commas, each on a line of its own. *)
Definition document (json : ExportedRecord -> string) (string_json : string -> string) (time : string) (l : list ExportedRecord) : string :=
  opening string_json time +:+ match l with [] => "" | _ => nl +:+ String.concat ("," +:+ nl) (map json l) end +:+ closing.

Lemma page_text_concat json rows : forall row,
  json (exported row) +:+ page_text json false rows = String.concat ("," +:+ nl) (map json (map exported (row :: rows))).
Proof.
  induction rows as [|row' rows IH]; intros row; [by rewrite str_app_nil|]. cbn [page_text map String.concat]. rewrite IH.
  cbn [map String.concat]. by rewrite <- !string_app_assoc.
Qed.

Lemma exported_document json string_json time rows :
  opening string_json time +:+ page_text json true rows +:+ closing = document json string_json time (map exported rows).
Proof. unfold document. destruct rows as [|row rows]; [done|]. cbn [page_text]. by rewrite page_text_concat. Qed.

(** What an import relies on of the JSON library: a document of written records is read as those records. *)
Definition reads_back (json : ExportedRecord -> string) (string_json : string -> string) (read_file : bytes -> result ExportFile string) (time : string) (d : Db) : Prop :=
  forall rows, Forall (fun row : ExportRow => export_row d row.1.1 = Some row) rows ->
    read_file (as_bytes (document json string_json time (map exported rows))) = Ok (mkExportFile 1 (Some time) (map exported rows)).

(** *** Into a database without the tunnels *)

Section Restore.
Context (parse_x509 : string -> option (list string * list string)) (domain : string) (force : bool) (clock : nat -> Z) (d : Db).
Hypothesis Hown : own_db parse_x509 domain d.
Hypothesis Halarms : forall id row a, tunnels d !! id = Some row -> t_alarm_at row = Some a -> 0 < a < 2 ^ 53.

(** One exported row into a database without it. *)
Lemma import_row_fresh i row s id rec alarm d0 :
  row = (id, rec, alarm) -> export_row d id = Some row -> tunnels d0 !! id = None ->
  exists new, import_record parse_x509 domain force clock i (exported row) s (d0, []) =
      (Ok (push_id id (count_outcome Inserted s)), (set_tunnels (<[id := new]> (tunnels d0)) d0, [])) /\
    t_record new = rec /\ t_alarm_at new = alarm.
Proof using Hown Halarms.
  intros -> Hrow Hnone. unfold export_row in Hrow. destruct (tunnels d !! id) as [old|] eqn:Eold; [|done]. cbn in Hrow. injection Hrow as <- <-.
  destruct (Hown _ _ Eold) as [Hid Hcheck]. unfold import_record. cbn [exported er_record er_alarm]. rewrite Hcheck.
  assert ((let* a := f64_of_u64 <$> t_alarm_at old in if f64_positive a then Some (f64_as_u64 a) else None) = t_alarm_at old) as ->.
  { destruct (t_alarm_at old) as [a|] eqn:Ea; [|done]. cbn. destruct (f64_round_trip a (Halarms _ _ _ Eold Ea)) as [-> ->]. done. }
  unfold bind, import_tunnel, bind, stmt. cbn [next_turn others fault]. cbn [run fold_left exec]. rewrite Hid, Hnone.
  destruct (record_flags (t_record old)) as [dl iss]. eexists. split; [done|]. done.
Qed.

Lemma import_rows_fresh rows : forall i s d0,
  NoDup (row_ids rows) -> Forall (fun row : ExportRow => export_row d row.1.1 = Some row /\ tunnels d0 !! row.1.1 = None) rows ->
  exists s' d1, import_records parse_x509 domain force clock i (map exported rows) s (d0, []) = (Ok s', (d1, [])) /\
    inserted s' = (inserted s + length rows)%nat /\ rejected s' = rejected s /\ skipped s' = skipped s /\ ids s' = ids s ++ row_ids rows /\
    (forall id, (id ∉ row_ids rows) -> tunnels d1 !! id = tunnels d0 !! id) /\
    (forall id rec alarm, (id, rec, alarm) ∈ rows -> exists new, tunnels d1 !! id = Some new /\ t_record new = rec /\ t_alarm_at new = alarm).
Proof using Hown Halarms.
  induction rows as [|[[id rec] alarm] rows IH]; intros i s d0 Hnd Hrows.
  - exists s, d0. rewrite app_nil_r, Nat.add_0_r. split_and!; try done. by intros ? ? ? ?%elem_of_nil.
  - cbn [map] in Hnd. apply NoDup_cons in Hnd as [Hn Hnd]. apply Forall_cons in Hrows as [[Hrow Hnone] Hrows]. cbn [fst] in *.
    destruct (import_row_fresh i _ s id rec alarm d0 eq_refl Hrow Hnone) as (new & E & Hrec & Halarm).
    cbn [map import_records]. unfold bind at 1. rewrite E.
    edestruct (IH (S i) (push_id id (count_outcome Inserted s)) (set_tunnels (<[id := new]> (tunnels d0)) d0)) as (s' & d1 & E' & Hi & Hr & Hsk & Hids & Hout & Hin); [done| |].
    { rewrite Forall_forall in Hrows |- *. intros row Hel. destruct (Hrows _ Hel). split; [done|]. cbn.
      rewrite lookup_insert_ne; [done|]. intros ->. apply Hn. by apply (list_elem_of_fmap_2 (fun row : ExportRow => row.1.1)). }
    exists s', d1. split_and!; [done|..].
    + rewrite Hi. cbn. lia.
    + rewrite Hr. done.
    + rewrite Hsk. done.
    + rewrite Hids. cbn. by rewrite <- app_assoc.
    + intros id' [Hne Hid']%not_elem_of_cons. rewrite Hout by done. cbn. by rewrite lookup_insert_ne.
    + intros id' rec' alarm' [[= -> -> ->]|Hel]%elem_of_cons; [|by apply Hin].
      exists new. rewrite Hout by done. cbn. by rewrite lookup_insert_eq.
Qed.
End Restore.

(** An import writes only the rows it reports. *)
Section Reported.
Context (parse_x509 : string -> option (list string * list string)) (domain : string) (force : bool) (clock : nat -> Z).

Lemma import_tunnel_frame record alarm now d r w :
  import_tunnel record alarm force now (d, []) = (r, w) -> w.2 = [] /\ forall id, id <> st_id record -> tunnels w.1 !! id = tunnels d !! id.
Proof.
  unfold import_tunnel, bind, stmt. cbn [next_turn others fault run fold_left exec].
  destruct (tunnels d !! st_id record) as [row|] eqn:E.
  - cbn [next_turn others fault run fold_left exec]. rewrite E. destruct (t_local_update row && negb force); [by intros [= <- <-]|]. case_bool_decide; [by intros [= <- <-]|].
    destruct (record_flags record) as [dl iss]. intros [= <- <-]. split; [done|]. intros id Hid. cbn. by rewrite lookup_insert_ne.
  - destruct (record_flags record) as [dl iss]. intros [= <- <-]. split; [done|]. intros id Hid. cbn. by rewrite lookup_insert_ne.
Qed.

Lemma import_records_reported l : forall i s d s' w,
  import_records parse_x509 domain force clock i l s (d, []) = (Ok s', w) ->
  (forall id, id ∈ ids s -> id ∈ ids s') /\ forall id, (id ∉ ids s') -> tunnels w.1 !! id = tunnels d !! id.
Proof.
  induction l as [|entry l IH]; intros i s d s' w; cbn [import_records]; [by intros [= <- <-]|]. unfold bind at 1, import_record.
  destruct (er_record entry) as [record|]; [|by intros H; apply IH in H as [? ?]].
  destruct (check parse_x509 record domain); [|by intros H; apply IH in H as [? ?]].
  unfold bind. destruct (import_tunnel _ _ _ _ _) as [[o|e] [d1 turns1]] eqn:E; [|done].
  apply import_tunnel_frame in E as [E2 Hd]. cbn in E2, Hd. subst turns1. cbn [ret]. intros H. apply IH in H as [Hids Hrows].
  assert (st_id record ∈ ids s') as Hrec by (apply Hids; cbn; apply elem_of_app; right; by apply list_elem_of_singleton). split.
  - intros id Hid. apply Hids. destruct o; cbn; apply elem_of_app; by left.
  - intros id Hid. rewrite Hrows by done. apply Hd. by intros ->.
Qed.
End Reported.

(** *** A quiet export, and its import *)

Lemma own_db_named parse_x509 domain d id row : own_db parse_x509 domain d -> tunnels d !! id = Some row -> id <> "".
Proof. intros Hown Hid ->. destruct (Hown _ _ Hid) as [E Hc]. apply check_sound in Hc as (_ & Hv & _). by rewrite E in Hv. Qed.

Lemma export_quiet json string_json page time d :
  (forall id row, tunnels d !! id = Some row -> id <> "") ->
  exists chunks rows w,
    export_pages json string_json (S (size (tunnels d))) (Nat.max page 1) time (S (S (S (size (tunnels d))))) (d, []) = (chunks, rows, Complete, w) /\
    chunks_text chunks = opening string_json time +:+ page_text json true rows +:+ closing /\ NoDup (row_ids rows) /\
    (forall id, id ∈ row_ids rows <-> is_Some (tunnels d !! id)) /\ Forall (fun row : ExportRow => export_row d row.1.1 = Some row) rows.
Proof.
  intros Hnamed.
  destruct (pages_complete json (Nat.max page 1) ltac:(lia) (S (size (tunnels d))) None true (S (S (size (tunnels d)))) d [] (List.Forall_nil _)) as (chunks & rows & w & Hp & Ht & Hs & Hgt & Hin & Hrows).
  { split; [|lia]. cbn. unfold ids_after. rewrite merge_sort_Permutation. apply Nat.lt_succ_r. etransitivity; [apply length_filter|].
    by rewrite length_map, length_map_to_list. }
  assert (forall row, row ∈ rows -> export_row d row.1.1 = Some row) as Hrow by (intros row [k Hk]%Hrows; by rewrite take_nil in Hk).
  exists (opening string_json time :: chunks), rows, w. cbn [export_pages]. rewrite Hp, chunks_text_cons, Ht. split_and!; [done|done|..].
  - clear -Hs. induction Hs as [|x l Hl IH Hx]; constructor; [|done]. intros Hel. rewrite Forall_forall in Hx. apply Hx in Hel. by apply id_lt_irrefl in Hel.
  - intros id. split.
    + intros (row & -> & Hel)%list_elem_of_fmap. apply Hrow in Hel. unfold export_row in Hel. by destruct (tunnels d !! row.1.1).
    + intros [row Hid]. apply Hin; [done|]. by eapply id_lt_empty, Hnamed.
  - by apply Forall_forall.
Qed.

Lemma import_quiet parse_x509 domain force clock d rows d0 time :
  own_db parse_x509 domain d -> (forall id row a, tunnels d !! id = Some row -> t_alarm_at row = Some a -> 0 < a < 2 ^ 53) ->
  NoDup (row_ids rows) -> (forall id, id ∈ row_ids rows <-> is_Some (tunnels d !! id)) ->
  Forall (fun row : ExportRow => export_row d row.1.1 = Some row) rows -> tunnels d0 = ∅ ->
  exists s d1, import parse_x509 domain force clock (mkExportFile 1 time (map exported rows)) (d0, []) = (Ok (Ok s), (d1, [])) /\
    inserted s = size (tunnels d) /\ rejected s = [] /\ skipped s = 0%nat /\
    forall id, (fun row => (t_record row, t_alarm_at row)) <$> tunnels d1 !! id = (fun row => (t_record row, t_alarm_at row)) <$> tunnels d !! id.
Proof.
  intros Hown Halarms Hnd Hdom Hrow Hempty.
  destruct (import_rows_fresh parse_x509 domain force clock d Hown Halarms rows 0 no_summary d0 Hnd) as (s & d1 & Hi & Hins & Hrej & Hsk & _ & Hout & Hnew).
  { eapply Forall_impl; [exact Hrow|]. intros row Hel. split; [done|]. by rewrite Hempty. }
  rewrite Forall_forall in Hrow. exists s, d1. split_and!; [|rewrite Hins|done..|].
  - unfold import, bind. cbn [ef_version records Z.eqb Pos.eqb]. by rewrite Hi.
  - cbn. rewrite <- (length_map (fun row : ExportRow => row.1.1)), <- length_map_to_list, <- (length_map fst). apply Permutation_length, NoDup_Permutation; [done|apply NoDup_fst_map_to_list|].
    intros id. rewrite Hdom. split.
    + intros [row Hid]. apply (list_elem_of_fmap_2 fst _ (id, row)). by apply elem_of_map_to_list.
    + intros ([id' row] & -> & Hel%elem_of_map_to_list)%list_elem_of_fmap. eauto.
  - intros id. destruct (tunnels d !! id) as [row|] eqn:Eid.
    + assert (id ∈ row_ids rows) as (row' & -> & Hel)%list_elem_of_fmap by (apply Hdom; eauto). pose proof (Hrow _ Hel) as Hr.
      destruct row' as [[id rec] al]. cbn [fst] in *. destruct (Hnew _ _ _ Hel) as (new & -> & <- & <-). unfold export_row in Hr. rewrite Eid in Hr. cbn in *. congruence.
    + rewrite Hout; [by rewrite Hempty|]. rewrite Hdom, Eid. by intros [? ?].
Qed.

(** *** The admin's token *)

Lemma fold_difference l : forall acc, fold_left (fun difference ab => Z.lor difference (Z.lxor ab.1 ab.2)) l acc = 0 <-> acc = 0 /\ Forall (fun ab : Z * Z => ab.1 = ab.2) l.
Proof.
  induction l as [|[a b] l IH]; intros acc; cbn [fold_left]; [rewrite Forall_nil; tauto|].
  rewrite IH, Forall_cons, Z.lor_eq_0_iff, Z.lxor_eq_0_iff. cbn. tauto.
Qed.

Lemma token_matches_spec hash_token token hash : token_matches hash_token token hash = true <-> hash_token token = hash.
Proof.
  unfold token_matches. set (a := hash_token token). rewrite andb_true_iff, Nat.eqb_eq, Z.eqb_eq, fold_difference. split.
  - intros [Hlen [_ Hall]]. apply (inj as_bytes). revert Hlen Hall. generalize (as_bytes a) (as_bytes hash). intros l.
    induction l as [|x l IH]; intros [|y l'] Hlen Hall; try done. cbn in *. apply Forall_cons in Hall as [Hxy Hall]. cbn in Hxy. subst y. f_equal. apply IH; [lia|done].
  - intros ->. split_and!; [done|done|]. induction (as_bytes hash) as [|x l IH]; constructor; done.
Qed.

(** Only the holder of the configured secret is let in; with the empty one nobody is. *)
Theorem admin_needs_token hash_token admin_hash token :
  authorized hash_token admin_hash token = true <-> token <> "" /\ hash_token token = admin_hash.
Proof.
  unfold authorized. rewrite andb_true_iff, token_matches_spec. unfold str_is_empty. rewrite negb_true_iff, bool_decide_eq_false. done.
Qed.

(** ** Claims *)

(** C19: an export that runs while other servers write ends, in at most one page more than there are tunnels at its end, and its
    text is one document with every record separated from the next, whatever the size of a page. The records are in the order
    of their IDs, none twice; every tunnel there was when it started is among them, and each record is what its row held at
    some moment of the export. *)
Theorem export_complete json string_json page time d turns room :
  answered_turns turns -> (S (S (size (tunnels (run (all_others turns) d)))) < room)%nat -> (0 < page)%nat ->
  exists chunks rows w, export_pages json string_json (S (size (tunnels (run (all_others turns) d)))) page time room (d, turns) = (chunks, rows, Complete, w) /\
    chunks_text chunks = opening string_json time +:+ page_text json true rows +:+ closing /\
    StronglySorted id_lt (row_ids rows) /\
    (forall id, is_Some (tunnels d !! id) -> id <> "" -> id ∈ row_ids rows) /\
    (forall row, row ∈ rows -> exists k, export_row (run (all_others (take k turns)) d) row.1.1 = Some row).
Proof.
  intros Ha Hroom Hpage. destruct room as [|room]; [lia|]. cbn [export_pages].
  destruct (pages_complete json page Hpage (S (size (tunnels (run (all_others turns) d)))) None true room d turns Ha) as (chunks & rows & w & -> & Ht & Hs & _ & Hin & Hrows).
  { split; [|lia]. unfold ids_after. rewrite merge_sort_Permutation. apply Nat.lt_succ_r. etransitivity; [apply length_filter|].
    by rewrite length_map, length_map_to_list. }
  eexists _, _, _. split; [done|]. rewrite chunks_text_cons, Ht. split_and!; [done|done| |done]. intros id Hid Hne. apply Hin; [done|]. by apply id_lt_empty.
Qed.


(** C20: an import, whatever the file and whatever other servers write meanwhile, and also when it fails halfway, leaves a database in
    which every tunnel has its own hostname and every certificate request and list of names is for that tunnel's names alone:
    a restored record cannot make the server order a certificate for another name of the zone. *)
Theorem import_keeps_own parse_x509 domain force clock file d turns r d' turns' id row :
  own_db parse_x509 domain d -> turns_keep (writes_own parse_x509 domain) turns ->
  import parse_x509 domain force clock file (d, turns) = (r, (d', turns')) -> tunnels d' !! id = Some row ->
  st_hostname (t_record row) = id +:+ "." +:+ domain /\
  (certificate_csr (t_record row) <> None \/ certificate_identifiers (t_record row) <> None -> own_names id domain (identifiers (t_record row))) /\
  (forall csr, certificate_csr (t_record row) = Some csr -> Csr.check_tunnel_request parse_x509 id domain (identifiers (t_record row)) csr = Ok tt).
Proof.
  intros Hd Ht Hi Hrow. enough (own_db parse_x509 domain d') as Hd'.
  { destruct (Hd' _ _ Hrow) as [<- Hc]. apply check_sound in Hc as (? & _ & ? & ?). auto. }
  unfold import, bind in Hi. destruct (ef_version file =? 1); [|by injection Hi as <- <- <-].
  destruct (import_records _ _ _ _ _ _ _ _) as [s [d1 turns1]] eqn:E. destruct (import_records_own _ _ _ _ _ _ _ _ _ _ _ _ Hd Ht E) as [? _].
  destruct s; by injection Hi as <- <- <-.
Qed.

(** An import that succeeds forgets the cached copy of every tunnel it changed. *)
Theorem import_forgets_copies parse_x509 read_file version_error store_error domain clock machine query body d summary forgotten w id :
  handle parse_x509 read_file version_error store_error domain clock machine ("import?" +:+ query) body (d, []) = (AdminImported summary, forgotten, w) ->
  tunnels w.1 !! id <> tunnels d !! id -> id ∈ forgotten.
Proof.
  intros H Hne. unfold handle in H. rewrite (proj2 (str_split_once_Some _ _ "import" query)) in H by (split; [done|]; rewrite list_elem_of_In; vm_compute; intuition discriminate).
  cbn [String.eqb Ascii.eqb Bool.eqb] in H. destruct (read_file body) as [file|]; [|done].
  unfold import, bind in H. destruct (ef_version file =? 1); [|done].
  destruct (import_records _ _ _ _ _ _ _ _) as [[s|e] w'] eqn:E; [|done]. cbn [ret] in H. injection H as <- <- <-.
  destruct (decide (id ∈ ids s)) as [|Hn]; [done|]. destruct Hne. by eapply import_records_reported.
Qed.

(** ** A sample, and what the claims say of it *)

Module Demo.
Definition zeros : string := "0000000000000000000000000000000000000000000000000000000000000000".
Definition sample (id : string) : StoredTunnel :=
  mkStoredTunnel 1 id (id +:+ ".example.com") Offline None zeros "2026-01-01T00:00:00.000Z" None None None (Some [id +:+ ".example.com"]) None None None.
Definition row (id : string) (alarm : option Z) : TunnelRow := mkTunnelRow (sample id) 1 false false alarm 5 None true.
Definition db : Db := mkDb {[ "a" := row "a" (Some 1790000000000); "b" := row "b" None; "c" := row "c" None ]} ∅ ∅ ∅ ∅.
Definition empty_db : Db := mkDb ∅ ∅ ∅ ∅ ∅.
Definition no_x509 (csr : string) : option (list string * list string) := None.
Definition json (r : ExportedRecord) : string := match er_record r with Some t => st_id t | None => "" end.

(** For a backup: tunnels whose IDs are digits, the second with a certificate request for its hostname and wildcard; a record's text is
    its ID, and a file is read by its digits. *)
Definition names (id : string) : list string := [id +:+ ".example.com"; "*." +:+ id +:+ ".example.com"].
Definition x509 (csr : string) : option (list string * list string) := Some ([csr +:+ ".example.com"], names csr).
Definition requested (id : string) : StoredTunnel := set_certificate_csr (Some id) (set_certificate_identifiers (Some (names id)) (sample id)).
Definition backup : Db :=
  mkDb {[ "7" := row "7" (Some 1790000000000); "8" := mkTunnelRow (requested "8") 3 false true None 5 None true; "9" := row "9" None ]} ∅ ∅ ∅ ∅.
Definition read_row (b : Z) : option ExportRow := if (55 <=? b) && (b <=? 57) then export_row backup (of_bytes [b]) else None.
Definition read_digits (text : bytes) : result ExportFile string := Ok (mkExportFile 1 (Some "now") (map exported (omap read_row text))).
Definition turns : list Turn := [mkTurn [SInsertTunnel (sample "d") 7] Answered].
Definition file (ids : list string) : ExportFile := mkExportFile 1 None (map (fun id => mkExportedRecord None (Some (sample id)) (Some (mkF64 9 0))) ids).

Lemma db_own : own_db no_x509 "example.com" db.
Proof. intros id r. unfold db. cbn. rewrite !lookup_insert_Some, lookup_singleton_Some. intros [[<- <-]|[_ [[<- <-]|[_ [<- <-]]]]]; by vm_compute. Qed.

Lemma backup_rows id r :
  tunnels backup !! id = Some r ->
  id = "7" /\ r = row "7" (Some 1790000000000) \/ id = "8" /\ r = mkTunnelRow (requested "8") 3 false true None 5 None true \/ id = "9" /\ r = row "9" None.
Proof. unfold backup. cbn. rewrite !lookup_insert_Some, lookup_singleton_Some. naive_solver. Qed.

Lemma backup_server : server_db x509 "example.com" backup.
Proof.
  intros id r H%backup_rows. destruct H as [[-> ->]|[[-> ->]|[-> ->]]]; (split; [done|]); split_and!; try done;
    try (by repeat constructor); cbn; intros ? [= <-]; first [by left | by right; left | eauto].
Qed.

Lemma backup_row_text r : export_row backup r.1.1 = Some r -> omap read_row (as_bytes (json (exported r))) = [r].
Proof.
  destruct r as [[id rec] alarm]. unfold export_row. cbn [fst]. destruct (tunnels backup !! id) as [row0|] eqn:E; [|done]. apply backup_rows in E.
  intros [= <- <-]. by destruct E as [[-> ->]|[[-> ->]|[-> ->]]]; vm_compute.
Qed.

Lemma backup_reads_back : reads_back json (fun time => time) read_digits "now" backup.
Proof.
  intros rows Hrows. unfold read_digits, document. do 3 f_equal. rewrite !as_bytes_app, !omap_app.
  change (omap read_row (as_bytes (opening _ _))) with (@nil ExportRow). change (omap read_row (as_bytes closing)) with (@nil ExportRow). rewrite app_nil_r. cbn [app].
  destruct rows as [|row rows]; [done|]. cbn [map]. rewrite as_bytes_app, omap_app. change (omap read_row (as_bytes nl)) with (@nil ExportRow). cbn [app].
  apply Forall_cons in Hrows as [Hr Hrows]. revert row Hr. induction Hrows as [|row' rows Hr' _ IH]; intros row Hr; cbn [map String.concat]; [by apply backup_row_text|].
  rewrite !as_bytes_app, !omap_app, backup_row_text by done. change (omap read_row (as_bytes ("," +:+ nl))) with (@nil ExportRow). cbn [app]. f_equal. by apply IH.
Qed.

Lemma empty_own : own_db no_x509 "example.com" empty_db.
Proof. intros id r. cbn. by rewrite lookup_empty. Qed.
End Demo.

(** With a tunnel added while the first page is read. *)
Lemma export_complete_witness : exists chunks rows w, export_pages Demo.json id 5 2 "now" 10 (Demo.db, Demo.turns) = (chunks, rows, Complete, w).
Proof.
  destruct (export_complete Demo.json id 2 "now" Demo.db Demo.turns 10) as (chunks & rows & w & H & _).
  - by repeat constructor.
  - vm_compute. lia.
  - lia.
  - exists chunks, rows, w. exact H.
Defined.


Lemma import_keeps_own_witness : st_hostname (Demo.sample "x") = "x.example.com".
Proof.
  assert (exists d' row, import Demo.no_x509 "example.com" false (fun _ => 9) (Demo.file ["x"]) (Demo.empty_db, [mkTurn [SInsertTunnel (Demo.sample "d") 7] Answered]) = (Ok (Ok (mkImportSummary 1 0 0 0 0 [] ["x"])), (d', [])) /\
    tunnels d' !! "x" = Some row /\ t_record row = Demo.sample "x") as (d' & row & Hi & Hrow & <-) by (eexists _, _; split_and!; vm_compute; reflexivity).
  refine (proj1 (import_keeps_own Demo.no_x509 "example.com" false (fun _ => 9) (Demo.file ["x"]) Demo.empty_db [mkTurn [SInsertTunnel (Demo.sample "d") 7] Answered] _ d' [] "x" row Demo.empty_own _ Hi Hrow)).
  by repeat constructor.
Defined.

(** An import that fails after some records keeps what it wrote and forgets no cached copy: here the second record's
    statement is lost. *)
Theorem failed_import_stale :
  exists d', handle Demo.no_x509 (fun _ => Ok (Demo.file ["x"; "y"])) (fun _ => "version") (fun _ => "database") "example.com" (fun _ => 9) (mkMachineCounts 0 0 None)
      "import" [] (Demo.empty_db, [mkTurn [] Answered; mkTurn [] Lost]) = (AdminBadRequest "database", [], (d', [])) /\
    is_Some (tunnels d' !! "x").
Proof. eexists. split; [vm_compute; reflexivity|]. vm_compute. eauto. Qed.
